(* ===== verification/_CoqProject ===== *)
-Q . S2P
Prelude.v
Prog.v
Vfs.v
Fsm.v
Modes.v
Policy.v
Inode.v
ChunkCache.v
Budget.v
Store.v
FsState.v
Tree.v
Namespace.v
NamespaceInv.v
ReadDir.v
NamespaceSpec.v
Drops.v
Effects.v
Data.v
DataSpec.v
FileSpec.v
DataInv.v
Commit.v
WritePath.v
Keeps.v
Durable.v
CommitSpec.v
SyncSpec.v
Whole.v
System.v
Locks.v
Hold.v
HoldInv.v
HoldSteps.v
HoldFile.v
HoldOps.v
HoldCommit.v
HoldRules.v
HoldRead.v
HoldFlush.v
HoldWrite.v
HoldSync.v
HoldCall.v
Rival.v
Diverge.v
Mount.v
PruneSpec.v
Concrete.v
Demo.v
DataProps.v
CommitProps.v
HoldProps.v
Xdr.v
ReplyCache.v
Rpc.v
RpcSpec.v
Conn.v
ConnSpec.v
NfsWire.v
Nfs3.v
NfsMount.v
NfsSpec.v
NfsServe.v
Blobfs.v
Contract.v
NfsProps.v
SigV4.v
Local.v
LocalSpec.v
S3.v
S3Spec.v
S3Props.v
Check.v
CheckSpec.v
Flags.v
Session.v
