(* ===== verification/Prelude.v ===== *)
(** * StrataFS, verified

    StrataFS (src/) is an NFSv3 server whose filesystem lives in an object
    store. A client's bytes arrive as RPC records; the RPC layer
    (internal/sunrpc) reassembles them, checks the header and the credential,
    consults its duplicate request cache and calls a program; the NFS and MOUNT
    programs (internal/nfs) decode their arguments with XDR (internal/xdr),
    call the interface vfs.FS (internal/vfs) and encode the reply. Its
    implementation (internal/blobfs) keeps the namespace in memory as an inode
    table and file data in write buffers and content-addressed chunks; a commit
    seals the namespace into a snapshot, uploads it and swaps the root pointer
    of the bucket (internal/store) by compare-and-swap. Access checks are a
    policy (internal/policy); the mount mode and what is known of the root
    pointer are table-driven machines (internal/fsm).

    ** Files and what they model

    The data and the operations; each opens with the source it translates.

    - [Prelude]: machine integers, bytes, results, tactics and generic lemmas.
    - [Vfs] (vfs.go): statuses, attributes, callers, errors.
    - [Fsm] (fsm.go), [Modes] (blobfs/mode.go, rootknowledge.go): transition
      tables, the sequential machine, and Atomic.Fire as a step relation over
      interleaved loads and swaps.
    - [Policy] (policy.go): the permission rules and ACCESS bits.
    - [Inode] (blobfs/inode.go): inodes, chunk references, snapshots, handles.
    - [ChunkCache] (blobfs/cache.go): the LRU list with its index.
    - [Budget] (blobfs/budget.go): the dirty-byte budget, [await] as a step
      relation over interleaved callers.
    - [Store] (store.go): the interface of an object store, the promises of its
      comments as the laws [StoreLaws], an in-memory bucket that keeps them, and
      the read-only wrapper.
    - [FsState], [Namespace], [ReadDir] (fs.go): the state FS and every
      namespace operation and query, as functions of it.
    - [Effects], [Data], [WritePath] (fs.go, budget.go): the state and error
      monad [act] over the mount and the store's world; READ, WRITE, truncation
      and flushing.
    - [Commit], [Mount] (commit.go, fs.go New): sealing, the root swap with all
      its outcomes, Sync, pruning, mounting.
    - [Prog]: programs whose steps interleave, loops without a bound among them,
      the pool that runs them and the logic for it. [Hold] (fs.go, commit.go, budget.go): READ, WRITE, SETATTR,
      COMMIT, Sync, the wait for the budget and the namespace operations as such
      programs, one step per hold of a lock, atomic operation or store call, over
      openFile pointers, the commit gate, commitMu and the mutexes of files.
    - [Xdr] (xdr.go), [ReplyCache] (sunrpc/cache.go), [Rpc] (sunrpc/rpc.go),
      [NfsWire] (nfs/wire.go), [Nfs3] (nfs/nfs3.go), [NfsMount] (nfs/mount.go):
      the codec, the cache, record marking and dispatch, and every procedure of
      both programs, against the class [VfsFS] of NfsWire.
    - [Conn] (sunrpc/rpc.go Serve, serveConn): the accept loop, and connections
      as interleaved steps of reading loops and goroutines over the semaphore,
      the wait group, the write mutex and the shared cache, and of clients that
      send and take bytes when they like, or never.
    - [Blobfs]: the filesystem as the instance [blobfs] of [VfsFS].
    - [SigV4] (store/sigv4.go), [S3] (store/s3.go): request signing and the S3
      client as an instance of [Store], over one HTTP exchange ([Transport]),
      the XML decoder ([Xml]) and the hashes ([Crypto]) as parameters.
    - [Local] (store/local.go): the directory store as an instance of [Store],
      over a disk whose every call may fail.
    - [Check] (cmd/strata/check.go), [Flags], [Session] (cmd/strata/main.go, FS.Run,
      committer): the endpoint check against [Store], what becomes of the flags,
      and a process from its mount to its final commit.

    ** Theorems

    - The namespace stays a tree ([Tree], [NamespaceInv]): an abstract tree of
      names with add, remove and rename, refined by the inode-table operations;
      [NamespaceSpec] states what each operation does to names and handles.
    - File contents ([DataSpec], [FileSpec], [DataInv]): a file's bytes are a
      function of its chunks, pending trims and buffers; [DataProps] states READ,
      WRITE and resizing against it, and that the charge is exact.
    - Commits ([Keeps], [Durable], [CommitSpec], [SyncSpec], [Whole]): [sound]
      is the invariant of a mount and its bucket; [System] proves that every
      call keeps it, whichever store calls fail, with or without having taken
      effect; [PruneSpec], [CommitProps] state durability, crash recovery,
      compare-and-swap, divergence, pruning and the settling of lost replies.
      [Rival]: of two mounts of one bucket, the one whose root was moved by the
      other changes nothing of the other's and has none of its changes
      acknowledged, as long as it may not write the root unconditionally.
      [Diverge]: no call makes a mount diverge without a foreign root in the
      bucket. [Session]: a process that exits without an error has committed
      everything it served before its final commit.
    - Calls side by side ([Locks] and the files [Hold*]): [HoldInv] is the
      invariant of the shared state, what each call holds and knows, and a calm
      state of the sequential filesystem; [HoldSteps], [HoldFile], [HoldOps] and
      [HoldCommit] show that each kind of step keeps it; [HoldRules] turns them
      into rules, by which [HoldRead], [HoldFlush], [HoldWrite], [HoldSync] and
      [HoldCall] verify each call. [HoldProps]: in every interleaving calls are
      linearizable, each having the effect of its own request in one step at
      most and its answer explained by its steps; they never deadlock, give back
      every lock and byte they took, a Sync is not refused for a truncate beside
      it, and a crash between any two steps leaves a bucket that mounts.
    - The wire ([RpcSpec], [NfsSpec]): round trips of XDR fields, records,
      credentials and NFS types; bounds on hostile input; replies addressed to
      their calls; retransmissions replayed and not executed. [ConnSpec]: in
      every interleaving goroutines are bounded, no call that must not run twice
      is executed by two of them, clients receive whole replies to records they
      sent, and left alone by its clients the server comes to rest, with every
      connection closed, idle, or stalled on a reply not taken; a goroutine alone
      is [dispatch].
    - The server on any filesystem ([NfsServe], [Contract]): what is garbage
      changes nothing; an invariant each call of vfs.FS keeps is kept by any
      records; [VfsContract] states the promises of vfs.FS, which blobfs is proved
      to keep, and what a client reads off replies; a handle of a removed name is
      stale for good.
    - End to end ([Blobfs], [NfsProps]): a server of a sound mount keeps it
      sound whatever arrives, and what a client is told was written is what
      another reads, from call bytes to reply bytes.
    - The store behind the mount ([S3Spec], [S3Props]): on any service that
      behaves as HTTP and the S3 API document ([Service]) the client keeps
      [StoreLaws], so all of the above holds on it; retries; what is signed.
      [LocalSpec]: the directory store keeps the same laws, wherever a write
      stops, leaves all objects as they were when a write fails, and lists
      exactly its objects.
      [CheckSpec]: the check passes exactly what a mount needs and leaves the
      bucket as it was. [Flags]: no flag wraps.

    [Concrete] instantiates every parameter, [Demo] and the ends of the
    property files evaluate the definitions on a small mount and server.

    ** Idealisations and bounds

    Go integers are [Z] with each wrap written out; times are nanoseconds.
    Clock readings, nonces and the order Go walks maps in are arguments or
    parameters ([RunOrder]). SHA-256 is a parameter without collisions
    ([Digest]); JSON and gzip are a codec with a round trip for valid UTF-8
    text only ([Codec]). Theorems about data assume the mount verifies chunks
    (its default). [Data] and [Commit] have the calls of the filesystem run one
    after another, and the theorems about the server and the process are about
    those, a call that overlaps the final commit falling before or after it;
    [Hold] has them interleave. There a chunk transfer is one step, and so
    is the write of the root pointer with its fallback, since each changes only
    the cache, the set of known chunks and the bucket; queries, which are one hold
    of the namespace lock, and the pruning pass take no part, and inode numbers do
    not run out. Concurrency is modelled too for Atomic.Fire, [await] alone, the
    window between a seal and the end of its upload, and the goroutines of the
    RPC server, where the effect of a procedure falls at one moment between its
    two uses of the cache.
    The laws of a store speak of the keys it takes as they stand ([keyOK]); the
    keys the filesystem makes are among them on every store ([plainKey]). MD5 is
    a parameter of the directory store; its disk has no permissions or links.

    Loops run on fuel that is enough: [bwLoop] gets one more than the bytes to
    write and each turn writes one; [isAncestor] has the code's own bound;
    [readRecord] one more than the bytes of the stream, of which each turn takes
    four; the server's own steps in [Conn] go down a pair of measures; the chunk
    cache's [evict] the length of its list; [awaitLoop] is given the drains it
    runs; the client's [attempts] the retries the code allows. The theorems about
    them include that the result is reached. The wait for the budget in [Hold],
    [awaitP], has no bound: whether its context is done, and the tick of its
    drain, are functions of the round. [listSnapshots] takes
    its fuel as an argument, the pages a pass reads at most, and what is proved
    of pruning holds for every value.

    ** Not modelled

    The HTTP transport, the XML decoder, SHA-256, HMAC and MD5, which are
    parameters. The parsing of the command line, usage and printing; a signal
    and the listener are only the ways serving ends. The optional interfaces of
    vfs.go that nothing implements. Log lines, the warning timers, Stats and the
    text of the check's report. *)

From Stdlib Require Export ZArith Lia.
From Stdlib Require Import Strings.Byte.
From stdpp Require Export base tactics numbers list gmap strings finite option.

Open Scope Z_scope.

(** ** Machine-width integers

    A Go unsigned integer is a [Z] kept in range by an explicit wrap at each
    operation that can leave the range. *)

Definition u32 (z : Z) : Z := z mod 2 ^ 32.
Definition u64 (z : Z) : Z := z mod 2 ^ 64.

Definition is_u32 (z : Z) : Prop := 0 <= z < 2 ^ 32.
Definition is_u64 (z : Z) : Prop := 0 <= z < 2 ^ 64.

Lemma u64_id z : is_u64 z -> u64 z = z.
Proof. apply Z.mod_small. Qed.

Lemma u32_id z : is_u32 z -> u32 z = z.
Proof. apply Z.mod_small. Qed.

Lemma u64_range z : is_u64 (u64 z).
Proof. apply Z.mod_pos_bound. lia. Qed.

Lemma u32_range z : is_u32 (u32 z).
Proof. apply Z.mod_pos_bound. lia. Qed.

(** ** Bytes *)

Abbreviation byte := Byte.byte.
Abbreviation bytes := (list Byte.byte).

Definition zero_byte : byte := Byte.x00.

Definition byte_of_Z (z : Z) : byte :=
  match Byte.of_N (Z.to_N (z mod 256)) with Some b => b | None => zero_byte end.

Definition Z_of_byte (b : byte) : Z := Z.of_N (Byte.to_N b).

#[global] Instance byte_eq_dec : EqDecision byte := Byte.byte_eq_dec.

Lemma Z_of_byte_range b : 0 <= Z_of_byte b < 256.
Proof. unfold Z_of_byte. pose proof (Byte.to_N_bounded b). lia. Qed.

Lemma Z_of_byte_of_Z z : Z_of_byte (byte_of_Z z) = z mod 256.
Proof.
  unfold Z_of_byte, byte_of_Z.
  assert (0 <= z mod 256 < 256) as Hb by (apply Z.mod_pos_bound; lia).
  destruct (Byte.of_N (Z.to_N (z mod 256))) as [b|] eqn:E.
  - apply Byte.to_of_N in E. rewrite E. lia.
  - apply Byte.of_N_None_iff in E. lia.
Qed.

Lemma byte_of_Z_of_byte b : byte_of_Z (Z_of_byte b) = b.
Proof.
  unfold byte_of_Z. rewrite Z.mod_small by apply Z_of_byte_range.
  unfold Z_of_byte. rewrite N2Z.id, Byte.of_to_N. done.
Qed.

(** Big-endian encoding, the byte order of encoding/binary's BigEndian. *)

Fixpoint be_bytes (n : nat) (z : Z) : bytes :=
  match n with
  | O => []
  | S n => be_bytes n (z / 256) ++ [byte_of_Z z]
  end.

Definition be_Z (l : bytes) : Z := fold_left (fun a b => a * 256 + Z_of_byte b) l 0.

Lemma be_bytes_length n z : length (be_bytes n z) = n.
Proof. revert z; induction n; intros z; simpl; [done|]. rewrite length_app, IHn. simpl; lia. Qed.

Lemma be_Z_snoc l b : be_Z (l ++ [b]) = be_Z l * 256 + Z_of_byte b.
Proof. unfold be_Z. rewrite fold_left_app. done. Qed.

Lemma be_Z_bytes n z : be_Z (be_bytes n z) = z mod 256 ^ Z.of_nat n.
Proof.
  revert z; induction n as [|n IH]; intros z.
  { simpl. by rewrite Z.mod_1_r. }
  simpl be_bytes. rewrite be_Z_snoc, IH, Z_of_byte_of_Z.
  rewrite Nat2Z.inj_succ, Z.pow_succ_r by lia.
  rewrite (Z.rem_mul_r z 256) by lia. lia.
Qed.

Lemma be_Z_range l : 0 <= be_Z l < 256 ^ Z.of_nat (length l).
Proof.
  induction l as [|b l IH] using rev_ind; [done|].
  rewrite be_Z_snoc, length_app. simpl length.
  rewrite Nat2Z.inj_add, Z.pow_add_r by lia.
  pose proof (Z_of_byte_range b). change (256 ^ Z.of_nat 1) with 256. lia.
Qed.

Lemma be_bytes_Z l : be_bytes (length l) (be_Z l) = l.
Proof.
  induction l as [|b l IH] using rev_ind; [done|].
  rewrite length_app, Nat.add_comm. simpl be_bytes. rewrite be_Z_snoc.
  pose proof (Z_of_byte_range b) as Hb.
  rewrite Z.div_add_l, (Z.div_small (Z_of_byte b)), Z.add_0_r, IH by lia.
  f_equal. f_equal. rewrite <- (byte_of_Z_of_byte b) at 2.
  unfold byte_of_Z. rewrite Z.add_comm, Z_mod_plus_full. done.
Qed.

(** ** Byte slices

    Go slices indexed by [Z]; [bget] reads a byte and answers zero outside the
    slice, which is what every reader of a buffer in the program sees there. *)

Definition blen {A} (l : list A) : Z := Z.of_nat (length l).
Definition btake {A} (n : Z) (l : list A) : list A := take (Z.to_nat n) l.
Definition bdrop {A} (n : Z) (l : list A) : list A := drop (Z.to_nat n) l.
Definition zeros (n : Z) : bytes := replicate (Z.to_nat n) zero_byte.
Definition bget (l : bytes) (i : Z) : byte :=
  if i <? 0 then zero_byte else nth (Z.to_nat i) l zero_byte.

(** [copy(out[lo:hi], src)]. *)
Definition copy_into (out : bytes) (lo hi : Z) (src : bytes) : bytes :=
  let n := Z.min (hi - lo) (blen src) in
  btake lo out ++ btake n src ++ bdrop (lo + n) out.

Create HintDb strata.

Lemma blen_nonneg {A} (l : list A) : 0 <= blen l.
Proof. unfold blen; lia. Qed.

#[export] Hint Resolve blen_nonneg : strata.

Lemma blen_app {A} (l k : list A) : blen (l ++ k) = blen l + blen k.
Proof. unfold blen. rewrite length_app. lia. Qed.

Lemma blen_take {A} n (l : list A) : 0 <= n -> blen (btake n l) = Z.min n (blen l).
Proof. intros. unfold blen, btake. rewrite length_take. lia. Qed.

Lemma blen_drop {A} n (l : list A) : 0 <= n -> blen (bdrop n l) = Z.max 0 (blen l - n).
Proof. intros. unfold blen, bdrop. rewrite length_drop. lia. Qed.

Lemma blen_zeros n : 0 <= n -> blen (zeros n) = n.
Proof. intros. unfold blen, zeros. rewrite length_replicate. lia. Qed.

Lemma blen_nil {A} : blen (@nil A) = 0.
Proof. done. Qed.

Lemma bget_ge l i : blen l <= i -> bget l i = zero_byte.
Proof.
  intros H. unfold bget, blen in *. destruct (Z.ltb_spec i 0); [done|].
  apply nth_overflow. lia.
Qed.

Lemma bget_neg l i : i < 0 -> bget l i = zero_byte.
Proof. intros. unfold bget. destruct (Z.ltb_spec i 0); [done|lia]. Qed.

Lemma bget_app l k i :
  bget (l ++ k) i = if i <? blen l then bget l i else bget k (i - blen l).
Proof.
  unfold bget, blen. destruct (Z.ltb_spec i 0), (Z.ltb_spec i (Z.of_nat (length l))); try lia; try done.
  - by rewrite app_nth1 by lia.
  - destruct (Z.ltb_spec (i - Z.of_nat (length l)) 0); [lia|].
    rewrite app_nth2 by lia. f_equal. lia.
Qed.

Lemma bget_take n l i : bget (btake n l) i = if i <? n then bget l i else zero_byte.
Proof.
  unfold bget, btake. destruct (Z.ltb_spec i 0); [by destruct (i <? n)|].
  destruct (Z.ltb_spec i n) as [Hn|Hn].
  - destruct (decide (Z.to_nat i < length l)%nat).
    + rewrite !nth_lookup, lookup_take_lt by lia. done.
    + rewrite !nth_overflow; [done|lia|rewrite length_take; lia].
  - apply nth_overflow. rewrite length_take. lia.
Qed.

Lemma bget_drop n l i : 0 <= n -> 0 <= i -> bget (bdrop n l) i = bget l (n + i).
Proof.
  intros. unfold bget, bdrop.
  destruct (Z.ltb_spec i 0), (Z.ltb_spec (n + i) 0); try lia.
  rewrite !nth_lookup, lookup_drop. do 2 f_equal. lia.
Qed.

Lemma bget_zeros n i : bget (zeros n) i = zero_byte.
Proof.
  unfold bget, zeros. destruct (i <? 0); [done|].
  destruct (decide (Z.to_nat i < Z.to_nat n)%nat).
  - rewrite nth_lookup, lookup_replicate_2; done.
  - apply nth_overflow. rewrite length_replicate. lia.
Qed.

Lemma bytes_ext l k :
  blen l = blen k -> (forall i, 0 <= i < blen l -> bget l i = bget k i) -> l = k.
Proof.
  intros Hl H. unfold blen in Hl. apply (nth_ext _ _ zero_byte zero_byte); [lia|].
  intros n Hn. specialize (H (Z.of_nat n)). unfold bget, blen in H.
  destruct (Z.ltb_spec (Z.of_nat n) 0); [lia|]. rewrite Nat2Z.id in H. apply H. lia.
Qed.

Lemma blen_copy_into out lo hi src :
  0 <= lo <= hi -> hi <= blen out -> blen (copy_into out lo hi src) = blen out.
Proof.
  intros. pose proof (blen_nonneg src). unfold copy_into.
  rewrite !blen_app, !blen_take, blen_drop by lia. lia.
Qed.

Lemma bget_copy_into out lo hi src i :
  0 <= lo <= hi -> hi <= blen out ->
  bget (copy_into out lo hi src) i =
    if decide (lo <= i < lo + Z.min (hi - lo) (blen src)) then bget src (i - lo) else bget out i.
Proof.
  intros. pose proof (blen_nonneg src). unfold copy_into.
  rewrite !bget_app, !blen_take by lia. rewrite (Z.min_l lo) by lia.
  destruct (Z.ltb_spec i lo) as [Hlo|Hlo].
  { case_decide; [lia|]. rewrite bget_take. destruct (Z.ltb_spec i lo); [done|lia]. }
  destruct (Z.ltb_spec (i - lo) (Z.min (Z.min (hi - lo) (blen src)) (blen src))) as [Hm|Hm].
  { case_decide; [|lia]. rewrite bget_take.
    destruct (Z.ltb_spec (i - lo) (Z.min (hi - lo) (blen src))); [done|lia]. }
  case_decide; [lia|]. rewrite bget_drop by lia. f_equal. lia.
Qed.

(** ** Offsets and chunk indices *)

Lemma div_iff p cs k : 0 < cs -> p / cs = k <-> k * cs <= p < k * cs + cs.
Proof.
  intros Hc. pose proof (Z.div_mod p cs ltac:(lia)). pose proof (Z.mod_pos_bound p cs Hc).
  split; [intros <-; lia|]. intros Hk. nia.
Qed.

Lemma mod_sub p cs : 0 < cs -> p mod cs = p - p / cs * cs.
Proof. intros. rewrite Z.mod_eq by lia. lia. Qed.

Lemma mod_at p cs k : 0 < cs -> k * cs <= p < k * cs + cs -> p mod cs = p - k * cs.
Proof. intros Hc Hk. rewrite mod_sub by done. apply div_iff in Hk; [|done]. by rewrite Hk. Qed.

Lemma div_nonneg p cs : 0 < cs -> 0 <= p -> 0 <= p / cs.
Proof. intros. by apply Z.div_pos. Qed.

Lemma list_filter_id {A} (P : A -> Prop) `{forall x, Decision (P x)} (l : list A) :
  (forall x, x ∈ l -> P x) -> filter P l = l.
Proof.
  induction l as [|x l IH]; intros Hl; [done|].
  rewrite filter_cons_True by (apply Hl, list_elem_of_here).
  f_equal. apply IH. intros y Hy. apply Hl. by right.
Qed.

(** ** Results

    A Go pair [(T, error)] of which the caller reads [T] only when the error is
    nil. *)

Inductive res (E A : Type) : Type :=
| Ok (a : A)
| Err (e : E).
Arguments Ok {E A} a.
Arguments Err {E A} e.

Definition res_bind {E A B} (m : res E A) (k : A -> res E B) : res E B :=
  match m with Ok a => k a | Err e => Err e end.

Declare Scope strata_scope.
Delimit Scope strata_scope with strata.
Notation "'let?' x := m 'in' k" := (res_bind m (fun x => k))
  (at level 10, x pattern, m at level 100, k at level 200) : strata_scope.
Open Scope strata_scope.

Definition is_ok {E A} (r : res E A) : bool := match r with Ok _ => true | Err _ => false end.

Lemma res_bind_ok {E A B} (m : res E A) (k : A -> res E B) b :
  res_bind m k = Ok b <-> exists a, m = Ok a /\ k a = Ok b.
Proof.
  destruct m; simpl; split; [eauto| |done|].
  - intros (?&[= <-]&?). done.
  - intros (?&?&?). done.
Qed.

(** Case analysis of the conditionals a definition branches on. *)
Ltac case_bool :=
  match goal with
  | |- context [if (?a <? ?b) then _ else _] => destruct (Z.ltb_spec a b)
  | |- context [if (?a <=? ?b) then _ else _] => destruct (Z.leb_spec a b)
  | |- context [if (?a =? ?b) then _ else _] => destruct (Z.eqb_spec a b)
  | |- context [if bool_decide _ then _ else _] => case_bool_decide
  | |- context [if decide _ then _ else _] => case_decide
  end.

(** The outcome of a run from its reply alone: the state it left is the state
    it left, and never has to be evaluated and compared. *)
Lemma run_pair {A B} (p : A * B) (a : A) m : m = p.2 -> p.1 = a -> p = (a, m).
Proof. destruct p. simpl. by intros -> ->. Qed.

Lemma run_state {A B C} (p : A * (B * C)) (a : A) m : m = p.2 -> p.1 = a -> p = (a, (m.1, m.2)).
Proof. destruct p as [r [f w]]. simpl. by intros -> ->. Qed.

Definition okValue {E A} (d : A) (r : res E A) : A := match r with Ok a => a | Err _ => d end.

Lemma is_ok_value {E A} (d : A) (r : res E A) : is_ok r = true -> r = Ok (okValue d r).
Proof. by destruct r. Qed.

Lemma run_value {E A B} (d : A) (p : res E A * B) : is_ok p.1 = true -> p = (Ok (okValue d p.1), p.2).
Proof. by destruct p as [[a|e] b]. Qed.

(** The value and the state of a run that succeeded. *)
Definition cameUp {E A B} (d : A) (p : res E A * B) : A * B := (okValue d p.1, p.2).

Lemma run_cameUp {E A B} (d : A) (p : res E A * B) m : m = cameUp d p -> is_ok p.1 = true -> p = (Ok m.1, m.2).
Proof. intros ->. by destruct p as [[a|e] b]. Qed.

Lemma run_outcome {A B C} (p : A * (B * C)) r m : r = p.1 -> m = p.2 -> p = (r, (m.1, m.2)).
Proof. intros -> ->. by destruct p as [? [f w]]. Qed.

(** ** Strings *)

Lemma app_string_assoc (a b c : string) : (a +:+ b) +:+ c = a +:+ (b +:+ c).
Proof. induction a as [|x a IH]; [done|]. change (String x ((a +:+ b) +:+ c) = String x (a +:+ (b +:+ c))). by rewrite IH. Qed.

Lemma app_empty_r (s : string) : s +:+ "" = s.
Proof. induction s as [|c s IH]; [done|]. change (String c (s +:+ "") = String c s). by rewrite IH. Qed.

Lemma nonempty_app (a b : string) : a ≠ "" -> a +:+ b ≠ "".
Proof. by destruct a. Qed.

(** ** Evaluation *)

(** A closed equation between small values, by evaluation. *)
Ltac run_it :=
  lazymatch goal with
  | |- @eq ?A ?x ?y =>
      tryif (first [has_evar x | has_evar y]) then (vm_compute; reflexivity) else exact_no_check (@eq_refl A y)
  | |- _ => vm_compute; reflexivity
  end.

(** The outcome of a run whose state is named by projections of the run. *)
Ltac run_reply :=
  lazymatch goal with
  | |- ?p = (?a, (?m.1, ?m.2)) => apply (run_state p a m); [reflexivity|run_it]
  | |- ?p = (?a, ?m) => apply (run_pair p a m); [reflexivity|run_it]
  end.

Ltac run_all :=
  lazymatch goal with |- ?p = (?r, (?m.1, ?m.2)) => apply (run_outcome p r m); reflexivity end.

