(* ===== verification/Prog.v ===== *)
(** * Programs whose steps interleave

    A program is a tree of steps: each acts on the shared state at once, or is
    blocked there, and the program goes on with what it returned. A hold of a
    mutex, an atomic operation or a call of the store is one step; what other
    goroutines do falls between any two. A [Loop] goes round as often as its body
    says, with no bound. [sstep] runs a pool of programs.

    [wp] is the logic the interleavings are reasoned with: every program owns a
    piece of ghost state, [J] relates the shared state, the ghosts of all
    programs and an abstract state, and a program is verified by showing each of
    its steps keeps [J] whatever the others have done since the last one. A step
    is [quiet] for the abstract state, or is the one step of its call that has
    the effect [eff] of the call's own request. [linear] is what that gives of a
    whole run: each call is explained by the steps it made itself. *)

From S2P Require Import Prelude.

Inductive prog (S : Type) (A : Type) : Type :=
| Ret (a : A)
| Step {B : Type} (g : S -> option (B * S)) (k : B -> prog S A)
| Loop {X Y : Type} (body : X -> prog S (X + Y)) (x : X) (k : Y -> prog S A).

Arguments Ret {S A} a.
Arguments Step {S A B} g k.
Arguments Loop {S A X Y} body x k.

Fixpoint pbind {S A B} (m : prog S A) (f : A -> prog S B) : prog S B :=
  match m with
  | Ret a => f a
  | Step g k => Step g (fun b => pbind (k b) f)
  | Loop body x k => Loop body x (fun y => pbind (k y) f)
  end.

Notation "'let~' x := m 'in' k" := (pbind m (fun x => k))
  (at level 10, x pattern, m at level 100, k at level 200) : strata_scope.

(** One step. *)
Definition atom {S B} (g : S -> option (B * S)) : prog S B := Step g Ret.

(** A step that is never blocked. *)
Definition act1 {S B} (g : S -> B * S) : prog S B := atom (fun s => Some (g s)).

Definition peek {S B} (g : S -> B) : prog S B := act1 (fun s => (g s, s)).
Definition poke {S} (g : S -> S) : prog S unit := act1 (fun s => (tt, g s)).

(** One round of a loop, and what follows it. *)
Definition around {S A X Y} (body : X -> prog S (X + Y)) (k : Y -> prog S A) (r : X + Y) : prog S A :=
  match r with inl x => Loop body x k | inr y => k y end.

Definition unrolled {S A X Y} (body : X -> prog S (X + Y)) (x : X) (k : Y -> prog S A) : prog S A := pbind (body x) (around body k).

(** ** The pool *)

Section Pool.
Context {S Rq Rp : Type} (perform : Rq -> prog S Rp).

(** A call is named by its place in [calls], where it stays when it has
    returned. *)
Record sys := mkSys { st : S; calls : list (Rq * prog S Rp) }.

(** [sstep m x y]: [m] is the call that steps, or none where one is made. *)
Inductive sstep : option nat -> sys -> sys -> Prop :=
| SCall x q : sstep None x (mkSys (st x) (calls x ++ [(q, perform q)]))
| SRun x t q B (g : S -> option (B * S)) k b s :
    calls x !! t = Some (q, Step g k) -> g (st x) = Some (b, s) ->
    sstep (Some t) x (mkSys s (<[t := (q, k b)]> (calls x)))
| SRound x t q X Y (body : X -> prog S (X + Y)) v k :
    calls x !! t = Some (q, Loop body v k) -> sstep (Some t) x (mkSys (st x) (<[t := (q, unrolled body v k)]> (calls x))).

(** [runs x l y]: a run from [x] to [y]; [l] holds the states before [y], each
    with who left it. *)
Inductive runs (x : sys) : list (sys * option nat) -> sys -> Prop :=
| runs_here : runs x [] x
| runs_step l y m z : runs x l y -> sstep m y z -> runs x (l ++ [(y, m)]) z.

(** A run to a schedule: each entry is a request made or the call that steps. *)
Definition move (m : Rq + nat) (x : sys) : option (option nat * sys) :=
  match m with
  | inl q => Some (None, mkSys (st x) (calls x ++ [(q, perform q)]))
  | inr t =>
      match calls x !! t with
      | Some (q, Step g k) =>
          match g (st x) with Some (b, s) => Some (Some t, mkSys s (<[t := (q, k b)]> (calls x))) | None => None end
      | Some (q, Loop body v k) => Some (Some t, mkSys (st x) (<[t := (q, unrolled body v k)]> (calls x)))
      | _ => None
      end
  end.

Fixpoint drive (ms : list (Rq + nat)) (l : list (sys * option nat)) (x : sys) : option (list (sys * option nat) * sys) :=
  match ms with
  | [] => Some (l, x)
  | m :: ms => match move m x with Some (who, y) => drive ms (l ++ [(x, who)]) y | None => None end
  end.

Lemma move_step m x who y : move m x = Some (who, y) -> sstep who x y.
Proof using Type.
  destruct m as [q|t]; simpl; [intros [= <- <-]; constructor|]. destruct (calls x !! t) as [[q [r|B g k|X Y body v k]]|] eqn:Ht; [done| | |done].
  - destruct (g (st x)) as [[b s]|] eqn:Hg; [|done]. intros [= <- <-]. by econstructor.
  - intros [= <- <-]. by econstructor.
Qed.

Lemma drive_runs ms x0 l x l' y : runs x0 l x -> drive ms l x = Some (l', y) -> runs x0 l' y.
Proof using Type.
  revert l x. induction ms as [|m ms IH]; intros l x Hr; simpl; [by intros [= <- <-]|].
  destruct (move m x) as [[who z]|] eqn:E; [|done]. apply IH. econstructor; [done|]. by apply (move_step m).
Qed.

Definition returned (x : sys) : Prop := forall t q p, calls x !! t = Some (q, p) -> exists r, p = Ret r.

Lemma returned_or x : returned x \/ exists t q p, calls x !! t = Some (q, p) /\ forall r, p ≠ Ret r.
Proof using Type.
  unfold returned. induction (calls x) as [|[q p] l IH]; [left; by intros [|t]|].
  assert (Hp : (exists r, p = Ret r) \/ forall r, p ≠ Ret r) by (destruct p; eauto; by right).
  destruct Hp as [[r ->]|Hp]; [|right; by exists 0%nat, q, p].
  destruct IH as [IH|(t&IH)]; [left|right; by exists (Datatypes.S t)]. intros [|t] q' p; simpl; [intros [= _ <-]; eauto|apply IH].
Qed.

End Pool.
Arguments sys : clear implicits.

(** ** The logic *)

Section Logic.
Context {S Rq Rp G AB : Type} (perform : Rq -> prog S Rp).
Context (J : S -> list G -> AB -> Prop) (idle : G) (over : G -> Prop) (quiet : AB -> AB -> Prop) (blocked : G -> S -> Prop).
Context (room : S -> Prop) (allowed : Rq -> Prop) (quiet_refl : forall a, quiet a a).

(** The steps a program has taken, in order, each with the states it led from and
    to and the abstract states beside them. *)
Definition hist : Type := list ((S * AB) * (S * AB)).
Definition took (H : hist) (x y : S * AB) : hist := H ++ [(x, y)].

(** [H'] is [H] and quiet steps after it. *)
Definition within (H H' : hist) : Prop := exists l, H' = H ++ l /\ Forall (fun xy => quiet xy.1.2 xy.2.2) l.

Definition calmly (H : hist) : Prop := within [] H.

(** One of the steps that follow [H] is [R], and the others are quiet. *)
Definition acted (R : AB -> AB -> Prop) (H H' : hist) : Prop :=
  exists H1 s a s' a', within H H1 /\ R a a' /\ within (took H1 (s, a) (s', a')) H'.

Definition once (R : AB -> AB -> Prop) (H : hist) : Prop := acted R [] H.

Lemma within_refl H : within H H.
Proof using Type. exists []. by rewrite app_nil_r. Qed.

Lemma within_trans H H' H'' : within H H' -> within H' H'' -> within H H''.
Proof using Type. intros (l&->&Hl) (l'&->&Hl'). exists (l ++ l'). rewrite app_assoc. split; [done|by apply Forall_app]. Qed.

Lemma within_took H H' s a s' a' : within H H' -> quiet a a' -> within H (took H' (s, a) (s', a')).
Proof using Type. intros (l&->&Hl) Hq. exists (l ++ [((s, a), (s', a'))]). unfold took. rewrite app_assoc. split; [done|]. apply Forall_app. by split; [|constructor]. Qed.

Lemma within_elem H H' x : within H H' -> x ∈ H -> x ∈ H'.
Proof using Type. intros (l&->&_) Hx. apply elem_of_app. by left. Qed.

Lemma took_elem H x y : (x, y) ∈ took H x y.
Proof using Type. apply elem_of_app. right. apply list_elem_of_here. Qed.

Lemma acted_before R H H0 H' : within H H0 -> acted R H0 H' -> acted R H H'.
Proof using Type. intros Hw (H1&s&a&s'&a'&H2&HR&H3). exists H1, s, a, s', a'. split; [by eapply within_trans|done]. Qed.

Lemma acted_after R H H' H'' : acted R H H' -> within H' H'' -> acted R H H''.
Proof using Type. intros (H1&s&a&s'&a'&H2&HR&H3) Hw. exists H1, s, a, s', a'. split_and!; [done|done|by eapply within_trans]. Qed.

Lemma acted_took (R : AB -> AB -> Prop) H H' s a s' a' : within H H' -> R a a' -> acted R H (took H' (s, a) (s', a')).
Proof using Type. intros Hw HR. exists H', s, a, s', a'. split_and!; [done|done|apply within_refl]. Qed.

Lemma acted_elem R H H' x : acted R H H' -> x ∈ H -> x ∈ H'.
Proof using Type.
  intros (H1&s&a&s'&a'&H2&_&H3) Hx. eapply within_elem; [exact H3|]. apply elem_of_app. left. by eapply within_elem.
Qed.

(** What a step may do to the abstract state after the steps [H] of its call,
    whose request has the effect [eff]. *)
Definition atomic (eff : AB -> AB -> Prop) (H : hist) (a a' : AB) : Prop := quiet a a' \/ (eff a a' /\ calmly H).

Section Wp.
Context (eff : AB -> AB -> Prop).

Fixpoint wp {A} (p : prog S A) (t : nat) (H : hist) (c : G) (Q : hist -> A -> G -> Prop) : Prop :=
  match p with
  | Ret a => Q H a c
  | Step g k => forall s C a, room s -> J s C a -> C !! t = Some c ->
      match g s with
      | None => blocked c s
      | Some (b, s') => exists c' a', J s' (<[t := c']> C) a' /\ atomic eff H a a' /\
          wp (k b) t (took H (s, a) (s', a')) c' Q
      end
  | @Loop _ _ X Y body x k => exists I : hist -> X -> G -> Prop,
      (forall H', within H H' -> I H' x c) /\
      forall H1 x1 c1, I H1 x1 c1 -> wp (body x1) t H1 c1 (fun H2 r c2 =>
        match r with inl x2 => forall H3, within H2 H3 -> I H3 x2 c2 | inr y => wp (k y) t H2 c2 Q end)
  end.

Lemma wp_mono {A} (p : prog S A) t H c (Q Q' : hist -> A -> G -> Prop) :
  wp p t H c Q -> (forall H' v c', Q H' v c' -> Q' H' v c') -> wp p t H c Q'.
Proof using Type.
  revert H c Q Q'. induction p as [A v|A B g k IH|A X Y body IHb x k IHk]; intros H c Q Q'; simpl; [auto| |].
  - intros Hwp Himp s C a Hr HJ Hc. specialize (Hwp s C a Hr HJ Hc). destruct (g s) as [[b s']|]; [|done].
    destruct Hwp as (c'&a'&H1&H2&H3). exists c', a'. split; [done|]. split; [done|]. by eapply IH.
  - intros (I&HI&Hb) Himp. exists I. split; [done|]. intros H1 x1 c1 Hx1. eapply IHb; [by apply Hb|]. intros H2 [x2|y] c2; [done|].
    intros Hk. by eapply IHk.
Qed.

Lemma wp_bind {A B} (m : prog S A) (f : A -> prog S B) t H c Q :
  wp m t H c (fun H' a c' => wp (f a) t H' c' Q) -> wp (pbind m f) t H c Q.
Proof using Type.
  revert B f H c Q. induction m as [A a|A X g k IH|A X Y body IHb x k IHk]; intros B f H c Q; simpl; [done| |].
  - intros Hwp s C a Hr HJ Hc. specialize (Hwp s C a Hr HJ Hc). destruct (g s) as [[b s']|]; [|done].
    destruct Hwp as (c'&a'&?&?&?). exists c', a'. eauto.
  - intros (I&HI&Hb). exists I. split; [done|]. intros H1 x1 c1 Hx1. eapply wp_mono; [by apply Hb|]. intros H2 [x2|y] c2; [done|]. apply IHk.
Qed.

(** What one step must show. *)
Lemma wp_atom {B} (g : S -> option (B * S)) t H c (Q : hist -> B -> G -> Prop) :
  (forall s C a, room s -> J s C a -> C !! t = Some c ->
    match g s with
    | None => blocked c s
    | Some (b, s') => exists c' a', J s' (<[t := c']> C) a' /\ atomic eff H a a' /\ Q (took H (s, a) (s', a')) b c'
    end) -> wp (atom g) t H c Q.
Proof using Type. done. Qed.

(** A round keeps what the loop is entered with. *)
Lemma wp_unrolled {A X Y} (body : X -> prog S (X + Y)) x (k : Y -> prog S A) t H H' c Q :
  wp (Loop body x k) t H c Q -> within H H' -> wp (unrolled body x k) t H' c Q.
Proof using Type.
  intros (I&HI&Hb) Hw. apply wp_bind. eapply wp_mono; [by apply Hb, HI|]. intros H2 [x2|y] c2; [|done]. intros Hx2. simpl. by exists I.
Qed.

(** A loop with an invariant that quiet steps keep. *)
Lemma wp_loop {A X Y} (I : hist -> X -> G -> Prop) (body : X -> prog S (X + Y)) x (k : Y -> prog S A) t H c Q :
  (forall H H' x c, within H H' -> I H x c -> I H' x c) -> I H x c ->
  (forall H x c, I H x c -> wp (body x) t H c (fun H' r c' => match r with inl x' => I H' x' c' | inr y => wp (k y) t H' c' Q end)) ->
  wp (Loop body x k) t H c Q.
Proof using Type.
  intros Hmono HI Hb. exists I. split; [eauto|]. intros H1 x1 c1 Hx1. eapply wp_mono; [by apply Hb|]. intros H2 [x2|y] c2; [|done]. eauto.
Qed.

End Wp.

(** ** Runs *)

(** The steps call [t] made of a run, in their order: [l] are the states of the
    run with the abstract states given to them, [ms] says who left each. *)
Fixpoint ownSteps (t : nat) (l : list (S * AB)) (ms : list (option nat)) : hist :=
  match ms, l with
  | m :: ms, x :: ((y :: _) as l) => (if decide (m = Some t) then [(x, y)] else []) ++ ownSteps t l ms
  | _, _ => []
  end.

Lemma ownSteps_snoc t l y z ms m : length l = length ms ->
  ownSteps t ((l ++ [y]) ++ [z]) (ms ++ [m]) = ownSteps t (l ++ [y]) ms ++ (if decide (m = Some t) then [(y, z)] else []).
Proof using Type.
  revert ms. induction l as [|x l IH]; intros [|m0 ms] Hl; try done; simpl in *; [by rewrite app_nil_r|]. injection Hl as Hl. specialize (IH ms Hl).
  destruct l as [|x' l]; simpl in *; by rewrite IH, app_assoc.
Qed.

Lemma ownSteps_elem t l ms x y : (x, y) ∈ ownSteps t l ms <->
  exists j, ms !! j = Some (Some t) /\ l !! j = Some x /\ l !! (j + 1)%nat = Some y.
Proof using Type.
  revert ms. induction l as [|x0 l IH]; intros [|m ms].
  1-3: split; [by intros ?%elem_of_nil|by intros ([|j]&?&?&?)].
  destruct l as [|y0 l]; [split; [by intros ?%elem_of_nil|by intros ([|j]&?&?&?)]|].
  change (ownSteps t (x0 :: y0 :: l) (m :: ms)) with ((if decide (m = Some t) then [(x0, y0)] else []) ++ ownSteps t (y0 :: l) ms).
  rewrite elem_of_app, IH. split.
  - intros [Hin|(j&?&?&?)]; [|by exists (Datatypes.S j)]. exists 0%nat. case_decide; [|by apply elem_of_nil in Hin].
    apply list_elem_of_singleton in Hin as [= -> ->]. subst m. done.
  - intros ([|j]&H1&H2&H3); [left|right; by exists j]. simpl in *. injection H1 as ->. injection H2 as ->. injection H3 as ->.
    rewrite decide_True by done. apply list_elem_of_here.
Qed.

Context (effect : Rq -> AB -> AB -> Prop) (explained : Rq -> Rp -> hist -> Prop).
Context (J_call : forall s C a, J s C a -> J s (C ++ [idle]) a).
Context (perform_wp : forall q t, allowed q -> wp (effect q) (perform q) t [] idle (fun H r c => over c /\ explained q r H)).

(** A run: the states before [y] and who left them. *)
Abbreviation run := (list (sys S Rq Rp * option nat)).

(** The states of a run, each with its abstract state. *)
Definition paired (l : run) (y : sys S Rq Rp) (al : list AB) (a : AB) : list (S * AB) :=
  zip ((fun x => st x.1) <$> l) al ++ [(st y, a)].

(** The steps of a call but at most one are quiet, and that one has the effect of
    its request. *)
Definition modest (q : Rq) (H : hist) : Prop := calmly H \/ once (effect q) H.

Lemma modest_took q H s a s' a' : modest q H -> atomic (effect q) H a a' -> modest q (took H (s, a) (s', a')).
Proof using Type.
  intros Hm [Hq|[He Hc]]; [|right; by apply acted_took]. destruct Hm as [Hm|Hm]; [left; by apply within_took|right].
  eapply acted_after; [exact Hm|]. apply within_took; [apply within_refl|done].
Qed.

Lemma modest_step q H s a s' a' : modest q H -> ((s, a), (s', a')) ∈ H -> quiet a a' \/ effect q a a'.
Proof using Type.
  assert (Hw : forall H H', within H H' -> ((s, a), (s', a')) ∈ H' -> ((s, a), (s', a')) ∈ H \/ quiet a a').
  { intros H0 H' (l&->&Hl) [Hin|Hin]%elem_of_app; [by left|right]. by apply (proj1 (list.Forall_forall _ _) Hl _ Hin). }
  intros [Hc|(H1&s1&a1&s1'&a1'&W1&HR&W2)] Hin.
  - destruct (Hw _ _ Hc Hin) as [?%elem_of_nil|?]; [done|by left].
  - destruct (Hw _ _ W2 Hin) as [[Hin'|[= -> -> -> ->]%list_elem_of_singleton]%elem_of_app|?]; [|by right|by left].
    destruct (Hw _ _ W1 Hin') as [?%elem_of_nil|?]; [done|by left].
Qed.

(** The states of a run with their abstract states: every one satisfies [J],
    making a call changes nothing, and each call has made modest steps and is
    verified from where it stands. *)
Record traced (l : run) (y : sys S Rq Rp) (al : list AB) (a : AB) (C : list G) : Prop := {
  tr_len : length al = length l;
  tr_now : J (st y) C a;
  tr_ghosts : length C = length (calls y);
  tr_inv : forall i x b, (fst <$> l) !! i = Some x -> al !! i = Some b -> exists D, J (st x) D b;
  tr_made : forall i b b', (snd <$> l) !! i = Some None -> (al ++ [a]) !! i = Some b -> (al ++ [a]) !! (i + 1)%nat = Some b' -> b' = b;
  tr_who : forall i t, (snd <$> l) !! i = Some (Some t) -> (t < length (calls y))%nat;
  tr_calls : forall t q p, calls y !! t = Some (q, p) -> exists c, C !! t = Some c /\
    let H := ownSteps t (paired l y al a) (snd <$> l) in modest q H /\ wp (effect q) p t H c (fun H r c => over c /\ explained q r H)
}.

Lemma lookup_snoc_cases {X} (l : list X) x i y : (l ++ [x]) !! i = Some y -> l !! i = Some y \/ (i = length l /\ y = x).
Proof using Type.
  intros H. apply lookup_app_Some in H as [H|[Hle H]]; [by left|right].
  destruct (i - length l)%nat as [|k] eqn:E; [injection H as ->; split; [lia|done]|done].
Qed.

Lemma paired_more l y m al a z a' : length al = length l -> paired (l ++ [(y, m)]) z (al ++ [a]) a' = paired l y al a ++ [(st z, a')].
Proof using Type. intros Hl. unfold paired. rewrite fmap_app. by rewrite (zip_with_app _ _ [st y] al [a]) by (by rewrite length_fmap). Qed.

(** The histories of the others stay as they are; the step just made is the last
    of its maker's. *)
Lemma ownSteps_more t l y m al a z a' : length al = length l ->
  ownSteps t (paired (l ++ [(y, m)]) z (al ++ [a]) a') (snd <$> l ++ [(y, m)]) =
  ownSteps t (paired l y al a) (snd <$> l) ++ (if decide (m = Some t) then [((st y, a), (st z, a'))] else []).
Proof using Type.
  intros Hl. rewrite paired_more by done. rewrite fmap_app. unfold paired at 1 2. apply ownSteps_snoc. rewrite length_zip_with, !length_fmap. lia.
Qed.

(** Calls not made yet have taken no steps. *)
Lemma ownSteps_none t l ms : (forall i t', ms !! i = Some (Some t') -> t' ≠ t) -> ownSteps t l ms = [].
Proof using Type.
  revert l. induction ms as [|m ms IH]; intros [|x [|y l]] Hms; try done. cbn [ownSteps]. rewrite decide_False.
  - apply (IH (y :: l)). intros i t' Hi. by apply (Hms (Datatypes.S i)).
  - intros ->. by apply (Hms 0%nat t).
Qed.

(** The trace one step longer. *)
Lemma traced_more l y m al a C z a' D :
  traced l y al a C -> J (st z) D a' -> (m = None -> a' = a) -> length D = length (calls z) ->
  (length (calls y) <= length (calls z))%nat -> (forall t, m = Some t -> t < length (calls z))%nat ->
  (forall t q p, calls z !! t = Some (q, p) -> exists c, D !! t = Some c /\
     let H := ownSteps t (paired (l ++ [(y, m)]) z (al ++ [a]) a') (snd <$> l ++ [(y, m)]) in
     modest q H /\ wp (effect q) p t H c (fun H r c => over c /\ explained q r H)) ->
  traced (l ++ [(y, m)]) z (al ++ [a]) a' D.
Proof using Type.
  intros [T1 T2 T3 T4 T5 T6 T7] HJ Hmade Hlen Hle Hm Hcalls. split; try done.
  - rewrite !length_app. simpl. lia.
  - intros i x b Hx Hb. rewrite fmap_app in Hx. apply lookup_snoc_cases in Hx as [Hx|[-> ->]], Hb as [Hb|[Hi ->]]; eauto.
    + apply lookup_lt_Some in Hx. rewrite length_fmap in Hx. lia.
    + apply lookup_lt_Some in Hb. rewrite length_fmap in Hb. lia.
  - intros i b b' Hi Hb Hb'. rewrite fmap_app in Hi. apply lookup_snoc_cases in Hi as [Hi|[Hi Hn]].
    + assert (i < length al)%nat by (apply lookup_lt_Some in Hi; rewrite length_fmap in Hi; lia).
      rewrite lookup_app_l in Hb, Hb' by (rewrite length_app; simpl; lia). by eapply T5.
    + rewrite length_fmap, <- T1 in Hi. subst i. rewrite lookup_app_l, list_lookup_middle in Hb by (rewrite ?length_app; simpl; lia).
      rewrite list_lookup_middle in Hb' by (rewrite length_app; done). injection Hb as <-. injection Hb' as <-. by apply Hmade.
  - intros i t Hi. rewrite fmap_app in Hi. apply lookup_snoc_cases in Hi as [Hi|[Hi Hn]]; [|by apply Hm]. apply T6 in Hi. lia.
Qed.

(** A step of call [t] to a program verified from there keeps the trace. *)
Lemma traced_call l y t q p p' al a C c s a' c' :
  traced l y al a C -> calls y !! t = Some (q, p) -> C !! t = Some c ->
  let H := took (ownSteps t (paired l y al a) (snd <$> l)) (st y, a) (s, a') in
  J s (<[t := c']> C) a' -> modest q H -> wp (effect q) p' t H c' (fun H r c => over c /\ explained q r H) ->
  let z := mkSys s (<[t := (q, p')]> (calls y)) in traced (l ++ [(y, Some t)]) z (al ++ [a]) a' (<[t := c']> C).
Proof using Type.
  intros HT Ht Hc H HJ Hm Hwp z. pose proof HT as [T1 T2 T3 T4 T5 T6 T7].
  apply (traced_more l y (Some t) al a C); try done; [simpl; by rewrite !length_insert|simpl; by rewrite length_insert| |].
  { intros t' [= <-]. simpl. rewrite length_insert. by eapply lookup_lt_Some. }
  intros t' q' p0 Ht'. rewrite ownSteps_more by done. simpl in Ht'. destruct (decide (t' = t)) as [->|Hne].
  - rewrite list_lookup_insert_eq in Ht' by (by eapply lookup_lt_Some). injection Ht' as <- <-. exists c'.
    split; [apply list_lookup_insert_eq; by eapply lookup_lt_Some|]. rewrite decide_True by done. done.
  - rewrite list_lookup_insert_ne in Ht' by done. rewrite decide_False by congruence. rewrite app_nil_r.
    destruct (T7 t' q' p0 Ht') as (d&Hd&Hw). exists d. split; [by rewrite list_lookup_insert_ne|done].
Qed.

(** A step keeps the trace, whoever takes it. *)
Lemma traced_step l y m al a C z :
  traced l y al a C -> sstep perform m y z -> room (st y) -> (forall t q p, calls z !! t = Some (q, p) -> allowed q) ->
  exists a' D, traced (l ++ [(y, m)]) z (al ++ [a]) a' D.
Proof using J_call quiet_refl perform_wp.
  intros HT Hstep Hroom Hall. pose proof HT as [T1 T2 T3 T4 T5 T6 T7].
  destruct Hstep as [y q|y t q B g k b s Ht Hg|y t q X Y body v k Ht].
  - exists a, (C ++ [idle]). apply (traced_more l y None al a C); try done; [by apply J_call|simpl; rewrite !length_app; simpl; lia|simpl; rewrite length_app; lia|].
    intros t q' p Ht. rewrite ownSteps_more by done. rewrite decide_False, app_nil_r by done. simpl in Ht. apply lookup_snoc_cases in Ht as [Ht|[-> [= -> ->]]].
    + destruct (T7 t q' p Ht) as (c&Hc&Hw). exists c. split; [by apply lookup_app_l_Some|done].
    + exists idle. split; [rewrite <- T3; by apply list_lookup_middle|]. rewrite ownSteps_none by (intros i t' Hi; apply T6 in Hi; lia).
      split; [left; apply within_refl|]. apply perform_wp. apply (Hall (length (calls y)) q (perform q)). simpl. by apply list_lookup_middle.
  - destruct (T7 t q _ Ht) as (c&Hc&Hm&Hwp). simpl in Hwp. specialize (Hwp (st y) C a Hroom T2 Hc). rewrite Hg in Hwp.
    destruct Hwp as (c'&a'&HJ&Hat&Hwp). exists a', (<[t := c']> C). eapply (traced_call l y t q (Step g k) (k b)); try done. by apply modest_took.
  - destruct (T7 t q _ Ht) as (c&Hc&Hm&Hwp). exists a, (<[t := c]> C). eapply (traced_call l y t q (Loop body v k) (unrolled body v k)); try done.
    + by rewrite list_insert_id.
    + apply modest_took; [done|]. left. apply quiet_refl.
    + eapply wp_unrolled; [exact Hwp|]. apply within_took; [apply within_refl|apply quiet_refl].
Qed.

(** Calls stay where they are. *)
Lemma sstep_calls m y z t q p : sstep perform m y z -> calls y !! t = Some (q, p) -> exists p', calls z !! t = Some (q, p').
Proof using Type.
  assert (Hset : forall (l : list (Rq * prog S Rp)) t t' q q' p p' p0, l !! t = Some (q, p) -> l !! t' = Some (q', p0) ->
    exists p1, <[t' := (q', p')]> l !! t = Some (q, p1)).
  { intros l t0 t' q0 q' p0 p' p1 Hl Hl'. destruct (decide (t0 = t')) as [->|Hne].
    - exists p'. rewrite list_lookup_insert_eq by (by eapply lookup_lt_Some). congruence.
    - exists p0. by rewrite list_lookup_insert_ne. }
  intros Hs Ht. destruct Hs as [y q'|y t' q' B g k b s Ht' Hg|y t' q' X Y body v k Ht']; simpl; [|by eapply Hset..].
  exists p. by apply lookup_app_l_Some.
Qed.

(** Every run is traced, from the abstract state it is begun with. *)
Lemma linear s0 a0 l y :
  J s0 [] a0 -> runs perform (mkSys s0 []) l y -> Forall (fun x => room (st x.1)) l ->
  (forall t q p, calls y !! t = Some (q, p) -> allowed q) -> exists al a C, traced l y al a C /\ (al ++ [a]) !! 0%nat = Some a0.
Proof using J_call quiet_refl perform_wp.
  intros H0 Hrun. induction Hrun as [|l y m z Hrun IH Hs]; intros Hroom Hall.
  - exists [], a0, []. split; [|done]. by split.
  - apply Forall_app in Hroom as [Hroom Hy]. apply list.Forall_cons in Hy as [Hy _].
    destruct IH as (al&a&C&HT&Ha0); [done| |].
    { intros t q p Ht. destruct (sstep_calls m y z t q p Hs Ht) as [p' Hp]. eauto. }
    destruct (traced_step _ _ m _ _ _ _ HT Hs Hy Hall) as (a'&D&HT'). exists (al ++ [a]), a', D. split; [done|]. by apply lookup_app_l_Some.
Qed.

End Logic.
