(* ===== verification/Vfs.v ===== *)
(** * The filesystem contract (internal/vfs/vfs.go) and the errors of the program

    The NFSv3 status codes, file types, attributes and callers that every layer
    shares, and the Go [error] values the program builds and inspects: a bare
    [vfs.Status], one of the package sentinels, or [fmt.Errorf("...: %w", e)].
    Times are the [UnixNano] of a [time.Time]. *)

From S2P Require Import Prelude.

(** [vfs.Status]. *)
Inductive Status :=
| OK | ErrPerm | ErrNoEnt | ErrIO | ErrNXIO | ErrAcces | ErrExist | ErrXDev
| ErrNoDev | ErrNotDir | ErrIsDir | ErrInval | ErrFBig | ErrNoSpc | ErrROFS
| ErrMLink | ErrNameTooLong | ErrNotEmpty | ErrDQuot | ErrStale | ErrRemote
| ErrBadHandle | ErrNotSync | ErrBadCookie | ErrNotSupp | ErrTooSmall
| ErrServerFault | ErrBadType | ErrJukebox.

#[global] Instance Status_eq_dec : EqDecision Status.
Proof. solve_decision. Defined.

(** The wire value of a status. *)
Definition status_code (s : Status) : Z :=
  match s with
  | OK => 0 | ErrPerm => 1 | ErrNoEnt => 2 | ErrIO => 5 | ErrNXIO => 6
  | ErrAcces => 13 | ErrExist => 17 | ErrXDev => 18 | ErrNoDev => 19
  | ErrNotDir => 20 | ErrIsDir => 21 | ErrInval => 22 | ErrFBig => 27
  | ErrNoSpc => 28 | ErrROFS => 30 | ErrMLink => 31 | ErrNameTooLong => 63
  | ErrNotEmpty => 66 | ErrDQuot => 69 | ErrStale => 70 | ErrRemote => 71
  | ErrBadHandle => 10001 | ErrNotSync => 10002 | ErrBadCookie => 10003
  | ErrNotSupp => 10004 | ErrTooSmall => 10005 | ErrServerFault => 10006
  | ErrBadType => 10007 | ErrJukebox => 10008
  end.

(** [vfs.FileType]. *)
Inductive FileType :=
| TypeReg | TypeDir | TypeBlk | TypeChr | TypeLnk | TypeSock | TypeFifo.

#[global] Instance FileType_eq_dec : EqDecision FileType.
Proof. solve_decision. Defined.

Definition ftype_code (t : FileType) : Z :=
  match t with
  | TypeReg => 1 | TypeDir => 2 | TypeBlk => 3 | TypeChr => 4
  | TypeLnk => 5 | TypeSock => 6 | TypeFifo => 7
  end.

(** [vfs.Attr]; RDev is never set by the program and stays zero. *)
Record Attr := mkAttr {
  aType : FileType;
  aMode : Z;
  aNLink : Z;
  aUID : Z;
  aGID : Z;
  aSize : Z;
  aUsed : Z;
  aRDev : Z * Z;
  aFSID : Z;
  aFileID : Z;
  aATime : Z;
  aMTime : Z;
  aCTime : Z
}.

(** [vfs.SetAttr]: a nil pointer is [None]. *)
Record SetAttr := mkSetAttr {
  saMode : option Z;
  saUID : option Z;
  saGID : option Z;
  saSize : option Z;
  saATime : option Z;
  saMTime : option Z
}.

Definition noSetAttr : SetAttr := mkSetAttr None None None None None None.

(** [vfs.Handle]: opaque bytes. *)
Abbreviation Handle := (list Byte.byte).

(** [vfs.DirEntry]. *)
Record DirEntry := mkDirEntry {
  deFileID : Z;
  deName : string;
  deCookie : Z;
  deHandle : option Handle;
  deAttr : option Attr
}.

(** [vfs.Stat]. *)
Record Stat := mkStat {
  stTotalBytes : Z;
  stFreeBytes : Z;
  stAvailBytes : Z;
  stTotalFiles : Z;
  stFreeFiles : Z
}.

(** [vfs.Stability]. *)
Inductive Stability := Unstable | DataSync | FileSync.

#[global] Instance Stability_eq_dec : EqDecision Stability.
Proof. solve_decision. Defined.

(** [vfs.Caller]. *)
Record Caller := mkCaller { cUID : Z; cGID : Z; cGIDs : list Z }.

(** ACCESS3 bits. *)
Definition AccessRead : Z := 0x0001.
Definition AccessLookup : Z := 0x0002.
Definition AccessModify : Z := 0x0004.
Definition AccessExtend : Z := 0x0008.
Definition AccessDelete : Z := 0x0010.
Definition AccessExecute : Z := 0x0020.

(** ** Errors *)

(** The sentinels of package store. *)
Inductive StoreErr := ErrNotFound | ErrPrecondition | ErrUnsupported.

#[global] Instance StoreErr_eq_dec : EqDecision StoreErr.
Proof. solve_decision. Defined.

(** A non-nil Go error: a [vfs.Status], a store sentinel, another sentinel or
    message, or an error wrapped with [%w]. *)
Inductive error :=
| EStatus (s : Status)
| EStore (e : StoreErr)
| EMsg (m : string)
| EWrap (m : string) (e : error).

#[global] Instance error_eq_dec : EqDecision error.
Proof. solve_decision. Defined.

Abbreviation result A := (res error A).

(** [errors.Is(err, target)] for a store sentinel. *)
Fixpoint errIs (e : error) (target : StoreErr) : bool :=
  match e with
  | EStore t => bool_decide (t = target)
  | EWrap _ e => errIs e target
  | _ => false
  end.

(** [errors.As(err, &s)] for a [vfs.Status]. *)
Fixpoint errAsStatus (e : error) : option Status :=
  match e with
  | EStatus s => Some s
  | EWrap _ e => errAsStatus e
  | _ => None
  end.
