(* ===== verification/Fsm.v ===== *)
(** * State machines as tables (internal/fsm/fsm.go), the mount mode
      (internal/blobfs/mode.go) and the root-pointer knowledge
      (internal/blobfs/rootknowledge.go)

    A [Table] is built once from edges; a [Machine] walks it under its owner's
    lock and an [Atomic] walks it with a compare-and-swap loop. The loop is
    modelled twice: the retry loop of one [Fire] as the interleaved steps
    [astep] of any number of threads over one word, and its effect as the
    atomic [Fire] of [Machine], with the theorem that the first is linearizable
    to the second. *)

From S2P Require Import Prelude Vfs.

Module Fsm.

Section Table.
Context {S E : Type} `{Countable S} `{Countable E}.

Record Edge := mkEdge { From : S; On : E; To : S }.

Record Table := mkTable {
  name : string;
  edges : list Edge;
  next : gmap (S * E) S
}.

(** The loop of [NewTable] over the edges; [None] is its panic on two edges
    with the same From and On. *)
Fixpoint buildNext (es : list Edge) (acc : gmap (S * E) S) : option (gmap (S * E) S) :=
  match es with
  | [] => Some acc
  | e :: es =>
      match acc !! (From e, On e) with
      | Some _ => None
      | None => buildNext es (<[(From e, On e) := To e]> acc)
      end
  end.

Definition NewTable (nm : string) (es : list Edge) : option Table :=
  match buildNext es ∅ with
  | Some m => Some (mkTable nm es m)
  | None => None
  end.

Definition Next (t : Table) (from : S) (on : E) : option S := next t !! (from, on).

Record IllegalError := mkIllegal { ieMachine : string; ieFrom : S; ieOn : E }.

Record Machine := mkMachine { table : Table; state : S }.

Definition NewMachine (t : Table) (initial : S) : Machine := mkMachine t initial.

(** [Fire]: the state left, the state entered and the error. *)
Definition Fire (m : Machine) (on : E) : Machine * (S * S * option IllegalError) :=
  let cur := state m in
  match Next (table m) cur on with
  | None => (m, (cur, cur, Some (mkIllegal (name (table m)) cur on)))
  | Some nxt => (mkMachine (table m) nxt, (cur, nxt, None))
  end.

(** ** The compare-and-swap loop of [Atomic.Fire]

    A thread is before its load, between a load that found an edge and its
    compare-and-swap, or returned. [wLog] is a ghost: the swaps that
    succeeded, oldest first. *)

Inductive thread :=
| TLoad (on : E)
| TSwap (on : E) (cur nxt : S)
| TDone (on : E) (from to : S) (err : option IllegalError).

Record world := mkWorld {
  wWord : S;
  wThreads : gmap nat thread;
  wLog : list (nat * Edge)
}.

Inductive astep (t : Table) : world -> world -> Prop :=
| AInvoke w i on :
    wThreads w !! i = None ->
    astep t w (mkWorld (wWord w) (<[i := TLoad on]> (wThreads w)) (wLog w))
| ALoadEdge w i on nxt :
    wThreads w !! i = Some (TLoad on) ->
    Next t (wWord w) on = Some nxt ->
    astep t w (mkWorld (wWord w) (<[i := TSwap on (wWord w) nxt]> (wThreads w)) (wLog w))
| ALoadIllegal w i on :
    wThreads w !! i = Some (TLoad on) ->
    Next t (wWord w) on = None ->
    astep t w (mkWorld (wWord w)
      (<[i := TDone on (wWord w) (wWord w) (Some (mkIllegal (name t) (wWord w) on))]> (wThreads w))
      (wLog w))
| ASwapOk w i on cur nxt :
    wThreads w !! i = Some (TSwap on cur nxt) ->
    wWord w = cur ->
    astep t w (mkWorld nxt (<[i := TDone on cur nxt None]> (wThreads w))
                       (wLog w ++ [(i, mkEdge cur on nxt)]))
| ASwapLost w i on cur nxt :
    wThreads w !! i = Some (TSwap on cur nxt) ->
    wWord w ≠ cur ->
    astep t w (mkWorld (wWord w) (<[i := TLoad on]> (wThreads w)) (wLog w)).

Definition ainit (s : S) : world := mkWorld s ∅ [].

(** The sequential specification: a log replayed through [Machine.Fire], each
    entry returning exactly what its thread returned. *)
Fixpoint replays (m : Machine) (log : list (nat * Edge)) : option Machine :=
  match log with
  | [] => Some m
  | (_, e) :: log =>
      let (m', r) := Fire m (On e) in
      if bool_decide (r.1.1 = From e /\ r.1.2 = To e) then
        match r.2 with None => replays m' log | Some _ => None end
      else None
  end.

Lemma buildNext_lookup es acc m :
  buildNext es acc = Some m ->
  forall k v, m !! k = Some v <-> acc !! k = Some v \/ mkEdge k.1 k.2 v ∈ es.
Proof.
  revert acc; induction es as [|e es IH]; intros acc Hb k v; simpl in Hb.
  { injection Hb as <-. split; [tauto|]. intros [Hk|Hin]; [done|]. by apply elem_of_nil in Hin. }
  destruct (acc !! (From e, On e)) eqn:Ea; [done|].
  rewrite (IH _ Hb), lookup_insert, elem_of_cons.
  case_decide as Hk.
  - subst k. rewrite Ea. simpl. destruct e as [f o t']; simpl. split.
    + intros [Hv|Hin]; [injection Hv as <-; auto|auto].
    + intros [?|[He|?]]; [done|injection He as <-; auto|auto].
  - split; [tauto|]. intros [?|[He|?]]; [auto| |auto].
    destruct e, k; simpl in *. injection He as -> -> ->. done.
Qed.

Lemma replays_snoc m log i e m' :
  replays m log = Some m' -> state m' = From e -> Next (table m') (From e) (On e) = Some (To e) ->
  replays m (log ++ [(i, e)]) = Some (mkMachine (table m') (To e)).
Proof.
  revert m; induction log as [|[j e'] log IH]; intros m Hr Hs Hn; simpl in *.
  - injection Hr as ->. unfold Fire. rewrite Hs, Hn. simpl.
    rewrite bool_decide_true by done. done.
  - destruct (Fire m (On e')) as [m1 r]. case_bool_decide; [|done].
    destruct (r.2); [done|]. by apply IH.
Qed.

(** What every reachable world of the loop satisfies. *)
Record ainv (t : Table) (s0 : S) (w : world) : Prop := {
  ai_replay : replays (mkMachine t s0) (wLog w) = Some (mkMachine t (wWord w));
  ai_swap : forall i on cur nxt, wThreads w !! i = Some (TSwap on cur nxt) -> Next t cur on = Some nxt;
  ai_logged : forall i e, (i, e) ∈ wLog w <-> wThreads w !! i = Some (TDone (On e) (From e) (To e) None);
  ai_once : NoDup (wLog w).*1;
  ai_illegal : forall i on f to ie, wThreads w !! i = Some (TDone on f to (Some ie)) ->
    to = f /\ Next t f on = None /\ ie = mkIllegal (name t) f on
}.

Lemma ainv_init t s0 : ainv t s0 (ainit s0).
Proof.
  split; simpl; try done; try (intros; by rewrite lookup_empty in *).
  - intros i e. rewrite lookup_empty. split; [by intros ?%elem_of_nil|done].
  - constructor.
Qed.

(** A step that changes thread [i] alone, from one that is not a finished
    success to one that is not either, keeps the log as it was. *)
Lemma ainv_thread t s0 w i th old :
  ainv t s0 w -> wThreads w !! i = old ->
  (forall on f to, old ≠ Some (TDone on f to None)) ->
  (forall on f to, th ≠ TDone on f to None) ->
  (forall on cur nxt, th = TSwap on cur nxt -> Next t cur on = Some nxt) ->
  (forall on f to ie, th = TDone on f to (Some ie) ->
     to = f /\ Next t f on = None /\ ie = mkIllegal (name t) f on) ->
  ainv t s0 (mkWorld (wWord w) (<[i := th]> (wThreads w)) (wLog w)).
Proof.
  intros [Hr Hs Hl Ho Hi] Hold Hnd Hnd' Hsw Hil. split; simpl; try done.
  - intros j on cur nxt. rewrite lookup_insert. case_decide; [|by apply Hs].
    intros [= ->]. by eapply Hsw.
  - intros j e. rewrite Hl, lookup_insert. case_decide as Hij; [|done]. subst j.
    rewrite Hold. split; intros Hx; [by destruct (Hnd _ _ _ Hx)|]. injection Hx as Hx. by destruct (Hnd' _ _ _ Hx).
  - intros j on f to ie. rewrite lookup_insert. case_decide; [|by apply Hi].
    intros [= ->]. by eapply Hil.
Qed.

Lemma ainv_step t s0 w w' : ainv t s0 w -> astep t w w' -> ainv t s0 w'.
Proof.
  intros Hinv Hstep.
  inversion Hstep as [? i on Ei|? i on nxt Ei En|? i on Ei En|? i on cur nxt Ei Ew|? i on cur nxt Ei Ew]; subst.
  - by eapply ainv_thread.
  - eapply ainv_thread; try done. intros ??? [= <- <- <-]. done.
  - eapply ainv_thread; try done. intros ???? [= <- <- <- <-]. done.
  - destruct Hinv as [Hr Hs Hl Ho Hi]. set (e := mkEdge (wWord w) on nxt).
    assert (Hfresh : i ∉ (wLog w).*1).
    { intros ([j e']&->&Hin)%list_elem_of_fmap. apply Hl in Hin. simpl in Ei. congruence. }
    split; simpl.
    + apply (replays_snoc _ _ i e) in Hr; [done|done|]. simpl. by eapply Hs.
    + intros j on' cur nxt'. rewrite lookup_insert. case_decide; [done|]. by apply Hs.
    + intros j e'. rewrite elem_of_app, list_elem_of_singleton, Hl, lookup_insert.
      case_decide as Hij.
      * subst j. rewrite Ei. split; [intros [?|[= ->]]; done|].
        intros [= H1 H2 H3]. right. f_equal. destruct e'; simpl in *; subst; done.
      * split; [intros [?|[= ->]]; done|auto].
    + rewrite fmap_app. apply list.NoDup_app. simpl. split; [done|]. split.
      * intros x Hx ->%list_elem_of_singleton. done.
      * apply NoDup_singleton.
    + intros j on' f to ie. rewrite lookup_insert. case_decide; [done|]. by apply Hi.
  - by eapply ainv_thread.
Qed.

(** C36 However concurrent calls of Atomic.Fire interleave their loads and
    compare-and-swaps, they are linearizable: the swaps that succeeded, in
    order, replay through the sequential Machine.Fire from the initial state to
    the word as it is; a call is in that log exactly when it returned without an
    error, once, with the move it made; and a call that returned an error left
    the state alone, in a state the table has no edge from. *)
Theorem Fire_linearizable t s0 w :
  rtc (astep t) (ainit s0) w ->
  replays (mkMachine t s0) (wLog w) = Some (mkMachine t (wWord w)) /\
  NoDup (wLog w).*1 /\
  (forall i e, (i, e) ∈ wLog w <-> wThreads w !! i = Some (TDone (On e) (From e) (To e) None)) /\
  (forall i on f to ie, wThreads w !! i = Some (TDone on f to (Some ie)) ->
     to = f /\ Next t f on = None).
Proof.
  intros Hsteps.
  assert (ainv t s0 w) as [Hr _ Hl Ho Hi].
  { remember (ainit s0) as w0 eqn:Hw0. assert (ainv t s0 w0) as H0' by (subst; apply ainv_init).
    clear Hw0. induction Hsteps; [done|]. eauto using ainv_step. }
  repeat split; try done; try apply Hl; edestruct Hi as (?&?&?); eauto.
Qed.

(** A lost compare-and-swap, and so a retry, means another Fire succeeded since
    the load: the word moves only with an entry of the log. *)
Lemma word_moves_with_log t w w' :
  rtc (astep t) w w' -> (length (wLog w) <= length (wLog w'))%nat /\
    (wWord w' ≠ wWord w -> (length (wLog w) < length (wLog w'))%nat).
Proof.
  induction 1 as [|w1 w2 w3 Hs _ [IH1 IH2]]; [split; [lia|done]|].
  assert ((length (wLog w1) <= length (wLog w2))%nat /\
    (wWord w2 ≠ wWord w1 -> (length (wLog w1) < length (wLog w2))%nat)) as [H1 H2].
  { destruct Hs; simpl; rewrite ?length_app; simpl; split; (lia || done). }
  split; [lia|]. intros Hne. destruct (decide (wWord w2 = wWord w1)) as [He|He]; [|specialize (H2 He); lia].
  rewrite <- He in Hne. specialize (IH2 Hne). lia.
Qed.

End Table.

Arguments Edge : clear implicits.
Arguments Table _ _ {_ _ _ _}.
Arguments Machine _ _ {_ _ _ _}.
Arguments IllegalError : clear implicits.

End Fsm.
