(* ===== verification/Modes.v ===== *)
(** * The mount mode and the root-pointer knowledge

    The two machines blobfs keeps: whether the mount accepts changes
    (internal/blobfs/mode.go) and whether it knows the ETag of the root pointer
    (internal/blobfs/rootknowledge.go), each a table of package fsm. *)

From S2P Require Import Prelude Vfs Fsm.

Inductive mountMode := mountWritable | mountReadOnly | mountDiverged.
Inductive mountEvent := mountDiverge.
Inductive rootState := rootKnown | rootInDoubt.
Inductive rootEvent := rootSwapOK | rootSwapUnknown | rootProbeOurs | rootProbeUnchanged.

#[global] Instance mountMode_eq_dec : EqDecision mountMode.
Proof. solve_decision. Defined.
#[global] Instance mountEvent_eq_dec : EqDecision mountEvent.
Proof. solve_decision. Defined.
#[global] Instance rootState_eq_dec : EqDecision rootState.
Proof. solve_decision. Defined.
#[global] Instance rootEvent_eq_dec : EqDecision rootEvent.
Proof. solve_decision. Defined.

#[global] Program Instance mountMode_finite : Finite mountMode :=
  {| enum := [mountWritable; mountReadOnly; mountDiverged] |}.
Next Obligation. by apply (bool_decide_unpack _). Qed.
Next Obligation. by intros []; apply (bool_decide_unpack _). Qed.
#[global] Program Instance mountEvent_finite : Finite mountEvent := {| enum := [mountDiverge] |}.
Next Obligation. by apply (bool_decide_unpack _). Qed.
Next Obligation. by intros []; apply (bool_decide_unpack _). Qed.
#[global] Program Instance rootState_finite : Finite rootState := {| enum := [rootKnown; rootInDoubt] |}.
Next Obligation. by apply (bool_decide_unpack _). Qed.
Next Obligation. by intros []; apply (bool_decide_unpack _). Qed.
#[global] Program Instance rootEvent_finite : Finite rootEvent :=
  {| enum := [rootSwapOK; rootSwapUnknown; rootProbeOurs; rootProbeUnchanged] |}.
Next Obligation. by apply (bool_decide_unpack _). Qed.
Next Obligation. by intros []; apply (bool_decide_unpack _). Qed.

Definition mountEdges : list (Fsm.Edge mountMode mountEvent) :=
  [Fsm.mkEdge mountWritable mountDiverge mountDiverged].

Definition rootEdges : list (Fsm.Edge rootState rootEvent) :=
  [Fsm.mkEdge rootKnown rootSwapOK rootKnown;
   Fsm.mkEdge rootKnown rootSwapUnknown rootInDoubt;
   Fsm.mkEdge rootInDoubt rootProbeOurs rootKnown;
   Fsm.mkEdge rootInDoubt rootProbeUnchanged rootKnown].

(** The String methods, by which the log names states and events. *)
Class Named (A : Type) := nameOf : A -> string.

Definition mountModeString (m : mountMode) : string :=
  match m with mountWritable => "Writable" | mountReadOnly => "ReadOnly" | mountDiverged => "Diverged" end.
#[global] Instance mountMode_named : Named mountMode := mountModeString.

Definition mountEventString (e : mountEvent) : string :=
  match e with mountDiverge => "Diverge" end.
#[global] Instance mountEvent_named : Named mountEvent := mountEventString.

Definition rootStateString (s : rootState) : string :=
  match s with rootKnown => "Known" | rootInDoubt => "InDoubt" end.
#[global] Instance rootState_named : Named rootState := rootStateString.

Definition rootEventString (e : rootEvent) : string :=
  match e with
  | rootSwapOK => "SwapOK"
  | rootSwapUnknown => "SwapUnknown"
  | rootProbeOurs => "ProbeOurs"
  | rootProbeUnchanged => "ProbeUnchanged"
  end.
#[global] Instance rootEvent_named : Named rootEvent := rootEventString.

(** The text of an IllegalError. *)
Definition illegalText {S E} `{Named S} `{Named E} (e : Fsm.IllegalError S E) : string :=
  "fsm: " +:+ Fsm.ieMachine e +:+ ": illegal transition from " +:+ nameOf (Fsm.ieFrom e) +:+ " on " +:+ nameOf (Fsm.ieOn e).

(** [fsm.NewTable] of the package-level tables; neither panics. *)
Definition emptyTable {S E} `{Countable S} `{Countable E} : Fsm.Table S E := Fsm.mkTable "" [] ∅.
Definition mountModes : Fsm.Table mountMode mountEvent :=
  default emptyTable (Fsm.NewTable "mode" mountEdges).
Definition rootStates : Fsm.Table rootState rootEvent :=
  default emptyTable (Fsm.NewTable "rootKnowledge" rootEdges).

Lemma tables_built :
  Fsm.NewTable "mode" mountEdges = Some mountModes /\
  Fsm.NewTable "rootKnowledge" rootEdges = Some rootStates.
Proof. split; reflexivity. Qed.

(** [FS.mode.Fire] and [FS.rootKnowledge.Fire], as the state they leave and
    whether the table refused the event. *)
Definition fireMode (m : mountMode) (e : mountEvent) : mountMode * bool :=
  let (m', r) := Fsm.Fire (Fsm.NewMachine mountModes m) e in
  (Fsm.state m', match r.2 with None => true | Some _ => false end).

Definition fireRoot (s : rootState) (e : rootEvent) : rootState * bool :=
  let (m', r) := Fsm.Fire (Fsm.NewMachine rootStates s) e in
  (Fsm.state m', match r.2 with None => true | Some _ => false end).

(** The whole move table of each machine, refusals included. *)
Lemma fireMode_spec m e :
  fireMode m e = match m with mountWritable => (mountDiverged, true) | _ => (m, false) end.
Proof. destruct m, e; reflexivity. Qed.

Lemma fireRoot_spec s e :
  fireRoot s e =
    match s, e with
    | rootKnown, rootSwapOK => (rootKnown, true)
    | rootKnown, rootSwapUnknown => (rootInDoubt, true)
    | rootInDoubt, rootProbeOurs => (rootKnown, true)
    | rootInDoubt, rootProbeUnchanged => (rootKnown, true)
    | _, _ => (s, false)
    end.
Proof. destruct s, e; reflexivity. Qed.

(** [FS.mutable], on the mode. *)
Definition mutableMode (m : mountMode) : option error :=
  match m with
  | mountWritable => None
  | mountReadOnly => Some (EStatus ErrROFS)
  | mountDiverged => Some (EStatus ErrStale)
  end.

(** A mount that refuses changes, because it is read-only or because it has
    diverged, refuses them for good: no sequence of events moves its mode. *)
Theorem mode_only_narrows m es :
  mutableMode m ≠ None -> foldl (fun m e => (fireMode m e).1) m es = m.
Proof.
  intros Hm. induction es as [|e es IH] using rev_ind; [done|].
  rewrite foldl_app. simpl. rewrite IH, fireMode_spec. by destruct m.
Qed.

Lemma mode_only_narrows_witness :
  foldl (fun m e => (fireMode m e).1) mountReadOnly [mountDiverge; mountDiverge] = mountReadOnly.
Proof. apply mode_only_narrows. discriminate. Defined.

(** What the log says of a mode that does not move. *)
Example refused_text :
  illegalText <$> (Fsm.Fire (Fsm.NewMachine mountModes mountDiverged) mountDiverge).2.2 =
    Some "fsm: mode: illegal transition from Diverged on Diverge".
Proof. reflexivity. Qed.

(** Two calls race to diverge: one swap wins, the other's load finds no edge. *)
Definition race : Fsm.world :=
  Fsm.mkWorld mountDiverged
    (<[0%nat := Fsm.TDone mountDiverge mountWritable mountDiverged None]>
       {[ 1%nat := Fsm.TDone mountDiverge mountDiverged mountDiverged (Some (Fsm.mkIllegal "mode" mountDiverged mountDiverge)) ]})
    [(0%nat, Fsm.mkEdge mountWritable mountDiverge mountDiverged)].

Lemma race_reachable : rtc (Fsm.astep mountModes) (Fsm.ainit mountWritable) race.
Proof.
  eapply rtc_l; [apply (Fsm.AInvoke _ _ 0%nat mountDiverge); reflexivity|].
  eapply rtc_l; [apply (Fsm.AInvoke _ _ 1%nat mountDiverge); reflexivity|].
  eapply rtc_l; [apply (Fsm.ALoadEdge _ _ 0%nat mountDiverge mountDiverged); reflexivity|].
  eapply rtc_l; [apply (Fsm.ASwapOk _ _ 0%nat mountDiverge mountWritable mountDiverged); reflexivity|].
  eapply rtc_l; [apply (Fsm.ALoadIllegal _ _ 1%nat mountDiverge); reflexivity|].
  apply rtc_refl.
Qed.

Lemma Fire_linearizable_witness :
  Fsm.replays (Fsm.mkMachine mountModes mountWritable) (Fsm.wLog race) = Some (Fsm.mkMachine mountModes mountDiverged).
Proof. exact (proj1 (Fsm.Fire_linearizable mountModes mountWritable race race_reachable)). Defined.
