(* ===== verification/Policy.v ===== *)
(** * Permission policies (internal/policy/policy.go)

    What a caller may do to an object, as a decision on a [Request]: [None]
    allows it, [Some e] refuses it with the error [e]. [Class Policy] is the
    interface the filesystem asks; [unixRules] is the implementation New
    installs, and [All] the conjunction of policies. *)

From S2P Require Import Prelude Vfs.

Definition PermExec : Z := 1.
Definition PermWrite : Z := 2.
Definition PermRead : Z := 4.
Definition permAll : Z := Z.lor PermRead (Z.lor PermWrite PermExec).

Record Object := mkObject { oType : FileType; oMode : Z; oUID : Z; oGID : Z }.

Definition InGroup (c : Caller) (gid : Z) : bool :=
  (cGID c =? gid) || existsb (fun g => g =? gid) (cGIDs c).

(** The octal masks 0o777, 0o111 and 0o7777. *)
Definition mode777 : Z := 0x1ff.
Definition mode111 : Z := 0x49.
Definition mode7777 : Z := 0xfff.

(** The class of the caller picks the three mode bits that count. *)
Definition classBits (c : Caller) (o : Object) (mode : Z) : Z :=
  if cUID c =? oUID o then Z.land (Z.shiftr mode 6) 7
  else if InGroup c (oGID o) then Z.land (Z.shiftr mode 3) 7
  else Z.land mode 7.

Definition Permits (c : Caller) (o : Object) (want : Z) : bool :=
  if negb (Z.ldiff want permAll =? 0) then false
  else
    let mode := Z.land (oMode o) mode777 in
    if cUID c =? 0 then
      (Z.land want PermExec =? 0) || bool_decide (oType o = TypeDir) || negb (Z.land mode mode111 =? 0)
    else Z.land (classBits c o mode) want =? want.

Inductive Op :=
| OpRead | OpWrite | OpTruncate | OpChmod | OpChown | OpChgrp | OpSetTimes
| OpLookup | OpReadDir | OpAddEntry | OpRemoveEntry | OpRename
| OpOther (n : Z).

Definition noObject : Object := mkObject TypeReg 0 0 0.

Record Request := mkRequest {
  rOp : Op;
  rCaller : Caller;
  rObject : Object;
  rDst : Object;
  rUID : Z;
  rGID : Z
}.

(** The Policy interface of the package: one decision. *)
Class Policy := Check : Request -> option error.

(** [allOf.Check]: the first refusal, in order. *)
Fixpoint allCheck (ps : list (Request -> option error)) (r : Request) : option error :=
  match ps with
  | [] => None
  | p :: ps => match p r with Some e => Some e | None => allCheck ps r end
  end.

Definition All (ps : list (Request -> option error)) : Policy := allCheck ps.

Definition rootOrOwner (c : Caller) (o : Object) : bool :=
  (cUID c =? 0) || (cUID c =? oUID o).

Definition fileAccess (c : Caller) (o : Object) (want : Z) : option error :=
  if bool_decide (oType o = TypeDir) then Some (EStatus ErrIsDir)
  else if negb (Permits c o want) then Some (EStatus ErrAcces)
  else None.

Definition dirAccess (c : Caller) (o : Object) (want : Z) : option error :=
  if negb (bool_decide (oType o = TypeDir)) then Some (EStatus ErrNotDir)
  else if negb (Permits c o want) then Some (EStatus ErrAcces)
  else None.

Definition unixCheck (r : Request) : option error :=
  let c := rCaller r in
  let o := rObject r in
  let wx := Z.lor PermWrite PermExec in
  match rOp r with
  | OpRead => fileAccess c o PermRead
  | OpWrite | OpTruncate => fileAccess c o PermWrite
  | OpChmod => if negb (rootOrOwner c o) then Some (EStatus ErrPerm) else None
  | OpChown =>
      if negb (rootOrOwner c o) then Some (EStatus ErrPerm)
      else if negb (cUID c =? 0) && negb (rUID r =? oUID o) then Some (EStatus ErrPerm)
      else None
  | OpChgrp =>
      if negb (rootOrOwner c o) then Some (EStatus ErrPerm)
      else if negb (cUID c =? 0) && negb (InGroup c (rGID r)) then Some (EStatus ErrPerm)
      else None
  | OpSetTimes =>
      if negb (rootOrOwner c o) && negb (Permits c o PermWrite) then Some (EStatus ErrPerm) else None
  | OpLookup => dirAccess c o PermExec
  | OpReadDir => dirAccess c o PermRead
  | OpAddEntry | OpRemoveEntry => dirAccess c o wx
  | OpRename =>
      if negb (bool_decide (oType o = TypeDir)) || negb (bool_decide (oType (rDst r) = TypeDir))
      then Some (EStatus ErrNotDir)
      else if negb (Permits c o wx) || negb (Permits c (rDst r) wx) then Some (EStatus ErrAcces)
      else None
  | OpOther _ => Some (EStatus ErrServerFault)
  end.

(** [policy.Unix()]. *)
Definition Unix : Policy := unixCheck.

Definition AccessBits (c : Caller) (o : Object) : Z :=
  let dir := bool_decide (oType o = TypeDir) in
  let read := Permits c o PermRead in
  let exec := Permits c o PermExec in
  let bits := 0 in
  let bits := if read then Z.lor bits AccessRead else bits in
  let bits := if dir && (read || exec) then Z.lor bits AccessLookup else bits in
  let bits :=
    if Permits c o PermWrite then
      let bits := Z.lor bits (Z.lor AccessModify AccessExtend) in
      if dir then Z.lor bits AccessDelete else bits
    else bits in
  if negb dir && negb (Z.land (oMode o) mode111 =? 0) && exec then Z.lor bits AccessExecute else bits.

(** ** Facts *)

(** A policy that answers whether the operation needs a directory or not: past
    it, the filesystem treats the object as one. *)
Class TypeChecked (P : Policy) : Prop := {
  tc_dir : forall r, rOp r = OpAddEntry \/ rOp r = OpRemoveEntry \/ rOp r = OpLookup \/ rOp r = OpReadDir ->
    Check r = None -> oType (rObject r) = TypeDir;
  tc_file : forall r, rOp r = OpRead \/ rOp r = OpWrite \/ rOp r = OpTruncate ->
    Check r = None -> oType (rObject r) ≠ TypeDir;
  tc_rename : forall r, rOp r = OpRename -> Check r = None ->
    oType (rObject r) = TypeDir /\ oType (rDst r) = TypeDir
}.

#[global] Instance Unix_TypeChecked : TypeChecked Unix.
Proof.
  split; intros r Hop Hc; unfold Check, Unix, unixCheck in Hc.
  - destruct Hop as [Ho|[Ho|[Ho|Ho]]]; rewrite Ho in Hc; unfold dirAccess in Hc;
      case_bool_decide; done.
  - destruct Hop as [Ho|[Ho|Ho]]; rewrite Ho in Hc; unfold fileAccess in Hc;
      case_bool_decide; done.
  - rewrite Hop in Hc. repeat case_bool_decide; done.
Qed.

Lemma allCheck_app ps qs r :
  allCheck (ps ++ qs) r = match allCheck ps r with Some e => Some e | None => allCheck qs r end.
Proof. induction ps as [|p ps IH]; simpl; [done|]. by destruct (p r). Qed.

Lemma All_allows ps r : @Check (All ps) r = None <-> Forall (fun p => p r = None) ps.
Proof.
  unfold Check, All. induction ps as [|p ps IH]; simpl; [by split|].
  rewrite list.Forall_cons. destruct (p r); [|tauto]. by split; [|intros [??]].
Qed.

Lemma testbit_7 b i : 0 <= i < 3 -> Z.testbit (Z.land b 7) i = Z.testbit b i.
Proof.
  intros Hi. rewrite Z.land_spec. change 7 with (Z.ones 3).
  rewrite Z.ones_spec_low by lia. by rewrite andb_true_r.
Qed.

Lemma land_single b i : 0 <= i -> (Z.land b (2 ^ i) =? 2 ^ i) = Z.testbit b i.
Proof.
  intros Hi. destruct (Z.testbit b i) eqn:Eb.
  - apply Z.eqb_eq. apply Z.bits_inj'. intros n Hn. rewrite Z.land_spec, Z.pow2_bits_eqb by done.
    destruct (Z.eqb_spec i n); [subst; by rewrite Eb|by rewrite andb_false_r].
  - apply Z.eqb_neq. intros E. apply (f_equal (fun z => Z.testbit z i)) in E.
    rewrite Z.land_spec, Eb, Z.pow2_bits_true in E by done. done.
Qed.

(** The mode bit that decides one permission of one class. *)
Definition classShift (c : Caller) (o : Object) : Z :=
  if cUID c =? oUID o then 6 else if InGroup c (oGID o) then 3 else 0.

Lemma classBits_testbit c o i :
  0 <= i < 3 ->
  Z.testbit (classBits c o (Z.land (oMode o) mode777)) i = Z.testbit (oMode o) (classShift c o + i).
Proof.
  intros Hi. unfold classBits, classShift.
  assert (Hb : forall k, 0 <= k <= 6 -> Z.testbit (Z.land (oMode o) mode777) (k + i) = Z.testbit (oMode o) (k + i)).
  { intros k Hk. change mode777 with (Z.ones 9). rewrite Z.land_spec, Z.ones_spec_low by lia. by rewrite andb_true_r. }
  destruct (cUID c =? oUID o); [|destruct (InGroup c (oGID o))];
    rewrite testbit_7 by done; rewrite ?Z.shiftr_spec by lia.
  - rewrite Z.add_comm. apply Hb. lia.
  - rewrite Z.add_comm. apply Hb. lia.
  - apply (Hb 0). lia.
Qed.

Lemma subset_bits b want :
  0 <= want < 8 ->
  (Z.land b want =? want) = true <-> (forall i, 0 <= i < 3 -> Z.testbit want i = true -> Z.testbit b i = true).
Proof.
  intros Hw. rewrite Z.eqb_eq. split.
  - intros E i Hi Ht. rewrite <- E, Z.land_spec in Ht. by apply andb_true_iff in Ht as [? _].
  - intros Hall. apply Z.bits_inj'. intros n Hn. rewrite Z.land_spec.
    destruct (Z.testbit want n) eqn:E; [|by rewrite andb_false_r].
    rewrite andb_true_r. apply Hall; [|done].
    split; [done|]. apply Z.nle_gt. intros Hge.
    rewrite <- (Z.mod_small want (2 ^ 3)), Z.mod_pow2_bits_high in E by lia. done.
Qed.

Lemma ldiff_permAll want : 0 <= want < 8 -> Z.ldiff want permAll = 0.
Proof. intros. unfold permAll. change (Z.lor _ _) with (Z.ones 3). rewrite Z.ldiff_ones_r by lia.
  rewrite Z.shiftr_div_pow2, Z.div_small by lia. done. Qed.

Lemma Permits_class c o want :
  cUID c ≠ 0 -> 0 <= want < 8 ->
  Permits c o want = true <->
  (forall i, 0 <= i < 3 -> Z.testbit want i = true -> Z.testbit (oMode o) (classShift c o + i) = true).
Proof.
  intros Hc Hw. unfold Permits. rewrite ldiff_permAll by done. simpl.
  destruct (Z.eqb_spec (cUID c) 0); [done|]. rewrite subset_bits by done.
  split; intros H i Hi Ht; [rewrite <- classBits_testbit by done|rewrite classBits_testbit by done]; auto.
Qed.

(** For a caller that is not root, [Permits] is the classic Unix check: the
    bits of exactly one class, owner, else group, else other, decide, and every
    permission wanted must be among them. *)
Theorem Permits_one_class c o want :
  cUID c ≠ 0 -> 0 <= want < 8 ->
  Permits c o want = true <->
  (forall i, 0 <= i < 3 -> Z.testbit want i = true -> Z.testbit (oMode o) (classShift c o + i) = true).
Proof. apply Permits_class. Qed.

(** The owner of a file of mode 0477 may read it and no more: group and other
    do not help the owner. *)
Lemma Permits_one_class_witness :
  let o := mkObject TypeReg 0x13f 5 5 in
  Permits (mkCaller 5 5 []) o PermWrite = false /\ Permits (mkCaller 6 5 []) o PermWrite = true.
Proof.
  split.
  - apply not_true_iff_false. intros H.
    pose proof (proj1 (Permits_one_class (mkCaller 5 5 []) (mkObject TypeReg 0x13f 5 5) PermWrite
      ltac:(discriminate) ltac:(vm_compute; split; [discriminate|reflexivity])) H 1 ltac:(lia) eq_refl) as H1. discriminate H1.
  - reflexivity.
Defined.

Lemma Permits_and c o a b :
  0 <= a < 8 -> 0 <= b < 8 -> Permits c o (Z.lor a b) = true -> Permits c o a = true /\ Permits c o b = true.
Proof.
  intros Ha Hb. assert (0 <= Z.lor a b < 8) as Hab.
  { split; [apply Z.lor_nonneg; lia|]. apply Z.log2_lt_cancel. rewrite Z.log2_lor by lia. change (Z.log2 8) with 3.
    assert (Hlog : forall x, 0 <= x < 8 -> Z.log2 x < 3); [|apply Z.max_lub_lt; by apply Hlog].
    intros x Hx. destruct (decide (x = 0)) as [->|]; [done|]. apply Z.log2_lt_pow2; lia. }
  destruct (Z.eqb_spec (cUID c) 0) as [E|E].
  - unfold Permits. rewrite !ldiff_permAll by done. simpl. destruct (Z.eqb_spec (cUID c) 0); [|done].
    destruct (bool_decide (oType o = TypeDir)); [by rewrite !orb_true_r|].
    destruct (negb (Z.land (Z.land (oMode o) mode777) mode111 =? 0)); [by rewrite !orb_true_r|].
    rewrite !orb_false_r, !Z.eqb_eq, Z.land_lor_distr_l, Z.lor_eq_0_iff. done.
  - rewrite !Permits_class by done. intros H.
    split; intros i Hi Ht; apply H; try done; rewrite Z.lor_spec, Ht; [done|by rewrite orb_true_r].
Qed.

Lemma Permits_wx c o :
  Permits c o (Z.lor PermWrite PermExec) = true ->
  Permits c o PermWrite = true /\ Permits c o PermExec = true.
Proof. apply Permits_and; unfold PermWrite, PermExec; lia. Qed.

(** ** ACCESS against the rules *)

Definition ask (op : Op) (c : Caller) (o : Object) : Request := mkRequest op c o noObject 0 0.

(** The six bits of an ACCESS answer, one by one. *)
Lemma AccessBits_testbit c o i :
  0 <= i ->
  Z.testbit (AccessBits c o) i =
    let dir := bool_decide (oType o = TypeDir) in
    if i =? 0 then Permits c o PermRead
    else if i =? 1 then dir && (Permits c o PermRead || Permits c o PermExec)
    else if (i =? 2) || (i =? 3) then Permits c o PermWrite
    else if i =? 4 then dir && Permits c o PermWrite
    else if i =? 5 then negb dir && negb (Z.land (oMode o) mode111 =? 0) && Permits c o PermExec
    else false.
Proof.
  intros Hi. unfold AccessBits. simpl.
  destruct (Permits c o PermRead), (Permits c o PermWrite), (Permits c o PermExec),
    (bool_decide (oType o = TypeDir)), (Z.land (oMode o) mode111 =? 0); simpl;
    destruct (decide (i < 6)) as [H6|H6];
    try (assert (i = 0 \/ i = 1 \/ i = 2 \/ i = 3 \/ i = 4 \/ i = 5)
           as [->|[->|[->|[->|[->| ->]]]]] by lia; reflexivity);
    (rewrite (proj2 (Z.eqb_neq i 0)), (proj2 (Z.eqb_neq i 1)), (proj2 (Z.eqb_neq i 2)),
      (proj2 (Z.eqb_neq i 3)), (proj2 (Z.eqb_neq i 4)), (proj2 (Z.eqb_neq i 5)) by lia; simpl);
    match goal with |- Z.testbit ?x i = false =>
      let v := eval vm_compute in x in change x with v end;
    (apply Z.testbit_0_l ||
     (apply Z.bits_above_log2; [done|];
      match goal with |- ?l < i => let v := eval vm_compute in l in change l with v end; lia)).
Qed.

(** C33 The ACCESS answer and the rules agree. On a file, the read, modify and
    extend bits are granted exactly when the Unix rules allow the read or the
    write. On a directory the read bit is granted exactly when READDIR is
    allowed, and the lookup, modify, extend and delete bits are granted
    whenever the rules allow the lookup, or adding and removing entries. *)
Theorem AccessBits_agrees c o :
  let bit i := Z.testbit (AccessBits c o) i in
  (oType o ≠ TypeDir ->
     (bit 0 = true <-> unixCheck (ask OpRead c o) = None) /\
     (bit 2 = true <-> unixCheck (ask OpWrite c o) = None) /\
     (bit 3 = true <-> unixCheck (ask OpTruncate c o) = None) /\ bit 1 = false /\ bit 4 = false) /\
  (oType o = TypeDir ->
     (bit 0 = true <-> unixCheck (ask OpReadDir c o) = None) /\
     (unixCheck (ask OpLookup c o) = None -> bit 1 = true) /\
     (unixCheck (ask OpAddEntry c o) = None -> bit 2 = true /\ bit 3 = true) /\
     (unixCheck (ask OpRemoveEntry c o) = None -> bit 4 = true) /\ bit 5 = false).
Proof.
  cbv zeta beta. rewrite !AccessBits_testbit by lia. simpl.
  unfold unixCheck, fileAccess, dirAccess; simpl.
  pose proof (Permits_wx c o) as Hwx.
  change (Z.pos (Pos.lor 2 1)) with (Z.lor PermWrite PermExec).
  split; intros Ht; [rewrite bool_decide_false by done|rewrite bool_decide_true by done]; simpl;
    destruct (Permits c o PermRead), (Permits c o PermWrite), (Permits c o PermExec),
      (Permits c o (Z.lor PermWrite PermExec)); simpl in *; intuition congruence.
Qed.

(** Ownership is safe: a caller that is not root can never make the rules
    allow changing the owner of an object to anyone but its present owner, and
    only the owner or root changes mode, owner or group. *)
Theorem unix_ownership r :
  unixCheck r = None -> cUID (rCaller r) ≠ 0 ->
  (rOp r = OpChown -> rUID r = oUID (rObject r) /\ cUID (rCaller r) = oUID (rObject r)) /\
  (rOp r = OpChgrp -> InGroup (rCaller r) (rGID r) = true /\ cUID (rCaller r) = oUID (rObject r)) /\
  (rOp r = OpChmod -> cUID (rCaller r) = oUID (rObject r)).
Proof.
  intros Hc Hroot. unfold unixCheck, rootOrOwner in Hc.
  destruct (Z.eqb_spec (cUID (rCaller r)) 0) as [?|_]; [done|].
  split; [|split]; intros Hop; rewrite Hop in Hc; simpl in Hc;
    (destruct (Z.eqb_spec (cUID (rCaller r)) (oUID (rObject r))) as [E|E]; simpl in Hc; [|done]).
  - destruct (Z.eqb_spec (rUID r) (oUID (rObject r))); done.
  - destruct (InGroup (rCaller r) (rGID r)); done.
  - done.
Qed.

Lemma unix_ownership_witness :
  let r := mkRequest OpChown (mkCaller 5 5 []) (mkObject TypeReg 0x1a4 5 5) noObject 5 0 in
  unixCheck r = None /\ rUID r = oUID (rObject r).
Proof.
  split; [reflexivity|].
  exact (proj1 (proj1 (unix_ownership (mkRequest OpChown (mkCaller 5 5 []) (mkObject TypeReg 0x1a4 5 5) noObject 5 0)
    eq_refl ltac:(discriminate)) eq_refl)).
Defined.

(** The ACCESS answer for a directory promises more than the rules allow: a
    caller with read but not search permission is granted LOOKUP, and one with
    write but not search permission MODIFY, EXTEND and DELETE, while the rules
    refuse the operations those bits stand for. *)
Theorem AccessBits_overgrants :
  exists c o, oType o = TypeDir /\
    Z.testbit (AccessBits c o) 1 = true /\ unixCheck (ask OpLookup c o) ≠ None /\
    Z.testbit (AccessBits c o) 2 = true /\ unixCheck (ask OpAddEntry c o) ≠ None /\
    Z.testbit (AccessBits c o) 4 = true /\ unixCheck (ask OpRemoveEntry c o) ≠ None.
Proof.
  exists (mkCaller 5 5 []), (mkObject TypeDir 0x180 5 5). repeat split; try reflexivity; discriminate.
Qed.
