(* ===== verification/Inode.v ===== *)
(** * Inodes, snapshots and handles

    The data of internal/blobfs/inode.go, and the handle codec of
    internal/blobfs/fs.go. A [*inode] is named by its key in the inode table:
    the table is the only place that holds one, so a write through the pointer
    is an update of the table at that key. A nil Entries map of an inode in
    memory reads as an empty one; [snapshot] keeps the difference, since an
    empty map is omitted by its JSON encoding. *)

From S2P Require Import Prelude Vfs Policy.

Definition rootInodeID : Z := 1.

Record chunkRef := mkChunkRef { cHash : string; cSize : Z }.

#[global] Instance chunkRef_eq_dec : EqDecision chunkRef.
Proof. solve_decision. Defined.

Definition isHole (c : chunkRef) : bool := String.eqb (cHash c) "".

Record inode := mkInode {
  iID : Z;
  iGen : Z;
  iType : FileType;
  iMode : Z;
  iUID : Z;
  iGID : Z;
  iNLink : Z;
  iSize : Z;
  iATimeNS : Z;
  iMTimeNS : Z;
  iCTimeNS : Z;
  iEntries : gmap string Z;
  iParent : Z;
  iChunks : list chunkRef;
  iTarget : string
}.

#[global] Instance inode_eq_dec : EqDecision inode.
Proof. solve_decision. Defined.

(** Field assignments [n.F = v]. *)
Definition set_iMode (v : Z) (n : inode) : inode :=
  mkInode (iID n) (iGen n) (iType n) v (iUID n) (iGID n) (iNLink n) (iSize n) (iATimeNS n) (iMTimeNS n) (iCTimeNS n) (iEntries n) (iParent n) (iChunks n) (iTarget n).
Definition set_iUID (v : Z) (n : inode) : inode :=
  mkInode (iID n) (iGen n) (iType n) (iMode n) v (iGID n) (iNLink n) (iSize n) (iATimeNS n) (iMTimeNS n) (iCTimeNS n) (iEntries n) (iParent n) (iChunks n) (iTarget n).
Definition set_iGID (v : Z) (n : inode) : inode :=
  mkInode (iID n) (iGen n) (iType n) (iMode n) (iUID n) v (iNLink n) (iSize n) (iATimeNS n) (iMTimeNS n) (iCTimeNS n) (iEntries n) (iParent n) (iChunks n) (iTarget n).
Definition set_iNLink (v : Z) (n : inode) : inode :=
  mkInode (iID n) (iGen n) (iType n) (iMode n) (iUID n) (iGID n) v (iSize n) (iATimeNS n) (iMTimeNS n) (iCTimeNS n) (iEntries n) (iParent n) (iChunks n) (iTarget n).
Definition set_iSize (v : Z) (n : inode) : inode :=
  mkInode (iID n) (iGen n) (iType n) (iMode n) (iUID n) (iGID n) (iNLink n) v (iATimeNS n) (iMTimeNS n) (iCTimeNS n) (iEntries n) (iParent n) (iChunks n) (iTarget n).
Definition set_iATimeNS (v : Z) (n : inode) : inode :=
  mkInode (iID n) (iGen n) (iType n) (iMode n) (iUID n) (iGID n) (iNLink n) (iSize n) v (iMTimeNS n) (iCTimeNS n) (iEntries n) (iParent n) (iChunks n) (iTarget n).
Definition set_iMTimeNS (v : Z) (n : inode) : inode :=
  mkInode (iID n) (iGen n) (iType n) (iMode n) (iUID n) (iGID n) (iNLink n) (iSize n) (iATimeNS n) v (iCTimeNS n) (iEntries n) (iParent n) (iChunks n) (iTarget n).
Definition set_iCTimeNS (v : Z) (n : inode) : inode :=
  mkInode (iID n) (iGen n) (iType n) (iMode n) (iUID n) (iGID n) (iNLink n) (iSize n) (iATimeNS n) (iMTimeNS n) v (iEntries n) (iParent n) (iChunks n) (iTarget n).
Definition set_iEntries (v : gmap string Z) (n : inode) : inode :=
  mkInode (iID n) (iGen n) (iType n) (iMode n) (iUID n) (iGID n) (iNLink n) (iSize n) (iATimeNS n) (iMTimeNS n) (iCTimeNS n) v (iParent n) (iChunks n) (iTarget n).
Definition set_iParent (v : Z) (n : inode) : inode :=
  mkInode (iID n) (iGen n) (iType n) (iMode n) (iUID n) (iGID n) (iNLink n) (iSize n) (iATimeNS n) (iMTimeNS n) (iCTimeNS n) (iEntries n) v (iChunks n) (iTarget n).
Definition set_iChunks (v : list chunkRef) (n : inode) : inode :=
  mkInode (iID n) (iGen n) (iType n) (iMode n) (iUID n) (iGID n) (iNLink n) (iSize n) (iATimeNS n) (iMTimeNS n) (iCTimeNS n) (iEntries n) (iParent n) v (iTarget n).
Definition set_iTarget (v : string) (n : inode) : inode :=
  mkInode (iID n) (iGen n) (iType n) (iMode n) (iUID n) (iGID n) (iNLink n) (iSize n) (iATimeNS n) (iMTimeNS n) (iCTimeNS n) (iEntries n) (iParent n) (iChunks n) v.

Definition isDir (n : inode) : bool := bool_decide (iType n = TypeDir).
Definition isFile (n : inode) : bool := bool_decide (iType n = TypeReg).
Definition isLink (n : inode) : bool := bool_decide (iType n = TypeLnk).

Definition touchM (now : Z) (n : inode) : inode := set_iCTimeNS now (set_iMTimeNS now n).
Definition touchC (now : Z) (n : inode) : inode := set_iCTimeNS now n.
Definition touchA (now : Z) (n : inode) : inode := set_iATimeNS now n.

(** [inode.used]: a uint64 sum. *)
Definition used (n : inode) : Z :=
  fold_left (fun total c => if isHole c then total else u64 (total + cSize c)) (iChunks n) 0.

Definition attr (fsid : Z) (n : inode) : Attr :=
  {| aType := iType n; aMode := Z.land (iMode n) mode7777; aNLink := iNLink n;
     aUID := iUID n; aGID := iGID n; aSize := iSize n; aUsed := used n; aRDev := (0, 0);
     aFSID := fsid; aFileID := iID n;
     aATime := iATimeNS n; aMTime := iMTimeNS n; aCTime := iCTimeNS n |}.

(** The part of an inode a policy reads. *)
Definition objectOf (n : inode) : Object := mkObject (iType n) (iMode n) (iUID n) (iGID n).

(** ** Snapshots and the root pointer *)

Definition snapshotVersion : Z := 1.
Definition rootKey : string := "root".
Definition snapshotPrefix : string := "snapshots/".
Definition chunkPrefix : string := "chunks/".

Record rootPointer := mkRootPointer {
  rpVersion : Z;
  rpEpoch : Z;
  rpSnapshot : string;
  rpFSID : Z;
  rpWrittenNS : Z;
  rpWriter : string
}.

Record snapshot := mkSnapshot {
  snVersion : Z;
  snEpoch : Z;
  snNextIno : Z;
  snChunkSize : Z;
  snInodes : gmap Z inode;
  snCreatedNS : Z
}.

(** ** Handles *)

Definition encodeHandle (id gen : Z) : Handle := be_bytes 8 id ++ be_bytes 8 gen.

Definition decodeHandle (h : Handle) : option (Z * Z) :=
  if negb (blen h =? 16) then None
  else Some (be_Z (btake 8 h), be_Z (btake 8 (bdrop 8 h))).

Lemma decode_encode_handle id gen :
  is_u64 id -> is_u64 gen -> decodeHandle (encodeHandle id gen) = Some (id, gen).
Proof.
  intros Hi Hg. unfold decodeHandle, encodeHandle.
  rewrite blen_app. unfold blen. rewrite !be_bytes_length.
  change (negb _) with false. cbv iota.
  unfold btake, bdrop. change (Z.to_nat 8) with 8%nat.
  rewrite take_app_length' by (symmetry; apply be_bytes_length).
  rewrite drop_app_length' by (symmetry; apply be_bytes_length).
  rewrite (take_ge (be_bytes 8 gen)) by (rewrite be_bytes_length; lia).
  rewrite !be_Z_bytes, !Z.mod_small by done. done.
Qed.

Lemma encode_decode_handle h id gen :
  decodeHandle h = Some (id, gen) -> encodeHandle id gen = h /\ is_u64 id /\ is_u64 gen.
Proof.
  unfold decodeHandle, encodeHandle, blen. intros Hd.
  destruct (Z.eqb_spec (Z.of_nat (length h)) 16) as [E|E]; simpl in Hd; [|done].
  injection Hd as <- <-. unfold btake, bdrop. change (Z.to_nat 8) with 8%nat.
  assert (length (take 8 h) = 8%nat) as H1 by (rewrite length_take; lia).
  assert (length (take 8 (drop 8 h)) = 8%nat) as H2 by (rewrite length_take, length_drop; lia).
  pose proof (be_bytes_Z (take 8 h)) as B1. rewrite H1 in B1.
  pose proof (be_bytes_Z (take 8 (drop 8 h))) as B2. rewrite H2 in B2.
  rewrite B1, B2. split; [|split].
  - rewrite (take_ge (drop 8 h)) by (rewrite length_drop; lia). apply take_drop.
  - pose proof (be_Z_range (take 8 h)) as R. rewrite H1 in R. done.
  - pose proof (be_Z_range (take 8 (drop 8 h))) as R. rewrite H2 in R. done.
Qed.

(** ** Hashing *)

(** hash/fnv New64a. *)
Definition fnvOffset : Z := 14695981039346656037.
Definition fnvPrime : Z := 1099511628211.
Definition fnv64a (l : bytes) : Z := fold_left (fun h b => u64 (Z.lxor h (Z_of_byte b) * fnvPrime)) l fnvOffset.

(** [[]byte(s)]. *)
Definition bytesOf (s : string) : bytes := String.list_byte_of_string s.

(** [fsidFor] of internal/blobfs/commit.go. *)
Definition fsidFor (name : string) : Z := fnv64a (bytesOf name).

Lemma fnv64a_range l : is_u64 (fnv64a l).
Proof.
  unfold fnv64a. assert (Hg : forall h, is_u64 h ->
    is_u64 (fold_left (fun h b => u64 (Z.lxor h (Z_of_byte b) * fnvPrime)) l h)).
  { induction l as [|b l IH]; intros h Hh; simpl; [done|]. apply IH, u64_range. }
  apply Hg. done.
Qed.
