(* ===== verification/ChunkCache.v ===== *)
(** * The chunk cache (internal/blobfs/cache.go)

    A byte-bounded LRU of chunk contents keyed by hash. [ll] is the
    container/list from front to back and [items] maps a hash to its element,
    kept as the entry the element holds. [put] stores a copy of the caller's
    bytes, so an entry is a value of the model and nothing outside the cache
    can change it. *)

From Stdlib Require Import Strings.Byte.
From S2P Require Import Prelude Vfs.

Module ChunkCache.

Record cacheEntry := mkEntry { eHash : string; eData : bytes }.

Record chunkCache := mkCache {
  maxBytes : Z;
  curBytes : Z;
  ll : list cacheEntry;
  items : gmap string cacheEntry;
  hits : Z;
  misses : Z
}.

Definition newChunkCache (max : Z) : chunkCache :=
  mkCache (if max <=? 0 then Z.shiftl 256 20 else max) 0 [] ∅ 0 0.

(** [ll.MoveToFront(el)] for the element that holds [e]. *)
Definition moveToFront (e : cacheEntry) (l : list cacheEntry) : list cacheEntry :=
  e :: filter (fun x => eHash x ≠ eHash e) l.

Definition get (c : chunkCache) (hash : string) : chunkCache * option bytes :=
  match items c !! hash with
  | None => (mkCache (maxBytes c) (curBytes c) (ll c) (items c) (hits c) (misses c + 1), None)
  | Some e =>
      (mkCache (maxBytes c) (curBytes c) (moveToFront e (ll c)) (items c) (hits c + 1) (misses c),
       Some (eData e))
  end.

(** The eviction loop of [put]: drop the back element while over the bound.
    Every round removes one element, so as many rounds as elements suffice. *)
Fixpoint evict (fuel : nat) (max cur : Z) (l : list cacheEntry) (m : gmap string cacheEntry)
  : Z * list cacheEntry * gmap string cacheEntry :=
  match fuel with
  | O => (cur, l, m)
  | S fuel =>
      if cur <=? max then (cur, l, m)
      else
        match list.last l with
        | None => (cur, l, m)
        | Some ent =>
            evict fuel max (cur - blen (eData ent)) (take (length l - 1) l) (delete (eHash ent) m)
        end
  end.

Definition put (c : chunkCache) (hash : string) (data : bytes) : chunkCache :=
  if maxBytes c <? blen data then c
  else
    match items c !! hash with
    | Some e => mkCache (maxBytes c) (curBytes c) (moveToFront e (ll c)) (items c) (hits c) (misses c)
    | None =>
        let el := mkEntry hash data in
        let l := el :: ll c in
        let m := <[hash := el]> (items c) in
        let cur := curBytes c + blen data in
        let '(cur, l, m) := evict (length l) (maxBytes c) cur l m in
        mkCache (maxBytes c) cur l m (hits c) (misses c)
    end.

Definition stats (c : chunkCache) : Z * Z * Z := (hits c, misses c, curBytes c).

(** ** The invariant: what the cache charges is what it holds, within the
    bound, and the map and the list hold the same entries. *)

Definition total (l : list cacheEntry) : Z := foldr (fun e s => blen (eData e) + s) 0 l.

Record wf (c : chunkCache) : Prop := {
  wf_max : 0 < maxBytes c;
  wf_cur : curBytes c = total (ll c);
  wf_bound : curBytes c <= maxBytes c;
  wf_nodup : NoDup (map eHash (ll c));
  wf_items : forall h e, items c !! h = Some e <-> e ∈ ll c /\ eHash e = h
}.

(** The abstract LRU: the longest prefix of the recency list that fits. *)
Fixpoint fitting (max : Z) (l : list cacheEntry) : list cacheEntry :=
  match l with
  | [] => []
  | e :: l => if blen (eData e) <=? max then e :: fitting (max - blen (eData e)) l else []
  end.

Lemma total_nonneg l : 0 <= total l.
Proof. induction l as [|e l IH]; simpl; [lia|]. pose proof (blen_nonneg (eData e)). lia. Qed.

Lemma total_app l k : total (l ++ k) = total l + total k.
Proof. induction l; simpl; lia. Qed.

Lemma fitting_fits max l : total l <= max -> fitting max l = l.
Proof.
  revert max; induction l as [|e l IH]; intros max Hm; simpl in *; [done|].
  pose proof (total_nonneg l). destruct (Z.leb_spec (blen (eData e)) max); [|lia].
  f_equal. apply IH. lia.
Qed.

Lemma fitting_snoc max l e : max < total (l ++ [e]) -> fitting max (l ++ [e]) = fitting max l.
Proof.
  revert max; induction l as [|x l IH]; intros max Hm; simpl in *.
  - destruct (Z.leb_spec (blen (eData e)) max); [lia|done].
  - destruct (Z.leb_spec (blen (eData x)) max); [|done]. f_equal. apply IH. lia.
Qed.

Lemma fitting_total max l : 0 <= max -> total (fitting max l) <= max.
Proof.
  revert max; induction l as [|e l IH]; intros max Hm; simpl; [done|].
  destruct (Z.leb_spec (blen (eData e)) max); simpl; [|done].
  specialize (IH (max - blen (eData e))). lia.
Qed.

Lemma fitting_prefix max l : fitting max l `prefix_of` l.
Proof.
  revert max; induction l as [|e l IH]; intros max; simpl; [done|].
  destruct (blen (eData e) <=? max); [by apply prefix_cons|apply prefix_nil].
Qed.

Definition agree (l : list cacheEntry) (m : gmap string cacheEntry) : Prop :=
  forall h e, m !! h = Some e <-> e ∈ l /\ eHash e = h.

Lemma NoDup_hash_inj l e e' :
  NoDup (map eHash l) -> e ∈ l -> e' ∈ l -> eHash e = eHash e' -> e = e'.
Proof.
  induction l as [|x l IH]; simpl; intros Hn H1 H2 Hh; [by apply elem_of_nil in H1|].
  apply list.NoDup_cons in Hn as [Hx Hn].
  assert (Hin : forall y, y ∈ l -> eHash y ∈ map eHash l) by (intros y ?; by apply (list_elem_of_fmap_2 eHash l)).
  apply elem_of_cons in H1, H2. destruct H1 as [->|H1], H2 as [->|H2]; auto.
  - rewrite Hh in Hx. by destruct Hx; apply Hin.
  - rewrite <- Hh in Hx. by destruct Hx; apply Hin.
Qed.

Lemma evict_spec fuel max cur l m :
  0 <= max -> (length l <= fuel)%nat -> cur = total l -> NoDup (map eHash l) -> agree l m ->
  exists m', evict fuel max cur l m = (total (fitting max l), fitting max l, m') /\
    agree (fitting max l) m'.
Proof.
  revert cur l m; induction fuel as [|fuel IH]; intros cur l m Hmax Hf -> Hn Ha; simpl.
  { destruct l; simpl in *; [eauto|lia]. }
  destruct (Z.leb_spec (total l) max) as [Hle|Hgt].
  { rewrite fitting_fits by done. eauto. }
  destruct l as [|e l _] using rev_ind; [simpl in Hgt; lia|].
  rewrite last_snoc, length_app. simpl.
  replace (length l + 1 - 1)%nat with (length l) by lia. rewrite take_app_length.
  rewrite fitting_snoc by done. rewrite length_app in Hf. simpl in Hf.
  rewrite map_app in Hn. apply list.NoDup_app in Hn as (Hn&Hd&_).
  apply IH; [done|lia| |done|].
  - rewrite total_app. simpl. lia.
  - intros h x. rewrite lookup_delete. case_decide as Hh.
    + split; [done|]. intros [Hin <-]. exfalso. apply (Hd (eHash x)).
      * by apply (list_elem_of_fmap_2 eHash l).
      * simpl. rewrite <- Hh. by apply list_elem_of_singleton.
    + rewrite (Ha h x), elem_of_app, list_elem_of_singleton. split; [|tauto].
      intros [[?| ->] ?]; [done|]. done.
Qed.

Lemma moveToFront_elem e l x :
  NoDup (map eHash l) -> e ∈ l -> x ∈ moveToFront e l <-> x ∈ l.
Proof.
  intros Hn He. unfold moveToFront. rewrite elem_of_cons, list_elem_of_filter.
  split; [intros [->|[??]]; done|]. intros Hx.
  destruct (decide (eHash x = eHash e)) as [Eq|Ne]; [left|by right].
  by eapply NoDup_hash_inj.
Qed.

Lemma moveToFront_nodup e l : NoDup (map eHash l) -> NoDup (map eHash (moveToFront e l)).
Proof.
  intros Hn. unfold moveToFront. simpl. apply list.NoDup_cons. split.
  - intros (x&Hx&Hin)%list_elem_of_fmap. apply list_elem_of_filter in Hin as [Hne _]. done.
  - revert Hn. induction l as [|y l IH]; simpl; [done|]. intros [Hy Hn]%list.NoDup_cons.
    destruct (decide (eHash y ≠ eHash e)).
    + rewrite filter_cons_True by done. simpl. apply list.NoDup_cons. split; [|by apply IH].
      intros (z&Hz&Hin)%list_elem_of_fmap. apply list_elem_of_filter in Hin as [_ Hin].
      apply Hy. rewrite Hz. by apply (list_elem_of_fmap_2 eHash l).
    + rewrite filter_cons_False by done. by apply IH.
Qed.

Lemma total_filter_out e l :
  NoDup (map eHash l) -> e ∈ l -> total (moveToFront e l) = total l.
Proof.
  intros Hn He. unfold moveToFront. simpl. revert Hn He.
  induction l as [|y l IH]; simpl; intros Hn He; [by apply elem_of_nil in He|].
  apply list.NoDup_cons in Hn as [Hy Hn]. apply elem_of_cons in He as [->|He].
  - rewrite filter_cons_False by tauto. f_equal. f_equal. apply list_filter_id.
    intros z Hz Heq. apply Hy. rewrite <- Heq. by apply (list_elem_of_fmap_2 eHash l).
  - rewrite filter_cons_True.
    + simpl. specialize (IH Hn He). lia.
    + intros Heq. apply Hy. rewrite Heq. by apply (list_elem_of_fmap_2 eHash l).
Qed.

(** ** The operations keep the invariant *)

Lemma wf_new max : wf (newChunkCache max).
Proof.
  split; simpl.
  - destruct (Z.leb_spec max 0); [done|lia].
  - done.
  - destruct (Z.leb_spec max 0); [done|lia].
  - constructor.
  - intros h e. rewrite lookup_empty. split; [done|]. by intros [?%elem_of_nil _].
Qed.

(** Moving an element to the front keeps everything but the order. *)
Lemma wf_moved c e h hs ms :
  wf c -> items c !! h = Some e ->
  wf (mkCache (maxBytes c) (curBytes c) (moveToFront e (ll c)) (items c) hs ms).
Proof.
  intros [Hm Hc Hb Hn Hi] He. apply Hi in He as [Hin _].
  split; cbn [maxBytes curBytes ll items]; try done.
  - by rewrite total_filter_out.
  - by apply moveToFront_nodup.
  - intros h' e'. rewrite moveToFront_elem by done. apply Hi.
Qed.

Lemma wf_get c h : wf c -> wf (get c h).1.
Proof.
  intros Hw. unfold get. destruct (items c !! h) as [e|] eqn:E; simpl.
  - by eapply wf_moved.
  - by destruct Hw.
Qed.

Lemma put_miss c h d :
  wf c -> blen d <= maxBytes c -> items c !! h = None ->
  let l := fitting (maxBytes c) (mkEntry h d :: ll c) in
  exists m, put c h d = mkCache (maxBytes c) (total l) l m (hits c) (misses c) /\ agree l m.
Proof.
  intros [Hm Hc Hb Hn Hi] Hd He l. unfold put.
  destruct (Z.ltb_spec (maxBytes c) (blen d)); [lia|]. rewrite He.
  destruct (evict_spec (length (mkEntry h d :: ll c)) (maxBytes c) (curBytes c + blen d)
              (mkEntry h d :: ll c) (<[h := mkEntry h d]> (items c))) as (m'&->&Ha).
  - lia.
  - lia.
  - simpl. lia.
  - simpl. apply list.NoDup_cons. split; [|done].
    intros (x&Hx&Hin)%list_elem_of_fmap. assert (items c !! h = Some x) by (by apply Hi). congruence.
  - intros h' e'. rewrite lookup_insert, elem_of_cons. case_decide as Heq.
    + subst h'. split; [intros [= <-]; auto|]. intros [[->|Hin] Hh]; [done|].
      assert (items c !! h = Some e') by (by apply Hi). congruence.
    + rewrite (Hi h' e'). split; [tauto|]. intros [[->|?] ?]; done.
  - by exists m'.
Qed.

Lemma wf_put c h d : wf c -> wf (put c h d).
Proof.
  intros Hw. destruct (decide (maxBytes c < blen d)) as [Hd|Hd].
  { unfold put. destruct (Z.ltb_spec (maxBytes c) (blen d)); [done|lia]. }
  destruct (items c !! h) as [e|] eqn:E.
  { unfold put. destruct (Z.ltb_spec (maxBytes c) (blen d)); [lia|]. rewrite E. by eapply wf_moved. }
  destruct (put_miss c h d) as (m&->&Ha); [done|lia|done|].
  destruct Hw as [Hm Hc Hb Hn Hi]. split; cbn [maxBytes curBytes ll items]; try done.
  - apply fitting_total. lia.
  - destruct (fitting_prefix (maxBytes c) (mkEntry h d :: ll c)) as [k Hk].
    assert (NoDup (map eHash (mkEntry h d :: ll c))) as Hall.
    { simpl. apply list.NoDup_cons. split; [|done].
      intros (x&Hx&Hin)%list_elem_of_fmap. assert (items c !! h = Some x) by (by apply Hi). congruence. }
    rewrite Hk, map_app in Hall. by apply list.NoDup_app in Hall as (?&_&_).
Qed.

(** What the cache holds under a hash. *)
Definition holds (c : chunkCache) (h : string) : option bytes := eData <$> items c !! h.

Lemma get_spec c h : (get c h).2 = holds c h.
Proof. unfold get, holds. by destruct (items c !! h). Qed.

Lemma holds_get c h h' : holds (get c h).1 h' = holds c h'.
Proof. unfold get, holds. by destruct (items c !! h). Qed.

Lemma holds_put c h d h' d' :
  wf c -> holds (put c h d) h' = Some d' -> holds c h' = Some d' \/ (h' = h /\ d' = d).
Proof.
  intros Hw. unfold holds. destruct (decide (maxBytes c < blen d)) as [Hd|Hd].
  { unfold put. destruct (Z.ltb_spec (maxBytes c) (blen d)); [auto|lia]. }
  destruct (items c !! h) as [e|] eqn:E.
  { unfold put. destruct (Z.ltb_spec (maxBytes c) (blen d)); [lia|]. rewrite E. simpl. auto. }
  destruct (put_miss c h d) as (m&->&Ha); [done|lia|done|]. simpl.
  destruct (m !! h') as [x|] eqn:Em; [|done]. simpl. intros [= <-].
  apply Ha in Em as [Hin Hh].
  destruct (fitting_prefix (maxBytes c) (mkEntry h d :: ll c)) as [k Hk].
  assert (x ∈ mkEntry h d :: ll c) as Hx by (rewrite Hk; apply elem_of_app; auto).
  apply elem_of_cons in Hx as [->|Hx]; [by right|]. left.
  assert (items c !! h' = Some x) as -> by (by apply (wf_items c Hw)). done.
Qed.

(** After a [put] of a chunk that fits, the cache is within its bound, still
    charges exactly what it holds, answers the chunk's hash with those bytes,
    and keeps of the other chunks exactly the most recently used ones that fit
    beside it. *)
Theorem put_lru c h d :
  wf c -> blen d <= maxBytes c -> holds c h = None ->
  wf (put c h d) /\
  ll (put c h d) = mkEntry h d :: fitting (maxBytes c - blen d) (ll c) /\
  holds (put c h d) h = Some d /\
  (get (put c h d) h).2 = Some d.
Proof.
  intros Hw Hd He. unfold holds in He. destruct (items c !! h) eqn:E; [done|].
  destruct (put_miss c h d) as (m&Hp&Ha); [done|lia|done|].
  assert (Hl : fitting (maxBytes c) (mkEntry h d :: ll c) = mkEntry h d :: fitting (maxBytes c - blen d) (ll c)).
  { simpl. destruct (Z.leb_spec (blen d) (maxBytes c)); [done|lia]. }
  assert (holds (put c h d) h = Some d) as Hh.
  { rewrite Hp. unfold holds. simpl. rewrite (proj2 (Ha h (mkEntry h d))); [done|].
    simpl. split; [|done]. destruct (Z.leb_spec (blen d) (maxBytes c)); [|lia]. apply list_elem_of_here. }
  split; [by apply wf_put|]. split; [by rewrite Hp|]. split; [done|]. by rewrite get_spec.
Qed.

Definition ex_cache : chunkCache := put (put (newChunkCache 4) "a" [x00; x01]) "b" [x02].

Lemma put_lru_witness :
  (blen [x03; x04] <= maxBytes ex_cache /\ holds ex_cache "c" = None) /\
  ll (put ex_cache "c" [x03; x04]) = [mkEntry "c" [x03; x04]; mkEntry "b" [x02]].
Proof.
  split; [split; [done|reflexivity]|].
  destruct (put_lru ex_cache "c" [x03; x04]) as (_&->&_&_).
  - apply wf_put, wf_put, wf_new.
  - done.
  - reflexivity.
  - reflexivity.
Defined.

End ChunkCache.
