(* ===== verification/Budget.v ===== *)
(** * The write-backpressure budget (internal/blobfs/budget.go)

    [budget] is the shared state under its mutex, less the logger and the
    condition variable: [parked] calls wait on the latter. [iterate] is one
    round of [await]'s loop, made in one hold of the mutex. [bstep] interleaves
    any number of [await] calls with charges, releases, drains ending however
    they end, and contexts being cancelled: every step is one hold. *)

From S2P Require Import Prelude Vfs.

Module Budget.

Record budget := mkBudget {
  maxBytes : Z;
  charge : Z;
  parked : Z;
  draining : bool;
  ended : Z;
  failure : option error;
  failedAt : Z
}.

Definition errDrainPanicked : error := EMsg "blobfs: backpressure drain panicked".

Definition newBudget (limit : Z) : budget := mkBudget limit 0 0 false 0 None 0.

Definition set_charge (v : Z) (b : budget) : budget :=
  mkBudget (maxBytes b) v (parked b) (draining b) (ended b) (failure b) (failedAt b).
Definition set_parked (v : Z) (b : budget) : budget :=
  mkBudget (maxBytes b) (charge b) v (draining b) (ended b) (failure b) (failedAt b).
Definition set_draining (v : bool) (b : budget) : budget :=
  mkBudget (maxBytes b) (charge b) (parked b) v (ended b) (failure b) (failedAt b).

Definition add (n : Z) (b : budget) : budget := set_charge (charge b + n) b.

(** [release], less its broadcast, which [bstep] makes. *)
Definition release (n : Z) (b : budget) : budget := set_charge (charge b - n) b.

Definition used (b : budget) : Z := charge b.
Definition limit (b : budget) : Z := maxBytes b.
Definition waiters (b : budget) : Z := parked b.

(** [settle], less its broadcast. *)
Definition settle (f : option error) (b : budget) : budget :=
  match f with
  | None => mkBudget (maxBytes b) (charge b) (parked b) false (ended b + 1) (failure b) (failedAt b)
  | Some e => mkBudget (maxBytes b) (charge b) (parked b) false (ended b + 1) (Some e) (ended b + 1)
  end.

Inductive outcome := Passed | Failed (e : error) | CtxDone | Panicked.

(** Where an [await] call is: parked in [cond.Wait]; woken and about to take
    the mutex again; running the drain; returned. [start] is the call's own
    copy of [ended]. *)
Inductive call :=
| Parked (start : Z)
| Woken (start : Z)
| Draining (start : Z)
| Done (o : outcome).

(** The failure of a drain that ended after the call began. *)
Definition failedSince (start : Z) (b : budget) : option error :=
  match failure b with
  | Some e => if start <? failedAt b then Some e else None
  | None => None
  end.

(** One round of the loop of [await], for a call whose context is done or not. *)
Definition iterate (cancelled : bool) (start : Z) (b : budget) : call * budget :=
  match failedSince start b with
  | Some e => (Done (Failed e), b)
  | None =>
      if charge b <? maxBytes b then (Done Passed, b)
      else if cancelled then (Done CtxDone, b)
      else if draining b then (Parked start, set_parked (parked b + 1) b)
      else (Draining start, set_draining true b)
  end.

(** [await] up to its first release of the mutex. *)
Definition enter (cancelled : bool) (b : budget) : call * budget :=
  if (maxBytes b <=? 0) || (charge b <? maxBytes b) then (Done Passed, b)
  else iterate cancelled (ended b) b.

(** What follows the drain a call ran, in the hold that follows it. *)
Definition drained (cancelled : bool) (start : Z) (r : option error) (b : budget) : call * budget :=
  match r with
  | None => iterate cancelled start (settle None b)
  | Some e =>
      if cancelled then (Done CtxDone, settle None b)
      else (Done (Failed e), settle (Some e) b)
  end.

(** ** The interleaving *)

Record world := mkWorld {
  shared : budget;
  calls : gmap nat call;
  cancelled : gset nat
}.

Definition wake (c : call) : call := match c with Parked s => Woken s | _ => c end.

(** [cond.Broadcast()]. *)
Definition broadcast (m : gmap nat call) : gmap nat call := wake <$> m.

Definition gone (w : world) (i : nat) : bool := bool_decide (i ∈ cancelled w).

Inductive bstep : world -> world -> Prop :=
| BAdd w n : 0 <= n -> bstep w (mkWorld (add n (shared w)) (calls w) (cancelled w))
| BRelease w n : 0 <= n ->
    bstep w (mkWorld (release n (shared w)) (broadcast (calls w)) (cancelled w))
| BEnter w i c b : calls w !! i = None ->
    enter (gone w i) (shared w) = (c, b) ->
    bstep w (mkWorld b (<[i := c]> (calls w)) (cancelled w))
| BResume w i s c b : calls w !! i = Some (Woken s) ->
    iterate (gone w i) s (set_parked (parked (shared w) - 1) (shared w)) = (c, b) ->
    bstep w (mkWorld b (<[i := c]> (calls w)) (cancelled w))
| BDrained w i s r c b : calls w !! i = Some (Draining s) ->
    drained (gone w i) s r (shared w) = (c, b) ->
    bstep w (mkWorld b (<[i := c]> (broadcast (calls w))) (cancelled w))
| BPanic w i s : calls w !! i = Some (Draining s) ->
    bstep w (mkWorld (settle (Some errDrainPanicked) (shared w))
                     (<[i := Done Panicked]> (broadcast (calls w))) (cancelled w))
| BCancel w i : bstep w (mkWorld (shared w) (calls w) ({[i]} ∪ cancelled w))
| BCtxWake w i : i ∈ cancelled w ->
    bstep w (mkWorld (shared w) (broadcast (calls w)) (cancelled w)).

Definition binit (lim : Z) : world := mkWorld (newBudget lim) ∅ ∅.

(** ** The invariant *)

Definition isWaiting (c : call) : bool := match c with Parked _ | Woken _ => true | _ => false end.
Definition isDraining (c : call) : bool := match c with Draining _ => true | _ => false end.

Definition waitingCount (m : gmap nat call) : Z := Z.of_nat (size (filter (fun ic => isWaiting ic.2 = true) m)).

(** The invariant of a budget and the calls on it. *)
Record inv (b : budget) (m : gmap nat call) : Prop := {
  inv_one : forall i j s t, m !! i = Some (Draining s) -> m !! j = Some (Draining t) -> i = j;
  inv_drain : draining b = true <-> exists i s, m !! i = Some (Draining s);
  inv_parked : forall i s, m !! i = Some (Parked s) -> draining b = true;
  inv_count : parked b = waitingCount m;
  inv_failed : 0 <= failedAt b <= ended b;
  inv_start : forall i c s, m !! i = Some c -> c = Parked s \/ c = Woken s \/ c = Draining s -> s <= ended b
}.

Lemma lookup_broadcast m i : broadcast m !! i = wake <$> m !! i.
Proof. apply lookup_fmap. Qed.

Lemma waitingCount_insert m i c :
  m !! i = None -> waitingCount (<[i := c]> m) = waitingCount m + (if isWaiting c then 1 else 0).
Proof.
  intros Hi. unfold waitingCount. destruct (isWaiting c) eqn:E.
  - rewrite map_filter_insert_True by done. rewrite map_size_insert_None; [lia|].
    apply map_lookup_filter_None. by left.
  - rewrite map_filter_insert_False by (simpl; congruence). rewrite delete_id by done. lia.
Qed.

Lemma waitingCount_delete m i c :
  m !! i = Some c -> waitingCount (delete i m) = waitingCount m - (if isWaiting c then 1 else 0).
Proof.
  intros Hi. rewrite <- (insert_delete_id m i c) at 2 by done.
  rewrite waitingCount_insert by apply lookup_delete_eq. lia.
Qed.

Lemma waitingCount_broadcast m : waitingCount (broadcast m) = waitingCount m.
Proof.
  induction m as [|i c m Hi _ IH] using map_first_key_ind; [done|].
  unfold broadcast in *. rewrite fmap_insert, !waitingCount_insert, IH; [by destruct c|done|].
  rewrite lookup_fmap, Hi. done.
Qed.

(** Wakes everyone: nobody is parked any more, the rest is as it was. *)
Lemma inv_broadcast b m : inv b m -> inv b (broadcast m).
Proof.
  intros [Ho Hd Hp Hc Hf Hs].
  assert (Hdr : forall i s, broadcast m !! i = Some (Draining s) <-> m !! i = Some (Draining s)).
  { intros i s. rewrite lookup_broadcast. destruct (m !! i) as [[]|]; simpl; naive_solver. }
  split; try done.
  - intros i j s t Hi Hj. apply Hdr in Hi, Hj. eauto.
  - rewrite Hd. by setoid_rewrite Hdr.
  - intros i s Hi. rewrite lookup_broadcast in Hi. by destruct (m !! i) as [[]|].
  - by rewrite waitingCount_broadcast.
  - intros i c s Hi Hcs. rewrite lookup_broadcast in Hi.
    destruct (m !! i) as [c0|] eqn:E; [|done]. simpl in Hi. injection Hi as <-.
    apply (Hs i c0 s E). destruct c0; simpl in Hcs; naive_solver.
Qed.

(** Removing a call that does not drain, with its count. *)
Lemma inv_remove b m i c :
  inv b m -> m !! i = Some c -> isDraining c = false ->
  inv (set_parked (parked b - if isWaiting c then 1 else 0) b) (delete i m).
Proof.
  intros [Ho Hd Hp Hc Hf Hs] Hi Hn.
  assert (Hdr : forall j s, delete i m !! j = Some (Draining s) <-> m !! j = Some (Draining s)).
  { intros j s. rewrite lookup_delete. case_decide; [|done]. subst j. rewrite Hi. naive_solver. }
  split; simpl; try done.
  - intros j k s t Hj Hk. apply Hdr in Hj, Hk. eauto.
  - rewrite Hd. by setoid_rewrite Hdr.
  - intros j s Hj. rewrite lookup_delete in Hj. case_decide; [done|eauto].
  - by rewrite (waitingCount_delete m i c), Hc.
  - intros j c' s Hj. rewrite lookup_delete in Hj. case_decide; [done|eauto].
Qed.

(** The drain of call [i] settles: no drain runs and everyone is woken. *)
Lemma inv_settle b m i s r :
  inv b m -> m !! i = Some (Draining s) -> inv (settle r b) (broadcast (delete i m)).
Proof.
  intros [Ho Hd Hp Hc Hf Hs] Hi.
  assert (Hdr : forall j t, broadcast (delete i m) !! j ≠ Some (Draining t)).
  { intros j t. rewrite lookup_broadcast, lookup_delete. case_decide; [done|].
    intros Hj. destruct (m !! j) as [[]|] eqn:E; simpl in Hj; try done.
    injection Hj as ->. by eapply Ho in E; [|exact Hi]. }
  assert (Hpk : forall j t, broadcast (delete i m) !! j ≠ Some (Parked t)).
  { intros j t. rewrite lookup_broadcast. by destruct (delete i m !! j) as [[]|]. }
  assert (ended (settle r b) = ended b + 1 /\ draining (settle r b) = false /\
     parked (settle r b) = parked b /\ 0 <= failedAt (settle r b) <= ended b + 1) as (He&Hdf&Hpb&Hfa).
  { destruct r; simpl; repeat split; lia. }
  split.
  - intros j k t u Hj. by destruct (Hdr j t).
  - rewrite Hdf. split; [done|]. intros (j&t&Hj). by destruct (Hdr j t).
  - intros j t Hj. by destruct (Hpk j t).
  - rewrite Hpb, waitingCount_broadcast, (waitingCount_delete m i (Draining s)) by done. simpl. lia.
  - by rewrite He.
  - rewrite He. intros j c t Hj Hct. rewrite lookup_broadcast, lookup_delete in Hj.
    case_decide; [done|]. destruct (m !! j) as [c0|] eqn:E; [|done]. simpl in Hj. injection Hj as <-.
    assert (t <= ended b); [|lia]. apply (Hs j c0 t E). destruct c0; simpl in Hct; naive_solver.
Qed.

(** A new or resumed call makes one round. *)
Lemma inv_done b m i o : inv b m -> m !! i = None -> inv b (<[i := Done o]> m).
Proof.
  intros [Ho Hd Hp Hc Hf Hs] Hi.
  assert (Hdr : forall j s, <[i := Done o]> m !! j = Some (Draining s) <-> m !! j = Some (Draining s)).
  { intros j s. rewrite lookup_insert. case_decide; [|done]. subst. rewrite Hi. done. }
  split; try done.
  - intros j k s t Hj Hk. apply Hdr in Hj, Hk. eauto.
  - rewrite Hd. by setoid_rewrite Hdr.
  - intros j s Hj. rewrite lookup_insert in Hj. case_decide; [done|eauto].
  - rewrite waitingCount_insert by done. simpl. lia.
  - intros j c s Hj. rewrite lookup_insert in Hj. case_decide; [|eauto].
    injection Hj as <-. naive_solver.
Qed.

Lemma inv_iterate b m i canc s c b' :
  inv b m -> m !! i = None -> s <= ended b -> iterate canc s b = (c, b') -> inv b' (<[i := c]> m).
Proof.
  intros Hinv Hi Hs. unfold iterate.
  destruct (failedSince s b); [intros [= <- <-]; by apply inv_done|].
  destruct (charge b <? maxBytes b); [intros [= <- <-]; by apply inv_done|].
  destruct canc; [intros [= <- <-]; by apply inv_done|].
  destruct (draining b) eqn:Ed; intros [= <- <-]; destruct Hinv as [Ho Hd Hp Hc Hf Hst].
  - assert (Hdr : forall j t, <[i := Parked s]> m !! j = Some (Draining t) <-> m !! j = Some (Draining t)).
    { intros j t. rewrite lookup_insert. case_decide; [|done]. subst. rewrite Hi. done. }
    split; simpl; try done.
    + intros j k t u Hj Hk. apply Hdr in Hj, Hk. eauto.
    + rewrite Hd. by setoid_rewrite Hdr.
    + rewrite waitingCount_insert by done. simpl. lia.
    + intros j c t Hj. rewrite lookup_insert in Hj. case_decide; [|eauto].
      injection Hj as <-. naive_solver.
  - assert (Hno : forall j t, m !! j ≠ Some (Draining t)).
    { intros j t Hj. assert (draining b = true) by (apply Hd; eauto). congruence. }
    split; simpl; try done.
    + intros j k t u Hj Hk. rewrite lookup_insert in Hj, Hk.
      repeat case_decide; subst; try done; by edestruct Hno.
    + split; [|done]. intros _. exists i, s. apply lookup_insert_eq.
    + rewrite waitingCount_insert by done. simpl. lia.
    + intros j c t Hj. rewrite lookup_insert in Hj. case_decide; [|eauto].
      injection Hj as <-. naive_solver.
Qed.

Lemma inv_bstep w w' : inv (shared w) (calls w) -> bstep w w' -> inv (shared w') (calls w').
Proof.
  intros Hinv Hstep.
  destruct Hstep as [w n Hn|w n Hn|w i c b Hi He|w i s c b Hi He|w i s r c b Hi He|w i s Hi|w i|w i Hi]; simpl.
  - by destruct Hinv.
  - apply inv_broadcast. by destruct Hinv.
  - unfold enter in He. destruct ((maxBytes (shared w) <=? 0) || (charge (shared w) <? maxBytes (shared w))).
    + injection He as <- <-. by apply inv_done.
    + eapply inv_iterate; [done|done| |done]. lia.
  - rewrite <- insert_delete_eq. eapply inv_iterate; [|apply lookup_delete_eq| |done].
    + by apply (inv_remove _ _ _ (Woken s)).
    + simpl. eapply (inv_start _ _ Hinv); eauto.
  - assert (inv (settle r (shared w)) (broadcast (delete i (calls w)))) as Hset by (by eapply inv_settle).
    assert (Heq : <[i := c]> (broadcast (calls w)) = <[i := c]> (broadcast (delete i (calls w)))).
    { unfold broadcast. rewrite fmap_delete. by rewrite insert_delete_eq. }
    rewrite Heq. assert (broadcast (delete i (calls w)) !! i = None) as Hnone.
    { rewrite lookup_broadcast, lookup_delete_eq. done. }
    assert (s <= ended (shared w)) by (eapply (inv_start _ _ Hinv); eauto).
    destruct r as [e|]; simpl in He.
    + destruct (gone w i); injection He as <- <-; apply inv_done; try done. by eapply (inv_settle _ _ _ _ None).
    + eapply inv_iterate; [done|done| |done]. simpl. lia.
  - unfold broadcast. rewrite <- insert_delete_eq, <- fmap_delete.
    apply inv_done; [by eapply (inv_settle _ _ _ _ (Some errDrainPanicked))|]. by rewrite lookup_fmap, lookup_delete_eq.
  - done.
  - by apply inv_broadcast.
Qed.

Lemma inv_init lim : inv (newBudget lim) ∅.
Proof.
  split; simpl; try done; try (intros; by rewrite lookup_empty in *).
  split; [done|]. intros (i&s&Hi). by rewrite lookup_empty in Hi.
Qed.

Lemma inv_reachable lim w : rtc bstep (binit lim) w -> inv (shared w) (calls w).
Proof.
  intros Hs. remember (binit lim) as w0 eqn:E.
  assert (inv (shared w0) (calls w0)) as H0 by (subst; apply inv_init).
  clear E. induction Hs; [done|]. eauto using inv_bstep.
Qed.

Lemma bstep_max w w' : bstep w w' -> maxBytes (shared w') = maxBytes (shared w).
Proof.
  intros Hs. assert (Hi : forall c s b c' b', iterate c s b = (c', b') -> maxBytes b' = maxBytes b).
  { intros c s b c' b'. unfold iterate. destruct (failedSince s b); [by intros [= <- <-]|].
    repeat case_bool; [by intros [= <- <-]|]. destruct c; [by intros [= <- <-]|].
    by destruct (draining b); intros [= <- <-]. }
  destruct Hs as [w n Hn|w n Hn|w i c b Hc He|w i s c b Hc He|w i s r c b Hc He|w i s Hc|w i|w i Hc]; simpl; try done.
  - unfold enter in He. destruct (_ || _); [by injection He as <- <-|by apply Hi in He].
  - by apply Hi in He.
  - destruct r as [e|]; simpl in He; [by destruct (gone w i); injection He as <- <-|by apply Hi in He].
Qed.

(** C35 Backpressure is sound however calls, charges, releases and drains
    interleave: at most one drain runs at a time; the in-progress mark is set
    exactly while one runs; and no call is ever parked without a drain running
    that will wake it, so no wakeup is lost. *)
Theorem await_no_lost_wakeup lim w :
  rtc bstep (binit lim) w ->
  (forall i j s t, calls w !! i = Some (Draining s) -> calls w !! j = Some (Draining t) -> i = j) /\
  (draining (shared w) = true <-> exists i s, calls w !! i = Some (Draining s)) /\
  (forall i s, calls w !! i = Some (Parked s) -> exists j t, calls w !! j = Some (Draining t)) /\
  waiters (shared w) = waitingCount (calls w).
Proof.
  intros [Ho Hd Hp Hc _ _]%inv_reachable. repeat split; try done; try apply Hd.
  intros i s Hi. apply Hd. eauto.
Qed.

(** A call is admitted only while the charge is below the limit, or the
    limit disables waiting: the step that returns it finds room. *)
Theorem await_admits_below_limit w w' i :
  bstep w w' -> calls w !! i ≠ Some (Done Passed) -> calls w' !! i = Some (Done Passed) ->
  maxBytes (shared w') <= 0 \/ charge (shared w') < maxBytes (shared w').
Proof.
  assert (Hit : forall c s b b', iterate c s b = (Done Passed, b') -> charge b' < maxBytes b').
  { intros c s b b'. unfold iterate. destruct (failedSince s b); [done|].
    destruct (Z.ltb_spec (charge b) (maxBytes b)); [by intros [= <-]|].
    destruct c; [done|]. by destruct (draining b). }
  assert (Hw : forall m j, m !! j ≠ Some (Done Passed) -> broadcast m !! j ≠ Some (Done Passed)).
  { intros m j. rewrite lookup_broadcast. by destruct (m !! j) as [[]|]. }
  intros Hs Hn Hd. pose proof (Hw _ _ Hn) as Hnb.
  destruct Hs as [w n _|w n _|w k c b _ He|w k s c b _ He|w k s r c b _ He|w k s _|w k|w k _]; simpl in *;
    try done.
  - rewrite lookup_insert in Hd. case_decide; [|done]. injection Hd as ->. unfold enter in He.
    destruct (Z.leb_spec (maxBytes (shared w)) 0); simpl in He; [injection He as <-; by left|].
    destruct (Z.ltb_spec (charge (shared w)) (maxBytes (shared w))); [injection He as <-; by right|].
    right. by eapply Hit.
  - rewrite lookup_insert in Hd. case_decide; [|done]. injection Hd as ->. right. by eapply Hit.
  - rewrite lookup_insert in Hd. case_decide; [|done]. injection Hd as ->. right.
    destruct r as [e|]; simpl in He; [by destruct (gone w k)|by eapply Hit].
  - rewrite lookup_insert in Hd. by case_decide.
Qed.

(** A call parks behind another's drain, which frees room and wakes it. *)
Definition ex_full : world := mkWorld (add 8 (newBudget 4)) ∅ ∅.
Definition ex_two : world :=
  mkWorld (mkBudget 4 8 1 true 0 None 0) (<[1%nat := Parked 0]> (<[0%nat := Draining 0]> ∅)) ∅.

Lemma await_no_lost_wakeup_witness :
  rtc bstep (binit 4) ex_two /\ calls ex_two !! 1%nat = Some (Parked 0) /\
  exists j t, calls ex_two !! j = Some (Draining t).
Proof.
  assert (Hr : rtc bstep (binit 4) ex_two).
  { apply (rtc_l _ _ ex_full); [apply (BAdd (binit 4)); lia|].
    eapply rtc_l; [eapply (BEnter ex_full 0%nat); reflexivity|].
    eapply rtc_l; [eapply (BEnter _ 1%nat); reflexivity|].
    apply rtc_refl. }
  split; [done|]. split; [done|].
  destruct (await_no_lost_wakeup 4 ex_two Hr) as (_&_&Hp&_).
  apply (Hp 1%nat 0). reflexivity.
Defined.

Definition ex_woken : world := mkWorld (mkBudget 4 2 1 false 1 None 0) (<[1%nat := Woken 0]> ∅) ∅.

Lemma await_admits_below_limit_witness :
  exists w', bstep ex_woken w' /\ calls w' !! 1%nat = Some (Done Passed) /\
    (maxBytes (shared w') <= 0 \/ charge (shared w') < maxBytes (shared w')).
Proof.
  eexists. assert (Hs : bstep ex_woken (mkWorld (mkBudget 4 2 0 false 1 None 0)
     (<[1%nat := Done Passed]> (<[1%nat := Woken 0]> ∅)) ∅)).
  { apply (BResume ex_woken 1%nat 0); reflexivity. }
  split; [exact Hs|]. split; [reflexivity|].
  apply (await_admits_below_limit _ _ 1%nat Hs); [vm_compute; discriminate|reflexivity].
Defined.

End Budget.
