(* ===== verification/Store.v ===== *)
(** * The object store interface (internal/store/store.go)

    [Class Store W] is the Store interface over a world [W]: every method takes
    the world and gives its reply and the world after it. [StoreLaws] is what
    the interface's comments promise of one bucket and of the keys the store
    takes as they are ([keyOK]; plain keys are among them), failures included: a
    failed write may have taken effect, a failed read changes nothing. The
    filesystem is written against [Store], its theorems are proved against
    [StoreLaws], and [ReadOnly] is the wrapper of store.go. [Bucket] is an
    in-memory implementation with scripted faults that discharges the laws; the
    witnesses of the development run on it. *)

From Stdlib Require Import Ascii Strings.Byte.
From stdpp Require Import sorting.
From S2P Require Import Prelude Vfs.

(** ** Plain keys *)

(** Letters, digits and the hyphen. *)
Definition wordChar (c : ascii) : bool :=
  let n := Z.of_N (N_of_ascii c) in
  ((48 <=? n) && (n <=? 57)) || ((65 <=? n) && (n <=? 90)) || ((97 <=? n) && (n <=? 122)) || (n =? 45).

Fixpoint wordText (s : string) : bool :=
  match s with EmptyString => true | String c s => wordChar c && wordText s end.

(** A key every store takes as it is: segments of such characters and single
    dots within them. [fresh]: at the start of a segment; [dot]: after a dot. *)
Fixpoint plainFrom (fresh dot : bool) (s : string) : bool :=
  match s with
  | EmptyString => negb fresh
  | String c s =>
      if Ascii.eqb c "/" then negb fresh && plainFrom true false s
      else if Ascii.eqb c "." then negb fresh && negb dot && plainFrom false true s
      else wordChar c && plainFrom false false s
  end.

Definition plainKey (k : string) : bool := plainFrom true false k.

Lemma plainFrom_word h fresh dot s : wordText h = true -> h ≠ "" -> plainFrom fresh dot (h +:+ s) = plainFrom false false s.
Proof.
  intros Hw Hne. destruct h as [|c h]; [done|]. clear Hne. revert c fresh dot Hw.
  induction h as [|c' h IH]; intros c fresh dot; cbn [wordText]; rewrite andb_true_iff; intros [Hc Hw];
    change ((String c ?h +:+ s)) with (String c (h +:+ s)); cbn [plainFrom];
    (destruct (Ascii.eqb_spec c "/") as [->|_]; [done|]); (destruct (Ascii.eqb_spec c ".") as [->|_]; [done|]); rewrite Hc; [done|].
  by apply IH.
Qed.

Lemma wordText_app a b : wordText (a +:+ b) = wordText a && wordText b.
Proof.
  induction a as [|c a IH]; [done|]. change (String c a +:+ b) with (String c (a +:+ b)). cbn [wordText]. by rewrite IH, andb_assoc.
Qed.

(** ** The interface *)

Record ObjectInfo := mkObjectInfo { oiKey : string; oiSize : Z; oiETag : string }.

Class Store (W : Type) := {
  Get : string -> W -> result bytes * W;
  GetRange : string -> Z -> Z -> W -> result bytes * W;
  Head : string -> W -> result ObjectInfo * W;
  Put : string -> bytes -> W -> result unit * W;
  Delete : string -> W -> result unit * W;
  ListObjects : string -> string -> Z -> W -> result (list ObjectInfo) * W;
  PutIfMatch : string -> bytes -> string -> W -> result string * W;
  Name : string;
  GetWithETag : string -> W -> result (bytes * string) * W
}.

(** [store.ReadOnly]: every mutation answers ErrUnsupported. *)
Definition ReadOnly {W} (s : Store W) : Store W := {|
  Get := Get;
  GetRange := GetRange;
  Head := Head;
  Put _ _ w := (Err (EStore ErrUnsupported), w);
  Delete _ w := (Err (EStore ErrUnsupported), w);
  ListObjects := ListObjects;
  PutIfMatch _ _ _ w := (Err (EStore ErrUnsupported), w);
  Name := Name +:+ " (read-only)";
  GetWithETag := GetWithETag
|}.

Definition isNotFound {A} (r : result A) : Prop :=
  match r with Err e => errIs e ErrNotFound = true | Ok _ => False end.

(** What the store holds, the ETag of what it holds, and the keys it takes as
    they are. *)
Class StoreView (W : Type) := {
  keyOK : string -> Prop;
  objects : W -> gmap string bytes;
  etagOf : W -> string -> option string
}.

Class StoreLaws (W : Type) `{!Store W} `{!StoreView W} : Prop := {
  get_frame k w : objects (Get k w).2 = objects w;
  get_etags k w k' : etagOf (Get k w).2 k' = etagOf w k';
  get_ok k w d : keyOK k -> (Get k w).1 = Ok d -> objects w !! k = Some d;
  get_missing k w : keyOK k -> isNotFound (Get k w).1 -> objects w !! k = None;
  head_frame k w : objects (Head k w).2 = objects w;
  head_etags k w k' : etagOf (Head k w).2 k' = etagOf w k';
  head_ok k w i : keyOK k -> (Head k w).1 = Ok i -> is_Some (objects w !! k) /\
    (oiETag i ≠ "" -> etagOf w k = Some (oiETag i));
  list_frame p a m w : objects (ListObjects p a m w).2 = objects w;
  list_etags p a m w k' : etagOf (ListObjects p a m w).2 k' = etagOf w k';
  list_ok p a m w l : (ListObjects p a m w).1 = Ok l ->
    forall o, o ∈ l -> String.prefix p (oiKey o) = true /\ keyOK (oiKey o);
  gwe_frame k w : objects (GetWithETag k w).2 = objects w;
  gwe_etags k w k' : etagOf (GetWithETag k w).2 k' = etagOf w k';
  gwe_ok k w d e : keyOK k -> (GetWithETag k w).1 = Ok (d, e) ->
    objects w !! k = Some d /\ (e ≠ "" -> etagOf w k = Some e);
  gwe_missing k w : keyOK k -> isNotFound (GetWithETag k w).1 -> objects w !! k = None;
  put_ok k d w : keyOK k -> (Put k d w).1 = Ok tt -> objects (Put k d w).2 = <[k := d]> (objects w);
  put_err k d w e : keyOK k -> (Put k d w).1 = Err e ->
    objects (Put k d w).2 = objects w \/ objects (Put k d w).2 = <[k := d]> (objects w);
  put_etags k d w k' : keyOK k -> k ≠ k' -> etagOf (Put k d w).2 k' = etagOf w k';
  del_ok k w : keyOK k -> (Delete k w).1 = Ok tt -> objects (Delete k w).2 = delete k (objects w);
  del_err k w e : keyOK k -> (Delete k w).1 = Err e ->
    objects (Delete k w).2 = objects w \/ objects (Delete k w).2 = delete k (objects w);
  del_etags k w k' : keyOK k -> k ≠ k' -> etagOf (Delete k w).2 k' = etagOf w k';
  (** PutIfMatch takes effect only against the ETag it names, or on an absent
      key when it names none. *)
  pim_ok k d t w t' : keyOK k -> (PutIfMatch k d t w).1 = Ok t' ->
    etagOf w k = (if String.eqb t "" then None else Some t) /\
    objects (PutIfMatch k d t w).2 = <[k := d]> (objects w) /\
    (t' ≠ "" -> etagOf (PutIfMatch k d t w).2 k = Some t');
  pim_err k d t w e : keyOK k -> (PutIfMatch k d t w).1 = Err e ->
    (objects (PutIfMatch k d t w).2 = objects w /\ etagOf (PutIfMatch k d t w).2 k = etagOf w k) \/
    (etagOf w k = (if String.eqb t "" then None else Some t) /\
     objects (PutIfMatch k d t w).2 = <[k := d]> (objects w));
  etag_some w k : is_Some (etagOf w k) <-> is_Some (objects w !! k);
  key_plain k : plainKey k = true -> keyOK k
}.

(** ** An in-memory bucket with scripted faults *)

Module Bucket.

(** How the bucket answers one write: normally; by failing before it applies
    the write; by losing the reply of a write it applied; by refusing a
    condition; by a reply without an ETag; or as a store without conditional
    writes. *)
Inductive fault := Normal | FailBefore | ReplyLost | Refuse | NoETag | Unsupported.

Record world := mkWorld { objs : gmap string bytes; script : list fault }.

Definition nextFault (w : world) : fault * world :=
  match script w with
  | [] => (Normal, w)
  | f :: fs => (f, mkWorld (objs w) fs)
  end.

Definition lost : error := EMsg "connection reset".

(** The ETag of a body: a quoted copy of it, so never empty. *)
Definition etag (d : bytes) : string := "e" +:+ String.string_of_list_byte d.

Definition store (w : world) (k : string) (d : bytes) : world := mkWorld (<[k := d]> (objs w)) (script w).

Definition get (k : string) (w : world) : result bytes * world :=
  (match objs w !! k with Some d => Ok d | None => Err (EStore ErrNotFound) end, w).

Definition getRange (k : string) (off n : Z) (w : world) : result bytes * world :=
  (match objs w !! k with Some d => Ok (btake n (bdrop off d)) | None => Err (EStore ErrNotFound) end, w).

Definition getWithETag (k : string) (w : world) : result (bytes * string) * world :=
  (match objs w !! k with Some d => Ok (d, etag d) | None => Err (EStore ErrNotFound) end, w).

Definition head (k : string) (w : world) : result ObjectInfo * world :=
  (match objs w !! k with
   | Some d => Ok (mkObjectInfo k (blen d) (etag d))
   | None => Err (EStore ErrNotFound)
   end, w).

Definition put (k : string) (d : bytes) (w : world) : result unit * world :=
  let (f, w) := nextFault w in
  match f with
  | Normal | NoETag => (Ok tt, store w k d)
  | ReplyLost => (Err lost, store w k d)
  | _ => (Err lost, w)
  end.

Definition del (k : string) (w : world) : result unit * world :=
  (Ok tt, mkWorld (delete k (objs w)) (script w)).

Definition keyLe (x y : string * bytes) : Prop := String.leb x.1 y.1 = true.

#[global] Instance keyLe_dec x y : Decision (keyLe x y).
Proof. unfold keyLe. apply _. Defined.

Definition list_ (p a : string) (m : Z) (w : world) : result (list ObjectInfo) * world :=
  let under := filter (fun kd => String.prefix p kd.1 = true /\ String.ltb a kd.1 = true) (map_to_list (objs w)) in
  let keys := merge_sort keyLe under in
  let out := map (fun kd : string * bytes => mkObjectInfo kd.1 (blen kd.2) (etag kd.2)) keys in
  (Ok (if 0 <? m then btake m out else out), w).

Definition matches (w : world) (k t : string) : bool :=
  match objs w !! k with
  | None => String.eqb t ""
  | Some d => String.eqb t (etag d)
  end.

Definition putIfMatch (k : string) (d : bytes) (t : string) (w : world) : result string * world :=
  let (f, w) := nextFault w in
  match f with
  | FailBefore => (Err lost, w)
  | Refuse => (Err (EStore ErrPrecondition), w)
  | Unsupported => (Err (EStore ErrUnsupported), w)
  | _ =>
      if matches w k t then
        (match f with ReplyLost => Err lost | NoETag => Ok "" | _ => Ok (etag d) end, store w k d)
      else (Err (EStore ErrPrecondition), w)
  end.

#[global] Instance bucket_store : Store world := {|
  Get := get;
  GetRange := getRange;
  Head := head;
  Put := put;
  Delete := del;
  ListObjects := list_;
  PutIfMatch := putIfMatch;
  Name := "mem";
  GetWithETag := getWithETag
|}.

#[global] Instance bucket_view : StoreView world := {|
  keyOK _ := True;
  objects := objs;
  etagOf w k := etag <$> objs w !! k
|}.

Lemma matches_etag w k t :
  matches w k t = true -> etag <$> objs w !! k = (if String.eqb t "" then None else Some t).
Proof.
  unfold matches. destruct (objs w !! k) as [d|]; simpl.
  - intros ->%String.eqb_eq. destruct (String.eqb_spec (etag d) ""); [done|done].
  - intros ->%String.eqb_eq. done.
Qed.

Lemma getWithETag_at k w (d := default [] (objs w !! k)) :
  bool_decide (is_Some (objs w !! k)) = true -> getWithETag k w = (Ok (d, etag d), w).
Proof. unfold d, getWithETag. rewrite bool_decide_eq_true. by intros [x ->]. Qed.

Lemma nextFault_objs w : objs (nextFault w).2 = objs w.
Proof. unfold nextFault. by destruct (script w). Qed.

Lemma btake_sub {A} n (l : list A) x : x ∈ btake n l -> x ∈ l.
Proof. unfold btake. intros Hx. rewrite <- (take_drop (Z.to_nat n) l). apply elem_of_app. by left. Qed.

#[global] Instance bucket_laws : StoreLaws world.
Proof.
  split; try done; simpl.
  - intros k w d _. unfold get. simpl. by destruct (objs w !! k) as [?|]; [intros [= ->]|].
  - intros k w _. unfold get, isNotFound. simpl. by destruct (objs w !! k).
  - intros k w i _. unfold head. simpl. destruct (objs w !! k); [|done]. intros [= <-]. simpl. split; [eauto|done].
  - intros p a m w l [= <-] o Ho.
    match type of Ho with context [merge_sort _ ?l] => set (under := l) in Ho end.
    assert (o ∈ map (fun kd : string * bytes => mkObjectInfo kd.1 (blen kd.2) (etag kd.2))
              (merge_sort keyLe under)) as Hin.
    { destruct (0 <? m); [by eapply btake_sub|done]. }
    apply list_elem_of_fmap in Hin as (kd&->&Hkd). rewrite (merge_sort_Permutation _ under) in Hkd.
    by apply list_elem_of_filter in Hkd as [[? _] _].
  - intros k w d e _. unfold getWithETag. simpl. destruct (objs w !! k); [|done]. by intros [= <- <-].
  - intros k w _. unfold getWithETag, isNotFound. simpl. by destruct (objs w !! k).
  - intros k d w _. unfold put. pose proof (nextFault_objs w) as Hn. destruct (nextFault w) as [f w'].
    simpl in Hn. destruct f; simpl; try done; by rewrite Hn.
  - intros k d w e _. unfold put. pose proof (nextFault_objs w) as Hn. destruct (nextFault w) as [f w'].
    simpl in Hn. destruct f; simpl; intros; try done; rewrite Hn; auto.
  - intros k d w k' _ Hk. unfold put. pose proof (nextFault_objs w) as Hn. destruct (nextFault w) as [f w'].
    simpl in Hn. destruct f; simpl; rewrite Hn, ?lookup_insert_ne by done; done.
  - intros k w k' _ Hk. by rewrite lookup_delete_ne.
  - intros k d t w t' _. unfold putIfMatch. pose proof (nextFault_objs w) as Hn. destruct (nextFault w) as [f w'].
    simpl in Hn. destruct f; simpl; try done; destruct (matches w' k t) eqn:Em; simpl; try done;
      apply matches_etag in Em; rewrite Hn in Em; intros [= <-]; rewrite Hn, lookup_insert_eq; done.
  - intros k d t w e _. unfold putIfMatch. pose proof (nextFault_objs w) as Hn. destruct (nextFault w) as [f w'].
    simpl in Hn. destruct f; simpl; try (intros; left; by rewrite Hn);
      destruct (matches w' k t) eqn:Em; simpl; try done; try (intros; left; by rewrite Hn).
    apply matches_etag in Em. rewrite Hn in Em. right. by rewrite Hn.
  - intros w k. by rewrite fmap_is_Some.
Qed.

End Bucket.
