(* ===== verification/FsState.v ===== *)
(** * The mount's state (FS, openFile and Config of internal/blobfs/fs.go)

    [FS] holds the fields the locks guard; [conf] the ones New sets and nothing
    writes afterwards. An [*openFile] is named by its inode's number while it is
    in [open]; an operation that outlives the entry carries the value itself.
    A buffered chunk is a [buf]: its bytes and the capacity it is charged for. *)

From S2P Require Import Prelude Vfs Modes Inode ChunkCache Budget.

Record trimReq := mkTrim { tTo : Z; tRef : chunkRef }.

Record buf := mkBuf { bData : bytes; bCap : Z }.

Record openFile := mkOpen {
  ofDirty : gmap Z buf;
  ofPendingTrim : gmap Z trimReq;
  ofBytes : Z;
  ofUnsettled : bool
}.

Definition newOpenFile : openFile := mkOpen ∅ ∅ 0 false.

Definition set_ofDirty (v : gmap Z buf) (o : openFile) : openFile :=
  mkOpen v (ofPendingTrim o) (ofBytes o) (ofUnsettled o).
Definition set_ofPendingTrim (v : gmap Z trimReq) (o : openFile) : openFile :=
  mkOpen (ofDirty o) v (ofBytes o) (ofUnsettled o).
Definition set_ofBytes (v : Z) (o : openFile) : openFile :=
  mkOpen (ofDirty o) (ofPendingTrim o) v (ofUnsettled o).
Definition set_ofUnsettled (v : bool) (o : openFile) : openFile :=
  mkOpen (ofDirty o) (ofPendingTrim o) (ofBytes o) v.

Definition defaultChunkSize : Z := Z.shiftl 1 20.
Definition maxFileChunks : Z := Z.shiftl 1 20.
Definition defaultSnapshotRetention : Z := 10.
Definition defaultMaxDirtyBytes : Z := Z.shiftl 256 20.

Record conf := mkConf {
  chunkSize : Z;
  ownerUID : Z;
  ownerGID : Z;
  skipVerify : bool;
  allowUnconditionalRoot : bool;
  maxFileSize : Z;
  retention : Z;
  writerID : string
}.

Record FS := mkFS {
  cf : conf;
  mode : mountMode;
  inodes : gmap Z inode;
  nextIno : Z;
  epoch : Z;
  fsid : Z;
  rootETag : string;
  dirty : bool;
  lastCommit : Z;
  changes : Z;
  rootKnowledge : rootState;
  rootSnapshot : string;
  doubtKey : string;
  pruning : bool;
  open : gmap Z openFile;
  budget : Budget.budget;
  cache : ChunkCache.chunkCache;
  knownChunks : gset string
}.

(** Field assignments [f.F = v]. *)
Definition set_cf (v : conf) (f : FS) : FS :=
  mkFS v (mode f) (inodes f) (nextIno f) (epoch f) (fsid f) (rootETag f) (dirty f) (lastCommit f) (changes f) (rootKnowledge f) (rootSnapshot f) (doubtKey f) (pruning f) (open f) (budget f) (cache f) (knownChunks f).
Definition set_mode (v : mountMode) (f : FS) : FS :=
  mkFS (cf f) v (inodes f) (nextIno f) (epoch f) (fsid f) (rootETag f) (dirty f) (lastCommit f) (changes f) (rootKnowledge f) (rootSnapshot f) (doubtKey f) (pruning f) (open f) (budget f) (cache f) (knownChunks f).
Definition set_inodes (v : gmap Z inode) (f : FS) : FS :=
  mkFS (cf f) (mode f) v (nextIno f) (epoch f) (fsid f) (rootETag f) (dirty f) (lastCommit f) (changes f) (rootKnowledge f) (rootSnapshot f) (doubtKey f) (pruning f) (open f) (budget f) (cache f) (knownChunks f).
Definition set_nextIno (v : Z) (f : FS) : FS :=
  mkFS (cf f) (mode f) (inodes f) v (epoch f) (fsid f) (rootETag f) (dirty f) (lastCommit f) (changes f) (rootKnowledge f) (rootSnapshot f) (doubtKey f) (pruning f) (open f) (budget f) (cache f) (knownChunks f).
Definition set_epoch (v : Z) (f : FS) : FS :=
  mkFS (cf f) (mode f) (inodes f) (nextIno f) v (fsid f) (rootETag f) (dirty f) (lastCommit f) (changes f) (rootKnowledge f) (rootSnapshot f) (doubtKey f) (pruning f) (open f) (budget f) (cache f) (knownChunks f).
Definition set_fsid (v : Z) (f : FS) : FS :=
  mkFS (cf f) (mode f) (inodes f) (nextIno f) (epoch f) v (rootETag f) (dirty f) (lastCommit f) (changes f) (rootKnowledge f) (rootSnapshot f) (doubtKey f) (pruning f) (open f) (budget f) (cache f) (knownChunks f).
Definition set_rootETag (v : string) (f : FS) : FS :=
  mkFS (cf f) (mode f) (inodes f) (nextIno f) (epoch f) (fsid f) v (dirty f) (lastCommit f) (changes f) (rootKnowledge f) (rootSnapshot f) (doubtKey f) (pruning f) (open f) (budget f) (cache f) (knownChunks f).
Definition set_dirty (v : bool) (f : FS) : FS :=
  mkFS (cf f) (mode f) (inodes f) (nextIno f) (epoch f) (fsid f) (rootETag f) v (lastCommit f) (changes f) (rootKnowledge f) (rootSnapshot f) (doubtKey f) (pruning f) (open f) (budget f) (cache f) (knownChunks f).
Definition set_lastCommit (v : Z) (f : FS) : FS :=
  mkFS (cf f) (mode f) (inodes f) (nextIno f) (epoch f) (fsid f) (rootETag f) (dirty f) v (changes f) (rootKnowledge f) (rootSnapshot f) (doubtKey f) (pruning f) (open f) (budget f) (cache f) (knownChunks f).
Definition set_changes (v : Z) (f : FS) : FS :=
  mkFS (cf f) (mode f) (inodes f) (nextIno f) (epoch f) (fsid f) (rootETag f) (dirty f) (lastCommit f) v (rootKnowledge f) (rootSnapshot f) (doubtKey f) (pruning f) (open f) (budget f) (cache f) (knownChunks f).
Definition set_rootKnowledge (v : rootState) (f : FS) : FS :=
  mkFS (cf f) (mode f) (inodes f) (nextIno f) (epoch f) (fsid f) (rootETag f) (dirty f) (lastCommit f) (changes f) v (rootSnapshot f) (doubtKey f) (pruning f) (open f) (budget f) (cache f) (knownChunks f).
Definition set_rootSnapshot (v : string) (f : FS) : FS :=
  mkFS (cf f) (mode f) (inodes f) (nextIno f) (epoch f) (fsid f) (rootETag f) (dirty f) (lastCommit f) (changes f) (rootKnowledge f) v (doubtKey f) (pruning f) (open f) (budget f) (cache f) (knownChunks f).
Definition set_doubtKey (v : string) (f : FS) : FS :=
  mkFS (cf f) (mode f) (inodes f) (nextIno f) (epoch f) (fsid f) (rootETag f) (dirty f) (lastCommit f) (changes f) (rootKnowledge f) (rootSnapshot f) v (pruning f) (open f) (budget f) (cache f) (knownChunks f).
Definition set_pruning (v : bool) (f : FS) : FS :=
  mkFS (cf f) (mode f) (inodes f) (nextIno f) (epoch f) (fsid f) (rootETag f) (dirty f) (lastCommit f) (changes f) (rootKnowledge f) (rootSnapshot f) (doubtKey f) v (open f) (budget f) (cache f) (knownChunks f).
Definition set_open (v : gmap Z openFile) (f : FS) : FS :=
  mkFS (cf f) (mode f) (inodes f) (nextIno f) (epoch f) (fsid f) (rootETag f) (dirty f) (lastCommit f) (changes f) (rootKnowledge f) (rootSnapshot f) (doubtKey f) (pruning f) v (budget f) (cache f) (knownChunks f).
Definition set_budget (v : Budget.budget) (f : FS) : FS :=
  mkFS (cf f) (mode f) (inodes f) (nextIno f) (epoch f) (fsid f) (rootETag f) (dirty f) (lastCommit f) (changes f) (rootKnowledge f) (rootSnapshot f) (doubtKey f) (pruning f) (open f) v (cache f) (knownChunks f).
Definition set_cache (v : ChunkCache.chunkCache) (f : FS) : FS :=
  mkFS (cf f) (mode f) (inodes f) (nextIno f) (epoch f) (fsid f) (rootETag f) (dirty f) (lastCommit f) (changes f) (rootKnowledge f) (rootSnapshot f) (doubtKey f) (pruning f) (open f) (budget f) v (knownChunks f).
Definition set_knownChunks (v : gset string) (f : FS) : FS :=
  mkFS (cf f) (mode f) (inodes f) (nextIno f) (epoch f) (fsid f) (rootETag f) (dirty f) (lastCommit f) (changes f) (rootKnowledge f) (rootSnapshot f) (doubtKey f) (pruning f) (open f) (budget f) (cache f) v.

(** ** Opening

    [Config], less the store and the log, and the FS that [New] builds from it
    before it reads the bucket. *)

Record Config := mkConfig {
  ChunkSize : Z;
  CommitInterval : Z;
  OwnerUID : Z;
  OwnerGID : Z;
  SkipChunkVerification : bool;
  ReadOnlyMount : bool;
  SnapshotRetention : Z;
  MaxDirtyBytes : Z;
  CacheBytes : Z;
  AllowUnconditionalRoot : bool
}.

Definition buildFS (cfg : Config) (writer : string) : result FS :=
  let cs := if ChunkSize cfg =? 0 then defaultChunkSize else ChunkSize cfg in
  if cs <? 4096 then Err (EMsg "blobfs: chunk size is too small")
  else if CommitInterval cfg <? 0 then Err (EMsg "blobfs: commit interval is negative")
  else
    let limit := if MaxDirtyBytes cfg =? 0 then defaultMaxDirtyBytes else MaxDirtyBytes cfg in
    let keep := if SnapshotRetention cfg =? 0 then defaultSnapshotRetention
                else if SnapshotRetention cfg <? 0 then 0 else SnapshotRetention cfg in
    let initial := if ReadOnlyMount cfg then mountReadOnly else mountWritable in
    Ok (mkFS (mkConf cs (OwnerUID cfg) (OwnerGID cfg) (SkipChunkVerification cfg) (AllowUnconditionalRoot cfg) 0 keep writer)
          initial ∅ 0 0 0 "" false 0 0 rootKnown "" "" false ∅
          (Budget.newBudget limit) (ChunkCache.newChunkCache (CacheBytes cfg)) ∅).

Definition rootInode (uid gid now : Z) : inode :=
  mkInode rootInodeID 1 TypeDir 0x1ed uid gid 2 0 now now now ∅ 0 [] "".

(** The namespace [initEmpty] commits. *)
Definition emptyNamespace (storeName : string) (now : Z) (f : FS) : FS :=
  let f := set_inodes {[ rootInodeID := rootInode (ownerUID (cf f)) (ownerGID (cf f)) now ]} f in
  let f := set_nextIno (rootInodeID + 1) f in
  let f := set_epoch 0 f in
  let f := set_fsid (fsidFor storeName) f in
  let f := set_rootETag "" f in
  set_rootSnapshot "" f.

(** The limit New sets once the chunk size is known. *)
Definition setMaxFileSize (f : FS) : FS :=
  let c := cf f in
  set_cf (mkConf (chunkSize c) (ownerUID c) (ownerGID c) (skipVerify c) (allowUnconditionalRoot c)
            (chunkSize c * maxFileChunks) (retention c) (writerID c)) f.

(** [markDirty]. *)
Definition markDirty (f : FS) : FS := set_changes (u64 (changes f + 1)) (set_dirty true f).

(** A write through the pointer [f.inodes[id]]. *)
Definition upd (id : Z) (g : inode -> inode) (f : FS) : FS := set_inodes (alter g id (inodes f)) f.

(** [resolve]: the inode a handle names, with its key in the table. *)
Definition resolve (f : FS) (h : Handle) : result (Z * inode) :=
  match decodeHandle h with
  | None => Err (EStatus ErrBadHandle)
  | Some (id, gen) =>
      match inodes f !! id with
      | Some n => if iGen n =? gen then Ok (id, n) else Err (EStatus ErrStale)
      | None => Err (EStatus ErrStale)
      end
  end.

(** [mutable]. *)
Definition mutable (f : FS) : option error := mutableMode (mode f).

(** [getOpen]. *)
Definition getOpen (id : Z) (f : FS) : openFile * FS :=
  match open f !! id with
  | Some o => (o, f)
  | None => (newOpenFile, set_open (<[id := newOpenFile]> (open f)) f)
  end.

(** [dropOpen]. *)
Definition dropOpen (id : Z) (f : FS) : FS :=
  let f :=
    match open f !! id with
    | Some o => set_budget (Budget.release (ofBytes o) (budget f)) f
    | None => f
    end in
  set_open (delete id (open f)) f.

(** [Root], [Stats], [DirtyBytes] and [MaxFileSize]. *)
Definition Root (f : FS) : option Handle :=
  match inodes f !! rootInodeID with
  | Some n => Some (encodeHandle rootInodeID (iGen n))
  | None => None
  end.

Definition Stats (f : FS) : Z * Z * Z * Z * Z :=
  let '(h, m, b) := ChunkCache.stats (cache f) in
  (epoch f, Z.of_nat (size (inodes f)), h, m, b).

Definition DirtyBytes (f : FS) : Z := Budget.used (budget f).
Definition MaxFileSize (f : FS) : Z := maxFileSize (cf f).

Lemma resolve_ok f h id n :
  resolve f h = Ok (id, n) -> inodes f !! id = Some n /\ h = encodeHandle id (iGen n) /\ is_u64 id.
Proof.
  unfold resolve. destruct (decodeHandle h) as [[id' gen]|] eqn:Ed; [|done].
  destruct (inodes f !! id') as [n'|] eqn:E; [|done].
  destruct (Z.eqb_spec (iGen n') gen); [|done]. intros [= <- <-].
  apply encode_decode_handle in Ed as (<-&?&_). by subst.
Qed.

Lemma resolve_encode f id n :
  inodes f !! id = Some n -> is_u64 id -> is_u64 (iGen n) ->
  resolve f (encodeHandle id (iGen n)) = Ok (id, n).
Proof.
  intros Hn Hi Hg. unfold resolve. rewrite decode_encode_handle by done.
  by rewrite Hn, Z.eqb_refl.
Qed.

(** A handle of an inode that left the table is stale for good, and so is one
    whose number was given to an inode of another generation. *)
Lemma resolve_gone f id gen :
  is_u64 id -> is_u64 gen -> (forall n, inodes f !! id = Some n -> iGen n ≠ gen) ->
  resolve f (encodeHandle id gen) = Err (EStatus ErrStale).
Proof.
  intros Hi Hg Hn. unfold resolve. rewrite decode_encode_handle by done.
  destruct (inodes f !! id) as [n|]; [|done].
  destruct (Z.eqb_spec (iGen n) gen); [|done]. by edestruct Hn.
Qed.
