(* ===== verification/Tree.v ===== *)
(** * The namespace as a tree

    The abstract specification of the namespace: what the inode table says
    about the shape of the filesystem, and nothing else. [node] is the part of
    an inode the shape depends on; [tree] says that the table is a finite tree
    rooted at inode 1 in which every inode but the root has exactly one name,
    the Parent fields agree with the entries, and link counts are exact; the
    abstract operations [t_add], [t_remove] and [t_move] keep it. *)

From S2P Require Import Prelude Vfs.

Record node := mkNode {
  nId : Z;
  nDir : bool;
  nParent : Z;
  nEntries : gmap string Z;
  nLink : Z
}.

Abbreviation table := (gmap Z node).

Implicit Types t : table.

(** [id] reaches the root in [k] steps along Parent. *)
Inductive reach t : nat -> Z -> Prop :=
| reach_root : reach t 0 1
| reach_step k id n : t !! id = Some n -> id ≠ 1 -> reach t k (nParent n) -> reach t (S k) id.

(** [a] is at or above [id]. *)
Inductive above t (a : Z) : Z -> Prop :=
| above_here : above t a a
| above_step id n : t !! id = Some n -> id ≠ 1 -> above t a (nParent n) -> above t a id.

(** How many directories have [d] for their parent. *)
Definition childDir (d : Z) (n : node) : Prop := nDir n = true /\ nParent n = d.
#[global] Instance childDir_dec d n : Decision (childDir d n).
Proof. unfold childDir. apply _. Defined.
Definition subdirs t (d : Z) : Z := Z.of_nat (size (filter (fun kn => childDir d kn.2) t)).

Definition linksOf t (id : Z) (n : node) : Z := if nDir n then u32 (2 + subdirs t id) else 1.

Record tree t : Prop := {
  tr_root : exists r, t !! 1 = Some r /\ nDir r = true /\ nParent r = 0;
  tr_id : forall id n, t !! id = Some n -> nId n = id /\ id ≠ 0;
  tr_entry : forall d dn x id, t !! d = Some dn -> nEntries dn !! x = Some id ->
    nDir dn = true /\ id ≠ 1 /\ exists n, t !! id = Some n /\ nParent n = d;
  tr_named : forall id n, t !! id = Some n -> id ≠ 1 ->
    exists dn x, t !! nParent n = Some dn /\ nEntries dn !! x = Some id;
  tr_once : forall d dn x y id, t !! d = Some dn ->
    nEntries dn !! x = Some id -> nEntries dn !! y = Some id -> x = y;
  tr_reach : forall id, is_Some (t !! id) -> exists k, reach t k id;
  tr_links : forall id n, t !! id = Some n -> nLink n = linksOf t id n
}.

(** ** Abstract operations *)

Definition with_entries (e : gmap string Z) (n : node) : node := mkNode (nId n) (nDir n) (nParent n) e (nLink n).
Definition with_link (l : Z) (n : node) : node := mkNode (nId n) (nDir n) (nParent n) (nEntries n) l.
Definition with_parent (p : Z) (n : node) : node := mkNode (nId n) (nDir n) p (nEntries n) (nLink n).

(** A fresh node under the name [x] of the directory [d]. *)
Definition t_add t (d : Z) (x : string) (id : Z) (dir : bool) : table :=
  alter (fun dn => with_link (if dir then u32 (nLink dn + 1) else nLink dn)
                    (with_entries (<[x := id]> (nEntries dn)) dn)) d
    (<[id := mkNode id dir d ∅ (if dir then 2 else 1)]> t).

(** The name [x] of [d] and the node [id] it names. *)
Definition t_remove t (d : Z) (x : string) (id : Z) (dir : bool) : table :=
  delete id
    (alter (fun dn => with_link (if dir then u32 (nLink dn - 1) else nLink dn)
                       (with_entries (delete x (nEntries dn)) dn)) d t).

(** The node [id] from the name [x] of [s] to the unused name [y] of [d]. *)
Definition t_move t (id s d : Z) (x y : string) (dir : bool) : table :=
  let t := alter (fun n => with_entries (delete x (nEntries n)) n) s t in
  let t := alter (fun n => with_entries (<[y := id]> (nEntries n)) n) d t in
  let t := if dir && negb (s =? d) then
             alter (fun n => with_link (u32 (nLink n + 1)) n) d
               (alter (fun n => with_link (u32 (nLink n - 1)) n) s t)
           else t in
  alter (with_parent d) id t.

(** ** Reachability *)

Lemma reach_det t k k' id : reach t k id -> reach t k' id -> k = k'.
Proof.
  intros H. revert k'. induction H as [|k id n Hn Hne Hr IH]; intros k' H'; inversion H' as [|? ? n' Hn' Hne' Hr']; subst; try done.
  f_equal. apply IH. congruence.
Qed.

Lemma reach_in t k id : tree t -> reach t k id -> is_Some (t !! id).
Proof. intros Ht H. destruct H; [destruct (tr_root t Ht) as (r&->&_)|]; eauto. Qed.

Lemma reach_path t k id :
  tree t -> reach t k id ->
  exists X : gset Z, X ⊆ dom t /\ size X = S k /\ forall x, x ∈ X -> exists j, (j <= k)%nat /\ reach t j x.
Proof.
  intros Ht H. induction H as [|k id n Hn Hne Hr IH].
  - exists {[1]}. split; [|split].
    + apply singleton_subseteq_l, elem_of_dom. destruct (tr_root t Ht) as (r&->&_); eauto.
    + apply size_singleton.
    + intros x ->%elem_of_singleton. exists 0%nat. split; [lia|constructor].
  - destruct IH as (X&Hsub&Hsize&Hall). exists ({[id]} ∪ X). split; [|split].
    + apply union_subseteq. split; [apply singleton_subseteq_l, elem_of_dom; eauto|done].
    + rewrite size_union, size_singleton, Hsize; [done|]. apply disjoint_singleton_l. intros Hin.
      destruct (Hall id Hin) as (j&Hj&Hrj).
      assert (j = S k) by (eapply reach_det; [done|]; econstructor; eauto). lia.
    + intros x [->%elem_of_singleton|Hx]%elem_of_union.
      * exists (S k). split; [lia|]. econstructor; eauto.
      * destruct (Hall x Hx) as (j&Hj&?). exists j. split; [lia|done].
Qed.

(** No path is longer than the table, so the walk's bound never cuts one. *)
Lemma reach_bound t k id : tree t -> reach t k id -> (k < size t)%nat.
Proof.
  intros Ht Hr. destruct (reach_path t k id Ht Hr) as (X&Hsub&Hsize&_).
  apply subseteq_size in Hsub. rewrite Hsize, size_dom in Hsub. lia.
Qed.

Lemma above_dir t a id n :
  tree t -> above t a id -> a ≠ id -> t !! a = Some n -> nDir n = true.
Proof.
  intros Ht H. induction H as [|id m Hm Hne Ha IH]; intros Hx Hn; [done|].
  destruct (decide (a = nParent m)) as [->|Hp]; [|by apply IH].
  destruct (tr_named t Ht id m Hm Hne) as (dn&x&Hd&Hx'). rewrite Hn in Hd. injection Hd as ->.
  by destruct (tr_entry t Ht _ _ _ _ Hn Hx') as [? _].
Qed.

(** ** The count of child directories *)

Lemma subdirs_ext t t' d :
  (forall id, (fun n => (nDir n, nParent n)) <$> t !! id = (fun n => (nDir n, nParent n)) <$> t' !! id) ->
  subdirs t d = subdirs t' d.
Proof.
  intros He. unfold subdirs. f_equal.
  rewrite <- !size_dom. f_equal. apply set_eq. intros id. rewrite !elem_of_dom.
  specialize (He id). split; intros [n Hn]; apply map_lookup_filter_Some in Hn as [Hn Hc]; rewrite Hn in He; simpl in He;
    [destruct (t' !! id) as [n'|] eqn:E|destruct (t !! id) as [n'|] eqn:E]; try done; injection He as ??;
    exists n'; apply map_lookup_filter_Some; (split; [done|]); unfold childDir in *; simpl in *; destruct Hc; split; congruence.
Qed.

Lemma subdirs_insert t id n d :
  t !! id = None ->
  subdirs (<[id := n]> t) d = subdirs t d + (if decide (childDir d n) then 1 else 0).
Proof.
  intros Hi. unfold subdirs. case_decide.
  - rewrite map_filter_insert_True by done. rewrite map_size_insert_None; [lia|].
    apply map_lookup_filter_None. by left.
  - rewrite map_filter_insert_False by done. rewrite delete_id by done. lia.
Qed.

Lemma subdirs_delete t id n d :
  t !! id = Some n ->
  subdirs (delete id t) d = subdirs t d - (if decide (childDir d n) then 1 else 0).
Proof.
  intros Hi. rewrite <- (insert_delete_id t id n) at 2 by done.
  rewrite subdirs_insert by apply lookup_delete_eq. lia.
Qed.

Lemma subdirs_none t d :
  (forall id n, t !! id = Some n -> ~ childDir d n) -> subdirs t d = 0.
Proof.
  intros Hn. unfold subdirs. assert (filter (fun kn => childDir d kn.2) t = ∅) as ->; [|done].
  apply map_empty. intros id. apply map_lookup_filter_None. right. intros n Hi. by apply (Hn id).
Qed.

(** A directory without entries has no child directories. *)
Lemma subdirs_empty t d dn :
  tree t -> t !! d = Some dn -> d ≠ 0 -> nEntries dn = ∅ -> subdirs t d = 0.
Proof.
  intros Ht Hd H0 He. apply subdirs_none. intros id n Hn [_ Hp].
  destruct (decide (id = 1)) as [->|Hne].
  { destruct (tr_root t Ht) as (r&Hr&_&Hp0). rewrite Hr in Hn. injection Hn as ->. congruence. }
  destruct (tr_named t Ht id n Hn Hne) as (dn'&x&Hdn&Hx). rewrite Hp, Hd in Hdn. injection Hdn as <-.
  by rewrite He, lookup_empty in Hx.
Qed.

Lemma u32_succ z : u32 (u32 z + 1) = u32 (z + 1).
Proof. unfold u32. apply Zplus_mod_idemp_l. Qed.

Lemma u32_pred z : u32 (u32 z - 1) = u32 (z - 1).
Proof. unfold u32. apply Zminus_mod_idemp_l. Qed.

(** ** The operations keep the tree *)

(** A path that stays among the nodes [Q] holds on is a path of any table that
    gives those nodes the same parents. *)
Lemma reach_along t t' (Q : Z -> Prop) k id :
  (forall j n, t !! j = Some n -> j ≠ 1 -> Q j ->
     Q (nParent n) /\ exists n', t' !! j = Some n' /\ nParent n' = nParent n) ->
  Q id -> reach t k id -> reach t' k id.
Proof.
  intros Hq Hid H. induction H as [|k id n Hn Hne Hr IH]; [constructor|].
  destruct (Hq id n Hn Hne Hid) as (Hp&n'&Hn'&He). econstructor; [done|done|]. rewrite He. auto.
Qed.

Section Add.
Context t (d : Z) (dn : node) (x : string) (id : Z) (dir : bool).
Hypotheses (Ht : tree t) (Hd : t !! d = Some dn) (Hdir : nDir dn = true)
  (Hx : nEntries dn !! x = None) (Hid : t !! id = None) (H0 : id ≠ 0).

Definition added : node := mkNode id dir d ∅ (if dir then 2 else 1).
Definition grown : node :=
  with_link (if dir then u32 (nLink dn + 1) else nLink dn) (with_entries (<[x := id]> (nEntries dn)) dn).

Lemma t_add_lookup j :
  t_add t d x id dir !! j = if decide (j = d) then Some grown else if decide (j = id) then Some added else t !! j.
Proof using All.
  unfold t_add. rewrite lookup_alter, !lookup_insert.
  assert (d ≠ id) by congruence.
  repeat case_decide; subst; try done. by rewrite Hd.
Qed.

Lemma t_add_subdirs j :
  subdirs (t_add t d x id dir) j = subdirs t j + (if decide (dir = true /\ j = d) then 1 else 0).
Proof using All.
  rewrite (subdirs_ext _ (<[id := added]> t)).
  - rewrite subdirs_insert by done. f_equal. unfold childDir, added. simpl.
    repeat case_decide; naive_solver.
  - intros i. rewrite t_add_lookup, lookup_insert. assert (d ≠ id) by congruence.
    destruct (decide (i = d)) as [->|].
    + rewrite decide_False by done. by rewrite Hd.
    + repeat case_decide; subst; done.
Qed.

(** What was there is still there, with the names it had. *)
Lemma t_add_keeps j n : t !! j = Some n -> exists n', t_add t d x id dir !! j = Some n' /\
  nParent n' = nParent n /\ nDir n' = nDir n /\ nId n' = nId n /\
  (forall z i, nEntries n !! z = Some i -> nEntries n' !! z = Some i).
Proof using All.
  assert (Hne : d ≠ id) by congruence. intros Hj. rewrite t_add_lookup. destruct (decide (j = d)) as [->|].
  - exists grown. assert (n = dn) as -> by congruence. repeat split.
    intros z i Hz. simpl. rewrite lookup_insert_ne by congruence. done.
  - rewrite decide_False by congruence. eauto 6.
Qed.

Lemma t_add_not_root : d ≠ id /\ id ≠ 1.
Proof using All. split; [congruence|]. destruct (tr_root t Ht) as (r&Hr&_). congruence. Qed.

Lemma t_add_entry j n z i : t_add t d x id dir !! j = Some n -> nEntries n !! z = Some i ->
  nDir n = true /\ i ≠ 1 /\ exists m, t_add t d x id dir !! i = Some m /\ nParent m = j.
Proof using All.
  destruct t_add_not_root as [Hne Hid1].
  assert (Hold : forall j n, t !! j = Some n -> nEntries n !! z = Some i ->
    nDir n = true /\ i ≠ 1 /\ exists m, t_add t d x id dir !! i = Some m /\ nParent m = j).
  { intros k m Hk Hz. destruct (tr_entry t Ht k m z i Hk Hz) as (?&?&n1&Hn1&Hp).
    split; [done|]. split; [done|]. destruct (t_add_keeps i n1 Hn1) as (n'&?&?&_). exists n'. split; congruence. }
  rewrite t_add_lookup. repeat case_decide; subst.
  - intros [= <-]. simpl. rewrite lookup_insert. case_decide.
    + intros [= <-]. split; [done|]. split; [done|]. exists added. rewrite t_add_lookup.
      rewrite decide_False by done. by rewrite decide_True.
    + intros Hz. destruct (Hold d dn Hd Hz) as (_&?&?). done.
  - intros [= <-]. simpl. by rewrite lookup_empty.
  - apply Hold.
Qed.

Lemma t_add_named j n : t_add t d x id dir !! j = Some n -> j ≠ 1 ->
  exists dn' z, t_add t d x id dir !! nParent n = Some dn' /\ nEntries dn' !! z = Some j.
Proof using All.
  destruct t_add_not_root as [Hne Hid1].
  assert (Hold : forall j n, t !! j = Some n -> j ≠ 1 -> exists dn' z,
    t_add t d x id dir !! nParent n = Some dn' /\ nEntries dn' !! z = Some j).
  { intros k m Hj Hj1. destruct (tr_named t Ht k m Hj Hj1) as (pn&z&Hpn&Hz).
    destruct (t_add_keeps _ _ Hpn) as (pn'&Hpn'&_&_&_&He). eauto. }
  rewrite t_add_lookup. repeat case_decide; subst.
  - intros [= <-] Hj1. simpl. by apply Hold.
  - intros [= <-] _. simpl. exists grown, x. rewrite t_add_lookup, decide_True by done. simpl. by rewrite lookup_insert_eq.
  - by apply Hold.
Qed.

Lemma t_add_once j n z1 z2 i :
  t_add t d x id dir !! j = Some n -> nEntries n !! z1 = Some i -> nEntries n !! z2 = Some i -> z1 = z2.
Proof using All.
  rewrite t_add_lookup. repeat case_decide; subst.
  - intros [= <-]. simpl. rewrite !lookup_insert. repeat case_decide; subst; try done.
    + intros [= <-] Hz. destruct (tr_entry t Ht _ _ _ _ Hd Hz) as (_&_&m&Hm&_). congruence.
    + intros Hz [= <-]. destruct (tr_entry t Ht _ _ _ _ Hd Hz) as (_&_&m&Hm&_). congruence.
    + by apply (tr_once t Ht d dn).
  - intros [= <-]. simpl. by rewrite lookup_empty.
  - by apply (tr_once t Ht).
Qed.

Lemma t_add_reach j : is_Some (t_add t d x id dir !! j) -> exists k, reach (t_add t d x id dir) k j.
Proof using All.
  destruct t_add_not_root as [Hne Hid1].
  assert (Hr : forall j, is_Some (t !! j) -> exists k, reach (t_add t d x id dir) k j).
  { intros i Hj. destruct (tr_reach t Ht i Hj) as [k Hk]. exists k.
    eapply (reach_along t _ (fun _ => True)); [|done|done].
    intros l n Hl _ _. split; [done|]. destruct (t_add_keeps l n Hl) as (n'&?&?&_). eauto. }
  intros [n Hj]. rewrite t_add_lookup in Hj. destruct (decide (j = d)); [subst; apply Hr; eauto|].
  destruct (decide (j = id)) as [->|]; [|apply Hr; eauto].
  destruct (Hr d) as [k Hk]; [eauto|]. exists (S k).
  econstructor; [rewrite t_add_lookup, decide_False, decide_True by congruence; reflexivity|done|exact Hk].
Qed.

Lemma t_add_links j n : t_add t d x id dir !! j = Some n -> nLink n = linksOf (t_add t d x id dir) j n.
Proof using All.
  destruct t_add_not_root as [Hne Hid1]. rewrite t_add_lookup. unfold linksOf. rewrite t_add_subdirs.
  repeat case_decide; subst; intros Hj; try (injection Hj as <-); simpl; try rewrite Hdir;
    try (rewrite (tr_links t Ht _ _ Hd); unfold linksOf; rewrite Hdir).
  - destruct dir; [|naive_solver]. rewrite u32_succ. f_equal. lia.
  - destruct dir; [naive_solver|]. f_equal. lia.
  - naive_solver.
  - destruct dir; [|done].
    rewrite (subdirs_none t id); [done|].
    intros i m Hm [_ Hp]. simpl in Hp.
    destruct (decide (i = 1)) as [->|Hi1].
    + destruct (tr_root t Ht) as (r&Hr&_&Hp0). congruence.
    + destruct (tr_named t Ht i m Hm Hi1) as (pn&z&Hpn&_). congruence.
  - naive_solver.
  - rewrite (tr_links t Ht _ _ Hj). unfold linksOf. destruct (nDir n); [|done]. f_equal. lia.
Qed.

Lemma tree_add : tree (t_add t d x id dir).
Proof using All.
  split; [| |exact t_add_entry|exact t_add_named|exact t_add_once|exact t_add_reach|exact t_add_links].
  - destruct (tr_root t Ht) as (r&Hr&Hrd&Hrp). destruct (t_add_keeps _ _ Hr) as (n'&Hn'&Hp&Hdr&_&_).
    exists n'. split; [done|]. split; congruence.
  - intros j n. rewrite t_add_lookup. repeat case_decide; subst.
    + intros [= <-]. simpl. by apply (tr_id t Ht).
    + intros [= <-]. done.
    + by apply (tr_id t Ht).
Qed.

End Add.

Section Remove.
Context t (d : Z) (dn : node) (x : string) (id : Z) (n : node).
Hypotheses (Ht : tree t) (Hd : t !! d = Some dn) (Hx : nEntries dn !! x = Some id)
  (Hid : t !! id = Some n) (He : nEntries n = ∅).

Definition shrunk : node :=
  with_link (if nDir n then u32 (nLink dn - 1) else nLink dn) (with_entries (delete x (nEntries dn)) dn).

Lemma remove_ne : d ≠ id.
Proof using All. intros ->. assert (dn = n) as -> by congruence. by rewrite He, lookup_empty in Hx. Qed.

Lemma t_remove_lookup j :
  t_remove t d x id (nDir n) !! j =
    if decide (j = id) then None else if decide (j = d) then Some shrunk else t !! j.
Proof using All.
  unfold t_remove. rewrite lookup_delete, lookup_alter. repeat case_decide; subst; try done. by rewrite Hd.
Qed.

Lemma remove_parent : nParent n = d /\ id ≠ 1.
Proof using All. destruct (tr_entry t Ht _ _ _ _ Hd Hx) as (_&?&n'&Hn&Hp). split; [congruence|done]. Qed.

(** The removed node has no children. *)
Lemma remove_leaf j m : t !! j = Some m -> j ≠ 1 -> nParent m ≠ id.
Proof using All.
  intros Hj Hj1 Hp. destruct (tr_named t Ht j m Hj Hj1) as (pn&z&Hpn&Hz).
  assert (pn = n) as -> by congruence. by rewrite He, lookup_empty in Hz.
Qed.

Lemma t_remove_subdirs j :
  subdirs (t_remove t d x id (nDir n)) j = subdirs t j - (if decide (nDir n = true /\ j = d) then 1 else 0).
Proof using All.
  rewrite (subdirs_ext _ (delete id t)).
  - rewrite (subdirs_delete t id n) by done. f_equal. destruct remove_parent as [Hp _].
    unfold childDir. repeat case_decide; naive_solver.
  - intros i. rewrite t_remove_lookup, lookup_delete. repeat case_decide; subst; try done. by rewrite Hd.
Qed.

Lemma t_remove_keeps j m : t !! j = Some m -> j ≠ id -> exists m', t_remove t d x id (nDir n) !! j = Some m' /\
  nParent m' = nParent m /\ nDir m' = nDir m /\ nId m' = nId m /\
  (forall z i, nEntries m' !! z = Some i <-> nEntries m !! z = Some i /\ i ≠ id).
Proof using All.
  destruct remove_parent as [Hp Hid1]. intros Hj Hji. rewrite t_remove_lookup, decide_False by done. case_decide; subst.
  - exists shrunk. assert (m = dn) as -> by congruence. repeat (split; [done|]).
    intros z i. simpl. rewrite lookup_delete. case_decide; subst.
    + split; [done|]. intros [? ?]. congruence.
    + split; [|tauto]. intros Hz. split; [done|]. intros ->.
      assert (x = z) by (eapply (tr_once t Ht); eauto). done.
  - exists m. repeat (split; [done|]). intros z i. split; [|tauto]. intros Hz. split; [done|]. intros ->.
    destruct (tr_entry t Ht _ _ _ _ Hj Hz) as (_&_&m'&Hm'&Hpm). congruence.
Qed.

Lemma t_remove_back j m' : t_remove t d x id (nDir n) !! j = Some m' -> j ≠ id /\ exists m, t !! j = Some m.
Proof using All. rewrite t_remove_lookup. repeat case_decide; subst; naive_solver. Qed.

Lemma tree_remove : tree (t_remove t d x id (nDir n)).
Proof using All.
  destruct remove_parent as [Hp Hid1]. pose proof remove_ne as Hne.
  pose proof t_remove_keeps as Hkeep. pose proof t_remove_back as Hback.
  split.
  - destruct (tr_root t Ht) as (r&Hr&Hrd&Hrp). destruct (Hkeep _ _ Hr) as (m'&Hm'&?&?&_&_); [done|].
    exists m'. repeat split; congruence.
  - intros j m' Hj. destruct (Hback _ _ Hj) as (Hji&m&Hm). destruct (Hkeep _ _ Hm Hji) as (m2&?&?&?&?&_).
    assert (m2 = m') as -> by congruence. destruct (tr_id t Ht _ _ Hm). split; congruence.
  - intros j m' z i Hj Hz. destruct (Hback _ _ Hj) as (Hji&m&Hm). destruct (Hkeep _ _ Hm Hji) as (m2&Hm2&?&Hdm&?&Hen).
    assert (m2 = m') as -> by congruence. apply Hen in Hz as [Hz Hii].
    destruct (tr_entry t Ht _ _ _ _ Hm Hz) as (?&?&c&Hc&Hcp). split; [congruence|]. split; [done|].
    destruct (Hkeep _ _ Hc Hii) as (c'&?&?&_). exists c'. split; congruence.
  - intros j m' Hj Hj1. destruct (Hback _ _ Hj) as (Hji&m&Hm). destruct (Hkeep _ _ Hm Hji) as (m2&Hm2&Hpm&_&_&_).
    assert (m2 = m') as -> by congruence. destruct (tr_named t Ht _ _ Hm Hj1) as (pn&z&Hpn&Hz).
    destruct (Hkeep _ _ Hpn) as (pn'&Hpn'&_&_&_&Hen); [by eapply remove_leaf|].
    exists pn', z. rewrite Hpm. split; [done|]. by apply Hen.
  - intros j m' z1 z2 i Hj H1 H2. destruct (Hback _ _ Hj) as (Hji&m&Hm).
    destruct (Hkeep _ _ Hm Hji) as (m2&Hm2&_&_&_&Hen). assert (m2 = m') as -> by congruence.
    apply Hen in H1 as [H1 _], H2 as [H2 _]. by eapply (tr_once t Ht).
  - intros j [m' Hj]. destruct (Hback _ _ Hj) as (Hji&m&Hm).
    destruct (tr_reach t Ht j) as [k Hk]; [eauto|]. exists k.
    apply (reach_along t _ (fun i => i ≠ id)); [|done|done].
    intros i c Hc Hi1 Hi. split; [by eapply remove_leaf|].
    destruct (Hkeep _ _ Hc Hi) as (c'&?&?&_). eauto.
  - intros j m' Hj. destruct (Hback _ _ Hj) as (Hji&m&Hm). unfold linksOf. rewrite t_remove_subdirs.
    rewrite t_remove_lookup, decide_False in Hj by done. destruct (decide (j = d)) as [->|Hjd].
    + injection Hj as <-. simpl. rewrite (tr_links t Ht _ _ Hd). unfold linksOf.
      assert (nDir dn = true) as -> by (by destruct (tr_entry t Ht _ _ _ _ Hd Hx)).
      destruct (nDir n); [rewrite decide_True by done; rewrite u32_pred; f_equal; lia|].
      rewrite decide_False by naive_solver. f_equal. lia.
    + rewrite (tr_links t Ht _ _ Hj). unfold linksOf. destruct (nDir m'); [|done].
      rewrite decide_False by naive_solver. f_equal. lia.
Qed.

End Remove.

Section Move.
Context t (s d : Z) (sn dn n : node) (x y : string) (id : Z).
Hypotheses (Ht : tree t) (Hs : t !! s = Some sn) (Hd : t !! d = Some dn) (Hdir : nDir dn = true)
  (Hx : nEntries sn !! x = Some id) (Hy : nEntries dn !! y = None) (Hid : t !! id = Some n)
  (Hloop : ~ above t id d).

(** What the move makes of the node numbered [j]. *)
Definition movedEntries (j : Z) (m : node) : gmap string Z :=
  let e := if decide (j = s) then delete x (nEntries m) else nEntries m in
  if decide (j = d) then <[y := id]> e else e.
Definition movedLink (j : Z) (m : node) : Z :=
  if nDir n && negb (s =? d)
  then if decide (j = d) then u32 (nLink m + 1) else if decide (j = s) then u32 (nLink m - 1) else nLink m
  else nLink m.
Definition moved (j : Z) (m : node) : node :=
  mkNode (nId m) (nDir m) (if decide (j = id) then d else nParent m) (movedEntries j m) (movedLink j m).

Lemma t_move_lookup j : t_move t id s d x y (nDir n) !! j = moved j <$> t !! j.
Proof using Type.
  clear Ht Hs Hd Hdir Hx Hy Hid Hloop.
  unfold t_move, moved, movedEntries, movedLink. rewrite lookup_alter.
  destruct (nDir n && negb (s =? d)) eqn:E; rewrite !lookup_alter;
    repeat case_decide; subst; rewrite ?Z.eqb_refl, ?andb_false_r in *; try done;
    destruct (t !! j) as [[]|]; done.
Qed.

Lemma move_parent : nParent n = s /\ id ≠ 1.
Proof using All. destruct (tr_entry t Ht _ _ _ _ Hs Hx) as (_&?&n'&Hn&Hp). split; [congruence|done]. Qed.

Lemma movedEntries_spec j m z i :
  t !! j = Some m ->
  movedEntries j m !! z = Some i <-> (j = d /\ z = y /\ i = id) \/ (i ≠ id /\ nEntries m !! z = Some i).
Proof using All.
  intros Hj. unfold movedEntries. destruct move_parent as [Hp _].
  assert (Hi : nEntries m !! z = Some id -> j = s /\ z = x).
  { intros Hz. destruct (tr_entry t Ht _ _ _ _ Hj Hz) as (_&_&n'&Hn&Hpn).
    assert (j = s) as -> by congruence. split; [done|].
    assert (m = sn) as -> by congruence. by apply (tr_once t Ht s sn z x id). }
  repeat case_decide; subst; rewrite ?lookup_insert, ?lookup_delete; repeat case_decide; naive_solver.
Qed.

Lemma t_move_subdirs j :
  subdirs (t_move t id s d x y (nDir n)) j =
    subdirs t j - (if decide (nDir n = true /\ j = s) then 1 else 0)
                + (if decide (nDir n = true /\ j = d) then 1 else 0).
Proof using All.
  rewrite (subdirs_ext _ (<[id := with_parent d n]> (delete id t))).
  - rewrite subdirs_insert by apply lookup_delete_eq. rewrite (subdirs_delete t id n) by done.
    destruct move_parent as [Hp _]. unfold childDir. simpl.
    repeat case_decide; naive_solver lia.
  - intros i. rewrite t_move_lookup, lookup_insert, lookup_delete.
    destruct (decide (id = i)) as [<-|].
    + rewrite Hid. simpl. by rewrite decide_True.
    + destruct (t !! i); simpl; [|done]. by rewrite decide_False.
Qed.

Lemma t_move_reach j : is_Some (t !! j) -> exists k, reach (t_move t id s d x y (nDir n)) k j.
Proof using All.
  assert (Hfar : forall i, is_Some (t !! i) -> ~ above t id i -> exists k, reach (t_move t id s d x y (nDir n)) k i).
  { intros i Hi Hna. destruct (tr_reach t Ht i Hi) as [k Hk]. exists k.
    apply (reach_along t _ (fun i => ~ above t id i)); [|done|done].
    intros c m Hc Hc1 Hn. split; [intros Ha; apply Hn; by econstructor|].
    exists (moved c m). rewrite t_move_lookup, Hc. split; [done|]. simpl.
    rewrite decide_False; [done|]. intros ->. apply Hn. constructor. }
  assert (Hnew : exists k, reach (t_move t id s d x y (nDir n)) k id).
  { destruct (Hfar d) as [k Hk]; [eauto|done|]. exists (S k). econstructor.
    - rewrite t_move_lookup, Hid. reflexivity.
    - by destruct move_parent.
    - simpl. by rewrite decide_True. }
  intros Hj. destruct (tr_reach t Ht j Hj) as [k Hk].
  induction Hk as [|k i m Hi Hi1 Hr IH]; [exists O; constructor|].
  destruct (decide (i = id)) as [->|Hne]; [done|].
  destruct (tr_named t Ht i m Hi Hi1) as (pn&z&Hpn&_).
  destruct IH as [k' Hk']; [eauto|]. exists (S k'). econstructor.
  - rewrite t_move_lookup, Hi. reflexivity.
  - done.
  - simpl. by rewrite decide_False.
Qed.

Lemma tree_move : tree (t_move t id s d x y (nDir n)).
Proof using All.
  destruct move_parent as [Hp Hid1].
  assert (Hget : forall j m', t_move t id s d x y (nDir n) !! j = Some m' <-> exists m, t !! j = Some m /\ m' = moved j m).
  { intros j m'. rewrite t_move_lookup. destruct (t !! j); simpl; naive_solver. }
  split.
  - destruct (tr_root t Ht) as (r&Hr&Hrd&Hrp). exists (moved 1 r). split; [apply Hget; eauto|]. simpl.
    by rewrite decide_False.
  - intros j m' (m&Hm&->)%Hget. exact (tr_id t Ht j m Hm).
  - intros j m' z i (m&Hm&->)%Hget. simpl. intros [(->&->&->)|[Hi Hz]]%movedEntries_spec; [| |done].
    + split; [congruence|]. split; [done|]. exists (moved id n). split; [apply Hget; eauto|]. simpl. by rewrite decide_True.
    + destruct (tr_entry t Ht _ _ _ _ Hm Hz) as (?&?&c&Hc&Hcp). split; [done|]. split; [done|].
      exists (moved i c). split; [apply Hget; eauto|]. simpl. by rewrite decide_False.
  - intros j m' (m&Hm&->)%Hget Hj1. simpl. destruct (decide (j = id)) as [->|Hj].
    + exists (moved d dn), y. split; [apply Hget; eauto|]. apply movedEntries_spec; auto.
    + destruct (tr_named t Ht _ _ Hm Hj1) as (pn&z&Hpn&Hz).
      exists (moved (nParent m) pn), z. split; [apply Hget; eauto|]. apply movedEntries_spec; auto.
  - intros j m' z1 z2 i (m&Hm&->)%Hget. simpl. intros H1%movedEntries_spec H2%movedEntries_spec; [|done..].
    destruct H1 as [(_&?&?)|[? H1]], H2 as [(_&?&?)|[? H2]]; [congruence..|].
    by apply (tr_once t Ht j m z1 z2 i).
  - intros j [m' (m&Hm&_)%Hget]. apply t_move_reach. eauto.
  - intros j m' (m&Hm&->)%Hget. unfold linksOf. rewrite t_move_subdirs. simpl. unfold movedLink.
    assert (nDir sn = true) as Hsd by (by destruct (tr_entry t Ht _ _ _ _ Hs Hx)).
    rewrite (tr_links t Ht _ _ Hm). unfold linksOf.
    assert (Hm' : nDir m = false -> j ≠ s /\ j ≠ d) by (intros ?; split; intros ->; congruence).
    destruct (nDir m); [|destruct Hm' as [? ?]; [done|]; rewrite !(decide_False (P := j = _)) by done; by destruct (_ && _)].
    destruct (nDir n), (Z.eqb_spec s d); simpl; repeat case_decide; subst;
      rewrite ?u32_succ, ?u32_pred; try (f_equal; lia);
      repeat match goal with H : _ /\ _ |- _ => destruct H | H : ~ (_ /\ _) |- _ => exfalso; apply H; done end; done.
Qed.

Lemma move_id_ne : id ≠ d.
Proof using Hloop. intros E. apply Hloop. rewrite E. constructor. Qed.

End Move.

(** The entry the move overwrites does not matter. *)
Lemma t_move_forget t id s d x y b :
  t_move (alter (fun n => with_entries (delete y (nEntries n)) n) d t) id s d x y b = t_move t id s d x y b.
Proof.
  apply map_eq. intros j. change b with (nDir (mkNode 0 b 0 ∅ 0)). rewrite !t_move_lookup, lookup_alter.
  destruct (decide (d = j)) as [<-|]; [|done]. destruct (t !! d) as [m|]; [|done]. simpl. f_equal.
  unfold moved, movedEntries, movedLink. simpl. rewrite !(decide_True (P := d = d)) by done.
  f_equal. case_decide; [rewrite delete_delete|]; by rewrite insert_delete_eq.
Qed.

(** ** The names of the filesystem *)

(** The inode the name [z] of the directory [j] stands for. *)
Definition entry t (j : Z) (z : string) : option Z := t !! j ≫= fun n => nEntries n !! z.

Lemma entry_add t d dn x id dir j z :
  t !! d = Some dn -> t !! id = None ->
  entry (t_add t d x id dir) j z = if decide (j = d /\ z = x) then Some id else entry t j z.
Proof.
  intros Hd Hid. unfold entry, t_add. rewrite lookup_alter, !lookup_insert.
  assert (d ≠ id) by congruence.
  destruct (decide (d = j)) as [<-|Hj].
  - rewrite decide_False by done. rewrite Hd. simpl. rewrite lookup_insert. repeat case_decide; naive_solver.
  - rewrite (decide_False (P := j = d /\ z = x)) by naive_solver.
    case_decide; [subst|done]. rewrite Hid. simpl. by rewrite lookup_empty.
Qed.

Lemma entry_remove t d dn x id n j z :
  t !! d = Some dn -> t !! id = Some n -> nEntries n = ∅ -> d ≠ id ->
  entry (t_remove t d x id (nDir n)) j z = if decide (j = d /\ z = x) then None else entry t j z.
Proof.
  intros Hd Hid He Hne. unfold entry, t_remove. rewrite lookup_delete, lookup_alter.
  destruct (decide (id = j)) as [<-|Hj].
  - rewrite decide_False by naive_solver. rewrite Hid. simpl. by rewrite He, lookup_empty.
  - destruct (decide (d = j)) as [<-|Hj2].
    + rewrite Hd. simpl. rewrite lookup_delete. repeat case_decide; naive_solver.
    + by rewrite decide_False by naive_solver.
Qed.

Lemma entry_move t s d dn x y id b j z :
  t !! d = Some dn -> 
  entry (t_move t id s d x y b) j z =
    if decide (j = d /\ z = y) then Some id else if decide (j = s /\ z = x) then None else entry t j z.
Proof.
  intros Hd. unfold entry. change b with (nDir (mkNode 0 b 0 ∅ 0)). rewrite !t_move_lookup.
  destruct (t !! j) as [m|] eqn:E; simpl.
  - unfold movedEntries. repeat case_decide; subst; rewrite ?lookup_insert, ?lookup_delete;
      repeat case_decide; naive_solver.
  - repeat case_decide; naive_solver.
Qed.

(** ** The walk that looks for a cycle *)

(** What [isAncestorLoop] decides, on the abstract table. *)
Fixpoint climb (fuel : nat) t (a id : Z) : bool :=
  match fuel with
  | O => false
  | S fuel =>
      if id =? 0 then false
      else if id =? a then true
      else match t !! id with
           | None => false
           | Some n => if id =? 1 then false else climb fuel t a (nParent n)
           end
  end.

Lemma climb_above fuel t a id : climb fuel t a id = true -> above t a id.
Proof.
  revert id. induction fuel as [|fuel IH]; intros id; simpl; [done|].
  destruct (Z.eqb_spec id 0); [done|]. destruct (Z.eqb_spec id a) as [->|]; [constructor|].
  destruct (t !! id) as [m|] eqn:E; [|done]. destruct (Z.eqb_spec id 1); [done|].
  intros H%IH. by econstructor.
Qed.

(** A walk of one round more than the path's length misses nothing. *)
Lemma above_climb fuel t a id k :
  tree t -> above t a id -> reach t k id -> (k < fuel)%nat -> climb fuel t a id = true.
Proof.
  intros Ht Ha. revert k fuel. induction Ha as [|id n Hn Hne Ha IH]; intros k fuel Hr Hk.
  - destruct fuel; [lia|]. simpl. destruct (reach_in t k a Ht Hr) as [m Hm].
    destruct (tr_id t Ht _ _ Hm) as [_ H0].
    destruct (Z.eqb_spec a 0); [done|]. by rewrite Z.eqb_refl.
  - inversion Hr as [|k' ? n' Hn' _ Hr']; subst; [done|].
    assert (n' = n) as -> by congruence. destruct fuel; [lia|]. simpl.
    destruct (tr_id t Ht _ _ Hn) as [_ H0].
    destruct (Z.eqb_spec id 0); [done|]. destruct (Z.eqb_spec id a); [done|].
    rewrite Hn. destruct (Z.eqb_spec id 1); [done|]. apply (IH k'); [done|lia].
Qed.

Lemma climb_spec t a id :
  tree t -> is_Some (t !! id) -> climb (size t + 2) t a id = true <-> above t a id.
Proof.
  intros Ht Hid. split; [apply climb_above|]. intros Ha.
  destruct (tr_reach t Ht id Hid) as [k Hk]. eapply above_climb; [done|done|done|].
  pose proof (reach_bound t k id Ht Hk). lia.
Qed.

(** ** When a move is allowed *)

Definition movable t (id s d : Z) (x : string) (n : node) : Prop :=
  exists sn dn, t !! s = Some sn /\ t !! d = Some dn /\ nDir dn = true /\
    nEntries sn !! x = Some id /\ t !! id = Some n /\ ~ above t id d.

Lemma movable_tree t id s d x y n :
  tree t -> movable t id s d x n -> entry t d y = None -> tree (t_move t id s d x y (nDir n)).
Proof.
  intros Ht (sn&dn&Hs&Hd&Hdir&Hx&Hid&Hl) Hy. unfold entry in Hy. rewrite Hd in Hy. by eapply tree_move.
Qed.

Lemma above_remove t d dn x v n a id :
  tree t -> t !! d = Some dn -> nEntries dn !! x = Some v -> t !! v = Some n -> nEntries n = ∅ ->
  above (t_remove t d x v (nDir n)) a id -> above t a id.
Proof.
  intros Ht Hd Hx Hv He H. induction H as [|id m Hm Hne _ IH]; [constructor|].
  rewrite (t_remove_lookup t d dn x v n) in Hm by done. repeat case_decide; subst; [done| |].
  - injection Hm as <-. exact (above_step t a d dn Hd Hne IH).
  - by econstructor.
Qed.

(** Removing the target of a move first leaves the move allowed. *)
Lemma movable_remove t id s d x y n v vn :
  tree t -> movable t id s d x n -> entry t d y = Some v -> t !! v = Some vn -> nEntries vn = ∅ -> v ≠ id ->
  movable (t_remove t d y v (nDir vn)) id s d x n.
Proof.
  intros Ht (sn&dn&Hs&Hd&Hdir&Hx&Hid&Hl) Hy Hv He Hne. unfold entry in Hy. rewrite Hd in Hy. simpl in Hy.
  pose proof (t_remove_lookup t d dn y v vn Ht Hd Hy Hv He) as Hlook.
  pose proof (remove_ne t d dn y v vn Ht Hd Hy Hv He) as Hdv.
  assert (Hsv : s ≠ v). { intros ->. assert (sn = vn) as -> by congruence. by rewrite He, lookup_empty in Hx. }
  assert (Hdi : id ≠ d) by (intros ->; apply Hl; constructor).
  exists (if decide (s = d) then shrunk dn y vn else sn), (shrunk dn y vn).
  rewrite !Hlook, (decide_False (P := s = v)), (decide_False (P := d = v)), (decide_False (P := id = v)),
    (decide_False (P := id = d)), (decide_True (P := d = d)) by done.
  split; [by case_decide|]. split; [done|]. split; [done|]. split; [|split; [done|]].
  - case_decide; [subst|done]. simpl. assert (sn = dn) as -> by congruence.
    rewrite lookup_delete_ne by congruence. done.
  - intros Ha. apply Hl. exact (above_remove t d dn y v vn id d Ht Hd Hy Hv He Ha).
Qed.
