(* ===== verification/Namespace.v ===== *)
(** * The namespace operations (internal/blobfs/fs.go)

    GETATTR, ACCESS, LOOKUP, READLINK, FSSTAT, CREATE, MKDIR, SYMLINK, REMOVE,
    RMDIR, RENAME and READDIR, and SETATTR without a size. Each is one hold of
    FS.mu, so each is one function of the mount's state: the reply and the
    state after it. A [time.Now()] is an argument. *)

From Stdlib Require Import Ascii.
From stdpp Require Import sorting.
From S2P Require Import Prelude Vfs Modes Policy Inode ChunkCache Budget FsState.

Section Namespace.
Context {P : Policy}.

(** ** Checks *)

Definition checkPerm (op : Op) (c : Caller) (n : inode) : option error :=
  Check (mkRequest op c (objectOf n) noObject 0 0).

(** One request of [setAttrRequests], made only when the attribute is set. *)
Definition askIf {A} (o : option A) (r : A -> Request) : option error :=
  match o with None => None | Some v => Check (r v) end.

Definition orElse (a b : option error) : option error := match a with Some e => Some e | None => b end.

Definition setAttrRequests (c : Caller) (n : inode) (sa : SetAttr) : option error :=
  let o := objectOf n in
  orElse (askIf (saSize sa) (fun _ => mkRequest OpTruncate c o noObject 0 0))
  (orElse (askIf (saMode sa) (fun _ => mkRequest OpChmod c o noObject 0 0))
  (orElse (askIf (saUID sa) (fun uid => mkRequest OpChown c o noObject uid 0))
  (orElse (askIf (saGID sa) (fun gid => mkRequest OpChgrp c o noObject 0 gid))
  (orElse (askIf (saATime sa) (fun _ => mkRequest OpSetTimes c o noObject 0 0))
          (askIf (saMTime sa) (fun _ => mkRequest OpSetTimes c o noObject 0 0)))))).

Definition applyIf {A} (o : option A) (g : A -> inode -> inode) (nb : inode * bool) : inode * bool :=
  match o with None => nb | Some v => (g v nb.1, true) end.

Definition applySetAttr (n : inode) (sa : SetAttr) (now : Z) : inode * bool :=
  applyIf (saMTime sa) (fun t n => touchC now (set_iMTimeNS t n))
  (applyIf (saATime sa) (fun t n => touchC now (set_iATimeNS t n))
  (applyIf (saGID sa) (fun g n => touchC now (set_iGID g n))
  (applyIf (saUID sa) (fun u n => touchC now (set_iUID u n))
  (applyIf (saMode sa) (fun m n => touchC now (set_iMode (Z.land m mode7777) n)) (n, false))))).

Definition maxNameLen : Z := 255.

(** [strings.ContainsAny(name, "/\x00")]. *)
Fixpoint containsSlashNul (s : string) : bool :=
  match s with
  | EmptyString => false
  | String a s => Ascii.eqb a "/"%char || Ascii.eqb a "000"%char || containsSlashNul s
  end.

Definition validName (name : string) : option error :=
  if String.eqb name "" || String.eqb name "." || String.eqb name ".." then Some (EStatus ErrInval)
  else if maxNameLen <? Z.of_nat (String.length name) then Some (EStatus ErrNameTooLong)
  else if containsSlashNul name then Some (EStatus ErrInval)
  else None.

(** ** Attributes *)

Definition GetAttr (f : FS) (h : Handle) : result Attr :=
  let? (_, n) := resolve f h in Ok (attr (fsid f) n).

(** The hold of SetAttr for a call that sets no size. *)
Definition setAttrNoSize (f : FS) (c : Caller) (h : Handle) (sa : SetAttr) (now : Z) : result Attr * FS :=
  match resolve f h with
  | Err e => (Err e, f)
  | Ok (id, n) =>
      match setAttrRequests c n sa with
      | Some e => (Err e, f)
      | None =>
          let (n', applied) := applySetAttr n sa now in
          let f := upd id (fun _ => n') f in
          (Ok (attr (fsid f) n'), if applied then markDirty f else f)
      end
  end.

Definition Access (f : FS) (c : Caller) (h : Handle) (want : Z) : result Z :=
  let? (_, n) := resolve f h in
  let granted := AccessBits c (objectOf n) in
  let granted :=
    if bool_decide (mode f = mountReadOnly)
    then Z.ldiff granted (Z.lor AccessModify (Z.lor AccessExtend AccessDelete)) else granted in
  Ok (Z.land granted want).

Definition Lookup (f : FS) (c : Caller) (dir : Handle) (name : string) : result (Handle * Attr) :=
  let? (did, d) := resolve f dir in
  match checkPerm OpLookup c d with
  | Some e => Err e
  | None =>
      let target : option inode :=
        if String.eqb name "." then Some d
        else if String.eqb name ".." then
          let p := if iParent d =? 0 then rootInodeID else iParent d in inodes f !! p
        else match iEntries d !! name with
             | None => None
             | Some id => inodes f !! id
             end in
      match target with
      | None => Err (EStatus ErrNoEnt)
      | Some t => Ok (encodeHandle (iID t) (iGen t), attr (fsid f) t)
      end
  end.

Definition ReadLink (f : FS) (h : Handle) : result string :=
  let? (_, n) := resolve f h in
  if negb (isLink n) then Err (EStatus ErrInval) else Ok (iTarget n).

Definition headroom : Z := Z.shiftl 1 50.

Definition FSStat (f : FS) (h : Handle) : result Stat :=
  let? (_, _) := resolve f h in
  let usedAll := map_fold (fun _ n s => u64 (s + used n)) 0 (inodes f) in
  Ok (mkStat (u64 (usedAll + headroom)) headroom headroom
        (u64 (Z.of_nat (size (inodes f)) + Z.shiftl 1 30)) (Z.shiftl 1 30)).

(** ** Creation *)

Definition allocInode (t : FileType) (m : Z) (c : Caller) (parent now : Z) (f : FS) : inode * FS :=
  let n := mkInode (nextIno f) (u64 now) t (Z.land m mode7777) (cUID c) (cGID c)
             (if bool_decide (t = TypeDir) then 2 else 1) 0 now now now ∅ parent [] "" in
  (n, markDirty (set_inodes (<[nextIno f := n]> (inodes f)) (set_nextIno (u64 (nextIno f + 1)) f))).

Definition defaultMode (t : FileType) : Z :=
  match t with TypeDir => 0x1ed | TypeLnk => 0x1ff | _ => 0x1a4 end.

(** The new inode with the owner, group and target [createEntry] gives it. *)
Definition dressInode (c : Caller) (t : FileType) (sa : SetAttr) (target : string) (n : inode) : inode :=
  let n :=
    match saUID sa with
    | Some uid =>
        match Check (mkRequest OpChown c (objectOf n) noObject uid 0) with
        | None => set_iUID uid n
        | Some _ => n
        end
    | None => n
    end in
  let n := match saGID sa with Some g => set_iGID g n | None => n end in
  match t with
  | TypeLnk => set_iSize (u64 (Z.of_nat (String.length target))) (set_iTarget target n)
  | _ => n
  end.

(** What [createEntry] does to the directory [d]. *)
Definition linkChild (name : string) (id : Z) (t : FileType) (now : Z) (d : inode) : inode :=
  let d := set_iEntries (<[name := id]> (iEntries d)) d in
  let d := if bool_decide (t = TypeDir) then set_iNLink (u32 (iNLink d + 1)) d else d in
  touchM now d.

Definition tooBig (f : FS) (t : FileType) (sa : SetAttr) : bool :=
  bool_decide (t = TypeReg) && match saSize sa with Some s => maxFileSize (cf f) <? s | None => false end.

(** [now1] is read by allocInode, [now2] for the directory. *)
Definition createEntry (f : FS) (c : Caller) (dir : Handle) (name : string) (t : FileType) (sa : SetAttr)
    (target : string) (excl : bool) (now1 now2 : Z) : result (Handle * Attr) * FS :=
  match mutable f with Some e => (Err e, f) | None =>
  match validName name with Some e => (Err e, f) | None =>
  if tooBig f t sa then (Err (EStatus ErrFBig), f) else
  match resolve f dir with Err e => (Err e, f) | Ok (did, d) =>
  match checkPerm OpAddEntry c d with Some e => (Err e, f) | None =>
  match iEntries d !! name with
  | Some existing =>
      if bool_decide (t = TypeReg) && negb excl then
        match inodes f !! existing with
        | None => (Err (EStatus ErrNoEnt), f)
        | Some n =>
            if isDir n then (Err (EStatus ErrExist), f)
            else (Ok (encodeHandle (iID n) (iGen n), attr (fsid f) n), f)
        end
      else (Err (EStatus ErrExist), f)
  | None =>
      let m := match saMode sa with Some m => m | None => defaultMode t end in
      let (n, f) := allocInode t m c (iID d) now1 f in
      let n := dressInode c t sa target n in
      let f := upd (iID n) (fun _ => n) f in
      let f := markDirty (upd did (linkChild name (iID n) t now2) f) in
      (Ok (encodeHandle (iID n) (iGen n), attr (fsid f) n), f)
  end end end end end.

Definition Create f c dir name sa excl now1 now2 := createEntry f c dir name TypeReg sa "" excl now1 now2.
Definition Mkdir f c dir name sa now1 now2 := createEntry f c dir name TypeDir sa "" true now1 now2.
Definition Symlink f c dir name target sa now1 now2 : result (Handle * Attr) * FS :=
  if String.eqb target "" then (Err (EStatus ErrInval), f)
  else createEntry f c dir name TypeLnk sa target true now1 now2.

(** ** Removal *)

Definition decLink (d : inode) : inode := set_iNLink (u32 (iNLink d - 1)) d.
Definition incLink (d : inode) : inode := set_iNLink (u32 (iNLink d + 1)) d.

(** [relink], on the pointers [nid], [from] and [to]: the table after it and
    whether the inode has left the namespace. *)
Definition relink (nid from : Z) (to : option Z) (m : gmap Z inode) : gmap Z inode * bool :=
  match m !! nid with
  | None => (m, false)
  | Some n =>
      match to with
      | None =>
          if isDir n then (alter (set_iNLink 0) nid (alter decLink from m), true)
          else if 0 <? iNLink n then (alter decLink nid m, iNLink n =? 1)
          else (m, true)
      | Some to =>
          if isDir n && negb (bool_decide ((iID <$> m !! from) = (iID <$> m !! to)))
          then (alter incLink to (alter decLink from m), false)
          else (m, false)
      end
  end.

(** The removal shared by [unlink] and a replaced target of [Rename]. *)
Definition relinkOut (nid from : Z) (f : FS) : FS :=
  let (m, gone) := relink nid from None (inodes f) in
  let f := set_inodes m f in
  if gone then dropOpen nid (set_inodes (delete nid (inodes f)) f) else f.

Definition unlink (f : FS) (c : Caller) (dir : Handle) (name : string) (wantDir : bool) (now : Z)
  : result unit * FS :=
  match mutable f with Some e => (Err e, f) | None =>
  match validName name with Some e => (Err e, f) | None =>
  match resolve f dir with Err e => (Err e, f) | Ok (did, d) =>
  match checkPerm OpRemoveEntry c d with Some e => (Err e, f) | None =>
  match iEntries d !! name with None => (Err (EStatus ErrNoEnt), f) | Some id =>
  match inodes f !! id with None => (Err (EStatus ErrNoEnt), f) | Some n =>
  if wantDir && negb (isDir n) then (Err (EStatus ErrNotDir), f)
  else if negb wantDir && isDir n then (Err (EStatus ErrIsDir), f)
  else if wantDir && negb (bool_decide (iEntries n = ∅)) then (Err (EStatus ErrNotEmpty), f)
  else
    let f := upd did (fun d => touchM now (set_iEntries (delete name (iEntries d)) d)) f in
    (Ok tt, markDirty (relinkOut id did f))
  end end end end end end.

Definition Remove f c dir name now := unlink f c dir name false now.
Definition Rmdir f c dir name now := unlink f c dir name true now.

(** ** Rename *)

Fixpoint isAncestorLoop (fuel : nat) (m : gmap Z inode) (ancestor id : Z) : bool :=
  match fuel with
  | O => false
  | S fuel =>
      if id =? 0 then false
      else if id =? ancestor then true
      else match m !! id with
           | None => false
           | Some n => if id =? rootInodeID then false else isAncestorLoop fuel m ancestor (iParent n)
           end
  end.

(** The code's own bound: [seen] exceeds [len(f.inodes)+1] after that many
    rounds plus one. *)
Definition isAncestor (f : FS) (ancestor node : Z) : bool :=
  isAncestorLoop (size (inodes f) + 2) (inodes f) ancestor node.

(** Why a target that exists refuses the rename. *)
Definition victimRefusal (victim moving : inode) : option error :=
  if isDir victim && negb (isDir moving) then Some (EStatus ErrIsDir)
  else if negb (isDir victim) && isDir moving then Some (EStatus ErrNotDir)
  else if isDir victim && negb (bool_decide (iEntries victim = ∅)) then Some (EStatus ErrNotEmpty)
  else None.

(** The move itself, past every check. *)
Definition moveEntry (id sid did : Z) (fromName toName : string) (dstID now1 now2 now3 : Z) (f : FS) : FS :=
  let f := upd sid (fun s => set_iEntries (delete fromName (iEntries s)) s) f in
  let f := upd did (fun d => set_iEntries (<[toName := id]> (iEntries d)) d) f in
  let f := set_inodes (relink id sid (Some did) (inodes f)).1 f in
  let f := upd id (fun n => touchC now1 (set_iParent dstID n)) f in
  let f := upd sid (touchM now2) f in
  let f := upd did (touchM now3) f in
  markDirty f.

Definition Rename (f : FS) (c : Caller) (fromDir : Handle) (fromName : string) (toDir : Handle) (toName : string)
    (now1 now2 now3 : Z) : result unit * FS :=
  match mutable f with Some e => (Err e, f) | None =>
  match validName fromName with Some e => (Err e, f) | None =>
  match validName toName with Some e => (Err e, f) | None =>
  match resolve f fromDir with Err e => (Err e, f) | Ok (sid, src) =>
  match resolve f toDir with Err e => (Err e, f) | Ok (did, dst) =>
  match Check (mkRequest OpRename c (objectOf src) (objectOf dst) 0 0) with Some e => (Err e, f) | None =>
  match iEntries src !! fromName with None => (Err (EStatus ErrNoEnt), f) | Some id =>
  match inodes f !! id with None => (Err (EStatus ErrNoEnt), f) | Some moving =>
  if isDir moving && isAncestor f id (iID dst) then (Err (EStatus ErrInval), f)
  else
    let move := moveEntry id sid did fromName toName (iID dst) now1 now2 now3 in
    match iEntries dst !! toName with
    | None => (Ok tt, move f)
    | Some victimID =>
        if victimID =? id then (Ok tt, f)
        else
          match inodes f !! victimID with
          | None => (Ok tt, move f)
          | Some victim =>
              match victimRefusal victim moving with
              | Some e => (Err e, f)
              | None => (Ok tt, move (relinkOut victimID did f))
              end
          end
    end
  end end end end end end end end.

End Namespace.
