(* ===== verification/NamespaceInv.v ===== *)
(** * The namespace operations keep the tree

    [skel] forgets of an inode what the shape of the filesystem does not depend
    on. Each operation of [Namespace] is, on the skeleton of the inode table,
    one of the abstract operations of [Tree] ([createEntry] is [t_add],
    [unlink] is [t_remove], [Rename] is [t_move] after the [t_remove] of a
    replaced target), so the operations keep the invariant [wf], and the walk
    that [Rename] makes before it moves a directory answers exactly whether the
    move would close a cycle. *)

From S2P Require Import Prelude Vfs Modes Policy Inode ChunkCache Budget FsState Tree Namespace.

Definition skel (n : inode) : node := mkNode (iID n) (isDir n) (iParent n) (iEntries n) (iNLink n).

Definition shape (f : FS) : table := skel <$> inodes f.

(** ** Skeletons *)

Lemma shape_lookup f id : shape f !! id = skel <$> inodes f !! id.
Proof. apply lookup_fmap. Qed.

Lemma shape_some f id n : inodes f !! id = Some n -> shape f !! id = Some (skel n).
Proof. intros H. by rewrite shape_lookup, H. Qed.

Lemma skel_alter (g : inode -> inode) (g' : node -> node) id (m : gmap Z inode) :
  (forall n, skel (g n) = g' (skel n)) -> skel <$> alter g id m = alter g' id (skel <$> m).
Proof.
  intros Hg. apply map_eq. intros j. rewrite !lookup_fmap, !lookup_alter, !lookup_fmap.
  case_decide; [|done]. destruct (m !! id) as [n|]; [|done]. exact (f_equal Some (Hg n)).
Qed.

(** An update the skeleton does not see. *)
Lemma skel_alter_same (g : inode -> inode) id (m : gmap Z inode) :
  (forall n, m !! id = Some n -> skel (g n) = skel n) -> skel <$> alter g id m = skel <$> m.
Proof.
  intros Hg. apply map_eq. intros j. rewrite !lookup_fmap, !lookup_alter.
  case_decide; subst; [|done]. destruct (m !! j) as [n|] eqn:E; [|done]. exact (f_equal Some (Hg n eq_refl)).
Qed.

(** ** The invariant *)

Record wf (f : FS) : Prop := {
  wf_tree : tree (shape f);
  wf_next : is_u64 (nextIno f);
  wf_ids : forall id n, inodes f !! id = Some n -> 0 < id < nextIno f;
  wf_gens : forall id n, inodes f !! id = Some n -> is_u64 (iGen n);
  wf_names : forall id n x c, inodes f !! id = Some n -> iEntries n !! x = Some c -> validName x = None;
  wf_open : forall id, is_Some (open f !! id) -> is_Some (inodes f !! id)
}.

Lemma wf_id f id n : wf f -> inodes f !! id = Some n -> iID n = id.
Proof. intros Hw Hn. apply shape_some in Hn. by destruct (tr_id _ (wf_tree f Hw) _ _ Hn). Qed.

Lemma wf_u64 f id n : wf f -> inodes f !! id = Some n -> is_u64 id.
Proof. intros Hw Hn. pose proof (wf_ids f Hw id n Hn). pose proof (wf_next f Hw). unfold is_u64 in *. lia. Qed.

(** A handle made from an inode of the table resolves to it. *)
Lemma wf_resolve f id n :
  wf f -> inodes f !! id = Some n -> resolve f (encodeHandle (iID n) (iGen n)) = Ok (id, n).
Proof.
  intros Hw Hn. rewrite (wf_id f id n Hw Hn). apply resolve_encode; [done| |].
  - by eapply wf_u64.
  - by eapply wf_gens.
Qed.

(** An entry of the table names an inode of the table. *)
Lemma wf_entry f d dn x id :
  wf f -> inodes f !! d = Some dn -> iEntries dn !! x = Some id ->
  isDir dn = true /\ id ≠ 1 /\ exists n, inodes f !! id = Some n /\ iParent n = d.
Proof.
  intros Hw Hd Hx. destruct (tr_entry _ (wf_tree f Hw) d (skel dn) x id) as (?&?&n&Hn&Hp); [by apply shape_some|done|].
  rewrite shape_lookup in Hn. destruct (inodes f !! id) as [n'|] eqn:E; [|done]. injection Hn as <-. eauto.
Qed.

(** Only a directory has entries. *)
Lemma wf_no_entries f id n : wf f -> inodes f !! id = Some n -> isDir n = false -> iEntries n = ∅.
Proof.
  intros Hw Hn Hd. apply map_empty. intros x. destruct (iEntries n !! x) eqn:E; [|done].
  destruct (wf_entry f id n x z Hw Hn E) as (?&_). congruence.
Qed.

(** A file is linked exactly once. *)
Lemma wf_file_links f id n : wf f -> inodes f !! id = Some n -> isDir n = false -> iNLink n = 1.
Proof.
  intros Hw Hn Hd. pose proof (tr_links _ (wf_tree f Hw) _ _ (shape_some f id n Hn)) as H.
  unfold linksOf in H. simpl in H. by rewrite Hd in H.
Qed.

(** Two states that differ outside what [wf] reads. *)
Lemma wf_ext f g :
  wf f -> shape g = shape f -> nextIno g = nextIno f -> dom (open g) ⊆ dom (open f) ->
  (forall id n, inodes g !! id = Some n -> exists m, inodes f !! id = Some m /\ iGen n = iGen m /\ iEntries n = iEntries m) ->
  wf g.
Proof.
  intros Hw Hs Hn Ho He. split.
  - rewrite Hs. apply Hw.
  - rewrite Hn. apply Hw.
  - intros id n H. destruct (He id n H) as (m&Hm&_&_). rewrite Hn. by eapply wf_ids.
  - intros id n H. destruct (He id n H) as (m&Hm&->&_). by eapply wf_gens.
  - intros id n x c H Hx. destruct (He id n H) as (m&Hm&_&E). rewrite E in Hx. by eapply wf_names.
  - intros id Hid. apply elem_of_dom in Hid. apply Ho in Hid. apply elem_of_dom in Hid.
    apply (wf_open f Hw) in Hid. destruct Hid as [m Hm].
    assert (shape g !! id = shape f !! id) as E by by rewrite Hs. rewrite !shape_lookup, Hm in E.
    destruct (inodes g !! id); [eauto|done].
Qed.

(** ** The walk *)

Lemma isAncestorLoop_climb fuel m a id : isAncestorLoop fuel m a id = climb fuel (skel <$> m) a id.
Proof.
  revert id. induction fuel as [|fuel IH]; intros id; simpl; [done|].
  rewrite lookup_fmap. destruct (id =? 0), (id =? a); try done.
  destruct (m !! id) as [n|]; simpl; [|done]. by rewrite IH.
Qed.

Lemma isAncestor_above f a id :
  wf f -> is_Some (inodes f !! id) -> isAncestor f a id = true <-> above (shape f) a id.
Proof.
  intros Hw Hid. unfold isAncestor. rewrite isAncestorLoop_climb, <- (map_size_fmap skel (inodes f)).
  apply climb_spec; [apply Hw|]. destruct Hid as [n Hn]. exists (skel n). by apply shape_some.
Qed.

Section Operations.
Context {P : Policy} {TC : TypeChecked P}.

Lemma checkPerm_dir op c n :
  op = OpAddEntry \/ op = OpRemoveEntry \/ op = OpLookup \/ op = OpReadDir ->
  checkPerm op c n = None -> isDir n = true.
Proof using TC.
  intros Hop Hc. apply bool_decide_true. exact (tc_dir (mkRequest op c (objectOf n) noObject 0 0) Hop Hc).
Qed.

(** ** Creation *)

Lemma dressInode_same c t sa target n :
  skel (dressInode c t sa target n) = skel n /\ iGen (dressInode c t sa target n) = iGen n /\
  iEntries (dressInode c t sa target n) = iEntries n.
Proof using Type.
  unfold dressInode. destruct (saUID sa) as [u|], (saGID sa) as [g|], t; try destruct (Check _); done.
Qed.

(** The inode [createEntry] makes, and the state once it is linked. *)
Definition freshInode f c t sa target (d : inode) now1 : inode :=
  dressInode c t sa target
    (allocInode t (match saMode sa with Some m => m | None => defaultMode t end) c (iID d) now1 f).1.

Definition linkedFS f (did : Z) name t (n : inode) now2 : FS :=
  markDirty (upd did (linkChild name (iID n) t now2)
    (markDirty (set_inodes (<[nextIno f := n]> (inodes f)) (set_nextIno (u64 (nextIno f + 1)) f)))).

Lemma freshInode_skel f c t sa target d now1 :
  skel (freshInode f c t sa target d now1) =
    mkNode (nextIno f) (bool_decide (t = TypeDir)) (iID d) ∅ (if bool_decide (t = TypeDir) then 2 else 1).
Proof using Type.
  unfold freshInode. destruct (dressInode_same c t sa target
    (allocInode t (match saMode sa with Some m => m | None => defaultMode t end) c (iID d) now1 f).1) as (->&_&_). done.
Qed.

Lemma freshInode_id f c t sa target d now1 : iID (freshInode f c t sa target d now1) = nextIno f.
Proof using Type. apply (f_equal nId (freshInode_skel f c t sa target d now1)). Qed.

(** What a call of [createEntry] can do. *)
Lemma createEntry_cases f c dir name t sa target excl now1 now2 r f' :
  createEntry f c dir name t sa target excl now1 now2 = (r, f') ->
  f' = f \/
  exists did d, let n := freshInode f c t sa target d now1 in
    mutable f = None /\ validName name = None /\ tooBig f t sa = false /\
    resolve f dir = Ok (did, d) /\ checkPerm OpAddEntry c d = None /\ iEntries d !! name = None /\
    r = Ok (encodeHandle (iID n) (iGen n), attr (fsid f) n) /\ f' = linkedFS f did name t n now2.
Proof using Type.
  unfold createEntry. destruct (mutable f); [intros [= <- <-]; auto|].
  destruct (validName name) eqn:Ev; [intros [= <- <-]; auto|].
  destruct (tooBig f t sa) eqn:Et; [intros [= <- <-]; auto|].
  destruct (resolve f dir) as [[did d]|] eqn:Er; [|intros [= <- <-]; auto].
  destruct (checkPerm OpAddEntry c d) eqn:Ec; [intros [= <- <-]; auto|].
  destruct (iEntries d !! name) as [e|] eqn:Ee.
  { destruct (_ && _); [destruct (inodes f !! e) as [n|]; [destruct (isDir n)|]|]; intros [= <- <-]; auto. }
  simpl. intros [= <- <-]. right. exists did, d. repeat (split; [done|]).
  change (dressInode c t sa target _) with (freshInode f c t sa target d now1).
  unfold linkedFS, upd, markDirty, set_inodes. simpl.
  by rewrite freshInode_id, alter_insert_eq.
Qed.

Lemma linkedFS_shape f did name t c sa target d now1 now2 :
  wf f -> inodes f !! did = Some d ->
  shape (linkedFS f did name t (freshInode f c t sa target d now1) now2) =
    t_add (shape f) did name (nextIno f) (bool_decide (t = TypeDir)).
Proof using Type.
  intros Hw Hd. unfold shape, linkedFS, t_add. simpl.
  rewrite (skel_alter _ (fun dn => with_link (if bool_decide (t = TypeDir) then u32 (nLink dn + 1) else nLink dn)
                    (with_entries (<[name := nextIno f]> (nEntries dn)) dn))).
  - f_equal. rewrite fmap_insert, freshInode_skel, (wf_id f did d Hw Hd). done.
  - intros n. unfold linkChild. rewrite freshInode_id. by destruct (bool_decide (t = TypeDir)).
Qed.

Lemma wf_fresh f id : wf f -> nextIno f <= id -> inodes f !! id = None.
Proof using Type. intros Hw Hi. destruct (inodes f !! id) eqn:E; [|done]. apply wf_ids in E; [lia|done]. Qed.

Lemma wf_next_pos f : wf f -> 1 < nextIno f.
Proof using Type.
  intros Hw. destruct (tr_root _ (wf_tree f Hw)) as (r&Hr&_). rewrite shape_lookup in Hr.
  destruct (inodes f !! 1) eqn:E; [|done]. apply (wf_ids f Hw) in E; lia.
Qed.

Lemma createEntry_wf f c dir name t sa target excl now1 now2 :
  wf f -> nextIno f + 1 < 2 ^ 64 ->
  wf (createEntry f c dir name t sa target excl now1 now2).2.
Proof using TC.
  intros Hw Hn. destruct (createEntry f c dir name t sa target excl now1 now2) as [r f'] eqn:E.
  apply createEntry_cases in E as [->|(did&d&_&Hv&_&Hr&Hc&He&_&->)]; [done|]. simpl.
  apply resolve_ok in Hr as (Hd&_&_). pose proof (wf_next_pos f Hw).
  assert (Hlook : forall id n', inodes (linkedFS f did name t (freshInode f c t sa target d now1) now2) !! id = Some n' ->
     (id = did /\ n' = linkChild name (nextIno f) t now2 d) \/
     (id = nextIno f /\ n' = freshInode f c t sa target d now1) \/ (inodes f !! id = Some n')).
  { intros id n'. unfold linkedFS. simpl. rewrite freshInode_id, lookup_alter, !lookup_insert.
    assert (did ≠ nextIno f) by (intros ->; rewrite wf_fresh in Hd; [done|done|lia]).
    repeat case_decide; subst; try done; [rewrite Hd|..]; naive_solver. }
  split.
  - rewrite linkedFS_shape by done. apply (tree_add _ did (skel d)).
    + apply Hw.
    + by apply shape_some.
    + eapply checkPerm_dir; [|done]. auto.
    + done.
    + rewrite shape_lookup, wf_fresh; [done|done|lia].
    + lia.
  - simpl. apply u64_range.
  - intros id n' Hi. simpl. rewrite u64_id by (unfold is_u64; lia).
    destruct (Hlook id n' Hi) as [(->&_)|[(->&_)|H']]; [apply (wf_ids f Hw) in Hd; lia|lia|apply (wf_ids f Hw) in H'; lia].
  - intros id n' Hi. destruct (Hlook id n' Hi) as [(->&->)|[(->&->)|H']].
    + unfold linkChild. destruct (bool_decide _); exact (wf_gens f Hw did d Hd).
    + unfold freshInode. rewrite (proj1 (proj2 (dressInode_same _ _ _ _ _))). simpl. apply u64_range.
    + by eapply wf_gens.
  - intros id n' x z Hi Hx. destruct (Hlook id n' Hi) as [(->&->)|[(->&->)|H']].
    + assert (<[name := nextIno f]> (iEntries d) !! x = Some z) as Hx' by (unfold linkChild in Hx; by destruct (bool_decide _)).
      rewrite lookup_insert in Hx'. case_decide; [by subst|]. by eapply (wf_names f Hw).
    + unfold freshInode in Hx. rewrite (proj2 (proj2 (dressInode_same _ _ _ _ _))) in Hx. simpl in Hx; by rewrite lookup_empty in Hx.
    + by eapply (wf_names f Hw).
  - intros id Ho. simpl in Ho. apply (wf_open f Hw) in Ho as [m Hm]. unfold linkedFS. simpl.
    apply lookup_alter_is_Some, lookup_insert_is_Some'. eauto.
Qed.

(** ** Removal *)

(** No directory is its own child. *)
Lemma wf_entry_ne f d dn x id : wf f -> inodes f !! d = Some dn -> iEntries dn !! x = Some id -> id ≠ d.
Proof using Type.
  intros Hw Hd Hx ->. destruct (wf_entry f d dn x d Hw Hd Hx) as (_&H1&n&Hn&Hp).
  assert (n = dn) as -> by congruence.
  destruct (tr_reach _ (wf_tree f Hw) d) as [k Hk]; [rewrite shape_lookup, Hd; eauto|].
  assert (k = S k); [|lia]. eapply reach_det; [done|]. econstructor; [by apply shape_some|done|].
  simpl. by rewrite Hp.
Qed.

Lemma relinkOut_spec nid from n f :
  inodes f !! nid = Some n -> (isDir n = false -> iNLink n = 1) ->
  let f' := relinkOut nid from f in
  inodes f' = delete nid (if isDir n then alter decLink from (inodes f) else inodes f) /\
  open f' = delete nid (open f) /\ nextIno f' = nextIno f.
Proof using Type.
  intros Hn Hl. unfold relinkOut, relink. rewrite Hn. simpl.
  assert (Hdrop : forall g, inodes (dropOpen nid g) = inodes g /\ open (dropOpen nid g) = delete nid (open g) /\
            nextIno (dropOpen nid g) = nextIno g).
  { intros g. unfold dropOpen. by destruct (open g !! nid). }
  destruct (isDir n); [|rewrite Hl by done; change (0 <? 1) with true; change (1 =? 1) with true]; cbv iota beta;
    match goal with |- context [dropOpen nid ?g] => destruct (Hdrop g) as (->&->&->) end; simpl; (split; [|done]);
    apply map_eq; intros j; rewrite !lookup_delete; (case_decide; [done|]); by rewrite lookup_alter_ne.
Qed.

Definition unlinkedFS f (did : Z) name id now : FS :=
  markDirty (relinkOut id did (upd did (fun d => touchM now (set_iEntries (delete name (iEntries d)) d)) f)).

(** What a call of [unlink] can do. *)
Lemma unlink_cases f c dir name wantDir now r f' :
  unlink f c dir name wantDir now = (r, f') ->
  (is_ok r = false /\ f' = f) \/
  exists did d id n,
    mutable f = None /\ validName name = None /\ resolve f dir = Ok (did, d) /\
    checkPerm OpRemoveEntry c d = None /\ iEntries d !! name = Some id /\ inodes f !! id = Some n /\
    isDir n = wantDir /\ (wantDir = true -> iEntries n = ∅) /\
    r = Ok tt /\ f' = unlinkedFS f did name id now.
Proof using Type.
  unfold unlink. destruct (mutable f); [intros [= <- <-]; auto|].
  destruct (validName name) eqn:Ev; [intros [= <- <-]; auto|].
  destruct (resolve f dir) as [[did d]|] eqn:Er; [|intros [= <- <-]; auto].
  destruct (checkPerm OpRemoveEntry c d) eqn:Ec; [intros [= <- <-]; auto|].
  destruct (iEntries d !! name) as [id|] eqn:Ee; [|intros [= <- <-]; auto].
  destruct (inodes f !! id) as [n|] eqn:En; [|intros [= <- <-]; auto].
  destruct wantDir, (isDir n) eqn:Ed; simpl; try (intros [= <- <-]; by auto).
  - case_bool_decide; simpl; intros [= <- <-]; [|by auto]. right. exists did, d, id, n. eauto 12.
  - intros [= <- <-]. right. exists did, d, id, n. repeat (split; [done|]). done.
Qed.

Section Unlinked.
Context (f : FS) (did : Z) (d : inode) (name : string) (id : Z) (n : inode) (now : Z).
Hypotheses (Hw : wf f) (Hd : inodes f !! did = Some d) (Hx : iEntries d !! name = Some id)
  (Hn : inodes f !! id = Some n) (He : isDir n = true -> iEntries n = ∅).

Lemma unlinked_inodes j :
  inodes (unlinkedFS f did name id now) !! j =
    if decide (j = id) then None
    else if decide (j = did)
         then Some ((if isDir n then decLink else (fun d => d)) (touchM now (set_iEntries (delete name (iEntries d)) d)))
         else inodes f !! j.
Proof using Hw Hd Hx Hn He.
  pose proof (wf_entry_ne f did d name id Hw Hd Hx) as Hne.
  destruct (relinkOut_spec id did n (upd did (fun d => touchM now (set_iEntries (delete name (iEntries d)) d)) f)) as (H1&_&_).
  { simpl. by rewrite lookup_alter_ne. }
  { by eapply wf_file_links. }
  unfold unlinkedFS. simpl. rewrite H1. simpl. rewrite lookup_delete.
  destruct (isDir n); rewrite !lookup_alter; repeat case_decide; subst; try done; by rewrite Hd.
Qed.

Lemma unlinked_rest :
  open (unlinkedFS f did name id now) = delete id (open f) /\ nextIno (unlinkedFS f did name id now) = nextIno f.
Proof using Hw Hd Hx Hn He.
  destruct (relinkOut_spec id did n (upd did (fun d => touchM now (set_iEntries (delete name (iEntries d)) d)) f)) as (_&H2&H3).
  { simpl. pose proof (wf_entry_ne f did d name id Hw Hd Hx). by rewrite lookup_alter_ne. }
  { by eapply wf_file_links. }
  done.
Qed.

Lemma unlinked_shape : shape (unlinkedFS f did name id now) = t_remove (shape f) did name id (isDir n).
Proof using Hw Hd Hx Hn He.
  apply map_eq. intros j. rewrite shape_lookup, unlinked_inodes.
  unfold t_remove. rewrite lookup_delete, lookup_alter, !shape_lookup.
  repeat case_decide; subst; try done; rewrite ?shape_lookup, ?Hd; by destruct (isDir n).
Qed.

Lemma unlinked_wf : wf (unlinkedFS f did name id now).
Proof using Hw Hd Hx Hn He.
  destruct unlinked_rest as [Ho Hi]. split.
  - rewrite unlinked_shape. change (isDir n) with (nDir (skel n)). apply (tree_remove _ _ (skel d)).
    + apply Hw.
    + by apply shape_some.
    + done.
    + by apply shape_some.
    + simpl. destruct (isDir n) eqn:E; [auto|by eapply wf_no_entries].
  - rewrite Hi. apply Hw.
  - intros j m. rewrite unlinked_inodes, Hi. repeat case_decide; subst; intros Hj; try done; by eapply wf_ids.
  - intros j m. rewrite unlinked_inodes. repeat case_decide; subst; intros Hj; try done; [|by eapply wf_gens].
    injection Hj as <-. destruct (isDir n); exact (wf_gens f Hw did d Hd).
  - intros j m z i. rewrite unlinked_inodes. repeat case_decide; subst; intros Hj Hz; try done; [|by eapply wf_names].
    injection Hj as <-. assert (delete name (iEntries d) !! z = Some i) as Hz' by by destruct (isDir n).
    apply lookup_delete_Some in Hz' as [_ Hz']. by eapply (wf_names f Hw did).
  - intros j. rewrite Ho, unlinked_inodes. intros [o Hj]. apply lookup_delete_Some in Hj as [Hj1 Hj2].
    rewrite decide_False by done. case_decide; [eauto|]. apply (wf_open f Hw). eauto.
Qed.

End Unlinked.

Lemma unlink_wf f c dir name wantDir now : wf f -> wf (unlink f c dir name wantDir now).2.
Proof using Type.
  intros Hw. destruct (unlink f c dir name wantDir now) as [r f'] eqn:E.
  apply unlink_cases in E as [[_ ->]|(did&d&id&n&_&_&Hr&_&Hx&Hn&Hdir&He&_&->)]; [done|]. simpl.
  apply resolve_ok in Hr as (Hd&_&_). apply (unlinked_wf f did d name id n); try done. by rewrite Hdir.
Qed.

(** ** Rename *)

(** [m'] has inodes of [m] only, of the same generations, and no entry under a
    name [m] does not have, but for [y]. *)
Definition tame (y : string) (m m' : gmap Z inode) : Prop :=
  forall j n', m' !! j = Some n' -> exists n, m !! j = Some n /\ iGen n' = iGen n /\
    forall z i, iEntries n' !! z = Some i -> z = y \/ iEntries n !! z = Some i.

Lemma tame_refl y m : tame y m m.
Proof using Type. intros j n Hn. eauto. Qed.

Lemma tame_alter y m m' (g : inode -> inode) k :
  tame y m m' ->
  (forall n, iGen (g n) = iGen n /\ forall z i, iEntries (g n) !! z = Some i -> z = y \/ iEntries n !! z = Some i) ->
  tame y m (alter g k m').
Proof using Type.
  intros Ht Hg j n'. rewrite lookup_alter. case_decide; [|apply Ht]. subst.
  destruct (m' !! j) as [n|] eqn:E; [|done]. intros [= <-].
  destruct (Ht j n E) as (n0&Hn0&H1&H2), (Hg n) as [H3 H4]. exists n0. split; [done|]. split; [congruence|].
  intros z i [?|?]%H4; eauto.
Qed.

Lemma tame_delete y m m' k : tame y m m' -> tame y m (delete k m').
Proof using Type. intros Ht j n' [_ Hj]%lookup_delete_Some. by apply Ht. Qed.

(** What a call of [Rename] can do. *)
Lemma Rename_cases f c fromDir x toDir y now1 now2 now3 r f' :
  wf f -> Rename f c fromDir x toDir y now1 now2 now3 = (r, f') ->
  (is_ok r = false /\ f' = f) \/
  exists sid src did dst id moving,
    mutable f = None /\ validName x = None /\ validName y = None /\
    resolve f fromDir = Ok (sid, src) /\ resolve f toDir = Ok (did, dst) /\
    Check (mkRequest OpRename c (objectOf src) (objectOf dst) 0 0) = None /\
    iEntries src !! x = Some id /\ inodes f !! id = Some moving /\
    (isDir moving = true -> isAncestor f id did = false) /\ r = Ok tt /\
    let move := moveEntry id sid did x y did now1 now2 now3 in
    match iEntries dst !! y with
    | None => f' = move f
    | Some v =>
        if decide (v = id) then f' = f
        else exists victim, inodes f !! v = Some victim /\ victimRefusal victim moving = None /\
               f' = move (relinkOut v did f)
    end.
Proof using Type.
  intros Hw. unfold Rename. destruct (mutable f); [intros [= <- <-]; auto|].
  destruct (validName x) eqn:Ex; [intros [= <- <-]; auto|].
  destruct (validName y) eqn:Ey; [intros [= <- <-]; auto|].
  destruct (resolve f fromDir) as [[sid src]|] eqn:Es; [|intros [= <- <-]; auto].
  destruct (resolve f toDir) as [[did dst]|] eqn:Ed; [|intros [= <- <-]; auto].
  destruct (Check _) eqn:Ec; [intros [= <- <-]; auto|].
  destruct (iEntries src !! x) as [id|] eqn:Ee; [|intros [= <- <-]; auto].
  destruct (inodes f !! id) as [moving|] eqn:Em; [|intros [= <- <-]; auto].
  pose proof Ed as Ed'. apply resolve_ok in Ed' as (Hd&_&_). rewrite (wf_id f did dst Hw Hd).
  destruct (isDir moving && isAncestor f id did) eqn:Ea; [intros [= <- <-]; auto|]. cbv zeta.
  assert (isDir moving = true -> isAncestor f id did = false) as Ha.
  { intros E. by rewrite E in Ea. }
  destruct (iEntries dst !! y) as [v|] eqn:Ev.
  - destruct (wf_entry f did dst y v Hw Hd Ev) as (_&_&victim&Hv&_). rewrite Hv.
    destruct (Z.eqb_spec v id) as [->|Hvi].
    + intros [= <- <-]. right. exists sid, src, did, dst, id, moving. rewrite Ev, decide_True by done. auto 20.
    + destruct (victimRefusal victim moving) eqn:Er; intros [= <- <-]; [by auto|].
      right. exists sid, src, did, dst, id, moving. rewrite Ev, decide_False by done. eauto 20.
  - intros [= <- <-]. right. exists sid, src, did, dst, id, moving. rewrite Ev. auto 20.
Qed.

Section Moved.
Context (sid did id : Z) (x y : string) (now1 now2 now3 : Z) (g : FS) (moving : inode).
Hypotheses (Hm : inodes g !! id = Some moving)
  (Hs : iID <$> inodes g !! sid = Some sid) (Hd : iID <$> inodes g !! did = Some did).

Lemma moveEntry_shape :
  shape (moveEntry id sid did x y did now1 now2 now3 g) = t_move (shape g) id sid did x y (isDir moving).
Proof using Hm Hs Hd.
  unfold moveEntry, shape. simpl. rewrite !(skel_alter_same (touchM _)) by done.
  rewrite (skel_alter _ (with_parent did)) by done. unfold t_move. f_equal.
  set (m2 := alter _ did _).
  assert (H2 : skel <$> m2 = alter (fun n => with_entries (<[y:=id]> (nEntries n)) n) did
            (alter (fun n => with_entries (delete x (nEntries n)) n) sid (skel <$> inodes g))).
  { unfold m2. rewrite (skel_alter _ (fun n => with_entries (<[y:=id]> (nEntries n)) n)) by done.
    by rewrite (skel_alter _ (fun n => with_entries (delete x (nEntries n)) n)) by done. }
  assert (Hid : forall j, iID <$> m2 !! j = iID <$> inodes g !! j).
  { intros j. unfold m2. assert (Hal : forall k (h : inode -> inode) (m : gmap Z inode), (forall n, iID (h n) = iID n) ->
        iID <$> alter h k m !! j = iID <$> m !! j).
    { intros k h m Hh. rewrite lookup_alter. case_decide; [|done]. subst. destruct (m !! j); simpl; by rewrite ?Hh. }
    by rewrite !Hal. }
  assert (Hm2 : exists m', m2 !! id = Some m' /\ isDir m' = isDir moving).
  { unfold m2. rewrite !lookup_alter. repeat case_decide; subst; rewrite Hm; simpl; eauto. }
  destruct Hm2 as (m'&Hm'&Hdir). unfold relink. rewrite Hm', Hdir, !Hid, Hs, Hd, <- H2.
  assert (bool_decide (Some sid = Some did) = (sid =? did)) as ->.
  { destruct (Z.eqb_spec sid did); [subst; by apply bool_decide_true|apply bool_decide_false; congruence]. }
  destruct (isDir moving && negb (sid =? did)); simpl; [|done].
  rewrite (skel_alter _ (fun n => with_link (u32 (nLink n + 1)) n)) by done.
  by rewrite (skel_alter _ (fun n => with_link (u32 (nLink n - 1)) n)) by done.
Qed.

Lemma moveEntry_tame : tame y (inodes g) (inodes (moveEntry id sid did x y did now1 now2 now3 g)).
Proof using Type.
  unfold moveEntry. simpl. repeat (apply tame_alter; [|by eauto]).
  assert (tame y (inodes g) (alter (fun d => set_iEntries (<[y:=id]> (iEntries d)) d) did
      (alter (fun s => set_iEntries (delete x (iEntries s)) s) sid (inodes g)))) as Ht.
  { apply tame_alter; [apply tame_alter; [apply tame_refl|]|]; intros n; (split; [done|]); simpl; intros z i.
    - intros [_ ?]%lookup_delete_Some. auto.
    - rewrite lookup_insert. case_decide; auto. }
  clear Hm Hs Hd. revert Ht. generalize (alter (fun d => set_iEntries (<[y:=id]> (iEntries d)) d) did
      (alter (fun s => set_iEntries (delete x (iEntries s)) s) sid (inodes g))). intros m Ht.
  unfold relink. destruct (m !! id) as [n|]; [|done].
  destruct (isDir n && _); [|done]. simpl. repeat (apply tame_alter; [|by eauto]). done.
Qed.

Lemma moveEntry_rest :
  open (moveEntry id sid did x y did now1 now2 now3 g) = open g /\
  nextIno (moveEntry id sid did x y did now1 now2 now3 g) = nextIno g.
Proof using Type. done. Qed.

End Moved.

Lemma relinkOut_shape f did dst y v victim :
  wf f -> inodes f !! did = Some dst -> iEntries dst !! y = Some v -> inodes f !! v = Some victim ->
  alter (fun n => with_entries (delete y (nEntries n)) n) did (shape (relinkOut v did f)) =
    t_remove (shape f) did y v (isDir victim).
Proof using Type.
  intros Hw Hd Hy Hv. destruct (relinkOut_spec v did victim f Hv) as (Hi&_&_).
  { by eapply wf_file_links. }
  pose proof (wf_entry_ne f did dst y v Hw Hd Hy) as Hne.
  apply map_eq. intros j. unfold t_remove. rewrite lookup_delete, !lookup_alter, !shape_lookup, Hi, !lookup_delete.
  rewrite (decide_False (P := v = did)) by done.
  destruct (isDir victim); rewrite ?lookup_alter; repeat case_decide; subst; try done; rewrite ?Hd; done.
Qed.

(** The state a successful rename leaves, on the skeleton: nothing happened, or
    the source was moved, after the removal of the target if there was one. *)
Definition renamed (t : table) (id s d : Z) (x y : string) (n : node) (t' : table) : Prop :=
  match entry t d y with
  | None => t' = t_move t id s d x y (nDir n)
  | Some v =>
      if decide (v = id) then t' = t
      else exists vn, t !! v = Some vn /\ nEntries vn = ∅ /\ nDir vn = nDir n /\
             t' = t_move (t_remove t d y v (nDir vn)) id s d x y (nDir n)
  end.

Lemma victimRefusal_none victim moving :
  victimRefusal victim moving = None ->
  isDir victim = isDir moving /\ (isDir victim = true -> iEntries victim = ∅).
Proof using Type.
  unfold victimRefusal. destruct (isDir victim), (isDir moving); simpl; try done.
  case_bool_decide; done.
Qed.

Lemma wf_above_dir f id d dn n :
  wf f -> inodes f !! d = Some dn -> isDir dn = true -> inodes f !! id = Some n ->
  isDir n = false -> ~ above (shape f) id d.
Proof using Type.
  intros Hw Hd Hdir Hn Hf Ha. destruct (decide (id = d)) as [->|Hne]; [congruence|].
  pose proof (above_dir _ _ _ _ (wf_tree f Hw) Ha Hne (shape_some f id n Hn)) as H. simpl in H. congruence.
Qed.

Lemma Rename_refines f c fromDir x toDir y now1 now2 now3 f' :
  wf f -> Rename f c fromDir x toDir y now1 now2 now3 = (Ok tt, f') ->
  exists sid src did dst id moving,
    resolve f fromDir = Ok (sid, src) /\ resolve f toDir = Ok (did, dst) /\ validName y = None /\
    iEntries src !! x = Some id /\ inodes f !! id = Some moving /\
    movable (shape f) id sid did x (skel moving) /\ renamed (shape f) id sid did x y (skel moving) (shape f') /\
    nextIno f' = nextIno f /\ tame y (inodes f) (inodes f') /\
    (forall j, is_Some (open f' !! j) -> is_Some (open f !! j) /\ (iEntries dst !! y = Some j -> j = id)).
Proof using TC.
  intros Hw E. apply Rename_cases in E as [[? _]|(sid&src&did&dst&id&moving&_&_&Hy&Hs&Hd&Hc&Hx&Hm&Ha&_&Hf)]; [done| |done].
  exists sid, src, did, dst, id, moving. repeat (split; [done|]).
  apply resolve_ok in Hs as (Hs&_&_), Hd as (Hd&_&_).
  destruct (tc_rename (mkRequest OpRename c (objectOf src) (objectOf dst) 0 0) eq_refl Hc) as [_ Hdt]. simpl in Hdt.
  assert (isDir dst = true) as Hdd by by apply bool_decide_true.
  assert (Hl : ~ above (shape f) id did).
  { destruct (isDir moving) eqn:Em; [|by eapply wf_above_dir].
    rewrite <- isAncestor_above by eauto. rewrite Ha by done. done. }
  split.
  { exists (skel src), (skel dst). rewrite !shape_lookup, Hs, Hd, Hm. done. }
  unfold renamed, entry. rewrite (shape_some f did dst Hd). simpl.
  destruct (iEntries dst !! y) as [v|] eqn:Ey; cbv zeta in Hf.
  - destruct (decide (v = id)) as [->|Hvi].
    + subst f'. split; [done|]. split; [done|]. split; [apply tame_refl|]. intros j Hj. split; [done|congruence].
    + destruct Hf as (victim&Hv&Hr&->). apply victimRefusal_none in Hr as [Hr1 Hr2].
      destruct (relinkOut_spec v did victim f Hv) as (Hi&Ho&Hn); [by eapply wf_file_links|].
      assert (Hkeep : forall j n, inodes f !! j = Some n -> j ≠ v ->
                exists n', inodes (relinkOut v did f) !! j = Some n' /\ iID n' = j /\ isDir n' = isDir n).
      { intros j n Hj Hjv. rewrite Hi, lookup_delete_ne by done. pose proof (wf_id f j n Hw Hj).
        destruct (isDir victim); [rewrite lookup_alter; case_decide; subst; rewrite Hj|]; eauto. }
      assert (Hsv : sid ≠ v).
      { intros ->. assert (src = victim) as -> by congruence. destruct (isDir victim) eqn:Ed.
        - by rewrite Hr2, lookup_empty in Hx.
        - rewrite (wf_no_entries f v victim), lookup_empty in Hx by done. done. }
      destruct (Hkeep id moving) as (m'&Hm'&_&Hmd); [done|done|].
      destruct (Hkeep sid src) as (s'&Hs'&Hsi&_); [done|done|].
      destruct (Hkeep did dst) as (d'&Hd'&Hdi&_); [done|by apply not_eq_sym, (wf_entry_ne f did dst y v)|].
      split; [|split; [|split]].
      * exists (skel victim). rewrite (shape_some f v victim Hv). split; [done|].
        split; [simpl; destruct (isDir victim) eqn:Ed; [auto|by eapply wf_no_entries]|]. split; [done|].
        simpl. rewrite (moveEntry_shape sid did id x y now1 now2 now3 _ m') by (rewrite ?Hs', ?Hd'; simpl; congruence).
        rewrite <- t_move_forget, Hmd. f_equal. by apply (relinkOut_shape f did dst).
      * done.
      * intros j n' Hj. destruct (moveEntry_tame sid did id x y now1 now2 now3 (relinkOut v did f) j n' Hj) as (n1&Hn1&Hg1&He1).
        assert (tame y (inodes f) (inodes (relinkOut v did f))) as Ht1.
        { rewrite Hi. apply tame_delete. destruct (isDir victim); [apply tame_alter; [apply tame_refl|by eauto]|apply tame_refl]. }
        destruct (Ht1 j n1 Hn1) as (n2&Hn2&Hg2&He2). exists n2. split; [done|]. split; [congruence|].
        intros z i [?|?]%He1; eauto.
      * intros j. simpl. rewrite Ho. intros [o [? ?]%lookup_delete_Some]. split; [eauto|congruence].
  - subst f'. split; [|split; [|split]].
    + apply moveEntry_shape; [done|rewrite Hs|rewrite Hd]; simpl; f_equal; by eapply wf_id.
    + done.
    + apply moveEntry_tame.
    + intros j Hj. split; [done|congruence].
Qed.

Lemma renamed_tree t id s d x y n t' :
  tree t -> movable t id s d x n -> renamed t id s d x y n t' -> tree t'.
Proof using Type.
  intros Ht Hm. unfold renamed. destruct (entry t d y) as [v|] eqn:Ey.
  - case_decide; [intros ->; done|]. intros (vn&Hv&He&_&->).
    pose proof (movable_remove t id s d x y n v vn Ht Hm Ey Hv He ltac:(done)) as Hm'.
    destruct Hm as (sn&dn&_&Hd&_). unfold entry in Ey. rewrite Hd in Ey. simpl in Ey.
    apply movable_tree; [by apply (tree_remove t d dn)|done|].
    rewrite (entry_remove t d dn y v vn), decide_True; try done. by eapply remove_ne.
  - intros ->. by apply movable_tree.
Qed.

Lemma renamed_names t id s d x y n t' j z :
  tree t -> movable t id s d x n -> renamed t id s d x y n t' ->
  entry t' j z =
    if decide (j = d /\ z = y) then Some id
    else if decide (j = s /\ z = x) then None else entry t j z.
Proof using Type.
  intros Ht Hm. pose proof Hm as (sn&dn&Hs&Hd&_&Hx&Hid&_). unfold renamed.
  destruct (entry t d y) as [v|] eqn:Ey; [case_decide as Hv|].
  - intros ->. subst v. pose proof Ey as Ey'. unfold entry in Ey'. rewrite Hd in Ey'. simpl in Ey'.
    destruct (tr_entry t Ht _ _ _ _ Hd Ey') as (_&_&n1&Hn1&Hp1), (tr_entry t Ht _ _ _ _ Hs Hx) as (_&_&n2&Hn2&Hp2).
    assert (s = d) as -> by congruence. assert (sn = dn) as -> by congruence.
    assert (x = y) as -> by (eapply (tr_once t Ht d dn); done).
    repeat case_decide; naive_solver.
  - intros (vn&Hvn&He&_&->). pose proof Ey as Ey'. unfold entry in Ey'. rewrite Hd in Ey'. simpl in Ey'.
    pose proof (remove_ne t d dn y v vn Ht Hd Ey' Hvn He) as Hne.
    rewrite (entry_move _ s d (shrunk dn y vn)).
    + rewrite (entry_remove t d dn y v vn) by done. repeat case_decide; naive_solver.
    + rewrite (t_remove_lookup t d dn) by done. rewrite decide_False by done. by rewrite decide_True.
  - intros ->. by rewrite (entry_move _ s d dn).
Qed.

(** A rename keeps every inode but a replaced target. *)
Lemma renamed_keeps t id s d x y n t' j m :
  tree t -> movable t id s d x n -> renamed t id s d x y n t' ->
  t !! j = Some m -> (entry t d y = Some j -> j = id) -> is_Some (t' !! j).
Proof using Type.
  intros Ht (sn&dn&Hs&Hd&_&Hx&Hid&_) Hr Hj Hv. unfold renamed in Hr.
  destruct (entry t d y) as [v|] eqn:Ey; [case_decide|].
  - subst. eauto.
  - destruct Hr as (vn&Hvn&He&_&->). unfold entry in Ey. rewrite Hd in Ey. simpl in Ey.
    rewrite t_move_lookup, (t_remove_lookup t d dn) by done.
    rewrite decide_False by naive_solver. case_decide; [|rewrite Hj]; simpl; eauto.
  - rewrite Hr, t_move_lookup, Hj. simpl. eauto.
Qed.

Lemma Rename_wf f c fromDir x toDir y now1 now2 now3 :
  wf f -> wf (Rename f c fromDir x toDir y now1 now2 now3).2.
Proof using TC.
  intros Hw. destruct (Rename f c fromDir x toDir y now1 now2 now3) as [r f'] eqn:E. simpl.
  destruct r as [[]|e]; [|by apply Rename_cases in E as [[_ ->]|(?&?&?&?&?&?&_&_&_&_&_&_&_&_&_&?&_)]].
  apply Rename_refines in E as (sid&src&did&dst&id&moving&_&Hd&Hy&_&_&Hmv&Hrn&Hn&Ht&Ho); [|done].
  apply resolve_ok in Hd as (Hd&_&_). split.
  - apply (renamed_tree (shape f) id sid did x y (skel moving)); [apply Hw|done|done].
  - rewrite Hn. apply Hw.
  - intros j n Hj. destruct (Ht j n Hj) as (m&Hm&_&_). rewrite Hn. by eapply wf_ids.
  - intros j n Hj. destruct (Ht j n Hj) as (m&Hm&->&_). by eapply wf_gens.
  - intros j n z i Hj Hz. destruct (Ht j n Hj) as (m&Hm&_&He). destruct (He z i Hz) as [->|Hz']; [done|].
    by eapply (wf_names f Hw).
  - intros j [Hj Hv]%Ho. apply (wf_open f Hw) in Hj as [m Hm].
    destruct (renamed_keeps (shape f) id sid did x y (skel moving) (shape f') j (skel m)) as [m' Hm'];
      [apply Hw|done|done|by apply shape_some| |].
    { unfold entry. by rewrite (shape_some f did dst Hd). }
    rewrite shape_lookup in Hm'. destruct (inodes f' !! j); [eauto|done].
Qed.

(** ** SETATTR *)

Lemma applySetAttr_same n sa now :
  skel (applySetAttr n sa now).1 = skel n /\ iGen (applySetAttr n sa now).1 = iGen n /\
  iEntries (applySetAttr n sa now).1 = iEntries n.
Proof using Type.
  unfold applySetAttr. by destruct (saMode sa), (saUID sa), (saGID sa), (saATime sa), (saMTime sa).
Qed.

Lemma upd_wf f id n n' :
  wf f -> inodes f !! id = Some n -> skel n' = skel n -> iGen n' = iGen n -> wf (upd id (fun _ => n') f).
Proof using Type.
  intros Hw Hn Hs Hg. apply (wf_ext f); [done| |done|done|].
  - unfold shape. simpl. apply skel_alter_same. intros m Hm. congruence.
  - intros j m. simpl. rewrite lookup_alter. case_decide; [subst; rewrite Hn|eauto].
    intros [= <-]. exists n. split; [done|]. split; [done|]. exact (f_equal nEntries Hs).
Qed.

Lemma markDirty_wf f : wf f -> wf (markDirty f).
Proof using Type. intros Hw. apply (wf_ext f); eauto. Qed.

Lemma setAttrNoSize_wf f c h sa now : wf f -> wf (setAttrNoSize f c h sa now).2.
Proof using Type.
  intros Hw. unfold setAttrNoSize. destruct (resolve f h) as [[id n]|] eqn:Er; [|done].
  destruct (setAttrRequests c n sa); [done|].
  destruct (applySetAttr_same n sa now) as (H1&H2&_). destruct (applySetAttr n sa now) as [n' b]. simpl in *.
  apply resolve_ok in Er as (Hn&_&_). pose proof (upd_wf f id n n' Hw Hn H1 H2).
  destruct b; [by apply markDirty_wf|done].
Qed.

(** ** Every sequence of operations *)

Inductive nsop :=
| NCreate (c : Caller) (dir : Handle) (name : string) (sa : SetAttr) (excl : bool) (now1 now2 : Z)
| NMkdir (c : Caller) (dir : Handle) (name : string) (sa : SetAttr) (now1 now2 : Z)
| NSymlink (c : Caller) (dir : Handle) (name target : string) (sa : SetAttr) (now1 now2 : Z)
| NRemove (c : Caller) (dir : Handle) (name : string) (now : Z)
| NRmdir (c : Caller) (dir : Handle) (name : string) (now : Z)
| NRename (c : Caller) (fromDir : Handle) (fromName : string) (toDir : Handle) (toName : string) (now1 now2 now3 : Z)
| NSetAttr (c : Caller) (h : Handle) (sa : SetAttr) (now : Z).

(** The outcome of an operation, its value forgotten, and the state after it. *)
Definition perform (f : FS) (op : nsop) : bool * FS :=
  match op with
  | NCreate c dir name sa excl t1 t2 => let (r, f) := Create f c dir name sa excl t1 t2 in (is_ok r, f)
  | NMkdir c dir name sa t1 t2 => let (r, f) := Mkdir f c dir name sa t1 t2 in (is_ok r, f)
  | NSymlink c dir name target sa t1 t2 => let (r, f) := Symlink f c dir name target sa t1 t2 in (is_ok r, f)
  | NRemove c dir name t => let (r, f) := Remove f c dir name t in (is_ok r, f)
  | NRmdir c dir name t => let (r, f) := Rmdir f c dir name t in (is_ok r, f)
  | NRename c d1 x d2 y t1 t2 t3 => let (r, f) := Rename f c d1 x d2 y t1 t2 t3 in (is_ok r, f)
  | NSetAttr c h sa t => let (r, f) := setAttrNoSize f c h sa t in (is_ok r, f)
  end.

Definition run (ops : list nsop) (f : FS) : FS := fold_left (fun f op => (perform f op).2) ops f.

Lemma createEntry_next f c dir name t sa target excl now1 now2 :
  nextIno f + 1 < 2 ^ 64 -> wf f ->
  nextIno f <= nextIno (createEntry f c dir name t sa target excl now1 now2).2 <= nextIno f + 1.
Proof using Type.
  intros Hn Hw. pose proof (wf_next_pos f Hw). destruct (createEntry _ _ _ _ _ _ _ _ _ _) as [r f'] eqn:E.
  apply createEntry_cases in E as [->|(did&d&_&_&_&_&_&_&_&->)]; simpl; [lia|]. rewrite u64_id; unfold is_u64; lia.
Qed.

Lemma perform_wf f op :
  wf f -> nextIno f + 1 < 2 ^ 64 ->
  wf (perform f op).2 /\ nextIno f <= nextIno (perform f op).2 <= nextIno f + 1.
Proof using TC.
  intros Hw Hn. destruct op; simpl.
  - unfold Create. pose proof (createEntry_wf f c dir name TypeReg sa "" excl now1 now2 Hw Hn).
    pose proof (createEntry_next f c dir name TypeReg sa "" excl now1 now2 Hn Hw).
    destruct (createEntry _ _ _ _ _ _ _ _ _ _). simpl in *. split; [done|lia].
  - unfold Mkdir. pose proof (createEntry_wf f c dir name TypeDir sa "" true now1 now2 Hw Hn).
    pose proof (createEntry_next f c dir name TypeDir sa "" true now1 now2 Hn Hw).
    destruct (createEntry _ _ _ _ _ _ _ _ _ _). simpl in *. split; [done|lia].
  - unfold Symlink. pose proof (createEntry_wf f c dir name TypeLnk sa target true now1 now2 Hw Hn).
    pose proof (createEntry_next f c dir name TypeLnk sa target true now1 now2 Hn Hw).
    destruct (String.eqb target ""); [simpl; split; [done|lia]|].
    destruct (createEntry _ _ _ _ _ _ _ _ _ _). simpl in *. split; [done|lia].
  - unfold Remove. pose proof (unlink_wf f c dir name false now Hw).
    destruct (unlink _ _ _ _ _ _) as [r f'] eqn:E. simpl in *. split; [done|].
    apply unlink_cases in E as [[_ ->]|(did&d&id&n&_&_&Hr&_&Hx&Hi&Hdir&He&_&->)]; [lia|].
    apply resolve_ok in Hr as (Hd&_&_). rewrite (proj2 (unlinked_rest f did d name id n now Hw Hd Hx Hi ltac:(by rewrite Hdir))). lia.
  - unfold Rmdir. pose proof (unlink_wf f c dir name true now Hw).
    destruct (unlink _ _ _ _ _ _) as [r f'] eqn:E. simpl in *. split; [done|].
    apply unlink_cases in E as [[_ ->]|(did&d&id&n&_&_&Hr&_&Hx&Hi&Hdir&He&_&->)]; [lia|].
    apply resolve_ok in Hr as (Hd&_&_). rewrite (proj2 (unlinked_rest f did d name id n now Hw Hd Hx Hi ltac:(by rewrite Hdir))). lia.
  - pose proof (Rename_wf f c fromDir fromName toDir toName now1 now2 now3 Hw).
    destruct (Rename _ _ _ _ _ _ _ _ _) as [r f'] eqn:E. simpl in *. split; [done|].
    destruct r as [[]|]; [apply Rename_refines in E as (?&?&?&?&?&?&_&_&_&_&_&_&_&->&_); [lia|done]|].
    apply Rename_cases in E as [[_ ->]|(?&?&?&?&?&?&_&_&_&_&_&_&_&_&_&?&_)]; [lia|done|done].
  - pose proof (setAttrNoSize_wf f c h sa now Hw). destruct (setAttrNoSize _ _ _ _ _) as [r f'] eqn:E. simpl in *.
    split; [done|]. unfold setAttrNoSize in E. destruct (resolve f h) as [[id n]|]; [|injection E as <- <-; lia].
    destruct (setAttrRequests c n sa); [injection E as <- <-; lia|].
    destruct (applySetAttr n sa now) as [n' []]; injection E as <- <-; simpl; lia.
Qed.

Lemma run_wf_aux ops f : wf f -> nextIno f + blen ops < 2 ^ 64 -> wf (run ops f).
Proof using TC.
  revert f. induction ops as [|op ops IH]; intros f Hw Hn; [done|]. simpl.
  unfold blen in Hn. simpl in Hn.
  destruct (perform_wf f op Hw) as [H1 H2]; [lia|]. apply IH; [done|]. unfold blen. lia.
Qed.

End Operations.
