(* ===== verification/ReadDir.v ===== *)
(** * Directory reading (ReadDir and dirVerifier of internal/blobfs/fs.go)

    A READDIR cookie is an index into the sorted listing, and the verifier a
    hash of it, so a client that follows the cookies of an unchanged directory
    sees every entry once and in order. *)

From Stdlib Require Import Ascii.
From stdpp Require Import sorting.
From S2P Require Import Prelude Vfs Modes Policy Inode ChunkCache Budget FsState Tree Namespace NamespaceInv.

(** ** The verifier *)

Definition dirVerifier (names : list string) : bytes :=
  be_bytes 8 (fnv64a (concat (map (fun n => bytesOf n ++ [zero_byte]) names))).

(** ** The listing *)

Definition strLe (a b : string) : Prop := String.leb a b = true.
#[global] Instance strLe_dec a b : Decision (strLe a b).
Proof. unfold strLe. apply _. Defined.

Lemma compare_refl s : String.compare s s = Eq.
Proof. induction s as [|a s IH]; simpl; [done|]. unfold Ascii.compare. by rewrite N.compare_refl. Qed.

Lemma compare_app p a b : String.compare (p +:+ a) (p +:+ b) = String.compare a b.
Proof. induction p as [|c p IH]; simpl; [done|]. unfold Ascii.compare. by rewrite N.compare_refl. Qed.

Lemma compare_lt_trans a b c : String.compare a b = Lt -> String.compare b c = Lt -> String.compare a c = Lt.
Proof.
  revert b c. induction a as [|x a IH]; intros [|y b] [|z c]; simpl; try done. unfold Ascii.compare.
  destruct (N.compare_spec (N_of_ascii x) (N_of_ascii y)) as [E1|E1|E1], (N.compare_spec (N_of_ascii y) (N_of_ascii z)) as [E2|E2|E2]; try done;
    intros H1 H2; destruct (N.compare_spec (N_of_ascii x) (N_of_ascii z)) as [E3|E3|E3]; try done; try lia. by eapply IH.
Qed.

Lemma strLe_cases a b : strLe a b <-> String.compare a b = Lt \/ a = b.
Proof.
  unfold strLe, String.leb. destruct (String.compare a b) eqn:E.
  - apply String.compare_eq_iff in E. split; auto.
  - split; auto.
  - split; [done|]. intros [?| ->]; [done|]. by rewrite compare_refl in E.
Qed.

#[global] Instance strLe_trans : Transitive strLe.
Proof.
  intros a b c. rewrite !strLe_cases. intros [H1| ->] [H2| ->]; auto. left. by eapply compare_lt_trans.
Qed.

#[global] Instance strLe_antisymm : AntiSymm (=) strLe.
Proof.
  intros a b. rewrite !strLe_cases. intros [H1| ->] [H2|H2]; try done.
  pose proof (compare_lt_trans a b a H1 H2) as H. by rewrite compare_refl in H.
Qed.

(** [sort.Strings] of the names of a directory. *)
Definition sortedNames (d : inode) : list string := merge_sort strLe (map fst (map_to_list (iEntries d))).

(** [all]: the names with the inode each stands for, "." and ".." first. *)
Definition listing (d : inode) : list (string * Z) :=
  let parent := if iParent d =? 0 then rootInodeID else iParent d in
  (".", iID d) :: ("..", parent) ::
  map (fun x => (x, match iEntries d !! x with Some id => id | None => 0 end)) (sortedNames d).

Definition dirEntry (f : FS) (plus : bool) (name : string) (i : Z) (n : inode) : DirEntry :=
  mkDirEntry (iID n) name (u64 (i + 1))
    (if plus then Some (encodeHandle (iID n) (iGen n)) else None)
    (if plus then Some (attr (fsid f) n) else None).

(** The loop over [all[i:]]: what it appends, and where it stopped. *)
Fixpoint readDirLoop (f : FS) (plus : bool) (perEntry budget : Z) (rest : list (string * Z)) (i used : Z) (some : bool)
  : list DirEntry * Z :=
  match rest with
  | [] => ([], i)
  | (name, id) :: rest =>
      match inodes f !! id with
      | None => readDirLoop f plus perEntry budget rest (i + 1) used some
      | Some n =>
          let cost := u32 (perEntry + u32 (Z.of_nat (String.length name))) in
          if (budget <? u32 (used + cost)) && some then ([], i)
          else let (out, j) := readDirLoop f plus perEntry budget rest (i + 1) (u32 (used + cost)) true in
               (dirEntry f plus name i n :: out, j)
      end
  end.

Section ReadDir.
Context {P : Policy}.

Definition ReadDir (f : FS) (c : Caller) (dir : Handle) (cookie : Z) (verf : bytes) (max : Z) (plus : bool)
  : result (list DirEntry * bool * bytes) :=
  let? (_, d) := resolve f dir in
  match checkPerm OpReadDir c d with Some e => Err e | None =>
  let cur := dirVerifier (sortedNames d) in
  if negb (cookie =? 0) && negb (bool_decide (verf = zeros 8)) && negb (bool_decide (verf = cur))
  then Err (EStatus ErrBadCookie)
  else
    let all := listing d in
    if blen all <? cookie then Err (EStatus ErrBadCookie)
    else
      let perEntry := if plus then 160 else 32 in
      let budget := if max <? perEntry * 2 then perEntry * 2 else max in
      let (out, i) := readDirLoop f plus perEntry budget (bdrop cookie all) cookie 0 false in
      Ok (out, blen all <=? i, cur)
  end.

(** ** A client that pages through a directory *)

(** Ask from cookie 0, then from the cookie of the last entry received, with
    the verifier received, until the reply says it was the last. *)
Fixpoint readAll (fuel : nat) (f : FS) (c : Caller) (dir : Handle) (cookie : Z) (verf : bytes) (max : Z) (plus : bool)
  : result (list DirEntry) :=
  match fuel with
  | O => Err (EMsg "unfinished")
  | S fuel =>
      let? (out, eof, cur) := ReadDir f c dir cookie verf max plus in
      if eof then Ok out
      else
        let next := match list.last out with Some e => deCookie e | None => cookie end in
        let? rest := readAll fuel f c dir next cur max plus in Ok (out ++ rest)
  end.

End ReadDir.

(** Every entry of the listing, as the reply spells it. *)
Fixpoint entriesFrom (f : FS) (plus : bool) (rest : list (string * Z)) (i : Z) : list DirEntry :=
  match rest with
  | [] => []
  | (name, id) :: rest =>
      match inodes f !! id with
      | None => entriesFrom f plus rest (i + 1)
      | Some n => dirEntry f plus name i n :: entriesFrom f plus rest (i + 1)
      end
  end.

Definition allEntries (f : FS) (plus : bool) (d : inode) : list DirEntry := entriesFrom f plus (listing d) 0.

(** ** The loop *)

Lemma readDirLoop_spec f plus per budget rest i used some out j :
  Forall (fun e => is_Some (inodes f !! e.2)) rest ->
  readDirLoop f plus per budget rest i used some = (out, j) ->
  i <= j <= i + blen rest /\ blen out = j - i /\
  out = entriesFrom f plus (btake (j - i) rest) i /\ (some = false -> rest ≠ [] -> i < j).
Proof.
  intros Hall. revert i used some out j. induction Hall as [|[x id] rest [n Hn] Hall IH]; intros i used some out j; simpl.
  - intros [= <- <-]. unfold blen. simpl. replace (i - i) with 0 by lia. split; [lia|]. done.
  - simpl in Hn. rewrite Hn. destruct (_ && _) eqn:E.
    + intros [= <- <-]. replace (i - i) with 0 by lia. unfold blen. simpl. repeat split; try lia.
      intros ->. by rewrite andb_false_r in E.
    + destruct (readDirLoop _ _ _ _ _ _ _ _) as [o k] eqn:El. intros [= <- <-].
      apply IH in El as (H1&H2&H3&_). unfold blen in *. simpl. split; [lia|]. split; [lia|]. split; [|lia].
      unfold btake in *. replace (Z.to_nat (k - i)) with (S (Z.to_nat (k - (i + 1)))) by lia. simpl. rewrite Hn. by f_equal.
Qed.

Lemma entriesFrom_app f plus l k i :
  entriesFrom f plus (l ++ k) i = entriesFrom f plus l i ++ entriesFrom f plus k (i + blen l).
Proof.
  revert i. induction l as [|[x id] l IH]; intros i; simpl.
  { unfold blen. simpl. by rewrite Z.add_0_r. }
  replace (i + blen ((x, id) :: l)) with (i + 1 + blen l) by (unfold blen; simpl; lia).
  destruct (inodes f !! id); simpl; by rewrite IH.
Qed.

(** The cookie of the last entry of a page is where the next page starts. *)
Lemma entriesFrom_last f plus rest i e :
  Forall (fun e => is_Some (inodes f !! e.2)) rest -> i + blen rest < 2 ^ 64 -> 0 <= i ->
  list.last (entriesFrom f plus rest i) = Some e -> deCookie e = i + blen rest.
Proof.
  intros Hall Hb Hi. destruct rest as [|[x id] rest _] using rev_ind; [done|].
  apply Forall_app in Hall as [_ Hl]. apply list.Forall_singleton in Hl as [n Hn].
  rewrite blen_app in *. unfold blen in * at 2. simpl in *. rewrite entriesFrom_app. simpl. rewrite Hn.
  rewrite last_snoc. intros [= <-]. simpl. unfold blen in *. rewrite u64_id; unfold is_u64; lia.
Qed.

(** ** The listing's order *)

#[global] Instance strLe_total : Total strLe.
Proof. intros a b. apply String.leb_total. Qed.

Lemma sortedNames_sorted d : Sorted strLe (sortedNames d).
Proof. apply Sorted_merge_sort, _. Qed.

Lemma sortedNames_perm d : sortedNames d ≡ₚ map fst (map_to_list (iEntries d)).
Proof. apply merge_sort_Permutation. Qed.

Lemma sortedNames_nodup d : NoDup (sortedNames d).
Proof. rewrite sortedNames_perm. apply NoDup_fst_map_to_list. Qed.

Lemma sortedNames_elem d x : x ∈ sortedNames d <-> is_Some (iEntries d !! x).
Proof.
  rewrite sortedNames_perm. change (map fst) with (fmap (M:=list) (@fst string Z)). rewrite list_elem_of_fmap. split.
  - intros ([y id]&->&Hy%elem_of_map_to_list). eauto.
  - intros [id Hid]. exists (x, id). split; [done|]. by apply elem_of_map_to_list.
Qed.

(** Every line of the listing stands for an inode of the table. *)
Lemma listing_present f did d :
  wf f -> inodes f !! did = Some d -> Forall (fun e => is_Some (inodes f !! e.2)) (listing d).
Proof.
  intros Hw Hd. unfold listing. constructor; [|constructor].
  - simpl. rewrite (wf_id f did d Hw Hd). eauto.
  - simpl. destruct (tr_root _ (wf_tree f Hw)) as (r&Hr&_&Hp). rewrite shape_lookup in Hr.
    destruct (inodes f !! 1) as [rn|] eqn:E1; [|done]. injection Hr as <-.
    destruct (Z.eqb_spec (iParent d) 0) as [E|E]; [exists rn; done|].
    destruct (decide (did = 1)) as [->|Hne]; [simpl in Hp; congruence|].
    destruct (tr_named _ (wf_tree f Hw) did (skel d)) as (pn&x&Hpn&_); [by apply shape_some|done|].
    rewrite shape_lookup in Hpn. simpl in Hpn. destruct (inodes f !! iParent d); [eauto|done].
  - apply Forall_map, list.Forall_forall. intros x Hx%sortedNames_elem. simpl. destruct Hx as [id Hid].
    rewrite Hid. destruct (wf_entry f did d x id Hw Hd Hid) as (_&_&n&Hn&_). eauto.
Qed.

Section Paging.
Context {P : Policy} (f : FS) (c : Caller) (dir : Handle) (did : Z) (d : inode) (max : Z) (plus : bool).
Hypotheses (Hw : wf f) (Hr : resolve f dir = Ok (did, d)) (Hp : checkPerm OpReadDir c d = None)
  (Hlen : blen (listing d) < 2 ^ 64).

Lemma readAll_from fuel k verf :
  0 <= k <= blen (listing d) -> k = 0 \/ verf = dirVerifier (sortedNames d) ->
  blen (listing d) - k < Z.of_nat fuel ->
  readAll fuel f c dir k verf max plus = Ok (entriesFrom f plus (bdrop k (listing d)) k).
Proof using Hw Hr Hp Hlen.
  pose proof Hr as Hr'. apply resolve_ok in Hr' as (Hd&_&_). pose proof (listing_present f did d Hw Hd) as Hall.
  revert k verf. induction fuel as [|fuel IH]; intros k verf Hk Hv Hf; [lia|]. simpl.
  unfold ReadDir. rewrite Hr. simpl. rewrite Hp.
  assert (negb (k =? 0) && negb (bool_decide (verf = zeros 8)) && negb (bool_decide (verf = dirVerifier (sortedNames d))) = false) as ->.
  { destruct Hv as [->| ->]; [done|]. rewrite (bool_decide_true (dirVerifier _ = dirVerifier _)) by done. by rewrite !andb_false_r. }
  destruct (Z.ltb_spec (blen (listing d)) k); [lia|].
  destruct (readDirLoop _ _ _ _ _ _ _ _) as [out j] eqn:El.
  apply readDirLoop_spec in El as (Hj&Ho&Hout&Hprog); [|by apply Forall_drop].
  rewrite blen_drop in Hj by lia. simpl. destruct (Z.leb_spec (blen (listing d)) j) as [He|He].
  - rewrite Hout. do 2 f_equal. unfold btake. apply take_ge. unfold bdrop. rewrite length_drop. unfold blen in *. lia.
  - assert (Hkj : k < j).
    { apply Hprog; [done|]. intros En. apply (f_equal blen) in En. rewrite blen_drop in En by lia. change (blen []) with 0 in En. lia. }
    assert (Hb : blen (btake (j - k) (bdrop k (listing d))) = j - k).
    { rewrite blen_take, blen_drop by lia. lia. }
    destruct (list.last out) as [e|] eqn:Elast.
    2:{ apply last_None in Elast. subst out. rewrite Elast in Ho. change (blen []) with 0 in Ho. lia. }
    rewrite Hout in Elast. apply entriesFrom_last in Elast; [|by apply Forall_take, Forall_drop|lia|lia].
    rewrite Elast, Hb. replace (k + (j - k)) with j by lia. rewrite IH; [|lia|auto|lia]. simpl. f_equal. rewrite Hout.
    rewrite <- (take_drop (Z.to_nat (j - k)) (bdrop k (listing d))) at 2.
    change (take (Z.to_nat (j - k)) (bdrop k (listing d))) with (btake (j - k) (bdrop k (listing d))).
    rewrite entriesFrom_app, Hb. f_equal. unfold bdrop. rewrite drop_drop. f_equal; [|lia]. f_equal. lia.
Qed.

End Paging.

Lemma entriesFrom_names f plus l i :
  Forall (fun e => is_Some (inodes f !! e.2)) l -> map deName (entriesFrom f plus l i) = map fst l.
Proof.
  intros Hall. revert i. induction Hall as [|[x id] l [n Hn] _ IH]; intros i; simpl; [done|].
  simpl in Hn. rewrite Hn. simpl. by rewrite IH.
Qed.

Lemma entriesFrom_ids f plus l i :
  wf f -> Forall (fun e => is_Some (inodes f !! e.2)) l -> map deFileID (entriesFrom f plus l i) = map snd l.
Proof.
  intros Hw Hall. revert i. induction Hall as [|[x id] l [n Hn] _ IH]; intros i; simpl; [done|].
  simpl in Hn. rewrite Hn. simpl. by rewrite IH, (wf_id f id n Hw Hn).
Qed.
