(* ===== verification/NamespaceSpec.v ===== *)
(** * What the namespace operations promise

    The theorems a client of the namespace relies on, for any policy that
    checks the types of the objects it is asked about: the tree invariant holds
    after every sequence of operations, a refused operation changes nothing,
    and creation, removal and renaming are point updates of the map from
    (directory, name) to inode that leave every other handle's answer alone. *)

From stdpp Require Import sorting.
From S2P Require Import Prelude Vfs Modes Policy Inode ChunkCache Budget FsState Tree Namespace NamespaceInv.
From S2P Require Import ReadDir.

(** The inode a name of a directory stands for. *)
Definition names (f : FS) (j : Z) (z : string) : option Z := inodes f !! j ≫= fun n => iEntries n !! z.

Lemma names_entry f j z : names f j z = entry (shape f) j z.
Proof. unfold names, entry. rewrite shape_lookup. by destruct (inodes f !! j). Qed.

Lemma emptyNamespace_wf name now f : open f = ∅ -> wf (emptyNamespace name now f).
Proof.
  intros Ho. set (r := rootInode (ownerUID (cf f)) (ownerGID (cf f)) now).
  assert (Hs : shape (emptyNamespace name now f) = {[ 1 := skel r ]}) by apply map_fmap_singleton.
  assert (Hi : forall id n, inodes (emptyNamespace name now f) !! id = Some n -> id = 1 /\ n = r).
  { intros id n Hn. simpl in Hn. by apply lookup_singleton_Some in Hn as [<- <-]. }
  split.
  - rewrite Hs. split.
    + exists (skel r). by rewrite lookup_singleton_eq.
    + intros id n [<- <-]%lookup_singleton_Some. done.
    + intros d dn x id [<- <-]%lookup_singleton_Some. simpl. by rewrite lookup_empty.
    + intros id n [<- <-]%lookup_singleton_Some. done.
    + intros d dn x y id [<- <-]%lookup_singleton_Some. simpl. by rewrite lookup_empty.
    + intros id [n [<- <-]%lookup_singleton_Some]. exists O. constructor.
    + intros id n [<- <-]%lookup_singleton_Some. unfold linksOf. simpl.
      rewrite subdirs_none; [done|]. intros id n [<- <-]%lookup_singleton_Some [_ Hp]. done.
  - done.
  - intros id n [-> ->]%Hi. simpl. unfold rootInodeID. lia.
  - intros id n [-> ->]%Hi. done.
  - intros id n x c [-> ->]%Hi. simpl. by rewrite lookup_empty.
  - simpl. rewrite Ho. intros id [o Hid]. by rewrite lookup_empty in Hid.
Qed.

(** ** A mount to try things on *)

Definition demoConfig : Config := mkConfig 0 0 1000 1000 false false 0 0 0 false.
Definition demo : FS :=
  match buildFS demoConfig "host/1" with
  | Ok f => setMaxFileSize (emptyNamespace "bucket" 7 f)
  | Err _ => mkFS (mkConf 0 0 0 false false 0 0 "") mountReadOnly ∅ 0 0 0 "" false 0 0 rootKnown "" "" false ∅
               (Budget.newBudget 0) (ChunkCache.newChunkCache 0) ∅
  end.

Definition owner : Caller := mkCaller 1000 1000 [].
Definition stranger : Caller := mkCaller 2000 2000 [].
Definition rootHandle : Handle := encodeHandle 1 1.

Lemma demo_wf : wf demo.
Proof.
  apply (wf_ext (emptyNamespace "bucket" 7 demo)); [by apply emptyNamespace_wf|done|done|done|].
  intros id n Hn. exists n. done.
Qed.

(** /a (directory), /a/b (file), then /a/b moved to /c. *)
Definition demoOps : list nsop :=
  [ NMkdir owner rootHandle "a" noSetAttr 11 12;
    NCreate owner (encodeHandle 2 11) "b" noSetAttr true 13 14;
    NRename owner (encodeHandle 2 11) "b" rootHandle "c" 15 16 17 ].

Definition demoTree : FS := @run Unix demoOps demo.

Section Spec.
Context {P : Policy} {TC : TypeChecked P}.

(** C12 Every sequence of CREATE, MKDIR, SYMLINK, REMOVE, RMDIR, RENAME and
    SETATTR calls, whatever their arguments and whether they succeed or not,
    leaves a well-formed namespace: a finite tree under inode 1 in which every
    other inode has exactly one name, every entry leads to an inode whose
    Parent is the directory, link counts are exact, no name is invalid, inode
    numbers stay below the next one to be given out, and only files that exist
    have buffered writes. *)
Theorem operations_keep_tree ops f :
  wf f -> nextIno f + blen ops < 2 ^ 64 -> wf (run ops f).
Proof using TC. apply run_wf_aux. Qed.

(** C39 An operation that answers an error has changed nothing: every check of
    CREATE, MKDIR, SYMLINK, REMOVE, RMDIR, RENAME and SETATTR comes before its
    first write. *)
Theorem refused_changes_nothing f op f' : perform f op = (false, f') -> f' = f.
Proof using Type.
  destruct op; simpl.
  - unfold Create. destruct (createEntry _ _ _ _ _ _ _ _ _ _) as [r g] eqn:E.
    apply createEntry_cases in E as [->|(?&?&_&_&_&_&_&_&->&_)]; [by intros [= _ <-]|done].
  - unfold Mkdir. destruct (createEntry _ _ _ _ _ _ _ _ _ _) as [r g] eqn:E.
    apply createEntry_cases in E as [->|(?&?&_&_&_&_&_&_&->&_)]; [by intros [= _ <-]|done].
  - unfold Symlink. destruct (String.eqb target ""); [by intros [= <-]|].
    destruct (createEntry _ _ _ _ _ _ _ _ _ _) as [r g] eqn:E.
    apply createEntry_cases in E as [->|(?&?&_&_&_&_&_&_&->&_)]; [by intros [= _ <-]|done].
  - unfold Remove. destruct (unlink _ _ _ _ _ _) as [r g] eqn:E.
    apply unlink_cases in E as [[_ ->]|(?&?&?&?&_&_&_&_&_&_&_&_&->&_)]; [by intros [= _ <-]|done].
  - unfold Rmdir. destruct (unlink _ _ _ _ _ _) as [r g] eqn:E.
    apply unlink_cases in E as [[_ ->]|(?&?&?&?&_&_&_&_&_&_&_&_&->&_)]; [by intros [= _ <-]|done].
  - unfold Rename. repeat case_match; simplify_eq/=; intros; by simplify_eq.
  - unfold setAttrNoSize. repeat case_match; simplify_eq/=; intros; by simplify_eq.
Qed.

Lemma validName_dots x : validName x = None -> String.eqb x "." = false /\ String.eqb x ".." = false.
Proof using Type.
  unfold validName. destruct (String.eqb x ""), (String.eqb x "."), (String.eqb x ".."); done.
Qed.

Lemma GetAttr_same f f' h j n :
  resolve f h = Ok (j, n) -> inodes f' !! j = Some n -> fsid f' = fsid f -> GetAttr f' h = GetAttr f h.
Proof using Type.
  intros Hr Hn Hf. unfold GetAttr. rewrite Hr. unfold resolve in *.
  destruct (decodeHandle h) as [[id gen]|]; [|done].
  destruct (inodes f !! id) as [m|] eqn:E; [|done]. destruct (Z.eqb_spec (iGen m) gen) as [Eg|]; [|done].
  injection Hr as -> ->. rewrite Hn. destruct (Z.eqb_spec (iGen n) gen); [|done]. simpl. by rewrite Hf.
Qed.

(** A handle that answers for another inode than [id]. *)
Lemma resolve_other f h h' id n j m :
  resolve f h = Ok (id, n) -> resolve f h' = Ok (j, m) -> h' ≠ h -> j ≠ id.
Proof using Type.
  intros H1 H2 Hne ->. apply resolve_ok in H1 as (H1&->&_), H2 as (H2&->&_). congruence.
Qed.

(** C14 CREATE, MKDIR and SYMLINK of a name that is not taken, when they
    succeed: exactly that name of exactly that directory now stands for the
    fresh inode; the handle returned answers GETATTR with the attributes
    returned, of the type asked for; LOOKUP of the name finds it, for whoever
    may search the directory; and every handle that answered before, the
    directory's own apart, answers the same. *)
Theorem create_spec f c dir name t sa target excl now1 now2 h a f' did d :
  wf f -> nextIno f + 1 < 2 ^ 64 -> resolve f dir = Ok (did, d) -> iEntries d !! name = None ->
  createEntry f c dir name t sa target excl now1 now2 = (Ok (h, a), f') ->
  (forall j z, names f' j z = if decide (j = did /\ z = name) then Some (nextIno f) else names f j z) /\
  GetAttr f' h = Ok a /\ aType a = t /\ aFileID a = nextIno f /\
  (forall c', checkPerm OpLookup c' d = None -> Lookup f' c' dir name = Ok (h, a)) /\
  (forall h' r, resolve f h' = Ok r -> h' ≠ dir -> GetAttr f' h' = GetAttr f h').
Proof using TC.
  intros Hw Hn Hr Hx Hc.
  pose proof (createEntry_wf f c dir name t sa target excl now1 now2 Hw Hn) as Hw'. rewrite Hc in Hw'. simpl in Hw'.
  pose proof Hc as Hc0. apply createEntry_cases in Hc as [->|(did'&d'&_&Hv&_&Hr'&_&_&Hreply&->)].
  { unfold createEntry in Hc0. exfalso. revert Hc0. rewrite Hr, Hx. destruct (mutable f); [done|].
    destruct (validName name); [done|]. destruct (tooBig f t sa); [done|].
    destruct (checkPerm OpAddEntry c d); [done|]. simpl. intros [= _ _ E].
    apply (f_equal nextIno) in E. simpl in E. pose proof (wf_next_pos f Hw). rewrite u64_id in E by (unfold is_u64; lia). lia. }
  assert (did' = did /\ d' = d) as [-> ->] by (rewrite Hr in Hr'; by simplify_eq).
  injection Hreply as -> ->. set (n := freshInode f c t sa target d now1) in *.
  set (f' := linkedFS f did name t n now2) in *.
  pose proof Hr as Hd. apply resolve_ok in Hd as (Hd&Hdir&Hdu).
  assert (Hne : did ≠ nextIno f). { intros ->. rewrite wf_fresh in Hd; [done|done|lia]. }
  assert (Hid : iID n = nextIno f) by apply freshInode_id.
  assert (Hnew : inodes f' !! nextIno f = Some n).
  { unfold f', linkedFS. simpl. rewrite lookup_alter_ne by done. by rewrite lookup_insert_eq. }
  assert (Hdn : inodes f' !! did = Some (linkChild name (nextIno f) t now2 d)).
  { unfold f', linkedFS. simpl. rewrite Hid, lookup_alter_eq, lookup_insert_ne by done. by rewrite Hd. }
  assert (Hres : resolve f' (encodeHandle (iID n) (iGen n)) = Ok (nextIno f, n)) by by apply wf_resolve.
  split; [|split; [|split; [|split; [|split]]]].
  - intros j z. rewrite !names_entry. unfold f'. unfold n. rewrite linkedFS_shape by done.
    apply (entry_add _ _ (skel d)); [by apply shape_some|]. rewrite shape_lookup, wf_fresh; [done|done|lia].
  - unfold GetAttr. rewrite Hres. done.
  - unfold n, freshInode, dressInode. simpl. destruct (saUID sa), (saGID sa), t; try destruct (Check _); done.
  - simpl. done.
  - intros c' Hp. unfold Lookup.
    assert (resolve f' dir = Ok (did, linkChild name (nextIno f) t now2 d)) as ->.
    { unfold resolve in *. destruct (decodeHandle dir) as [[k gen]|]; [|done].
      destruct (inodes f !! k) as [m|] eqn:Em; [|done]. destruct (Z.eqb_spec (iGen m) gen) as [Eg|]; [|done].
      injection Hr as -> ->. rewrite Hdn.
      assert (iGen (linkChild name (nextIno f) t now2 d) = iGen d) as -> by (unfold linkChild; by destruct (bool_decide _)).
      destruct (Z.eqb_spec (iGen d) gen); done. }
    assert (HL : objectOf (linkChild name (nextIno f) t now2 d) = objectOf d /\
                 iEntries (linkChild name (nextIno f) t now2 d) = <[name := nextIno f]> (iEntries d))
      by (unfold linkChild; by destruct (bool_decide _)).
    destruct HL as [HL1 HL2]. revert HL1 HL2. generalize (linkChild name (nextIno f) t now2 d). intros L HL1 HL2.
    cbv beta iota delta [res_bind]. unfold checkPerm in *. rewrite HL1, Hp, HL2. destruct (validName_dots name Hv) as [-> ->].
    by rewrite lookup_insert_eq, Hnew.
  - intros h' [j m] Hj Hh. apply (GetAttr_same _ _ _ j m); [done| |done].
    pose proof (resolve_other _ _ _ _ _ _ _ Hr Hj Hh) as Hjd. apply resolve_ok in Hj as (Hj&_&_).
    unfold f', linkedFS. simpl. rewrite lookup_alter_ne, lookup_insert_ne; [done| |done].
    intros <-. rewrite wf_fresh in Hj; [done|done|lia].
Qed.

(** What a removal that succeeds removed, and that its handle is stale. *)
Lemma unlink_gone f c dir name wantDir now f' :
  wf f -> unlink f c dir name wantDir now = (Ok tt, f') ->
  exists did d id n, validName name = None /\ resolve f dir = Ok (did, d) /\ iEntries d !! name = Some id /\ inodes f !! id = Some n /\
    isDir n = wantDir /\ iEntries n = ∅ /\ f' = unlinkedFS f did name id now /\
    GetAttr f' (encodeHandle id (iGen n)) = Err (EStatus ErrStale).
Proof using Type.
  intros Hw E. apply unlink_cases in E as [[? _]|(did&d&id&n&_&Hv&Hr&_&Hx&Hn&Hdir&He&_&->)]; [done|].
  pose proof Hr as Hd. apply resolve_ok in Hd as (Hd&_&_). assert (Hne : id ≠ did) by by eapply wf_entry_ne.
  assert (He' : iEntries n = ∅). { destruct wantDir; [auto|by eapply wf_no_entries]. }
  exists did, d, id, n. do 7 (split; [done|]). unfold GetAttr. rewrite resolve_gone; [done|by eapply wf_u64|by eapply wf_gens|].
  intros m. rewrite (unlinked_inodes f did d name id n now Hw Hd Hx Hn ltac:(done)), decide_True by done. done.
Qed.

(** C15 REMOVE and RMDIR, when they succeed: the name was taken by an object of
    the kind asked for, a directory only if it was empty; exactly that name is
    gone; the removed object's handle answers ESTALE; and every other handle,
    the directory's own apart, answers as before. *)
Theorem unlink_spec f c dir name wantDir now f' did d :
  wf f -> resolve f dir = Ok (did, d) -> unlink f c dir name wantDir now = (Ok tt, f') ->
  exists id n,
    names f did name = Some id /\ inodes f !! id = Some n /\ isDir n = wantDir /\ iEntries n = ∅ /\
    (forall j z, names f' j z = if decide (j = did /\ z = name) then None else names f j z) /\
    GetAttr f' (encodeHandle id (iGen n)) = Err (EStatus ErrStale) /\
    (forall h' r, resolve f h' = Ok r -> h' ≠ dir -> h' ≠ encodeHandle id (iGen n) -> GetAttr f' h' = GetAttr f h').
Proof using Type.
  intros Hw Hr E. apply unlink_gone in E as (did'&d'&id&n&_&Hr'&Hx&Hn&Hdir&He&->&Hgone); [|done].
  assert (did' = did /\ d' = d) as [-> ->] by (rewrite Hr in Hr'; by simplify_eq).
  pose proof Hr as Hd. apply resolve_ok in Hd as (Hd&_&_).
  exists id, n. split; [unfold names; by rewrite Hd|]. split; [done|]. split; [done|]. split; [done|].
  assert (Hne : id ≠ did) by by eapply wf_entry_ne.
  pose proof (unlinked_inodes f did d name id n now Hw Hd Hx Hn ltac:(done)) as Hi.
  split; [|split].
  - intros j z. rewrite !names_entry, (unlinked_shape f did d name id n) by done.
    change (isDir n) with (nDir (skel n)).
    apply (entry_remove _ _ (skel d)); [by apply shape_some|by apply shape_some|done|done].
  - done.
  - intros h' [j m] Hj H1 H2. apply (GetAttr_same _ _ _ j m); [done| |].
    + pose proof (resolve_other _ _ _ _ _ _ _ Hr Hj H1) as Hjd.
      pose proof Hj as Hj'. apply resolve_ok in Hj' as (Hj'&Hh&_).
      rewrite Hi, decide_False, decide_False; [done|done|]. intros ->. congruence.
    + unfold unlinkedFS. simpl. unfold relinkOut, dropOpen. by repeat case_match.
Qed.

Lemma Rename_valid f c fromDir x toDir y now1 now2 now3 f' :
  Rename f c fromDir x toDir y now1 now2 now3 = (Ok tt, f') -> validName x = None /\ validName y = None.
Proof using Type.
  unfold Rename. destruct (mutable f); [done|]. destruct (validName x); [done|]. by destruct (validName y).
Qed.

(** What a rename that succeeds has done. *)
Lemma Rename_does f c fromDir x toDir y now1 now2 now3 f' :
  wf f -> Rename f c fromDir x toDir y now1 now2 now3 = (Ok tt, f') ->
  validName x = None /\ validName y = None /\ exists sid src did dst id moving,
    resolve f fromDir = Ok (sid, src) /\ resolve f toDir = Ok (did, dst) /\
    names f sid x = Some id /\ inodes f !! id = Some moving /\
    (forall j z, names f' j z = if decide (j = did /\ z = y) then Some id
                                else if decide (j = sid /\ z = x) then None else names f j z) /\
    (exists m, resolve f' (encodeHandle id (iGen moving)) = Ok (id, m) /\ iParent m = did) /\
    (forall v victim, names f did y = Some v -> v ≠ id -> inodes f !! v = Some victim ->
       isDir victim = isDir moving /\ iEntries victim = ∅ /\
       GetAttr f' (encodeHandle v (iGen victim)) = Err (EStatus ErrStale)).
Proof using TC.
  intros Hw E. do 2 (split; [by apply Rename_valid in E as [? ?]|]). pose proof (Rename_wf f c fromDir x toDir y now1 now2 now3 Hw) as Hw'. rewrite E in Hw'. simpl in Hw'.
  apply Rename_refines in E as (sid&src&did&dst&id&moving&Hs&Hd&_&Hx&Hm&Hmv&Hrn&_&Ht&_); [|done].
  exists sid, src, did, dst, id, moving.
  pose proof Hs as Hs'. apply resolve_ok in Hs' as (Hs'&_&_). pose proof Hd as Hd'. apply resolve_ok in Hd' as (Hd'&_&_).
  split; [done|]. split; [done|]. split; [unfold names; by rewrite Hs'|]. split; [done|].
  assert (Hnames : forall j z, names f' j z = if decide (j = did /\ z = y) then Some id
                                else if decide (j = sid /\ z = x) then None else names f j z).
  { intros j z. rewrite !names_entry. by apply (renamed_names _ _ _ _ _ _ _ _ _ _ (wf_tree f Hw) Hmv Hrn). }
  split; [done|]. split.
  - destruct (renamed_keeps _ _ _ _ _ _ _ _ id (skel moving) (wf_tree f Hw) Hmv Hrn) as [m' Hm'];
      [by apply shape_some|done|].
    rewrite shape_lookup in Hm'. destruct (inodes f' !! id) as [m|] eqn:E; [|done].
    destruct (Ht id m E) as (m0&Hm0&Hg&_). assert (m0 = moving) as -> by congruence. exists m. split.
    + rewrite <- Hg, <- (wf_id f' id m Hw' E) at 1. by apply wf_resolve.
    + specialize (Hnames did y). rewrite decide_True in Hnames by done. unfold names in Hnames.
      destruct (inodes f' !! did) as [dn|] eqn:Ed; [|done]. simpl in Hnames.
      destruct (wf_entry f' did dn y id Hw' Ed Hnames) as (_&_&n&Hn&Hp). congruence.
  - intros v victim Hv Hne Hvi. rewrite names_entry in Hv. unfold renamed in Hrn. rewrite Hv, decide_False in Hrn by done.
    destruct Hrn as (vn&Hvn&Hve&Hvd&Hsh). rewrite (shape_some f v victim Hvi) in Hvn. injection Hvn as <-.
    split; [done|]. split; [done|]. unfold GetAttr. rewrite resolve_gone; [done|exact (wf_u64 f v victim Hw Hvi)|exact (wf_gens f Hw v victim Hvi)|].
    intros m Hm'. apply shape_some in Hm'. rewrite Hsh, t_move_lookup in Hm'.
    unfold t_remove in Hm'. by rewrite lookup_delete_eq in Hm'.
Qed.

(** C13 RENAME, when it succeeds: exactly the two names change, the target now
    standing for the object the source stood for; that object keeps its handle,
    and its Parent is the target directory; an object the target stood for
    before is an empty directory replaced by a directory or a file replaced by
    a file, and its handle answers ESTALE. *)
Theorem Rename_spec f c fromDir x toDir y now1 now2 now3 f' :
  wf f -> Rename f c fromDir x toDir y now1 now2 now3 = (Ok tt, f') ->
  exists sid src did dst id moving,
    resolve f fromDir = Ok (sid, src) /\ resolve f toDir = Ok (did, dst) /\
    names f sid x = Some id /\ inodes f !! id = Some moving /\
    (forall j z, names f' j z = if decide (j = did /\ z = y) then Some id
                                else if decide (j = sid /\ z = x) then None else names f j z) /\
    (exists m, resolve f' (encodeHandle id (iGen moving)) = Ok (id, m) /\ iParent m = did) /\
    (forall v victim, names f did y = Some v -> v ≠ id -> inodes f !! v = Some victim ->
       isDir victim = isDir moving /\ iEntries victim = ∅ /\
       GetAttr f' (encodeHandle v (iGen victim)) = Err (EStatus ErrStale)).
Proof using TC. intros Hw E. by apply Rename_does in E as (_&_&H). Qed.

(** The walk RENAME makes along Parent before it moves a directory decides,
    within its own bound on the number of steps, whether the destination is the
    directory itself or lies below it. *)
Theorem isAncestor_decides f a id :
  wf f -> is_Some (inodes f !! id) -> isAncestor f a id = true <-> above (shape f) a id.
Proof using Type. apply isAncestor_above. Qed.

(** C37 A client that reads a directory page by page, each page from the cookie
    of the last entry of the page before and with its verifier, finishes after
    at most one request per line of the listing, whatever byte budget it asks
    with, and has then received ".", ".." and every name of the directory
    exactly once, in order, each with the number of the inode it stands for. *)
Theorem ReadDir_pages_complete f c dir did d max plus :
  wf f -> resolve f dir = Ok (did, d) -> checkPerm OpReadDir c d = None -> blen (listing d) < 2 ^ 64 ->
  exists es, readAll (S (length (listing d))) f c dir 0 (zeros 8) max plus = Ok es /\
    map deName es = "." :: ".." :: sortedNames d /\
    (forall x, x ∈ sortedNames d <-> is_Some (names f did x)) /\
    Sorted strLe (sortedNames d) /\ NoDup (sortedNames d) /\
    map deFileID es = did :: (if iParent d =? 0 then 1 else iParent d) ::
      map (fun x => default 0 (names f did x)) (sortedNames d).
Proof using Type.
  intros Hw Hr Hp Hl. pose proof Hr as Hd. apply resolve_ok in Hd as (Hd&_&_).
  pose proof (listing_present f did d Hw Hd) as Hall. exists (entriesFrom f plus (listing d) 0).
  assert (Hnm : forall x, names f did x = iEntries d !! x) by (intros x; unfold names; by rewrite Hd).
  split; [|split; [|split; [|split; [|split]]]].
  - rewrite (readAll_from f c dir did d max plus Hw Hr Hp Hl); [done|unfold blen; lia|auto|unfold blen; lia].
  - rewrite entriesFrom_names by done. unfold listing. simpl. do 2 f_equal. rewrite map_map. simpl. apply map_id.
  - intros x. rewrite Hnm. apply sortedNames_elem.
  - apply sortedNames_sorted.
  - apply sortedNames_nodup.
  - rewrite entriesFrom_ids by done. unfold listing. simpl. rewrite (wf_id f did d Hw Hd). do 2 f_equal.
    rewrite map_map. simpl. apply map_ext. intros x. rewrite Hnm. by destruct (iEntries d !! x).
Qed.

End Spec.

(** ** Witnesses *)

Lemma operations_keep_tree_witness : wf (@run Unix demoOps demo) /\ names demoTree 1 "c" = Some 3.
Proof.
  split; [|run_it].
  exact (@operations_keep_tree Unix _ demoOps demo demo_wf ltac:(run_it)).
Defined.

Lemma refused_changes_nothing_witness :
  (@perform Unix demo (NMkdir stranger rootHandle "a" noSetAttr 1 2)).2 = demo.
Proof. apply (@refused_changes_nothing Unix demo (NMkdir stranger rootHandle "a" noSetAttr 1 2)). run_reply. Defined.

Definition made : result (Handle * Attr) * FS := @Create Unix demo owner rootHandle "f" noSetAttr true 5 6.

(** An inode of a mount, and the handle that resolves to it. *)
Definition inodeAt (f : FS) (id : Z) : inode := default (rootInode 0 0 0) (inodes f !! id).

Lemma resolve_at f h id gen :
  decodeHandle h = Some (id, gen) -> is_ok (resolve f h) = true -> resolve f h = Ok (id, inodeAt f id).
Proof.
  unfold resolve, inodeAt. intros ->. destruct (inodes f !! id) as [n|]; [|done]. by destruct (iGen n =? gen).
Qed.

Lemma create_spec_witness : names made.2 1 "f" = Some 2.
Proof.
  assert (Hrun : @Create Unix demo owner rootHandle "f" noSetAttr true 5 6 =
    (Ok (encodeHandle 2 5, attr (fsid demo) (@freshInode Unix demo owner TypeReg noSetAttr "" (rootInode 1000 1000 7) 5)), made.2)) by run_reply.
  destruct (@create_spec Unix _ demo owner rootHandle "f" TypeReg noSetAttr "" true 5 6 _ _
    made.2 1 (inodeAt demo 1) demo_wf ltac:(run_it) (resolve_at demo rootHandle 1 1 eq_refl ltac:(run_it)) ltac:(run_it) Hrun) as [H _].
  rewrite H. run_it.
Defined.

Lemma demoTree_wf : wf demoTree.
Proof. apply run_wf_aux; [exact demo_wf|run_it]. Qed.

Definition unlinkedTree : result unit * FS := @unlink Unix demoTree owner rootHandle "c" false 20.

Lemma unlink_spec_witness :
  @unlink Unix demoTree owner rootHandle "c" false 20 = (Ok tt, unlinkedTree.2) /\ names unlinkedTree.2 1 "c" = None.
Proof.
  assert (Hrun : @unlink Unix demoTree owner rootHandle "c" false 20 = (Ok tt, unlinkedTree.2)) by run_reply.
  split; [exact Hrun|].
  destruct (@unlink_spec Unix demoTree owner rootHandle "c" false 20 unlinkedTree.2 1 (inodeAt demoTree 1) demoTree_wf
    (resolve_at demoTree rootHandle 1 1 eq_refl ltac:(run_it)) Hrun) as (id&n&_&_&_&_&H&_&_).
  exact (H 1 "c").
Defined.

Definition movedTree : result unit * FS := @Rename Unix demoTree owner rootHandle "c" (encodeHandle 2 11) "d" 21 22 23.

Lemma Rename_spec_witness :
  @Rename Unix demoTree owner rootHandle "c" (encodeHandle 2 11) "d" 21 22 23 = (Ok tt, movedTree.2) /\
    exists did id, names movedTree.2 did "d" = Some id.
Proof.
  assert (Hrun : @Rename Unix demoTree owner rootHandle "c" (encodeHandle 2 11) "d" 21 22 23 = (Ok tt, movedTree.2)) by run_reply.
  split; [exact Hrun|].
  destruct (@Rename_spec Unix _ demoTree owner rootHandle "c" (encodeHandle 2 11) "d" 21 22 23 movedTree.2 demoTree_wf Hrun)
    as (sid&src&did&dst&id&moving&_&_&_&_&H&_).
  exists did, id. rewrite (H did "d"), decide_True; [reflexivity|split; reflexivity].
Defined.

Lemma isAncestor_decides_witness : above (shape demoTree) 1 2 /\ ~ above (shape demoTree) 2 1.
Proof.
  assert (Hin : forall id, bool_decide (is_Some (inodes demoTree !! id)) = true -> is_Some (inodes demoTree !! id)) by (intros id; apply bool_decide_eq_true).
  split.
  - apply (isAncestor_decides demoTree 1 2 demoTree_wf); [apply Hin; run_it|run_it].
  - intros H. apply (isAncestor_decides demoTree 2 1 demoTree_wf) in H; [|apply Hin; run_it].
    assert (E : isAncestor demoTree 2 1 = false) by run_it. congruence.
Defined.

Lemma ReadDir_pages_complete_witness :
  exists es, @readAll Unix (S (length (listing (inodeAt demoTree 1)))) demoTree owner rootHandle 0 (zeros 8) 0 true = Ok es /\
    map deName es = "." :: ".." :: sortedNames (inodeAt demoTree 1).
Proof.
  destruct (@ReadDir_pages_complete Unix demoTree owner rootHandle 1 (inodeAt demoTree 1) 0 true demoTree_wf
    (resolve_at demoTree rootHandle 1 1 eq_refl ltac:(run_it)) ltac:(run_it) ltac:(run_it)) as (es&H&Hn&_).
  exists es. split; [exact H|exact Hn].
Defined.

(** The listing is not empty: two entries, one a directory. *)
Example demoTree_names : sortedNames (inodeAt demoTree 1) = ["a"; "c"].
Proof. run_it. Qed.
