(* ===== verification/Drops.v ===== *)
(** * What a namespace operation does to FS.open

    An operation looks at neither FS.open nor the budget: on an FS that differs
    there it answers the same and leaves the same tables, but for the one entry
    it may drop, that of the inode it removed, whose charge it releases. *)

From S2P Require Import Prelude Vfs Modes Policy Inode ChunkCache Budget Store FsState Tree Namespace NamespaceInv.

(** [f] with another table of buffers and another budget. *)
Definition twin (o : gmap Z openFile) (b : Budget.budget) (f : FS) : FS := set_budget b (set_open o f).

Definition without (x : option Z) (o : gmap Z openFile) : gmap Z openFile :=
  match x with Some id => delete id o | None => o end.

Definition released (x : option Z) (o : gmap Z openFile) (b : Budget.budget) : Budget.budget :=
  match x with
  | Some id => match o !! id with Some u => Budget.release (ofBytes u) b | None => b end
  | None => b
  end.

(** [x] is the inode [f'] has lost of [f]. *)
Definition lost (f f' : FS) (x : option Z) : Prop :=
  (forall id, x = Some id -> is_Some (inodes f !! id) /\ inodes f' !! id = None) /\
  (forall id, is_Some (inodes f !! id) -> inodes f' !! id = None -> x = Some id).

(** [g] run on an FS with other buffers. *)
Definition blind {A} (g : FS -> A * FS) (f : FS) : Prop :=
  exists x, lost f (g f).2 x /\ forall o b, g (twin o b f) = ((g f).1, twin (without x o) (released x o b) (g f).2).

Lemma lost_none f f' : (forall id, is_Some (inodes f !! id) -> is_Some (inodes f' !! id)) -> lost f f' None.
Proof. intros H. split; [done|]. intros id Hi Hn. destruct (H id Hi). congruence. Qed.

Lemma lost_refl f : lost f f None.
Proof. by apply lost_none. Qed.

(** Tables with the same inodes. *)
Definition sameDom (m m' : gmap Z inode) : Prop := forall id, is_Some (m' !! id) <-> is_Some (m !! id).

Lemma sameDom_alter g id m : sameDom m (alter g id m).
Proof. intros j. rewrite lookup_alter. case_decide; [subst; by rewrite fmap_is_Some|done]. Qed.

Lemma sameDom_trans m m1 m2 : sameDom m m1 -> sameDom m1 m2 -> sameDom m m2.
Proof. intros H1 H2 id. rewrite (H2 id). apply H1. Qed.

Lemma sameDom_refl m : sameDom m m.
Proof. done. Qed.

#[local] Hint Resolve sameDom_alter sameDom_refl : core.

Lemma relink_dom nid from to m : sameDom m (relink nid from to m).1.
Proof.
  unfold relink. destruct (m !! nid) as [n|]; [|done]. destruct to as [to|]; [destruct (_ && _)|destruct (isDir n); [|destruct (0 <? _)]]; simpl; try done; eauto using sameDom_trans.
Qed.

Lemma relinkOut_blind nid from f : is_Some (inodes f !! nid) ->
  exists x, lost f (relinkOut nid from f) x /\ nextIno (relinkOut nid from f) = nextIno f /\
    forall o b, relinkOut nid from (twin o b f) = twin (without x o) (released x o b) (relinkOut nid from f).
Proof.
  intros Hn. unfold relinkOut. change (inodes (twin _ _ f)) with (inodes f).
  pose proof (relink_dom nid from None (inodes f)) as Hd. destruct (relink nid from None (inodes f)) as [m gone]. simpl in Hd.
  destruct gone.
  - exists (Some nid). assert (Hi : inodes (dropOpen nid (set_inodes (delete nid m) (set_inodes m f))) = delete nid m).
    { unfold dropOpen. simpl. by destruct (open f !! nid). }
    simpl. split; [|split; [unfold dropOpen; simpl; by destruct (open f !! nid)|]].
    + split; rewrite Hi.
      * intros id [= <-]. by rewrite lookup_delete_eq.
      * intros id Hs Hl. f_equal. apply lookup_delete_None in Hl as [?|Hl]; [done|]. apply Hd in Hs as [? ?]. congruence.
    + intros o b. unfold dropOpen, twin. simpl. by destruct (o !! nid), (open f !! nid).
  - exists None. simpl. split; [apply lost_none; simpl; intros id; by apply Hd|done].
Qed.

Section Ops.
Context {P : Policy}.

Lemma createEntry_blind c dir name t sa target excl now1 now2 f :
  blind (fun f => createEntry f c dir name t sa target excl now1 now2) f.
Proof using Type.
  assert (Hsame : forall o b, createEntry (twin o b f) c dir name t sa target excl now1 now2 =
    let (r, g) := createEntry f c dir name t sa target excl now1 now2 in (r, twin o b g)).
  { intros o b. unfold createEntry. change (mutable (twin o b f)) with (mutable f). destruct (mutable f); [done|].
    destruct (validName name); [done|]. change (tooBig (twin o b f) t sa) with (tooBig f t sa). destruct (tooBig f t sa); [done|].
    change (resolve (twin o b f) dir) with (resolve f dir). destruct (resolve f dir) as [[did d]|]; [|done].
    destruct (checkPerm OpAddEntry c d); [done|]. destruct (iEntries d !! name) as [ex|]; [|done].
    destruct (_ && _); [|done]. change (inodes (twin o b f)) with (inodes f). destruct (inodes f !! ex) as [n|]; [|done]. by destruct (isDir n). }
  exists None. simpl. split.
  - apply lost_none. intros id Hid. clear Hsame. unfold createEntry. destruct (mutable f); [done|]. destruct (validName name); [done|].
    destruct (tooBig f t sa); [done|]. destruct (resolve f dir) as [[did d]|]; [|done]. destruct (checkPerm OpAddEntry c d); [done|].
    destruct (iEntries d !! name) as [ex|].
    + destruct (_ && _); [|done]. destruct (inodes f !! ex) as [n|]; [|done]. by destruct (isDir n).
    + simpl. apply (sameDom_alter _ _ (alter _ _ _)), (sameDom_alter _ _ (<[_ := _]> _)). rewrite lookup_insert. case_decide; [by eauto|done].
  - intros o b. rewrite Hsame. by destruct (createEntry f c dir name t sa target excl now1 now2).
Qed.

(** Past its checks an operation is a change of the tables around at most one
    removal. *)
Lemma blind_out {A} (a : A) nid from (pre post : FS -> FS) f :
  (forall f, sameDom (inodes f) (inodes (pre f))) -> (forall f, sameDom (inodes f) (inodes (post f))) ->
  (forall o b f, pre (twin o b f) = twin o b (pre f)) -> (forall o b f, post (twin o b f) = twin o b (post f)) ->
  is_Some (inodes f !! nid) ->
  exists x, lost f (post (relinkOut nid from (pre f))) x /\
    forall o b, (a, post (relinkOut nid from (pre (twin o b f)))) =
      (a, twin (without x o) (released x o b) (post (relinkOut nid from (pre f)))).
Proof using Type.
  intros Hd1 Hd2 Ht1 Ht2 Hn. destruct (relinkOut_blind nid from (pre f)) as (x&[L1 L2]&_&Hx); [by apply Hd1|].
  exists x. split.
  - split.
    + intros id Hid. destruct (L1 id Hid) as [H1 H2]. split; [by apply Hd1|]. apply eq_None_not_Some. intros Hs%(proj1 (Hd2 _ _)). destruct Hs. congruence.
    + intros id Hid Hl. apply L2; [by apply Hd1|]. apply eq_None_not_Some. intros Hs%(proj2 (Hd2 _ _)). destruct Hs. congruence.
  - intros o b. by rewrite Ht1, Hx, Ht2.
Qed.

(** The checks of [unlink], which find the directory and the inode to remove. *)
Definition unlinkPlan (c : Caller) (dir : Handle) (name : string) (wantDir : bool) (f : FS) : error + Z * Z :=
  match mutable f with Some e => inl e | None =>
  match validName name with Some e => inl e | None =>
  match resolve f dir with Err e => inl e | Ok (did, d) =>
  match checkPerm OpRemoveEntry c d with Some e => inl e | None =>
  match iEntries d !! name with None => inl (EStatus ErrNoEnt) | Some id =>
  match inodes f !! id with None => inl (EStatus ErrNoEnt) | Some n =>
  if wantDir && negb (isDir n) then inl (EStatus ErrNotDir)
  else if negb wantDir && isDir n then inl (EStatus ErrIsDir)
  else if wantDir && negb (bool_decide (iEntries n = ∅)) then inl (EStatus ErrNotEmpty)
  else inr (did, id)
  end end end end end end.

Lemma unlink_plan c dir name wantDir now f :
  unlink f c dir name wantDir now =
    match unlinkPlan c dir name wantDir f with
    | inl e => (Err e, f)
    | inr (did, id) => (Ok tt, markDirty (relinkOut id did (upd did (fun d => touchM now (set_iEntries (delete name (iEntries d)) d)) f)))
    end.
Proof using Type. unfold unlink, unlinkPlan. by repeat case_match. Qed.

Lemma unlinkPlan_found c dir name wantDir f did id : unlinkPlan c dir name wantDir f = inr (did, id) -> is_Some (inodes f !! id).
Proof using Type. unfold unlinkPlan. repeat case_match; try done. intros [= <- <-]. eauto. Qed.

Lemma unlink_blind c dir name wantDir now f : blind (fun f => unlink f c dir name wantDir now) f.
Proof using Type.
  unfold blind. pose proof (fun o b => unlink_plan c dir name wantDir now (twin o b f)) as Ht.
  change (forall o b, unlink (twin o b f) c dir name wantDir now = match unlinkPlan c dir name wantDir f with
    | inl e => (Err e, twin o b f)
    | inr (did, id) => (Ok tt, markDirty (relinkOut id did (upd did (fun d => touchM now (set_iEntries (delete name (iEntries d)) d)) (twin o b f))))
    end) in Ht.
  rewrite unlink_plan. destruct (unlinkPlan c dir name wantDir f) as [e|[did id]] eqn:E.
  { exists None. split; [apply lost_refl|]. intros o b. apply Ht. }
  destruct (blind_out (Ok tt : result unit) id did (upd did (fun d => touchM now (set_iEntries (delete name (iEntries d)) d))) markDirty f) as (x&Hl&Hx);
    [intros g; apply sameDom_alter|done|done|done|by eapply unlinkPlan_found|].
  exists x. split; [done|]. intros o b. rewrite Ht. apply Hx.
Qed.

(** The checks of [Rename]: nothing to do, or the inode and its directories, the
    number of the new parent, and the inode it replaces. *)
Definition renamePlan (c : Caller) (fromDir : Handle) (fromName : string) (toDir : Handle) (toName : string) (f : FS)
  : error + option (Z * Z * Z * Z * option Z) :=
  match mutable f with Some e => inl e | None =>
  match validName fromName with Some e => inl e | None =>
  match validName toName with Some e => inl e | None =>
  match resolve f fromDir with Err e => inl e | Ok (sid, src) =>
  match resolve f toDir with Err e => inl e | Ok (did, dst) =>
  match Check (mkRequest OpRename c (objectOf src) (objectOf dst) 0 0) with Some e => inl e | None =>
  match iEntries src !! fromName with None => inl (EStatus ErrNoEnt) | Some id =>
  match inodes f !! id with None => inl (EStatus ErrNoEnt) | Some moving =>
  if isDir moving && isAncestor f id (iID dst) then inl (EStatus ErrInval)
  else
    match iEntries dst !! toName with
    | None => inr (Some (id, sid, did, iID dst, None))
    | Some victimID =>
        if victimID =? id then inr None
        else
          match inodes f !! victimID with
          | None => inr (Some (id, sid, did, iID dst, None))
          | Some victim =>
              match victimRefusal victim moving with
              | Some e => inl e
              | None => inr (Some (id, sid, did, iID dst, Some victimID))
              end
          end
    end
  end end end end end end end end.

Definition renameBy (plan : error + option (Z * Z * Z * Z * option Z)) (fromName toName : string) (now1 now2 now3 : Z) (f : FS)
  : result unit * FS :=
  match plan with
  | inl e => (Err e, f)
  | inr None => (Ok tt, f)
  | inr (Some (id, sid, did, dst, victim)) =>
      let move := moveEntry id sid did fromName toName dst now1 now2 now3 in
      (Ok tt, move match victim with Some v => relinkOut v did f | None => f end)
  end.

Lemma Rename_plan c fromDir fromName toDir toName now1 now2 now3 f :
  Rename f c fromDir fromName toDir toName now1 now2 now3 =
    renameBy (renamePlan c fromDir fromName toDir toName f) fromName toName now1 now2 now3 f.
Proof using Type. unfold Rename, renameBy, renamePlan. by repeat case_match. Qed.

Lemma renamePlan_found c fromDir fromName toDir toName f id sid did dst v :
  renamePlan c fromDir fromName toDir toName f = inr (Some (id, sid, did, dst, Some v)) -> is_Some (inodes f !! v).
Proof using Type. unfold renamePlan. repeat case_match; try done. intros [= <- <- <- <- <-]. eauto. Qed.

Lemma moveEntry_dom id sid did x y dst t1 t2 t3 f : sameDom (inodes f) (inodes (moveEntry id sid did x y dst t1 t2 t3 f)).
Proof using Type.
  unfold moveEntry. simpl. do 3 (eapply sameDom_trans; [|apply sameDom_alter]).
  eapply sameDom_trans; [|apply relink_dom]. eapply sameDom_trans; apply sameDom_alter.
Qed.

Lemma Rename_blind c fromDir fromName toDir toName now1 now2 now3 f :
  blind (fun f => Rename f c fromDir fromName toDir toName now1 now2 now3) f.
Proof using Type.
  unfold blind. pose proof (fun o b => Rename_plan c fromDir fromName toDir toName now1 now2 now3 (twin o b f)) as Ht.
  change (forall o b, Rename (twin o b f) c fromDir fromName toDir toName now1 now2 now3 =
    renameBy (renamePlan c fromDir fromName toDir toName f) fromName toName now1 now2 now3 (twin o b f)) in Ht.
  rewrite Rename_plan. destruct (renamePlan c fromDir fromName toDir toName f) as [e|[[[[[id sid] did] dst] [v|]]|]] eqn:E; simpl in *.
  - exists None. split; [apply lost_refl|done].
  - destruct (blind_out (Ok tt : result unit) v did (fun f => f) (moveEntry id sid did fromName toName dst now1 now2 now3) f) as (x&Hl&Hx);
      [done|apply moveEntry_dom|done|done|by eapply renamePlan_found|].
    exists x. split; [done|]. intros o b. rewrite Ht. apply Hx.
  - exists None. split; [apply lost_none; intros j; by apply moveEntry_dom|done].
  - exists None. split; [apply lost_refl|done].
Qed.

Lemma setAttrNoSize_blind c h sa now f : blind (fun f => setAttrNoSize f c h sa now) f.
Proof using Type.
  exists None. unfold setAttrNoSize. change (resolve (twin ?o ?b f) h) with (resolve f h). split.
  - apply lost_none. intros id Hid. destruct (resolve f h) as [[k n]|]; [|done]. destruct (setAttrRequests c n sa); [done|].
    destruct (applySetAttr n sa now) as [n' []]; simpl; by apply sameDom_alter.
  - intros o b. change (resolve (twin o b f) h) with (resolve f h). destruct (resolve f h) as [[k n]|]; [|done].
    destruct (setAttrRequests c n sa); [done|]. by destruct (applySetAttr n sa now) as [n' []].
Qed.

(** Every operation. *)
Lemma perform_blind op f : blind (fun f => perform f op) f.
Proof using Type.
  assert (Hmap : forall A (g : FS -> result A * FS), blind g f -> blind (fun f => let (r, f') := g f in (is_ok r, f')) f).
  { intros A g (x&Hl&Hx). exists x. split; [by destruct (g f)|]. intros o b. rewrite Hx. by destruct (g f). }
  destruct op; simpl; apply Hmap.
  - apply createEntry_blind.
  - apply createEntry_blind.
  - unfold Symlink. destruct (String.eqb target ""); [exists None; split; [apply lost_refl|done]|apply createEntry_blind].
  - apply unlink_blind.
  - apply unlink_blind.
  - apply Rename_blind.
  - apply setAttrNoSize_blind.
Qed.

End Ops.
