(* ===== verification/Effects.v ===== *)
(** * Effects

    The code of the data path and of the commit protocol is written in [act]: a
    state monad over the mount's state and the store's world, with Go's error
    results. An error does not undo the state changes made before it. *)

From S2P Require Import Prelude Vfs Inode ChunkCache Budget Store FsState.

Definition act (W A : Type) : Type := FS * W -> result A * (FS * W).

Definition ret {W A} (a : A) : act W A := fun s => (Ok a, s).
Definition fail {W A} (e : error) : act W A := fun s => (Err e, s).

Definition bind {W A B} (m : act W A) (k : A -> act W B) : act W B := fun s =>
  match m s with
  | (Ok a, s) => k a s
  | (Err e, s) => (Err e, s)
  end.

Notation "'let!' x := m 'in' k" := (bind m (fun x => k))
  (at level 10, x pattern, m at level 100, k at level 200) : strata_scope.

(** The result of a call whose error the code handles itself. *)
Definition attempt {W A} (m : act W A) : act W (result A) := fun s => let (r, s) := m s in (Ok r, s).

(** Return a result computed without effects. *)
Definition answer {W A} (r : result A) : act W A := fun s => (r, s).

Definition getFS {W} : act W FS := fun s => (Ok s.1, s).
Definition modFS {W} (g : FS -> FS) : act W unit := fun s => (Ok tt, (g s.1, s.2)).

(** A function of the mount's state that also changes it. *)
Definition onFS {W A} (g : FS -> A * FS) : act W A := fun s => let (a, f) := g s.1 in (Ok a, (f, s.2)).

(** A call on the store. *)
Definition onStore {W A} (m : W -> result A * W) : act W A := fun s => let (r, w) := m s.2 in (r, (s.1, w)).

Fixpoint forEach {W A B} (l : list A) (k : A -> act W B) : act W (list B) :=
  match l with
  | [] => ret []
  | a :: l => let! b := k a in let! bs := forEach l k in ret (b :: bs)
  end.

Fixpoint forEach_ {W A} (l : list A) (k : A -> act W unit) : act W unit :=
  match l with
  | [] => ret tt
  | a :: l => let! _ := k a in forEach_ l k
  end.

(** ** Reasoning *)

Lemma bind_inv {W A B} (m : act W A) (k : A -> act W B) s r s' :
  bind m k s = (r, s') ->
  (exists a s1, m s = (Ok a, s1) /\ k a s1 = (r, s')) \/ (exists e, m s = (Err e, s') /\ r = Err e).
Proof.
  unfold bind. destruct (m s) as [[a|e] s1]; intros H.
  - left. eauto.
  - right. injection H as <- <-. eauto.
Qed.

Lemma bind_ok {W A B} (m : act W A) (k : A -> act W B) s a s1 :
  m s = (Ok a, s1) -> bind m k s = k a s1.
Proof. intros H. unfold bind. by rewrite H. Qed.

(** [holds I m]: [m] keeps [I], whether it fails or not. *)
Definition keeps {W A} (I : FS * W -> Prop) (m : act W A) : Prop := forall s, I s -> I (m s).2.

Section Keeps.
Context {W : Type} (I : FS * W -> Prop).

Lemma keeps_ret {A} (a : A) : keeps I (ret a).
Proof. by intros s. Qed.

Lemma keeps_fail {A} e : keeps I (@fail W A e).
Proof. by intros s. Qed.

Lemma keeps_answer {A} (r : result A) : keeps I (answer r).
Proof. by intros s. Qed.

Lemma keeps_getFS : keeps I getFS.
Proof. by intros s. Qed.

Lemma keeps_bind {A B} (m : act W A) (k : A -> act W B) :
  keeps I m -> (forall a, keeps I (k a)) -> keeps I (bind m k).
Proof.
  intros Hm Hk s Hs. unfold bind. specialize (Hm s Hs). destruct (m s) as [[a|e] s1]; [by apply Hk|done].
Qed.

Lemma keeps_attempt {A} (m : act W A) : keeps I m -> keeps I (attempt m).
Proof. intros Hm s Hs. unfold attempt. specialize (Hm s Hs). by destruct (m s). Qed.

Lemma keeps_forEach {A B} (l : list A) (k : A -> act W B) :
  (forall a, a ∈ l -> keeps I (k a)) -> keeps I (forEach l k).
Proof.
  induction l as [|a l IH]; intros Hk; simpl; [apply keeps_ret|].
  apply keeps_bind; [apply Hk, list_elem_of_here|]. intros b.
  apply keeps_bind; [apply IH; intros; apply Hk; by right|]. intros; apply keeps_ret.
Qed.

Lemma keeps_forEach_ {A} (l : list A) (k : A -> act W unit) :
  (forall a, a ∈ l -> keeps I (k a)) -> keeps I (forEach_ l k).
Proof.
  induction l as [|a l IH]; intros Hk; simpl; [apply keeps_ret|].
  apply keeps_bind; [apply Hk, list_elem_of_here|]. intros b. apply IH. intros; apply Hk; by right.
Qed.

End Keeps.

#[export] Hint Resolve keeps_ret keeps_fail keeps_answer keeps_getFS keeps_bind keeps_attempt
  keeps_forEach keeps_forEach_ : strata.
