(* ===== verification/Data.v ===== *)
(** * The data path (internal/blobfs/fs.go)

    Chunks, the read path, buffered writes, truncation and flushing. A chunk is
    named by the SHA-256 of its bytes: [Digest] stands for crypto/sha256, with
    the collision freedom the design rests on stated as the existence of
    [unsha]. [RunOrder] stands for the order in which the runtime ranges over a
    map, and [growslice] for the capacity it gives a slice that append must
    move. *)

From stdpp Require Import sorting.
From S2P Require Import Prelude Vfs Modes Policy Inode ChunkCache Budget Store FsState Namespace Effects.

(** SHA-256 in letters and digits, with the bytes each digest is the digest of. *)
Class Digest := {
  sha : bytes -> string;
  unsha : string -> bytes;
  unsha_sha : forall d, unsha (sha d) = d;
  sha_nonempty : forall d, sha d ≠ "";
  sha_word : forall d, wordText (sha d) = true
}.

Class RunOrder := {
  ranged : gset Z -> list Z;
  ranged_perm : forall X, ranged X ≡ₚ elements X;
  growslice : Z -> Z -> Z;
  growslice_fits : forall oldCap newLen, newLen <= growslice oldCap newLen
}.

Section Data.
Context {W : Type} {St : Store W} {Dg : Digest} {Ro : RunOrder} {P : Policy}.

(** ** Chunks *)

Definition chunkKey (hash : string) : string := chunkPrefix +:+ hash.

Definition markKnown (hash : string) : act W unit :=
  modFS (fun f => set_knownChunks ({[ hash ]} ∪ knownChunks f) f).

Definition isKnown (f : FS) (hash : string) : bool := bool_decide (hash ∈ knownChunks f).

Definition cacheGet (hash : string) : act W (option bytes) :=
  onFS (fun f => let (c, d) := ChunkCache.get (cache f) hash in (d, set_cache c f)).

Definition cachePut (hash : string) (data : bytes) : act W unit :=
  modFS (fun f => set_cache (ChunkCache.put (cache f) hash data) f).

Definition loadChunk (ref : chunkRef) : act W bytes :=
  if isHole ref then ret (zeros (cSize ref))
  else
    let! hit := cacheGet (cHash ref) in
    match hit with
    | Some data => ret data
    | None =>
        let! got := attempt (onStore (Get (chunkKey (cHash ref)))) in
        match got with
        | Err e =>
            if errIs e ErrNotFound then fail (EStatus ErrIO)
            else fail (EWrap "read chunk" e)
        | Ok data =>
            let! f := getFS in
            if negb (skipVerify (cf f)) && negb (String.eqb (sha data) (cHash ref))
            then fail (EWrap "chunk failed verification" (EStatus ErrIO))
            else
              let! _ := cachePut (cHash ref) data in
              let! _ := markKnown (cHash ref) in
              ret data
        end
    end.

Definition putChunk (data : bytes) : act W chunkRef :=
  let hash := sha data in
  let ref := mkChunkRef hash (u32 (blen data)) in
  let! f := getFS in
  if isKnown f hash then ret ref
  else
    let! probe := attempt (onStore (Head (chunkKey hash))) in
    match probe with
    | Ok _ => let! _ := markKnown hash in ret ref
    | Err _ =>
        let! put := attempt (onStore (Put (chunkKey hash) data)) in
        match put with
        | Err e => if errIs e ErrUnsupported then fail (EStatus ErrROFS) else fail (EWrap "write chunk" e)
        | Ok _ => let! _ := markKnown hash in let! _ := cachePut hash data in ret ref
        end
    end.

(** ** Reading *)

Definition readable (f : FS) (c : Caller) (h : Handle) : result (Z * inode) :=
  let? (id, n) := resolve f h in
  match checkPerm OpRead c n with Some e => Err e | None => Ok (id, n) end.

Record readRef := mkReadRef { rrIdx : Z; rrRef : chunkRef; rrTrim : option Z }.

Definition readEnd (off size count : Z) : Z := if count <? size - off then off + count else size.

(** The indices from that of [off] to that of [end-1], below [bound]. *)
Definition touched (cs off end_ bound : Z) : list Z :=
  seqZ (off / cs) (Z.min ((end_ - 1) / cs + 1) bound - off / cs).

Definition readRefs (cs : Z) (n : inode) (dirty : gmap Z buf) (trims : gmap Z trimReq) (off end_ : Z) : list readRef :=
  if end_ <=? off then []
  else omap (fun idx =>
    match dirty !! idx, iChunks n !! Z.to_nat idx with
    | Some _, _ => None
    | None, None => None
    | None, Some ref =>
        if isHole ref then None
        else match trims !! idx with
             | None => Some (mkReadRef idx ref None)
             | Some t =>
                 let base := idx * cs in
                 let within := if base <? off then off - base else 0 in
                 if tTo t <=? within then None else Some (mkReadRef idx ref (Some (tTo t)))
             end
    end) (touched cs off end_ (blen (iChunks n))).

(** [readSpan]: the offset into the chunk, and the bounds of the part of [out]
    it fills. *)
Definition readSpan (cs off end_ idx : Z) : Z * Z * Z :=
  let base := idx * cs in
  let lo := if base <? off then off else base in
  let hi := if cs <? end_ - base then base + cs else end_ in
  (lo - base, lo - off, hi - off).

(** [within, dst := readSpan(...); if within < len(data) { copy(dst, data[within:]) }]. *)
Definition fillSpan (cs off end_ idx : Z) (data out : bytes) : bytes :=
  let '(within, lo, hi) := readSpan cs off end_ idx in
  if within <? blen data then copy_into out lo hi (bdrop within data) else out.

(** The buffered parts of the range, copied into a reply of zeros. *)
Definition copyDirty (cs off end_ : Z) (o : openFile) : bytes :=
  let out := zeros (end_ - off) in
  if off <? end_ then
    fold_left (fun out idx =>
      match ofDirty o !! idx with
      | None => out
      | Some b => fillSpan cs off end_ idx (bData b) out
      end) (touched cs off end_ ((end_ - 1) / cs + 1)) out
  else out.

Definition readBuffered (f : FS) (c : Caller) (h : Handle) (o : openFile) (off count : Z)
  : result (Z * Z * bytes * list readRef) :=
  let? (_, n) := readable f c h in
  let size := iSize n in
  if size <=? off then Ok (size, 0, [], [])
  else
    let end_ := readEnd off size count in
    let cs := chunkSize (cf f) in
    Ok (size, end_, copyDirty cs off end_ o, readRefs cs n (ofDirty o) (ofPendingTrim o) off end_).

(** The loop that fetches the references of the view. *)
Fixpoint fetchRefs (cs off end_ : Z) (refs : list readRef) (out : bytes) : act W bytes :=
  match refs with
  | [] => ret out
  | r :: refs =>
      let! data := loadChunk (rrRef r) in
      let data := match rrTrim r with
                  | Some to => if to <? blen data then btake to data else data
                  | None => data
                  end in
      fetchRefs cs off end_ refs (fillSpan cs off end_ (rrIdx r) data out)
  end.

(** The view of Read's first two steps: the size, the end of the range, the
    reply so far and the references still to fetch. *)
Definition readView (f : FS) (c : Caller) (h : Handle) (n : inode) (off count : Z)
  : result (Z * Z * bytes * list readRef) :=
  match open f !! iID n with
  | None =>
      let size := iSize n in
      if off <? size then
        let end_ := readEnd off size count in
        Ok (size, end_, zeros (end_ - off), readRefs (chunkSize (cf f)) n ∅ ∅ off end_)
      else Ok (size, 0, [], [])
  | Some o => readBuffered f c h o off count
  end.

(** A call of Read with nothing else running between its steps. *)
Definition Read (c : Caller) (h : Handle) (off count : Z) : act W (bytes * bool) :=
  let! f := getFS in
  let! (_, n) := answer (readable f c h) in
  let! (size, end_, out, refs) := answer (readView f c h n off count) in
  if size <=? off then ret ([], true)
  else let! out := fetchRefs (chunkSize (cf f)) off end_ refs out in ret (out, size <=? end_).

(** ** Writing *)

(** [append(b, make([]byte, k)...)] on a slice of capacity [bCap b]. *)
Definition appendZeros (k : Z) (b : buf) : buf :=
  let data := bData b ++ zeros k in
  mkBuf data (if blen data <=? bCap b then bCap b else growslice (bCap b) (blen data)).

(** The contents a write to an index that is not dirty starts from. *)
Definition startChunk (cs : Z) (refs : list chunkRef) (trims : gmap Z trimReq) (idx within left : Z) : act W buf :=
  match refs !! Z.to_nat idx with
  | None => ret (mkBuf [] cs)
  | Some ref =>
      if (within =? 0) && (cs <=? left) then ret (mkBuf [] cs)
      else
        let! loaded := loadChunk ref in
        let loaded := match trims !! idx with
                      | Some t => if tTo t <? blen loaded then btake (tTo t) loaded else loaded
                      | None => loaded
                      end in
        ret (mkBuf loaded (if blen loaded <=? cs then cs else growslice cs (blen loaded)))
  end.

(** One index of the write: [piece] placed at [within]. *)
Definition placeBytes (within : Z) (piece : bytes) (b : buf) : buf :=
  let need := within + blen piece in
  let b := if blen (bData b) <? need then appendZeros (need - blen (bData b)) b else b in
  mkBuf (copy_into (bData b) within need piece) (bCap b).

(** The loop of bufferWrite. Every round takes at least one byte, so the length
    of [data] bounds the rounds. *)
Fixpoint bwLoop (fuel : nat) (cs : Z) (refs : list chunkRef) (off : Z) (data : bytes) (o : openFile) (written charge : Z)
  : act W (openFile * Z * Z) :=
  match fuel with
  | O => fail (EMsg "bufferWrite did not finish")
  | S fuel =>
      if blen data <=? written then ret (o, written, charge)
      else
        let pos := u64 (off + written) in
        let idx := pos / cs in
        let within := pos mod cs in
        let left := blen data - written in
        let oldCap := match ofDirty o !! idx with Some b => bCap b | None => 0 end in
        let! got := match ofDirty o !! idx with
                    | Some b => ret (Ok b)
                    | None => attempt (startChunk cs refs (ofPendingTrim o) idx within left)
                    end in
        match got with
        | Err e => if 0 <? written then ret (o, written, charge) else fail e
        | Ok b =>
            let nw := if left <? cs - within then left else cs - within in
            let b := placeBytes within (btake nw (bdrop written data)) b in
            let o := set_ofPendingTrim (delete idx (ofPendingTrim o)) (set_ofDirty (<[idx := b]> (ofDirty o)) o) in
            bwLoop fuel cs refs off data o (written + nw) (charge + (bCap b - oldCap))
        end
  end.

(** The buffer of [id], through the pointer the caller holds. *)
Definition setOpen (id : Z) (o : openFile) (f : FS) : FS := set_open (alter (fun _ => o) id (open f)) f.

(** The charge, and the hold of mu that publishes the write. *)
Definition publishWrite (h : Handle) (id : Z) (o : openFile) (off written charge now : Z) (f : FS) : FS :=
  let f := if 0 <? charge then set_budget (Budget.add charge (budget f)) f else f in
  let o := if 0 <? charge then set_ofBytes (ofBytes o + charge) o else o in
  match resolve f h with
  | Ok (k, n) =>
      let end_ := u64 (off + written) in
      let n := if iSize n <? end_ then set_iSize end_ n else n in
      markDirty (upd k (fun _ => touchA now (touchM now n)) (setOpen id o f))
  | Err _ =>
      set_budget (Budget.release (ofBytes o) (budget f)) (setOpen id (set_ofDirty ∅ (set_ofBytes 0 o)) f)
  end.

Definition bufferWrite (h : Handle) (id : Z) (o : openFile) (off : Z) (data : bytes) (now : Z) : act W Z :=
  let! f := getFS in
  let! (o, written, charge) :=
    match resolve f h with
    | Err _ => ret (o, blen data, 0)
    | Ok (_, n) => bwLoop (S (length data)) (chunkSize (cf f)) (iChunks n) off data o 0 0
    end in
  let! _ := modFS (publishWrite h id o off written charge now) in
  ret written.

(** ** Truncating *)

(** An index that lies whole past the new end. *)
Definition pastEnd (lastIdx tail idx : Z) : Prop := lastIdx < idx \/ (idx = lastIdx /\ tail = 0).
#[global] Instance pastEnd_dec l t i : Decision (pastEnd l t i).
Proof using Type. unfold pastEnd. apply _. Defined.

Definition capSum (m : gmap Z buf) : Z := map_fold (fun _ b s => s + bCap b) 0 m.

(** The buffer after a cut to [lastIdx * cs + tail], and the capacity freed. *)
Definition cutDirty (lastIdx tail : Z) (dirty : gmap Z buf) : gmap Z buf * Z :=
  let freed := capSum (filter (fun kb => pastEnd lastIdx tail kb.1) dirty) in
  let dirty := filter (fun kb => ~ pastEnd lastIdx tail kb.1) dirty in
  let dirty :=
    if tail =? 0 then dirty
    else match dirty !! lastIdx with
         | Some b => if tail <? blen (bData b) then <[lastIdx := mkBuf (btake tail (bData b)) (bCap b)]> dirty else dirty
         | None => dirty
         end in
  (dirty, freed).

Definition cutChunks (lastIdx tail : Z) (chunks : list chunkRef) : list chunkRef :=
  if lastIdx <? blen chunks then
    let keep := if tail =? 0 then lastIdx else lastIdx + 1 in
    if keep <? blen chunks then btake keep chunks else chunks
  else chunks.

(** The stored chunk the new end falls inside of. *)
Definition cutRef (lastIdx tail : Z) (chunks : list chunkRef) : option chunkRef :=
  if negb (tail =? 0) && (blen chunks =? lastIdx + 1)
  then match chunks !! Z.to_nat lastIdx with
       | Some ref => if isHole ref then None else Some ref
       | None => None
       end
  else None.

Definition cutTrims (lastIdx tail : Z) (dirty : gmap Z buf) (chunks : list chunkRef) (trims : gmap Z trimReq)
  : gmap Z trimReq :=
  let trims := filter (fun kt => ~ pastEnd lastIdx tail kt.1) trims in
  match dirty !! lastIdx, cutRef lastIdx tail chunks with
  | None, Some ref =>
      let v := match trims !! lastIdx with Some t => tTo t | None => cSize ref end in
      if tail <? v then <[lastIdx := mkTrim tail ref]> trims else trims
  | _, _ => trims
  end.

Definition cutUnsettled (lastIdx tail : Z) (chunks : list chunkRef) (unsettled : bool) : bool :=
  match cutRef lastIdx tail chunks with
  | Some ref => if tail <? cSize ref then true else unsettled
  | None => unsettled
  end.

Definition growHoles (cs lastIdx size : Z) (n : inode) (chunks : list chunkRef) : list chunkRef :=
  if iSize n <? size then chunks ++ replicate (Z.to_nat (lastIdx - blen chunks)) (mkChunkRef "" (u32 cs)) else chunks.

(** The size change: the file's inode and buffer after it, and the capacity to
    release. *)
Definition resize (cs size : Z) (n : inode) (o : openFile) : inode * openFile * Z :=
  let lastIdx := size / cs in
  let tail := size mod cs in
  let (dirty, freed) := cutDirty lastIdx tail (ofDirty o) in
  let chunks := cutChunks lastIdx tail (iChunks n) in
  let trims := cutTrims lastIdx tail dirty chunks (ofPendingTrim o) in
  let unsettled := cutUnsettled lastIdx tail chunks (ofUnsettled o) in
  let chunks := growHoles cs lastIdx size n chunks in
  (set_iSize size (set_iChunks chunks n), mkOpen dirty trims (ofBytes o - freed) unsettled, freed).

Definition truncate (f : FS) (c : Caller) (h : Handle) (sa : SetAttr) (size now : Z) : result Attr * FS :=
  if maxFileSize (cf f) <? size then (Err (EStatus ErrFBig), f) else
  match resolve f h with Err e => (Err e, f) | Ok (_, n) =>
  match setAttrRequests c n sa with Some e => (Err e, f) | None =>
  let id := iID n in
  let (o, f) := getOpen id f in
  match resolve f h with Err e => (Err e, f) | Ok (k, n) =>
  match setAttrRequests c n sa with Some e => (Err e, f) | None =>
  let '(n, o, freed) := resize (chunkSize (cf f)) size n o in
  let f := if 0 <? freed then set_budget (Budget.release freed (budget f)) f else f in
  let (n, _) := applySetAttr (touchM now n) sa now in
  let f := markDirty (upd k (fun _ => n) (setOpen id o f)) in
  (Ok (attr (fsid f) n), f)
  end end end end.

Definition SetAttr_ (f : FS) (c : Caller) (h : Handle) (sa : SetAttr) (now : Z) : result Attr * FS :=
  match mutable f with
  | Some e => (Err e, f)
  | None =>
      match saSize sa with
      | Some size => truncate f c h sa size now
      | None => setAttrNoSize f c h sa now
      end
  end.

(** ** Flushing *)

Definition applyTrim (t : trimReq) : act W chunkRef :=
  let! data := loadChunk (tRef t) in
  let n := if tTo t <? blen data then tTo t else blen data in
  putChunk (btake n data).

(** What dropIfGone does to the buffer [o] of [id]. *)
Definition dropIfGone (id : Z) (o : openFile) (f : FS) : FS :=
  match inodes f !! id with
  | Some _ => f
  | None =>
      set_budget (Budget.release (ofBytes o) (budget f))
        (setOpen id (mkOpen ∅ ∅ 0 (ofUnsettled o)) f)
  end.

Definition orDrop {A} (id : Z) (o : openFile) (m : act W A) : act W A :=
  let! r := attempt m in
  match r with
  | Ok a => ret a
  | Err e => let! _ := modFS (dropIfGone id o) in fail e
  end.

Definition setChunk (idx : Z) (ref : chunkRef) (chunks : list chunkRef) : list chunkRef :=
  if idx <? blen chunks then <[Z.to_nat idx := ref]> chunks else chunks.

(** Fill any gap with holes, then point the index at its upload. *)
Definition placeChunk (cs idx : Z) (ref : chunkRef) (chunks : list chunkRef) : list chunkRef :=
  let chunks := chunks ++ replicate (Z.to_nat (idx + 1 - blen chunks)) (mkChunkRef "" cs) in
  <[Z.to_nat idx := ref]> chunks.

(** [n.Chunks] once the trims and then the uploads are in it. *)
Definition repoint (cs : Z) (trimmed uploaded : list (Z * chunkRef)) (chunks : list chunkRef) : list chunkRef :=
  let chunks := fold_left (fun chunks ir => setChunk ir.1 ir.2 chunks) trimmed chunks in
  fold_left (fun chunks ir => placeChunk cs ir.1 ir.2 chunks) uploaded chunks.

(** The hold of mu that repoints the file, and the release of its buffers. *)
Definition finishFlush (id : Z) (o : openFile) (trimmed uploaded : list (Z * chunkRef)) (f : FS) : FS :=
  let f :=
    match inodes f !! id with
    | Some n => markDirty (upd id (fun n => set_iChunks (repoint (chunkSize (cf f)) trimmed uploaded (iChunks n)) n) f)
    | None => f
    end in
  set_budget (Budget.release (ofBytes o) (budget f)) (setOpen id newOpenFile f).

(** [sort.Slice(idxs, <)]. *)
Definition sortedIdxs (dirty : gmap Z buf) : list Z := merge_sort Z.le (elements (dom dirty)).

(** The bodies of flushOpen's two loops. *)
Definition flushTrim (o : openFile) (idx : Z) : act W (Z * chunkRef) :=
  match ofPendingTrim o !! idx with
  | Some t => let! ref := applyTrim t in ret (idx, ref)
  | None => fail (EMsg "unreachable")
  end.

Definition flushBuf (o : openFile) (idx : Z) : act W (Z * chunkRef) :=
  match ofDirty o !! idx with
  | Some b => let! ref := putChunk (bData b) in ret (idx, ref)
  | None => fail (EMsg "unreachable")
  end.

Definition flushOpen (id : Z) (o : openFile) : act W unit :=
  if bool_decide (ofDirty o = ∅) && bool_decide (ofPendingTrim o = ∅) then
    if ofUnsettled o then modFS (setOpen id (set_ofUnsettled false o)) else ret tt
  else
    let! trimmed := orDrop id o (forEach (ranged (dom (ofPendingTrim o))) (flushTrim o)) in
    let! uploaded := orDrop id o (forEach (sortedIdxs (ofDirty o)) (flushBuf o)) in
    modFS (finishFlush id o trimmed uploaded).

Definition commitFile (id : Z) : act W unit :=
  let! f := getFS in
  match open f !! id with
  | None => ret tt
  | Some o => flushOpen id o
  end.

(** Flush the files listed, each through the pointer taken when the list was. *)
Definition flushList (l : list Z) (opened : gmap Z openFile) : act W unit :=
  forEach_ l (fun id => match opened !! id with Some o => flushOpen id o | None => ret tt end).

Definition flushAll : act W unit :=
  let! f := getFS in flushList (ranged (dom (open f))) (open f).

Definition settleAll : act W unit :=
  let! f := getFS in
  flushList (List.filter (fun id => match open f !! id with Some o => ofUnsettled o | None => false end)
               (ranged (dom (open f)))) (open f).

End Data.
