(* ===== verification/DataSpec.v ===== *)
(** * What the data path promises

    [fileByte] is the byte a file holds at an offset, from its buffers, its
    pending trims and its chunk references: the view every operation of [Data]
    is specified against. Reading returns a slice of it, writing overwrites
    one, truncating cuts it, flushing leaves it alone. *)

From stdpp Require Import sorting.
From S2P Require Import Prelude Vfs Modes Policy Inode ChunkCache Budget Store FsState Namespace Effects Data.

Section View.
Context {Dg : Digest}.

(** A stored byte: the chunk's, below its trim; zero in a hole, past the chunk
    and past the list. *)
Definition storedByte (chunks : list chunkRef) (trim : option Z) (idx w : Z) : byte :=
  match chunks !! Z.to_nat idx with
  | None => zero_byte
  | Some ref =>
      if isHole ref then zero_byte
      else match trim with
           | Some to => if w <? to then bget (unsha (cHash ref)) w else zero_byte
           | None => bget (unsha (cHash ref)) w
           end
  end.

Definition fileByte (cs : Z) (chunks : list chunkRef) (o : openFile) (i : Z) : byte :=
  match ofDirty o !! (i / cs) with
  | Some b => bget (bData b) (i mod cs)
  | None => storedByte chunks (tTo <$> ofPendingTrim o !! (i / cs)) (i / cs) (i mod cs)
  end.

(** The buffer of an inode; a file without an entry has an empty one. *)
Definition bufOf (f : FS) (id : Z) : openFile := default newOpenFile (open f !! id).

(** A reference whose chunk is at most a chunk long and hashes to its name. *)
Definition refOK (cs : Z) (ref : chunkRef) : Prop :=
  0 <= cSize ref <= cs /\
  (isHole ref = false -> sha (unsha (cHash ref)) = cHash ref /\ blen (unsha (cHash ref)) = cSize ref).

Record fileOK (cs : Z) (n : inode) (o : openFile) : Prop := {
  fo_size : is_u64 (iSize n);
  fo_refs : Forall (refOK cs) (iChunks n);
  fo_dirty : forall idx b, ofDirty o !! idx = Some b -> 0 <= idx /\ blen (bData b) <= cs /\ bCap b = cs;
  fo_trims : forall idx t, ofPendingTrim o !! idx = Some t ->
    0 <= idx /\ ofDirty o !! idx = None /\ iChunks n !! Z.to_nat idx = Some (tRef t) /\
    isHole (tRef t) = false /\ 0 < tTo t < cSize (tRef t);
  fo_bytes : ofBytes o = capSum (ofDirty o);
  fo_end : forall i, iSize n <= i -> fileByte cs (iChunks n) o i = zero_byte
}.

(** The cache holds under a hash only what hashes to it. *)
Definition cacheOK (f : FS) : Prop :=
  ChunkCache.wf (cache f) /\ forall h d, ChunkCache.holds (cache f) h = Some d -> sha d = h.

(** [f'] is [f] but for the cache and the set of known chunks. *)
Definition aside (f f' : FS) : Prop := exists c k, f' = set_knownChunks k (set_cache c f).

Lemma aside_refl f : aside f f.
Proof using Type. exists (cache f), (knownChunks f). by destruct f. Qed.

Lemma aside_trans f g h : aside f g -> aside g h -> aside f h.
Proof using Type. intros (c&k&->) (c'&k'&->). by exists c', k'. Qed.

Lemma aside_cache f c : aside f (set_cache c f).
Proof using Type. exists c, (knownChunks f). by destruct f. Qed.

Lemma aside_known f k : aside f (set_knownChunks k f).
Proof using Type. exists (cache f), k. by destruct f. Qed.

End View.

Section Chunks.
Context {W : Type} {St : Store W} {Dg : Digest} {Ro : RunOrder} {P : Policy}.

Lemma sha_unsha d h : sha d = h -> unsha h = d.
Proof using Type. intros <-. apply unsha_sha. Qed.

(** What a chunk reference stands for. *)
Definition chunkData (ref : chunkRef) : bytes := if isHole ref then zeros (cSize ref) else unsha (cHash ref).

Lemma loadChunk_spec ref f w r f' w' :
  skipVerify (cf f) = false -> cacheOK f -> loadChunk ref (f, w) = (r, (f', w')) ->
  aside f f' /\ cacheOK f' /\
  forall d, r = Ok d -> d = chunkData ref /\ (isHole ref = false -> sha d = cHash ref).
Proof using Type.
  intros Hv [Hw Hc]. unfold loadChunk, chunkData. destruct (isHole ref).
  { intros [= <- <- <-]. split; [apply aside_refl|]. split; [done|]. by intros d [= <-]. }
  unfold bind at 1, cacheGet, onFS. simpl.
  pose proof (ChunkCache.get_spec (cache f) (cHash ref)) as Hg.
  pose proof (ChunkCache.wf_get (cache f) (cHash ref) Hw) as Hw1.
  pose proof (ChunkCache.holds_get (cache f) (cHash ref)) as Hh.
  destruct (ChunkCache.get (cache f) (cHash ref)) as [c [data|]]; simpl in *.
  { intros [= <- <- <-]. split; [apply aside_cache|]. split; [split; [done|]; intros h d; simpl; rewrite Hh; apply Hc|].
    intros d [= <-]. symmetry in Hg. apply Hc in Hg. split; [by rewrite (sha_unsha data)|done]. }
  unfold bind at 1, attempt, onStore. simpl. destruct (Get _ w) as [[data|e] w1]; simpl.
  2:{ destruct (errIs e ErrNotFound); intros [= <- <- <-]; (split; [apply aside_cache|]); (split; [|done]);
      (split; [done|]); intros h d; simpl; rewrite Hh; apply Hc. }
  unfold bind at 1, getFS. simpl. rewrite Hv. simpl.
  destruct (String.eqb_spec (sha data) (cHash ref)) as [E|E]; simpl.
  2:{ intros [= <- <- <-]. split; [apply aside_cache|]. split; [|done]. split; [done|]. intros h d; simpl; rewrite Hh; apply Hc. }
  intros [= <- <- <-]. split; [by eexists _, _|]. split.
  - split; [by apply ChunkCache.wf_put|]. simpl. intros h d Hd. apply ChunkCache.holds_put in Hd as [Hd|[-> ->]]; [|done|done].
    rewrite Hh in Hd. by apply Hc.
  - intros d [= <-]. split; [by rewrite (sha_unsha data)|done].
Qed.

Lemma putChunk_spec data f w r f' w' :
  cacheOK f -> putChunk data (f, w) = (r, (f', w')) ->
  aside f f' /\ cacheOK f' /\ forall ref, r = Ok ref -> ref = mkChunkRef (sha data) (u32 (blen data)).
Proof using Type.
  intros [Hw Hc]. unfold putChunk. unfold bind at 1, getFS. simpl.
  destruct (isKnown f (sha data)).
  { intros [= <- <- <-]. split; [apply aside_refl|]. split; [done|]. by intros ref [= <-]. }
  unfold bind at 1, attempt, onStore. simpl. destruct (Head _ w) as [[i|e] w1]; simpl.
  { intros [= <- <- <-]. split; [apply aside_known|]. split; [done|]. by intros ref [= <-]. }
  unfold bind at 1, attempt, onStore. simpl. destruct (Put _ _ w1) as [[[]|e'] w2]; simpl.
  - intros [= <- <- <-]. split; [by eexists _, _|]. split; [|by intros ref [= <-]].
    split; [by apply ChunkCache.wf_put|]. simpl. intros h d Hd.
    apply ChunkCache.holds_put in Hd as [Hd|[-> ->]]; [by apply Hc|done|done].
  - destruct (errIs e' ErrUnsupported); intros [= <- <- <-]; (split; [apply aside_refl|]); done.
Qed.

(** ** Reading *)

Lemma touched_elem cs off end_ bound idx :
  0 < cs -> idx ∈ touched cs off end_ bound <-> off / cs <= idx <= (end_ - 1) / cs /\ idx < bound.
Proof using Type. intros. unfold touched. rewrite elem_of_seqZ. lia. Qed.

Lemma fillSpan_spec cs off end_ idx data out :
  0 < cs -> 0 <= off < end_ -> blen out = end_ - off -> off / cs <= idx <= (end_ - 1) / cs ->
  blen (fillSpan cs off end_ idx data out) = end_ - off /\
  forall j, 0 <= j < end_ - off ->
    bget (fillSpan cs off end_ idx data out) j =
      if decide ((off + j) / cs = idx /\ (off + j) mod cs < blen data)
      then bget data ((off + j) mod cs) else bget out j.
Proof using Type.
  intros Hc Ho Hl Hi. pose proof (blen_nonneg data).
  assert (Hb1 : idx * cs < end_). { pose proof (proj1 (div_iff (end_ - 1) cs _ Hc) eq_refl). nia. }
  assert (Hb2 : off < idx * cs + cs). { pose proof (proj1 (div_iff off cs _ Hc) eq_refl). nia. }
  assert (0 <= idx * cs) as Hb0. { pose proof (div_nonneg off cs Hc ltac:(lia)). nia. }
  unfold fillSpan, readSpan. set (lo := if idx * cs <? off then off else idx * cs).
  set (hi := if cs <? end_ - idx * cs then idx * cs + cs else end_).
  assert (Hlo : lo = Z.max off (idx * cs)). { unfold lo. destruct (Z.ltb_spec (idx * cs) off); lia. }
  assert (Hhi : hi = Z.min end_ (idx * cs + cs)). { unfold hi. destruct (Z.ltb_spec cs (end_ - idx * cs)); lia. }
  assert (Hin : forall j, (off + j) / cs = idx <-> idx * cs <= off + j < idx * cs + cs) by (intros; by apply div_iff).
  destruct (Z.ltb_spec (lo - idx * cs) (blen data)) as [Hw|Hw].
  - split; [rewrite <- Hl; apply blen_copy_into; lia|]. intros j Hj. rewrite bget_copy_into by lia.
    rewrite blen_drop by lia.
    destruct (decide ((off + j) / cs = idx /\ (off + j) mod cs < blen data)) as [[H1 H2]|Hn].
    + pose proof H1 as H1'. apply Hin in H1'. rewrite (mod_at _ _ idx) in * by lia.
      rewrite decide_True by lia. rewrite bget_drop by lia. f_equal. lia.
    + rewrite decide_False; [done|]. intros Hj'. apply Hn. rewrite Hin. split; [lia|].
      rewrite (mod_at _ _ idx) by lia. lia.
  - split; [done|]. intros j Hj. rewrite decide_False; [done|]. intros [H1%Hin H2]. rewrite (mod_at _ _ idx) in H2 by lia. lia.
Qed.

(** One more index to pick from. *)
Lemma pick_here {A} (idx : Z) l (Q : Prop) `{!Decision Q} (v o : A) :
  (if decide (idx ∈ l /\ Q) then v else if decide (idx = idx /\ Q) then v else o) =
  if decide (idx ∈ idx :: l /\ Q) then v else o.
Proof using Type.
  destruct (decide Q) as [HQ|HQ].
  - rewrite (decide_True (P := idx = idx /\ Q)), (decide_True (P := idx ∈ idx :: l /\ Q))
      by (split; [done || apply list_elem_of_here|done]). by case_decide.
  - by rewrite !decide_False by tauto.
Qed.

Lemma pick_other {A} (i idx : Z) l (Q : Prop) `{!Decision Q} (v o : A) :
  i ≠ idx -> (if decide (i ∈ l /\ Q) then v else o) = if decide (i ∈ idx :: l /\ Q) then v else o.
Proof using Type. intros Hne. apply decide_ext. rewrite elem_of_cons. tauto. Qed.

(** The bytes of the dirty chunks among the indices [l]. *)
Lemma fillDirty_spec cs off end_ (dirty : gmap Z buf) l out :
  0 < cs -> 0 <= off < end_ -> blen out = end_ - off ->
  Forall (fun idx => off / cs <= idx <= (end_ - 1) / cs) l ->
  let out' := fold_left (fun out idx =>
          match dirty !! idx with
          | None => out
          | Some b => fillSpan cs off end_ idx (bData b) out
          end) l out in
  blen out' = end_ - off /\
  forall j, 0 <= j < end_ - off ->
    bget out' j = match dirty !! ((off + j) / cs) with
                  | Some b => if decide ((off + j) / cs ∈ l /\ (off + j) mod cs < blen (bData b))
                              then bget (bData b) ((off + j) mod cs) else bget out j
                  | None => bget out j
                  end.
Proof using Type.
  intros Hc Ho Hl Hf. revert out Hl. induction Hf as [|idx l Hi Hf IH]; intros out Hl; cbv zeta; cbn [fold_left].
  { split; [done|]. intros j _. destruct (dirty !! _); [|done]. rewrite decide_False; [done|]. by intros [?%elem_of_nil _]. }
  destruct (dirty !! idx) as [b|] eqn:Eb.
  - destruct (fillSpan_spec cs off end_ idx (bData b) out) as [H1 H2]; [done..|].
    destruct (IH _ H1) as [H3 H4]. split; [done|]. intros j Hj. rewrite H4, H2 by done.
    destruct (decide ((off + j) / cs = idx)) as [Ei|Ei].
    + rewrite Ei, Eb. apply pick_here.
    + rewrite (decide_False (P := (off + j) / cs = idx /\ _)) by tauto.
      destruct (dirty !! ((off + j) / cs)); [|done]. by apply pick_other.
  - destruct (IH out Hl) as [H3 H4]. split; [done|]. intros j Hj. rewrite H4 by done.
    destruct (dirty !! ((off + j) / cs)) eqn:Ed; [|done]. apply pick_other. congruence.
Qed.

(** What a reference contributes, cut at its trim. *)
Definition refData (r : readRef) : bytes :=
  match rrTrim r with
  | Some to => if to <? blen (chunkData (rrRef r)) then btake to (chunkData (rrRef r)) else chunkData (rrRef r)
  | None => chunkData (rrRef r)
  end.

(** What the fetches make of [out]. *)
Definition fillRefs (cs off end_ : Z) (refs : list readRef) (out : bytes) : bytes :=
  fold_left (fun out r => fillSpan cs off end_ (rrIdx r) (refData r) out) refs out.

Lemma fetchRefs_fill cs off end_ refs out f w out' f' w' :
  skipVerify (cf f) = false -> cacheOK f -> fetchRefs cs off end_ refs out (f, w) = (Ok out', (f', w')) ->
  aside f f' /\ cacheOK f' /\ out' = fillRefs cs off end_ refs out.
Proof using Type.
  revert out f w. induction refs as [|r refs IH]; intros out f w Hv Hca; cbn [fetchRefs].
  { intros [= <- <- <-]. split; [apply aside_refl|]. by split. }
  intros Hb. apply bind_inv in Hb as [(d&[f1 w1]&Hload&Hb)|(e&_&He)]; [|done].
  destruct (loadChunk_spec _ _ _ _ _ _ Hv Hca Hload) as (Ha1&Hc1&Hd). destruct (Hd d eq_refl) as [-> _].
  change (match rrTrim r with Some to => _ | None => _ end) with (refData r) in Hb.
  apply IH in Hb as (Ha2&Hc2&->); [|by destruct Ha1 as (?&?&->)|done]. split; [by eapply aside_trans|]. by split.
Qed.

(** ... over references picked by index. *)
Lemma fillRefs_spec cs off end_ (g : Z -> option readRef) l out :
  0 < cs -> 0 <= off < end_ -> blen out = end_ - off ->
  Forall (fun idx => off / cs <= idx <= (end_ - 1) / cs) l ->
  (forall idx r, g idx = Some r -> rrIdx r = idx) ->
  let out' := fillRefs cs off end_ (omap g l) out in
  blen out' = end_ - off /\
  forall j, 0 <= j < end_ - off ->
    bget out' j = match g ((off + j) / cs) with
                  | Some r => if decide ((off + j) / cs ∈ l /\ (off + j) mod cs < blen (refData r))
                              then bget (refData r) ((off + j) mod cs) else bget out j
                  | None => bget out j
                  end.
Proof using Type.
  intros Hc Ho Hl Hf Hg. cbv zeta. revert out Hl. induction Hf as [|idx l Hi Hf IH]; intros out Hl; cbn [omap list_omap].
  { split; [done|]. intros j _. destruct (g _); [|done]. rewrite decide_False; [done|]. by intros [?%elem_of_nil _]. }
  destruct (g idx) as [r|] eqn:Eg.
  - unfold fillRefs. cbn [fold_left]. rewrite (Hg idx r Eg).
    destruct (fillSpan_spec cs off end_ idx (refData r) out) as [H1 H2]; [done..|].
    destruct (IH _ H1) as [H3 H4]. unfold fillRefs in H3, H4. split; [done|]. intros j Hj. rewrite H4, H2 by done.
    destruct (decide ((off + j) / cs = idx)) as [Ei|Ei].
    + rewrite Ei, Eg. apply pick_here.
    + rewrite (decide_False (P := (off + j) / cs = idx /\ _)) by tauto.
      destruct (g ((off + j) / cs)); [|done]. by apply pick_other.
  - destruct (IH out Hl) as [H3 H4]. split; [done|]. intros j Hj. rewrite H4 by done.
    destruct (g ((off + j) / cs)) eqn:Ed; [|done]. apply pick_other. congruence.
Qed.

(** The reference a Read fetches for an index. *)
Definition pickRef (cs : Z) (n : inode) (dirty : gmap Z buf) (trims : gmap Z trimReq) (off idx : Z) : option readRef :=
  match dirty !! idx, iChunks n !! Z.to_nat idx with
  | Some _, _ => None
  | None, None => None
  | None, Some ref =>
      if isHole ref then None
      else match trims !! idx with
           | None => Some (mkReadRef idx ref None)
           | Some t =>
               let base := idx * cs in
               let within := if base <? off then off - base else 0 in
               if tTo t <=? within then None else Some (mkReadRef idx ref (Some (tTo t)))
           end
  end.

Lemma pickRef_idx cs n dirty trims off idx r : pickRef cs n dirty trims off idx = Some r -> rrIdx r = idx.
Proof using Type.
  unfold pickRef. destruct (dirty !! idx); [done|]. destruct (iChunks n !! _) as [ref|]; [|done].
  destruct (isHole ref); [done|]. destruct (trims !! idx); [|by intros [= <-]].
  destruct (_ <=? _); [done|by intros [= <-]].
Qed.

(** The picked references and the buffers together are the view. *)
Lemma view_of_parts cs n o off end_ j x (out : bytes) :
  0 < cs -> 0 <= off -> 0 <= j < end_ - off -> (off + j) / cs <= (end_ - 1) / cs ->
  x = (match ofDirty o !! ((off + j) / cs) with
       | Some b => bget (bData b) ((off + j) mod cs)
       | None => zero_byte
       end) ->
  (match pickRef cs n (ofDirty o) (ofPendingTrim o) off ((off + j) / cs) with
   | Some r => if decide ((off + j) / cs ∈ touched cs off end_ (blen (iChunks n)) /\ (off + j) mod cs < blen (refData r))
               then bget (refData r) ((off + j) mod cs) else x
   | None => x
   end) = fileByte cs (iChunks n) o (off + j).
Proof using Type.
  intros Hc Ho Hj Hlast Hx. unfold pickRef, fileByte. set (idx := (off + j) / cs) in *. set (w := (off + j) mod cs) in *.
  assert (Hidx : 0 <= idx) by (apply div_nonneg; lia).
  destruct (ofDirty o !! idx) as [b|]; [done|]. unfold storedByte.
  destruct (iChunks n !! Z.to_nat idx) as [ref|] eqn:Er; [|done].
  destruct (isHole ref) eqn:Eh; [done|].
  assert (Hin : idx ∈ touched cs off end_ (blen (iChunks n))).
  { apply touched_elem; [done|]. split; [split; [apply Z.div_le_mono; lia|done]|].
    apply lookup_lt_Some in Er. unfold blen. lia. }
  assert (Hw : w = off + j - idx * cs) by (apply mod_sub; lia).
  assert (Hw0 : 0 <= w) by (apply Z.mod_pos_bound; lia).
  destruct (ofPendingTrim o !! idx) as [t|]; simpl.
  - destruct (Z.leb_spec (tTo t) (if idx * cs <? off then off - idx * cs else 0)) as [Ht|Ht].
    + destruct (Z.ltb_spec w (tTo t)); [|done]. exfalso. destruct (Z.ltb_spec (idx * cs) off); lia.
    + unfold refData, chunkData. simpl. rewrite Eh.
      destruct (Z.ltb_spec w (tTo t)) as [Hwt|Hwt].
      * destruct (Z.ltb_spec (tTo t) (blen (unsha (cHash ref)))) as [Hl|Hl].
        -- rewrite decide_True; [|split; [done|]; rewrite blen_take by (destruct (Z.ltb_spec (idx * cs) off); lia); lia].
           rewrite bget_take. by destruct (Z.ltb_spec w (tTo t)); [|lia].
        -- case_decide as Hd; [done|]. rewrite Hx. symmetry. apply bget_ge. destruct (decide (w < blen (unsha (cHash ref)))); [|lia]. by exfalso; apply Hd.
      * rewrite decide_False; [done|]. intros [_ Hlt]. destruct (Z.ltb_spec (tTo t) (blen (unsha (cHash ref)))) as [Hl|Hl].
        -- rewrite blen_take in Hlt by (destruct (Z.ltb_spec (idx * cs) off); lia). lia.
        -- lia.
  - unfold refData, chunkData. simpl. rewrite Eh. case_decide as Hd; [done|]. rewrite Hx. symmetry. apply bget_ge.
    destruct (decide (w < blen (unsha (cHash ref)))); [|lia]. by exfalso; apply Hd.
Qed.

Lemma readEnd_spec off size count :
  0 <= off < size -> 0 <= count -> off <= readEnd off size count <= size /\
  readEnd off size count = off + Z.min count (size - off).
Proof using Type. intros. unfold readEnd. destruct (Z.ltb_spec count (size - off)); lia. Qed.

Lemma copyDirty_spec cs off end_ o :
  0 < cs -> 0 <= off <= end_ ->
  blen (copyDirty cs off end_ o) = end_ - off /\
  forall j, 0 <= j < end_ - off -> bget (copyDirty cs off end_ o) j =
    match ofDirty o !! ((off + j) / cs) with Some b => bget (bData b) ((off + j) mod cs) | None => zero_byte end.
Proof using Type.
  intros Hc Ho. unfold copyDirty. destruct (Z.ltb_spec off end_) as [Hlt|Hge]; [|split; [apply blen_zeros; lia|lia]].
  destruct (fillDirty_spec cs off end_ (ofDirty o) (touched cs off end_ ((end_ - 1) / cs + 1)) (zeros (end_ - off))) as [H1 H2];
    [done|lia|apply blen_zeros; lia| |].
  { apply list.Forall_forall. intros i Hi%touched_elem; [|done]. lia. }
  split; [exact H1|]. intros j Hj. rewrite H2 by done. rewrite bget_zeros.
  destruct (ofDirty o !! _) as [b|]; [|done]. case_decide as Hd; [done|]. symmetry. apply bget_ge.
  destruct (decide ((off + j) mod cs < blen (bData b))); [|lia]. exfalso. apply Hd. split; [|done].
  apply touched_elem; [done|]. split; [split; apply Z.div_le_mono; lia|].
  apply Z.lt_succ_r. apply Z.div_le_mono; lia.
Qed.

(** What the first two steps of a Read find. *)
Lemma readView_spec f c h off count id n :
  0 < chunkSize (cf f) -> 0 <= off -> 0 <= count ->
  readable f c h = Ok (id, n) -> iID n = id ->
  let cs := chunkSize (cf f) in
  let o := bufOf f id in
  let end_ := readEnd off (iSize n) count in
  if iSize n <=? off then exists e r l, readView f c h n off count = Ok (iSize n, e, r, l)
  else exists out,
    readView f c h n off count = Ok (iSize n, end_, out, readRefs cs n (ofDirty o) (ofPendingTrim o) off end_) /\
    blen out = end_ - off /\
    forall j, 0 <= j < end_ - off -> bget out j =
      match ofDirty o !! ((off + j) / cs) with Some b => bget (bData b) ((off + j) mod cs) | None => zero_byte end.
Proof using Type.
  intros Hc Ho Hcount Hread Hid. cbv zeta. set (cs := chunkSize (cf f)) in *. unfold readView, bufOf. rewrite Hid.
  destruct (Z.leb_spec (iSize n) off) as [Hs|Hs].
  { destruct (open f !! id) as [o'|].
    - unfold readBuffered. rewrite Hread. simpl. destruct (Z.leb_spec (iSize n) off); [eauto|lia].
    - destruct (Z.ltb_spec off (iSize n)); [lia|eauto]. }
  destruct (readEnd_spec off (iSize n) count) as [He1 He2]; [lia|done|].
  destruct (open f !! id) as [o'|]; simpl.
  - unfold readBuffered. rewrite Hread. simpl. destruct (Z.leb_spec (iSize n) off); [lia|].
    fold cs. eexists. split; [reflexivity|]. apply copyDirty_spec; lia.
  - destruct (Z.ltb_spec off (iSize n)); [|lia]. eexists. split; [reflexivity|]. split; [apply blen_zeros; lia|].
    intros j Hj. rewrite bget_zeros, lookup_empty. done.
Qed.

(** The answer of a READ of the file [n] with the buffer [o]. *)
Definition readsTo (cs : Z) (n : inode) (o : openFile) (off count : Z) (out : bytes) (eof : bool) : Prop :=
  blen out = Z.max 0 (Z.min count (iSize n - off)) /\
  (forall j, 0 <= j < blen out -> bget out j = fileByte cs (iChunks n) o (off + j)) /\
  eof = (iSize n <=? off + blen out).

Lemma readsTo_past cs n o off count : iSize n <= off -> readsTo cs n o off count [] true.
Proof using Type.
  intros Hs. split; [unfold blen; simpl; lia|]. split; [unfold blen; simpl; lia|]. symmetry. apply Z.leb_le. unfold blen. simpl. lia.
Qed.

(** The view and the fetches together give it. *)
Lemma readsTo_view cs n o off count out :
  0 < cs -> 0 <= off < iSize n -> 0 <= count ->
  let end_ := readEnd off (iSize n) count in
  blen out = end_ - off ->
  (forall j, 0 <= j < end_ - off -> bget out j =
     match ofDirty o !! ((off + j) / cs) with Some b => bget (bData b) ((off + j) mod cs) | None => zero_byte end) ->
  readsTo cs n o off count (fillRefs cs off end_ (readRefs cs n (ofDirty o) (ofPendingTrim o) off end_) out) (iSize n <=? end_).
Proof using Type.
  intros Hc Ho Hcount end_ Hlen Hout. destruct (readEnd_spec off (iSize n) count) as [He1 He2]; [lia|done|]. fold end_ in He1, He2.
  unfold readRefs. destruct (Z.leb_spec end_ off) as [Hz|Hz].
  - unfold fillRefs. simpl. split; [lia|]. split; [lia|]. f_equal. lia.
  - destruct (fillRefs_spec cs off end_ (pickRef cs n (ofDirty o) (ofPendingTrim o) off) (touched cs off end_ (blen (iChunks n))) out)
      as [Hl Hg]; [done|lia|done| |by apply pickRef_idx|].
    { apply list.Forall_forall. intros i Hi%touched_elem; [|done]. lia. }
    unfold pickRef in Hl, Hg at 1. unfold readsTo. rewrite Hl. split; [lia|]. split; [|f_equal; lia].
    intros j Hj. rewrite Hg by done. apply (view_of_parts cs n o off end_ j _ []); try done; [lia|apply Z.div_le_mono; lia|by apply Hout].
Qed.

(** Read, from the view its three steps put together. *)
Lemma Read_view c h off count f w out eof f' w' id n :
  skipVerify (cf f) = false -> cacheOK f -> 0 < chunkSize (cf f) -> 0 <= off -> 0 <= count ->
  resolve f h = Ok (id, n) -> iID n = id ->
  Read c h off count (f, w) = (Ok (out, eof), (f', w')) ->
  aside f f' /\ cacheOK f' /\ readsTo (chunkSize (cf f)) n (bufOf f id) off count out eof.
Proof using Type.
  intros Hv Hca Hc Ho Hcount Hr Hid. unfold Read. rewrite (bind_ok _ _ _ f (f, w)) by done.
  intros Hb. apply bind_inv in Hb as [([k m]&s1&Ha&Hb)|(e&_&He)]; [|done]. unfold answer in Ha. injection Ha as Ha <-.
  pose proof Ha as Hread. unfold readable in Ha. rewrite Hr in Ha. simpl in Ha. destruct (checkPerm OpRead c n) eqn:Ep; [done|]. injection Ha as <- <-.
  pose proof (readView_spec f c h off count id n Hc Ho Hcount Hread Hid) as Hparts. cbv zeta in Hparts. unfold answer in Hb.
  destruct (Z.leb_spec (iSize n) off) as [Hs|Hs].
  - destruct Hparts as (e2&o2&r2&Hres). rewrite Hres in Hb. unfold bind at 1 in Hb.
    destruct (Z.leb_spec (iSize n) off); [|lia]. injection Hb as <- <- <- <-.
    split; [apply aside_refl|]. split; [done|]. by apply readsTo_past.
  - destruct Hparts as (out0&Hparts&Hlen0&Hout0). rewrite Hparts in Hb. unfold bind at 1 in Hb.
    destruct (Z.leb_spec (iSize n) off); [lia|].
    apply bind_inv in Hb as [(out1&[f1 w1]&Hf&Hb)|(e&_&He)]; [|done]. injection Hb as <- <- <- <-.
    destruct (fetchRefs_fill _ _ _ _ _ _ _ _ _ _ Hv Hca Hf) as (Ha&Hc1&->). split; [done|]. split; [done|]. by apply readsTo_view.
Qed.

(** ** Writing *)

(** The part of [fileOK] a write relies on while it runs. *)
Record bufOK (cs : Z) (refs : list chunkRef) (o : openFile) : Prop := {
  bo_dirty : forall idx b, ofDirty o !! idx = Some b -> 0 <= idx /\ blen (bData b) <= cs /\ bCap b = cs;
  bo_trims : forall idx t, ofPendingTrim o !! idx = Some t ->
    0 <= idx /\ ofDirty o !! idx = None /\ refs !! Z.to_nat idx = Some (tRef t) /\
    isHole (tRef t) = false /\ 0 < tTo t < cSize (tRef t)
}.

Lemma chunkData_len cs ref : refOK cs ref -> blen (chunkData ref) = cSize ref.
Proof using Type.
  intros [Hs Hr]. unfold chunkData. destruct (isHole ref); [apply blen_zeros; lia|by apply Hr].
Qed.

Lemma capSum_insert m idx b :
  capSum (<[idx := b]> m) = capSum m + (bCap b - match m !! idx with Some b0 => bCap b0 | None => 0 end).
Proof using Type.
  assert (Hnew : forall m' : gmap Z buf, m' !! idx = None -> forall b, capSum (<[idx := b]> m') = capSum m' + bCap b).
  { intros m' Hm b'. unfold capSum. rewrite map_fold_insert_L; [done| |done]. intros; lia. }
  destruct (m !! idx) as [b0|] eqn:E.
  - rewrite <- (insert_delete_id m idx b0) at 2 by done. rewrite <- insert_delete_eq.
    rewrite !Hnew by apply lookup_delete_eq. lia.
  - rewrite Hnew by done. lia.
Qed.

Lemma placeBytes_spec cs within piece b :
  0 <= within -> within + blen piece <= cs -> blen (bData b) <= cs -> bCap b = cs ->
  let b' := placeBytes within piece b in
  blen (bData b') = Z.max (blen (bData b)) (within + blen piece) /\ bCap b' = cs /\
  forall w, 0 <= w ->
    bget (bData b') w = if decide (within <= w < within + blen piece) then bget piece (w - within) else bget (bData b) w.
Proof using Type.
  intros Hw Hfit Hlen Hcap. pose proof (blen_nonneg piece). pose proof (blen_nonneg (bData b)).
  unfold placeBytes, appendZeros. destruct (Z.ltb_spec (blen (bData b)) (within + blen piece)) as [Hl|Hl]; simpl.
  - assert (Hb : blen (bData b ++ zeros (within + blen piece - blen (bData b))) = within + blen piece).
    { rewrite blen_app, blen_zeros by lia. lia. }
    split; [rewrite blen_copy_into by lia; lia|]. split; [rewrite Hb, Hcap; by destruct (Z.leb_spec (within + blen piece) cs); [|lia]|].
    intros w Hw0. rewrite bget_copy_into by lia. replace (Z.min (within + blen piece - within) (blen piece)) with (blen piece) by lia.
    case_decide; [done|]. rewrite bget_app. destruct (Z.ltb_spec w (blen (bData b))); [done|].
    rewrite bget_zeros. symmetry. by apply bget_ge.
  - split; [rewrite blen_copy_into by lia; lia|]. split; [done|].
    intros w Hw0. rewrite bget_copy_into by lia. by replace (Z.min (within + blen piece - within) (blen piece)) with (blen piece) by lia.
Qed.

Lemma fileByte_at cs refs o idx w :
  0 < cs -> 0 <= w < cs ->
  fileByte cs refs o (idx * cs + w) =
    match ofDirty o !! idx with
    | Some b => bget (bData b) w
    | None => storedByte refs (tTo <$> ofPendingTrim o !! idx) idx w
    end.
Proof using Type.
  intros Hc Hw. unfold fileByte. rewrite (proj2 (div_iff (idx * cs + w) cs idx Hc)) by lia.
  rewrite (mod_at _ _ idx) by lia. by replace (idx * cs + w - idx * cs) with w by lia.
Qed.

Lemma startChunk_spec cs refs o idx within left f w r f' w' :
  0 < cs -> 0 <= idx -> skipVerify (cf f) = false -> cacheOK f -> Forall (refOK cs) refs -> bufOK cs refs o ->
  ofDirty o !! idx = None ->
  startChunk cs refs (ofPendingTrim o) idx within left (f, w) = (r, (f', w')) ->
  aside f f' /\ cacheOK f' /\
  forall b, r = Ok b -> blen (bData b) <= cs /\ bCap b = cs /\
    ((within = 0 /\ cs <= left) \/ forall v, 0 <= v < cs -> bget (bData b) v = fileByte cs refs o (idx * cs + v)).
Proof using Type.
  intros Hc Hi Hv Hca Hrefs Ho Hd. unfold startChunk.
  assert (Hempty : forall v, bget [] v = zero_byte) by (intros v; unfold bget; destruct (v <? 0); [done|by destruct (Z.to_nat v)]).
  destruct (refs !! Z.to_nat idx) as [ref|] eqn:Er.
  2:{ intros [= <- <- <-]. split; [apply aside_refl|]. split; [done|]. intros b [= <-]. simpl. split; [unfold blen; simpl; lia|].
      split; [done|]. right. intros v Hv'. rewrite fileByte_at, Hd by done. unfold storedByte. rewrite Er. apply Hempty. }
  destruct ((within =? 0) && (cs <=? left)) eqn:Ef.
  { intros [= <- <- <-]. split; [apply aside_refl|]. split; [done|]. intros b [= <-]. simpl. split; [unfold blen; simpl; lia|].
    split; [done|]. left. apply andb_true_iff in Ef as [E1%Z.eqb_eq E2%Z.leb_le]. done. }
  intros Hb. apply bind_inv in Hb as [(d&[f1 w1]&Hload&Hb)|(e&Hload&->)].
  2:{ destruct (loadChunk_spec _ _ _ _ _ _ Hv Hca Hload) as (Ha1&Hc1&_). done. }
  destruct (loadChunk_spec _ _ _ _ _ _ Hv Hca Hload) as (Ha1&Hc1&Hdata). destruct (Hdata d eq_refl) as [-> _].
  injection Hb as <- <- <-. split; [done|]. split; [done|]. intros b [= <-].
  pose proof (Forall_lookup_1 _ _ _ _ Hrefs Er) as Hok. pose proof (chunkData_len cs ref Hok) as Hlen. destruct Hok as [Hsz _].
  set (d := match ofPendingTrim o !! idx with Some t => _ | None => _ end).
  assert (Hdl : blen d <= cs /\ forall v, 0 <= v < cs -> bget d v = fileByte cs refs o (idx * cs + v)).
  { unfold d. destruct (ofPendingTrim o !! idx) as [t|] eqn:Et.
    - destruct (bo_trims cs refs o Ho idx t Et) as (_&_&Hr&Hh&Hto). rewrite Er in Hr. injection Hr as ->.
      destruct (Z.ltb_spec (tTo t) (blen (chunkData (tRef t)))); [|lia].
      split; [rewrite blen_take by lia; lia|]. intros v Hv'. rewrite fileByte_at, Hd, Et by done. simpl.
      unfold storedByte. rewrite Er, Hh, bget_take. unfold chunkData. by rewrite Hh.
    - split; [lia|]. intros v Hv'. rewrite fileByte_at, Hd, Et by done. simpl. unfold storedByte. rewrite Er.
      unfold chunkData. destruct (isHole ref); [apply bget_zeros|done]. }
  simpl. destruct Hdl as [Hdl Hdv]. split; [done|]. split; [by destruct (Z.leb_spec (blen d) cs); [|lia]|]. by right.
Qed.

(** One index written: the buffer [b] in place of what the index was. *)
Definition stored (o : openFile) (idx : Z) (b : buf) : openFile :=
  set_ofPendingTrim (delete idx (ofPendingTrim o)) (set_ofDirty (<[idx := b]> (ofDirty o)) o).

Lemma stored_ok cs refs o idx b :
  bufOK cs refs o -> 0 <= idx -> blen (bData b) <= cs -> bCap b = cs -> bufOK cs refs (stored o idx b).
Proof using Type.
  intros [Hd Ht] Hi Hl Hcap. split; simpl.
  - intros j b'. rewrite lookup_insert. case_decide; [|apply Hd]. subst. by intros [= <-].
  - intros j t [Hne Hj]%lookup_delete_Some. rewrite lookup_insert_ne by done. by apply Ht.
Qed.

Lemma stored_byte cs refs o idx b i :
  fileByte cs refs (stored o idx b) i = if decide (i / cs = idx) then bget (bData b) (i mod cs) else fileByte cs refs o i.
Proof using Type.
  unfold fileByte, stored. simpl. rewrite lookup_insert. destruct (decide (idx = i / cs)) as [E|E].
  - by rewrite decide_True.
  - rewrite decide_False by done. by rewrite lookup_delete_ne.
Qed.

(** The buffer a turn of the loop starts from: what is buffered at its index, or
    what the chunk there holds. *)
Lemma turn_start cs refs o idx within left f w got f1 w1 :
  0 < cs -> skipVerify (cf f) = false -> cacheOK f -> Forall (refOK cs) refs -> bufOK cs refs o ->
  0 <= idx -> 0 <= within < cs -> 0 <= left ->
  match ofDirty o !! idx with
  | Some b => ret (Ok b)
  | None => attempt (startChunk cs refs (ofPendingTrim o) idx within left)
  end (f, w) = (Ok got, (f1, w1)) ->
  aside f f1 /\ cacheOK f1 /\ forall b, got = Ok b ->
    blen (bData b) <= cs /\ bCap b = cs /\
    ((within = 0 /\ cs <= left) \/ forall v, 0 <= v < cs -> bget (bData b) v = fileByte cs refs o (idx * cs + v)).
Proof using Type.
  intros Hc Hv Hca Hrefs Ho Hidx Hwithin Hleft Hgot. destruct (ofDirty o !! idx) as [b0|] eqn:Ed.
  - injection Hgot as <- <- <-. split; [apply aside_refl|]. split; [done|]. intros b [= <-].
    destruct (bo_dirty cs refs o Ho idx b0 Ed) as (_&Hl&Hcap). split; [done|]. split; [done|]. right.
    intros v Hv'. rewrite fileByte_at by done. by rewrite Ed.
  - unfold attempt in Hgot. destruct (startChunk cs refs (ofPendingTrim o) idx within left (f, w)) as [r1 [f2 w2]] eqn:Es.
    injection Hgot as <- <- <-. by apply (startChunk_spec cs refs o idx within left f w r1 f2 w2).
Qed.

(** The file after a turn has put [nw] bytes into that buffer. *)
Lemma turn_bytes cs refs o off data idx within written nw b :
  0 < cs -> off + written = idx * cs + within -> 0 <= within < cs -> 0 <= written ->
  nw = Z.min (blen data - written) (cs - within) /\ 0 <= nw -> blen (bData b) <= cs -> bCap b = cs ->
  ((within = 0 /\ cs <= blen data - written) \/ forall v, 0 <= v < cs -> bget (bData b) v = fileByte cs refs o (idx * cs + v)) ->
  forall i, 0 <= i -> fileByte cs refs (stored o idx (placeBytes within (btake nw (bdrop written data)) b)) i =
    if decide (idx * cs + within <= i < idx * cs + within + nw) then bget data (i - off) else fileByte cs refs o i.
Proof using Type.
  intros Hc Hpos Hwithin Hwr [Hnw Hnw0] Hbl Hbc Hbv i Hi. set (piece := btake nw (bdrop written data)).
  assert (Hpl : blen piece = nw) by (unfold piece; rewrite blen_take, blen_drop by lia; lia).
  destruct (placeBytes_spec cs within piece b) as (_&_&Hpb3); [lia|lia|done|done|]. cbv zeta in Hpb3.
  rewrite stored_byte. pose proof (div_iff i cs idx Hc) as Hdi. destruct (decide (i / cs = idx)) as [Ei|Ei].
  - pose proof (proj1 Hdi Ei) as Hr. rewrite (mod_at i cs idx) by done. rewrite Hpb3, Hpl by lia.
    destruct (decide (idx * cs + within <= i < idx * cs + within + nw)) as [Hin|Hout].
    + rewrite decide_True by lia. unfold piece. rewrite bget_take.
      destruct (Z.ltb_spec (i - idx * cs - within) nw); [|lia]. rewrite bget_drop by lia. f_equal. lia.
    + rewrite decide_False by lia. destruct Hbv as [[Hw0 Hfull]|Hbv]; [lia|]. rewrite Hbv by lia. f_equal. lia.
  - rewrite decide_False; [done|]. intros Hin. apply Ei, Hdi. lia.
Qed.

(** What rounds of the loop make of the buffer [o], from [written] bytes on. *)
Record advance (cs : Z) (refs : list chunkRef) (off : Z) (data : bytes) (o : openFile) (written charge : Z)
    (o' : openFile) (written' charge' : Z) : Prop := {
  ad_written : written <= written' <= blen data;
  ad_ok : bufOK cs refs o';
  ad_bytes : ofBytes o' = ofBytes o;
  ad_mark : ofUnsettled o' = ofUnsettled o;
  ad_trims : ofPendingTrim o = ∅ -> ofPendingTrim o' = ∅;
  ad_charge : charge' - charge = capSum (ofDirty o') - capSum (ofDirty o) /\ charge <= charge';
  ad_view : forall i, 0 <= i -> fileByte cs refs o' i =
    if decide (off + written <= i < off + written') then bget data (i - off) else fileByte cs refs o i
}.

Lemma advance_refl cs refs off data o written charge :
  bufOK cs refs o -> written <= blen data -> advance cs refs off data o written charge o written charge.
Proof using Type. intros Ho Hw. split; try done; try lia. intros i Hi. by rewrite decide_False by lia. Qed.

Lemma advance_trans cs refs off data o w q o1 w1 q1 o2 w2 q2 :
  advance cs refs off data o w q o1 w1 q1 -> advance cs refs off data o1 w1 q1 o2 w2 q2 -> advance cs refs off data o w q o2 w2 q2.
Proof using Type.
  intros [A1 A2 A3 A4 A5 A6 A7] [B1 B2 B3 B4 B5 B6 B7]. split; try done; try lia; try congruence; [auto|].
  intros i Hi. rewrite B7, A7 by done. repeat case_decide; try done; lia.
Qed.

(** The indices of a round. *)
Lemma turn_place cs off (data : bytes) written :
  0 < cs -> 0 <= off -> off + blen data < 2 ^ 64 -> 0 <= written < blen data ->
  let pos := u64 (off + written) in
  off + written = pos / cs * cs + pos mod cs /\ 0 <= pos mod cs < cs /\ 0 <= pos / cs.
Proof using Type.
  intros Hc Hoff Hend Hw. cbv zeta. rewrite u64_id by (unfold is_u64; lia). split; [rewrite mod_sub by done; lia|].
  split; [by apply Z.mod_pos_bound|apply div_nonneg; lia].
Qed.

(** One round: [b] holds the contents of the index, [nw] bytes go to [within]. *)
Lemma advance_turn cs refs off data o idx within written charge nw b :
  0 < cs -> off + written = idx * cs + within -> 0 <= within < cs -> 0 <= idx -> 0 <= written < blen data ->
  nw = (if blen data - written <? cs - within then blen data - written else cs - within) ->
  bufOK cs refs o -> blen (bData b) <= cs -> bCap b = cs ->
  ((within = 0 /\ cs <= blen data - written) \/ forall v, 0 <= v < cs -> bget (bData b) v = fileByte cs refs o (idx * cs + v)) ->
  let b' := placeBytes within (btake nw (bdrop written data)) b in
  0 < nw /\ advance cs refs off data o written charge (stored o idx b') (written + nw)
    (charge + (bCap b' - match ofDirty o !! idx with Some b0 => bCap b0 | None => 0 end)).
Proof using Type.
  intros Hc Hpos Hwithin Hidx Hwr Hnw Ho Hbl Hbc Hbv b'.
  assert (Hnw' : nw = Z.min (blen data - written) (cs - within)) by (destruct (Z.ltb_spec (blen data - written) (cs - within)); lia).
  assert (Hpl : blen (btake nw (bdrop written data)) = nw) by (rewrite blen_take, blen_drop by lia; lia).
  destruct (placeBytes_spec cs within (btake nw (bdrop written data)) b) as (Hpb1&Hpb2&_); [lia|lia|done|done|]. fold b' in Hpb1, Hpb2.
  split; [lia|]. split.
  - lia.
  - apply stored_ok; try done. lia.
  - done.
  - done.
  - intros He. unfold stored. simpl. rewrite He. apply delete_empty.
  - assert (Hcap : capSum (ofDirty (stored o idx b')) = capSum (ofDirty o) +
        (bCap b' - match ofDirty o !! idx with Some b0 => bCap b0 | None => 0 end)) by apply capSum_insert.
    rewrite Hcap. split; [lia|]. destruct (ofDirty o !! idx) as [b0|] eqn:Ed; [|lia]. destruct (bo_dirty cs refs o Ho idx b0 Ed) as (_&_&Hcap0). lia.
  - intros i Hi. unfold b'. rewrite (turn_bytes cs refs o off data idx within written nw b Hc Hpos Hwithin ltac:(lia) ltac:(lia) Hbl Hbc Hbv i Hi).
    repeat case_decide; try done; lia.
Qed.

Lemma bwLoop_spec fuel cs refs off data o written charge f w r f' w' :
  0 < cs -> 0 <= off -> off + blen data < 2 ^ 64 -> 0 <= written <= blen data ->
  blen data - written < Z.of_nat fuel ->
  skipVerify (cf f) = false -> cacheOK f -> Forall (refOK cs) refs -> bufOK cs refs o ->
  bwLoop fuel cs refs off data o written charge (f, w) = (r, (f', w')) ->
  aside f f' /\ cacheOK f' /\
  match r with
  | Err _ => written = 0 /\ 0 < blen data
  | Ok (o', written', charge') => advance cs refs off data o written charge o' written' charge' /\ (0 < blen data -> 0 < written')
  end.
Proof using Type.
  intros Hc Hoff Hend. revert o written charge f w. induction fuel as [|fuel IH]; intros o written charge f w Hwr Hfuel Hv Hca Hrefs Ho; [lia|].
  cbn [bwLoop]. destruct (Z.leb_spec (blen data) written) as [Hdone|Hmore].
  { intros [= <- <- <-]. split; [apply aside_refl|]. split; [done|]. split; [apply advance_refl; [done|lia]|lia]. }
  destruct (turn_place cs off data written Hc Hoff Hend ltac:(lia)) as (Hpos&Hwithin&Hidx).
  set (idx := u64 (off + written) / cs) in *. set (within := u64 (off + written) mod cs) in *.
  intros Hb. apply bind_inv in Hb as [(got&[f1 w1]&Hgot&Hb)|(e&Hgot&_)].
  2:{ destruct (ofDirty o !! idx); [done|]. unfold attempt in Hgot. destruct (startChunk _ _ _ _ _ _ _). done. }
  destruct (turn_start cs refs o idx within (blen data - written) f w got f1 w1 Hc Hv Hca Hrefs Ho Hidx Hwithin ltac:(lia) Hgot) as (Ha1&Hc1&Hbuf).
  destruct got as [b|e].
  2:{ destruct (Z.ltb_spec 0 written); injection Hb as <- <- <-; (split; [done|]); (split; [done|]); [|lia]. split; [apply advance_refl; [done|lia]|done]. }
  destruct (Hbuf b eq_refl) as (Hbl&Hbc&Hbv).
  set (nw := if blen data - written <? cs - within then blen data - written else cs - within) in *.
  destruct (advance_turn cs refs off data o idx within written charge nw b Hc Hpos Hwithin Hidx ltac:(lia) eq_refl Ho Hbl Hbc Hbv) as [Hnw Hturn].
  pose proof (ad_written _ _ _ _ _ _ _ _ _ _ Hturn) as Hle.
  change (set_ofPendingTrim _ _) with (stored o idx (placeBytes within (btake nw (bdrop written data)) b)) in Hb.
  apply IH in Hb as (Ha2&Hc2&Hres); [|lia|lia|by destruct Ha1 as (?&?&->)|done|done|by eapply ad_ok].
  split; [by eapply aside_trans|]. split; [done|]. destruct r as [[[o' written'] charge']|e]; [|lia].
  destruct Hres as [Hres Hpos']. split; [by eapply advance_trans|done].
Qed.

End Chunks.
