(* ===== verification/FileSpec.v ===== *)
(** * One file: truncation and flushing against the view

    [resize] cuts the view at the new size and nothing else, and repointing a
    file's chunk list at its uploads leaves the view as it was. Both keep
    [fileOK]. *)

From stdpp Require Import sorting.
From S2P Require Import Prelude Vfs Modes Policy Inode ChunkCache Budget Store FsState Namespace Effects Data.
From S2P Require Import DataSpec.

(** The fields of an inode a change of its contents leaves alone. *)
Definition skelFields (n : inode) := (iID n, iGen n, iType n, iMode n, iUID n, iGID n, iNLink n, iEntries n, iParent n, iTarget n).

(** Every attribute but the size: these and the times. *)
Definition attrFields (n : inode) := (skelFields n, iATimeNS n, iMTimeNS n, iCTimeNS n).

Lemma attrFields_skel n n' : attrFields n' = attrFields n -> skelFields n' = skelFields n.
Proof. unfold attrFields. congruence. Qed.

Section File.
Context {Dg : Digest} {Ro : RunOrder}.

(** ** Truncation *)

Lemma capSum_nonneg m : (forall idx b, m !! idx = Some b -> 0 <= bCap b) -> 0 <= capSum m.
Proof using Type.
  unfold capSum. induction m as [|i b m Hi Hf IH] using map_first_key_ind; intros Hb; [done|].
  rewrite map_fold_insert_L; [|intros; lia|done].
  assert (0 <= bCap b) by (apply (Hb i); apply lookup_insert_eq).
  assert (0 <= map_fold (fun _ b s => s + bCap b) 0 m); [|lia].
  apply IH. intros j b' Hj. apply (Hb j). rewrite lookup_insert_ne; [done|]. intros ->. congruence.
Qed.

Lemma capSum_split (Q : Z * buf -> Prop) `{!forall x, Decision (Q x)} m :
  capSum m = capSum (filter Q m) + capSum (filter (fun x => ~ Q x) m).
Proof using Type.
  induction m as [|i b m Hi Hf IH] using map_first_key_ind; [done|].
  rewrite capSum_insert, Hi. destruct (decide (Q (i, b))) as [Hq|Hq].
  - rewrite (map_filter_insert_True Q), (map_filter_insert_False (fun x => ~ Q x)) by tauto.
    rewrite delete_id by done. rewrite capSum_insert.
    assert (filter Q m !! i = None) as -> by (apply map_lookup_filter_None; by left). lia.
  - rewrite (map_filter_insert_False Q), (map_filter_insert_True (fun x => ~ Q x)) by tauto.
    rewrite delete_id by done. rewrite capSum_insert.
    assert (filter (fun x => ~ Q x) m !! i = None) as -> by (apply map_lookup_filter_None; by left). lia.
Qed.

Lemma capSum_same m idx b b' :
  m !! idx = Some b -> bCap b' = bCap b -> capSum (<[idx := b']> m) = capSum m.
Proof using Type. intros Hm Hb. rewrite capSum_insert, Hm. lia. Qed.

Section Resize.
Context (cs size : Z) (n : inode) (o : openFile).
Hypotheses (Hcs : 0 < cs < 2 ^ 32) (Hsize : is_u64 size) (Hok : fileOK cs n o).

Let lastIdx := size / cs.
Let tail := size mod cs.

Lemma resize_split : size = lastIdx * cs + tail /\ 0 <= tail < cs /\ 0 <= lastIdx.
Proof using Hcs Hsize.
  unfold lastIdx, tail. rewrite mod_sub by lia. pose proof (Z.mod_pos_bound size cs ltac:(lia)) as H.
  rewrite mod_sub in H by lia. pose proof (div_nonneg size cs ltac:(lia) ltac:(unfold is_u64 in *; lia)). lia.
Qed.

Lemma cutDirty_lookup idx :
  (cutDirty lastIdx tail (ofDirty o)).1 !! idx =
    if decide (pastEnd lastIdx tail idx) then None
    else match ofDirty o !! idx with
         | Some b => Some (if decide (idx = lastIdx /\ tail < blen (bData b))
                           then mkBuf (btake tail (bData b)) (bCap b) else b)
         | None => None
         end.
Proof using Hcs.
  unfold cutDirty. simpl. set (m := filter _ _).
  assert (Hm : forall j, m !! j = if decide (pastEnd lastIdx tail j) then None else ofDirty o !! j).
  { intros j. unfold m. case_decide as Hp.
    - apply map_lookup_filter_None. right. intros b Hb. simpl. tauto.
    - destruct (ofDirty o !! j) as [b|] eqn:E; [by apply map_lookup_filter_Some|apply map_lookup_filter_None; by left]. }
  destruct (Z.eqb_spec tail 0) as [Et|Et].
  - rewrite Hm. case_decide as Hp; [done|]. destruct (ofDirty o !! idx) as [b|]; [|done].
    rewrite decide_False; [done|]. intros [-> _]. apply Hp. right. done.
  - assert (Hl : ~ pastEnd lastIdx tail lastIdx) by (intros [?|[_ ?]]; [lia|done]).
    rewrite Hm, (decide_False (P := pastEnd lastIdx tail lastIdx)) by done.
    destruct (ofDirty o !! lastIdx) as [b|] eqn:Eb.
    + destruct (Z.ltb_spec tail (blen (bData b))).
      * rewrite lookup_insert, Hm. destruct (decide (lastIdx = idx)) as [<-|Hne].
        -- rewrite decide_False by done. rewrite Eb. by rewrite decide_True.
        -- case_decide; [done|]. destruct (ofDirty o !! idx); [|done]. by rewrite decide_False by naive_solver.
      * rewrite Hm. case_decide; [done|]. destruct (ofDirty o !! idx) as [b'|] eqn:Eb'; [|done].
        rewrite decide_False; [done|]. intros [-> ?]. assert (b' = b) as -> by congruence. lia.
    + rewrite Hm. case_decide; [done|]. destruct (ofDirty o !! idx) as [b'|] eqn:Eb'; [|done].
      rewrite decide_False; [done|]. intros [-> ?]. congruence.
Qed.

Lemma cutDirty_sum : capSum (cutDirty lastIdx tail (ofDirty o)).1 = capSum (ofDirty o) - (cutDirty lastIdx tail (ofDirty o)).2.
Proof using Type.
  unfold cutDirty. simpl. rewrite (capSum_split (fun kb => pastEnd lastIdx tail kb.1) (ofDirty o)).
  set (m := filter (fun x => ~ pastEnd lastIdx tail x.1) (ofDirty o)).
  destruct (tail =? 0); [lia|]. destruct (m !! lastIdx) as [b|] eqn:Eb; [|lia].
  destruct (tail <? blen (bData b)); [|lia]. rewrite (capSum_same m lastIdx b) by done. lia.
Qed.

Lemma freed_nonneg : 0 <= (cutDirty lastIdx tail (ofDirty o)).2.
Proof using Hcs Hok.
  apply capSum_nonneg. intros idx b [Hb _]%map_lookup_filter_Some. destruct (fo_dirty cs n o Hok idx b Hb) as (_&_&->). lia.
Qed.

Lemma cutChunks_lookup idx :
  0 <= idx -> cutChunks lastIdx tail (iChunks n) !! Z.to_nat idx =
    if decide (pastEnd lastIdx tail idx) then None else iChunks n !! Z.to_nat idx.
Proof using Hcs Hsize.
  destruct resize_split as (_&Ht&Hl0). intros Hi. unfold cutChunks. set (L := blen (iChunks n)).
  assert (Hge : L <= idx -> iChunks n !! Z.to_nat idx = None) by (intros; apply lookup_ge_None_2; unfold L, blen in *; lia).
  unfold pastEnd. destruct (Z.ltb_spec lastIdx L).
  - destruct (Z.eqb_spec tail 0).
    + destruct (Z.ltb_spec lastIdx L); [|lia]. unfold btake. case_decide.
      * rewrite lookup_take_ge by lia. done.
      * rewrite lookup_take_lt by lia. done.
    + destruct (Z.ltb_spec (lastIdx + 1) L).
      * unfold btake. case_decide; [rewrite lookup_take_ge by lia|rewrite lookup_take_lt by lia]; done.
      * case_decide; [|done]. apply Hge. lia.
  - case_decide; [|done]. apply Hge. lia.
Qed.

Lemma cutChunks_len : blen (cutChunks lastIdx tail (iChunks n)) =
  Z.min (blen (iChunks n)) (if tail =? 0 then lastIdx else lastIdx + 1).
Proof using Hcs Hsize.
  destruct resize_split as (_&Ht&Hl0). unfold cutChunks. destruct (Z.ltb_spec lastIdx (blen (iChunks n))).
  - destruct (Z.eqb_spec tail 0).
    + destruct (Z.ltb_spec lastIdx (blen (iChunks n))); [rewrite blen_take by lia|]; lia.
    + destruct (Z.ltb_spec (lastIdx + 1) (blen (iChunks n))); [rewrite blen_take by lia|]; lia.
  - destruct (tail =? 0); lia.
Qed.

(** The stored chunk the cut falls inside of is the one at [lastIdx]. *)
Lemma cutRef_spec :
  cutRef lastIdx tail (cutChunks lastIdx tail (iChunks n)) =
    if decide (tail = 0) then None
    else match iChunks n !! Z.to_nat lastIdx with
         | Some ref => if isHole ref then None else Some ref
         | None => None
         end.
Proof using Hcs Hsize.
  destruct resize_split as (_&Ht&Hl0). unfold cutRef. rewrite cutChunks_len.
  destruct (Z.eqb_spec tail 0); [by rewrite decide_True|]. rewrite (decide_False (P := tail = 0)) by done. simpl.
  rewrite cutChunks_lookup, (decide_False (P := pastEnd _ _ _)) by (try (intros [?|[_ ?]]); lia).
  destruct (iChunks n !! Z.to_nat lastIdx) as [ref|] eqn:Er.
  - apply lookup_lt_Some in Er. destruct (Z.eqb_spec (Z.min (blen (iChunks n)) (lastIdx + 1)) (lastIdx + 1)); [done|unfold blen in *; lia].
  - by destruct (_ =? _).
Qed.

Let dirty' := (cutDirty lastIdx tail (ofDirty o)).1.
Let chunks1 := cutChunks lastIdx tail (iChunks n).
Let chunks' := growHoles cs lastIdx size n chunks1.
Let trims' := cutTrims lastIdx tail dirty' chunks1 (ofPendingTrim o).

Lemma cutTrims_lookup idx t :
  trims' !! idx = Some t <->
    (idx = lastIdx /\ tail ≠ 0 /\ ofDirty o !! lastIdx = None /\ exists ref,
       iChunks n !! Z.to_nat lastIdx = Some ref /\ isHole ref = false /\
       tail < match ofPendingTrim o !! lastIdx with Some t0 => tTo t0 | None => cSize ref end /\ t = mkTrim tail ref) \/
    (~ pastEnd lastIdx tail idx /\ ofPendingTrim o !! idx = Some t /\ (idx = lastIdx -> tTo t <= tail)).
Proof using Hcs Hsize Hok.
  destruct resize_split as (_&Ht&Hl0). unfold trims', cutTrims. set (m := filter _ (ofPendingTrim o)).
  assert (Hm : forall j, m !! j = if decide (pastEnd lastIdx tail j) then None else ofPendingTrim o !! j).
  { intros j. unfold m. case_decide as Hp.
    - apply map_lookup_filter_None. right. intros b Hb. simpl. tauto.
    - destruct (ofPendingTrim o !! j) as [b|] eqn:E; [by apply map_lookup_filter_Some|apply map_lookup_filter_None; by left]. }
  assert (Hlast : tail ≠ 0 -> ~ pastEnd lastIdx tail lastIdx) by (intros ? [?|[_ ?]]; [lia|done]).
  assert (Hkeep : forall P : Prop, ~ P -> (ofPendingTrim o !! lastIdx = Some t -> idx = lastIdx -> tail ≠ 0 -> tTo t <= tail) ->
     m !! idx = Some t <-> P \/ (~ pastEnd lastIdx tail idx /\ ofPendingTrim o !! idx = Some t /\ (idx = lastIdx -> tTo t <= tail))).
  { intros Q HQ Hle. rewrite Hm. case_decide as Hp; [split; [done|]; intros [?|(?&_)]; done|].
    split; [intros Hj; right; split; [done|]; split; [done|]|intros [?|(_&?&_)]; done].
    intros ->. apply Hle; try done. intros Et. apply Hp. by right. }
  unfold chunks1. rewrite cutRef_spec. unfold dirty'. rewrite cutDirty_lookup.
  destruct (decide (tail = 0)) as [Et|Et].
  { assert (m !! idx = Some t <-> (idx = lastIdx /\ tail ≠ 0 /\ ofDirty o !! lastIdx = None /\ exists ref,
       iChunks n !! Z.to_nat lastIdx = Some ref /\ isHole ref = false /\
       tail < match ofPendingTrim o !! lastIdx with Some t0 => tTo t0 | None => cSize ref end /\ t = mkTrim tail ref) \/
    (~ pastEnd lastIdx tail idx /\ ofPendingTrim o !! idx = Some t /\ (idx = lastIdx -> tTo t <= tail))) as Hg.
    { apply Hkeep; [tauto|done]. }
    destruct (decide (pastEnd lastIdx tail lastIdx)); [done|]. by destruct (ofDirty o !! lastIdx). }
  rewrite (decide_False (P := pastEnd lastIdx tail lastIdx)) by auto.
  destruct (ofDirty o !! lastIdx) as [b|] eqn:Ed.
  { apply Hkeep; [by intros (_&_&[=]&_)|]. intros Hx. destruct (fo_trims cs n o Hok _ _ Hx) as (_&?&_). congruence. }
  destruct (iChunks n !! Z.to_nat lastIdx) as [ref|] eqn:Er.
  2:{ apply Hkeep; [by intros (_&_&_&ref'&[=]&_)|]. intros Hx. destruct (fo_trims cs n o Hok _ _ Hx) as (_&_&?&_). congruence. }
  destruct (isHole ref) eqn:Eh.
  { apply Hkeep; [intros (_&_&_&ref'&[= <-]&?&_); congruence|]. intros Hx. destruct (fo_trims cs n o Hok _ _ Hx) as (_&_&?&?&_). congruence. }
  rewrite Hm, (decide_False (P := pastEnd lastIdx tail lastIdx)) by auto.
  destruct (Z.ltb_spec tail (match ofPendingTrim o !! lastIdx with Some t0 => tTo t0 | None => cSize ref end)) as [Hlt|Hge].
  - rewrite lookup_insert. destruct (decide (lastIdx = idx)) as [<-|Hne].
    + split.
      * intros [= <-]. left. split; [done|]. split; [done|]. split; [done|]. exists ref. auto.
      * intros [(_&_&_&ref'&Hr&_&_&->)|(_&Hx&Hle)]; [congruence|]. rewrite Hx in Hlt. specialize (Hle eq_refl). lia.
    + rewrite Hm. case_decide; [split; [done|]; intros [(->&_)|(?&_)]; done|]. split; [|intros [(->&_)|(_&?&_)]; done].
      intros Hj. right. split; [done|]. split; [done|]. intros ->. done.
  - apply Hkeep.
    + intros (_&_&_&ref'&[= <-]&_&?&_). lia.
    + intros Hx -> _. rewrite Hx in Hge. done.
Qed.

Lemma chunks'_stored idx trim w :
  0 <= idx -> storedByte chunks' trim idx w =
    if decide (pastEnd lastIdx tail idx) then zero_byte else storedByte (iChunks n) trim idx w.
Proof using Hcs Hsize.
  destruct resize_split as (_&Ht&Hl0). intros Hi. unfold storedByte, chunks', growHoles.
  assert (Hc : chunks1 !! Z.to_nat idx = if decide (pastEnd lastIdx tail idx) then None else iChunks n !! Z.to_nat idx)
    by by apply cutChunks_lookup.
  destruct (Z.ltb_spec (iSize n) size); [|rewrite Hc; by case_decide].
  destruct (decide (Z.to_nat idx < length chunks1)%nat) as [Hlt|Hge].
  { rewrite lookup_app_l by done. rewrite Hc. by case_decide. }
  assert (Hnone : chunks1 !! Z.to_nat idx = None) by (apply lookup_ge_None_2; lia).
  rewrite lookup_app_r by lia. set (k := (Z.to_nat idx - length chunks1)%nat).
  assert (Hz : forall x, replicate (Z.to_nat (lastIdx - blen chunks1)) (mkChunkRef "" (u32 cs)) !! k = Some x -> isHole x = true).
  { intros x [-> _]%lookup_replicate. done. }
  rewrite Hnone in Hc. destruct (replicate _ _ !! k) as [x|] eqn:Ex.
  - rewrite (Hz x) by done. case_decide; [done|]. by rewrite <- Hc.
  - case_decide; [done|]. by rewrite <- Hc.
Qed.

(** A chunk within the new end without a trim had none. *)
Lemma trims'_none idx :
  ofDirty o !! idx = None -> trims' !! idx = None -> idx < lastIdx \/ (idx = lastIdx /\ tail ≠ 0) -> ofPendingTrim o !! idx = None.
Proof using Hcs Hsize Hok.
  destruct resize_split as (_&Ht&_). intros Hb Hn Hp'. destruct (ofPendingTrim o !! idx) as [t0|] eqn:E0; [|done]. exfalso.
  assert (Hp : ~ pastEnd lastIdx tail idx) by (unfold pastEnd; lia).
  destruct (decide (idx = lastIdx /\ tail < tTo t0)) as [[Hi2 Hlt0]|Hno].
  - destruct (fo_trims cs n o Hok _ _ E0) as (_&Hd&Hr&Hh&_).
    assert (trims' !! idx = Some (mkTrim tail (tRef t0))); [|congruence]. apply cutTrims_lookup. left. rewrite <- Hi2, E0.
    split; [done|]. split; [lia|]. split; [done|]. exists (tRef t0). auto.
  - assert (trims' !! idx = Some t0); [|congruence]. apply cutTrims_lookup. right.
    split; [done|]. split; [done|]. intros ?. lia.
Qed.

Lemma resize_byte i :
  0 <= i -> fileByte cs chunks' (mkOpen dirty' trims' (ofBytes o - (cutDirty lastIdx tail (ofDirty o)).2)
      (cutUnsettled lastIdx tail chunks1 (ofUnsettled o))) i =
    if i <? size then fileByte cs (iChunks n) o i else zero_byte.
Proof using Hcs Hsize Hok.
  destruct resize_split as (Hsz&Ht&Hl0). intros Hi. unfold fileByte. simpl. set (idx := i / cs). set (w := i mod cs).
  assert (Hw : 0 <= w < cs) by (apply Z.mod_pos_bound; lia).
  assert (Hiw : i = idx * cs + w) by (unfold idx, w; rewrite mod_sub by lia; lia).
  assert (Hidx : 0 <= idx) by (apply div_nonneg; lia).
  assert (Hlt : (i <? size) = true <-> (idx < lastIdx \/ (idx = lastIdx /\ w < tail))) by (rewrite Z.ltb_lt; nia).
  unfold dirty'. rewrite cutDirty_lookup. destruct (decide (pastEnd lastIdx tail idx)) as [Hp|Hp].
  { rewrite chunks'_stored, decide_True by done. destruct (i <? size); [|done].
    exfalso. destruct Hp as [?|[??]]; destruct (proj1 Hlt eq_refl) as [?|[??]]; lia. }
  assert (Hp' : idx < lastIdx \/ (idx = lastIdx /\ tail ≠ 0)).
  { unfold pastEnd in Hp. destruct (Z.lt_trichotomy idx lastIdx) as [?|[->|?]]; [by left|right|exfalso; apply Hp; by left].
    split; [done|]. intros ?. apply Hp. right. done. }
  destruct (ofDirty o !! idx) as [b|] eqn:Eb.
  - case_decide as Hcut.
    + destruct Hcut as [-> Hcut]. simpl. rewrite bget_take. destruct (Z.ltb_spec w tail).
      * rewrite (proj2 Hlt) by lia. done.
      * destruct (i <? size); [|done]. destruct (proj1 Hlt eq_refl); lia.
    + destruct (i <? size) eqn:E; [done|]. apply bget_ge.
      assert (~ (idx < lastIdx \/ (idx = lastIdx /\ w < tail))) as Hn by (by rewrite <- Hlt). lia.
  - rewrite chunks'_stored, decide_False by done.
    destruct (trims' !! idx) as [t|] eqn:Et; simpl.
    + apply cutTrims_lookup in Et as [(->&Htl&_&ref&Hr&Hh&Hv&->)|(_&Hx&Hle)].
      * unfold storedByte. rewrite Hr, Hh. simpl.
        destruct (Z.ltb_spec w tail) as [Hwt|Hwt].
        -- rewrite (proj2 Hlt) by lia. destruct (ofPendingTrim o !! lastIdx) as [t0|]; simpl; [|done].
           by destruct (Z.ltb_spec w (tTo t0)); [|lia].
        -- destruct (i <? size); [|done]. destruct (proj1 Hlt eq_refl); lia.
      * rewrite Hx. simpl. destruct (i <? size) eqn:E; [done|].
        assert (~ (idx < lastIdx \/ (idx = lastIdx /\ w < tail))) as Hn by (by rewrite <- Hlt).
        unfold storedByte. destruct (iChunks n !! Z.to_nat idx) as [ref|]; [|done]. destruct (isHole ref); [done|].
        destruct (Z.ltb_spec w (tTo t)); [|done]. assert (idx = lastIdx) as Hi2 by lia. specialize (Hle Hi2). lia.
    + assert (Hold : ofPendingTrim o !! idx = None) by (apply trims'_none; [done|done|lia]). rewrite Hold. simpl.
      destruct (i <? size) eqn:E; [done|].
      assert (~ (idx < lastIdx \/ (idx = lastIdx /\ w < tail))) as Hn by (by rewrite <- Hlt).
      assert (idx = lastIdx /\ tail ≠ 0 /\ tail <= w) as (Hi2&Htl&Hwt) by lia.
      unfold storedByte. destruct (iChunks n !! Z.to_nat idx) as [ref|] eqn:Er; [|done].
      destruct (isHole ref) eqn:Eh; [done|]. apply bget_ge.
      pose proof (Forall_lookup_1 _ _ _ _ (fo_refs cs n o Hok) Er) as [_ Hr]. destruct (Hr Eh) as [_ ->].
      destruct (decide (cSize ref <= tail)); [lia|]. exfalso.
      assert (trims' !! idx = Some (mkTrim tail ref)); [|congruence]. apply cutTrims_lookup. left. rewrite <- Hi2, Hold.
      split; [done|]. split; [done|]. split; [done|]. exists ref. repeat split; try done. lia.
Qed.

(** A cut that leaves the file settled leaves nothing to trim. *)
Lemma resize_settled :
  let '(n', o', _) := resize cs size n o in
  (ofUnsettled o = false -> ofPendingTrim o = ∅) -> ofUnsettled o' = false ->
  ofPendingTrim o' = ∅ /\ forall i, iSize n' <= i -> fileByte cs (iChunks n') newOpenFile i = zero_byte.
Proof using Hcs Hsize Hok.
  unfold resize. fold lastIdx tail. pose proof cutTrims_lookup as Hctl. pose proof resize_split as (Hsz&Ht&Hl0).
  unfold dirty' in *. destruct (cutDirty lastIdx tail (ofDirty o)) as [d2 freed] eqn:Ecut. simpl in *.
  fold chunks1. fold chunks'. assert (Htr : cutTrims lastIdx tail d2 chunks1 (ofPendingTrim o) = trims') by reflexivity. rewrite Htr.
  intros Ho Hu. assert (Hcut : ofUnsettled o = false /\ forall ref, tail ≠ 0 -> iChunks n !! Z.to_nat lastIdx = Some ref -> isHole ref = false -> cSize ref <= tail).
  { unfold cutUnsettled, chunks1 in Hu. rewrite cutRef_spec in Hu. destruct (decide (tail = 0)); [done|].
    destruct (iChunks n !! Z.to_nat lastIdx) as [ref|]; [|by split]. destruct (isHole ref) eqn:Eh; [split; [done|]; intros ? _ [= <-]; congruence|].
    destruct (Z.ltb_spec tail (cSize ref)); [done|]. split; [done|]. by intros ? _ [= <-] _. }
  destruct Hcut as [Hu0 Hcut]. specialize (Ho Hu0). split.
  - apply map_empty. intros idx. destruct (trims' !! idx) as [t|] eqn:E; [|done]. exfalso.
    apply Hctl in E as [(_&Hne&_&ref&Hr&Hh&Hlt&_)|(_&Hx&_)]; rewrite Ho, lookup_empty in *; [|done].
    pose proof (Hcut ref Hne Hr Hh). lia.
  - intros i Hi. unfold fileByte. simpl. rewrite !lookup_empty. simpl.
    assert (Hw : 0 <= i mod cs < cs) by (apply Z.mod_pos_bound; lia). assert (Hidx : 0 <= i / cs) by (apply div_nonneg; lia).
    assert (Hiw : i = i / cs * cs + i mod cs) by (rewrite mod_sub by lia; lia).
    rewrite chunks'_stored by done. case_decide as Hp; [done|].
    assert (i / cs = lastIdx /\ tail ≠ 0 /\ tail <= i mod cs) as (Hix&Hne&Hge).
    { unfold pastEnd in Hp. assert (lastIdx <= i / cs) by nia. split; [lia|]. split; [lia|]. nia. }
    rewrite Hix. unfold storedByte. destruct (iChunks n !! Z.to_nat lastIdx) as [ref|] eqn:Er; [|done].
    destruct (isHole ref) eqn:Eh; [done|]. apply bget_ge. pose proof (Hcut ref Hne eq_refl Eh).
    pose proof (fo_refs cs n o Hok) as Hf. rewrite Forall_lookup in Hf. destruct (Hf _ _ Er) as [_ Hlen]. destruct (Hlen Eh). lia.
Qed.

Lemma resize_ok :
  let '(n', o', freed) := resize cs size n o in
  fileOK cs n' o' /\ iSize n' = size /\ skelFields n' = skelFields n /\ 0 <= freed /\
  ofBytes o' = ofBytes o - freed /\
  forall i, 0 <= i -> fileByte cs (iChunks n') o' i = if i <? size then fileByte cs (iChunks n) o i else zero_byte.
Proof using Hcs Hsize Hok.
  unfold resize. fold lastIdx tail. pose proof resize_byte as Hbyte. pose proof freed_nonneg as Hfr. pose proof cutDirty_sum as Hsum.
  pose proof cutDirty_lookup as Hdl. pose proof cutTrims_lookup as Hctl. pose proof resize_split as (Hsz&Ht&Hl0).
  unfold dirty' in *. destruct (cutDirty lastIdx tail (ofDirty o)) as [d2 freed] eqn:Ecut. simpl in *.
  fold chunks1. fold chunks'. assert (Htr : cutTrims lastIdx tail d2 chunks1 (ofPendingTrim o) = trims') by reflexivity.
  rewrite Htr. split; [|split; [done|split; [done|split; [done|split; [done|done]]]]].
  split; simpl.
  - done.
  - assert (Hf1 : Forall (refOK cs) chunks1).
    { unfold chunks1, cutChunks. pose proof (fo_refs cs n o Hok). destruct (_ <? _); [|done]. destruct (_ <? blen _); [|done]. by apply Forall_take. }
    unfold chunks', growHoles. destruct (iSize n <? size); [|done]. apply Forall_app. split; [done|].
    apply Forall_replicate. split; [|done]. simpl. rewrite u32_id; unfold is_u32; lia.
  - intros idx b. rewrite Hdl. case_decide; [done|]. destruct (ofDirty o !! idx) as [b0|] eqn:Eb; [|done].
    destruct (fo_dirty cs n o Hok idx b0 Eb) as (?&?&?). case_decide; intros [= <-]; simpl; [|done].
    rewrite blen_take by lia. split; [done|]. split; [lia|done].
  - intros idx t Hx.
    assert (Hch : forall ref, ~ pastEnd lastIdx tail idx -> 0 <= idx -> iChunks n !! Z.to_nat idx = Some ref -> chunks' !! Z.to_nat idx = Some ref).
    { intros ref Hp Hi Hr. assert (chunks1 !! Z.to_nat idx = Some ref) as H1.
      { unfold chunks1. rewrite cutChunks_lookup, decide_False by done. done. }
      unfold chunks', growHoles. destruct (iSize n <? size); [|done]. by apply lookup_app_l_Some. }
    apply Hctl in Hx as [(->&Htl&Hd&ref&Hr&Hh&Hv&->)|(Hp&Hx&_)]; simpl.
    + split; [done|]. split; [rewrite Hdl, Hd; by case_decide|]. split; [apply Hch; [intros [?|[_ ?]]; [lia|done]|done|done]|].
      split; [done|]. split; [lia|]. destruct (ofPendingTrim o !! lastIdx) as [t0|] eqn:E0; [|done].
      destruct (fo_trims cs n o Hok _ _ E0) as (_&_&Hr0&_&Hto). assert (tRef t0 = ref) as <- by congruence. lia.
    + destruct (fo_trims cs n o Hok _ _ Hx) as (H1&H2&H3&H4&H5). split; [done|].
      split; [rewrite Hdl, H2; by case_decide|]. split; [by apply Hch|]. done.
  - rewrite Hsum. rewrite (fo_bytes cs n o Hok). done.
  - intros i Hi. unfold is_u64 in Hsize. rewrite Hbyte by lia. destruct (Z.ltb_spec i size); [lia|done].
Qed.

End Resize.

(** A size change keeps chunks of the file and adds holes. *)
Lemma resize_chunks cs size n o (Q : chunkRef -> Prop) :
  (forall k, Q (mkChunkRef "" k)) -> Forall Q (iChunks n) -> Forall Q (iChunks (resize cs size n o).1.1).
Proof using Type.
  intros Hh Hq. unfold resize. destruct (cutDirty _ _ _) as [d freed]. simpl.
  assert (H1 : Forall Q (cutChunks (size / cs) (size mod cs) (iChunks n))).
  { unfold cutChunks. destruct (_ <? _); [|done]. destruct (_ <? blen _); [|done]. by apply Forall_take. }
  unfold growHoles. destruct (iSize n <? size); [|done]. apply Forall_app. split; [done|]. by apply Forall_replicate.
Qed.

(** ** Repointing at uploads *)

Definition refByte (ref : chunkRef) (w : Z) : byte := if isHole ref then zero_byte else bget (unsha (cHash ref)) w.

Lemma storedByte_none chunks idx w :
  storedByte chunks None idx w = match chunks !! Z.to_nat idx with Some ref => refByte ref w | None => zero_byte end.
Proof using Type. unfold storedByte, refByte. by destruct (chunks !! _) as [r|]; [destruct (isHole r)|]. Qed.

Lemma setChunk_byte idx ref chunks j w :
  0 <= idx < blen chunks -> 0 <= j ->
  storedByte (setChunk idx ref chunks) None j w = if decide (j = idx) then refByte ref w else storedByte chunks None j w.
Proof using Type.
  intros Hi Hj. unfold setChunk. destruct (Z.ltb_spec idx (blen chunks)); [|lia]. unfold blen in *.
  rewrite !storedByte_none. case_decide as E.
  - subst. rewrite list_lookup_insert_eq by lia. done.
  - rewrite list_lookup_insert_ne by lia. done.
Qed.

Lemma placeChunk_byte cs idx ref chunks j w :
  0 <= idx -> 0 <= j ->
  storedByte (placeChunk cs idx ref chunks) None j w = if decide (j = idx) then refByte ref w else storedByte chunks None j w.
Proof using Type.
  intros Hi Hj. unfold placeChunk. rewrite !storedByte_none. unfold blen in *. case_decide as E.
  - subst. rewrite list_lookup_insert_eq by (rewrite length_app, length_replicate; lia). done.
  - rewrite list_lookup_insert_ne by lia. destruct (decide (Z.to_nat j < length chunks)%nat).
    + by rewrite lookup_app_l.
    + rewrite (lookup_ge_None_2 chunks) by lia. rewrite lookup_app_r by lia.
      destruct (replicate _ _ !! _) as [x|] eqn:Ex; [|done]. by apply lookup_replicate in Ex as [-> _].
Qed.

Lemma setChunk_len idx ref chunks : blen (setChunk idx ref chunks) = blen chunks.
Proof using Type. unfold setChunk. destruct (_ <? _); [|done]. unfold blen. by rewrite length_insert. Qed.

Lemma setChunks_byte (g : Z -> chunkRef) l chunks j w :
  Forall (fun idx => 0 <= idx < blen chunks) l -> 0 <= j ->
  storedByte (fold_left (fun c ir => setChunk ir.1 ir.2 c) (map (fun i => (i, g i)) l) chunks) None j w =
    if decide (j ∈ l) then refByte (g j) w else storedByte chunks None j w.
Proof using Type.
  intros Hl Hj. revert chunks Hl. induction l as [|i l IH]; intros chunks Hl.
  { rewrite decide_False by apply not_elem_of_nil. done. }
  apply list.Forall_cons in Hl as [Hi Hl]. simpl. rewrite IH by (by rewrite setChunk_len).
  rewrite setChunk_byte by done. destruct (decide (j = i)) as [->|Hne].
  - rewrite (decide_True (P := i ∈ i :: l)) by apply list_elem_of_here. by case_decide.
  - apply decide_ext. rewrite elem_of_cons. tauto.
Qed.

Lemma placeChunks_byte cs (g : Z -> chunkRef) l chunks j w :
  Forall (fun idx => 0 <= idx) l -> 0 <= j ->
  storedByte (fold_left (fun c ir => placeChunk cs ir.1 ir.2 c) (map (fun i => (i, g i)) l) chunks) None j w =
    if decide (j ∈ l) then refByte (g j) w else storedByte chunks None j w.
Proof using Type.
  intros Hl Hj. revert chunks. induction Hl as [|i l Hi Hl IH]; intros chunks.
  { rewrite decide_False by apply not_elem_of_nil. done. }
  simpl. rewrite IH, placeChunk_byte by done. destruct (decide (j = i)) as [->|Hne].
  - rewrite (decide_True (P := i ∈ i :: l)) by apply list_elem_of_here. by case_decide.
  - apply decide_ext. rewrite elem_of_cons. tauto.
Qed.

Lemma repoint_refs cs (gt gu : Z -> chunkRef) lt lu chunks :
  0 < cs -> Forall (refOK cs) chunks ->
  (forall i, i ∈ lt -> refOK cs (gt i)) -> (forall i, i ∈ lu -> refOK cs (gu i)) ->
  Forall (refOK cs) (repoint cs (map (fun i => (i, gt i)) lt) (map (fun i => (i, gu i)) lu) chunks).
Proof using Type.
  intros Hcs Hc Ht Hu. unfold repoint.
  assert (H1 : Forall (refOK cs) (fold_left (fun c ir => setChunk ir.1 ir.2 c) (map (fun i => (i, gt i)) lt) chunks)).
  { revert chunks Hc. induction lt as [|i l IH]; intros chunks Hc; simpl; [done|].
    apply IH; [intros; apply Ht; by right|]. unfold setChunk. destruct (_ <? _); [|done].
    apply Forall_insert; [done|]. apply Ht, list_elem_of_here. }
  revert H1. generalize (fold_left (fun c ir => setChunk ir.1 ir.2 c) (map (fun i => (i, gt i)) lt) chunks). clear Hc Ht chunks.
  induction lu as [|i l IH]; intros chunks Hc; simpl; [done|].
  apply IH; [intros; apply Hu; by right|]. unfold placeChunk. apply Forall_insert; [|apply Hu, list_elem_of_here].
  apply Forall_app. split; [done|]. apply Forall_replicate. split; [simpl; lia|done].
Qed.

(** The references a flush of [o] puts in place. *)
Definition uploadRef (o : openFile) (idx : Z) : chunkRef :=
  let d := match ofDirty o !! idx with Some b => bData b | None => [] end in
  mkChunkRef (sha d) (u32 (blen d)).

Definition trimRef (o : openFile) (idx : Z) : chunkRef :=
  let d := match ofPendingTrim o !! idx with Some t => btake (tTo t) (chunkData (tRef t)) | None => [] end in
  mkChunkRef (sha d) (u32 (blen d)).

Lemma sha_ref d cs : 0 < cs < 2 ^ 32 -> blen d <= cs ->
  let ref := mkChunkRef (sha d) (u32 (blen d)) in
  isHole ref = false /\ refOK cs ref /\ forall w, refByte ref w = bget d w.
Proof using Type.
  intros Hcs Hd. pose proof (blen_nonneg d). cbv zeta.
  assert (isHole (mkChunkRef (sha d) (u32 (blen d))) = false) as Hh.
  { unfold isHole. simpl. destruct (String.eqb_spec (sha d) ""); [|done]. by destruct (sha_nonempty d). }
  split; [done|]. split.
  - split; simpl; [rewrite u32_id by (unfold is_u32; lia); lia|]. intros _. rewrite unsha_sha, u32_id by (unfold is_u32; lia). done.
  - intros w. unfold refByte. rewrite Hh. simpl. by rewrite unsha_sha.
Qed.

Lemma sortedIdxs_elem dirty idx : idx ∈ sortedIdxs dirty <-> is_Some (dirty !! idx).
Proof using Type.
  unfold sortedIdxs. rewrite merge_sort_Permutation, elem_of_elements, elem_of_dom. done.
Qed.

Lemma ranged_elem (X : gset Z) idx : idx ∈ ranged X <-> idx ∈ X.
Proof using Type. rewrite ranged_perm. apply elem_of_elements. Qed.

(** The chunk list a flush leaves. *)
Definition flushedChunks (cs : Z) (o : openFile) (chunks : list chunkRef) : list chunkRef :=
  repoint cs (map (fun i => (i, trimRef o i)) (ranged (dom (ofPendingTrim o))))
    (map (fun i => (i, uploadRef o i)) (sortedIdxs (ofDirty o))) chunks.

Lemma flush_file_ok cs n o :
  0 < cs < 2 ^ 32 -> fileOK cs n o ->
  fileOK cs (set_iChunks (flushedChunks cs o (iChunks n)) n) newOpenFile /\
  forall i, 0 <= i -> fileByte cs (flushedChunks cs o (iChunks n)) newOpenFile i = fileByte cs (iChunks n) o i.
Proof using Type.
  intros Hcs Hok.
  assert (Htr : forall idx t, ofPendingTrim o !! idx = Some t ->
            0 <= idx < blen (iChunks n) /\ blen (btake (tTo t) (chunkData (tRef t))) <= cs).
  { intros idx t Hx. destruct (fo_trims cs n o Hok idx t Hx) as (H1&_&H3&H4&H5).
    pose proof (Forall_lookup_1 _ _ _ _ (fo_refs cs n o Hok) H3) as [Hs Hr]. destruct (Hr H4) as [_ Hl].
    apply lookup_lt_Some in H3. unfold blen at 1, chunkData. rewrite H4. split; [lia|]. rewrite blen_take by lia. lia. }
  assert (Hbyte : forall i, 0 <= i -> fileByte cs (flushedChunks cs o (iChunks n)) newOpenFile i = fileByte cs (iChunks n) o i).
  { intros i Hi. unfold fileByte at 1. simpl. rewrite !lookup_empty. simpl. unfold flushedChunks, repoint, fileByte.
    set (idx := i / cs). assert (Hidx : 0 <= idx) by (apply div_nonneg; lia).
    rewrite placeChunks_byte; [|apply list.Forall_forall; intros j [b Hb]%sortedIdxs_elem; by destruct (fo_dirty cs n o Hok j b Hb)|done].
    rewrite setChunks_byte; [|apply list.Forall_forall; intros j Hj; apply ranged_elem, elem_of_dom in Hj as [t Hx]; by destruct (Htr j t Hx)|done].
    destruct (ofDirty o !! idx) as [b|] eqn:Eb.
    - rewrite decide_True by (apply sortedIdxs_elem; eauto). unfold uploadRef. rewrite Eb.
      destruct (fo_dirty cs n o Hok idx b Eb) as (_&Hl&_). apply (sha_ref (bData b) cs); done.
    - rewrite decide_False by (rewrite sortedIdxs_elem, Eb; by intros [? ?]).
      destruct (ofPendingTrim o !! idx) as [t|] eqn:Et; simpl.
      + rewrite decide_True by (apply ranged_elem, elem_of_dom; eauto). unfold trimRef. rewrite Et.
        destruct (Htr idx t Et) as [_ Hl]. destruct (sha_ref _ cs Hcs Hl) as (_&_&->). rewrite bget_take.
        destruct (fo_trims cs n o Hok idx t Et) as (_&_&H3&H4&_). unfold storedByte, chunkData. by rewrite H3, H4.
      + rewrite decide_False; [done|]. rewrite ranged_elem, elem_of_dom, Et. by intros [? ?]. }
  split; [|done]. split; simpl.
  - apply Hok.
  - apply repoint_refs; [lia|apply Hok| |].
    + intros idx [t Ht]%ranged_elem%elem_of_dom. unfold trimRef. rewrite Ht. destruct (Htr idx t Ht). by apply sha_ref.
    + intros idx [b Hb]%sortedIdxs_elem. unfold uploadRef. rewrite Hb. destruct (fo_dirty cs n o Hok idx b Hb) as (_&?&_). by apply sha_ref.
  - intros idx b. by rewrite lookup_empty.
  - intros idx t. by rewrite lookup_empty.
  - done.
  - intros i Hi. pose proof (fo_size cs n o Hok) as Hu. unfold is_u64 in Hu. rewrite Hbyte by lia. by apply Hok.
Qed.

End File.
