(* ===== verification/DataInv.v ===== *)
(** * The data path keeps the mount's invariant

    [good] is the invariant of a mount between operations: the namespace is
    well formed, every file is, the cache holds what its hashes say, and the
    budget is charged exactly for what is buffered. Buffered writes, size
    changes and flushes, whether they fail or not, keep it. *)

From stdpp Require Import sorting.
From S2P Require Import Prelude Vfs Modes Policy Inode ChunkCache Budget Store FsState Tree Namespace.
From S2P Require Import NamespaceInv Effects Data DataSpec FileSpec.

Definition chargeSum (m : gmap Z openFile) : Z := map_fold (fun _ o s => s + ofBytes o) 0 m.

Lemma chargeSum_insert m id o :
  chargeSum (<[id := o]> m) = chargeSum m + (ofBytes o - match m !! id with Some o0 => ofBytes o0 | None => 0 end).
Proof.
  assert (Hnew : forall m' : gmap Z openFile, m' !! id = None -> forall o, chargeSum (<[id := o]> m') = chargeSum m' + ofBytes o).
  { intros m' Hm o'. unfold chargeSum. rewrite map_fold_insert_L; [done| |done]. intros; lia. }
  destruct (m !! id) as [o0|] eqn:E.
  - rewrite <- (insert_delete_id m id o0) at 2 by done. rewrite <- insert_delete_eq.
    rewrite !Hnew by apply lookup_delete_eq. lia.
  - rewrite Hnew by done. lia.
Qed.

Section Inv.
Context {Dg : Digest} {Ro : RunOrder}.

Record dataOK (f : FS) : Prop := {
  do_cs : 0 < chunkSize (cf f) < 2 ^ 32;
  do_max : 0 <= maxFileSize (cf f) < 2 ^ 64;
  do_verify : skipVerify (cf f) = false;
  do_cache : cacheOK f;
  do_files : forall id n, inodes f !! id = Some n -> fileOK (chunkSize (cf f)) n (bufOf f id);
  do_charge : Budget.charge (budget f) = chargeSum (open f)
}.

Definition good (f : FS) : Prop := wf f /\ dataOK f.

(** [f'] is [f] with the inode and the buffer of [id] replaced and [dc] more
    bytes charged, but for the dirty mark, the cache and the known chunks. *)
Record touches (f f' : FS) (id : Z) (n' : inode) (o' : openFile) (dc : Z) : Prop := {
  to_cf : cf f' = cf f;
  to_mode : mode f' = mode f;
  to_inodes : inodes f' = <[id := n']> (inodes f);
  to_next : nextIno f' = nextIno f;
  to_fsid : fsid f' = fsid f;
  to_open : open f' = <[id := o']> (open f);
  to_charge : Budget.charge (budget f') = Budget.charge (budget f) + dc
}.

Lemma skelFields_skel n n' : skelFields n' = skelFields n -> skel n' = skel n /\ iGen n' = iGen n /\ iEntries n' = iEntries n.
Proof using Type. unfold skelFields, skel, isDir. intros [= -> -> -> ? ? ? -> -> -> ?]. done. Qed.

Lemma touches_good f f' id n n' o' dc :
  good f -> inodes f !! id = Some n -> touches f f' id n' o' dc -> skel n' = skel n -> iGen n' = iGen n ->
  cacheOK f' -> fileOK (chunkSize (cf f)) n' o' -> dc = ofBytes o' - ofBytes (bufOf f id) -> good f'.
Proof using Type.
  intros [Hw Hd] Hn [Hcf Hmode Hi Hnx Hfs Ho Hch] Hs Hg Hca Hok Hdc.
  assert (He : iEntries n' = iEntries n) by exact (f_equal nEntries Hs). split.
  - split.
    + assert (shape f' = shape f) as ->; [|apply Hw]. unfold shape. rewrite Hi, fmap_insert, Hs.
      apply insert_id. rewrite lookup_fmap, Hn. done.
    + rewrite Hnx. apply Hw.
    + intros j m. rewrite Hi, Hnx, lookup_insert. case_decide; [subst|apply (wf_ids f Hw)]. intros _. by apply (wf_ids f Hw _ n).
    + intros j m. rewrite Hi, lookup_insert. case_decide; [subst|apply (wf_gens f Hw)]. intros [= <-]. rewrite Hg. by apply (wf_gens f Hw j n).
    + intros j m x c. rewrite Hi, lookup_insert. case_decide; [subst|apply (wf_names f Hw)]. intros [= <-]. rewrite He. by apply (wf_names f Hw j n).
    + intros j. rewrite Ho, Hi, !lookup_insert. case_decide; [done|]. apply (wf_open f Hw).
  - split; rewrite ?Hcf; try apply Hd; [done| |].
    + intros j m. rewrite Hi. unfold bufOf. rewrite Ho, !lookup_insert. case_decide; [by intros [= <-]|apply (do_files f Hd)].
    + rewrite Hch, Ho, chargeSum_insert, (do_charge f Hd). unfold bufOf in Hdc. destruct (open f !! id); simpl in Hdc; lia.
Qed.

Lemma aside_good f f' : good f -> aside f f' -> cacheOK f' -> good f'.
Proof using Type.
  intros [Hw Hd] (c&k&->) Hca. split; [apply (wf_ext f); eauto|]. destruct Hd. by split.
Qed.

Lemma good_bufOK f id n : good f -> inodes f !! id = Some n -> bufOK (chunkSize (cf f)) (iChunks n) (bufOf f id).
Proof using Type. intros [_ Hd] Hn. pose proof (do_files f Hd id n Hn) as H. split; apply H. Qed.

(** The resolution of a handle whose inode was touched. *)
Lemma resolve_touched f f' id n n' h :
  resolve f h = Ok (id, n) -> inodes f' !! id = Some n' -> iGen n' = iGen n -> resolve f' h = Ok (id, n').
Proof using Type.
  intros Hr Hi Hg. unfold resolve in *. destruct (decodeHandle h) as [[k gen]|]; [|done].
  destruct (inodes f !! k) as [m|] eqn:E; [|done]. destruct (Z.eqb_spec (iGen m) gen) as [Eg|]; [|done].
  injection Hr as -> ->. rewrite Hi, Hg. by destruct (Z.eqb_spec (iGen n) gen).
Qed.

End Inv.

Section Operations.
Context {W : Type} {St : Store W} {Dg : Digest} {Ro : RunOrder} {P : Policy}.

(** ** Buffered writes *)

(** The premises of the loop's specification, from the invariant. *)
Ltac loop_pre := first [lia | assumption | apply do_verify; assumption | apply do_cache; assumption | eapply fo_refs; eassumption].

(** What publishing a write changes: the one inode and its buffer. *)
Lemma publishWrite_touches h id n o o' off k charge now f f1 :
  resolve f h = Ok (id, n) -> open f !! id = Some o -> 0 <= off + k < 2 ^ 64 -> 0 <= charge -> aside f f1 -> cacheOK f1 ->
  let f' := publishWrite h id o' off k charge now f1 in
  touches f f' id (touchA now (touchM now (if iSize n <? off + k then set_iSize (off + k) n else n)))
    (set_ofBytes (ofBytes o' + charge) o') charge /\ cacheOK f' /\ dirty f' = true.
Proof using Type.
  intros Hr Ho Hk Hch (c0&k0&->) Hca. pose proof (resolve_ok f h id n Hr) as (Hn&_&_).
  set (n2 := touchA _ _). set (o2 := set_ofBytes _ _). cbv zeta.
  assert (Hf2 : exists g, publishWrite h id o' off k charge now (set_knownChunks k0 (set_cache c0 f)) =
      markDirty (upd id (fun _ => n2) (setOpen id o2 g)) /\ inodes g = inodes f /\ open g = open f /\ cf g = cf f /\ mode g = mode f /\
      nextIno g = nextIno f /\ fsid g = fsid f /\ cache g = c0 /\ Budget.charge (budget g) = Budget.charge (budget f) + charge).
  { unfold publishWrite. set (g := if 0 <? charge then set_budget _ _ else _).
    assert (Hres : resolve g h = Ok (id, n)).
    { rewrite <- Hr. unfold g. by destruct (0 <? charge). }
    rewrite Hres, u64_id by (unfold is_u64; lia). exists g. split.
    - unfold n2. f_equal. f_equal. unfold o2. destruct (Z.ltb_spec 0 charge); [done|].
      assert (charge = 0) as -> by lia. rewrite Z.add_0_r. by destruct o'.
    - unfold g. destruct (Z.ltb_spec 0 charge); simpl; [|replace charge with 0 by lia; rewrite Z.add_0_r]; done. }
  destruct Hf2 as (g&->&G1&G2&G3&G4&G5&G6&G7&G8). split; [|split; [|done]].
  - split; try done; simpl.
    + rewrite G1. apply map_eq. intros j. rewrite lookup_alter, lookup_insert. case_decide; [subst; by rewrite Hn|done].
    + rewrite G2. apply map_eq. intros j. rewrite lookup_alter, lookup_insert. case_decide; [subst; by rewrite Ho|done].
  - unfold cacheOK in *. simpl in *. by rewrite G7.
Qed.

Lemma bufferWrite_spec h id n off data now f w r f' w' :
  good f -> resolve f h = Ok (id, n) -> is_Some (open f !! id) ->
  0 <= off -> off + blen data <= maxFileSize (cf f) ->
  bufferWrite h id (bufOf f id) off data now (f, w) = (r, (f', w')) ->
  good f' /\
  match r with
  | Err _ => aside f f' /\ 0 < blen data
  | Ok k =>
      0 <= k <= blen data /\ (0 < blen data -> 0 < k) /\
      exists n' o' dc, touches f f' id n' o' dc /\ skelFields n' = skelFields n /\
        iChunks n' = iChunks n /\ iSize n' = Z.max (iSize n) (off + k) /\ 0 <= dc /\ dirty f' = true /\
        forall i, 0 <= i -> fileByte (chunkSize (cf f)) (iChunks n') o' i =
          if decide (off <= i < off + k) then bget data (i - off)
          else fileByte (chunkSize (cf f)) (iChunks n) (bufOf f id) i
  end.
Proof using Type.
  intros Hgood Hr [o Ho] Hoff Hend. pose proof Hgood as [Hw Hd]. set (cs := chunkSize (cf f)).
  pose proof (do_cs f Hd) as Hcs. pose proof (do_max f Hd) as Hmax. fold cs in Hcs.
  pose proof (resolve_ok f h id n Hr) as (Hn&_&_). pose proof (do_files f Hd id n Hn) as Hok. fold cs in Hok.
  assert (Hb : bufOf f id = o) by (unfold bufOf; by rewrite Ho). rewrite Hb in *.
  pose proof (blen_nonneg data) as Hlen.
  assert (Hfuel : blen data - 0 < Z.of_nat (S (length data))) by (unfold blen; lia).
  assert (Hbo : bufOK cs (iChunks n) o) by (split; apply Hok).
  unfold bufferWrite. rewrite (bind_ok _ _ _ f (f, w)) by done. rewrite Hr. fold cs.
  intros Hrun. apply bind_inv in Hrun as [([[o' k] charge]&[f1 w1]&Hloop&Hrun)|(e&Hloop&->)].
  2:{ apply bwLoop_spec in Hloop as (Ha&Hca&Hres); [|loop_pre..].
      split; [by eapply aside_good|]. split; [done|lia]. }
  apply bwLoop_spec in Hloop as (Ha&Hca&[Hk1 Hbuf Hby Hun _ [Hch Hch0] Hview]&Hk2); [|loop_pre..].
  unfold modFS, bind, ret in Hrun. simpl in Hrun. injection Hrun as <- <- <-.
  set (o2 := set_ofBytes (ofBytes o' + charge) o').
  set (n2 := touchA now (touchM now (if iSize n <? off + k then set_iSize (off + k) n else n))).
  destruct (publishWrite_touches h id n o o' off k charge now f f1 Hr Ho ltac:(lia) ltac:(lia) Ha Hca) as (Ht&Hca'&Hdirty).
  fold o2 n2 in Ht.
  assert (Hn2 : skelFields n2 = skelFields n /\ iChunks n2 = iChunks n /\ iSize n2 = Z.max (iSize n) (off + k)).
  { unfold n2. destruct (Z.ltb_spec (iSize n) (off + k)); simpl; (split; [done|]); (split; [done|]); lia. }
  destruct Hn2 as (Hsk&Hch2&Hsz).
  assert (Hv2 : forall i, fileByte cs (iChunks n2) o2 i = fileByte cs (iChunks n) o' i) by (intros i; by rewrite Hch2).
  assert (Hok2 : fileOK cs n2 o2).
  { pose proof (fo_size cs n o Hok) as Hu. unfold is_u64 in Hu. split.
    - rewrite Hsz. unfold is_u64. lia.
    - rewrite Hch2. apply Hok.
    - apply Hbuf.
    - rewrite Hch2. apply Hbuf.
    - unfold o2. simpl. rewrite Hby, (fo_bytes cs n o Hok). lia.
    - intros i Hi. rewrite Hv2, Hview by lia. rewrite decide_False by lia. apply Hok. lia. }
  split.
  - destruct (skelFields_skel n n2 Hsk) as (?&?&_). eapply (touches_good f _ id n n2 o2); try done. rewrite Hb. unfold o2. simpl. lia.
  - split; [done|]. split; [done|]. exists n2, o2, charge. split; [done|]. split; [done|]. split; [done|]. split; [done|].
    split; [lia|]. split; [done|]. intros i Hi. rewrite Hv2, Hview by done. rewrite Z.add_0_r. done.
Qed.

(** ** Size changes *)

Lemma alter_insert_at {A} (m : gmap Z A) k (x y : A) : m !! k = Some x -> alter (fun _ => y) k m = <[k := y]> m.
Proof using Type.
  intros Hk. apply map_eq. intros j. rewrite lookup_alter, lookup_insert. case_decide; [subst; by rewrite Hk|done].
Qed.

Lemma applySetAttr_contents n sa now :
  iChunks (applySetAttr n sa now).1 = iChunks n /\ iSize (applySetAttr n sa now).1 = iSize n /\
  iTarget (applySetAttr n sa now).1 = iTarget n.
Proof using Type. unfold applySetAttr. by destruct (saMode sa), (saUID sa), (saGID sa), (saATime sa), (saMTime sa). Qed.

Lemma fileOK_contents cs n n' o : fileOK cs n o -> iChunks n' = iChunks n -> iSize n' = iSize n -> fileOK cs n' o.
Proof using Type. intros [H1 H2 H3 H4 H5 H6] Hc Hs. split; rewrite ?Hc, ?Hs; done. Qed.

Lemma truncate_inv f c h sa size now r f' :
  good f -> is_u64 size -> truncate f c h sa size now = (r, f') ->
  good f' /\
  match r with
  | Err _ => f' = f
  | Ok a => exists id n n' o' dc, resolve f h = Ok (id, n) /\ touches f f' id n' o' dc /\ size <= maxFileSize (cf f) /\
      iGen n' = iGen n /\ skel n' = skel n /\ iSize n' = size /\ dc <= 0 /\ a = attr (fsid f) n' /\ dirty f' = true /\
      iTarget n' = iTarget n /\ knownChunks f' = knownChunks f /\
      (forall Q : chunkRef -> Prop, (forall k, Q (mkChunkRef "" k)) -> Forall Q (iChunks n) -> Forall Q (iChunks n')) /\
      forall i, 0 <= i -> fileByte (chunkSize (cf f)) (iChunks n') o' i =
        if i <? size then fileByte (chunkSize (cf f)) (iChunks n) (bufOf f id) i else zero_byte
  end.
Proof using Type.
  intros Hgood Hsize. pose proof Hgood as [Hw Hd]. unfold truncate.
  destruct (Z.ltb_spec (maxFileSize (cf f)) size) as [Hm|Hm]; [by intros [= <- <-]|].
  destruct (resolve f h) as [[id n]|] eqn:Hr; [|by intros [= <- <-]].
  destruct (setAttrRequests c n sa) eqn:Hq; [by intros [= <- <-]|].
  pose proof (resolve_ok f h id n Hr) as (Hn&_&_). rewrite (wf_id f id n Hw Hn).
  set (g := (getOpen id f).2).
  assert (Hg : getOpen id f = (bufOf f id, g) /\ open g = <[id := bufOf f id]> (open f) /\ inodes g = inodes f /\ cf g = cf f /\
    mode g = mode f /\ nextIno g = nextIno f /\ fsid g = fsid f /\ budget g = budget f /\ cache g = cache f /\ knownChunks g = knownChunks f).
  { unfold g, getOpen, bufOf. destruct (open f !! id) as [o|] eqn:Eo; simpl; [|done].
    rewrite (insert_id (open f)) by done. done. }
  destruct Hg as (Hge&G1&G2&G3&G4&G5&G6&G7&G8&G9). rewrite Hge.
  assert (Hrg : resolve g h = Ok (id, n)). { rewrite <- Hr. unfold resolve. by rewrite G2. }
  rewrite Hrg, Hq, G3. pose proof (resize_ok (chunkSize (cf f)) size n (bufOf f id) (do_cs f Hd) Hsize (do_files f Hd id n Hn)) as Hrs.
  pose proof (fun Q => resize_chunks (chunkSize (cf f)) size n (bufOf f id) Q) as Hrc.
  destruct (resize _ _ _ _) as [[n1 o1] freed]. simpl in Hrc. destruct Hrs as (Hok&Hsz&Hsk&Hfr&Hby&Hview).
  destruct (applySetAttr_same (touchM now n1) sa now) as (S1&S2&_). destruct (applySetAttr_contents (touchM now n1) sa now) as (S3&S4&S5).
  destruct (applySetAttr (touchM now n1) sa now) as [n2 b]. simpl in S1, S2, S3, S4, S5.
  set (g2 := if 0 <? freed then set_budget _ _ else g).
  assert (Hg2 : open g2 = open g /\ inodes g2 = inodes g /\ cf g2 = cf g /\ mode g2 = mode g /\ nextIno g2 = nextIno g /\ fsid g2 = fsid g /\
    cache g2 = cache g /\ knownChunks g2 = knownChunks g /\ Budget.charge (budget g2) = Budget.charge (budget g) - freed).
  { unfold g2. destruct (Z.ltb_spec 0 freed); simpl; [done|]. repeat (split; [done|]). lia. }
  destruct Hg2 as (K1&K2&K3&K4&K5&K6&K7&K9&K8). intros [= <- <-].
  destruct (skelFields_skel n n1 Hsk) as (T1&T2&_).
  assert (Hskel : skel n2 = skel n) by (rewrite S1; exact T1).
  assert (Hgen : iGen n2 = iGen n) by (rewrite S2; exact T2).
  assert (Ht : touches f (markDirty (upd id (fun _ => n2) (setOpen id o1 g2))) id n2 o1 (- freed)).
  { split; simpl; try congruence.
    - rewrite K2, G2. by eapply alter_insert_at.
    - rewrite K1, G1. rewrite (alter_insert_at _ id (bufOf f id)) by apply lookup_insert_eq. apply insert_insert_eq.
    - rewrite K8, G7. lia. }
  assert (Hok2 : fileOK (chunkSize (cf f)) n2 o1) by (by eapply fileOK_contents).
  split.
  - eapply (touches_good f _ id n n2 o1); try done; [|lia].
    unfold cacheOK. simpl. rewrite K7, G8. apply Hd.
  - exists id, n, n2, o1, (- freed). simpl. rewrite K6, G6, S3.
    split; [done|]. split; [done|]. split; [done|]. split; [done|]. split; [done|]. split; [by rewrite S4|]. split; [lia|].
    split; [done|]. split; [done|]. split; [|split; [by rewrite K9, G9|done]].
    rewrite S5. unfold skelFields in Hsk. by injection Hsk.
Qed.

(** ** Flushes *)

(** The state a chunk transfer needs and keeps. *)
Definition fetching (f : FS) : Prop := cacheOK f /\ skipVerify (cf f) = false.

Lemma aside_fetching f f' : fetching f -> aside f f' -> cacheOK f' -> fetching f'.
Proof using Type. intros [_ Hv] (c&k&->) Hc. done. Qed.

Lemma forEach_map {A B} (l : list A) (k : A -> act W B) (g : A -> B) f w r f' w' :
  (forall a f w r f' w', a ∈ l -> fetching f -> k a (f, w) = (r, (f', w')) ->
     aside f f' /\ cacheOK f' /\ forall b, r = Ok b -> b = g a) ->
  fetching f -> forEach l k (f, w) = (r, (f', w')) ->
  aside f f' /\ cacheOK f' /\ forall bs, r = Ok bs -> bs = map g l.
Proof using Type.
  revert f w r f' w'. induction l as [|a l IH]; intros f w r f' w' Hk Hf; cbn [forEach].
  { intros [= <- <- <-]. split; [apply aside_refl|]. split; [apply Hf|]. by intros bs [= <-]. }
  intros Hb. apply bind_inv in Hb as [(b&[f1 w1]&H1&Hb)|(e&H1&->)].
  2:{ destruct (Hk _ _ _ _ _ _ (list_elem_of_here _ _) Hf H1) as (?&?&_). done. }
  destruct (Hk _ _ _ _ _ _ (list_elem_of_here _ _) Hf H1) as (Ha&Hc&Hg). specialize (Hg b eq_refl). subst b.
  assert (Hf1 : fetching f1) by (by eapply aside_fetching).
  assert (Hk' : forall a f w r f' w', a ∈ l -> fetching f -> k a (f, w) = (r, (f', w')) ->
     aside f f' /\ cacheOK f' /\ forall b, r = Ok b -> b = g a) by (intros; eapply Hk; eauto; by right).
  apply bind_inv in Hb as [(bs&[f2 w2]&H2&Hb)|(e&H2&->)].
  - destruct (IH _ _ _ _ _ Hk' Hf1 H2) as (Ha2&Hc2&Hbs). injection Hb as <- <- <-.
    split; [by eapply aside_trans|]. split; [done|]. intros bs' [= <-]. simpl. f_equal. by apply Hbs.
  - destruct (IH _ _ _ _ _ Hk' Hf1 H2) as (Ha2&Hc2&_). split; [by eapply aside_trans|]. done.
Qed.

Lemma applyTrim_spec cs n o idx t f w r f' w' :
  fileOK cs n o -> ofPendingTrim o !! idx = Some t -> fetching f -> applyTrim t (f, w) = (r, (f', w')) ->
  aside f f' /\ cacheOK f' /\ forall ref, r = Ok ref -> ref = trimRef o idx.
Proof using Type.
  intros Hok Hx [Hca Hv] Hb. destruct (fo_trims cs n o Hok idx t Hx) as (_&_&H3&H4&H5).
  pose proof (Forall_lookup_1 _ _ _ _ (fo_refs cs n o Hok) H3) as [_ Hr]. destruct (Hr H4) as [_ Hl].
  unfold applyTrim in Hb. apply bind_inv in Hb as [(d&[f1 w1]&H1&Hb)|(e&H1&->)].
  - destruct (loadChunk_spec _ _ _ _ _ _ Hv Hca H1) as (Ha&Hc&Hd). destruct (Hd d eq_refl) as [-> _].
    destruct (putChunk_spec _ _ _ _ _ _ Hc Hb) as (Ha2&Hc2&Hp). split; [by eapply aside_trans|]. split; [done|].
    intros ref Href. rewrite (Hp ref Href). unfold trimRef. rewrite Hx. unfold chunkData. rewrite H4.
    destruct (Z.ltb_spec (tTo t) (blen (unsha (cHash (tRef t))))); [done|lia].
  - destruct (loadChunk_spec _ _ _ _ _ _ Hv Hca H1) as (Ha&Hc&_). done.
Qed.

(** Past a failure, [orDrop] leaves a file that exists as it was. *)
Lemma orDrop_inv {A} id o (m : act W A) f w r f' w' n :
  inodes f !! id = Some n -> (forall r f1 w1, m (f, w) = (r, (f1, w1)) -> aside f f1) ->
  orDrop id o m (f, w) = (r, (f', w')) -> m (f, w) = (r, (f', w')).
Proof using Type.
  intros Hn Hm. unfold orDrop, attempt, bind, ret, fail, modFS. specialize (Hm (m (f, w)).1 (m (f, w)).2.1 (m (f, w)).2.2).
  destruct (m (f, w)) as [[a|e] [f1 w1]]; simpl in *; [done|]. destruct (Hm eq_refl) as (c&k&->).
  unfold dropIfGone. simpl. rewrite Hn. done.
Qed.

(** A loop of transfers of a file that exists. *)
Lemma transfers_spec {A B} id n o (l : list A) (k : A -> act W B) (g : A -> B) f w r f' w' :
  (forall a f w r f' w', a ∈ l -> fetching f -> k a (f, w) = (r, (f', w')) ->
     aside f f' /\ cacheOK f' /\ forall b, r = Ok b -> b = g a) ->
  inodes f !! id = Some n -> fetching f -> orDrop id o (forEach l k) (f, w) = (r, (f', w')) ->
  aside f f' /\ cacheOK f' /\ fetching f' /\ inodes f' !! id = Some n /\ forall bs, r = Ok bs -> bs = map g l.
Proof using Type.
  intros Hk Hn Hf H. apply (orDrop_inv _ _ _ _ _ _ _ _ n Hn) in H.
  2:{ intros r1 g1 v1 Hg1. by destruct (forEach_map _ _ g _ _ _ _ _ Hk Hf Hg1). }
  destruct (forEach_map _ _ g _ _ _ _ _ Hk Hf H) as (Ha&Hc&Hb). split; [done|]. split; [done|].
  split; [by eapply aside_fetching|]. split; [by destruct Ha as (?&?&->)|done].
Qed.

Lemma flushTrim_spec cs n o idx f w r f' w' :
  fileOK cs n o -> idx ∈ ranged (dom (ofPendingTrim o)) -> fetching f -> flushTrim o idx (f, w) = (r, (f', w')) ->
  aside f f' /\ cacheOK f' /\ forall b, r = Ok b -> b = (idx, trimRef o idx).
Proof using Type.
  intros Hok [t Ht]%ranged_elem%elem_of_dom Hg Hk. unfold flushTrim in Hk. rewrite Ht in Hk.
  apply bind_inv in Hk as [(ref&[g1 v1]&Hk1&Hk)|(e&Hk1&->)];
    destruct (applyTrim_spec cs n o idx t _ _ _ _ _ Hok Ht Hg Hk1) as (?&?&Href); [|done].
  injection Hk as <- <- <-. split; [done|]. split; [done|]. intros b [= <-]. by rewrite (Href ref eq_refl).
Qed.

Lemma flushBuf_spec o idx f w r f' w' :
  idx ∈ sortedIdxs (ofDirty o) -> fetching f -> flushBuf o idx (f, w) = (r, (f', w')) ->
  aside f f' /\ cacheOK f' /\ forall b, r = Ok b -> b = (idx, uploadRef o idx).
Proof using Type.
  intros [b Hb]%sortedIdxs_elem [Hg _] Hk. unfold flushBuf in Hk. rewrite Hb in Hk.
  apply bind_inv in Hk as [(ref&[g1 v1]&Hk2&Hk)|(e&Hk2&->)];
    destruct (putChunk_spec _ _ _ _ _ _ Hg Hk2) as (?&?&Href); [|done].
  injection Hk as <- <- <-. split; [done|]. split; [done|]. intros b' [= <-]. rewrite (Href ref eq_refl).
  unfold uploadRef. by rewrite Hb.
Qed.

(** What a flush that succeeds does to the file. *)
Definition flushedTo (f f' : FS) (id : Z) (n : inode) : Prop :=
  exists n' dc, touches f f' id n' newOpenFile dc /\ attrFields n' = attrFields n /\ iSize n' = iSize n /\
    forall i, 0 <= i -> fileByte (chunkSize (cf f)) (iChunks n') newOpenFile i =
      fileByte (chunkSize (cf f)) (iChunks n) (bufOf f id) i.

(** A file with nothing buffered: the early return. *)
Lemma flush_idle id n f o :
  good f -> inodes f !! id = Some n -> open f !! id = Some o -> ofDirty o = ∅ -> ofPendingTrim o = ∅ ->
  set_ofUnsettled false o = newOpenFile /\ good (setOpen id newOpenFile f) /\ flushedTo f (setOpen id newOpenFile f) id n.
Proof using Type.
  intros Hgood Hn Ho E1 E2. pose proof Hgood as [Hw Hd]. pose proof (do_files f Hd id n Hn) as Hok.
  assert (Hb : bufOf f id = o) by (unfold bufOf; by rewrite Ho). rewrite Hb in Hok.
  assert (Ht : touches f (setOpen id newOpenFile f) id n newOpenFile 0).
  { split; simpl; try done; [by rewrite insert_id|by eapply alter_insert_at|lia]. }
  assert (Hv : forall i, fileByte (chunkSize (cf f)) (iChunks n) newOpenFile i = fileByte (chunkSize (cf f)) (iChunks n) o i).
  { intros i. unfold fileByte. simpl. by rewrite E1, E2. }
  split; [|split].
  - destruct o as [d t b u]. simpl in *. subst. pose proof (fo_bytes _ n _ Hok) as Hby. simpl in Hby.
    unfold newOpenFile, set_ofUnsettled. simpl. by rewrite Hby.
  - eapply (touches_good f _ id n n newOpenFile 0); try done; [apply Hd| |].
    + split; simpl; [apply Hok|apply Hok| | |done|].
      * intros idx b. by rewrite lookup_empty.
      * intros idx t. by rewrite lookup_empty.
      * intros i Hi. rewrite Hv. by apply Hok.
    + rewrite Hb, (fo_bytes _ n o Hok), E1. done.
  - exists n, 0. rewrite Hb. auto.
Qed.

(** The hold that repoints the file. *)
Lemma finishFlush_inv id n f o c k :
  good f -> inodes f !! id = Some n -> open f !! id = Some o ->
  let g := set_knownChunks k (set_cache c f) in
  let f' := finishFlush id o (map (fun i => (i, trimRef o i)) (ranged (dom (ofPendingTrim o))))
              (map (fun i => (i, uploadRef o i)) (sortedIdxs (ofDirty o))) g in
  cacheOK g -> good f' /\ flushedTo f f' id n.
Proof using Type.
  intros Hgood Hn Ho g f' Hca. pose proof Hgood as [Hw Hd]. pose proof (do_files f Hd id n Hn) as Hok.
  assert (Hb : bufOf f id = o) by (unfold bufOf; by rewrite Ho). rewrite Hb in Hok.
  destruct (flush_file_ok _ n o (do_cs f Hd) Hok) as [Hok' Hview].
  assert (Ht : touches f f' id (set_iChunks (flushedChunks (chunkSize (cf f)) o (iChunks n)) n) newOpenFile (- ofBytes o)).
  { unfold f', finishFlush, g. simpl. rewrite Hn. split; simpl; try done; try lia.
    - apply map_eq. intros j. rewrite lookup_alter, lookup_insert. case_decide; [subst; by rewrite Hn|done].
    - by eapply alter_insert_at. }
  split.
  - eapply (touches_good f _ id n _ newOpenFile); try done; [|by rewrite Hb].
    unfold f', finishFlush, g. simpl. rewrite Hn. exact Hca.
  - eexists _, _. rewrite Hb. split; [exact Ht|]. done.
Qed.

Lemma flushOpen_inv id n f w r f' w' :
  good f -> inodes f !! id = Some n -> is_Some (open f !! id) ->
  flushOpen id (bufOf f id) (f, w) = (r, (f', w')) ->
  good f' /\ match r with Err _ => aside f f' | Ok _ => flushedTo f f' id n end.
Proof using Type.
  intros Hgood Hn [o Ho]. pose proof Hgood as [Hw Hd]. pose proof (do_files f Hd id n Hn) as Hok.
  assert (Hb : bufOf f id = o) by (unfold bufOf; by rewrite Ho). rewrite Hb in *.
  assert (Hfe : fetching f) by (split; apply Hd). unfold flushOpen.
  destruct (bool_decide (ofDirty o = ∅) && bool_decide (ofPendingTrim o = ∅)) eqn:Ee.
  { apply andb_true_iff in Ee as [E1%bool_decide_eq_true E2%bool_decide_eq_true].
    destruct (flush_idle id n f o Hgood Hn Ho E1 E2) as (Ho0&Hg&Hfl). destruct (ofUnsettled o) eqn:Eu.
    - unfold modFS. simpl. rewrite Ho0. by intros [= <- <- <-].
    - assert (o = newOpenFile) as -> by (rewrite <- Ho0; destruct o; simpl in *; by subst).
      assert (setOpen id newOpenFile f = f) as Hs.
      { unfold setOpen. rewrite (alter_insert_at _ id newOpenFile), insert_id by done. by destruct f. }
      rewrite Hs in *. by intros [= <- <- <-]. }
  intros Hrun. apply bind_inv in Hrun as [(trimmed&[f1 w1]&H1&Hrun)|(e&H1&->)].
  - destruct (transfers_spec id n o _ _ _ _ _ _ _ _ (fun idx f w r f' w' => flushTrim_spec _ n o idx f w r f' w' Hok) Hn Hfe H1)
      as (Ha1&Hc1&Hf1&Hn1&Ht1).
    apply bind_inv in Hrun as [(uploaded&[f2 w2]&H2&Hrun)|(e&H2&->)];
      destruct (transfers_spec id n o _ _ _ _ _ _ _ _ (fun idx f w r f' w' => flushBuf_spec o idx f w r f' w') Hn1 Hf1 H2)
        as (Ha2&Hc2&Hf2&Hn2&Ht2); pose proof (aside_trans _ _ _ Ha1 Ha2) as Ha.
    + rewrite (Ht1 _ eq_refl), (Ht2 _ eq_refl) in Hrun. unfold modFS in Hrun. injection Hrun as <- <- <-.
      destruct Ha as (c0&k0&->). by apply finishFlush_inv.
    + split; [by eapply aside_good|done].
  - destruct (transfers_spec id n o _ _ _ _ _ _ _ _ (fun idx f w r f' w' => flushTrim_spec _ n o idx f w r f' w' Hok) Hn Hfe H1)
      as (Ha1&Hc1&_). split; [by eapply aside_good|done].
Qed.

(** ** The same files *)

(** The byte of the file [id] at [i]. *)
Definition contentAt (f : FS) (id : Z) (n : inode) (i : Z) : byte :=
  fileByte (chunkSize (cf f)) (iChunks n) (bufOf f id) i.

(** The same namespace with the same contents, however they are held. *)
Record sameFiles (f f' : FS) : Prop := {
  sf_cf : cf f' = cf f;
  sf_mode : mode f' = mode f;
  sf_next : nextIno f' = nextIno f;
  sf_fsid : fsid f' = fsid f;
  sf_gone : forall id, inodes f !! id = None -> inodes f' !! id = None;
  sf_inode : forall id n, inodes f !! id = Some n -> exists n', inodes f' !! id = Some n' /\
    attrFields n' = attrFields n /\ iSize n' = iSize n /\
    forall i, 0 <= i -> contentAt f' id n' i = contentAt f id n i
}.

Lemma sameFiles_refl f : sameFiles f f.
Proof using Type. split; eauto. Qed.

Lemma sameFiles_trans f g h : sameFiles f g -> sameFiles g h -> sameFiles f h.
Proof using Type.
  intros [A1 A2 A3 A4 A5 A6] [B1 B2 B3 B4 B5 B6]. split; try congruence; [auto|].
  intros id n Hn. destruct (A6 id n Hn) as (n1&H1&H2&H3&H4). destruct (B6 id n1 H1) as (n2&K1&K2&K3&K4).
  exists n2. split; [done|]. split; [congruence|]. split; [congruence|]. intros i Hi. rewrite K4, H4; done.
Qed.

Lemma aside_same f f' : aside f f' -> sameFiles f f'.
Proof using Type. intros (c&k&->). split; simpl; eauto. Qed.

Lemma flushedTo_same f f' id n : inodes f !! id = Some n -> flushedTo f f' id n -> sameFiles f f'.
Proof using Type.
  intros Hn (n'&dc&[Hcf Hmode Hi Hnx Hfs Ho _]&Hsk&Hsz&Hv). split; try done.
  - intros j Hj. rewrite Hi, lookup_insert_ne; [done|]. intros ->. congruence.
  - intros j m Hm. rewrite Hi. unfold contentAt, bufOf. rewrite Ho, Hcf, !lookup_insert. case_decide.
    + subst. assert (m = n) as -> by congruence. exists n'. split; [done|]. split; [done|]. split; [done|]. exact Hv.
    + exists m. auto.
Qed.

#[global] Instance sameFiles_preorder : PreOrder sameFiles.
Proof using Type. split; [exact sameFiles_refl|exact sameFiles_trans]. Qed.

(** ** Flushing many files *)

Lemma flushList_inv l opened f w r f' w' :
  good f -> NoDup l -> (forall id, id ∈ l -> opened !! id = open f !! id /\ is_Some (open f !! id)) ->
  flushList l opened (f, w) = (r, (f', w')) ->
  good f' /\ sameFiles f f' /\ (forall id, id ∉ l -> open f' !! id = open f !! id) /\ dom (open f') = dom (open f) /\
  match r with Err _ => True | Ok _ => forall id, id ∈ l -> open f' !! id = Some newOpenFile end.
Proof using Type.
  unfold flushList. intros Hg Hnd. revert f w r f' w' Hg. induction Hnd as [|id l Hid Hnd IH]; intros f w r f' w' Hg Hop; cbn [forEach_].
  { intros [= <- <- <-]. repeat (split; [done|]). intros id ?%elem_of_nil. done. }
  destruct (Hop id (list_elem_of_here _ _)) as [Ho [o Ho2]]. rewrite Ho2 in Ho. rewrite Ho.
  pose proof Hg as [Hw Hd]. destruct (wf_open f Hw id) as [n Hn]; [eauto|].
  intros Hb. apply bind_inv in Hb as [([]&[f1 w1]&H1&Hb)|(e&H1&->)];
    assert (Hbo : bufOf f id = o) by (unfold bufOf; by rewrite Ho2); rewrite <- Hbo in H1;
    apply (flushOpen_inv id n) in H1 as [Hg1 Hfl]; eauto.
  - pose proof Hfl as (n'&dc&Ht&_). pose proof (flushedTo_same f f1 id n Hn Hfl) as Hs1.
    destruct (IH f1 w1 r f' w' Hg1) as (Hg2&Hs2&Hun&Hdom&Hcl); [|done|].
    { intros j Hj. assert (j ≠ id) by (intros ->; done). rewrite (to_open _ _ _ _ _ _ Ht), lookup_insert_ne by done.
      apply Hop. by right. }
    split; [done|]. split; [by eapply sameFiles_trans|]. split; [|split].
    + intros j Hj. rewrite Hun by (intros ?; apply Hj; by right). rewrite (to_open _ _ _ _ _ _ Ht), lookup_insert_ne; [done|].
      intros ->. apply Hj. apply list_elem_of_here.
    + rewrite Hdom, (to_open _ _ _ _ _ _ Ht), dom_insert_L. apply elem_of_dom_2 in Ho2. set_solver.
    + destruct r; [|done]. intros j [->|Hj]%elem_of_cons; [|by apply Hcl].
      rewrite Hun by done. by rewrite (to_open _ _ _ _ _ _ Ht), lookup_insert_eq.
  - split; [done|]. split; [by apply aside_same|]. destruct Hfl as (c&k&->). done.
Qed.

Lemma ranged_nodup (X : gset Z) : NoDup (ranged X).
Proof using Type. rewrite ranged_perm. apply NoDup_elements. Qed.

Lemma flushAll_inv f w r f' w' :
  good f -> flushAll (f, w) = (r, (f', w')) ->
  good f' /\ sameFiles f f' /\
  match r with Err _ => True | Ok _ => forall id o, open f' !! id = Some o -> o = newOpenFile end.
Proof using Type.
  intros Hg Hb. unfold flushAll in Hb. rewrite (bind_ok _ _ _ f (f, w)) in Hb by done.
  apply flushList_inv in Hb as (H1&H2&_&Hdom&H3); [|done|apply ranged_nodup|].
  - split; [done|]. split; [done|]. destruct r; [|done]. intros id o Ho.
    rewrite H3 in Ho; [by injection Ho|]. apply ranged_elem. rewrite <- Hdom. by eapply elem_of_dom_2.
  - intros id Hid%ranged_elem. split; [done|]. by apply elem_of_dom.
Qed.

Lemma settleAll_inv f w r f' w' :
  good f -> settleAll (f, w) = (r, (f', w')) ->
  good f' /\ sameFiles f f' /\
  match r with Err _ => True | Ok _ => forall id o, open f' !! id = Some o -> ofUnsettled o = false end.
Proof using Type.
  intros Hg Hb. unfold settleAll in Hb. rewrite (bind_ok _ _ _ f (f, w)) in Hb by done. set (l := List.filter _ _) in Hb.
  assert (Hl : forall id, id ∈ l <-> exists o, open f !! id = Some o /\ ofUnsettled o = true).
  { intros id. unfold l. rewrite list_elem_of_In, filter_In, <- list_elem_of_In, ranged_elem, elem_of_dom.
    split; [intros [[o ->] ?]; eauto|intros (o&->&?); eauto]. }
  apply flushList_inv in Hb as (H1&H2&Hun&Hdom&H3); [|done| |].
  - split; [done|]. split; [done|]. destruct r; [|done]. intros id o Ho.
    destruct (decide (id ∈ l)) as [Hin|Hout]; [rewrite H3 in Ho by done; by injection Ho as <-|].
    rewrite Hun in Ho by done. destruct (ofUnsettled o) eqn:E; [|done]. exfalso. apply Hout, Hl. eauto.
  - apply NoDup_ListNoDup, List.NoDup_filter, NoDup_ListNoDup, ranged_nodup.
  - intros id (o&Ho&_)%Hl. rewrite Ho. eauto.
Qed.

Lemma commitFile_inv id f w r f' w' :
  good f -> commitFile id (f, w) = (r, (f', w')) ->
  good f' /\ sameFiles f f' /\
  match r with Err _ => True | Ok _ => forall o, open f' !! id = Some o -> o = newOpenFile end.
Proof using Type.
  intros Hg Hb. unfold commitFile in Hb. rewrite (bind_ok _ _ _ f (f, w)) in Hb by done. pose proof Hg as [Hw _].
  destruct (open f !! id) as [o|] eqn:Ho.
  - destruct (wf_open f Hw id) as [n Hn]; [eauto|].
    assert (Hbo : bufOf f id = o) by (unfold bufOf; by rewrite Ho). rewrite <- Hbo in Hb.
    apply (flushOpen_inv id n) in Hb as [Hg1 Hfl]; eauto. split; [done|]. destruct r as [[]|].
    + split; [by eapply flushedTo_same|]. destruct Hfl as (n'&dc&Ht&_). rewrite (to_open _ _ _ _ _ _ Ht), lookup_insert_eq. by intros o' [= <-].
    + split; [by apply aside_same|done].
  - injection Hb as <- <- <-. split; [done|]. split; [done|]. congruence.
Qed.

End Operations.
