(* ===== verification/Commit.v ===== *)
(** * The commit protocol (internal/blobfs/commit.go)

    Sync: flush, settle a root in doubt, seal, and the flight that stores the
    snapshot and swaps the root pointer; the probe; mounting and initialising;
    and the pruning of superseded snapshots. Log calls are left out; a nonce
    and the clock are arguments. [Codec] stands for encoding/json and
    compress/gzip: what it promises is that valid UTF-8 survives. *)

From Stdlib Require Import Ascii.
From stdpp Require Import sorting.
From S2P Require Import Prelude Vfs Fsm Modes Policy Inode ChunkCache Budget Store FsState ReadDir Effects Data.

(** ** The codec *)

(** unicode/utf8 ValidString, on the bytes of the string. *)
Definition isCont (b lo hi : Z) : bool := (lo <=? b) && (b <=? hi).

Fixpoint validUTF8 (l : bytes) : bool :=
  match l with
  | [] => true
  | b :: l =>
      let x := Z_of_byte b in
      if x <? 128 then validUTF8 l
      else match l with
           | [] => false
           | c :: l =>
               let y := Z_of_byte c in
               if isCont x 0xC2 0xDF then isCont y 0x80 0xBF && validUTF8 l
               else match l with
                    | [] => false
                    | d :: l =>
                        let z := Z_of_byte d in
                        if isCont x 0xE0 0xEF then
                          isCont y (if x =? 0xE0 then 0xA0 else 0x80) (if x =? 0xED then 0x9F else 0xBF)
                          && isCont z 0x80 0xBF && validUTF8 l
                        else match l with
                             | [] => false
                             | e :: l =>
                                 isCont x 0xF0 0xF4 &&
                                 isCont y (if x =? 0xF0 then 0x90 else 0x80) (if x =? 0xF4 then 0x8F else 0xBF) &&
                                 isCont z 0x80 0xBF && isCont (Z_of_byte e) 0x80 0xBF && validUTF8 l
                             end
                    end
           end
  end.

Definition utf8 (s : string) : bool := validUTF8 (bytesOf s).

(** What the decoder makes of an inode: its entry map is nil when the encoding
    left it out. *)
Record rawInode := mkRaw { rawNode : inode; rawEntries : option (gmap string Z) }.

Record rawSnapshot := mkRawSnapshot {
  rsVersion : Z;
  rsEpoch : Z;
  rsNextIno : Z;
  rsChunkSize : Z;
  rsInodes : option (gmap Z (option rawInode));
  rsCreatedNS : Z
}.

(** [omitempty] on Entries. *)
Definition toRaw (n : inode) : rawInode :=
  mkRaw (set_iEntries ∅ n) (if bool_decide (iEntries n = ∅) then None else Some (iEntries n)).

Definition rawOf (s : snapshot) : rawSnapshot :=
  mkRawSnapshot (snVersion s) (snEpoch s) (snNextIno s) (snChunkSize s)
    (Some ((fun n => Some (toRaw n)) <$> snInodes s)) (snCreatedNS s).

(** The strings an inode carries into the encoding. *)
Definition textOK (n : inode) : Prop :=
  (forall x id, iEntries n !! x = Some id -> utf8 x = true) /\ utf8 (iTarget n) = true /\
  Forall (fun c => utf8 (cHash c) = true) (iChunks n).

Class Codec := {
  marshalRoot : rootPointer -> bytes;
  unmarshalRoot : bytes -> option rootPointer;
  marshalSnap : rawSnapshot -> bytes;
  unmarshalSnap : bytes -> option rawSnapshot;
  root_roundtrip : forall rp, utf8 (rpSnapshot rp) = true -> utf8 (rpWriter rp) = true ->
    unmarshalRoot (marshalRoot rp) = Some rp;
  snap_roundtrip : forall s, (forall id n, snInodes s !! id = Some n -> textOK n) ->
    unmarshalSnap (marshalSnap (rawOf s)) = Some (rawOf s)
}.

(** ** Keys *)

(** The last [n] decimal digits of [z]. *)
Fixpoint digits (n : nat) (z : Z) : string :=
  match n with
  | O => ""
  | S n => digits n (z / 10) +:+ String (ascii_of_nat (Z.to_nat (48 + z mod 10))) ""
  end.

Definition hexDigit (v : Z) : ascii := ascii_of_nat (Z.to_nat (if v <? 10 then 48 + v else 87 + v)).
Definition hexByte (b : byte) : string :=
  String (hexDigit (Z_of_byte b / 16)) (String (hexDigit (Z_of_byte b mod 16)) "").

(** encoding/hex EncodeToString. *)
Fixpoint hex (l : bytes) : string :=
  match l with [] => "" | b :: l => hexByte b +:+ hex l end.

(** [fmt.Sprintf("%s%020d-%s.json.gz", snapshotPrefix, epoch, hex(nonce))]; a
    uint64 has at most twenty digits. *)
Definition snapshotKey (epoch : Z) (nonce : bytes) : string :=
  snapshotPrefix +:+ digits 20 epoch +:+ "-" +:+ hex nonce +:+ ".json.gz".

(** ** Sealing *)

Record sealedCommit := mkSealed {
  scEpoch : Z;
  scKey : string;
  scBody : bytes;
  scRpBody : bytes;
  scRootETag : string;
  scChanges : Z
}.

Inductive probeVerdict := probeOurs | probeUnchanged | probeTheirs | probeFailed.

#[global] Instance probeVerdict_eq_dec : EqDecision probeVerdict.
Proof. solve_decision. Defined.

Definition errCommitConflict : error := EMsg "commit conflict: another writer owns this bucket; remount to continue".
Definition errNoETagUnchanged : error := EMsg "swap root pointer: no ETag for the root pointer after writing it, and a read then showed it unchanged; the next commit tries again".
Definition errNoETagInDoubt : error := EMsg "swap root pointer: no ETag for the root pointer after writing it, so it is in doubt until a read of it succeeds".
Definition errDiverged : error := EMsg "filesystem diverged: another writer committed to this bucket; remount to continue".

Definition noRoot : rootPointer := mkRootPointer 0 0 "" 0 0 "".

Section Codecs.
Context {Cd : Codec}.

Definition encodeSnapshot (s : snapshot) : bytes := marshalSnap (rawOf s).

Definition fromRaw (r : rawInode) : inode := set_iEntries (default ∅ (rawEntries r)) (rawNode r).

Definition decodeSnapshot (b : bytes) : option snapshot :=
  match unmarshalSnap b with
  | None => None
  | Some r =>
      match rsInodes r with
      | None => None
      | Some m =>
          if bool_decide (map_Forall (fun _ n => is_Some n) m)
          then Some (mkSnapshot (rsVersion r) (rsEpoch r) (rsNextIno r) (rsChunkSize r) (omap (fmap fromRaw) m) (rsCreatedNS r))
          else None
      end
  end.

(** The snapshot of the namespace as it stands. *)
Definition snapshotOf (f : FS) (now : Z) : snapshot :=
  mkSnapshot snapshotVersion (u64 (epoch f + 1)) (nextIno f) (chunkSize (cf f)) (inodes f) now.

Definition anyUnsettled (f : FS) : bool :=
  bool_decide (map_Exists (fun _ o => ofUnsettled o = true) (open f)).

Definition seal (nonce : bytes) (now1 now2 : Z) (f : FS) : result sealedCommit :=
  if anyUnsettled f then Err (EMsg "commit refused: an inode is unsettled since a truncate")
  else
    let epoch := u64 (epoch f + 1) in
    let key := snapshotKey epoch nonce in
    Ok (mkSealed epoch key (encodeSnapshot (snapshotOf f now1))
          (marshalRoot (mkRootPointer snapshotVersion epoch key (fsid f) now2 (writerID (cf f))))
          (rootETag f) (changes f)).

(** ** The probe *)

Definition classifyRoot (read : result (bytes * string)) (rootSnap doubt : string) : probeVerdict * rootPointer :=
  match read with
  | Err e =>
      if errIs e ErrNotFound then (if String.eqb rootSnap "" then probeUnchanged else probeTheirs, noRoot)
      else (probeFailed, noRoot)
  | Ok (raw, etag) =>
      match unmarshalRoot raw with
      | None => (probeFailed, noRoot)
      | Some rp =>
          if negb (rpVersion rp =? snapshotVersion) || String.eqb (rpSnapshot rp) "" then (probeFailed, rp)
          else if String.eqb (rpSnapshot rp) doubt then (if String.eqb etag "" then probeFailed else probeOurs, rp)
          else if String.eqb (rpSnapshot rp) rootSnap then (if String.eqb etag "" then probeFailed else probeUnchanged, rp)
          else (probeTheirs, rp)
      end
  end.

(** The hold of mu in which resolveRoot classifies the read and applies the
    verdict. *)
Definition settleRoot (read : result (bytes * string)) (f : FS) : probeVerdict * FS :=
  let etag := match read with Ok (_, t) => t | Err _ => "" end in
  match classifyRoot read (rootSnapshot f) (doubtKey f) with
  | (probeOurs, rp) =>
      let (s, ok) := fireRoot (rootKnowledge f) rootProbeOurs in
      if negb ok then (probeFailed, f)
      else (probeOurs, set_doubtKey "" (set_rootSnapshot (doubtKey f) (set_rootETag etag (set_epoch (rpEpoch rp) (set_rootKnowledge s f)))))
  | (probeUnchanged, _) =>
      let (s, ok) := fireRoot (rootKnowledge f) rootProbeUnchanged in
      if negb ok then (probeFailed, f)
      else (probeUnchanged, set_doubtKey "" (set_rootETag etag (set_rootKnowledge s f)))
  | (probeTheirs, _) => (probeTheirs, set_mode (fireMode (mode f) mountDiverge).1 f)
  | (probeFailed, _) => (probeFailed, f)
  end.

Definition fallbackAllowed (f : FS) : bool := allowUnconditionalRoot (cf f).

(** [schedulePrune]: whether a pass starts is in [pruning]; the pass itself is
    [prunePass]. *)
Definition schedulePrune (f : FS) : FS :=
  if (retention (cf f) =? 0) || pruning f then f else set_pruning true f.

Definition applyLocked (s : sealedCommit) (etag : string) (now : Z) (f : FS) : FS :=
  let f := set_epoch (scEpoch s) f in
  let f := set_rootETag etag f in
  let f := set_rootSnapshot (scKey s) f in
  let f := set_dirty (negb (changes f =? scChanges s)) f in
  let f := set_lastCommit now f in
  schedulePrune f.

(** ** The flight *)

(** What the write of the root pointer gave: its ETag; an answer that leaves
    the root in doubt, with the error returned if the doubt cannot be raised
    and the errors for the two verdicts that fail the commit; or a refusal. *)
Inductive swapped :=
| Swapped (etag : string)
| Doubtful (oldErr : option error) (unchangedErr failedErr : error)
| SwapRefused (e : error).

Context {W : Type} {St : Store W}.

(** The 501 without the operator's opt-in: read the root pointer and reclaim
    the snapshot only if the read positively shows another root. *)
Definition reclaim (s : sealedCommit) (e : error) : act W swapped :=
  let refusal := EWrap "swap root pointer: the store does not support conditional writes, and this mount may not write the root pointer unconditionally" e in
  let! raw := attempt (onStore (Get rootKey)) in
  let gone := match raw with Err e => errIs e ErrNotFound | Ok _ => false end in
  let shown := match raw with
               | Ok b => match unmarshalRoot b with
                         | Some cur => if (rpVersion cur =? snapshotVersion) && negb (String.eqb (rpSnapshot cur) "")
                                       then Some (rpSnapshot cur) else None
                         | None => None
                         end
               | Err _ => None
               end in
  if gone || match shown with Some k => negb (String.eqb k (scKey s)) | None => false end then
    let! _ := attempt (onStore (Delete (scKey s))) in
    ret (SwapRefused refusal)
  else ret (Doubtful (Some refusal) refusal refusal).

(** The unconditional write of a mount the operator vouches for. *)
Definition fallback (s : sealedCommit) : act W swapped :=
  let! put := attempt (onStore (Put rootKey (scRpBody s))) in
  match put with
  | Err e => let werr := EWrap "write root pointer" e in ret (Doubtful (Some werr) werr werr)
  | Ok _ =>
      let! info := attempt (onStore (Head rootKey)) in
      match info with
      | Ok i => if String.eqb (oiETag i) "" then ret (Doubtful None errNoETagUnchanged errNoETagInDoubt) else ret (Swapped (oiETag i))
      | Err _ => ret (Doubtful None errNoETagUnchanged errNoETagInDoubt)
      end
  end.

Definition swapRoot (s : sealedCommit) : act W swapped :=
  let! r := attempt (onStore (PutIfMatch rootKey (scRpBody s) (scRootETag s))) in
  let! f := getFS in
  match r with
  | Ok etag =>
      if String.eqb etag "" then ret (Doubtful None errNoETagUnchanged errNoETagInDoubt) else ret (Swapped etag)
  | Err e =>
      if errIs e ErrPrecondition then
        ret (Doubtful (Some errCommitConflict) (EWrap "swap root pointer" e) (EWrap "swap root pointer: refused, and the root pointer is in doubt until a read of it succeeds" e))
      else if errIs e ErrUnsupported then (if fallbackAllowed f then fallback s else reclaim s e)
      else ret (Doubtful (Some (EWrap "swap root pointer" e)) (EWrap "swap root pointer" e)
                  (EWrap "swap root pointer: the outcome is in doubt until a read of the root pointer settles it" e))
  end.

Definition resolveRoot : act W probeVerdict :=
  let! read := attempt (onStore (GetWithETag rootKey)) in
  onFS (settleRoot read).

(** The root pointer is in doubt: one read of it settles the commit. *)
Definition settleDoubt (s : sealedCommit) (now : Z) (oldErr : option error) (unchangedErr failedErr : error) : act W unit :=
  let! f := getFS in
  let (k, ok) := fireRoot (rootKnowledge f) rootSwapUnknown in
  if negb ok then
    let! _ := modFS (set_doubtKey "") in
    match oldErr with
    | Some e => fail e
    | None => modFS (applyLocked s "" now)
    end
  else
    let! _ := modFS (fun f => set_rootKnowledge k (set_doubtKey (scKey s) f)) in
    let! verdict := resolveRoot in
    match verdict with
    | probeOurs => modFS (fun f => applyLocked s (rootETag f) now f)
    | probeTheirs => fail errCommitConflict
    | probeUnchanged => fail unchangedErr
    | probeFailed => fail failedErr
    end.

Definition commitSealed (s : sealedCommit) (now : Z) : act W unit :=
  let! put := attempt (onStore (Put (scKey s) (scBody s))) in
  match put with
  | Err e => fail (EWrap "write snapshot" e)
  | Ok _ =>
      let! outcome := swapRoot s in
      match outcome with
      | SwapRefused e => fail e
      | Swapped etag =>
          let! _ := modFS (fun f => set_rootKnowledge (fireRoot (rootKnowledge f) rootSwapOK).1 f) in
          modFS (applyLocked s etag now)
      | Doubtful oldErr unchangedErr failedErr => settleDoubt s now oldErr unchangedErr failedErr
      end
  end.

(** ** Sync *)

Context {Dg : Digest} {Ro : RunOrder}.

(** The chance and the clock a Sync meets. *)
Record tick := mkTick { tkNonce : bytes; tkSnap : Z; tkRoot : Z; tkApply : Z }.

Definition wrapErr {A} (m : string) (a : act W A) : act W A :=
  let! r := attempt a in match r with Ok v => ret v | Err e => fail (EWrap m e) end.

Definition Sync (t : tick) : act W unit :=
  let! _ := wrapErr "flush pending writes" flushAll in
  let! f := getFS in
  if negb (dirty f) then ret tt
  else if bool_decide (mode f = mountDiverged) then fail errDiverged
  else
    let! settled :=
      if bool_decide (rootKnowledge f = rootInDoubt) then
        let! v := resolveRoot in
        match v with
        | probeFailed => fail (EMsg "commit refused: the root pointer is in doubt since an earlier write of it, and the read that would settle it decided nothing")
        | probeTheirs => fail errCommitConflict
        | _ => ret tt
        end
      else ret tt in
    let! _ := wrapErr "settle truncated files" settleAll in
    let! f := getFS in
    let! s := answer (seal (tkNonce t) (tkSnap t) (tkRoot t) f) in
    commitSealed s (tkApply t).

(** COMMIT, and the stable half of a WRITE. *)
Definition syncFileAndNamespace (id : Z) (t : tick) : act W unit :=
  let! _ := commitFile id in Sync t.

Definition Commit (h : Handle) (t : tick) : act W unit :=
  let! f := getFS in
  let! (_, n) := answer (resolve f h) in
  syncFileAndNamespace (iID n) t.

(** ** Mounting *)

Definition initEmpty (t : tick) (now : Z) : act W unit :=
  let! _ := modFS (emptyNamespace Name now) in
  let! f := getFS in
  let! s := answer (seal (tkNonce t) (tkSnap t) (tkRoot t) f) in
  commitSealed s (tkApply t).

(** The namespace of a snapshot, adopted. *)
Definition adopt (rp : rootPointer) (etag : string) (snap : snapshot) (f : FS) : FS :=
  let c := cf f in
  let f := set_cf (mkConf (snChunkSize snap) (ownerUID c) (ownerGID c) (skipVerify c) (allowUnconditionalRoot c)
                     (maxFileSize c) (retention c) (writerID c)) f in
  let f := set_inodes (snInodes snap) f in
  let f := set_nextIno (snNextIno snap) f in
  let f := set_epoch (snEpoch snap) f in
  let f := set_fsid (rpFSID rp) f in
  let f := set_rootETag etag f in
  set_rootSnapshot (rpSnapshot rp) f.

Definition loadOrInit (t : tick) (now : Z) : act W unit :=
  let! read := attempt (onStore (GetWithETag rootKey)) in
  let! f := getFS in
  match read with
  | Err e =>
      if errIs e ErrNotFound then
        if bool_decide (mode f = mountReadOnly) then fail (EMsg "blobfs: the bucket holds no filesystem, and a read-only mount does not create one")
        else initEmpty t now
      else fail (EWrap "read root pointer" e)
  | Ok (raw, etag) =>
      match unmarshalRoot raw with
      | None => fail (EMsg "parse root pointer")
      | Some rp =>
          if negb (rpVersion rp =? snapshotVersion) then fail (EMsg "bucket holds another format version")
          else if String.eqb etag "" then fail (EMsg "blobfs: no ETag for the root pointer, so commits cannot be compare-and-swapped")
          else
            let! got := attempt (onStore (Get (rpSnapshot rp))) in
            match got with
            | Err e => fail (EWrap "read snapshot" e)
            | Ok body =>
                match decodeSnapshot body with
                | None => fail (EMsg "decode snapshot")
                | Some snap =>
                    let! _ := modFS (adopt rp etag snap) in
                    match snInodes snap !! rootInodeID with
                    | None => fail (EMsg "snapshot has no root inode")
                    | Some _ => ret tt
                    end
                end
            end
      end
  end.

(** ** Pruning *)

Definition strLt (a b : string) : Prop := strLe a b /\ a ≠ b.
#[global] Instance strLt_dec a b : Decision (strLt a b).
Proof using Type. unfold strLt. apply _. Defined.

Definition prunable (keys : list string) (current : string) (keep : Z) : list string :=
  let keep := if keep <? 0 then 0 else keep in
  let below := filter (fun k => strLt k current) keys in
  if blen below <=? keep then []
  else btake (blen below - keep) (merge_sort strLe below).

(** The listing of every snapshot key, a thousand at a time. *)
Fixpoint listSnapshots (fuel : nat) (after : string) (keys : list string) : act W (list string) :=
  match fuel with
  | O => fail (EMsg "list snapshots did not finish")
  | S fuel =>
      let! batch := wrapErr "list snapshots" (onStore (ListObjects snapshotPrefix after 1000)) in
      match list.last batch with
      | None => ret keys
      | Some o =>
          let keys := keys ++ map oiKey batch in
          if blen batch <? 1000 then ret keys else listSnapshots fuel (oiKey o) keys
      end
  end.

Definition pruneSnapshots (fuel : nat) (current : string) : act W unit :=
  let! keys := listSnapshots fuel "" [] in
  let! f := getFS in
  forEach_ (prunable keys current (retention (cf f))) (fun key =>
    let! _ := attempt (onStore (Delete key)) in ret tt).

(** The goroutine schedulePrune starts. *)
Definition prunePass (fuel : nat) (current : string) : act W unit :=
  let! _ := attempt (pruneSnapshots fuel current) in
  modFS (set_pruning false).

End Codecs.

(** [New]: a read-only FS reaches its bucket only through the wrapper. *)
Definition New {Cd : Codec} {W} {St : Store W} {Dg : Digest} {Ro : RunOrder}
    (cfg : Config) (writer : string) (t : tick) (now : Z) (w : W) : result FS * W :=
  match buildFS cfg writer with
  | Err e => (Err e, w)
  | Ok f =>
      let load := if ReadOnlyMount cfg then @loadOrInit Cd W (ReadOnly St) t now else @loadOrInit Cd W St t now in
      match load (f, w) with
      | (Err e, (_, w)) => (Err e, w)
      | (Ok _, (f, w)) => (Ok (setMaxFileSize f), w)
      end
  end.
