(* ===== verification/WritePath.v ===== *)
(** * WRITE (internal/blobfs/fs.go, budget.go)

    [Write] with the wait for the budget, for a call that runs with nothing else
    between its holds: the wait is [Budget.enter] and its rounds, with Sync as
    the drain. [ts] holds the chance and the clock of the Syncs the call runs,
    in order; one drain is enough ([Write_admitted]). *)

From S2P Require Import Prelude Vfs Modes Policy Inode ChunkCache Budget Store FsState Namespace Effects Data.
From S2P Require Import Commit.

Section Write.
Context {Cd : Codec} {W : Type} {St : Store W} {Dg : Digest} {Ro : RunOrder} {P : Policy}.

(** One hold of the budget's mutex. *)
Definition onBudget {A} (g : Budget.budget -> A * Budget.budget) : act W A :=
  onFS (fun f => let (a, b) := g (budget f) in (a, set_budget b f)).

Definition errOf {A} (r : result A) : option error := match r with Ok _ => None | Err e => Some e end.

(** The rounds of [await] for a context that is never done. A parked call would
    wait for another's drain. *)
Fixpoint awaitLoop (ts : list tick) (c : Budget.call) : act W unit :=
  match c with
  | Budget.Done Budget.Passed => ret tt
  | Budget.Done (Budget.Failed e) => fail e
  | Budget.Draining start =>
      match ts with
      | [] => fail (EMsg "await did not finish")
      | t :: ts =>
          let! r := attempt (Sync t) in
          let! c := onBudget (Budget.drained false start (errOf r)) in
          awaitLoop ts c
      end
  | _ => fail (EMsg "await is parked")
  end.

Definition await (ts : list tick) : act W unit :=
  let! c := onBudget (Budget.enter false) in awaitLoop ts c.

(** [data] without the bytes at or past the limit. *)
Definition clamp (maxSize off : Z) (data : bytes) : bytes :=
  if maxSize - off <? blen data then btake (maxSize - off) data else data.

(** [t] is the chance and the clock of a stable write's Sync. The count an
    error comes with is left out. *)
Definition Write (c : Caller) (h : Handle) (off : Z) (data : bytes) (how : Stability) (ts : list tick) (now : Z) (t : tick)
  : act W (Z * Stability) :=
  let! f := getFS in
  match mutable f with Some e => fail e | None =>
  if blen data =? 0 then ret (0, FileSync)
  else if maxFileSize (cf f) <=? off then fail (EStatus ErrFBig)
  else
    let data := clamp (maxFileSize (cf f)) off data in
    let! (_, n) := answer (resolve f h) in
    match checkPerm OpWrite c n with Some e => fail e | None =>
    let id := iID n in
    let! _ := await ts in
    let! o := onFS (getOpen id) in
    let! written := bufferWrite h id o off data now in
    match how with
    | FileSync | DataSync => let! _ := syncFileAndNamespace id t in ret (u32 written, FileSync)
    | Unstable => ret (u32 written, Unstable)
    end
    end
  end.

End Write.
