(* ===== verification/Keeps.v ===== *)
(** * Invariants by syntax

    What the data path and the commit can touch at all, proved along their code
    with the [keeps] rules of [Effects]: under a read-only wrapper they never
    change the bucket, and of the budget they change nothing but the charge. *)

From stdpp Require Import sorting.
From S2P Require Import Prelude Vfs Fsm Modes Policy Inode ChunkCache Budget Store FsState Namespace Effects.
From S2P Require Import Data ReadDir Commit WritePath.

Section Rules.
Context {W : Type} (I : FS * W -> Prop).

Lemma keeps_modFS (g : FS -> FS) : (forall f w, I (f, w) -> I (g f, w)) -> keeps I (modFS g).
Proof. intros Hg [f w] HI. by apply Hg. Qed.

Lemma keeps_onFS {A} (g : FS -> A * FS) : (forall f w, I (f, w) -> I ((g f).2, w)) -> keeps I (onFS g).
Proof. intros Hg [f w] HI. unfold onFS. simpl. specialize (Hg f w HI). by destruct (g f). Qed.

Lemma keeps_onStore {A} (m : W -> result A * W) : (forall f w, I (f, w) -> I (f, (m w).2)) -> keeps I (onStore m).
Proof. intros Hm [f w] HI. unfold onStore. simpl. specialize (Hm f w HI). by destruct (m w). Qed.

End Rules.

(** Follow the code down to the calls on the store and the writes to the state. *)
Ltac keeps_step :=
  match goal with
  | |- keeps _ (bind _ _) => apply keeps_bind; [|intros ?]
  | |- keeps _ (ret _) => apply keeps_ret
  | |- keeps _ (fail _) => apply keeps_fail
  | |- keeps _ (answer _) => apply keeps_answer
  | |- keeps _ getFS => apply keeps_getFS
  | |- keeps _ (attempt _) => apply keeps_attempt
  | |- keeps _ (forEach _ _) => apply keeps_forEach; intros ? _
  | |- keeps _ (forEach_ _ _) => apply keeps_forEach_; intros ? _
  | |- keeps _ (match ?x with _ => _ end) => destruct x
  | |- keeps _ (let (_, _) := ?x in _) => destruct x
  end.

(** What of the mount's state a commit goes by. *)
Definition rootView (f : FS) : string * string * string * conf * mountMode := (rootETag f, rootSnapshot f, doubtKey f, cf f, mode f).

Section Code.
Context {Cd : Codec} {W : Type} {St : Store W} {Dg : Digest} {Ro : RunOrder} {P : Policy}.
Context (I : FS * W -> Prop).

(** What an invariant of the data path must survive. *)
Record framed : Prop := {
  fm_get : forall k f w, I (f, w) -> I (f, (Get k w).2);
  fm_head : forall k f w, I (f, w) -> I (f, (Head k w).2);
  fm_chunk : forall d f w, I (f, w) -> I (f, (Put (chunkKey (sha d)) d w).2);
  fm_cache : forall c f w, I (f, w) -> I (set_cache c f, w);
  fm_known : forall k f w, I (f, w) -> I (set_knownChunks k f, w);
  fm_upd : forall id g f w, I (f, w) -> I (upd id g f, w);
  fm_mark : forall f w, I (f, w) -> I (markDirty f, w);
  fm_open : forall m f w, I (f, w) -> I (set_open m f, w);
  fm_charge : forall n f w, I (f, w) -> I (set_budget (Budget.release n (budget f)) f, w)
}.

Context (Hf : framed).

#[local] Hint Resolve fm_get fm_head fm_chunk fm_cache fm_known fm_upd fm_mark fm_open fm_charge : core.

Ltac leaf := first [apply keeps_onStore; by eauto | apply keeps_modFS; by eauto | apply keeps_onFS; by eauto].

Lemma loadChunk_keeps ref : keeps I (loadChunk ref).
Proof using Hf.
  unfold loadChunk, cacheGet, cachePut, markKnown. repeat (keeps_step || leaf).
  apply keeps_onFS. intros f w HI. destruct (ChunkCache.get _ _). simpl. eauto.
Qed.

Lemma putChunk_keeps data : keeps I (putChunk data).
Proof using Hf. unfold putChunk, markKnown, cachePut. repeat (keeps_step || leaf). Qed.

Lemma orDrop_keeps {A} id o (m : act W A) : keeps I m -> keeps I (orDrop id o m).
Proof using Hf.
  intros Hm. unfold orDrop. repeat (exact Hm || keeps_step). apply keeps_modFS. intros f w HI. unfold dropIfGone.
  destruct (inodes f !! id); [done|]. change (I (set_budget (Budget.release (ofBytes o) (budget (setOpen id (mkOpen ∅ ∅ 0 (ofUnsettled o)) f)))
    (setOpen id (mkOpen ∅ ∅ 0 (ofUnsettled o)) f), w)). unfold setOpen. eauto.
Qed.

Lemma finishFlush_framed id o tr up f w : I (f, w) -> I (finishFlush id o tr up f, w).
Proof using Hf.
  intros HI. unfold finishFlush. set (g := match inodes f !! id with Some _ => _ | None => _ end).
  assert (Hg : I (g, w)) by (unfold g; destruct (inodes f !! id); eauto).
  change (I (set_budget (Budget.release (ofBytes o) (budget (setOpen id newOpenFile g))) (setOpen id newOpenFile g), w)). unfold setOpen. eauto.
Qed.

Lemma flushOpen_keeps id o : keeps I (flushOpen id o).
Proof using Hf.
  unfold flushOpen. keeps_step; [keeps_step; [apply keeps_modFS; unfold setOpen; eauto|keeps_step]|].
  keeps_step; [|keeps_step; [|apply keeps_modFS; intros; by apply finishFlush_framed]].
  - apply orDrop_keeps. keeps_step. unfold flushTrim, applyTrim. repeat (apply loadChunk_keeps || apply putChunk_keeps || keeps_step).
  - apply orDrop_keeps. keeps_step. unfold flushBuf. repeat (apply putChunk_keeps || keeps_step).
Qed.

Lemma flushList_keeps l opened : keeps I (flushList l opened).
Proof using Hf. unfold flushList. repeat (apply flushOpen_keeps || keeps_step). Qed.

(** What an invariant must survive of the commits that meet a given chance. *)
Context (T : tick -> Prop).

Record committing : Prop := {
  cm_resolve : keeps I resolveRoot;
  cm_commit : forall t, T t -> keeps I (let! f := getFS in
    let! s := answer (seal (tkNonce t) (tkSnap t) (tkRoot t) f) in commitSealed s (tkApply t))
}.

Context (Hc : committing).

Lemma Sync_keeps t : T t -> keeps I (Sync t).
Proof using Hf Hc.
  intros Ht. unfold Sync, wrapErr, flushAll, settleAll.
  repeat (apply flushList_keeps || apply (cm_resolve Hc) || apply (cm_commit Hc t Ht) || keeps_step).
Qed.

(** Of the calls: what a Sync keeps, and what the waits for the budget do. *)
Context (Hs : forall t, T t -> keeps I (Sync t)).
Context (Hb : forall b f w, I (f, w) -> I (set_budget b f, w)).

Lemma Read_keeps c h off count : keeps I (Read c h off count).
Proof using Hf.
  unfold Read. repeat keeps_step.
  match goal with |- keeps _ (fetchRefs _ _ _ ?refs ?out) => revert out; induction refs as [|r refs IH]; intros out end; simpl; [keeps_step|].
  keeps_step; [apply loadChunk_keeps|apply IH].
Qed.

Lemma bwLoop_keeps fuel cs refs off data o written charge : keeps I (bwLoop fuel cs refs off data o written charge).
Proof using Hf.
  revert o written charge. induction fuel as [|fuel IH]; intros o written charge; simpl; [keeps_step|].
  unfold startChunk. repeat (apply IH || apply loadChunk_keeps || keeps_step).
Qed.

Lemma onBudget_keeps {A} (g : Budget.budget -> A * Budget.budget) : keeps I (onBudget g).
Proof using Hb. apply keeps_onFS. intros f w HI. destruct (g (budget f)). by apply Hb. Qed.

Lemma await_keeps ts : Forall T ts -> keeps I (await ts).
Proof using Hf Hs Hb.
  intros Ht. unfold await. keeps_step; [apply onBudget_keeps|]. match goal with |- keeps _ (awaitLoop _ ?c) => revert c end.
  induction Ht as [|t ts Ht _ IH]; intros c; destruct c as [s|s|s|[]]; simpl; try keeps_step.
  - by apply keeps_attempt, Hs.
  - keeps_step; [apply onBudget_keeps|apply IH].
Qed.

Lemma syncFile_keeps id t : T t -> keeps I (syncFileAndNamespace id t).
Proof using Hf Hs.
  intros Ht. unfold syncFileAndNamespace, commitFile.
  repeat (apply flushOpen_keeps || (apply Hs; exact Ht) || keeps_step).
Qed.

Lemma getOpen_keeps id f w : I (f, w) -> I ((getOpen id f).2, w).
Proof using Hf. intros HI. unfold getOpen. destruct (open f !! id); [done|]. simpl. unfold setOpen. eauto. Qed.

Lemma publishWrite_keeps h id o off written charge now f w : I (f, w) -> I (publishWrite h id o off written charge now f, w).
Proof using Hf Hb.
  intros HI. unfold publishWrite. set (g := if 0 <? charge then set_budget _ f else f).
  assert (Hg : I (g, w)) by (unfold g; destruct (0 <? charge); auto). clearbody g. destruct (resolve g h) as [[k n]|e].
  - apply (fm_mark Hf), (fm_upd Hf). unfold setOpen. eauto.
  - apply Hb. unfold setOpen. eauto.
Qed.

Lemma Write_keeps c h off data how ts now t : Forall T ts -> T t -> keeps I (Write c h off data how ts now t).
Proof using Hf Hs Hb.
  intros Hts Ht. unfold Write, bufferWrite.
  repeat (apply (await_keeps ts Hts) || apply (syncFile_keeps _ t Ht) || apply bwLoop_keeps || keeps_step).
  - apply keeps_onFS. intros f w. apply getOpen_keeps.
  - apply keeps_modFS. intros f w. apply publishWrite_keeps.
Qed.

Lemma Commit_keeps h t : T t -> keeps I (Commit h t).
Proof using Hf Hs. intros Ht. unfold Commit. repeat (apply (syncFile_keeps _ t Ht) || keeps_step). Qed.

End Code.

(** An invariant that survives every call on the store and every change of what
    the mount knows of the root survives the commits. *)
Section Rooted.
Context {Cd : Codec} {W : Type} {St : Store W}.
Context (I : FS * W -> Prop).

Record rooted : Prop := {
  rt_get : forall k f w, I (f, w) -> I (f, (Get k w).2);
  rt_head : forall k f w, I (f, w) -> I (f, (Head k w).2);
  rt_put : forall k d f w, I (f, w) -> I (f, (Put k d w).2);
  rt_delete : forall k f w, I (f, w) -> I (f, (Delete k w).2);
  rt_pim : forall k d t f w, I (f, w) -> I (f, (PutIfMatch k d t w).2);
  rt_gwe : forall k f w, I (f, w) -> I (f, (GetWithETag k w).2);
  rt_know : forall k f w, I (f, w) -> I (set_rootKnowledge k f, w);
  rt_doubt : forall k f w, I (f, w) -> I (set_doubtKey k f, w);
  rt_settle : forall read f w, I (f, w) -> I ((settleRoot read f).2, w);
  rt_apply : forall s t now f w, I (f, w) -> I (applyLocked s t now f, w)
}.

Context (Hr : rooted).

#[local] Hint Resolve rt_get rt_head rt_put rt_delete rt_pim rt_gwe rt_know rt_doubt rt_settle rt_apply : core.

Ltac leaf := first [apply keeps_onStore; by eauto | apply keeps_modFS; by eauto | apply keeps_onFS; by eauto].

Lemma resolveRoot_keeps : keeps I resolveRoot.
Proof using Hr. unfold resolveRoot. repeat (keeps_step || leaf). Qed.

Lemma commitSealed_keeps s now : keeps I (commitSealed s now).
Proof using Hr.
  unfold commitSealed, settleDoubt, swapRoot, fallback, reclaim. repeat (apply resolveRoot_keeps || keeps_step || leaf).
Qed.

Lemma rooted_committing : committing I (fun _ => True).
Proof using Hr.
  split; [apply resolveRoot_keeps|]. intros t _. repeat (apply commitSealed_keeps || keeps_step).
Qed.

End Rooted.

(** ** The budget through a Sync *)

(** The budget but for its charge. *)
Definition budgetRest (f : FS) : Budget.budget := Budget.set_charge 0 (budget f).

Lemma budgetRest_framed {W} {St : Store W} {Dg : Digest} b : framed (fun s : FS * W => budgetRest s.1 = b).
Proof. by split. Qed.

Lemma budgetRest_rooted {Cd : Codec} {W} {St : Store W} b : rooted (fun s : FS * W => budgetRest s.1 = b).
Proof.
  split; try done; intros; simpl in *.
  - rewrite <- H. unfold budgetRest, settleRoot. destruct (classifyRoot _ _ _) as [[] rp]; repeat case_match; done.
  - rewrite <- H. unfold budgetRest, applyLocked, schedulePrune. by destruct (_ || _).
Qed.

Lemma Sync_budget {Cd : Codec} {W} {St : Store W} {Dg : Digest} {Ro : RunOrder} t f w :
  budgetRest (Sync t (f, w)).2.1 = budgetRest f.
Proof. by apply (Sync_keeps _ (budgetRest_framed (budgetRest f)) _ (rooted_committing _ (budgetRest_rooted (budgetRest f))) t I (f, w)). Qed.

(** ** Properties of the bucket alone *)

Section Bucket.
Context {Cd : Codec} {W : Type} {St : Store W} {Dg : Digest} {Ro : RunOrder} {P : Policy}.
Context (J : W -> Prop).

Record storeKeeps : Prop := {
  sk_get : forall k w, J w -> J (Get k w).2;
  sk_head : forall k w, J w -> J (Head k w).2;
  sk_put : forall k d w, J w -> J (Put k d w).2;
  sk_delete : forall k w, J w -> J (Delete k w).2;
  sk_pim : forall k d t w, J w -> J (PutIfMatch k d t w).2;
  sk_gwe : forall k w, J w -> J (GetWithETag k w).2;
  sk_list : forall p a m w, J w -> J (ListObjects p a m w).2
}.

Context (Hs : storeKeeps).

Let I (s : FS * W) : Prop := J s.2.

Lemma bucket_framed : framed I.
Proof using Hs. split; unfold I; simpl; auto; intros; by apply Hs. Qed.

Lemma bucket_rooted : rooted I.
Proof using Hs. split; unfold I; simpl; auto; intros; by apply Hs. Qed.

Lemma bucket_view f g w : rootView g = rootView f -> I (f, w) -> I (g, w).
Proof using Type. done. Qed.

Ltac leaf := first [apply keeps_onStore; intros ? ?; apply Hs | apply keeps_modFS; by auto | apply keeps_onFS; by auto].

Lemma loadOrInit_keeps t now : keeps I (loadOrInit t now).
Proof using Cd Hs.
  unfold loadOrInit, initEmpty. repeat (apply (commitSealed_keeps _ bucket_rooted) || keeps_step || leaf).
Qed.

Lemma prunePass_keeps fuel current : keeps I (prunePass fuel current).
Proof using Cd Hs.
  unfold prunePass, pruneSnapshots.
  assert (Hl : forall after keys, keeps I (listSnapshots fuel after keys)).
  { induction fuel as [|fuel IH]; intros after keys; simpl; [keeps_step|]. unfold wrapErr. repeat (apply IH || keeps_step || leaf). }
  repeat (apply Hl || keeps_step || leaf).
Qed.

End Bucket.

(** Behind the wrapper nothing changes the bucket. *)
Lemma readonly_keeps {W} {St : Store W} {Vw : StoreView W} {Lw : StoreLaws W} (o : gmap string bytes) :
  @storeKeeps W (ReadOnly St) (fun w => objects w = o).
Proof.
  split; simpl; try done; intros; rewrite <- H.
  - apply get_frame.
  - apply head_frame.
  - apply gwe_frame.
  - apply list_frame.
Qed.
