(* ===== verification/Durable.v ===== *)
(** * What is in the bucket

    [held] relates the mount to the bucket: chunks are content addressed, every
    chunk the namespace names or the mount believes to be stored is stored, and
    the root pointer, if there is one, names a snapshot that decodes and whose
    chunks are all stored. Every operation keeps it on any store that obeys
    [StoreLaws], whichever of its calls fail and whether the failed writes took
    effect or not; a crash is a run whose later calls all fail without effect. *)

From Stdlib Require Import Ascii.
From stdpp Require Import sorting.
From S2P Require Import Prelude Vfs Fsm Modes Policy Inode ChunkCache Budget Store FsState Tree Namespace.
From S2P Require Import NamespaceInv Effects Data DataSpec FileSpec DataInv ReadDir Commit.

(** ** Keys *)

Lemma chunkKey_inj h h' : chunkKey h = chunkKey h' -> h = h'.
Proof. unfold chunkKey. by intros ?%(inj (String.append chunkPrefix)). Qed.

Lemma chunkKey_root h : chunkKey h ≠ rootKey.
Proof. done. Qed.

Lemma snapshotKey_root e n : snapshotKey e n ≠ rootKey.
Proof. done. Qed.

(** The keys of the filesystem are plain. *)
Lemma digits_word n z : wordText (digits n z) = true.
Proof.
  revert z. induction n as [|n IH]; intros z; [done|]. cbn [digits]. rewrite wordText_app, IH. cbn [wordText andb]. rewrite andb_true_r.
  assert (Hm : 0 <= z mod 10 < 10) by (apply Z.mod_pos_bound; lia). revert Hm. generalize (z mod 10). intros d Hd.
  assert (Hc : d = 0 \/ d = 1 \/ d = 2 \/ d = 3 \/ d = 4 \/ d = 5 \/ d = 6 \/ d = 7 \/ d = 8 \/ d = 9) by lia.
  by destruct Hc as [->|[->|[->|[->|[->|[->|[->|[->|[->| ->]]]]]]]]].
Qed.

Lemma digits_nonempty n z : digits (S n) z ≠ "".
Proof. cbn [digits]. by destruct (digits n (z / 10)). Qed.

Lemma hex_word l : wordText (hex l) = true.
Proof. induction l as [|b l IH]; [done|]. cbn [hex]. rewrite wordText_app, IH, andb_true_r. by destruct b. Qed.

(** A directory in front of a key. *)
Lemma plain_dir d s : wordText d = true -> d ≠ "" -> plainFrom true false (d +:+ String "/" s) = plainFrom true false s.
Proof. intros Hw Hn. by rewrite plainFrom_word. Qed.

Lemma plain_snapshot D H : wordText D = true -> D ≠ "" -> wordText H = true ->
  plainKey (snapshotPrefix +:+ D +:+ "-" +:+ H +:+ ".json.gz") = true.
Proof.
  intros HD Hn HH. transitivity (plainFrom true false ((D +:+ "-" +:+ H) +:+ ".json.gz")).
  - rewrite !app_string_assoc. exact (plain_dir "snapshots" _ eq_refl ltac:(done)).
  - rewrite plainFrom_word; [done| |by apply nonempty_app]. by rewrite !wordText_app, HD, HH.
Qed.

Lemma snapshotKey_plain e n : plainKey (snapshotKey e n) = true.
Proof. apply plain_snapshot; [apply digits_word|apply digits_nonempty|apply hex_word]. Qed.

Lemma chunkKey_plain {Dg : Digest} d : plainKey (chunkKey (sha d)) = true.
Proof.
  transitivity (plainFrom true false (sha d)); [exact (plain_dir "chunks" _ eq_refl ltac:(done))|].
  rewrite <- (app_empty_r (sha d)). by rewrite plainFrom_word by first [apply sha_word|apply sha_nonempty].
Qed.

Lemma snapshotKey_chunk e n h : snapshotKey e n ≠ chunkKey h.
Proof. done. Qed.

(** ** Snapshots *)

Section Codec.
Context {Cd : Codec}.

Lemma fromRaw_toRaw n : fromRaw (toRaw n) = n.
Proof using Type. unfold fromRaw, toRaw. simpl. destruct n. simpl. case_bool_decide as E; simpl; [by rewrite E|done]. Qed.

(** Decoding gives back what was encoded, empty directories included. *)
Lemma decode_encode s :
  (forall id n, snInodes s !! id = Some n -> textOK n) -> decodeSnapshot (encodeSnapshot s) = Some s.
Proof using Type.
  intros Ht. unfold decodeSnapshot, encodeSnapshot. rewrite snap_roundtrip by done. simpl.
  rewrite bool_decide_true.
  - f_equal. destruct s as [v e nx c m t]. simpl. f_equal. apply map_eq. intros j.
    rewrite lookup_omap, lookup_fmap. destruct (m !! j) as [n|]; simpl; [|done]. by rewrite fromRaw_toRaw.
  - intros j n. rewrite lookup_fmap. destruct (snInodes s !! j); simpl; [|done]. intros [= <-]. eauto.
Qed.

End Codec.

Section Held.
Context {Cd : Codec} {W : Type} {St : Store W} {Vw : StoreView W} {Lw : StoreLaws W}
  {Dg : Digest} {Ro : RunOrder} {P : Policy}.

Lemma key_root : keyOK rootKey.
Proof using Lw. by apply key_plain. Qed.

Lemma key_chunk d : keyOK (chunkKey (sha d)).
Proof using Lw. apply key_plain, chunkKey_plain. Qed.

Lemma key_snapshot e n : keyOK (snapshotKey e n).
Proof using Lw. apply key_plain, snapshotKey_plain. Qed.

(** The chunk a reference names is in the bucket. *)
Definition refStored (w : W) (ref : chunkRef) : Prop :=
  isHole ref = false -> objects w !! chunkKey (cHash ref) = Some (unsha (cHash ref)).

Definition contentOK (w : W) : Prop := forall h d, objects w !! chunkKey h = Some d -> d = unsha h.

Definition inodesStored (w : W) (m : gmap Z inode) : Prop :=
  forall id n, m !! id = Some n -> Forall (refStored w) (iChunks n).

(** Nothing is buffered: what the chunk lists name is what the files hold. *)
Definition drained (f : FS) : Prop := forall id o, open f !! id = Some o -> o = newOpenFile.

(** A snapshot a mount can adopt: the namespace is a well-formed tree of
    well-formed files, with everything it names in text. *)
Record sane (snap : snapshot) : Prop := {
  sa_tree : tree (skel <$> snInodes snap);
  sa_next : is_u64 (snNextIno snap);
  sa_ids : forall id n, snInodes snap !! id = Some n -> 0 < id < snNextIno snap;
  sa_gens : forall id n, snInodes snap !! id = Some n -> is_u64 (iGen n);
  sa_names : forall id n x c, snInodes snap !! id = Some n -> iEntries n !! x = Some c -> validName x = None;
  sa_cs : 0 < snChunkSize snap < 2 ^ 32;
  sa_files : forall id n, snInodes snap !! id = Some n -> fileOK (snChunkSize snap) n newOpenFile;
  sa_text : forall id n, snInodes snap !! id = Some n -> textOK n
}.

Lemma sane_root snap : sane snap -> is_Some (snInodes snap !! rootInodeID).
Proof using Type.
  intros Hs. destruct (tr_root _ (sa_tree _ Hs)) as (r&Hr&_). rewrite lookup_fmap in Hr. unfold rootInodeID.
  destruct (snInodes snap !! 1); [eauto|done].
Qed.

(** A mount with nothing buffered commits a sane snapshot. *)
Lemma good_sane f now :
  good f -> drained f -> (forall id n, inodes f !! id = Some n -> textOK n) -> sane (snapshotOf f now).
Proof using Type.
  intros [Hw Hd] Hdr Ht. split; simpl; try apply Hw; try apply Hd; [|done].
  intros id n Hn. pose proof (do_files f Hd id n Hn) as Hok. unfold bufOf in Hok.
  destruct (open f !! id) as [o|] eqn:Eo; [|done]. by rewrite (Hdr id o Eo) in Hok.
Qed.

(** The root pointer names a whole filesystem. *)
Definition loadable (w : W) (raw : bytes) (rp : rootPointer) (snap : snapshot) : Prop :=
  unmarshalRoot raw = Some rp /\ rpVersion rp = snapshotVersion /\
  (exists body, objects w !! rpSnapshot rp = Some body /\ decodeSnapshot body = Some snap) /\
  sane snap /\ inodesStored w (snInodes snap) /\ keyOK (rpSnapshot rp).

Definition rootOK (w : W) : Prop := forall raw, objects w !! rootKey = Some raw -> exists rp snap, loadable w raw rp snap.

Record held (f : FS) (w : W) : Prop := {
  h_content : contentOK w;
  h_root : rootOK w;
  h_known : forall h, h ∈ knownChunks f -> objects w !! chunkKey h = Some (unsha h);
  h_files : inodesStored w (inodes f)
}.

Lemma refStored_mono w w' ref : objects w ⊆ objects w' -> refStored w ref -> refStored w' ref.
Proof using Type. intros Hs Hr Hh. eapply lookup_weaken; [by apply Hr|done]. Qed.

Lemma inodesStored_mono w w' m : objects w ⊆ objects w' -> inodesStored w m -> inodesStored w' m.
Proof using Type. intros Hs Hi id n Hn. apply (list.Forall_impl (refStored w)); [by apply (Hi id)|]. intros ref. by apply refStored_mono. Qed.

Lemma loadable_mono w w' raw rp snap : objects w ⊆ objects w' -> loadable w raw rp snap -> loadable w' raw rp snap.
Proof using Type.
  intros Hs (H1&H2&(body&H3&H4)&H5&H6&H7). split; [done|]. split; [done|].
  split; [|split; [done|split; [by eapply inodesStored_mono|done]]].
  exists body. split; [by eapply lookup_weaken|done].
Qed.

(** The bucket gained chunks, each under its own hash. *)
Record gained (w w' : W) : Prop := {
  ga_mono : objects w ⊆ objects w';
  ga_root : objects w' !! rootKey = objects w !! rootKey;
  ga_content : contentOK w'
}.

Lemma gained_refl w : contentOK w -> gained w w.
Proof using Type. by split. Qed.

Lemma gained_trans w w1 w2 : gained w w1 -> gained w1 w2 -> gained w w2.
Proof using Type. intros [A1 A2 A3] [B1 B2 B3]. split; [by etrans|congruence|done]. Qed.

Lemma gained_same w w' : objects w' = objects w -> contentOK w -> gained w w'.
Proof using Type. intros E Hc. split; rewrite ?E; [done|done|]. intros h d. rewrite E. apply Hc. Qed.

Lemma rootOK_gained w w' : rootOK w -> gained w w' -> rootOK w'.
Proof using Type.
  intros Hr [H1 H2 _] raw Hraw. rewrite H2 in Hraw. destruct (Hr raw Hraw) as (rp&snap&Hl).
  exists rp, snap. by eapply loadable_mono.
Qed.

Lemma held_gained f f' w w' :
  held f w -> gained w w' -> inodes f' = inodes f ->
  (forall h, h ∈ knownChunks f' -> h ∈ knownChunks f \/ objects w' !! chunkKey h = Some (unsha h)) -> held f' w'.
Proof using Type.
  intros [H1 H2 H3 H4] Hg Hi Hk. split.
  - apply Hg.
  - by eapply rootOK_gained.
  - intros h [Hh|Hh]%Hk; [|done]. eapply lookup_weaken; [by apply H3|apply Hg].
  - rewrite Hi. eapply inodesStored_mono; [apply Hg|done].
Qed.

(** ** Chunk transfers *)

(** A transfer keeps [held], only gains chunks, and its reply satisfies [Q]
    against the bucket it leaves. *)
Definition transfers {A} (m : act W A) (Q : W -> A -> Prop) : Prop :=
  forall f w r f' w', held f w -> skipVerify (cf f) = false -> m (f, w) = (r, (f', w')) ->
    held f' w' /\ gained w w' /\ (inodes f' = inodes f /\ cf f' = cf f) /\ forall a, r = Ok a -> Q w' a.

Lemma held_aside f f' w : held f w -> aside f f' -> knownChunks f' = knownChunks f -> held f' w.
Proof using Type. intros Hh (c&k&->) Hk. simpl in Hk. destruct Hh. split; simpl; try done. by rewrite Hk. Qed.

Lemma loadChunk_held ref : transfers (loadChunk ref) (fun _ _ => True).
Proof using Lw.
  intros f w r f' w' Hh Hv. unfold loadChunk. destruct (isHole ref).
  { intros [= <- <- <-]. split; [done|]. split; [apply gained_refl, Hh|]. split; [done|done]. }
  unfold bind at 1, cacheGet, onFS. simpl. destruct (ChunkCache.get (cache f) (cHash ref)) as [c [data|]]; simpl.
  { intros [= <- <- <-]. split; [by eapply held_aside; [|apply aside_cache|]|]. split; [apply gained_refl, Hh|]. split; [done|done]. }
  unfold bind at 1, attempt, onStore. simpl.
  pose proof (get_frame (chunkKey (cHash ref)) w) as Hfr. pose proof (fun x0 => get_ok (chunkKey (cHash ref)) w x0) as Hok.
  destruct (Get (chunkKey (cHash ref)) w) as [[data|e] w1]; simpl in *.
  - unfold bind at 1, getFS. simpl. rewrite Hv. simpl.
    assert (Hg : gained w w1) by (apply gained_same; [done|apply Hh]).
    destruct (String.eqb_spec (sha data) (cHash ref)) as [E|E]; simpl; intros [= <- <- <-].
    + split; [|split; [done|split; [done|done]]]. eapply held_gained; [done|done|done|].
      simpl. intros h [->%elem_of_singleton|?]%elem_of_union; [right|by left]. rewrite Hfr, (Hok data); [by rewrite (sha_unsha data)| |done]. rewrite <- E. apply key_chunk.
    + split; [|split; [done|split; [done|done]]]. eapply held_gained; [done|done|done|]. by left.
  - assert (Hg : gained w w1) by (apply gained_same; [done|apply Hh]).
    destruct (errIs e ErrNotFound); intros [= <- <- <-];
      (split; [|split; [done|split; [done|done]]]); (eapply held_gained; [done|done|done|]); by left.
Qed.

Lemma putChunk_held data : transfers (putChunk data) (fun w ref => refStored w ref).
Proof using Lw.
  intros f w r f' w' Hh Hv. unfold putChunk. unfold bind at 1, getFS. simpl. unfold isKnown. case_bool_decide as Hk.
  { intros [= <- <- <-]. split; [done|]. split; [apply gained_refl, Hh|]. split; [done|].
    intros ref [= <-] _. by apply (h_known f w Hh). }
  unfold bind at 1, attempt, onStore. simpl.
  pose proof (head_frame (chunkKey (sha data)) w) as Hfr. pose proof (fun x0 => head_ok (chunkKey (sha data)) w x0 (key_chunk data)) as Hok.
  destruct (Head (chunkKey (sha data)) w) as [[i|e] w1]; simpl in *.
  { intros [= <- <- <-]. destruct (Hok i eq_refl) as [[d Hd] _].
    assert (Hst : objects w1 !! chunkKey (sha data) = Some (unsha (sha data))).
    { rewrite Hfr, Hd. by rewrite (h_content f w Hh _ _ Hd). }
    assert (Hg : gained w w1) by (apply gained_same; [done|apply Hh]).
    split; [|split; [done|split; [done|]]].
    - eapply held_gained; [done|done|done|]. simpl. intros h [->%elem_of_singleton|?]%elem_of_union; [by right|by left].
    - by intros ref [= <-] _. }
  unfold bind at 1, attempt, onStore. simpl.
  pose proof (put_ok (chunkKey (sha data)) data w1 (key_chunk data)) as Hpok. pose proof (fun x0 => put_err (chunkKey (sha data)) data w1 x0 (key_chunk data)) as Hperr.
  assert (Hput : forall w2, objects w2 = objects w1 \/ objects w2 = <[chunkKey (sha data) := data]> (objects w1) -> gained w w2).
  { intros w2 [E|E]; [apply gained_same; [congruence|apply Hh]|].
    assert (Hkeep : forall k d, objects w !! k = Some d -> objects w2 !! k = Some d).
    { intros k d Hd. rewrite E, lookup_insert, Hfr. case_decide; [subst|done].
      rewrite (h_content f w Hh _ _ Hd). by rewrite unsha_sha. }
    split.
    - apply map_subseteq_spec. done.
    - rewrite E, lookup_insert_ne by apply chunkKey_root. by rewrite Hfr.
    - intros h d. rewrite E, lookup_insert, Hfr. case_decide as Ek; [|apply (h_content f w Hh)].
      apply chunkKey_inj in Ek as <-. intros [= <-]. by rewrite unsha_sha. }
  destruct (Put (chunkKey (sha data)) data w1) as [[[]|e'] w2]; simpl in *.
  - assert (Hst : objects w2 !! chunkKey (sha data) = Some (unsha (sha data))).
    { rewrite Hpok by done. by rewrite lookup_insert_eq, unsha_sha. }
    intros [= <- <- <-]. split; [|split; [apply Hput; right; by apply Hpok|split; [done|]]].
    + eapply held_gained; [done|apply Hput; right; by apply Hpok|done|].
      simpl. intros h [->%elem_of_singleton|?]%elem_of_union; [by right|by left].
    + by intros ref [= <-] _.
  - assert (Hg : gained w w2) by (apply Hput; by apply (Hperr e')).
    destruct (errIs e' ErrUnsupported); intros [= <- <- <-];
      (split; [eapply held_gained; [done|done|done|]; by left|]); (split; [done|]); (split; [done|done]).
Qed.

Lemma transfers_ret {A} (a : A) (Q : W -> A -> Prop) : (forall w, Q w a) -> transfers (ret a) Q.
Proof using Type. intros HQ f w r f' w' Hh _ [= <- <- <-]. split; [done|]. split; [apply gained_refl, Hh|]. split; [done|]. by intros a' [= <-]. Qed.

Lemma transfers_fail {A} e (Q : W -> A -> Prop) : transfers (fail e) Q.
Proof using Type. intros f w r f' w' Hh _ [= <- <- <-]. split; [done|]. split; [apply gained_refl, Hh|]. done. Qed.

Lemma transfers_bind {A B} (m : act W A) (k : A -> act W B) (Q : W -> A -> Prop) (R : W -> B -> Prop) :
  transfers m Q -> (forall w w' a, gained w w' -> Q w a -> Q w' a) ->
  (forall a, transfers (k a) (fun w b => Q w a -> R w b)) -> transfers (bind m k) R.
Proof using Type.
  intros Hm Hmono Hk f w r f' w' Hh Hv Hb. apply bind_inv in Hb as [(a&[f1 w1]&H1&H2)|(e&H1&->)].
  - destruct (Hm f w _ f1 w1 Hh Hv H1) as (Hh1&Hg1&[Hi1 Hc1]&Ha). specialize (Ha a eq_refl).
    destruct (Hk a f1 w1 r f' w' Hh1 ltac:(by rewrite Hc1) H2) as (Hh2&Hg2&[Hi2 Hc2]&Hb).
    split; [done|]. split; [by eapply gained_trans|]. split; [split; congruence|]. intros b Hr. apply (Hb b Hr). by eapply Hmono.
  - destruct (Hm f w _ f' w' Hh Hv H1) as (Hh1&Hg1&Hi1&_). done.
Qed.

Lemma transfers_weaken {A} (m : act W A) (Q R : W -> A -> Prop) :
  transfers m Q -> (forall w a, Q w a -> R w a) -> transfers m R.
Proof using Type. intros Hm HQ f w r f' w' Hh Hv H. destruct (Hm f w r f' w' Hh Hv H) as (?&?&?&?). eauto 10. Qed.

Lemma transfers_forEach {A B} (l : list A) (k : A -> act W B) (Q : W -> B -> Prop) :
  (forall a, transfers (k a) Q) -> (forall w w' b, gained w w' -> Q w b -> Q w' b) ->
  transfers (forEach l k) (fun w bs => Forall (Q w) bs).
Proof using Type.
  intros Hk Hmono. assert (Hmono' : forall w w' bs, gained w w' -> Forall (Q w) bs -> Forall (Q w') bs).
  { intros w w' bs Hg Hf. apply (list.Forall_impl (Q w)); [done|]. intros. by eapply Hmono. }
  induction l as [|a l IH]; cbn [forEach]; [apply transfers_ret; constructor|].
  apply (transfers_bind _ _ Q); [apply Hk|done|]. intros b.
  apply (transfers_bind _ _ (fun w bs => Forall (Q w) bs)); [exact IH|done|]. intros bs.
  apply transfers_ret. intros w Hbs Hb. by constructor.
Qed.

Lemma refStored_gained w w' ref : gained w w' -> refStored w ref -> refStored w' ref.
Proof using Type. intros [Hs _ _]. by apply refStored_mono. Qed.

Lemma applyTrim_held t : transfers (applyTrim t) refStored.
Proof using Lw.
  unfold applyTrim. apply (transfers_bind _ _ (fun _ _ => True)); [apply loadChunk_held|done|]. intros d.
  eapply transfers_weaken; [apply putChunk_held|]. auto.
Qed.

Lemma flushTrim_held o idx : transfers (flushTrim o idx) (fun w ir => refStored w ir.2).
Proof using Lw.
  unfold flushTrim. destruct (ofPendingTrim o !! idx); [|apply transfers_fail].
  apply (transfers_bind _ _ refStored); [apply applyTrim_held|intros; by eapply refStored_gained|]. intros ref. apply transfers_ret. auto.
Qed.

Lemma flushBuf_held o idx : transfers (flushBuf o idx) (fun w ir => refStored w ir.2).
Proof using Lw.
  unfold flushBuf. destruct (ofDirty o !! idx); [|apply transfers_fail].
  apply (transfers_bind _ _ refStored); [apply putChunk_held|intros; by eapply refStored_gained|]. intros ref. apply transfers_ret. auto.
Qed.

Lemma orDrop_held {A} id o (m : act W A) Q : transfers m Q -> transfers (orDrop id o m) Q.
Proof using Type.
  intros Hm f w r f' w' Hh Hv. unfold orDrop, attempt, bind, ret, fail, modFS. specialize (Hm f w).
  destruct (m (f, w)) as [[a|e] [f1 w1]]; simpl.
  - intros [= <- <- <-]. by apply Hm.
  - intros [= <- <- <-]. destruct (Hm _ f1 w1 Hh Hv eq_refl) as (H1&H2&H3&_).
    assert (Hd : inodes (dropIfGone id o f1) = inodes f1 /\ cf (dropIfGone id o f1) = cf f1 /\ knownChunks (dropIfGone id o f1) = knownChunks f1).
    { unfold dropIfGone. by destruct (inodes f1 !! id). }
    destruct Hd as (D1&D2&D3). split; [|split; [done|split; [by rewrite D1, D2|done]]].
    destruct H1 as [K1 K2 K3 K4]. split; rewrite ?D1, ?D3; done.
Qed.

Lemma repoint_stored w cs trimmed uploaded chunks :
  Forall (fun ir => refStored w ir.2) trimmed -> Forall (fun ir => refStored w ir.2) uploaded ->
  Forall (refStored w) chunks -> Forall (refStored w) (repoint cs trimmed uploaded chunks).
Proof using Type.
  intros Ht Hu Hc. unfold repoint.
  assert (H1 : Forall (refStored w) (fold_left (fun c ir => setChunk ir.1 ir.2 c) trimmed chunks)).
  { revert chunks Hc. induction Ht as [|[i ref] l Hr Ht IH]; intros chunks Hc; simpl; [done|].
    apply IH. unfold setChunk. destruct (_ <? _); [|done]. by apply Forall_insert. }
  revert H1. generalize (fold_left (fun c ir => setChunk ir.1 ir.2 c) trimmed chunks). clear Hc Ht chunks.
  induction Hu as [|[i ref] l Hr Hu IH]; intros chunks Hc; simpl; [done|]. apply IH. unfold placeChunk.
  apply Forall_insert; [|done]. apply Forall_app. split; [done|]. apply Forall_replicate. done.
Qed.

(** A flush keeps the bucket and the namespace in step, and only adds chunks. *)
Lemma flushOpen_held id o f w r f' w' :
  held f w -> skipVerify (cf f) = false -> flushOpen id o (f, w) = (r, (f', w')) ->
  held f' w' /\ gained w w' /\ cf f' = cf f.
Proof using Lw.
  intros Hh Hv. unfold flushOpen.
  destruct (bool_decide (ofDirty o = ∅) && bool_decide (ofPendingTrim o = ∅)).
  { assert (Hs : forall u, held (setOpen id u f) w) by (intros u; by destruct Hh).
    destruct (ofUnsettled o); intros [= <- <- <-]; (split; [done|]); (split; [apply gained_refl, Hh|done]). }
  set (Q := fun (w : W) (ir : Z * chunkRef) => refStored w ir.2).
  assert (HQ : forall w w' b, gained w w' -> Q w b -> Q w' b) by (intros ? ? ? ?; by apply refStored_gained).
  assert (Ht : transfers (orDrop id o (forEach (ranged (dom (ofPendingTrim o))) (flushTrim o))) (fun w bs => Forall (Q w) bs))
    by (apply orDrop_held, transfers_forEach; [apply flushTrim_held|done]).
  assert (Hu : transfers (orDrop id o (forEach (sortedIdxs (ofDirty o)) (flushBuf o))) (fun w bs => Forall (Q w) bs))
    by (apply orDrop_held, transfers_forEach; [apply flushBuf_held|done]).
  intros Hb. apply bind_inv in Hb as [(tr&[f1 w1]&H1&Hb)|(e&H1&->)].
  2:{ destruct (Ht _ _ _ _ _ Hh Hv H1) as (?&?&[_ ?]&_). done. }
  destruct (Ht _ _ _ _ _ Hh Hv H1) as (Hh1&Hg1&[Hi1 Hc1]&Htr). specialize (Htr tr eq_refl).
  apply bind_inv in Hb as [(up&[f2 w2]&H2&Hb)|(e&H2&->)].
  2:{ destruct (Hu _ _ _ _ _ Hh1 ltac:(by rewrite Hc1) H2) as (?&?&[_ ?]&_). split; [done|]. split; [by eapply gained_trans|congruence]. }
  destruct (Hu _ _ _ _ _ Hh1 ltac:(by rewrite Hc1) H2) as (Hh2&Hg2&[Hi2 Hc2]&Hup). specialize (Hup up eq_refl).
  injection Hb as <- <- <-. split; [|split; [by eapply gained_trans|]].
  - destruct Hh2 as [K1 K2 K3 K4]. split; [done|done| |].
    + unfold finishFlush. destruct (inodes f2 !! id); simpl; done.
    + unfold finishFlush. destruct (inodes f2 !! id) as [n|] eqn:En; simpl; [|done].
      intros j m. rewrite lookup_alter. case_decide; [subst|apply K4]. rewrite En. intros [= <-]. simpl.
      apply repoint_stored; [|done|by apply (K4 j)]. apply (list.Forall_impl (Q w1)); [done|]. intros b. by apply refStored_gained.
  - unfold finishFlush. destruct (inodes f2 !! id); simpl; congruence.
Qed.

Lemma flushList_held l opened f w r f' w' :
  held f w -> skipVerify (cf f) = false -> flushList l opened (f, w) = (r, (f', w')) ->
  held f' w' /\ gained w w' /\ cf f' = cf f.
Proof using Lw.
  unfold flushList. revert f w. induction l as [|id l IH]; intros f w Hh Hv; cbn [forEach_].
  { intros [= <- <- <-]. split; [done|]. split; [apply gained_refl, Hh|done]. }
  intros Hb. apply bind_inv in Hb as [([]&[f1 w1]&H1&Hb)|(e&H1&->)].
  - assert (held f1 w1 /\ gained w w1 /\ cf f1 = cf f) as (Hh1&Hg1&Hc1).
    { destruct (opened !! id); [by eapply flushOpen_held|]. injection H1 as <- <-. split; [done|]. split; [apply gained_refl, Hh|done]. }
    destruct (IH f1 w1 Hh1 ltac:(by rewrite Hc1) Hb) as (Hh2&Hg2&Hc2). split; [done|]. split; [by eapply gained_trans|congruence].
  - destruct (opened !! id); [by eapply flushOpen_held|done].
Qed.

End Held.
