(* ===== verification/CommitSpec.v ===== *)
(** * What a commit promises

    Whatever the store answers, and whichever of its failed writes took effect,
    a commit keeps [held]: the root pointer never names anything that is not in
    the bucket. A commit that succeeds leaves a root pointer from which the
    namespace it sealed loads. *)

From Stdlib Require Import Ascii.
From stdpp Require Import sorting.
From S2P Require Import Prelude Vfs Fsm Modes Policy Inode ChunkCache Budget Store FsState Tree Namespace.
From S2P Require Import NamespaceInv Effects Data DataSpec FileSpec DataInv ReadDir Commit Durable.

(** ** Text *)

Definition asciiText (s : string) : Prop := Forall (fun b => Z_of_byte b < 128) (bytesOf s).

Lemma asciiText_cons a s : Z_of_byte (byte_of_ascii a) < 128 -> asciiText s -> asciiText (String a s).
Proof. intros Ha Hs. unfold asciiText, bytesOf. simpl. by constructor. Qed.

Lemma asciiText_app s t : asciiText s -> asciiText t -> asciiText (s +:+ t).
Proof.
  induction s as [|a s IH]; [done|]. intros Hs Ht. inversion Hs as [|b l Hb Hl]; subst.
  apply asciiText_cons; [done|]. by apply IH.
Qed.

Lemma asciiText_utf8 s : asciiText s -> utf8 s = true.
Proof.
  unfold utf8, asciiText. induction 1 as [|b l Hb Hl IH]; simpl; [done|].
  destruct (Z.ltb_spec (Z_of_byte b) 128); [done|lia].
Qed.

Lemma digits_ascii n z : asciiText (digits n z).
Proof.
  revert z. induction n as [|n IH]; intros z; simpl; [constructor|]. apply asciiText_app; [apply IH|].
  apply asciiText_cons; [|constructor]. pose proof (Z.mod_pos_bound z 10 ltac:(lia)) as Hm.
  assert (z mod 10 ∈ seqZ 0 10) as Hin by (apply elem_of_seqZ; lia). revert Hin. generalize (z mod 10). clear.
  intros v Hv. repeat (apply elem_of_cons in Hv as [->|Hv]; [done|]). by apply elem_of_nil in Hv.
Qed.

Lemma hexDigit_ascii v : 0 <= v < 16 -> Z_of_byte (byte_of_ascii (hexDigit v)) < 128.
Proof.
  intros Hv. assert (v ∈ seqZ 0 16) as Hin by (apply elem_of_seqZ; lia). revert Hin. clear.
  intros Hv. repeat (apply elem_of_cons in Hv as [->|Hv]; [done|]). by apply elem_of_nil in Hv.
Qed.

Lemma hex_ascii l : asciiText (hex l).
Proof.
  induction l as [|b l IH]; [constructor|]. pose proof (Z_of_byte_range b) as Hb. simpl.
  apply asciiText_cons; [apply hexDigit_ascii; split; [apply Z.div_pos; lia|apply Z.div_lt_upper_bound; lia]|].
  apply asciiText_cons; [apply hexDigit_ascii, Z.mod_pos_bound; lia|]. exact IH.
Qed.

Lemma snapshotKey_utf8 e n : utf8 (snapshotKey e n) = true.
Proof.
  apply asciiText_utf8. unfold snapshotKey. apply asciiText_app; [by repeat constructor|].
  apply asciiText_app; [apply digits_ascii|]. apply asciiText_app; [by repeat constructor|].
  apply asciiText_app; [apply hex_ascii|]. by repeat constructor.
Qed.

Section Commit.
Context {Cd : Codec} {W : Type} {St : Store W} {Vw : StoreView W} {Lw : StoreLaws W}
  {Dg : Digest} {Ro : RunOrder} {P : Policy}.

(** A digest is text. *)
Class HexDigest : Prop := sha_utf8 : forall d, utf8 (sha d) = true.

(** The names and link targets survive the snapshot encoding. *)
Definition encodable (f : FS) : Prop :=
  utf8 (writerID (cf f)) = true /\
  forall id n, inodes f !! id = Some n ->
    (forall x c, iEntries n !! x = Some c -> utf8 x = true) /\ utf8 (iTarget n) = true.

Lemma encodable_text {Hx : HexDigest} f :
  dataOK f -> encodable f -> forall id n, inodes f !! id = Some n -> textOK n.
Proof using Type.
  intros Hd [_ He] id n Hn. destruct (He id n Hn) as [H1 H2]. split; [done|]. split; [done|].
  pose proof (fo_refs _ _ _ (do_files f Hd id n Hn)) as Hr. apply (list.Forall_impl (refOK (chunkSize (cf f)))); [done|].
  intros ref [_ Hok]. destruct (isHole ref) eqn:Eh.
  - unfold isHole in Eh. apply String.eqb_eq in Eh. by rewrite Eh.
  - destruct (Hok eq_refl) as [<- _]. apply Hx.
Qed.

(** A sealed commit of the table [m]. *)
Record sealedFor (m : gmap Z inode) (s : sealedCommit) : Prop := {
  sl_key : exists e nonce, scKey s = snapshotKey e nonce;
  sl_body : exists snap, decodeSnapshot (scBody s) = Some snap /\ snInodes snap = m /\ sane snap;
  sl_root : exists rp, unmarshalRoot (scRpBody s) = Some rp /\ rpVersion rp = snapshotVersion /\ rpSnapshot rp = scKey s
}.

Lemma seal_spec {Hx : HexDigest} f nonce now1 now2 s :
  good f -> drained f -> encodable f -> seal nonce now1 now2 f = Ok s ->
  sealedFor (inodes f) s /\ anyUnsettled f = false /\ scEpoch s = u64 (epoch f + 1) /\
  scRootETag s = rootETag f /\ scChanges s = changes f /\ scKey s = snapshotKey (u64 (epoch f + 1)) nonce /\
  decodeSnapshot (scBody s) = Some (snapshotOf f now1).
Proof using Type.
  intros Hg Hdr He. pose proof (encodable_text f (proj2 Hg) He) as Ht. unfold seal. destruct (anyUnsettled f); [done|]. intros [= <-]. simpl.
  assert (Hdec : decodeSnapshot (encodeSnapshot (snapshotOf f now1)) = Some (snapshotOf f now1)).
  { by apply decode_encode. }
  split; [|done]. split; simpl; [eauto| |].
  - exists (snapshotOf f now1). split; [done|]. split; [done|]. by apply good_sane.
  - eexists. rewrite root_roundtrip; [done|apply snapshotKey_utf8|apply He].
Qed.

(** ** The bucket through the flight *)

Definition chunksSame (w w' : W) : Prop := forall h, objects w' !! chunkKey h = objects w !! chunkKey h.

Lemma chunksSame_refl w : chunksSame w w.
Proof using Type. by intros h. Qed.

Lemma chunksSame_trans w w1 w2 : chunksSame w w1 -> chunksSame w1 w2 -> chunksSame w w2.
Proof using Type. intros H1 H2 h. by rewrite H2. Qed.

Lemma stored_same w w' m : chunksSame w w' -> inodesStored w m -> inodesStored w' m.
Proof using Type.
  intros Hs Hi id n Hn. apply (list.Forall_impl (refStored w)); [by apply (Hi id)|]. intros ref Hr Hh. rewrite Hs. by apply Hr.
Qed.

Lemma content_same w w' : chunksSame w w' -> contentOK w -> contentOK w'.
Proof using Type. intros Hs Hc h d. rewrite Hs. apply Hc. Qed.

(** Everything the flight keeps of the bucket. *)
Record bucketOK (m : gmap Z inode) (w : W) : Prop := {
  bk_content : contentOK w;
  bk_root : rootOK w;
  bk_files : inodesStored w m
}.

Section Flight.
Context (m : gmap Z inode) (s : sealedCommit).
Hypothesis (Hs : sealedFor m s).

Lemma sealed_key_root : scKey s ≠ rootKey.
Proof using Hs. destruct (sl_key m s Hs) as (e&n&->). apply snapshotKey_root. Qed.

Lemma sealed_key_ok : keyOK (scKey s).
Proof using Hs Lw. destruct (sl_key m s Hs) as (e&n&->). apply key_snapshot. Qed.

Lemma sealed_key_chunk h : scKey s ≠ chunkKey h.
Proof using Hs. destruct (sl_key m s Hs) as (e&n&->). apply snapshotKey_chunk. Qed.

(** The snapshot as stored. *)
Definition snapStored (w : W) : Prop := objects w !! scKey s = Some (scBody s).

Lemma store_same w w' : bucketOK m w -> objects w' = objects w -> bucketOK m w' /\ chunksSame w w' /\ (snapStored w -> snapStored w').
Proof using Type.
  intros [H1 H2 H3] E. assert (Hc : chunksSame w w') by (intros h; by rewrite E). split; [|split; [done|]].
  - split; [by eapply content_same| |by eapply stored_same].
    intros raw. rewrite E. intros Hr. destruct (H2 raw Hr) as (rp&snap&K1&K2&K3&K4&K5&K6). exists rp, snap.
    split; [done|]. split; [done|]. split; [by rewrite E|]. split; [done|]. split; [by eapply stored_same|done].
  - unfold snapStored. by rewrite E.
Qed.

Lemma store_snapshot w w' : bucketOK m w -> objects w' = <[scKey s := scBody s]> (objects w) ->
  bucketOK m w' /\ chunksSame w w' /\ snapStored w'.
Proof using Hs.
  intros [H1 H2 H3] E.
  assert (Hc : chunksSame w w') by (intros h; rewrite E, lookup_insert_ne; [done|apply sealed_key_chunk]).
  split; [|split; [done|unfold snapStored; by rewrite E, lookup_insert_eq]].
  split; [by eapply content_same| |by eapply stored_same].
  intros raw. rewrite E, lookup_insert_ne by apply sealed_key_root. intros Hr.
  destruct (H2 raw Hr) as (rp&snap&K1&K2&(body&K3&K4)&K5&K6&K7).
  destruct (decide (rpSnapshot rp = scKey s)) as [Ek|Ek].
  - destruct (sl_body m s Hs) as (snap'&Hb&Hm&Hsa). exists rp, snap'. split; [done|]. split; [done|].
    split; [exists (scBody s); rewrite E, Ek, lookup_insert_eq; done|]. split; [done|]. rewrite Hm. split; [by eapply stored_same|done].
  - exists rp, snap. split; [done|]. split; [done|]. split; [|split; [done|split; [by eapply stored_same|done]]].
    exists body. rewrite E, lookup_insert_ne by done. done.
Qed.

(** The root pointer as the flight writes it names the snapshot. *)
Lemma store_root w w' : bucketOK m w -> snapStored w -> objects w' = <[rootKey := scRpBody s]> (objects w) ->
  bucketOK m w' /\ chunksSame w w' /\ snapStored w'.
Proof using Lw Hs.
  intros [H1 H2 H3] Hsn E.
  assert (Hc : chunksSame w w') by (intros h; rewrite E, lookup_insert_ne; [done|by intros ?%eq_sym%chunkKey_root]).
  assert (Hsn' : snapStored w').
  { unfold snapStored. rewrite E, lookup_insert_ne; [done|]. apply not_eq_sym, sealed_key_root. }
  split; [|done]. split; [by eapply content_same| |by eapply stored_same].
  intros raw. rewrite E, lookup_insert_eq. intros [= <-].
  destruct (sl_root m s Hs) as (rp&K1&K2&K3), (sl_body m s Hs) as (snap&K4&K5&K6). exists rp, snap.
  split; [done|]. split; [done|]. split; [exists (scBody s); rewrite K3; done|]. split; [done|]. rewrite K5.
  split; [by eapply stored_same|rewrite K3; apply sealed_key_ok].
Qed.

(** Deleting the snapshot is safe while the root pointer names another. *)
Lemma delete_snapshot w w' :
  bucketOK m w -> objects w' = delete (scKey s) (objects w) ->
  (forall raw rp, objects w !! rootKey = Some raw -> unmarshalRoot raw = Some rp -> rpSnapshot rp ≠ scKey s) ->
  bucketOK m w' /\ chunksSame w w'.
Proof using Hs.
  intros [H1 H2 H3] E Hother.
  assert (Hc : chunksSame w w') by (intros h; rewrite E, lookup_delete_ne; [done|apply sealed_key_chunk]).
  split; [|done]. split; [by eapply content_same| |by eapply stored_same].
  intros raw. rewrite E, lookup_delete_ne by apply sealed_key_root. intros Hr.
  destruct (H2 raw Hr) as (rp&snap&K1&K2&(body&K3&K4)&K5&K6&K7). exists rp, snap.
  split; [done|]. split; [done|]. split; [|split; [done|split; [by eapply stored_same|done]]].
  exists body. rewrite E, lookup_delete_ne; [done|]. apply not_eq_sym. by eapply Hother.
Qed.

(** The root pointer names the sealed commit. *)
Definition landed (w : W) : Prop :=
  exists raw rp snap, objects w !! rootKey = Some raw /\ loadable w raw rp snap /\ rpSnapshot rp = scKey s /\
    decodeSnapshot (scBody s) = Some snap.

Lemma landed_here w : bucketOK m w -> snapStored w -> objects w !! rootKey = Some (scRpBody s) -> landed w.
Proof using Lw Hs.
  intros Hb Hsn Hr. destruct (sl_root m s Hs) as (rp&K1&K2&K3), (sl_body m s Hs) as (snap&K4&K5&K6).
  exists (scRpBody s), rp, snap. split; [done|]. split; [|done]. split; [done|]. split; [done|].
  split; [exists (scBody s); rewrite K3; done|]. split; [done|]. rewrite K5.
  split; [apply Hb|rewrite K3; apply sealed_key_ok].
Qed.

Lemma reclaim_spec e f w r f' w' :
  bucketOK m w -> snapStored w -> reclaim s e (f, w) = (r, (f', w')) ->
  f' = f /\ bucketOK m w' /\ chunksSame w w' /\
  match r with Ok (SwapRefused _) => True | Ok (Doubtful _ _ _) => snapStored w' | _ => False end.
Proof using Hs Lw.
  intros Hb Hsn. unfold reclaim, bind, attempt, onStore, ret. simpl.
  pose proof (get_frame rootKey w) as Hfr. pose proof (fun x0 => get_ok rootKey w x0 key_root) as Hok. pose proof (get_missing rootKey w key_root) as Hmiss.
  destruct (Get rootKey w) as [raw w1]. simpl in *. destruct (store_same w w1 Hb Hfr) as (Hb1&Hc1&Hs1).
  match goal with |- context [if ?b then _ else _] => destruct b eqn:Ed end; simpl.
  - pose proof (del_ok (scKey s) w1 sealed_key_ok) as Hdok. pose proof (fun x0 => del_err (scKey s) w1 x0 sealed_key_ok) as Hderr.
    destruct (Delete (scKey s) w1) as [dr w2]. simpl in *. intros [= <- <- <-]. split; [done|].
    assert (Hdel : bucketOK m w2 /\ chunksSame w1 w2).
    { assert (Hcase : objects w2 = objects w1 \/ objects w2 = delete (scKey s) (objects w1)).
      { destruct dr as [[]|e']; [right; by apply Hdok|by apply (Hderr e')]. }
      destruct Hcase as [E|E]; [by destruct (store_same w1 w2 Hb1 E) as (?&?&_)|].
      apply (delete_snapshot w1 w2 Hb1 E). intros rb rp. rewrite Hfr. intros Hrb Hrp.
      apply orb_true_iff in Ed as [Ed|Ed].
      - destruct raw as [b|e']; [done|]. simpl in Ed. exfalso. rewrite Hmiss in Hrb by done. done.
      - destruct raw as [b|e']; [|done]. assert (b = rb) as -> by (specialize (Hok b eq_refl); congruence).
        rewrite Hrp in Ed. destruct (_ && _); [|done]. apply negb_true_iff, String.eqb_neq in Ed. done. }
    destruct Hdel as [Hb2 Hc2]. split; [done|]. split; [by eapply chunksSame_trans|done].
  - intros [= <- <- <-]. split; [done|]. split; [done|]. split; [done|]. auto.
Qed.

Lemma fallback_spec f w r f' w' :
  bucketOK m w -> snapStored w -> fallback s (f, w) = (r, (f', w')) ->
  f' = f /\ bucketOK m w' /\ chunksSame w w' /\
  match r with
  | Ok (Swapped _) => landed w' /\ snapStored w'
  | Ok (Doubtful _ _ _) => snapStored w'
  | _ => False
  end.
Proof using Hs Lw.
  intros Hb Hsn. unfold fallback, bind, attempt, onStore, ret. simpl.
  pose proof (put_ok rootKey (scRpBody s) w key_root) as Hok. pose proof (fun x0 => put_err rootKey (scRpBody s) w x0 key_root) as Herr.
  destruct (Put rootKey (scRpBody s) w) as [[[]|e] w1]; simpl in *.
  - specialize (Hok eq_refl). destruct (store_root w w1 Hb Hsn Hok) as (Hb1&Hc1&Hs1).
    assert (Hr1 : objects w1 !! rootKey = Some (scRpBody s)) by by rewrite Hok, lookup_insert_eq.
    pose proof (head_frame rootKey w1) as Hfr. destruct (Head rootKey w1) as [info w2]. simpl in *.
    destruct (store_same w1 w2 Hb1 Hfr) as (Hb2&Hc2&Hs2).
    assert (Hl : landed w2) by (apply landed_here; [done|by apply Hs2|by rewrite Hfr]).
    pose proof (chunksSame_trans _ _ _ Hc1 Hc2).
    destruct info as [i|e]; [destruct (String.eqb (oiETag i) "")|]; intros [= <- <- <-]; auto 10.
  - intros [= <- <- <-]. destruct (Herr e eq_refl) as [E|E].
    + destruct (store_same w w1 Hb E) as (?&?&?). auto.
    + destruct (store_root w w1 Hb Hsn E) as (?&?&?). auto.
Qed.

Lemma swapRoot_spec f w r f' w' :
  bucketOK m w -> snapStored w -> swapRoot s (f, w) = (r, (f', w')) ->
  f' = f /\ bucketOK m w' /\ chunksSame w w' /\
  match r with
  | Ok (Swapped _) => landed w' /\ snapStored w'
  | Ok (Doubtful _ _ _) => snapStored w'
  | Ok (SwapRefused _) => True
  | Err _ => False
  end.
Proof using Hs Lw.
  intros Hb Hsn. unfold swapRoot. unfold bind at 1, attempt, onStore. simpl.
  pose proof (fun x0 => pim_ok rootKey (scRpBody s) (scRootETag s) w x0 key_root) as Hok. pose proof (fun x0 => pim_err rootKey (scRpBody s) (scRootETag s) w x0 key_root) as Herr.
  destruct (PutIfMatch rootKey (scRpBody s) (scRootETag s) w) as [[etag|e] w1]; simpl in *.
  - destruct (Hok etag eq_refl) as (_&E&_). destruct (store_root w w1 Hb Hsn E) as (Hb1&Hc1&Hs1).
    assert (Hl : landed w1) by (apply landed_here; [done|done|by rewrite E, lookup_insert_eq]).
    unfold bind, getFS. simpl. destruct (String.eqb etag ""); intros [= <- <- <-]; auto 10.
  - assert (Hw1 : bucketOK m w1 /\ chunksSame w w1 /\ snapStored w1).
    { destruct (Herr e eq_refl) as [[E _]|[_ E]].
      - destruct (store_same w w1 Hb E) as (?&?&?). auto.
      - by apply (store_root w w1 Hb Hsn E). }
    destruct Hw1 as (Hb1&Hc1&Hs1). unfold bind at 1, getFS. simpl.
    destruct (errIs e ErrPrecondition); [intros [= <- <- <-]; auto|].
    destruct (errIs e ErrUnsupported); [|intros [= <- <- <-]; auto].
    destruct (fallbackAllowed f); intros Hrun.
    + destruct (fallback_spec f w1 r f' w' Hb1 Hs1 Hrun) as (?&?&?&Hr). split; [done|]. split; [done|].
      split; [by eapply chunksSame_trans|]. by destruct r as [[]|].
    + destruct (reclaim_spec e f w1 r f' w' Hb1 Hs1 Hrun) as (?&?&?&Hr). split; [done|]. split; [done|].
      split; [by eapply chunksSame_trans|]. by destruct r as [[]|].
Qed.

End Flight.
(** ** The mount through the flight *)

(** What a commit never touches. *)
Record nsSame (f f' : FS) : Prop := {
  ns_cf : cf f' = cf f;
  ns_inodes : inodes f' = inodes f;
  ns_next : nextIno f' = nextIno f;
  ns_fsid : fsid f' = fsid f;
  ns_changes : changes f' = changes f;
  ns_open : open f' = open f;
  ns_budget : budget f' = budget f;
  ns_cache : cache f' = cache f;
  ns_known : knownChunks f' = knownChunks f
}.

Lemma nsSame_refl f : nsSame f f.
Proof using Type. by split. Qed.

Lemma nsSame_trans f g h : nsSame f g -> nsSame g h -> nsSame f h.
Proof using Type. intros [] []. split; congruence. Qed.

Lemma nsSame_good f f' : nsSame f f' -> good f -> good f'.
Proof using Type.
  intros [H1 H2 H3 H4 H5 H6 H7 H8 H9] [Hw Hd]. split.
  - apply (wf_ext f); [done|unfold shape; by rewrite H2|done|by rewrite H6|]. intros id n. rewrite H2. eauto.
  - destruct Hd as [D1 D2 D3 D4 D5 D6]. split; rewrite ?H1, ?H7, ?H6; try done.
    + unfold cacheOK. by rewrite H8.
    + intros id n. rewrite H2. unfold bufOf. rewrite H6. apply D5.
Qed.

Lemma nsSame_held f f' m w w' :
  nsSame f f' -> held f w -> m = inodes f -> bucketOK m w' -> chunksSame w w' -> held f' w'.
Proof using Type.
  intros [_ H2 _ _ _ _ _ _ H9] [K1 K2 K3 K4] -> [B1 B2 B3] Hc. split; [done|done| |by rewrite H2].
  intros h. rewrite H9, Hc. apply K3.
Qed.

Lemma nsSame_encodable f f' : nsSame f f' -> encodable f -> encodable f'.
Proof using Type. intros [H1 H2 _ _ _ _ _ _ _] [E1 E2]. split; [by rewrite H1|by rewrite H2]. Qed.

(** Why a mount may conclude that another writer owns the bucket. *)
Definition showsOther (read : result (bytes * string)) (rootSnap doubt : string) : Prop :=
  match read with
  | Err e => errIs e ErrNotFound = true /\ rootSnap ≠ ""
  | Ok (raw, _) => exists rp, unmarshalRoot raw = Some rp /\ rpVersion rp = snapshotVersion /\ rpSnapshot rp ≠ "" /\
      rpSnapshot rp ≠ doubt /\ rpSnapshot rp ≠ rootSnap
  end.

Definition showsOurs (read : result (bytes * string)) (doubt : string) (etag : string) : Prop :=
  exists raw rp, read = Ok (raw, etag) /\ unmarshalRoot raw = Some rp /\ rpVersion rp = snapshotVersion /\
    rpSnapshot rp = doubt /\ etag ≠ "".

Lemma settleRoot_spec read f v f' :
  settleRoot read f = (v, f') ->
  nsSame f f' /\ dirty f' = dirty f /\
  match v with
  | probeOurs => mode f' = mode f /\ rootKnowledge f' = rootKnown /\ rootSnapshot f' = doubtKey f /\
      showsOurs read (doubtKey f) (rootETag f')
  | probeUnchanged => mode f' = mode f /\ rootKnowledge f' = rootKnown /\ rootSnapshot f' = rootSnapshot f
  | probeTheirs => mode f' = (fireMode (mode f) mountDiverge).1 /\ showsOther read (rootSnapshot f) (doubtKey f)
  | probeFailed => f' = f
  end.
Proof using Type.
  unfold settleRoot, classifyRoot. rewrite !fireRoot_spec.
  destruct read as [[raw etag]|e].
  - destruct (unmarshalRoot raw) as [rp|] eqn:Er; [|by intros [= <- <-]].
    destruct (Z.eqb_spec (rpVersion rp) snapshotVersion) as [Ev|Ev]; simpl; [|by intros [= <- <-]].
    destruct (String.eqb_spec (rpSnapshot rp) "") as [Es|Es]; [by intros [= <- <-]|].
    destruct (String.eqb_spec (rpSnapshot rp) (doubtKey f)) as [Ed|Ed].
    + destruct (String.eqb_spec etag "") as [Et|Et]; [by intros [= <- <-]|].
      destruct (rootKnowledge f); intros [= <- <-]; [done|]. simpl. split; [done|]. split; [done|].
      repeat (split; [done|]). by exists raw, rp.
    + destruct (String.eqb_spec (rpSnapshot rp) (rootSnapshot f)) as [Eo|Eo].
      * destruct (String.eqb_spec etag "") as [Et|Et]; [by intros [= <- <-]|].
        destruct (rootKnowledge f); intros [= <- <-]; done.
      * intros [= <- <-]. split; [done|]. split; [done|]. split; [done|]. by exists rp.
  - destruct (errIs e ErrNotFound) eqn:En; [|by intros [= <- <-]].
    destruct (String.eqb_spec (rootSnapshot f) "") as [Eo|Eo].
    + destruct (rootKnowledge f); intros [= <- <-]; done.
    + intros [= <- <-]. simpl. done.
Qed.

Lemma resolveRoot_spec f w r f' w' :
  resolveRoot (f, w) = (r, (f', w')) ->
  objects w' = objects w /\ exists read v, r = Ok v /\ read = (GetWithETag rootKey w).1 /\ settleRoot read f = (v, f').
Proof using Lw.
  unfold resolveRoot, bind, attempt, onStore, onFS. simpl. pose proof (gwe_frame rootKey w) as Hfr.
  destruct (GetWithETag rootKey w) as [read w1]. simpl in *. destruct (settleRoot read f) as [v f1] eqn:Es.
  intros [= <- <- <-]. split; [done|]. exists read, v. done.
Qed.

Lemma applyLocked_spec s etag now f :
  let f' := applyLocked s etag now f in
  nsSame f f' /\ mode f' = mode f /\ epoch f' = scEpoch s /\ rootETag f' = etag /\ rootSnapshot f' = scKey s /\
  dirty f' = negb (changes f =? scChanges s) /\ rootKnowledge f' = rootKnowledge f.
Proof using Type. unfold applyLocked, schedulePrune. simpl. by destruct (_ || _). Qed.

(** The flight of a sealed commit. *)
Lemma commitSealed_spec s now f w r f' w' :
  bucketOK (inodes f) w -> sealedFor (inodes f) s -> rootKnowledge f = rootKnown ->
  commitSealed s now (f, w) = (r, (f', w')) ->
  nsSame f f' /\ bucketOK (inodes f) w' /\ chunksSame w w' /\
  match r with
  | Ok _ => mode f' = mode f /\ landed s w' /\ epoch f' = scEpoch s /\ rootSnapshot f' = scKey s /\
      dirty f' = negb (changes f =? scChanges s) /\ rootKnowledge f' = rootKnown
  | Err _ => dirty f' = dirty f
  end.
Proof using Lw.
  intros Hb Hs Hk. unfold commitSealed, settleDoubt. unfold bind at 1, attempt, onStore. simpl.
  pose proof (put_ok (scKey s) (scBody s) w (sealed_key_ok _ s Hs)) as Hok. pose proof (fun x0 => put_err (scKey s) (scBody s) w x0 (sealed_key_ok _ s Hs)) as Herr.
  destruct (Put (scKey s) (scBody s) w) as [[[]|e] w1]; simpl in *.
  2:{ intros [= <- <- <-]. split; [apply nsSame_refl|]. destruct (Herr e eq_refl) as [E|E].
      - destruct (store_same _ s w w1 Hb E) as (?&?&_). done.
      - destruct (store_snapshot _ s Hs w w1 Hb E) as (?&?&_). done. }
  destruct (store_snapshot _ s Hs w w1 Hb (Hok eq_refl)) as (Hb1&Hc1&Hs1).
  intros Hrun. apply bind_inv in Hrun as [(out&[f2 w2]&Hsw&Hrun)|(e&Hsw&_)].
  2:{ destruct (swapRoot_spec _ s Hs f w1 _ _ _ Hb1 Hs1 Hsw) as (_&_&_&[]). }
  destruct (swapRoot_spec _ s Hs f w1 _ _ _ Hb1 Hs1 Hsw) as (->&Hb2&Hc2&Hout).
  pose proof (chunksSame_trans _ _ _ Hc1 Hc2) as Hc. destruct out as [etag|oldErr unErr flErr|e].
  - destruct Hout as [Hl _]. unfold bind, modFS in Hrun. simpl in Hrun. rewrite Hk in Hrun. injection Hrun as <- <- <-.
    destruct (applyLocked_spec s etag now (set_rootKnowledge (fireRoot rootKnown rootSwapOK).1 f)) as ([]&?&?&?&?&?&?).
    simpl in *. split; [by split|]. auto 10.
  - unfold bind at 1, getFS in Hrun. simpl in Hrun. rewrite Hk, fireRoot_spec in Hrun. simpl in Hrun.
    unfold bind at 1, modFS in Hrun. simpl in Hrun.
    set (g := set_rootKnowledge rootInDoubt (set_doubtKey (scKey s) f)) in *.
    apply bind_inv in Hrun as [(v&[f3 w3]&Hrr&Hrun)|(e&Hrr&->)];
      destruct (resolveRoot_spec _ _ _ _ _ Hrr) as (Ho&read&v'&Hv&Hread&Hset); [|done].
    injection Hv as <-. destruct (store_same _ s w2 w3 Hb2 Ho) as (Hb3&Hc3&Hs3). pose proof (chunksSame_trans _ _ _ Hc Hc3) as Hc'.
    destruct (settleRoot_spec _ _ _ _ Hset) as (Hns&Hdr&Hverdict).
    assert (Hns' : nsSame f f3) by (by destruct Hns).
    destruct v; [|injection Hrun as <- <- <-; done..].
    injection Hrun as <- <- <-. destruct Hverdict as (Hmode&Hrk&Hrs&raw&rp&Hrd&Hrp&Hv&Hk2&Het).
    destruct (applyLocked_spec s (rootETag f3) now f3) as (Ha&?&?&?&?&Hd&?).
    split; [by eapply nsSame_trans|]. split; [done|]. split; [done|]. split; [etrans; done|].
    assert (Hl : landed s w3).
    { pose proof (gwe_ok rootKey w2 raw (rootETag f3) key_root) as Hgw. rewrite <- Hread, Hrd in Hgw. destruct (Hgw eq_refl) as [Hroot _].
      destruct (sl_body _ s Hs) as (snap&Hdec&Hm&Hsa). exists raw, rp, snap. rewrite Ho. split; [done|].
      split; [|done]. split; [done|]. split; [done|]. simpl in Hk2. rewrite Hk2. split; [exists (scBody s); split; [by apply Hs3|done]|].
      split; [done|]. rewrite Hm. split; [apply Hb3|exact (sealed_key_ok _ s Hs)]. }
    split; [done|]. split; [done|]. split; [done|]. destruct Hns as [_ _ _ _ Hch _ _ _ _]. simpl in Hch. rewrite Hd, Hch. split; [done|congruence].
  - injection Hrun as <- <- <-. split; [apply nsSame_refl|]. done.
Qed.

End Commit.
