(* ===== verification/SyncSpec.v ===== *)
(** * Sync and mounting, end to end

    A Sync that succeeds leaves the namespace, with every buffered byte, in the
    bucket; one that fails leaves the files as they were; and a mount of the
    bucket finds what was committed. *)

From stdpp Require Import sorting.
From S2P Require Import Prelude Vfs Fsm Modes Policy Inode ChunkCache Budget Store FsState Tree Namespace.
From S2P Require Import NamespaceInv Effects Data DataSpec FileSpec DataInv ReadDir Commit Durable CommitSpec.

Section Sync.
Context {Cd : Codec} {W : Type} {St : Store W} {Vw : StoreView W} {Lw : StoreLaws W}
  {Dg : Digest} {Hx : HexDigest} {Ro : RunOrder} {P : Policy}.

(** The bucket's root pointer loads as exactly this namespace. *)
Definition committed (f : FS) (w : W) : Prop :=
  exists raw rp snap, objects w !! rootKey = Some raw /\ loadable w raw rp snap /\
    snInodes snap = inodes f /\ snNextIno snap = nextIno f /\ snChunkSize snap = chunkSize (cf f).

(** The same files, whatever became of the mount's mode. *)
Definition sameContents (f f' : FS) : Prop := exists g, sameFiles f g /\ nsSame g f'.

Lemma sameContents_refl f : sameContents f f.
Proof using Type. exists f. split; [apply sameFiles_refl|apply nsSame_refl]. Qed.

Lemma nsSame_contents f f' id n i : nsSame f f' -> contentAt f' id n i = contentAt f id n i.
Proof using Type. intros [H1 _ _ _ _ H6 _ _ _]. unfold contentAt, bufOf. by rewrite H1, H6. Qed.

(** A flush marks the namespace dirty if it changed it. *)
Lemma finishFlush_dirty id o tr up f :
  dirty (finishFlush id o tr up f) = true \/
  (dirty (finishFlush id o tr up f) = dirty f /\ inodes (finishFlush id o tr up f) = inodes f).
Proof using Type. unfold finishFlush. destruct (inodes f !! id); simpl; auto. Qed.

(** What a run of flushes may do to the fields a commit reads. *)
Definition flushStep (f f' : FS) : Prop :=
  rootKnowledge f' = rootKnowledge f /\ mode f' = mode f /\ cf f' = cf f /\ nextIno f' = nextIno f /\
  (dirty f' = true \/ (dirty f' = dirty f /\ inodes f' = inodes f)).

Lemma flushStep_refl f : flushStep f f.
Proof using Type. unfold flushStep. auto 10. Qed.

Lemma flushStep_trans f g h : flushStep f g -> flushStep g h -> flushStep f h.
Proof using Type.
  unfold flushStep. intros (A1&A2&A3&A4&A5) (B1&B2&B3&B4&B5). repeat (split; [congruence|]).
  destruct A5 as [A5|[A5 A6]], B5 as [B5|[B5 B6]]; [by left|left; congruence|by left|right; split; congruence].
Qed.

Lemma aside_step f f' : aside f f' -> flushStep f f'.
Proof using Type. intros (c&k&->). unfold flushStep. simpl. auto 10. Qed.

Lemma flushOpen_step id n f w r f' w' :
  good f -> inodes f !! id = Some n -> is_Some (open f !! id) ->
  flushOpen id (bufOf f id) (f, w) = (r, (f', w')) -> flushStep f f'.
Proof using Type.
  intros Hgood Hn [o Ho]. pose proof Hgood as [Hw Hd]. pose proof (do_files f Hd id n Hn) as Hok.
  assert (Hb : bufOf f id = o) by (unfold bufOf; by rewrite Ho). rewrite Hb in *.
  assert (Hfe : fetching f) by (split; apply Hd). unfold flushOpen.
  destruct (bool_decide (ofDirty o = ∅) && bool_decide (ofPendingTrim o = ∅)).
  { destruct (ofUnsettled o); intros [= <- <- <-]; unfold flushStep; simpl; auto 10. }
  intros Hrun. apply bind_inv in Hrun as [(tr&[f1 w1]&H1&Hrun)|(e&H1&->)];
    destruct (transfers_spec id n o _ _ _ _ _ _ _ _ (fun idx f w r f' w' => flushTrim_spec _ n o idx f w r f' w' Hok) Hn Hfe H1)
      as (Ha1&Hc1&Hf1&Hn1&_); [|by apply aside_step].
  apply bind_inv in Hrun as [(up&[f2 w2]&H2&Hrun)|(e&H2&->)];
    destruct (transfers_spec id n o _ _ _ _ _ _ _ _ (fun idx f w r f' w' => flushBuf_spec o idx f w r f' w') Hn1 Hf1 H2)
      as (Ha2&_); pose proof (aside_step _ _ (aside_trans _ _ _ Ha1 Ha2)) as Hst; [|done].
  injection Hrun as <- <- <-. eapply flushStep_trans; [exact Hst|]. pose proof (finishFlush_dirty id o tr up f2) as Hdi.
  unfold flushStep. assert (H : rootKnowledge (finishFlush id o tr up f2) = rootKnowledge f2 /\ mode (finishFlush id o tr up f2) = mode f2 /\
     cf (finishFlush id o tr up f2) = cf f2 /\ nextIno (finishFlush id o tr up f2) = nextIno f2).
  { unfold finishFlush. by destruct (inodes f2 !! id). }
  destruct H as (?&?&?&?). auto 10.
Qed.

Lemma flushList_step l opened f w r f' w' :
  good f -> NoDup l -> (forall id, id ∈ l -> opened !! id = open f !! id /\ is_Some (open f !! id)) ->
  flushList l opened (f, w) = (r, (f', w')) -> flushStep f f'.
Proof using Type.
  unfold flushList. intros Hg Hnd. revert f w Hg. induction Hnd as [|id l Hid Hnd IH]; intros f w Hg Hop; cbn [forEach_].
  { intros [= <- <- <-]. apply flushStep_refl. }
  destruct (Hop id (list_elem_of_here _ _)) as [Ho [o Ho2]]. rewrite Ho2 in Ho. rewrite Ho.
  pose proof Hg as [Hw Hd]. destruct (wf_open f Hw id) as [n Hn]; [eauto|].
  assert (Hbo : bufOf f id = o) by (unfold bufOf; by rewrite Ho2). rewrite <- Hbo.
  intros Hb. apply bind_inv in Hb as [([]&[f1 w1]&H1&Hb)|(e&H1&->)].
  - pose proof (flushOpen_step id n f w _ f1 w1 Hg Hn ltac:(eauto) H1) as Hs1.
    destruct (flushOpen_inv id n f w _ f1 w1 Hg Hn ltac:(eauto) H1) as [Hg1 (n'&dc&Ht&_)].
    eapply flushStep_trans; [exact Hs1|]. apply (IH f1 w1 Hg1); [|done].
    intros j Hj. assert (j ≠ id) by (intros ->; done). rewrite (to_open _ _ _ _ _ _ Ht), lookup_insert_ne by done. apply Hop. by right.
  - by apply (flushOpen_step id n f w _ f' w' Hg Hn ltac:(eauto) H1).
Qed.

(** Both passes of a Sync, with the bucket. *)
Lemma flushAll_full f w r f' w' :
  good f -> held f w -> flushAll (f, w) = (r, (f', w')) ->
  good f' /\ held f' w' /\ gained w w' /\ sameFiles f f' /\ flushStep f f' /\ (is_ok r = true -> drained f').
Proof using Lw.
  intros Hg Hh Hrun. destruct (flushAll_inv f w r f' w' Hg Hrun) as (Hg1&Hs1&Hd1).
  unfold flushAll in Hrun. rewrite (bind_ok _ _ _ f (f, w)) in Hrun by done.
  destruct (flushList_held _ _ f w r f' w' Hh (do_verify f (proj2 Hg)) Hrun) as (Hh1&Hga&_).
  assert (Hst : flushStep f f').
  { eapply flushList_step; [exact Hg|apply ranged_nodup| |exact Hrun].
    intros id Hid%ranged_elem. split; [done|]. by apply elem_of_dom. }
  repeat (split; [done|]). intros Hr. by destruct r.
Qed.

Lemma settleAll_full f w r f' w' :
  good f -> held f w -> settleAll (f, w) = (r, (f', w')) ->
  good f' /\ held f' w' /\ gained w w' /\ sameFiles f f' /\ flushStep f f' /\ (drained f -> drained f').
Proof using Lw.
  intros Hg Hh Hrun. destruct (settleAll_inv f w r f' w' Hg Hrun) as (Hg1&Hs1&_).
  unfold settleAll in Hrun. rewrite (bind_ok _ _ _ f (f, w)) in Hrun by done. set (l := List.filter _ _) in Hrun.
  destruct (flushList_held _ _ f w r f' w' Hh (do_verify f (proj2 Hg)) Hrun) as (Hh1&Hga&_).
  assert (Hl : forall id, id ∈ l -> exists o, open f !! id = Some o /\ ofUnsettled o = true).
  { intros id. unfold l. rewrite list_elem_of_In, filter_In, <- list_elem_of_In, ranged_elem, elem_of_dom.
    intros [[o Ho] Hu]. rewrite Ho in Hu. eauto. }
  assert (Hnd : NoDup l) by (apply NoDup_ListNoDup, List.NoDup_filter, NoDup_ListNoDup, ranged_nodup).
  assert (Hop : forall id, id ∈ l -> open f !! id = open f !! id /\ is_Some (open f !! id)).
  { intros id (o&Ho&_)%Hl. rewrite Ho. eauto. }
  assert (Hst : flushStep f f') by (by eapply flushList_step).
  repeat (split; [done|]). intros Hdr id o Ho. destruct (flushList_inv l (open f) f w r f' w' Hg Hnd Hop Hrun) as (_&_&Hun&_).
  assert (Hout : id ∉ l). { intros (o'&Ho'&Hu)%Hl. apply Hdr in Ho'. by subst. }
  rewrite Hun in Ho by done. by eapply Hdr.
Qed.

Lemma committed_gained f f' w w' :
  committed f w -> gained w w' -> inodes f' = inodes f -> nextIno f' = nextIno f -> cf f' = cf f -> committed f' w'.
Proof using Type.
  intros (raw&rp&snap&H1&H2&H3&H4&H5) Hg Hi Hn Hc. exists raw, rp, snap. rewrite Hi, Hn, Hc, (ga_root _ _ Hg).
  split; [done|]. split; [eapply loadable_mono; [apply Hg|done]|done].
Qed.

Lemma sameFiles_encodable f f' : sameFiles f f' -> encodable f -> encodable f'.
Proof using Type.
  intros [Hc _ _ _ Hg Hi] [E1 E2]. split; [by rewrite Hc|]. intros id n' Hn'.
  destruct (inodes f !! id) as [n|] eqn:En; [|rewrite (Hg id En) in Hn'; done].
  destruct (Hi id n En) as (n2&H2&Hsk&_). assert (n2 = n') as -> by congruence. destruct (E2 id n En) as [E3 E4].
  unfold skelFields in Hsk. injection Hsk as _ _ _ _ _ _ _ -> _ ->. done.
Qed.

Lemma sameContents_files f g h : sameContents f g -> sameFiles g h -> sameContents f h.
Proof using Type.
  intros (f1&[A1 A2 A3 A4 A5 A6]&[N1 N2 N3 N4 N5 N6 N7 N8 N9]) [B1 B2 B3 B4 B5 B6].
  exists (set_mode (mode f) h). split; [|by split]. split; simpl; try congruence.
  - intros id Hid. apply B5. rewrite N2. by apply A5.
  - intros id n Hn. destruct (A6 id n Hn) as (n1&K1&K2&K3&K4). rewrite <- N2 in K1. destruct (B6 id n1 K1) as (n2&L1&L2&L3&L4).
    exists n2. split; [done|]. split; [congruence|]. split; [congruence|]. intros i Hi.
    change (contentAt (set_mode (mode f) h) id n2 i) with (contentAt h id n2 i). rewrite L4 by done.
    unfold contentAt, bufOf at 1. rewrite N1, N6. by apply K4.
Qed.

(** What every stage of a Sync of [f0] keeps. *)
Record syncing (f0 f : FS) (w : W) : Prop := {
  sy_good : good f;
  sy_held : held f w;
  sy_text : encodable f;
  sy_files : sameContents f0 f;
  sy_clean : dirty f = false -> committed f w
}.

Lemma syncing_flush f0 f w f1 w1 :
  syncing f0 f w -> good f1 -> held f1 w1 -> gained w w1 -> sameFiles f f1 -> flushStep f f1 -> syncing f0 f1 w1.
Proof using Lw.
  intros [Hg Hh He Hsc Hcl] G1 G2 G3 G4 (K1&K2&K3&K4&K5). split; [done|done|by eapply sameFiles_encodable|by eapply sameContents_files|].
  destruct K5 as [K5|[K5 K6]]; [congruence|]. rewrite K5. intros Hdf. eapply committed_gained; [by apply Hcl|done..].
Qed.

Lemma syncing_ns f0 f w f1 w1 :
  syncing f0 f w -> nsSame f f1 -> objects w1 = objects w -> dirty f1 = true -> syncing f0 f1 w1.
Proof using Lw.
  intros [Hg Hh He (g&G1&G2) Hcl] Hns Ho Hd.
  destruct (store_same (inodes f) (mkSealed 0 "" [] [] "" 0) w w1) as (Hb&Hcs&_); [destruct Hh; by split|done|].
  split; [by eapply nsSame_good|by eapply (nsSame_held f f1 _ w)|by eapply nsSame_encodable| |congruence].
  exists g. split; [done|by eapply nsSame_trans].
Qed.

Lemma wrapErr_inv {A} m (a : act W A) s r s' :
  wrapErr m a s = (r, s') -> exists r', a s = (r', s') /\ is_ok r' = is_ok r.
Proof using Type.
  unfold wrapErr, bind, attempt, ret, fail. destruct (a s) as [[v|e] s1]; intros [= <- <-]; eauto.
Qed.

(** The probe of a root pointer left in doubt. *)
Lemma sync_probe f0 f w r f1 w1 :
  syncing f0 f w -> dirty f = true ->
  (if bool_decide (rootKnowledge f = rootInDoubt) then
     let! v := resolveRoot in
     match v with
     | probeFailed => fail (EMsg "commit refused: the root pointer is in doubt since an earlier write of it, and the read that would settle it decided nothing")
     | probeTheirs => fail errCommitConflict
     | _ => ret tt
     end
   else ret tt) (f, w) = (r, (f1, w1)) ->
  syncing f0 f1 w1 /\ dirty f1 = true /\ open f1 = open f /\
  (is_ok r = true -> mode f1 = mode f /\ rootKnowledge f1 = rootKnown).
Proof using Lw.
  intros Hs Hd. case_bool_decide as Ek; intros Hrun.
  2:{ injection Hrun as <- <- <-. do 3 (split; [done|]). intros _. split; [done|]. by destruct (rootKnowledge f). }
  apply bind_inv in Hrun as [(v&[g x]&Hrr&H2)|(e0&Hrr&_)];
    destruct (resolveRoot_spec _ _ _ _ _ Hrr) as (Ho&read&v'&Hv&_&Hset); [|done].
  injection Hv as <-. destruct (settleRoot_spec _ _ _ _ Hset) as (Hns&Hdr&Hver).
  assert (g = f1 /\ x = w1) as [-> ->] by (destruct v; by injection H2).
  assert (Hd1 : dirty f1 = true) by congruence. split; [by eapply syncing_ns|]. split; [done|].
  split; [apply (ns_open _ _ Hns)|]. intros Hr.
  destruct v; try (injection H2 as <-; done); destruct Hver as (?&?&_); done.
Qed.

(** The seal and the commit of what it sealed. *)
Lemma sync_commit t f0 f w r f' w' :
  syncing f0 f w -> drained f -> dirty f = true -> rootKnowledge f = rootKnown ->
  (let! g := getFS in
   let! s := answer (seal (tkNonce t) (tkSnap t) (tkRoot t) g) in
   commitSealed s (tkApply t)) (f, w) = (r, (f', w')) ->
  syncing f0 f' w' /\
  (is_ok r = true -> committed f' w' /\ drained f' /\ dirty f' = false /\ mode f' = mode f).
Proof using Lw Hx.
  intros Hsy Hdr Hd Hk Hrun. pose proof Hsy as [Hg Hh He (g&G1&G2) _]. rewrite (bind_ok _ _ _ f (f, w)) in Hrun by done.
  apply bind_inv in Hrun as [(s&[f4 w4]&Hseal&Hrest)|(e&Hseal&->)]; unfold answer in Hseal; injection Hseal as Hseal <- <-; [|done].
  destruct (seal_spec f _ _ _ s Hg Hdr He Hseal) as (Hsf&_&Hep&_&Hch&_&Hdec).
  assert (Hb3 : bucketOK (inodes f) w) by (destruct Hh; by split).
  destruct (commitSealed_spec s _ f w r f' w' Hb3 Hsf Hk Hrest) as (Hns&Hb4&Hcs4&Hres).
  assert (Hcom : is_ok r = true -> committed f' w').
  { intros Hr. destruct r as [[]|]; [|done]. destruct Hres as (_&(raw&rp&snap&L1&L2&_&L4)&_).
    rewrite Hdec in L4. injection L4 as <-. exists raw, rp, (snapshotOf f (tkSnap t)).
    split; [done|]. split; [done|]. simpl. destruct Hns as [N1 N2 N3 _ _ _ _ _ _]. by rewrite N1, N2, N3. }
  split.
  - split; [by eapply nsSame_good|by eapply (nsSame_held f f' _ w)|by eapply nsSame_encodable| |].
    + exists g. split; [done|by eapply nsSame_trans].
    + destruct r as [[]|e]; [by intros _; apply Hcom|congruence].
  - intros Hr. split; [by apply Hcom|]. destruct r as [[]|]; [|done]. destruct Hres as (Hm&_&_&_&Hdi&_).
    split; [intros id o; rewrite (ns_open _ _ Hns); apply Hdr|]. by rewrite Hdi, Hch, Z.eqb_refl.
Qed.

(** The whole of Sync. *)
Lemma Sync_full t f w r f' w' :
  good f -> held f w -> encodable f -> (dirty f = false -> committed f w) ->
  Sync t (f, w) = (r, (f', w')) ->
  syncing f f' w' /\
  (is_ok r = true -> committed f' w' /\ drained f' /\ dirty f' = false /\ mode f' = mode f).
Proof using Lw Hx.
  intros Hg Hh He Hcl. assert (Hs0 : syncing f f w) by (split; auto using sameContents_refl).
  unfold Sync. intros Hrun. apply bind_inv in Hrun as [([]&[f1 w1]&H1&Hrun)|(e&H1&->)];
    apply wrapErr_inv in H1 as (r1&Hfl&Hr1);
    destruct (flushAll_full _ _ _ _ _ Hg Hh Hfl) as (Hg1&Hh1&Hga1&Hsf1&Hst1&Hdr1);
    pose proof (syncing_flush f f w _ _ Hs0 Hg1 Hh1 Hga1 Hsf1 Hst1) as Hs1; [|done].
  specialize (Hdr1 Hr1). assert (Hm1 : mode f1 = mode f) by apply Hst1.
  rewrite (bind_ok _ _ _ f1 (f1, w1)) in Hrun by done.
  destruct (dirty f1) eqn:Ed; simpl in Hrun.
  2:{ injection Hrun as <- <- <-. split; [done|]. intros _. split; [by apply (sy_clean _ _ _ Hs1)|]. done. }
  destruct (bool_decide (mode f1 = mountDiverged)); [by injection Hrun as <- <- <-|].
  apply bind_inv in Hrun as [([]&[f2 w2]&H2&Hrun)|(e&H2&->)];
    destruct (sync_probe _ _ _ _ _ _ Hs1 Ed H2) as (Hs2&Hd2&Hop2&Hk2); [|done].
  destruct (Hk2 eq_refl) as [Hm2 Hkn2].
  assert (Hdr2 : drained f2) by (intros id o; rewrite Hop2; apply Hdr1).
  apply bind_inv in Hrun as [([]&[f3 w3]&H3&Hrun)|(e&H3&->)];
    apply wrapErr_inv in H3 as (r3&Hse&_); pose proof Hs2 as [Hg2 Hh2 _ _ _];
    destruct (settleAll_full _ _ _ _ _ Hg2 Hh2 Hse) as (Hg3&Hh3&Hga3&Hsf3&Hst3&Hdr3);
    pose proof (syncing_flush f f2 w2 _ _ Hs2 Hg3 Hh3 Hga3 Hsf3 Hst3) as Hs3; [|done].
  destruct Hst3 as (Kk&Km&_&_&Kd).
  destruct (sync_commit t f f3 w3 r f' w' Hs3 (Hdr3 Hdr2)) as [HA HB]; [|congruence|done|].
  { destruct Kd as [?|[? _]]; congruence. }
  split; [done|]. intros Hr. destruct (HB Hr) as (?&?&?&?). repeat (split; [done|]). congruence.
Qed.

End Sync.
