(* ===== verification/Whole.v ===== *)
(** * The whole mount, on its bucket

    [sound] is the invariant of a mount and its bucket between operations:
    [good] in memory, [held] in the bucket, every string the snapshot encoding
    carries is text, and a namespace that is not marked dirty is the one the
    root pointer names. Every operation of the filesystem keeps it, whichever
    calls of the store fail on the way. *)

From stdpp Require Import sorting.
From S2P Require Import Prelude Vfs Fsm Modes Policy Inode ChunkCache Budget Store FsState Tree Namespace.
From S2P Require Import NamespaceInv Effects Data DataSpec FileSpec DataInv ReadDir Commit WritePath Durable.
From S2P Require Import CommitSpec SyncSpec.

Lemma chargeSum_delete m id : chargeSum (delete id m) = chargeSum m - match m !! id with Some o => ofBytes o | None => 0 end.
Proof.
  destruct (m !! id) as [o|] eqn:E; [|rewrite delete_id by done; lia].
  pose proof (chargeSum_insert (delete id m) id o) as H. rewrite insert_delete_id, lookup_delete_eq in H by done. lia.
Qed.

(** ** What the namespace operations leave of the files *)

Section Files.
Context {Dg : Digest} {Ro : RunOrder}.

(** Every inode of [f'] is one of [f] with the same contents and buffer. *)
Record keepsFiles (f f' : FS) : Prop := {
  kf_cf : cf f' = cf f;
  kf_cache : cache f' = cache f;
  kf_known : knownChunks f' = knownChunks f;
  kf_files : forall id n', inodes f' !! id = Some n' -> exists n, inodes f !! id = Some n /\
    iChunks n' = iChunks n /\ iSize n' = iSize n /\ iTarget n' = iTarget n /\ iGen n' = iGen n /\ open f' !! id = open f !! id;
  kf_charge : Budget.charge (budget f') - chargeSum (open f') = Budget.charge (budget f) - chargeSum (open f)
}.

Lemma keepsFiles_refl f : keepsFiles f f.
Proof using Type. split; eauto 10. Qed.

Lemma keepsFiles_trans f g h : keepsFiles f g -> keepsFiles g h -> keepsFiles f h.
Proof using Type.
  intros [A1 A2 A3 A4 A5] [B1 B2 B3 B4 B5]. split; try congruence.
  intros id n2 H2. destruct (B4 id n2 H2) as (n1&H1&?&?&?&?&?), (A4 id n1 H1) as (n&Hn&?&?&?&?&?).
  exists n. split; [done|]. repeat split; congruence.
Qed.

#[local] Instance keepsFiles_preorder : PreOrder keepsFiles.
Proof using Type. split; [exact keepsFiles_refl|exact keepsFiles_trans]. Qed.

(** An update of an inode that its contents do not see. *)
Definition aloof (g : inode -> inode) : Prop :=
  forall n, iChunks (g n) = iChunks n /\ iSize (g n) = iSize n /\ iTarget (g n) = iTarget n /\ iGen (g n) = iGen n.

Lemma alter_files f id (g : inode -> inode) (m : gmap Z inode) :
  aloof g -> keepsFiles f (set_inodes m f) -> keepsFiles f (set_inodes (alter g id m) f).
Proof using Type.
  intros Hg [_ _ _ K4 _]. split; try done. simpl in *. intros j n'. rewrite lookup_alter. case_decide; [|apply K4].
  subst. destruct (m !! j) as [n|] eqn:E; [|done]. intros [= <-].
  destruct (K4 j n E) as (n0&H0&?&?&?&?&?), (Hg n) as (?&?&?&?). exists n0. repeat split; congruence.
Qed.

Lemma same_files f : keepsFiles f (set_inodes (inodes f) f).
Proof using Type. split; simpl; eauto 10. Qed.

Lemma upd_files f id g : aloof g -> keepsFiles f (upd id g f).
Proof using Type. intros Hg. apply alter_files; [done|apply same_files]. Qed.

Lemma markDirty_files f g : keepsFiles f g -> keepsFiles f (markDirty g).
Proof using Type. intros []. by split. Qed.

Lemma relink_files f nid from to : keepsFiles f (set_inodes (relink nid from to (inodes f)).1 f).
Proof using Type.
  unfold relink. destruct (inodes f !! nid) as [n|]; [|apply same_files].
  destruct to as [to|]; [destruct (_ && _)|destruct (isDir n); [|destruct (0 <? iNLink n)]]; simpl;
    repeat (apply alter_files; [done|]); apply same_files.
Qed.

Lemma dropOpen_files f nid : keepsFiles f (dropOpen nid (set_inodes (delete nid (inodes f)) f)).
Proof using Type.
  set (g := dropOpen nid _).
  assert (H : cf g = cf f /\ cache g = cache f /\ knownChunks g = knownChunks f /\ inodes g = delete nid (inodes f) /\
    open g = delete nid (open f) /\ Budget.charge (budget g) =
      Budget.charge (budget f) - match open f !! nid with Some o => ofBytes o | None => 0 end).
  { unfold g, dropOpen. simpl. destruct (open f !! nid); simpl; repeat (split; [done|]); lia. }
  destruct H as (H1&H2&H3&H4&H5&H6). split; [done..| |].
  - intros id n. rewrite H4, H5, lookup_delete_Some. intros [Hne Hn]. exists n. rewrite lookup_delete_ne by done. done.
  - rewrite H6, H5, chargeSum_delete. lia.
Qed.

Lemma relinkOut_files f nid from : keepsFiles f (relinkOut nid from f).
Proof using Type.
  unfold relinkOut. pose proof (relink_files f nid from None) as H.
  destruct (relink nid from None (inodes f)) as [m gone]. simpl in H. destruct gone; [|done].
  etrans; [exact H|apply (dropOpen_files (set_inodes m f))].
Qed.

Lemma moveEntry_files f id sid did x y dst t1 t2 t3 : keepsFiles f (moveEntry id sid did x y dst t1 t2 t3 f).
Proof using Type.
  unfold moveEntry.
  set (f1 := upd sid _ f). set (f2 := upd did _ f1). set (f3 := set_inodes _ f2).
  set (f4 := upd id _ f3). set (f5 := upd sid (touchM t2) f4). set (f6 := upd did (touchM t3) f5).
  assert (H1 : keepsFiles f f1) by by apply upd_files. assert (H2 : keepsFiles f1 f2) by by apply upd_files.
  assert (H3 : keepsFiles f2 f3) by apply relink_files. assert (H4 : keepsFiles f3 f4) by by apply upd_files.
  assert (H5 : keepsFiles f4 f5) by by apply upd_files. assert (H6 : keepsFiles f5 f6) by by apply upd_files.
  apply markDirty_files. do 5 (etrans; [eassumption|]). exact H6.
Qed.

Lemma keepsFiles_data f f' : dataOK f -> keepsFiles f f' -> dataOK f'.
Proof using Type.
  intros [D1 D2 D3 D4 D5 D6] [K1 K2 K3 K4 K5]. split; rewrite ?K1; try done.
  - unfold cacheOK. by rewrite K2.
  - intros id n' Hn'. destruct (K4 id n' Hn') as (n&Hn&Hc&Hs&_&_&Ho). unfold bufOf. rewrite Ho.
    eapply fileOK_contents; [by apply D5|done|done].
  - lia.
Qed.

(** An inode as creation makes it. *)
Definition blank (n : inode) : Prop := iChunks n = [] /\ is_u64 (iSize n).

Definition withInode (n : inode) (f : FS) : FS := set_inodes (<[nextIno f := n]> (inodes f)) f.

Lemma withInode_data f n : wf f -> dataOK f -> blank n -> dataOK (withInode n f).
Proof using Type.
  intros Hw [D1 D2 D3 D4 D5 D6] [Hc Hs]. split; try done. intros id m. simpl. rewrite lookup_insert. case_decide; [subst|apply D5].
  intros [= <-]. assert (open f !! nextIno f = None) as Ho.
  { apply eq_None_not_Some. intros Ho. apply (wf_open f Hw) in Ho as [m Hm]. by apply (wf_ids f Hw) in Hm; lia. }
  unfold bufOf. simpl. rewrite Ho. split; simpl; rewrite ?Hc; try done; try (intros ? ?; by rewrite lookup_empty).
Qed.

Lemma dressInode_blank {P : Policy} f c t sa target d now : blank (freshInode f c t sa target d now).
Proof using Type.
  unfold freshInode, dressInode, blank. simpl.
  destruct (saUID sa), (saGID sa), t; try destruct (Check _); simpl; (split; [done|]); try apply u64_range; done.
Qed.

End Files.

(** ** The invariant *)

Section Sound.
Context {Cd : Codec} {W : Type} {St : Store W} {Vw : StoreView W} {Lw : StoreLaws W}
  {Dg : Digest} {Hx : HexDigest} {Ro : RunOrder} {P : Policy} {TC : TypeChecked P}.

Record sound (f : FS) (w : W) : Prop := {
  so_good : good f;
  so_held : held f w;
  so_text : encodable f;
  so_clean : dirty f = false -> committed f w
}.

Lemma keepsFiles_held f f' w : held f w -> keepsFiles f f' -> held f' w.
Proof using Type.
  intros [H1 H2 H3 H4] [K1 K2 K3 K4 K5]. split; try done; [by rewrite K3|].
  intros id n' Hn'. destruct (K4 id n' Hn') as (n&Hn&->&_). by eapply H4.
Qed.

Lemma withInode_held f n w : held f w -> blank n -> held (withInode n f) w.
Proof using Type.
  intros [H1 H2 H3 H4] [Hc _]. split; try done. intros id m. simpl. rewrite lookup_insert. case_decide; [|apply H4].
  intros [= <-]. by rewrite Hc.
Qed.

(** What an operation on the namespace does to a mount. *)
Definition nsEffect (f f' : FS) : Prop :=
  (keepsFiles f f' /\ inodes f' = inodes f /\ nextIno f' = nextIno f /\ dirty f' = dirty f) \/
  (dirty f' = true /\ (keepsFiles f f' \/ exists n, blank n /\ keepsFiles (withInode n f) f')).

Lemma nsEffect_refl f : nsEffect f f.
Proof using Type. left. split; [apply keepsFiles_refl|done]. Qed.

Lemma createEntry_effect f c dir name t sa target excl t1 t2 :
  nsEffect f (createEntry f c dir name t sa target excl t1 t2).2.
Proof using Type.
  destruct (createEntry _ _ _ _ _ _ _ _ _ _) as [r f'] eqn:E. simpl.
  apply createEntry_cases in E as [->|(did&d&_&_&_&_&_&_&_&->)]; [apply nsEffect_refl|].
  right. split; [done|]. right. set (n := freshInode f c t sa target d t1). exists n. split; [apply dressInode_blank|].
  unfold linkedFS. apply markDirty_files.
  assert (Hl : aloof (linkChild name (iID n) t t2)) by (intros m; unfold linkChild; by destruct (bool_decide _)).
  pose proof (upd_files (withInode n f) did _ Hl) as []. by split.
Qed.

Lemma unlink_effect f c dir name wantDir now : nsEffect f (unlink f c dir name wantDir now).2.
Proof using Type.
  destruct (unlink _ _ _ _ _ _) as [r f'] eqn:E. simpl.
  apply unlink_cases in E as [[_ ->]|(did&d&id&n&_&_&_&_&_&_&_&_&_&->)]; [apply nsEffect_refl|].
  right. split; [done|]. left. apply markDirty_files. eapply keepsFiles_trans; [|apply relinkOut_files]. by apply upd_files.
Qed.

Lemma Rename_effect f c d1 x d2 y t1 t2 t3 : wf f -> nsEffect f (Rename f c d1 x d2 y t1 t2 t3).2.
Proof using Type.
  intros Hw. destruct (Rename _ _ _ _ _ _ _ _ _) as [r f'] eqn:E. simpl.
  apply Rename_cases in E as [[_ ->]|(sid&src&did&dst&id&moving&_&_&_&_&_&_&_&_&_&_&Hf)]; [apply nsEffect_refl| |done].
  assert (Hmv : forall g, keepsFiles f g -> nsEffect f (moveEntry id sid did x y did t1 t2 t3 g)).
  { intros g Hg. right. split; [done|]. left. eapply keepsFiles_trans; [exact Hg|apply moveEntry_files]. }
  simpl in Hf. destruct (iEntries dst !! y) as [v|]; [case_decide|].
  - subst. apply nsEffect_refl.
  - destruct Hf as (victim&_&_&->). apply Hmv, relinkOut_files.
  - subst. apply Hmv, keepsFiles_refl.
Qed.

Lemma applySetAttr_idle n sa now : (applySetAttr n sa now).2 = false -> (applySetAttr n sa now).1 = n.
Proof using Type. unfold applySetAttr. by destruct (saMode sa), (saUID sa), (saGID sa), (saATime sa), (saMTime sa). Qed.

Lemma setAttrNoSize_effect f c h sa now : nsEffect f (setAttrNoSize f c h sa now).2.
Proof using Type.
  unfold setAttrNoSize. destruct (resolve f h) as [[id n]|] eqn:Er; [|apply nsEffect_refl].
  destruct (setAttrRequests c n sa); [apply nsEffect_refl|]. apply resolve_ok in Er as (Hn&_&_).
  destruct (applySetAttr_contents n sa now) as (H1&H2&H3). destruct (applySetAttr_same n sa now) as (_&H5&_). pose proof (applySetAttr_idle n sa now) as H4.
  destruct (applySetAttr n sa now) as [n' b]. simpl in *.
  assert (Hk : keepsFiles f (upd id (fun _ => n') f)).
  { split; try done. simpl. intros j m. rewrite lookup_alter. case_decide; [|eauto 10]. subst. rewrite Hn.
    intros [= <-]. exists n. auto 10. }
  destruct b; simpl; [right; split; [done|]; left; by apply markDirty_files|].
  left. split; [done|]. split; [|done]. rewrite H4 by done. simpl. by rewrite (alter_insert_at _ id n), insert_id.
Qed.

Lemma perform_effect f op : wf f -> nsEffect f (perform f op).2.
Proof using Type.
  intros Hw. destruct op; simpl; unfold Create, Mkdir, Symlink, Remove, Rmdir.
  - pose proof (createEntry_effect f c dir name TypeReg sa "" excl now1 now2). by destruct (createEntry _ _ _ _ _ _ _ _ _ _).
  - pose proof (createEntry_effect f c dir name TypeDir sa "" true now1 now2). by destruct (createEntry _ _ _ _ _ _ _ _ _ _).
  - pose proof (createEntry_effect f c dir name TypeLnk sa target true now1 now2).
    destruct (String.eqb target ""); [apply nsEffect_refl|]. by destruct (createEntry _ _ _ _ _ _ _ _ _ _).
  - pose proof (unlink_effect f c dir name false now). by destruct (unlink _ _ _ _ _ _).
  - pose proof (unlink_effect f c dir name true now). by destruct (unlink _ _ _ _ _ _).
  - pose proof (Rename_effect f c fromDir fromName toDir toName now1 now2 now3 Hw). by destruct (Rename _ _ _ _ _ _ _ _ _).
  - pose proof (setAttrNoSize_effect f c h sa now). by destruct (setAttrNoSize _ _ _ _ _).
Qed.

(** ** Text *)

(** The names and targets an operation brings in are text. *)
Definition opText (op : nsop) : Prop :=
  match op with
  | NCreate _ _ name _ _ _ _ | NMkdir _ _ name _ _ _ => utf8 name = true
  | NSymlink _ _ name target _ _ _ => utf8 name = true /\ utf8 target = true
  | NRename _ _ _ _ toName _ _ _ => utf8 toName = true
  | _ => True
  end.

Lemma encodable_tame f f' y :
  encodable f -> utf8 y = true -> tame y (inodes f) (inodes f') -> keepsFiles f f' -> encodable f'.
Proof using Type.
  intros [E1 E2] Hy Ht [K1 _ _ K4 _]. split; [by rewrite K1|]. intros id n' Hn'.
  destruct (Ht id n' Hn') as (n&Hn&_&He), (K4 id n' Hn') as (m&Hm&_&_&->&_). assert (m = n) as -> by congruence.
  destruct (E2 id n Hn) as [E3 E4]. split; [|done]. intros x c [->|Hxc]%He; [done|eauto].
Qed.

Lemma tame_relink y m m' nid from to : tame y m m' -> tame y m (relink nid from to m').1.
Proof using Type.
  intros Ht. unfold relink. destruct (m' !! nid) as [n|]; [|done].
  destruct to as [to|]; [destruct (_ && _)|destruct (isDir n); [|destruct (0 <? iNLink n)]]; simpl;
    repeat (apply tame_alter; [|by eauto]); done.
Qed.

Lemma tame_relinkOut y f g nid from : tame y (inodes f) (inodes g) -> tame y (inodes f) (inodes (relinkOut nid from g)).
Proof using Type.
  intros Ht. unfold relinkOut. pose proof (tame_relink y _ _ nid from None Ht) as H.
  destruct (relink nid from None (inodes g)) as [m []]; simpl in *; [|done].
  unfold dropOpen. simpl. destruct (open g !! nid); simpl; by apply tame_delete.
Qed.

Lemma createEntry_text f c dir name t sa target excl t1 t2 :
  encodable f -> utf8 name = true -> utf8 target = true ->
  encodable (createEntry f c dir name t sa target excl t1 t2).2.
Proof using Type.
  intros [E1 E2] Hname Htgt. destruct (createEntry _ _ _ _ _ _ _ _ _ _) as [r f'] eqn:E. simpl.
  apply createEntry_cases in E as [->|(did&d&_&_&_&_&_&_&_&->)]; [done|].
  set (n := freshInode f c t sa target d t1).
  assert (Hn : iEntries n = ∅ /\ utf8 (iTarget n) = true).
  { unfold n, freshInode, dressInode. destruct (saUID sa), (saGID sa), t; try destruct (Check _); done. }
  assert (Hl : aloof (linkChild name (iID n) t t2)) by (intros m; unfold linkChild; by destruct (bool_decide _)).
  apply (encodable_tame (withInode n f) _ name).
  - split; [done|]. intros id m. simpl. rewrite lookup_insert. case_decide; [|apply E2].
    intros [= <-]. destruct Hn as [-> Hn]. split; [|done]. intros x i. by rewrite lookup_empty.
  - done.
  - simpl. apply tame_alter; [apply tame_refl|]. intros m. unfold linkChild.
    destruct (bool_decide _); simpl; (split; [done|]); intros z i; rewrite lookup_insert; case_decide; auto.
  - apply markDirty_files. pose proof (upd_files (withInode n f) did _ Hl) as []. by split.
Qed.

Lemma unlink_text f c dir name wantDir now : encodable f -> encodable (unlink f c dir name wantDir now).2.
Proof using Type.
  intros He. destruct (unlink _ _ _ _ _ _) as [r f'] eqn:E. simpl.
  apply unlink_cases in E as [[_ ->]|(did&d&id&n&_&_&_&_&_&_&_&_&_&->)]; [done|].
  apply (encodable_tame f _ ""); [done|done| |].
  - simpl. apply tame_relinkOut. simpl. apply tame_alter; [apply tame_refl|]. intros m. split; [done|].
    simpl. intros z i [_ ?]%lookup_delete_Some. auto.
  - apply markDirty_files. eapply keepsFiles_trans; [|apply relinkOut_files]. by apply upd_files.
Qed.

Lemma Rename_text f c d1 x d2 y t1 t2 t3 :
  wf f -> encodable f -> utf8 y = true -> encodable (Rename f c d1 x d2 y t1 t2 t3).2.
Proof using TC.
  intros Hw He Hy. pose proof (Rename_effect f c d1 x d2 y t1 t2 t3 Hw) as Hk.
  destruct (Rename _ _ _ _ _ _ _ _ _) as [r f'] eqn:E. simpl in *.
  destruct r as [[]|e]; [|apply Rename_cases in E as [[_ ->]|(?&?&?&?&?&?&_&_&_&_&_&_&_&_&_&?&_)]; done].
  apply Rename_refines in E as (?&?&?&?&?&?&_&_&_&_&_&_&_&_&Ht&_); [|done].
  destruct Hk as [(Hk&_)|(_&[Hk|(n&_&Hk)])]; [by eapply encodable_tame..|].
  destruct (decide (is_Some (inodes f !! nextIno f))) as [[m Hm]|Hno]; [by apply (wf_ids f Hw) in Hm; lia|].
  eapply encodable_tame; [exact He|exact Hy|exact Ht|]. destruct Hk as [K1 K2 K3 K4 K5]. split; try done.
  intros id n' Hn'. destruct (K4 id n' Hn') as (n0&Hn0&Hrest). simpl in Hn0. rewrite lookup_insert in Hn0.
  case_decide; [|by exists n0]. subst. destruct (Ht (nextIno f) n' Hn') as (m&Hm&_). destruct Hno. eauto.
Qed.

Lemma perform_text f op : wf f -> encodable f -> opText op -> encodable (perform f op).2.
Proof using TC.
  intros Hw He Ht. destruct op; simpl in *; unfold Create, Mkdir, Symlink, Remove, Rmdir.
  - pose proof (createEntry_text f c dir name TypeReg sa "" excl now1 now2 He Ht eq_refl). by destruct (createEntry _ _ _ _ _ _ _ _ _ _).
  - pose proof (createEntry_text f c dir name TypeDir sa "" true now1 now2 He Ht eq_refl). by destruct (createEntry _ _ _ _ _ _ _ _ _ _).
  - destruct Ht as [H1 H2]. pose proof (createEntry_text f c dir name TypeLnk sa target true now1 now2 He H1 H2).
    destruct (String.eqb target ""); [done|]. by destruct (createEntry _ _ _ _ _ _ _ _ _ _).
  - pose proof (unlink_text f c dir name false now He). by destruct (unlink _ _ _ _ _ _).
  - pose proof (unlink_text f c dir name true now He). by destruct (unlink _ _ _ _ _ _).
  - pose proof (Rename_text f c fromDir fromName toDir toName now1 now2 now3 Hw He Ht). by destruct (Rename _ _ _ _ _ _ _ _ _).
  - unfold setAttrNoSize. destruct (resolve f h) as [[id n]|] eqn:Er; [|done]. destruct (setAttrRequests c n sa); [done|].
    apply resolve_ok in Er as (Hn&_&_). destruct (applySetAttr_same n sa now) as (_&_&H1), (applySetAttr_contents n sa now) as (_&_&H2).
    destruct (applySetAttr n sa now) as [n' b]. destruct He as [E1 E2]. simpl in *.
    assert (Hup : encodable (upd id (fun _ => n') f)).
    { split; [done|]. simpl. intros j m. rewrite lookup_alter. case_decide; [|apply E2]. subst. rewrite Hn. intros [= <-].
      rewrite H1, H2. by apply (E2 j n). }
    destruct b; exact Hup.
Qed.

(** ** Every namespace operation keeps the invariant *)

Lemma perform_sound f w op :
  sound f w -> nextIno f + 1 < 2 ^ 64 -> opText op -> sound (perform f op).2 w.
Proof using TC.
  intros [[Hw Hd] Hh He Hc] Hn Ht. pose proof (perform_effect f op Hw) as Hef.
  pose proof (perform_text f op Hw He Ht) as He'. destruct (perform_wf f op Hw Hn) as [Hw' _].
  set (f' := (perform f op).2) in *. clearbody f'.
  destruct Hef as [(Hk&Hi&Hx'&Hdi)|(Hdi&[Hk|(n&Hb&Hk)])].
  - split; [split; [done|by eapply keepsFiles_data]|by eapply keepsFiles_held|done|]. rewrite Hdi. intros Hcl.
    destruct (Hc Hcl) as (raw&rp&snap&H1&H2&H3&H4&H5). exists raw, rp, snap. rewrite Hi, Hx', (kf_cf _ _ Hk). done.
  - split; [split; [done|by eapply keepsFiles_data]|by eapply keepsFiles_held|done|congruence].
  - split; [split; [done|]| |done|congruence].
    + by apply (keepsFiles_data (withInode n f)); [apply withInode_data|].
    + by apply (keepsFiles_held (withInode n f)); [apply withInode_held|].
Qed.

End Sound.
