(* ===== verification/System.v ===== *)
(** * Every operation keeps the invariant

    The data path and the commit keep [sound] (of [Whole]); [sysop] is a call of
    the filesystem, [exec] runs one, and [exec_sound] is the step of the
    induction over any sequence of them, on any store, whatever fails. *)

From stdpp Require Import sorting.
From S2P Require Import Prelude Vfs Fsm Modes Policy Inode ChunkCache Budget Store FsState Tree Namespace.
From S2P Require Import NamespaceInv Effects Data DataSpec FileSpec DataInv ReadDir Commit WritePath Durable.
From S2P Require Import CommitSpec SyncSpec Whole.

Section System.
Context {Cd : Codec} {W : Type} {St : Store W} {Vw : StoreView W} {Lw : StoreLaws W}
  {Dg : Digest} {Hx : HexDigest} {Ro : RunOrder} {P : Policy} {TC : TypeChecked P}.

(** ** Ways to keep the invariant *)

(** The invariant after a step, and no inode number given out by it. *)
Definition keptBy (f f' : FS) (w' : W) : Prop := sound f' w' /\ nextIno f' = nextIno f.

Lemma keptBy_trans f f1 f2 w1 w2 : keptBy f f1 w1 -> (sound f1 w1 -> keptBy f1 f2 w2) -> keptBy f f2 w2.
Proof using Type. intros [H1 H2] H. destruct (H H1). split; [done|congruence]. Qed.

Lemma aside_sound f f' w w' :
  sound f w -> aside f f' -> good f' -> held f' w' -> gained w w' -> keptBy f f' w'.
Proof using Type.
  intros [_ _ He Hc] (c&k&->) Hg Hh Hga. split; [|done]. split; [done|done|done|]. intros Hcl.
  eapply committed_gained; [by apply Hc|done..].
Qed.

Lemma touches_sound f f' g w w' id n n' o' dc :
  sound f w -> good f' -> touches f f' id n' o' dc -> inodes f !! id = Some n ->
  iEntries n' = iEntries n -> iTarget n' = iTarget n -> held g w' -> inodes g = inodes f -> knownChunks f' = knownChunks g ->
  Forall (refStored w') (iChunks n') -> dirty f' = true -> keptBy f f' w'.
Proof using Type.
  intros [_ _ [E1 E2] Hc] Hg [T1 T2 T3 T4 T5 T6 T7] Hn Hen Htg [K1 K2 K3 K4] Hi Hk Hst Hdi. split; [|done]. split; [done| | |congruence].
  - split; try done; [by rewrite Hk|]. intros j m. rewrite T3, lookup_insert. case_decide; [by intros [= <-]|].
    rewrite <- Hi. apply K4.
  - split; [by rewrite T1|]. intros j m. rewrite T3, lookup_insert. case_decide; [|apply E2]. subst. intros [= <-].
    rewrite Hen, Htg. by apply E2 in Hn.
Qed.

(** ** Flushes *)

Lemma flushStep_clean f f' w w' : flushStep f f' -> gained w w' -> (dirty f = false -> committed f w) -> dirty f' = false -> committed f' w'.
Proof using Type.
  intros (_&_&K3&K4&[K5|[K5 K6]]) Hga Hc; [congruence|]. rewrite K5. intros Hd. eapply committed_gained; [by apply Hc|done..].
Qed.

Lemma flushList_sound l f w r f' w' :
  sound f w -> NoDup l -> (forall id, id ∈ l -> is_Some (open f !! id)) ->
  flushList l (open f) (f, w) = (r, (f', w')) -> keptBy f f' w' /\ sameFiles f f'.
Proof using Lw.
  intros [Hg Hh He Hc] Hnd Hl Hrun.
  destruct (flushList_inv l (open f) f w r f' w' Hg Hnd ltac:(auto) Hrun) as (Hg'&Hs&_).
  destruct (flushList_held l (open f) f w r f' w' Hh (do_verify f (proj2 Hg)) Hrun) as (Hh'&Hga&_).
  pose proof (flushList_step l (open f) f w r f' w' Hg Hnd ltac:(auto) Hrun) as Hst.
  split; [|done]. split; [|apply Hst]. split; [done|done|by eapply sameFiles_encodable|]. by eapply flushStep_clean.
Qed.

Lemma commitFile_list id f w :
  commitFile id (f, w) = flushList (if decide (is_Some (open f !! id)) then [id] else []) (open f) (f, w).
Proof using Type.
  unfold commitFile, flushList. rewrite (bind_ok _ _ _ f (f, w)) by done. case_decide as Hd.
  - destruct Hd as [o Ho]. simpl. rewrite Ho. unfold bind. by destruct (flushOpen id o (f, w)) as [[[]|] ?].
  - apply eq_None_not_Some in Hd. by rewrite Hd.
Qed.

Lemma commitFile_sound id f w r f' w' :
  sound f w -> commitFile id (f, w) = (r, (f', w')) -> keptBy f f' w' /\ sameFiles f f'.
Proof using Lw.
  intros Hs. rewrite commitFile_list. apply flushList_sound; [done| |]; case_decide.
  - apply NoDup_singleton.
  - apply NoDup_nil_2.
  - by intros j ->%list_elem_of_singleton.
  - by intros j ?%elem_of_nil.
Qed.

Lemma Sync_sound t f w r f' w' :
  sound f w -> Sync t (f, w) = (r, (f', w')) -> keptBy f f' w' /\ sameContents f f'.
Proof using Lw Hx.
  intros [Hg Hh He Hc] Hrun. destruct (Sync_full t f w r f' w' Hg Hh He Hc Hrun) as [[H1 H2 H3 H4 H5] _].
  split; [|done]. split; [by split|]. destruct H4 as (g&Hs&Hns). rewrite (ns_next _ _ Hns). apply Hs.
Qed.

Lemma syncFile_sound id t f w r f' w' :
  sound f w -> syncFileAndNamespace id t (f, w) = (r, (f', w')) -> keptBy f f' w'.
Proof using Lw Hx.
  intros Hs Hrun. unfold syncFileAndNamespace in Hrun. apply bind_inv in Hrun as [([]&[f1 w1]&H1&Hrun)|(e&H1&->)].
  - eapply keptBy_trans; [by eapply commitFile_sound|]. intros Hs1. by eapply Sync_sound.
  - by eapply commitFile_sound.
Qed.

(** ** Buffered writes *)

Lemma transfers_attempt {A} (m : act W A) Q : transfers m Q -> transfers (attempt m) (fun w r => forall a, r = Ok a -> Q w a).
Proof using Type.
  intros Hm f w r f' w' Hh Hv. unfold attempt. destruct (m (f, w)) as [r0 [f1 w1]] eqn:E. intros [= <- <- <-].
  destruct (Hm f w r0 f1 w1 Hh Hv E) as (?&?&?&?). repeat (split; [done|]). by intros a [= <-].
Qed.

Lemma startChunk_held cs refs trims idx within left : transfers (startChunk cs refs trims idx within left) (fun _ _ => True).
Proof using Lw.
  unfold startChunk. destruct (refs !! Z.to_nat idx) as [ref|]; [|by apply transfers_ret].
  destruct (_ && _); [by apply transfers_ret|]. apply (transfers_bind _ _ (fun _ _ => True)); [apply loadChunk_held|done|]. intros; by apply transfers_ret.
Qed.

Lemma bwLoop_held fuel cs refs off data o written charge :
  transfers (bwLoop fuel cs refs off data o written charge) (fun _ _ => True).
Proof using Lw.
  revert o written charge. induction fuel as [|fuel IH]; intros o written charge; simpl; [apply transfers_fail|].
  destruct (_ <=? _); [by apply transfers_ret|]. apply (transfers_bind _ _ (fun _ _ => True)); [|done|].
  - destruct (ofDirty o !! _); [by apply transfers_ret|].
    eapply transfers_weaken; [apply transfers_attempt, startChunk_held|done].
  - intros [b|e]; [|destruct (0 <? written); [by apply transfers_ret|apply transfers_fail]].
    eapply transfers_weaken; [apply IH|done].
Qed.

Lemma publishWrite_known h id o off written charge now f : knownChunks (publishWrite h id o off written charge now f) = knownChunks f.
Proof using Type. unfold publishWrite. destruct (0 <? charge); destruct (resolve _ h) as [[]|]; done. Qed.

Lemma bufferWrite_sound h id n off data now f w r f' w' :
  sound f w -> resolve f h = Ok (id, n) -> is_Some (open f !! id) -> 0 <= off -> off + blen data <= maxFileSize (cf f) ->
  bufferWrite h id (bufOf f id) off data now (f, w) = (r, (f', w')) -> keptBy f f' w'.
Proof using Lw.
  intros Hs Hr Ho H0 Hm Hrun. pose proof Hs as [Hg Hh _ _].
  destruct (bufferWrite_spec h id n off data now f w r f' w' Hg Hr Ho H0 Hm Hrun) as [Hg' Hspec].
  unfold bufferWrite in Hrun. rewrite (bind_ok _ _ _ f (f, w)), Hr in Hrun by done.
  pose proof (do_verify f (proj2 Hg)) as Hv.
  apply bind_inv in Hrun as [([[o' k] charge]&[f1 w1]&Hl&Hrun)|(e&Hl&->)];
    destruct (bwLoop_held _ _ _ _ _ _ _ _ f w _ _ _ Hh Hv Hl) as (Hh1&Hga&[Hi1 _]&_).
  - unfold bind, modFS, ret in Hrun. simpl in Hrun. injection Hrun as <- <- <-.
    destruct Hspec as (_&_&n'&o2&dc&Ht&Hsk&Hch&_&_&Hdi&_). apply resolve_ok in Hr as (Hn&_&_).
    eapply (touches_sound f _ f1 w w1 id n n'); try done.
    + by injection Hsk.
    + by injection Hsk.
    + apply publishWrite_known.
    + rewrite Hch. rewrite <- Hi1 in Hn. by apply (h_files _ _ Hh1) in Hn.
  - destruct Hspec as [Ha _]. by eapply aside_sound.
Qed.

Lemma getOpen_buf id f : (getOpen id f).1 = bufOf f id.
Proof using Type. unfold getOpen, bufOf. by destruct (open f !! id). Qed.

Lemma getOpen_sound id f w : sound f w -> is_Some (inodes f !! id) ->
  let f' := (getOpen id f).2 in keptBy f f' w /\ bufOf f' id = bufOf f id /\ is_Some (open f' !! id) /\ inodes f' = inodes f /\ cf f' = cf f.
Proof using Type.
  intros [[Hw Hd] Hh He Hc] [n Hn] f'. unfold f', getOpen, bufOf. destruct (open f !! id) as [o|] eqn:Eo; simpl.
  { split; [split; [by split|done]|]. rewrite Eo. eauto. }
  rewrite lookup_insert_eq. split; [|eauto]. split; [|done].
  assert (Hb : forall j, bufOf (set_open (<[id := newOpenFile]> (open f)) f) j = bufOf f j).
  { intros j. unfold bufOf. simpl. rewrite lookup_insert. case_decide; [subst; by rewrite Eo|done]. }
  split; [split| | |]; try done.
  - destruct Hw. split; try done. simpl. intros j. rewrite lookup_insert. case_decide; [subst; by rewrite Hn|eauto].
  - destruct Hd as [D1 D2 D3 D4 D5 D6]. split; try done; [intros j m Hm; rewrite Hb; by apply D5|].
    simpl. rewrite chargeSum_insert, Eo, D6. simpl. lia.
  - by destruct Hh.
Qed.

Lemma getOpen_same id f : sameContents f (getOpen id f).2.
Proof using Type.
  exists (getOpen id f).2. split; [|apply nsSame_refl]. unfold getOpen. destruct (open f !! id) as [o|] eqn:Eo; [apply sameFiles_refl|].
  split; try done. intros j n Hn. exists n. split; [done|]. split; [done|]. split; [done|]. intros i _. unfold contentAt, bufOf. simpl.
  rewrite lookup_insert. case_decide; [subst; by rewrite Eo|done].
Qed.

(** ** SETATTR *)

Lemma truncate_sound f c h sa size now r f' w :
  sound f w -> is_u64 size -> truncate f c h sa size now = (r, f') -> keptBy f f' w.
Proof using Type.
  intros Hs Hu Hrun. pose proof Hs as [Hg Hh _ _]. destruct (truncate_inv f c h sa size now r f' Hg Hu Hrun) as [Hg' Hr].
  destruct r as [a|e]; [|by subst].
  destruct Hr as (id&n&n'&o'&dc&Hres&Ht&_&_&Hsk&_&_&_&Hdi&Htg&Hkn&Hq&_). apply resolve_ok in Hres as (Hn&_&_).
  eapply (touches_sound f f' f w w id n n'); try done; [exact (f_equal nEntries Hsk)|].
  apply Hq; [done|]. by apply (h_files f w Hh) in Hn.
Qed.

Lemma SetAttr_sound f c h sa now w :
  sound f w -> nextIno f + 1 < 2 ^ 64 -> (forall size, saSize sa = Some size -> is_u64 size) -> keptBy f (SetAttr_ f c h sa now).2 w.
Proof using TC.
  intros Hs Hn Hu. unfold SetAttr_. destruct (mutable f); [done|]. destruct (saSize sa) as [size|].
  - destruct (truncate f c h sa size now) as [r f'] eqn:E. simpl. by eapply (truncate_sound f c h sa size now r f'); [|apply Hu|].
  - pose proof (perform_sound f w (NSetAttr c h sa now) Hs Hn I) as H. simpl in H. unfold setAttrNoSize in *.
    destruct (resolve f h) as [[id n]|]; [|done]. destruct (setAttrRequests c n sa); [done|].
    destruct (applySetAttr n sa now) as [n' []]; done.
Qed.

(** ** READ *)

Lemma fetchRefs_held cs off end_ refs out : transfers (fetchRefs cs off end_ refs out) (fun _ _ => True).
Proof using Lw.
  revert out. induction refs as [|r refs IH]; intros out; simpl; [by apply transfers_ret|].
  apply (transfers_bind _ _ (fun _ _ => True)); [apply loadChunk_held|done|]. intros d. eapply transfers_weaken; [apply IH|done].
Qed.

Lemma fetchRefs_aside cs off end_ refs out f w r f' w' :
  fetching f -> fetchRefs cs off end_ refs out (f, w) = (r, (f', w')) -> aside f f' /\ cacheOK f'.
Proof using Type.
  revert out f w. induction refs as [|ref refs IH]; intros out f w [Hc Hv] Hrun; simpl in Hrun.
  { injection Hrun as <- <- <-. split; [apply aside_refl|done]. }
  apply bind_inv in Hrun as [(d&[f1 w1]&H1&Hrun)|(e&H1&->)];
    destruct (loadChunk_spec _ _ _ _ _ _ Hv Hc H1) as (Ha1&Hc1&_); [|done].
  apply IH in Hrun as [Ha2 Hc2]; [|by apply (aside_fetching f)]. split; [by eapply aside_trans|done].
Qed.

Lemma Read_sound c h off count f w r f' w' :
  sound f w -> Read c h off count (f, w) = (r, (f', w')) -> keptBy f f' w' /\ aside f f'.
Proof using Lw.
  intros Hs Hrun. pose proof Hs as [Hg Hh _ _]. unfold Read in Hrun. rewrite (bind_ok _ _ _ f (f, w)) in Hrun by done.
  assert (Hfe : fetching f) by (split; apply (proj2 Hg)).
  assert (Hid : keptBy f f w /\ aside f f) by (split; [done|apply aside_refl]).
  apply bind_inv in Hrun as [([id n]&[f1 w1]&H1&Hrun)|(e&H1&->)]; unfold answer in H1; injection H1 as H1 <- <-; [|done].
  apply bind_inv in Hrun as [([[[size end_] out] refs]&[f1 w1]&H2&Hrun)|(e&H2&->)]; unfold answer in H2; injection H2 as H2 <- <-; [|done].
  destruct (size <=? off); [by injection Hrun as <- <- <-|].
  apply bind_inv in Hrun as [(out'&[f1 w1]&H3&Hrun)|(e&H3&->)].
  - injection Hrun as <- <- <-. destruct (fetchRefs_aside _ _ _ _ _ _ _ _ _ _ Hfe H3) as [Ha Hc].
    destruct (fetchRefs_held _ _ _ _ _ f w _ _ _ Hh (proj2 Hfe) H3) as (Hh1&Hga&_). split; [|done].
    eapply aside_sound; try done. by eapply aside_good.
  - destruct (fetchRefs_aside _ _ _ _ _ _ _ _ _ _ Hfe H3) as [Ha Hc].
    destruct (fetchRefs_held _ _ _ _ _ f w _ _ _ Hh (proj2 Hfe) H3) as (Hh1&Hga&_). split; [|done].
    eapply aside_sound; try done. by eapply aside_good.
Qed.

(** ** WRITE *)

(** A hold of the budget's mutex that leaves the charge alone. *)
Lemma budget_sound f w b : sound f w -> Budget.charge b = Budget.charge (budget f) -> keptBy f (set_budget b f) w.
Proof using Type.
  intros [[Hw Hd] Hh He Hc] Hb. split; [|done]. split; [split| | |]; try done.
  - by destruct Hw.
  - destruct Hd. split; try done. simpl. by rewrite Hb.
  - by destruct Hh.
Qed.

Lemma iterate_charge c s b : Budget.charge (Budget.iterate c s b).2 = Budget.charge b.
Proof using Type.
  unfold Budget.iterate. destruct (Budget.failedSince s b); [done|]. destruct (_ <? _); [done|]. destruct c; [done|].
  by destruct (Budget.draining b).
Qed.

Lemma enter_charge c b : Budget.charge (Budget.enter c b).2 = Budget.charge b.
Proof using Type. unfold Budget.enter. destruct (_ || _); [done|]. apply iterate_charge. Qed.

Lemma drained_charge c s r b : Budget.charge (Budget.drained c s r b).2 = Budget.charge b.
Proof using Type. destruct r; simpl; [by destruct c|]. by rewrite iterate_charge. Qed.

Lemma onBudget_sound {A} (g : Budget.budget -> A * Budget.budget) f w r f' w' :
  (forall b, Budget.charge (g b).2 = Budget.charge b) -> sound f w -> onBudget g (f, w) = (r, (f', w')) ->
  keptBy f f' w' /\ sameContents f f' /\ w' = w.
Proof using Type.
  intros Hg Hs. unfold onBudget, onFS. simpl. specialize (Hg (budget f)). destruct (g (budget f)) as [a b]. simpl in Hg.
  intros [= <- <- <-]. split; [by apply budget_sound|]. split; [|done].
  exists (set_budget b f). split; [|apply nsSame_refl]. split; simpl; eauto.
Qed.

Lemma sameContents_trans f g h : sameContents f g -> sameContents g h -> sameContents f h.
Proof using Type.
  intros (a&A&[N1 N2 N3 N4 N5 N6 N7 N8 N9]) (b&B&M).
  assert (Hag : sameFiles a (set_mode (mode a) g)).
  { split; cbn [cf mode nextIno fsid set_mode inodes]; [done|done|done|done|by intros id; rewrite N2|]. intros id n. rewrite <- N2. intros Hn.
    exists n. split; [done|]. split; [done|]. split; [done|]. intros i _. unfold contentAt, bufOf. simpl. by rewrite N1, N6. }
  assert (Hb : sameFiles (set_mode (mode a) g) (set_mode (mode a) b)) by (destruct B; by split).
  exists (set_mode (mode a) b). split; [etrans; [exact A|etrans; [exact Hag|exact Hb]]|].
  destruct M. by split.
Qed.

Lemma awaitLoop_sound ts c f w r f' w' :
  sound f w -> awaitLoop ts c (f, w) = (r, (f', w')) -> keptBy f f' w' /\ sameContents f f'.
Proof using Lw Hx.
  revert c f w. induction ts as [|t ts IH]; intros c f w Hs Hrun;
    (assert (Hid : keptBy f f w /\ sameContents f f) by (split; [done|apply sameContents_refl]));
    destruct c as [s|s|s|[]]; simpl in Hrun; try by injection Hrun as <- <- <-.
  unfold bind at 1, attempt in Hrun. destruct (Sync t (f, w)) as [r1 [f1 w1]] eqn:Esy.
  destruct (Sync_sound t f w r1 f1 w1 Hs Esy) as [Hk1 Hc1].
  apply bind_inv in Hrun as [(c&[f2 w2]&Hb&Hrun)|(e&Hb&_)].
  2:{ unfold onBudget, onFS in Hb. simpl in Hb. by destruct (Budget.drained _ _ _ _). }
  apply onBudget_sound in Hb as (Hk2&Hc2&->); [|apply drained_charge|apply Hk1].
  apply IH in Hrun as [Hk3 Hc3]; [|apply Hk2]. split.
  - eapply keptBy_trans; [exact Hk1|]. intros _. eapply keptBy_trans; [exact Hk2|done].
  - eapply sameContents_trans; [exact Hc1|]. by eapply sameContents_trans.
Qed.

Lemma await_sound ts f w r f' w' :
  sound f w -> await ts (f, w) = (r, (f', w')) -> keptBy f f' w' /\ sameContents f f'.
Proof using Lw Hx.
  intros Hs Hrun. unfold await in Hrun. apply bind_inv in Hrun as [(c&[f2 w2]&Hb&Hrun)|(e&Hb&_)].
  2:{ unfold onBudget, onFS in Hb. simpl in Hb. by destruct (Budget.enter _ _). }
  apply onBudget_sound in Hb as (Hk2&Hc2&->); [|apply enter_charge|done].
  apply awaitLoop_sound in Hrun as [Hk3 Hc3]; [|apply Hk2]. split.
  - eapply keptBy_trans; [exact Hk2|done].
  - by eapply sameContents_trans.
Qed.

(** A handle answers for the same file after anything that keeps the files. *)
Lemma sameContents_resolve f f' h id n :
  sameContents f f' -> resolve f h = Ok (id, n) ->
  exists n', resolve f' h = Ok (id, n') /\ attrFields n' = attrFields n /\ iSize n' = iSize n /\
    forall i, 0 <= i -> contentAt f' id n' i = contentAt f id n i.
Proof using Type.
  intros (g&[_ _ _ _ _ A6]&Hns) Hr. pose proof Hr as Hr0. apply resolve_ok in Hr0 as (Hn&_&_).
  destruct (A6 id n Hn) as (n'&Hn'&Hsk&Hsz&Hv). exists n'. split.
  - apply (resolve_touched f f' id n n' h Hr); [by rewrite (ns_inodes _ _ Hns)|]. by destruct (skelFields_skel n n' (attrFields_skel _ _ Hsk)) as (_&?&_).
  - split; [done|]. split; [done|]. intros i Hi. rewrite (nsSame_contents g f') by done. by apply Hv.
Qed.

Lemma sameContents_cf f f' : sameContents f f' -> cf f' = cf f.
Proof using Type. intros (g&Hs&Hns). rewrite (ns_cf _ _ Hns). apply Hs. Qed.

Lemma clamp_spec maxSize off data :
  0 <= off < maxSize -> blen (clamp maxSize off data) = Z.min (blen data) (maxSize - off) /\
  off + blen (clamp maxSize off data) <= maxSize.
Proof using Type.
  intros Ho. unfold clamp. pose proof (blen_nonneg data). destruct (Z.ltb_spec (maxSize - off) (blen data)); [rewrite blen_take by lia|]; lia.
Qed.

Lemma Write_sound c h off data how ts now t f w r f' w' :
  sound f w -> 0 <= off -> Write c h off data how ts now t (f, w) = (r, (f', w')) -> keptBy f f' w'.
Proof using Lw Hx.
  intros Hs Hoff Hrun. unfold Write in Hrun. rewrite (bind_ok _ _ _ f (f, w)) in Hrun by done.
  assert (Hid : keptBy f f w) by done.
  destruct (mutable f); [by injection Hrun as <- <- <-|]. destruct (blen data =? 0); [by injection Hrun as <- <- <-|].
  destruct (Z.leb_spec (maxFileSize (cf f)) off); [by injection Hrun as <- <- <-|].
  apply bind_inv in Hrun as [([id n]&[f1 w1]&H1&Hrun)|(e&H1&->)]; unfold answer in H1; injection H1 as Hres <- <-; [|done].
  destruct (checkPerm OpWrite c n); [by injection Hrun as <- <- <-|].
  pose proof (resolve_ok f h id n Hres) as (Hn&_&_). rewrite (wf_id f id n (proj1 (so_good f w Hs)) Hn) in Hrun.
  apply bind_inv in Hrun as [([]&[f1 w1]&H1&Hrun)|(e&H1&->)]; apply await_sound in H1 as [Hk1 Hc1]; [|done..].
  destruct (sameContents_resolve f f1 h id n Hc1 Hres) as (n1&Hr1&_). pose proof (resolve_ok f1 h id n1 Hr1) as (Hn1&_&_).
  destruct (getOpen_sound id f1 w1 (proj1 Hk1) ltac:(eauto)) as (Hk2&Hb2&Ho2&Hi2&Hcf2).
  pose proof (getOpen_buf id f1) as Hgb. unfold bind at 1, onFS in Hrun. simpl in Hrun. destruct (getOpen id f1) as [o f2].
  simpl in *. subst o. rewrite <- Hb2 in Hrun. eapply keptBy_trans; [exact Hk1|intros _]. eapply keptBy_trans; [exact Hk2|intros _].
  destruct (clamp_spec (maxFileSize (cf f)) off data ltac:(lia)) as [_ Hcl].
  assert (Hr2 : resolve f2 h = Ok (id, n1)) by (rewrite <- Hr1; unfold resolve; by rewrite Hi2).
  assert (Hm2 : off + blen (clamp (maxFileSize (cf f)) off data) <= maxFileSize (cf f2)) by (by rewrite Hcf2, (sameContents_cf f f1)).
  apply bind_inv in Hrun as [(k&[f3 w3]&H3&Hrun)|(e&H3&->)]; eapply bufferWrite_sound in H3; try done; try apply Hk2.
  destruct how; [by injection Hrun as <- <- <-| |];
    (apply bind_inv in Hrun as [([]&[f4 w4]&H4&Hrun)|(e&H4&->)]; (apply syncFile_sound in H4; [|apply H3]));
    try (injection Hrun as <- <- <-); (eapply keptBy_trans; [exact H3|done]).
Qed.

(** ** Any sequence of calls *)

Inductive sysop :=
| CallNs (op : nsop)
| CallSetAttr (c : Caller) (h : Handle) (sa : SetAttr) (now : Z)
| CallRead (c : Caller) (h : Handle) (off count : Z)
| CallWrite (c : Caller) (h : Handle) (off : Z) (data : bytes) (how : Stability) (ts : list tick) (now : Z) (t : tick)
| CallCommit (h : Handle) (t : tick)
| CallSync (t : tick).

(** Whether a call succeeded. *)
Definition succeeded {A} (m : act W A) : act W bool := let! r := attempt m in ret (is_ok r).

Definition exec (op : sysop) : act W bool :=
  match op with
  | CallNs op => onFS (fun f => perform f op)
  | CallSetAttr c h sa now => onFS (fun f => let (r, f) := SetAttr_ f c h sa now in (is_ok r, f))
  | CallRead c h off count => succeeded (Read c h off count)
  | CallWrite c h off data how ts now t => succeeded (Write c h off data how ts now t)
  | CallCommit h t => succeeded (Commit h t)
  | CallSync t => succeeded (Sync t)
  end.

(** The arguments are what the wire can carry, and new names are text. *)
Definition argsOK (op : sysop) : Prop :=
  match op with
  | CallNs op => opText op
  | CallSetAttr _ _ sa _ => forall size, saSize sa = Some size -> is_u64 size
  | CallWrite _ _ off _ _ _ _ _ => is_u64 off
  | _ => True
  end.

Definition execAll (ops : list sysop) : act W unit := forEach_ ops (fun op => let! _ := exec op in ret tt).

Lemma succeeded_inv {A} (m : act W A) f w r f' w' :
  succeeded m (f, w) = (r, (f', w')) -> exists r0, m (f, w) = (r0, (f', w')) /\ r = Ok (is_ok r0).
Proof using Type.
  unfold succeeded, bind, attempt, ret. destruct (m (f, w)) as [r0 [f1 w1]]. intros [= <- <- <-]. eauto.
Qed.

Lemma exec_sound op f w r f' w' :
  sound f w -> nextIno f + 1 < 2 ^ 64 -> argsOK op -> exec op (f, w) = (r, (f', w')) ->
  sound f' w' /\ nextIno f' <= nextIno f + 1.
Proof using Lw Hx TC.
  intros Hs Hn Ha Hrun. assert (Hkept : keptBy f f' w' -> sound f' w' /\ nextIno f' <= nextIno f + 1) by (intros [? ->]; split; [done|lia]).
  destruct op; simpl in *.
  - pose proof (perform_sound f w op Hs Hn Ha) as H1. destruct (perform_wf f op (proj1 (so_good f w Hs)) Hn) as (_&_&H2).
    unfold onFS in Hrun. simpl in Hrun. destruct (perform f op) as [b f1]. by injection Hrun as <- <- <-.
  - pose proof (SetAttr_sound f c h sa now w Hs Hn Ha) as H1. unfold onFS in Hrun. simpl in Hrun.
    destruct (SetAttr_ f c h sa now) as [b f1]. injection Hrun as <- <- <-. by apply Hkept.
  - apply succeeded_inv in Hrun as (r0&Hrun&_). apply Hkept. by eapply Read_sound.
  - apply succeeded_inv in Hrun as (r0&Hrun&_). apply Hkept. eapply Write_sound; [done| |done]. apply Ha.
  - apply succeeded_inv in Hrun as (r0&Hrun&_). apply Hkept. unfold Commit in Hrun. rewrite (bind_ok _ _ _ f (f, w)) in Hrun by done.
    apply bind_inv in Hrun as [([id n]&[f1 w1]&H1&Hrun)|(e&H1&->)]; unfold answer in H1; injection H1 as _ <- <-; [|done].
    by eapply syncFile_sound.
  - apply succeeded_inv in Hrun as (r0&Hrun&_). apply Hkept. by eapply Sync_sound.
Qed.

(** Each call uses one inode number at most. *)
Lemma execAll_bound ops f w r f' w' :
  sound f w -> nextIno f + blen ops < 2 ^ 64 -> Forall argsOK ops -> execAll ops (f, w) = (r, (f', w')) ->
  sound f' w' /\ nextIno f' <= nextIno f + blen ops.
Proof using Lw Hx TC.
  unfold execAll. revert f w. induction ops as [|op ops IH]; intros f w Hs Hn Hf Hrun; cbn [forEach_] in Hrun.
  { injection Hrun as <- <- <-. split; [done|]. unfold blen. simpl. lia. }
  apply list.Forall_cons in Hf as [Ha Hf]. unfold blen in *. simpl in Hn.
  destruct (exec op (f, w)) as [r1 [f1 w1]] eqn:E1. destruct (exec_sound op f w r1 f1 w1 Hs ltac:(lia) Ha E1) as [Hs1 Hn1].
  unfold bind at 1 in Hrun. unfold bind at 1 in Hrun. rewrite E1 in Hrun. destruct r1; simpl in Hrun.
  - destruct (IH f1 w1 Hs1 ltac:(lia) Hf Hrun) as [? ?]. split; [done|]. simpl. lia.
  - injection Hrun as <- <- <-. split; [done|]. simpl. lia.
Qed.

Lemma execAll_sound ops f w r f' w' :
  sound f w -> nextIno f + blen ops < 2 ^ 64 -> Forall argsOK ops -> execAll ops (f, w) = (r, (f', w')) -> sound f' w'.
Proof using Lw Hx TC. intros Hs Hn Ha Hrun. by destruct (execAll_bound ops f w r f' w' Hs Hn Ha Hrun). Qed.

End System.
