(* ===== verification/Locks.v ===== *)
(** * The locks of the filesystem and who holds them

    Every call holds at most one openFile.mu, may be a reader of the commit gate,
    wait for it as a writer or write under it, and may hold commitMu: its
    [lockset]. [Locks] relates the state of the locks to the locksets of all
    calls; taking and giving back each lock keeps it. [unblocked] is the argument
    from the lock order: commitMu before the gate before openFile.mu. *)

From Stdlib Require Import Bool.
From S2P Require Import Prelude Vfs Budget.

(** ** Sums over the calls *)

Fixpoint tally {A} (f : A -> Z) (l : list A) : Z :=
  match l with [] => 0 | x :: l => f x + tally f l end.

Lemma tally_app {A} (f : A -> Z) l l' : tally f (l ++ l') = tally f l + tally f l'.
Proof. induction l as [|x l IH]; simpl; [done|]. rewrite IH. lia. Qed.

Lemma tally_insert {A} (f : A -> Z) l t x y : l !! t = Some x -> tally f (<[t := y]> l) = tally f l + (f y - f x).
Proof.
  revert t. induction l as [|z l IH]; intros [|t] Ht; try done; simpl in *.
  - injection Ht as ->. lia.
  - rewrite (IH t Ht). lia.
Qed.

Lemma tally_nonneg {A} (f : A -> Z) l : (forall x, 0 <= f x) -> 0 <= tally f l.
Proof. intros Hf. induction l as [|x l IH]; simpl; [lia|]. specialize (Hf x). lia. Qed.

Lemma tally_pos {A} (f : A -> Z) l : (forall x, 0 <= f x) -> 0 < tally f l -> exists t x, l !! t = Some x /\ 0 < f x.
Proof.
  intros Hf. induction l as [|x l IH]; simpl; [lia|]. intros Hp. destruct (decide (0 < f x)) as [Hx|Hx]; [by exists 0%nat, x|].
  destruct IH as (t&y&Ht&Hy); [specialize (Hf x); lia|]. by exists (S t), y.
Qed.

Lemma tally_in {A} (f : A -> Z) l t x : (forall x, 0 <= f x) -> l !! t = Some x -> f x <= tally f l.
Proof.
  intros Hf. revert t. induction l as [|y l IH]; intros [|t] Ht; try done; simpl in *.
  - injection Ht as ->. pose proof (tally_nonneg f l Hf). lia.
  - specialize (IH t Ht). specialize (Hf y). lia.
Qed.

Lemma tally_zero {A} (f : A -> Z) l : (forall x, x ∈ l -> f x = 0) -> tally f l = 0.
Proof.
  induction l as [|x l IH]; simpl; [done|]. intros H. rewrite H by apply list_elem_of_here.
  rewrite IH; [done|]. intros y Hy. apply H. by right.
Qed.

(** Updating a list where a function of it does not change. *)
Lemma fmap_insert_same {A B} (f : A -> B) (l : list A) (t : nat) x y : l !! t = Some x -> f y = f x -> f <$> <[t := y]> l = f <$> l.
Proof.
  intros Ht Hf. rewrite list_fmap_insert, Hf. apply list_insert_id. by rewrite list_lookup_fmap, Ht.
Qed.

Lemma lookup_insert_cases {A} (l : list A) t t' x y : <[t := y]> l !! t' = Some x -> (t' = t /\ x = y) \/ (t' ≠ t /\ l !! t' = Some x).
Proof.
  intros H. destruct (decide (t' = t)) as [->|Hne]; [left|right].
  - pose proof (lookup_lt_Some _ _ _ H) as Hl. rewrite length_insert in Hl. rewrite list_lookup_insert_eq in H by done. by injection H.
  - by rewrite list_lookup_insert_ne in H.
Qed.

(** ** A lock with at most one owner *)

Record Owned (b : bool) (l : list bool) : Prop := {
  ow_some : b = true <-> exists t, l !! t = Some true;
  ow_one : forall t t', l !! t = Some true -> l !! t' = Some true -> t = t'
}.

Lemma Owned_take l t : Owned false l -> (t < length l)%nat -> Owned true (<[t := true]> l).
Proof.
  intros [Hs _] Ht. assert (Hno : forall t', l !! t' ≠ Some true) by (intros t' H'; enough (false = true) by done; apply Hs; eauto).
  split; [split; [intros _; exists t; by apply list_lookup_insert_eq|done]|].
  intros t1 t2 H1 H2. apply lookup_insert_cases in H1 as [[-> _]|[_ H1]], H2 as [[-> _]|[_ H2]]; [done|by destruct (Hno t2)|by destruct (Hno t1)..].
Qed.

Lemma Owned_drop b l t : Owned b l -> l !! t = Some true -> Owned false (<[t := false]> l).
Proof.
  intros [_ H1] Ht. assert (Hno : forall t', <[t := false]> l !! t' ≠ Some true).
  { intros t' H'. apply lookup_insert_cases in H' as [[_ ?]|[Hne H']]; [done|]. by destruct Hne; apply H1. }
  split; [split; [done|intros [t' H']; by destruct (Hno t')]|]. intros t1 t2 Ha. by destruct (Hno t1).
Qed.

Lemma Owned_app b l : Owned b l -> Owned b (l ++ [false]).
Proof.
  intros [Hs H1]. assert (Ha : forall t, (l ++ [false]) !! t = Some true <-> l !! t = Some true).
  { intros t. split; [|apply lookup_app_l_Some]. intros H. apply lookup_app_Some in H as [?|[_ H]]; [done|]. by destruct (t - length l)%nat. }
  split; [by setoid_rewrite Ha|]. intros t t'. rewrite !Ha. apply H1.
Qed.

Lemma Owned_held b l t : Owned b l -> l !! t = Some true -> b = true.
Proof. intros [Hs _] Ht. apply Hs. eauto. Qed.

(** ** Locksets *)

Inductive role := GNone | GReading | GWaiting | GWriting.

#[global] Instance role_eq_dec : EqDecision role.
Proof. solve_decision. Defined.

Record lockset := mkLockset { lsFile : option nat; lsGate : role; lsCommit : bool }.

Definition unlocked : lockset := mkLockset None GNone false.

Definition isRole (g : role) (l : lockset) : bool := bool_decide (lsGate l = g).
Definition hasFile (p : nat) (l : lockset) : bool := bool_decide (lsFile l = Some p).
Definition reading (l : lockset) : Z := if isRole GReading l then 1 else 0.

Record Locks (held : gmap nat bool) (com : bool) (readers : nat) (waiting writing : bool) (L : list lockset) : Prop := {
  lk_file : forall p b, held !! p = Some b -> Owned b (hasFile p <$> L);
  lk_known : forall t l p, L !! t = Some l -> lsFile l = Some p -> is_Some (held !! p);
  lk_commit : Owned com (lsCommit <$> L);
  lk_waiting : Owned waiting (isRole GWaiting <$> L);
  lk_writing : Owned writing (isRole GWriting <$> L);
  lk_readers : Z.of_nat readers = tally reading L;
  lk_role : forall t l, L !! t = Some l -> lsGate l = GWaiting \/ lsGate l = GWriting -> lsCommit l = true;
  lk_excl : writing = true -> readers = 0%nat
}.

Lemma reading_nonneg l : 0 <= reading l.
Proof. unfold reading. destruct (isRole _ _); lia. Qed.

Lemma Locks_call held com readers waiting writing L :
  Locks held com readers waiting writing L -> Locks held com readers waiting writing (L ++ [unlocked]).
Proof.
  intros [F N M Wt Wr R Ro X].
  assert (Hin : forall t l, (L ++ [unlocked]) !! t = Some l -> L !! t = Some l \/ l = unlocked).
  { intros t l H. apply lookup_app_Some in H as [?|[_ H]]; [by left|right]. destruct (t - length L)%nat; [by injection H|done]. }
  split; rewrite ?fmap_app; simpl; try (by apply Owned_app); try done.
  - intros p b Hb. rewrite fmap_app. by apply Owned_app, F.
  - intros t l p [H| ->]%Hin Hp; [by eapply N|done].
  - rewrite tally_app. change (tally reading [unlocked]) with 0. lia.
  - intros t l [H| ->]%Hin Hr; [by eapply Ro|]. by destruct Hr.
Qed.

(** What the other locks see of a call that takes or gives back one. *)
Section Moves.
Context (held : gmap nat bool) (com : bool) (readers : nat) (waiting writing : bool) (L : list lockset).
Hypothesis (HL : Locks held com readers waiting writing L).
Context (t : nat) (l : lockset).
Hypothesis (Ht : L !! t = Some l).

Lemma part {B} (f : lockset -> B) : (f <$> L) !! t = Some (f l).
Proof using Ht. by rewrite list_lookup_fmap, Ht. Qed.

Lemma place {B} (f : lockset -> B) : (t < length (f <$> L))%nat.
Proof using Ht. rewrite length_fmap. by eapply lookup_lt_Some. Qed.

Lemma Locks_alloc p : held !! p = None -> Locks (<[p := false]> held) com readers waiting writing L.
Proof using HL.
  intros Hp. destruct HL as [F N M Wt Wr R Ro X]. split; try done.
  - intros q b. rewrite lookup_insert. case_decide as E; [|apply F]. subst. intros [= <-].
    assert (Hno : forall t' : nat, (hasFile q <$> L) !! t' ≠ Some true).
    { intros t' H'. rewrite list_lookup_fmap in H'. destruct (L !! t') as [l'|] eqn:E; [|done]. injection H' as H'.
      apply bool_decide_eq_true in H'. destruct (N t' l' q E H'). congruence. }
    split; [split; [done|intros [t' H']; by destruct (Hno t')]|]. intros t1 t2 Ha. by destruct (Hno t1).
  - intros t' l' q Hl Hq. rewrite lookup_insert. case_decide; eauto.
Qed.

(** Taking or giving back openFile.mu: nothing but the file part changes. *)
Lemma Locks_file o held' : (forall p b, held' !! p = Some b -> Owned b (<[t := bool_decide (o = Some p)]> (hasFile p <$> L))) ->
  (forall p, is_Some (held !! p) -> is_Some (held' !! p)) -> (forall p, o = Some p -> is_Some (held' !! p)) ->
  Locks held' com readers waiting writing (<[t := mkLockset o (lsGate l) (lsCommit l)]> L).
Proof using HL Ht.
  intros HF Hdom Hnew. destruct HL as [F N M Wt Wr R Ro X]. split; try done; try (by rewrite (fmap_insert_same _ L t l)).
  - intros p b Hb. rewrite list_fmap_insert. by apply HF.
  - intros t' l' p Hl Hp. apply lookup_insert_cases in Hl as [[-> ->]|[_ Hl]]; [by apply Hnew|]. by eapply Hdom, N.
  - rewrite (tally_insert _ L t l) by done. change (reading (mkLockset o (lsGate l) (lsCommit l))) with (reading l). lia.
  - intros t' l' Hl Hr. apply lookup_insert_cases in Hl as [[-> ->]|[_ Hl]]; [|by eapply Ro]. simpl in *. by eapply Ro.
Qed.

Lemma hasFile_other o p : lsFile l = o -> o ≠ Some p -> forall b, Owned b (hasFile p <$> L) -> Owned b (<[t := false]> (hasFile p <$> L)).
Proof using Ht.
  intros Ho Hne b Hb. rewrite list_insert_id; [done|]. rewrite part. unfold hasFile. by rewrite Ho, bool_decide_eq_false_2.
Qed.

Lemma Locks_file_take p : held !! p = Some false -> lsFile l = None ->
  Locks (<[p := true]> held) com readers waiting writing (<[t := mkLockset (Some p) (lsGate l) (lsCommit l)]> L).
Proof using HL Ht.
  intros Hp Hn. apply Locks_file.
  - intros q b. rewrite lookup_insert. case_decide as E.
    + subst. intros [= <-]. rewrite bool_decide_eq_true_2 by done. apply Owned_take; [by apply (lk_file _ _ _ _ _ _ HL)|apply place].
    + intros Hb. rewrite bool_decide_eq_false_2 by congruence. apply (hasFile_other None); [done..|]. by apply (lk_file _ _ _ _ _ _ HL).
  - intros q Hq. rewrite lookup_insert. case_decide; eauto.
  - intros q [= ->]. rewrite lookup_insert_eq. eauto.
Qed.

Lemma Locks_file_drop p : lsFile l = Some p ->
  Locks (<[p := false]> held) com readers waiting writing (<[t := mkLockset None (lsGate l) (lsCommit l)]> L).
Proof using HL Ht.
  intros Hp. apply Locks_file.
  - intros q b. rewrite lookup_insert, bool_decide_eq_false_2 by done. case_decide as E.
    + subst. intros [= <-]. destruct (lk_known _ _ _ _ _ _ HL t l q Ht Hp) as [b' Hb'].
      apply (Owned_drop b'); [by apply (lk_file _ _ _ _ _ _ HL)|]. rewrite part. unfold hasFile. by rewrite bool_decide_eq_true_2.
    + intros Hb. apply (hasFile_other (Some p)); [done|congruence|]. by apply (lk_file _ _ _ _ _ _ HL).
  - intros q Hq. rewrite lookup_insert. case_decide; eauto.
  - done.
Qed.

(** The holder of a file finds its mutex locked. *)
Lemma Locks_file_held p : lsFile l = Some p -> held !! p = Some true.
Proof using HL Ht.
  intros Hp. destruct (lk_known _ _ _ _ _ _ HL t l p Ht Hp) as [b Hb]. rewrite Hb.
  rewrite (Owned_held b _ t (lk_file _ _ _ _ _ _ HL p b Hb)); [done|]. rewrite part. unfold hasFile. by rewrite bool_decide_eq_true_2.
Qed.

(** commitMu and the gate: the file part is as it was. *)
Lemma Locks_rest com' readers' waiting' writing' g c :
  Owned com' (<[t := c]> (lsCommit <$> L)) ->
  Owned waiting' (<[t := bool_decide (g = GWaiting)]> (isRole GWaiting <$> L)) ->
  Owned writing' (<[t := bool_decide (g = GWriting)]> (isRole GWriting <$> L)) ->
  Z.of_nat readers' = Z.of_nat readers + ((if decide (g = GReading) then 1 else 0) - reading l) ->
  (g = GWaiting \/ g = GWriting -> c = true) -> (writing' = true -> readers' = 0%nat) ->
  Locks held com' readers' waiting' writing' (<[t := mkLockset (lsFile l) g c]> L).
Proof using HL Ht.
  intros HM HWt HWr HR HRo HX. destruct HL as [F N M Wt Wr R Ro X]. split; try done; rewrite ?list_fmap_insert; try done.
  - intros p b Hb. rewrite (fmap_insert_same _ L t l) by done. by apply F.
  - intros t' l' p Hl Hp. apply lookup_insert_cases in Hl as [[-> ->]|[_ Hl]]; by eapply N.
  - rewrite (tally_insert _ L t l) by done. rewrite HR, R. f_equal. f_equal. unfold reading, isRole. simpl.
    by destruct (decide (g = GReading)) as [E|E]; [rewrite bool_decide_eq_true_2|rewrite bool_decide_eq_false_2].
  - intros t' l' Hl Hr. apply lookup_insert_cases in Hl as [[-> ->]|[_ Hl]]; [|by eapply Ro]. simpl in *. auto.
Qed.

Lemma keep_commit : Owned com (<[t := lsCommit l]> (lsCommit <$> L)).
Proof using HL Ht. rewrite list_insert_id by apply part. apply HL. Qed.
Lemma keep_waiting : Owned waiting (<[t := isRole GWaiting l]> (isRole GWaiting <$> L)).
Proof using HL Ht. rewrite list_insert_id by apply part. apply HL. Qed.
Lemma keep_writing : Owned writing (<[t := isRole GWriting l]> (isRole GWriting <$> L)).
Proof using HL Ht. rewrite list_insert_id by apply part. apply HL. Qed.

Lemma Locks_commit_take : com = false -> lsGate l = GNone ->
  Locks held true readers waiting writing (<[t := mkLockset (lsFile l) GNone true]> L).
Proof using HL Ht.
  intros Hc Hg. pose proof keep_waiting as K1. pose proof keep_writing as K2. unfold isRole in K1, K2. rewrite Hg in K1, K2.
  pose proof (lk_commit _ _ _ _ _ _ HL) as Hm. rewrite Hc in Hm.
  apply Locks_rest; [apply Owned_take; [done|apply place]|done|done|unfold reading, isRole; rewrite Hg; simpl; lia|done|apply HL].
Qed.

Lemma Locks_commit_drop : lsCommit l = true -> lsGate l = GNone ->
  Locks held false readers waiting writing (<[t := mkLockset (lsFile l) GNone false]> L).
Proof using HL Ht.
  intros Hc Hg. pose proof keep_waiting as K1. pose proof keep_writing as K2. unfold isRole in K1, K2. rewrite Hg in K1, K2.
  apply Locks_rest; [apply (Owned_drop com); [apply HL|by rewrite part, Hc]|done|done|unfold reading, isRole; rewrite Hg; simpl; lia|by intros [?|?]|apply HL].
Qed.

Lemma Locks_share : waiting = false -> writing = false -> lsGate l = GNone ->
  Locks held com (readers + 1) false false (<[t := mkLockset (lsFile l) GReading (lsCommit l)]> L).
Proof using HL Ht.
  intros E1 E2 Hg. pose proof keep_waiting as K1. pose proof keep_writing as K2. unfold isRole in K1, K2. rewrite Hg, E1 in K1. rewrite Hg, E2 in K2.
  apply Locks_rest; [apply keep_commit|done|done|unfold reading, isRole; rewrite Hg; simpl; lia|by intros [?|?]|done].
Qed.

Lemma Locks_unshare : lsGate l = GReading ->
  Locks held com (readers - 1) waiting writing (<[t := mkLockset (lsFile l) GNone (lsCommit l)]> L).
Proof using HL Ht.
  intros Hg. pose proof keep_waiting as K1. pose proof keep_writing as K2. unfold isRole in K1, K2. rewrite Hg in K1, K2.
  assert (Hr : reading l = 1) by (unfold reading, isRole; by rewrite Hg).
  pose proof (tally_in reading L t l reading_nonneg Ht) as Hin. pose proof (lk_readers _ _ _ _ _ _ HL) as HR.
  apply Locks_rest; [apply keep_commit|done|done|rewrite Hr; simpl; lia|by intros [?|?]|].
  intros Hw. apply (lk_excl _ _ _ _ _ _ HL) in Hw. lia.
Qed.

Lemma Locks_announce : waiting = false -> lsGate l = GNone -> lsCommit l = true ->
  Locks held com readers true writing (<[t := mkLockset (lsFile l) GWaiting true]> L).
Proof using HL Ht.
  intros E1 Hg Hc. pose proof keep_commit as K0. pose proof keep_writing as K2. unfold isRole in K2. rewrite Hg in K2. rewrite Hc in K0.
  pose proof (lk_waiting _ _ _ _ _ _ HL) as Hm. rewrite E1 in Hm.
  apply Locks_rest; [done|apply Owned_take; [done|apply place]|done|unfold reading, isRole; rewrite Hg; simpl; lia|done|apply HL].
Qed.

(** Nobody else is at the gate as a writer. *)
Lemma Locks_alone g t' l' : lsCommit l = true -> g = GWaiting \/ g = GWriting -> L !! t' = Some l' -> lsGate l' = g -> t' = t.
Proof using HL Ht.
  intros Hc Hg Hl E. pose proof (lk_role _ _ _ _ _ _ HL t' l' Hl) as Hr. rewrite E in Hr. specialize (Hr Hg).
  apply (ow_one _ _ (lk_commit _ _ _ _ _ _ HL)); rewrite list_lookup_fmap; [rewrite Hl|rewrite Ht]; simpl; by f_equal.
Qed.

Lemma Locks_not_writing : lsCommit l = true -> lsGate l ≠ GWriting -> writing = false.
Proof using HL Ht.
  intros Hc Hg. apply not_true_is_false. intros E. destruct (proj1 (ow_some _ _ (lk_writing _ _ _ _ _ _ HL)) E) as [t' H'].
  rewrite list_lookup_fmap in H'. destruct (L !! t') as [l'|] eqn:El; [|done]. injection H' as H'%bool_decide_eq_true.
  assert (t' = t) as -> by (eapply (Locks_alone GWriting); eauto). congruence.
Qed.

Lemma Locks_not_waiting : lsCommit l = true -> lsGate l ≠ GWaiting -> waiting = false.
Proof using HL Ht.
  intros Hc Hg. apply not_true_is_false. intros E. destruct (proj1 (ow_some _ _ (lk_waiting _ _ _ _ _ _ HL)) E) as [t' H'].
  rewrite list_lookup_fmap in H'. destruct (L !! t') as [l'|] eqn:El; [|done]. injection H' as H'%bool_decide_eq_true.
  assert (t' = t) as -> by (eapply (Locks_alone GWaiting); eauto). congruence.
Qed.

Lemma Locks_acquire : readers = 0%nat -> lsGate l = GWaiting ->
  Locks held com 0 false true (<[t := mkLockset (lsFile l) GWriting (lsCommit l)]> L).
Proof using HL Ht.
  intros Hr Hg. pose proof (lk_role _ _ _ _ _ _ HL t l Ht (or_introl Hg)) as Hc.
  pose proof (Locks_not_writing Hc ltac:(congruence)) as Hw. pose proof (lk_writing _ _ _ _ _ _ HL) as Hm. rewrite Hw in Hm.
  apply Locks_rest; [apply keep_commit|eapply Owned_drop; [apply HL|]|apply Owned_take; [done|apply place]|unfold reading, isRole; rewrite Hg; simpl; lia|done|done].
  rewrite part. unfold isRole. by rewrite Hg.
Qed.

Lemma Locks_release : lsGate l = GWriting ->
  Locks held com readers waiting false (<[t := mkLockset (lsFile l) GNone (lsCommit l)]> L).
Proof using HL Ht.
  intros Hg. pose proof keep_waiting as K1. unfold isRole in K1. rewrite Hg in K1.
  apply Locks_rest; [apply keep_commit|done|eapply Owned_drop; [apply HL|]|unfold reading, isRole; rewrite Hg; simpl; lia|by intros [?|?]|done].
  rewrite part. unfold isRole. by rewrite Hg.
Qed.

End Moves.

(** A holder of the gate for writing and one for reading exclude each other. *)
Lemma Locks_exclude held com readers waiting writing L t l t' l' :
  Locks held com readers waiting writing L -> L !! t = Some l -> lsGate l = GWriting ->
  L !! t' = Some l' -> lsGate l' = GReading -> False.
Proof.
  intros HL Ht Hg Ht' Hg'. assert (writing = true) as Hw.
  { apply (ow_some _ _ (lk_writing _ _ _ _ _ _ HL)). exists t. rewrite list_lookup_fmap, Ht. simpl. unfold isRole. by rewrite Hg. }
  pose proof (lk_excl _ _ _ _ _ _ HL Hw) as H0. pose proof (lk_readers _ _ _ _ _ _ HL) as HR.
  pose proof (tally_in reading L t' l' reading_nonneg Ht') as Hin.
  assert (reading l' = 1) by (unfold reading, isRole; by rewrite Hg'). lia.
Qed.

(** ** The lock order *)

(** What a blocked call waits for, and what it may hold then. *)
Inductive awaits (held : gmap nat bool) (com : bool) (readers : nat) (waiting writing : bool) (l : lockset) : Prop :=
| AwaitFile p : held !! p = Some true -> lsFile l = None -> awaits held com readers waiting writing l
| AwaitShare : writing || waiting = true -> lsFile l = None -> lsGate l = GNone -> lsCommit l = false -> awaits held com readers waiting writing l
| AwaitReaders : readers ≠ 0%nat -> lsFile l = None -> lsGate l = GWaiting -> awaits held com readers waiting writing l
| AwaitCommit : com = true -> lsFile l = None -> lsGate l = GNone -> lsCommit l = false -> awaits held com readers waiting writing l.

Lemma owner_of {A} (f : A -> bool) (L : list A) t : (f <$> L) !! t = Some true -> exists l, L !! t = Some l /\ f l = true.
Proof. rewrite list_lookup_fmap. destruct (L !! t) as [l|]; [|done]. intros [= H]. eauto. Qed.

(** Some call is not blocked by a lock, if any holds or waits for one: the
    owner of a file's mutex waits for nothing; with no file awaited, neither does
    a reader of the gate, then its writer, then the owner of commitMu. *)
Lemma unblocked held com readers waiting writing L t l :
  Locks held com readers waiting writing L -> L !! t = Some l -> awaits held com readers waiting writing l ->
  exists t' l', L !! t' = Some l' /\ l' ≠ unlocked /\ ~ awaits held com readers waiting writing l'.
Proof.
  intros HL Ht Ha. destruct (decide (map_Exists (fun _ b => b = true) held)) as [(p&b&Hp&->)|Hno].
  { destruct (proj1 (ow_some _ _ (lk_file _ _ _ _ _ _ HL p true Hp)) eq_refl) as [t' H']. apply owner_of in H' as (l'&Hl&Hq%bool_decide_eq_true).
    exists t', l'. split; [done|]. split; [by intros ->|]. intros []; congruence. }
  assert (Hnof : forall p, held !! p ≠ Some true) by (intros p Hp; apply Hno; exists p, true; done).
  destruct (decide (readers = 0%nat)) as [H0|H0].
  2:{ destruct (tally_pos reading L reading_nonneg) as (t'&l'&Hl&Hr); [pose proof (lk_readers _ _ _ _ _ _ HL); lia|].
      unfold reading in Hr. destruct (isRole GReading l') eqn:Er; [|lia]. apply bool_decide_eq_true in Er.
      exists t', l'. split; [done|]. split; [intros ->; done|]. intros [q Hq| | |]; [by destruct (Hnof q)|congruence..]. }
  destruct waiting eqn:Ew.
  { destruct (proj1 (ow_some _ _ (lk_waiting _ _ _ _ _ _ HL)) eq_refl) as [t' H']. apply owner_of in H' as (l'&Hl&Hq%bool_decide_eq_true).
    exists t', l'. split; [done|]. split; [by intros ->|]. intros [q Hq'| | |]; [by destruct (Hnof q)|congruence..]. }
  destruct writing eqn:Ewr.
  { destruct (proj1 (ow_some _ _ (lk_writing _ _ _ _ _ _ HL)) eq_refl) as [t' H']. apply owner_of in H' as (l'&Hl&Hq%bool_decide_eq_true).
    exists t', l'. split; [done|]. split; [by intros ->|]. intros [q Hq'| | |]; [by destruct (Hnof q)|congruence..]. }
  destruct com eqn:Ec.
  { destruct (proj1 (ow_some _ _ (lk_commit _ _ _ _ _ _ HL)) eq_refl) as [t' H']. apply owner_of in H' as (l'&Hl&Hq).
    exists t', l'. split; [done|]. split; [by intros ->|]. intros [q Hq'| | |]; [by destruct (Hnof q)|congruence..]. }
  exfalso. destruct Ha as [q Hq| | |]; [by destruct (Hnof q)|done..].
Qed.

(** ** The calls waiting for the budget

    [A] has, for each call in [await], where it is and the number of broadcasts
    when it got there; [seen] is where [Budget] has it after [w] broadcasts. *)

Definition seen (w : Z) (c : Budget.call) (v : Z) : Budget.call :=
  match c with Budget.Parked s => if v =? w then Budget.Parked s else Budget.Woken s | _ => c end.

(** What a call that left the budget's mutex is remembered as. *)
Definition keepCall (c : Budget.call) (w : Z) : option (Budget.call * Z) :=
  match c with Budget.Done _ => None | _ => Some (c, w) end.

Definition whereabouts (w : Z) (x : option (Budget.call * Z)) : option Budget.call :=
  match x with Some (c, v) => Some (seen w c v) | None => None end.

Record Awaits (b : Budget.budget) (w : Z) (A : list (option (Budget.call * Z))) : Prop := {
  aw_inv : exists m, (forall t, m !! t = A !! t ≫= whereabouts w) /\ Budget.inv b m;
  aw_past : forall t c v, A !! t = Some (Some (c, v)) -> v <= w /\ (exists s, c = Budget.Parked s \/ c = Budget.Draining s)
}.

Lemma bind_insert {A B} (f : A -> option B) (l : list A) t t' x y :
  l !! t = Some x -> <[t := y]> l !! t' ≫= f = if decide (t' = t) then f y else l !! t' ≫= f.
Proof.
  intros Ht. case_decide as E.
  - subst. rewrite list_lookup_insert_eq by (by eapply lookup_lt_Some). done.
  - by rewrite list_lookup_insert_ne.
Qed.

Lemma inv_charge b m n : Budget.inv b m -> Budget.inv (Budget.set_charge n b) m.
Proof. by intros []. Qed.

Lemma Awaits_charge b w A n : Awaits b w A -> Awaits (Budget.set_charge n b) w A.
Proof. intros [(m&Hm&Hi) Hp]. split; [|done]. exists m. split; [done|]. by apply inv_charge. Qed.

Lemma seen_later w c v : v <= w -> seen (w + 1) c v = Budget.wake (seen w c v).
Proof. intros Hv. destruct c; simpl; try done. destruct (Z.eqb_spec v (w + 1)); [lia|]. by destruct (v =? w). Qed.

Lemma Awaits_broadcast b w A : Awaits b w A -> Awaits b (w + 1) A.
Proof.
  intros [(m&Hm&Hi) Hp]. split; [|intros t c v Ht; destruct (Hp t c v Ht); split; [lia|done]].
  exists (Budget.broadcast m). split; [|by apply Budget.inv_broadcast]. intros t. rewrite Budget.lookup_broadcast, Hm.
  destruct (A !! t) as [[[c v]|]|] eqn:E; simpl; try done. rewrite seen_later; [done|]. by eapply Hp.
Qed.

Lemma Awaits_release b w A n : Awaits b w A -> Awaits (Budget.release n b) (w + 1) A.
Proof. intros H. apply Awaits_broadcast. by apply Awaits_charge. Qed.

Lemma Awaits_call b w A : Awaits b w A -> Awaits b w (A ++ [None]).
Proof.
  intros [(m&Hm&Hi) Hp].
  assert (Ha : forall t, (A ++ [None]) !! t = A !! t \/ (A !! t = None /\ (A ++ [None]) !! t = Some None)).
  { intros t. destruct (decide (t < length A)%nat); [left; by apply lookup_app_l|].
    rewrite lookup_app_r by lia. rewrite (lookup_ge_None_2 A t) by lia. destruct (t - length A)%nat; [by right|by left]. }
  split.
  - exists m. split; [|done]. intros t. rewrite Hm. by destruct (Ha t) as [->|[-> ->]].
  - intros t c v Ht. destruct (Ha t) as [E|[_ E]]; rewrite E in Ht; [by eapply Hp|done].
Qed.

Section Rounds.
Context (b : Budget.budget) (w : Z) (A : list (option (Budget.call * Z))).
Hypothesis (HA : Awaits b w A).

(** A call that was nowhere gets to [c]. *)
Lemma Awaits_put b' t x c m : A !! t = Some x ->
  (forall t', m !! t' = if decide (t' = t) then None else A !! t' ≫= whereabouts w) ->
  Budget.inv b' (<[t := c]> m) -> (forall s, c ≠ Budget.Woken s) -> Awaits b' w (<[t := keepCall c w]> A).
Proof using HA.
  intros Ht Hm Hi Hc. destruct HA as [_ Hp]. split.
  - assert (Hlk : forall m' : gmap nat Budget.call, (forall t', m' !! t' = if decide (t' = t) then whereabouts w (keepCall c w) else m !! t') ->
      forall t', m' !! t' = <[t := keepCall c w]> A !! t' ≫= whereabouts w).
    { intros m' Hm' t'. rewrite Hm', (bind_insert _ A t t' x) by done. case_decide as E; [done|]. by rewrite Hm, decide_False. }
    assert (Hmt : m !! t = None) by by rewrite Hm, decide_True.
    assert (Hcase : (exists o, c = Budget.Done o) \/ whereabouts w (keepCall c w) = Some c).
    { destruct c; simpl; eauto. rewrite Z.eqb_refl. by right. }
    destruct Hcase as [[o ->]|Hk].
    + exists m. split.
      * apply Hlk. intros t'. case_decide as E; [|done]. by subst.
      * pose proof (Budget.inv_remove _ _ t (Budget.Done o) Hi ltac:(apply lookup_insert_eq) eq_refl) as H.
        simpl in H. rewrite delete_insert_id in H by done. rewrite Z.sub_0_r in H. by destruct b'.
    + exists (<[t := c]> m). split; [|done]. apply Hlk. intros t'. rewrite lookup_insert, Hk. repeat case_decide; congruence.
  - intros t' c' v Hl. apply lookup_insert_cases in Hl as [[-> Hx]|[_ Hl]]; [|by eapply Hp].
    destruct c; simpl in Hx; try done; injection Hx as -> ->; (split; [lia|]); eauto. by destruct (Hc start).
Qed.

Lemma iterate_not_woken canc s b0 c b' : Budget.iterate canc s b0 = (c, b') -> forall s, c ≠ Budget.Woken s.
Proof using Type.
  unfold Budget.iterate. intros H s' ->. destruct (Budget.failedSince s b0); [done|]. destruct (_ <? _); [done|].
  destruct canc; [done|]. by destruct (Budget.draining b0).
Qed.

Lemma Awaits_enter t canc c b' : A !! t = Some None -> Budget.enter canc b = (c, b') -> Awaits b' w (<[t := keepCall c w]> A).
Proof using HA.
  intros Ht He. destruct (aw_inv _ _ _ HA) as (m&Hm&Hi).
  assert (Hmt : m !! t = None) by by rewrite Hm, Ht.
  assert (Hm' : forall t', m !! t' = if decide (t' = t) then None else A !! t' ≫= whereabouts w).
  { intros t'. rewrite Hm. case_decide; [subst; by rewrite Ht|done]. }
  unfold Budget.enter in He. destruct (_ || _).
  - injection He as <- <-. eapply Awaits_put; [done..|by apply Budget.inv_done|done].
  - eapply Awaits_put; [done..| |by eapply iterate_not_woken]. eapply (Budget.inv_iterate b m t canc (Budget.ended b)); [done|done|lia|done].
Qed.

(** What is left of the map when a call is taken out of it. *)
Lemma away t x (m : gmap nat Budget.call) : A !! t = Some x -> (forall t', m !! t' = A !! t' ≫= whereabouts w) ->
  forall t', delete t m !! t' = if decide (t' = t) then None else A !! t' ≫= whereabouts w.
Proof using Type. intros Ht Hm t'. rewrite lookup_delete, Hm. repeat case_decide; try done; congruence. Qed.

Lemma Awaits_resume t s v canc c b' : A !! t = Some (Some (Budget.Parked s, v)) ->
  Budget.iterate canc s (Budget.set_parked (Budget.parked b - 1) b) = (c, b') -> Awaits b' w (<[t := keepCall c w]> A).
Proof using HA.
  intros Ht He. destruct (aw_inv _ _ _ HA) as (m&Hm&Hi). pose proof (Hm t) as Hmt. rewrite Ht in Hmt. simpl in Hmt.
  set (c0 := if v =? w then Budget.Parked s else Budget.Woken s) in Hmt.
  assert (Hc0 : Budget.isDraining c0 = false /\ Budget.isWaiting c0 = true /\ (c0 = Budget.Parked s \/ c0 = Budget.Woken s))
    by (unfold c0; destruct (v =? w); eauto).
  destruct Hc0 as (Hc1&Hc2&Hc3). pose proof (Budget.inv_remove _ _ t c0 Hi Hmt Hc1) as Hr. rewrite Hc2 in Hr.
  eapply Awaits_put; [done|by eapply away| |by eapply iterate_not_woken].
  eapply Budget.inv_iterate; [exact Hr|apply lookup_delete_eq| |exact He]. simpl.
  eapply (Budget.inv_start _ _ Hi t c0 s Hmt). tauto.
Qed.

End Rounds.

(** The drain a call ran is over: everyone is woken. *)
Lemma Awaits_drained b w A t s v canc r c b' : Awaits b w A -> A !! t = Some (Some (Budget.Draining s, v)) ->
  Budget.drained canc s r b = (c, b') -> Awaits b' (w + 1) (<[t := keepCall c (w + 1)]> A).
Proof.
  intros HA Ht He. destruct (aw_inv _ _ _ HA) as (m&Hm&Hi). pose proof (Hm t) as Hmt. rewrite Ht in Hmt. simpl in Hmt.
  pose proof (Awaits_broadcast b w A HA) as HB.
  assert (Hm' : forall t', Budget.broadcast (delete t m) !! t' = if decide (t' = t) then None else A !! t' ≫= whereabouts (w + 1)).
  { intros t'. rewrite Budget.lookup_broadcast, lookup_delete, Hm. repeat case_decide; try done; try congruence.
    destruct (A !! t') as [[[c' v']|]|] eqn:E; simpl; try done. rewrite seen_later; [done|]. by eapply (aw_past _ _ _ HA). }
  assert (Hs : s <= Budget.ended b) by (eapply (Budget.inv_start _ _ Hi t); eauto).
  unfold Budget.drained in He. destruct r as [e|].
  - assert (Hend : forall r o, Awaits (Budget.settle r b) (w + 1) (<[t := keepCall (Budget.Done o) (w + 1)]> A)).
    { intros r o. eapply (Awaits_put b (w + 1)); [done..| |done].
      apply Budget.inv_done; [exact (Budget.inv_settle b m t s r Hi Hmt)|]. by rewrite Hm', decide_True. }
    destruct canc; injection He as <- <-; [apply (Hend None)|apply (Hend (Some e))].
  - eapply (Awaits_put b (w + 1)); [done..| |by eapply iterate_not_woken].
    eapply Budget.inv_iterate; [exact (Budget.inv_settle b m t s None Hi Hmt)|by rewrite Hm', decide_True| |exact He]. simpl. lia.
Qed.

(** The drain panicked. *)
Lemma Awaits_panicked b w A t s v e : Awaits b w A -> A !! t = Some (Some (Budget.Draining s, v)) ->
  Awaits (Budget.settle (Some e) b) (w + 1) (<[t := None]> A).
Proof.
  intros HA Ht.
  assert (He : Budget.drained false s (Some e) b = (Budget.Done (Budget.Failed e), Budget.settle (Some e) b)) by done.
  exact (Awaits_drained b w A t s v false (Some e) _ _ HA Ht He).
Qed.

(** A call stays parked only while another drains. *)
Lemma Awaits_drainer b w A t s : Awaits b w A -> A !! t = Some (Some (Budget.Parked s, w)) ->
  exists t' s' v', A !! t' = Some (Some (Budget.Draining s', v')).
Proof.
  intros HA Ht. destruct (aw_inv _ _ _ HA) as (m&Hm&Hi). pose proof (Hm t) as Hmt. rewrite Ht in Hmt. simpl in Hmt. rewrite Z.eqb_refl in Hmt.
  apply (Budget.inv_parked _ _ Hi) in Hmt. apply (Budget.inv_drain _ _ Hi) in Hmt as (t'&s'&Hd). rewrite Hm in Hd.
  destruct (A !! t') as [[[c v]|]|] eqn:E; try done. simpl in Hd. injection Hd as Hd. exists t', s', v.
  destruct c; simpl in Hd; try done; [by destruct (v =? w)|congruence].
Qed.
