(* ===== verification/Hold.v ===== *)
(** * The filesystem, hold by hold (internal/blobfs/fs.go, commit.go, budget.go)

    READ, WRITE, SETATTR of a size, COMMIT, Sync and the namespace operations as
    programs of [Prog], whose steps are the holds of FS.mu, the operations on
    the other locks, the atomic counters and the budget's mutex, and the calls
    of the store. Any number of calls interleave. What one hold does is the
    function [Data], [Commit] and [Namespace] have for it.

    An [*openFile] is a pointer into [heap], since a call may hold one that an
    unlink has taken out of FS.open. A field only the holder of openFile.mu
    touches is read and written in place, in steps of its own. FS.commitGate is
    Go's RWMutex: a writer that waits keeps new readers out. The condition
    variable of the budget is a count of its broadcasts: a parked call goes on
    once the count has moved, and its loop has no bound. A chunk transfer is one step, and so is the write
    of the root pointer with its fallback: they touch the cache, the set of
    known chunks and the bucket only. *)

From stdpp Require Import sorting.
From S2P Require Import Prelude Prog Vfs Modes Policy Inode ChunkCache Budget Store FsState Namespace NamespaceInv.
From S2P Require Import Effects Data Commit WritePath.

(** An openFile and its mutex. *)
Record cell := mkCell { cOf : openFile; cHeld : bool }.

(** The state the goroutines share: [mem] is FS less [open], which is [tab]. *)
Record shared (W : Type) := mkShared {
  mem : FS;
  tab : gmap Z nat;
  heap : gmap nat cell;
  commitMu : bool;
  gateReaders : nat;
  gateWaiting : bool;
  gateWriter : bool;
  wakes : Z;
  bucket : W
}.

Arguments mkShared {W}.
Arguments mem {W}.
Arguments tab {W}.
Arguments heap {W}.
Arguments commitMu {W}.
Arguments gateReaders {W}.
Arguments gateWaiting {W}.
Arguments gateWriter {W}.
Arguments wakes {W}.
Arguments bucket {W}.

Section State.
Context {W : Type}.

Definition set_mem (f : FS) (s : shared W) : shared W :=
  mkShared f (tab s) (heap s) (commitMu s) (gateReaders s) (gateWaiting s) (gateWriter s) (wakes s) (bucket s).
Definition set_heap (h : gmap nat cell) (s : shared W) : shared W :=
  mkShared (mem s) (tab s) h (commitMu s) (gateReaders s) (gateWaiting s) (gateWriter s) (wakes s) (bucket s).
Definition set_tab (t : gmap Z nat) (s : shared W) : shared W :=
  mkShared (mem s) t (heap s) (commitMu s) (gateReaders s) (gateWaiting s) (gateWriter s) (wakes s) (bucket s).
Definition set_commitMu (b : bool) (s : shared W) : shared W :=
  mkShared (mem s) (tab s) (heap s) b (gateReaders s) (gateWaiting s) (gateWriter s) (wakes s) (bucket s).
Definition set_gate (r : nat) (waiting writer : bool) (s : shared W) : shared W :=
  mkShared (mem s) (tab s) (heap s) (commitMu s) r waiting writer (wakes s) (bucket s).
Definition set_wakes (n : Z) (s : shared W) : shared W :=
  mkShared (mem s) (tab s) (heap s) (commitMu s) (gateReaders s) (gateWaiting s) (gateWriter s) n (bucket s).
Definition set_bucket (w : W) (s : shared W) : shared W :=
  mkShared (mem s) (tab s) (heap s) (commitMu s) (gateReaders s) (gateWaiting s) (gateWriter s) (wakes s) w.

(** FS.open, pointers followed, and the FS a hold of mu sees. *)
Definition buffers (s : shared W) : gmap Z openFile := omap (fun p => cOf <$> heap s !! p) (tab s).
Definition view (s : shared W) : FS := set_open (buffers s) (mem s).

Definition bufAt (p : nat) (s : shared W) : openFile := default newOpenFile (cOf <$> heap s !! p).

(** A change of an openFile through its pointer. *)
Definition onBuf (p : nat) (g : openFile -> openFile) (s : shared W) : shared W :=
  set_heap (alter (fun c => mkCell (g (cOf c)) (cHeld c)) p (heap s)) s.

Definition onMem (g : FS -> FS) (s : shared W) : shared W := set_mem (g (mem s)) s.

(** [budget.release], with its broadcast. *)
Definition releases (n : Z) (s : shared W) : shared W :=
  set_wakes (wakes s + 1) (onMem (fun f => set_budget (Budget.release n (budget f)) f) s).

(** What dropOpen leaves of a buffer whose entry it removes. *)
Definition forsaken (c : cell) : cell := mkCell (set_ofBytes 0 (cOf c)) (cHeld c).

(** The state after a hold of mu that left [f] of the view: entries the hold
    dropped are out of FS.open, their bytes swapped for zero. *)
Definition absorb (f : FS) (s : shared W) : shared W :=
  let gone := filter (fun ip => open f !! ip.1 = None) (tab s) in
  let tab' := filter (fun ip => open f !! ip.1 ≠ None) (tab s) in
  let lost : gset nat := map_img gone in
  let heap' := map_imap (fun p c => Some (if bool_decide (p ∈ lost) then forsaken c else c)) (heap s) in
  mkShared (set_open ∅ f) tab' heap' (commitMu s) (gateReaders s) (gateWaiting s) (gateWriter s)
    (if bool_decide (gone = ∅) then wakes s else wakes s + 1) (bucket s).

(** ** Locks *)

Definition lockFile (p : nat) : prog (shared W) unit :=
  atom (fun s => match heap s !! p with
                 | Some c => if cHeld c then None else Some (tt, set_heap (<[p := mkCell (cOf c) true]> (heap s)) s)
                 | None => None
                 end).

Definition unlockFile (p : nat) : prog (shared W) unit :=
  poke (fun s => set_heap (alter (fun c => mkCell (cOf c) false) p (heap s)) s).

Definition lockCommit : prog (shared W) unit :=
  atom (fun s => if commitMu s then None else Some (tt, set_commitMu true s)).
Definition unlockCommit : prog (shared W) unit := poke (set_commitMu false).

Definition gateRLock : prog (shared W) unit :=
  atom (fun s => if gateWriter s || gateWaiting s then None else Some (tt, set_gate (gateReaders s + 1) false false s)).
Definition gateRUnlock : prog (shared W) unit :=
  poke (fun s => set_gate (gateReaders s - 1) (gateWaiting s) (gateWriter s) s).

(** [RWMutex.Lock]: announce the writer, then wait for the readers. *)
Definition gateLock : prog (shared W) unit :=
  let~ _ := atom (fun s => if gateWriter s || gateWaiting s then None else Some (tt, set_gate (gateReaders s) true false s)) in
  atom (fun s => match gateReaders s with O => Some (tt, set_gate 0 false true s) | _ => None end).
Definition gateUnlock : prog (shared W) unit :=
  poke (fun s => set_gate (gateReaders s) (gateWaiting s) false s).

(** An [act] on the mount and the bucket that does not look at FS.open, as one
    step. *)
Definition lift {A} (m : act W A) : prog (shared W) (result A) :=
  act1 (fun s => let '(r, (f, w)) := m (mem s, bucket s) in (r, set_bucket w (set_mem f s))).

(** A call whose error ends the caller. *)
Definition orReturn {A B} (m : prog (shared W) (result A)) (k : A -> prog (shared W) (result B)) : prog (shared W) (result B) :=
  let~ r := m in match r with Ok a => k a | Err e => Ret (Err e) end.

End State.

Notation "'let~?' x := m 'in' k" := (orReturn m (fun x => k))
  (at level 10, x pattern, m at level 100, k at level 200) : strata_scope.

Section Calls.
Context {Cd : Codec} {W : Type} {St : Store W} {Dg : Digest} {Ro : RunOrder} {P : Policy}.
Abbreviation prog := (prog (shared W)).

(** [getOpen]. *)
Definition openHold (id : Z) (s : shared W) : nat * shared W :=
  match tab s !! id with
  | Some p => (p, s)
  | None =>
      let p := fresh (dom (heap s)) in
      (p, set_tab (<[id := p]> (tab s)) (set_heap (<[p := mkCell newOpenFile false]> (heap s)) s))
  end.

Definition getOpenP (id : Z) : prog nat := act1 (openHold id).

(** ** READ *)

(** Step 1, in one hold of mu: the whole view of a file without an entry, or the
    entry's pointer. *)
Definition readFirst (c : Caller) (h : Handle) (off count : Z) (s : shared W)
  : result (nat + Z * Z * bytes * list readRef) :=
  let f := mem s in
  match readable f c h with
  | Err e => Err e
  | Ok (_, n) =>
      match tab s !! iID n with
      | Some p => Ok (inl p)
      | None =>
          let size := iSize n in
          if off <? size then
            let end_ := readEnd off size count in
            Ok (inr (size, end_, zeros (end_ - off), readRefs (chunkSize (cf f)) n ∅ ∅ off end_))
          else Ok (inr (size, 0, [], []))
      end
  end.

(** Step 2, holding openFile.mu: the hold of mu, then the copy. *)
Definition readSecond (c : Caller) (h : Handle) (p : nat) (off count : Z) (s : shared W) : result (Z * Z * list readRef) :=
  let f := mem s in
  match readable f c h with
  | Err e => Err e
  | Ok (_, n) =>
      let size := iSize n in
      if size <=? off then Ok (size, 0, [])
      else
        let end_ := readEnd off size count in
        Ok (size, end_, readRefs (chunkSize (cf f)) n (ofDirty (bufAt p s)) (ofPendingTrim (bufAt p s)) off end_)
  end.

Definition readBufferedP (c : Caller) (h : Handle) (p : nat) (off count : Z) : prog (result (Z * Z * bytes * list readRef)) :=
  let~ _ := lockFile p in
  let~ got := peek (readSecond c h p off count) in
  let~ r := match got with
            | Err e => Ret (Err e)
            | Ok (size, end_, refs) =>
                if size <=? off then Ret (Ok (size, 0, [], []))
                else let~ out := peek (fun s => copyDirty (chunkSize (cf (mem s))) off end_ (bufAt p s)) in
                     Ret (Ok (size, end_, out, refs))
            end in
  let~ _ := unlockFile p in
  Ret r.

(** Step 3, holding no lock. *)
Fixpoint fetchP (cs off end_ : Z) (refs : list readRef) (out : bytes) : prog (result bytes) :=
  match refs with
  | [] => Ret (Ok out)
  | r :: refs =>
      let~? data := lift (loadChunk (rrRef r)) in
      let data := match rrTrim r with
                  | Some to => if to <? blen data then btake to data else data
                  | None => data
                  end in
      fetchP cs off end_ refs (fillSpan cs off end_ (rrIdx r) data out)
  end.

Definition ReadP (c : Caller) (h : Handle) (off count : Z) : prog (result (bytes * bool)) :=
  let~? first := peek (readFirst c h off count) in
  let~? (size, end_, out, refs) := match first with
                                   | inl p => readBufferedP c h p off count
                                   | inr v => Ret (Ok v)
                                   end in
  if size <=? off then Ret (Ok ([], true))
  else
    let~ cs := peek (fun s => chunkSize (cf (mem s))) in
    let~? out := fetchP cs off end_ refs out in
    Ret (Ok (out, size <=? end_)).

(** ** Buffering a write *)

Fixpoint bwLoopP (fuel : nat) (cs : Z) (refs : list chunkRef) (off : Z) (data : bytes) (p : nat) (written charge : Z)
  : prog (result (Z * Z)) :=
  match fuel with
  | O => Ret (Err (EMsg "bufferWrite did not finish"))
  | S fuel =>
      if blen data <=? written then Ret (Ok (written, charge))
      else
        let pos := u64 (off + written) in
        let idx := pos / cs in
        let within := pos mod cs in
        let left := blen data - written in
        let~ o := peek (bufAt p) in
        let oldCap := match ofDirty o !! idx with Some b => bCap b | None => 0 end in
        let~ got := match ofDirty o !! idx with
                    | Some b => Ret (Ok b)
                    | None => lift (startChunk cs refs (ofPendingTrim o) idx within left)
                    end in
        match got with
        | Err e => if 0 <? written then Ret (Ok (written, charge)) else Ret (Err e)
        | Ok b =>
            let nw := if left <? cs - within then left else cs - within in
            let b := placeBytes within (btake nw (bdrop written data)) b in
            let~ _ := poke (onBuf p (fun o => set_ofPendingTrim (delete idx (ofPendingTrim o)) (set_ofDirty (<[idx := b]> (ofDirty o)) o))) in
            bwLoopP fuel cs refs off data p (written + nw) (charge + (bCap b - oldCap))
        end
  end.

(** [f.budget.add(charge); of.bytes.Add(charge)]. *)
Definition chargeP (p : nat) (charge : Z) : prog unit :=
  if 0 <? charge then
    let~ _ := poke (onMem (fun f => set_budget (Budget.add charge (budget f)) f)) in
    poke (onBuf p (fun o => set_ofBytes (ofBytes o + charge) o))
  else Ret tt.

(** The hold of mu that publishes the write, or finds the file unlinked. *)
Definition publish (h : Handle) (p : nat) (off written now : Z) (s : shared W) : shared W :=
  match resolve (mem s) h with
  | Ok (k, n) =>
      let end_ := u64 (off + written) in
      let n := if iSize n <? end_ then set_iSize end_ n else n in
      onMem (fun f => markDirty (upd k (fun _ => touchA now (touchM now n)) f)) s
  | Err _ =>
      let released := ofBytes (bufAt p s) in
      releases released (onBuf p (fun o => set_ofDirty ∅ (set_ofBytes 0 o)) s)
  end.

Definition bwBody (h : Handle) (p : nat) (off : Z) (data : bytes) (now : Z) : prog (result Z) :=
  let~ (cs, refs) := peek (fun s => (chunkSize (cf (mem s)),
    match resolve (mem s) h with Ok (_, n) => Some (iChunks n) | Err _ => None end)) in
  let~? (written, charge) := match refs with
                             | None => Ret (Ok (blen data, 0))
                             | Some refs => bwLoopP (S (length data)) cs refs off data p 0 0
                             end in
  let~ _ := chargeP p charge in
  let~ _ := poke (publish h p off written now) in
  Ret (Ok written).

Definition bufferWriteP (h : Handle) (p : nat) (off : Z) (data : bytes) (now : Z) : prog (result Z) :=
  let~ _ := lockFile p in
  let~ r := bwBody h p off data now in
  let~ _ := unlockFile p in
  Ret r.

(** ** Size changes *)

(** The hold of both locks that makes the change. *)
Definition cutHold (c : Caller) (h : Handle) (p : nat) (sa : SetAttr) (size now : Z) (s : shared W) : result Attr * shared W :=
  let f := mem s in
  match resolve f h with Err e => (Err e, s) | Ok (k, n) =>
  match setAttrRequests c n sa with Some e => (Err e, s) | None =>
  let '(n, o, freed) := resize (chunkSize (cf f)) size n (bufAt p s) in
  let s := if 0 <? freed then releases freed s else s in
  let (n, _) := applySetAttr (touchM now n) sa now in
  (Ok (attr (fsid f) n), onMem (fun f => markDirty (upd k (fun _ => n) f)) (onBuf p (fun _ => o) s))
  end end.

Definition truncateP (c : Caller) (h : Handle) (sa : SetAttr) (size now : Z) : prog (result Attr) :=
  let~ max := peek (fun s => maxFileSize (cf (mem s))) in
  if max <? size then Ret (Err (EStatus ErrFBig)) else
  let~? id := peek (fun s =>
    match resolve (mem s) h with
    | Err e => Err e
    | Ok (_, n) => match setAttrRequests c n sa with Some e => Err e | None => Ok (iID n) end
    end) in
  let~ _ := gateRLock in
  let~ p := getOpenP id in
  let~ _ := lockFile p in
  let~ r := act1 (cutHold c h p sa size now) in
  let~ _ := unlockFile p in
  let~ _ := gateRUnlock in
  Ret r.

(** ** Namespace operations: the check of the mode, then one hold of mu *)

(** [op] after the check found the mode [m]. *)
Definition runAs (m : mountMode) (op : nsop) (f : FS) : bool * FS :=
  let (r, f') := perform (set_mode m f) op in (r, set_mode (mode f) f').

Definition nsHold {A} (g : FS -> A * FS) (s : shared W) : A * shared W :=
  let (r, f) := g (view s) in (r, absorb f s).

Definition opP (op : nsop) : prog bool :=
  let~ m := peek (fun s => mode (mem s)) in
  match mutableMode m with
  | Some _ => Ret false
  | None => act1 (nsHold (runAs m op))
  end.

Definition SetAttrP (c : Caller) (h : Handle) (sa : SetAttr) (now : Z) : prog (result Attr) :=
  let~ m := peek (fun s => mode (mem s)) in
  match mutableMode m with
  | Some e => Ret (Err e)
  | None =>
      match saSize sa with
      | Some size => truncateP c h sa size now
      | None => act1 (nsHold (fun f => setAttrNoSize f c h sa now))
      end
  end.

(** ** Flushes *)

Fixpoint eachP {A B} (l : list A) (k : A -> prog (result B)) : prog (result (list B)) :=
  match l with
  | [] => Ret (Ok [])
  | a :: l => let~? b := k a in let~? bs := eachP l k in Ret (Ok (b :: bs))
  end.

Definition flushTrimP (o : openFile) (idx : Z) : prog (result (Z * chunkRef)) :=
  match ofPendingTrim o !! idx with
  | Some t =>
      let~? data := lift (loadChunk (tRef t)) in
      let n := if tTo t <? blen data then tTo t else blen data in
      let~? ref := lift (putChunk (btake n data)) in
      Ret (Ok (idx, ref))
  | None => Ret (Err (EMsg "unreachable"))
  end.

Definition flushBufP (o : openFile) (idx : Z) : prog (result (Z * chunkRef)) :=
  match ofDirty o !! idx with
  | Some b => let~? ref := lift (putChunk (bData b)) in Ret (Ok (idx, ref))
  | None => Ret (Err (EMsg "unreachable"))
  end.

(** [dropIfGone]. *)
Definition dropHold (id : Z) (p : nat) (s : shared W) : shared W :=
  match inodes (mem s) !! id with
  | Some _ => s
  | None => releases (ofBytes (bufAt p s)) (onBuf p (fun o => mkOpen ∅ ∅ 0 (ofUnsettled o)) s)
  end.

(** The hold of mu that repoints the file. *)
Definition repointHold (id : Z) (p : nat) (trimmed uploaded : list (Z * chunkRef)) (s : shared W) : shared W :=
  let s := match inodes (mem s) !! id with
           | Some _ => onMem (fun f => markDirty (upd id (fun n => set_iChunks (repoint (chunkSize (cf f)) trimmed uploaded (iChunks n)) n) f)) s
           | None => s
           end in
  onBuf p (set_ofUnsettled false) s.

Definition flushBody (id : Z) (p : nat) : prog (result unit) :=
  let~ o := peek (bufAt p) in
  if bool_decide (ofDirty o = ∅) && bool_decide (ofPendingTrim o = ∅) then
    if ofUnsettled o then let~ _ := poke (onBuf p (set_ofUnsettled false)) in Ret (Ok tt) else Ret (Ok tt)
  else
    let~ got := (let~? trimmed := eachP (ranged (dom (ofPendingTrim o))) (flushTrimP o) in
                 let~? uploaded := eachP (sortedIdxs (ofDirty o)) (flushBufP o) in
                 Ret (Ok (trimmed, uploaded))) in
    match got with
    | Err e => let~ _ := poke (dropHold id p) in Ret (Err e)
    | Ok (trimmed, uploaded) =>
        let~ _ := poke (repointHold id p trimmed uploaded) in
        let~ _ := poke (onBuf p (fun o => set_ofPendingTrim ∅ (set_ofDirty ∅ o))) in
        let~ v := act1 (fun s => (ofBytes (bufAt p s), onBuf p (set_ofBytes 0) s)) in
        let~ _ := poke (releases v) in
        Ret (Ok tt)
    end.

Definition flushOpenP (id : Z) (p : nat) : prog (result unit) :=
  let~ _ := lockFile p in
  let~ r := flushBody id p in
  let~ _ := unlockFile p in
  Ret r.

Definition commitFileP (id : Z) : prog (result unit) :=
  let~ got := peek (fun s => tab s !! id) in
  match got with None => Ret (Ok tt) | Some p => flushOpenP id p end.

(** Files as a hold of mu listed them, flushed one after another. *)
Fixpoint flushListP (l : list (Z * nat)) : prog (result unit) :=
  match l with
  | [] => Ret (Ok tt)
  | (id, p) :: l => let~? _ := flushOpenP id p in flushListP l
  end.

Definition listed (want : openFile -> bool) (s : shared W) : list (Z * nat) :=
  omap (fun id => match tab s !! id with
                  | Some p => if want (bufAt p s) then Some (id, p) else None
                  | None => None
                  end) (ranged (dom (tab s))).

Definition flushAllP : prog (result unit) :=
  let~ l := peek (listed (fun _ => true)) in flushListP l.
Definition settleAllP : prog (result unit) :=
  let~ l := peek (listed ofUnsettled) in flushListP l.

(** ** Sync *)

Definition wrapP {A} (msg : string) (m : prog (result A)) : prog (result A) :=
  let~ r := m in Ret (match r with Ok a => Ok a | Err e => Err (EWrap msg e) end).

(** The read of the root pointer, and the hold of mu that applies its verdict. *)
Definition resolveRootP : prog probeVerdict :=
  let~ read := lift (onStore (GetWithETag rootKey)) in
  act1 (fun s => let (v, f) := settleRoot read (mem s) in (v, set_mem f s)).

Definition settleDoubtP (sc : sealedCommit) (now : Z) (oldErr : option error) (unchangedErr failedErr : error) : prog (result unit) :=
  let~ ok := act1 (fun s =>
    let (k, ok) := fireRoot (rootKnowledge (mem s)) rootSwapUnknown in
    (ok, onMem (fun f => if ok then set_rootKnowledge k (set_doubtKey (scKey sc) f)
                         else match oldErr with
                              | Some _ => set_doubtKey "" f
                              | None => applyLocked sc "" now (set_doubtKey "" f)
                              end) s)) in
  if negb ok then Ret (match oldErr with Some e => Err e | None => Ok tt end)
  else
    let~ verdict := resolveRootP in
    match verdict with
    | probeOurs => let~ _ := poke (onMem (fun f => applyLocked sc (rootETag f) now f)) in Ret (Ok tt)
    | probeTheirs => Ret (Err errCommitConflict)
    | probeUnchanged => Ret (Err unchangedErr)
    | probeFailed => Ret (Err failedErr)
    end.

Definition commitSealedP (sc : sealedCommit) (now : Z) : prog (result unit) :=
  let~ put := lift (onStore (Put (scKey sc) (scBody sc))) in
  match put with
  | Err e => Ret (Err (EWrap "write snapshot" e))
  | Ok _ =>
      let~? outcome := lift (swapRoot sc) in
      match outcome with
      | SwapRefused e => Ret (Err e)
      | Swapped etag =>
          let~ _ := poke (onMem (fun f => applyLocked sc etag now (set_rootKnowledge (fireRoot (rootKnowledge f) rootSwapOK).1 f))) in
          Ret (Ok tt)
      | Doubtful oldErr unchangedErr failedErr => settleDoubtP sc now oldErr unchangedErr failedErr
      end
  end.

(** The commit phase, holding the gate. *)
Definition phaseP (t : tick) : prog (result sealedCommit) :=
  let~ _ := gateLock in
  let~ r := (let~? _ := wrapP "settle truncated files" settleAllP in
             peek (fun s => seal (tkNonce t) (tkSnap t) (tkRoot t) (view s))) in
  let~ _ := gateUnlock in
  Ret r.

(** What Sync does holding commitMu. *)
Definition commitP (t : tick) : prog (result unit) :=
  let~ (dirt, know) := peek (fun s => (dirty (mem s), rootKnowledge (mem s))) in
  if negb dirt then Ret (Ok tt) else
  let~ m := peek (fun s => mode (mem s)) in
  if bool_decide (m = mountDiverged) then Ret (Err errDiverged) else
  let~? _ := (if bool_decide (know = rootInDoubt) then
                let~ v := resolveRootP in
                Ret (match v with
                     | probeFailed => Err (EMsg "commit refused: the root pointer is in doubt since an earlier write of it, and the read that would settle it decided nothing")
                     | probeTheirs => Err errCommitConflict
                     | _ => Ok tt
                     end)
              else Ret (Ok tt)) in
  let~? sc := phaseP t in
  commitSealedP sc (tkApply t).

Definition SyncP (t : tick) : prog (result unit) :=
  let~? _ := wrapP "flush pending writes" flushAllP in
  let~ _ := lockCommit in
  let~ r := commitP t in
  let~ _ := unlockCommit in
  Ret r.

Definition syncFileP (id : Z) (t : tick) : prog (result unit) :=
  let~? _ := commitFileP id in SyncP t.

Definition CommitP (h : Handle) (t : tick) : prog (result unit) :=
  let~? id := peek (fun s => match resolve (mem s) h with Ok (_, n) => Ok (iID n) | Err e => Err e end) in
  syncFileP id t.

(** ** The wait for the budget *)

(** One hold of the budget's mutex, with the count of broadcasts at its end. *)
Definition budgetHold {A} (loud : bool) (g : Budget.budget -> A * Budget.budget) : prog (A * Z) :=
  act1 (fun s => let (a, b) := g (budget (mem s)) in
                 let n := if loud then wakes s + 1 else wakes s in
                 (a, n, set_wakes n (onMem (set_budget b) s))).

Definition unparked (b : Budget.budget) : Budget.budget := Budget.set_parked (Budget.parked b - 1) b.

Definition errCanceled : error := EMsg "context canceled".

Definition ended (c : Budget.call) : result unit :=
  match c with
  | Budget.Done Budget.Passed => Ok tt
  | Budget.Done (Budget.Failed e) => Err e
  | _ => Err errCanceled
  end.

(** One round of [await]: the call as it stands, the count of broadcasts when it
    parked and the number of the round. [ctx] says of each round whether the
    context is done then; a parked call is woken by that, with a broadcast of its
    own. [ts] gives the drain of a round the call is elected in its tick, or
    says that it panics. *)
Definition awaitRound (ctx : nat -> bool) (ts : nat -> option tick) (x : Budget.call * Z * nat)
  : prog ((Budget.call * Z * nat) + result unit) :=
  let '(c, v, i) := x in
  match c with
  | Budget.Parked start | Budget.Woken start =>
      if ctx i then
        let~ (c, _) := budgetHold true (fun b => Budget.iterate true start (unparked b)) in
        Ret (inr (ended c))
      else
        let~ (c, v) := atom (fun s =>
          if wakes s =? v then None
          else let (c, b) := Budget.iterate false start (unparked (budget (mem s))) in
               Some (c, wakes s, onMem (set_budget b) s)) in
        Ret (inl (c, v, S i))
  | Budget.Draining start =>
      match ts i with
      | Some t =>
          let~ r := SyncP t in
          let~ (c, v) := budgetHold true (Budget.drained (ctx i) start (errOf r)) in
          Ret (inl (c, v, S i))
      | None =>
          let~ _ := budgetHold true (fun b => (tt, Budget.settle (Some Budget.errDrainPanicked) b)) in
          Ret (inr (Err Budget.errDrainPanicked))
      end
  | Budget.Done _ => Ret (inr (ended c))
  end.

(** The loop of [await], which has no bound. *)
Definition awaitP (ctx : nat -> bool) (ts : nat -> option tick) (c : Budget.call) (v : Z) : prog (result unit) :=
  Loop (awaitRound ctx ts) (c, v, 1%nat) Ret.

Definition budgetP (ctx : nat -> bool) (ts : nat -> option tick) : prog (result unit) :=
  let~ (c, v) := budgetHold false (Budget.enter (ctx 0%nat)) in
  awaitP ctx ts c v.

Definition WriteP (c : Caller) (h : Handle) (off : Z) (data : bytes) (how : Stability)
    (ctx : nat -> bool) (ts : nat -> option tick) (now : Z) (t : tick) : prog (result (Z * Stability)) :=
  let~ m := peek (fun s => mode (mem s)) in
  match mutableMode m with Some e => Ret (Err e) | None =>
  if blen data =? 0 then Ret (Ok (0, FileSync)) else
  let~ max := peek (fun s => maxFileSize (cf (mem s))) in
  if max <=? off then Ret (Err (EStatus ErrFBig))
  else
    let data := clamp max off data in
    let~? id := peek (fun s =>
      match resolve (mem s) h with
      | Err e => Err e
      | Ok (_, n) => match checkPerm OpWrite c n with Some e => Err e | None => Ok (iID n) end
      end) in
    let~? _ := budgetP ctx ts in
    let~ p := getOpenP id in
    let~? written := bufferWriteP h p off data now in
    match how with
    | FileSync | DataSync => let~? _ := syncFileP id t in Ret (Ok (u32 written, FileSync))
    | Unstable => Ret (Ok (u32 written, Unstable))
    end
  end.

(** ** The calls *)

Inductive request :=
| QRead (c : Caller) (h : Handle) (off count : Z)
| QWrite (c : Caller) (h : Handle) (off : Z) (data : bytes) (how : Stability) (ctx : nat -> bool) (ts : nat -> option tick) (now : Z) (t : tick)
| QSetAttr (c : Caller) (h : Handle) (sa : SetAttr) (now : Z)
| QOp (op : nsop)
| QCommit (h : Handle) (t : tick)
| QSync (t : tick).

Inductive reply :=
| RData (r : result (bytes * bool))
| RCount (r : result (Z * Stability))
| RAttr (r : result Attr)
| RDone (ok : bool)
| RSynced (r : result unit).

Definition call (q : request) : prog reply :=
  match q with
  | QRead c h off count => let~ r := ReadP c h off count in Ret (RData r)
  | QWrite c h off data how ctx ts now t => let~ r := WriteP c h off data how ctx ts now t in Ret (RCount r)
  | QSetAttr c h sa now => let~ r := SetAttrP c h sa now in Ret (RAttr r)
  | QOp op => let~ r := opP op in Ret (RDone r)
  | QCommit h t => let~ r := CommitP h t in Ret (RSynced r)
  | QSync t => let~ r := SyncP t in Ret (RSynced r)
  end.

(** A mount nobody has called yet. *)
Definition atRest (f : FS) (w : W) : shared W := mkShared (set_open ∅ f) ∅ ∅ false 0 false false 0 w.

End Calls.
