(* ===== verification/HoldInv.v ===== *)
(** * The invariant of the interleaved filesystem

    The abstract state is an FS as the sequential files have it, [calm]: the
    mount with, for each file that exists, the buffer as no call is changing it.
    Between the steps of a call that holds openFile.mu the buffer in the heap may
    be ahead of it: [phase] says how far. [J] is the invariant of [Prog]'s
    logic: the calm state is good, the heap agrees with it as the phases say, the
    locks have their owners, the budget's charge is what the buffers count plus
    what calls are about to add or release, the waiting calls are as [Budget] has
    them, and the bucket holds every chunk the namespace names. [effect] is what
    the request of a call may do to the calm state, in one of its steps; all
    others leave what a client sees ([sameContents]). *)

From stdpp Require Import sorting.
From S2P Require Import Prelude Prog Vfs Fsm Modes Policy Inode ChunkCache Budget Store FsState Tree Namespace.
From S2P Require Import NamespaceInv Drops Effects Data DataSpec FileSpec DataInv ReadDir Commit WritePath Durable.
From S2P Require Import CommitSpec SyncSpec Whole System Locks Hold.

(** How far a call that holds a file's mutex has come. *)
Inductive phase :=
| Resting (o : openFile)
| Filling (o0 : openFile) (refs : list chunkRef) (o : openFile)
| Owing (o0 : openFile) (refs : list chunkRef) (o : openFile) (n : Z)
| Paid (o0 : openFile) (refs : list chunkRef) (o : openFile) (n : Z)
| Emptying (o : openFile)
| Freeing (n : Z).

(** What a call holds and knows. *)
Record ghost := mkGhost {
  gFile : option (Z * nat * phase);
  gGate : role;
  gCommit : bool;
  gWatch : option (gset Z);
  gSeal : option (gmap Z inode * sealedCommit * bool);
  gPtrs : list (Z * nat);
  gNames : list (Z * Z);
  gMine : list chunkRef;
  gAwait : option (Budget.call * Z)
}.

Definition idle : ghost := mkGhost None GNone false None None [] [] [] None.

Definition set_gFile v c := mkGhost v (gGate c) (gCommit c) (gWatch c) (gSeal c) (gPtrs c) (gNames c) (gMine c) (gAwait c).
Definition set_gGate v c := mkGhost (gFile c) v (gCommit c) (gWatch c) (gSeal c) (gPtrs c) (gNames c) (gMine c) (gAwait c).
Definition set_gCommit v c := mkGhost (gFile c) (gGate c) v (gWatch c) (gSeal c) (gPtrs c) (gNames c) (gMine c) (gAwait c).
Definition set_gWatch v c := mkGhost (gFile c) (gGate c) (gCommit c) v (gSeal c) (gPtrs c) (gNames c) (gMine c) (gAwait c).
Definition set_gSeal v c := mkGhost (gFile c) (gGate c) (gCommit c) (gWatch c) v (gPtrs c) (gNames c) (gMine c) (gAwait c).
Definition set_gPtrs v c := mkGhost (gFile c) (gGate c) (gCommit c) (gWatch c) (gSeal c) v (gNames c) (gMine c) (gAwait c).
Definition set_gNames v c := mkGhost (gFile c) (gGate c) (gCommit c) (gWatch c) (gSeal c) (gPtrs c) v (gMine c) (gAwait c).
Definition set_gMine v c := mkGhost (gFile c) (gGate c) (gCommit c) (gWatch c) (gSeal c) (gPtrs c) (gNames c) v (gAwait c).
Definition set_gAwait v c := mkGhost (gFile c) (gGate c) (gCommit c) (gWatch c) (gSeal c) (gPtrs c) (gNames c) (gMine c) v.

Definition lockOf (c : ghost) : lockset :=
  mkLockset (match gFile c with Some (_, p, _) => Some p | None => None end) (gGate c) (gCommit c).

(** What a call has added to the budget and not to the file, or taken from the
    file and not released. *)
Definition owed (c : ghost) : Z :=
  match gFile c with
  | Some (_, _, Owing _ _ _ n) | Some (_, _, Freeing n) => n
  | _ => 0
  end.

(** Equal but for the bytes, which dropOpen zeroes holding mu alone. *)
Definition alike (o o' : openFile) : Prop :=
  ofDirty o = ofDirty o' /\ ofPendingTrim o = ofPendingTrim o' /\ ofUnsettled o = ofUnsettled o'.

Definition heapSum (h : gmap nat cell) : Z := map_fold (fun _ c z => z + ofBytes (cOf c)) 0 h.

(** The mount with the buffers [R], charged for them. *)
Definition calm (R : gmap Z openFile) (f : FS) : FS := twin R (Budget.set_charge (chargeSum R) (budget f)) f.

Section Inv.
Context {Cd : Codec} {W : Type} {St : Store W} {Vw : StoreView W} {Lw : StoreLaws W}
  {Dg : Digest} {Hx : HexDigest} {Ro : RunOrder} {P : Policy} {TC : TypeChecked P}.
Context (K : conf).
Abbreviation shared := (shared W).

(** A file no cut of which is left to flush: no trim is pending, and what its
    chunks hold past the end reads as zeros. *)
Definition settled (n : inode) (o : openFile) : Prop :=
  ofUnsettled o = false -> ofPendingTrim o = ∅ /\
    forall i, iSize n <= i -> fileByte (chunkSize K) (iChunks n) newOpenFile i = zero_byte.

Definition alive (s : shared) (id : Z) : Prop := is_Some (inodes (mem s) !! id).

(** [p] is the entry of [id] as long as the inode exists, and of no other. *)
Record pointer (s : shared) (id : Z) (p : nat) : Prop := {
  pt_heap : is_Some (heap s !! p);
  pt_old : id < nextIno (mem s);
  pt_tab : alive s id -> tab s !! id = Some p;
  pt_only : forall j, tab s !! j = Some p -> j = id
}.

(** The inode [id] has the generation [g] as long as it exists. *)
Definition named (s : shared) (id g : Z) : Prop :=
  id < nextIno (mem s) /\ forall n, inodes (mem s) !! id = Some n -> iGen n = g.

(** The buffer [o] in the heap, whose mutex a call in phase [ph] holds. *)
Definition phaseOK (s : shared) (a : FS) (id : Z) (o : openFile) (ph : phase) : Prop :=
  match ph with
  | Resting o1 => alike o o1 /\ (alive s id -> open a !! id = Some o) /\ (~ alive s id -> ofBytes o = 0)
  | Filling o0 refs o1 | Owing o0 refs o1 _ =>
      alike o o1 /\ ofUnsettled o1 = ofUnsettled o0 /\
      (forall n, inodes (mem s) !! id = Some n -> iChunks n = refs /\
        exists u, open a !! id = Some u /\ alike u o0 /\ ofBytes o = ofBytes u) /\
      (~ alive s id -> ofBytes o = 0)
  | Paid o0 refs o1 k =>
      alike o o1 /\ ofUnsettled o1 = ofUnsettled o0 /\
      (forall n, inodes (mem s) !! id = Some n -> iChunks n = refs /\
        exists u, open a !! id = Some u /\ alike u o0 /\ ofBytes o = ofBytes u + k)
  | Emptying o1 =>
      alike o o1 /\ ofUnsettled o1 = false /\ (alive s id -> open a !! id = Some newOpenFile) /\ (~ alive s id -> ofBytes o = 0)
  | Freeing _ => o = newOpenFile /\ (alive s id -> open a !! id = Some newOpenFile)
  end.

(** The buffer of a pointer whose mutex is free. *)
Record resting (s : shared) (a : FS) (p : nat) (o : openFile) : Prop := {
  re_live : forall id, tab s !! id = Some p -> alive s id -> open a !! id = Some o;
  re_dead : (forall id, tab s !! id = Some p -> ~ alive s id) -> ofBytes o = 0
}.

Record Files (s : shared) (C : list ghost) (a : FS) : Prop := {
  fi_conf : cf (mem s) = K;
  fi_bare : open (mem s) = ∅;
  fi_abs : a = calm (open a) (mem s);
  fi_good : good a;
  fi_settled : forall id n, inodes (mem s) !! id = Some n -> settled n (bufOf a id);
  fi_dom : forall id, is_Some (open a !! id) <-> alive s id /\ is_Some (tab s !! id);
  fi_tab : forall id p, tab s !! id = Some p -> is_Some (heap s !! p) /\ id < nextIno (mem s);
  fi_inj : forall id j p, tab s !! id = Some p -> tab s !! j = Some p -> j = id;
  fi_dead : forall id p c, tab s !! id = Some p -> heap s !! p = Some c -> ~ alive s id -> ofUnsettled (cOf c) = false;
  fi_free : forall p c, heap s !! p = Some c -> cHeld c = false -> resting s a p (cOf c);
  fi_hold : forall t c id p ph, C !! t = Some c -> gFile c = Some (id, p, ph) ->
    pointer s id p /\ exists cl, heap s !! p = Some cl /\ phaseOK s a id (cOf cl) ph;
  fi_ptrs : forall t c id p, C !! t = Some c -> (id, p) ∈ gPtrs c -> pointer s id p;
  fi_name : forall t c id g, C !! t = Some c -> (id, g) ∈ gNames c -> named s id g;
  fi_watch : forall t c X, C !! t = Some c -> gWatch c = Some X -> gGate c = GWriting /\
    forall id o, open a !! id = Some o -> ofUnsettled o = true -> id ∈ X
}.

Definition sealOK (w : W) (c : ghost) : Prop :=
  match gSeal c with
  | None => True
  | Some (m, sc, put) => gCommit c = true /\ sealedFor m sc /\ inodesStored w m /\ (put = true -> snapStored sc w)
  end.

Record Stored (s : shared) (C : list ghost) : Prop := {
  st_held : held (mem s) (bucket s);
  st_text : encodable (mem s);
  st_mine : forall t c ref, C !! t = Some c -> ref ∈ gMine c -> refStored (bucket s) ref;
  st_seal : forall t c, C !! t = Some c -> sealOK (bucket s) c
}.

Definition Charged (s : shared) (C : list ghost) : Prop :=
  Budget.charge (budget (mem s)) = heapSum (heap s) + tally owed C.

Record J (s : shared) (C : list ghost) (a : FS) : Prop := {
  j_files : Files s C a;
  j_locks : Locks (cHeld <$> heap s) (commitMu s) (gateReaders s) (gateWaiting s) (gateWriter s) (lockOf <$> C);
  j_charge : Charged s C;
  j_awaits : Awaits (budget (mem s)) (wakes s) (gAwait <$> C);
  j_stored : Stored s C
}.

(** ** Generic facts *)

Lemma alike_refl o : alike o o.
Proof using Type. done. Qed.

Lemma alike_bytes o v : alike (set_ofBytes v o) o.
Proof using Type. done. Qed.

Lemma heapSum_insert h p c :
  heapSum (<[p := c]> h) = heapSum h + (ofBytes (cOf c) - match h !! p with Some c0 => ofBytes (cOf c0) | None => 0 end).
Proof using Type.
  assert (Hnew : forall m : gmap nat cell, m !! p = None -> forall c, heapSum (<[p := c]> m) = heapSum m + ofBytes (cOf c)).
  { intros m Hm c'. unfold heapSum. rewrite map_fold_insert_L; [done| |done]. intros; lia. }
  destruct (h !! p) as [c0|] eqn:E.
  - rewrite <- (insert_delete_id h p c0) at 2 by done. rewrite <- insert_delete_eq.
    rewrite !Hnew by apply lookup_delete_eq. lia.
  - rewrite Hnew by done. lia.
Qed.

Lemma alter_insert {A} (g : A -> A) (m : gmap nat A) p x : m !! p = Some x -> alter g p m = <[p := g x]> m.
Proof using Type.
  intros Hp. apply map_eq. intros j. rewrite lookup_alter, lookup_insert. case_decide; [subst; by rewrite Hp|done].
Qed.

Lemma good_ext f f' :
  good f -> inodes f' = inodes f -> nextIno f' = nextIno f -> open f' = open f -> cf f' = cf f -> cacheOK f' ->
  Budget.charge (budget f') = Budget.charge (budget f) -> good f'.
Proof using Type.
  intros [Hw Hd] E1 E2 E3 E4 Hc E6. split.
  - destruct Hw as [w1 w2 w3 w4 w5 w6]. split; unfold shape in *; rewrite ?E1, ?E2, ?E3; done.
  - destruct Hd as [d1 d2 d3 d4 d5 d6]. split; unfold bufOf in *; rewrite ?E1, ?E3, ?E4, ?E6; done.
Qed.

Lemma calm_open R f : open (calm R f) = R.
Proof using Type. done. Qed.

Section Facts.
Context (s : shared) (C : list ghost) (a : FS).
Hypothesis (HF : Files s C a).

Lemma abs_inodes : inodes a = inodes (mem s).
Proof using HF. by rewrite (fi_abs _ _ _ HF). Qed.
Lemma abs_cf : cf a = K.
Proof using HF. rewrite (fi_abs _ _ _ HF). apply HF. Qed.
Lemma abs_next : nextIno a = nextIno (mem s).
Proof using HF. by rewrite (fi_abs _ _ _ HF). Qed.
Lemma abs_rest : inodes a = inodes (mem s) /\ cf a = cf (mem s) /\ nextIno a = nextIno (mem s) /\ fsid a = fsid (mem s) /\
  changes a = changes (mem s) /\ cache a = cache (mem s) /\ knownChunks a = knownChunks (mem s) /\ mode a = mode (mem s).
Proof using HF. by rewrite (fi_abs _ _ _ HF). Qed.
Lemma abs_resolve h : resolve (mem s) h = resolve a h.
Proof using HF. unfold resolve. by rewrite abs_inodes. Qed.
Lemma abs_file id n : inodes (mem s) !! id = Some n -> fileOK (chunkSize K) n (bufOf a id) /\ iID n = id.
Proof using HF.
  intros Hn. rewrite <- abs_inodes in Hn. pose proof (fi_good _ _ _ HF) as [Hw Hd]. rewrite <- abs_cf. split; [by apply Hd|by eapply wf_id].
Qed.
Lemma abs_buf id o : open a !! id = Some o -> bufOf a id = o.
Proof using Type. unfold bufOf. by intros ->. Qed.
Lemma fetch_ok : cacheOK (mem s) /\ skipVerify (cf (mem s)) = false.
Proof using HF.
  pose proof (fi_good _ _ _ HF) as [_ Hd]. rewrite (fi_abs _ _ _ HF) in Hd. split; [apply (do_cache _ Hd)|apply (do_verify _ Hd)].
Qed.

(** An entry found in the table. *)
Lemma tab_pointer id p : tab s !! id = Some p -> pointer s id p.
Proof using HF.
  intros Hp. destruct (fi_tab _ _ _ HF id p Hp) as [H1 H2]. split; [done|done|done|]. intros j Hj. by eapply (fi_inj _ _ _ HF).
Qed.

End Facts.

(** ** Steps that change only what one call knows *)

(** [c'] holds what [c] holds. *)
Record holdsSame (c c' : ghost) : Prop := {
  hs_file : gFile c' = gFile c;
  hs_gate : gGate c' = gGate c;
  hs_commit : gCommit c' = gCommit c;
  hs_await : gAwait c' = gAwait c
}.

Lemma lockOf_same c c' : gFile c' = gFile c -> gGate c' = gGate c -> gCommit c' = gCommit c -> lockOf c' = lockOf c.
Proof using Type. intros E1 E2 E3. unfold lockOf. by rewrite E1, E2, E3. Qed.

Lemma J_ghost s C a t c c' :
  J s C a -> C !! t = Some c -> holdsSame c c' ->
  (forall id p, (id, p) ∈ gPtrs c' -> pointer s id p) -> (forall ref, ref ∈ gMine c' -> refStored (bucket s) ref) ->
  (forall id g, (id, g) ∈ gNames c' -> named s id g) ->
  (forall X, gWatch c' = Some X -> gGate c' = GWriting /\ forall id o, open a !! id = Some o -> ofUnsettled o = true -> id ∈ X) ->
  sealOK (bucket s) c' -> J s (<[t := c']> C) a.
Proof using Type.
  intros [[F1 F2 F3 F4 F5 F6 F7 F8 F9 F10 F11 F12 F13 F14] HL HC HA [S1 S2 S3 S4]] Ht [H1 H2 H3 H4] Hp Hm Hn Hw Hse. split.
  - split; try done.
    + intros t' d id p ph Hd Hf. apply lookup_insert_cases in Hd as [[-> ->]|[_ Hd]]; [|by eapply F11]. rewrite H1 in Hf. by eapply F11.
    + intros t' d id p Hd. apply lookup_insert_cases in Hd as [[-> ->]|[_ Hd]]; [apply Hp|by eapply F12].
    + intros t' d id g Hd. apply lookup_insert_cases in Hd as [[-> ->]|[_ Hd]]; [apply Hn|by eapply F13].
    + intros t' d X Hd. apply lookup_insert_cases in Hd as [[-> ->]|[_ Hd]]; [apply Hw|by eapply F14].
  - rewrite (fmap_insert_same lockOf C t c) by (done || by apply lockOf_same). done.
  - unfold Charged in *. rewrite (tally_insert _ C t c) by done. unfold owed at 2 3. rewrite H1. lia.
  - by rewrite (fmap_insert_same gAwait C t c).
  - split; try done.
    + intros t' d ref Hd. apply lookup_insert_cases in Hd as [[-> ->]|[_ Hd]]; [apply Hm|by eapply S3].
    + intros t' d Hd. apply lookup_insert_cases in Hd as [[-> ->]|[_ Hd]]; [done|by eapply S4].
Qed.

(** A call that knows of the files what it knew. *)
Lemma Files_known s C a t c c' :
  Files s C a -> C !! t = Some c -> gFile c' = gFile c -> gPtrs c' = gPtrs c -> gNames c' = gNames c ->
  (forall X, gWatch c' = Some X -> gGate c' = GWriting /\ gWatch c = Some X) -> Files s (<[t := c']> C) a.
Proof using Type.
  intros [F1 F2 F3 F4 F5 F6 F7 F8 F9 F10 F11 F12 F13 F14] Ht E1 E2 E3 Hw. split; try done.
  - intros t' d id p ph Hd Hf. apply lookup_insert_cases in Hd as [[-> ->]|[_ Hd]]; [|by eapply F11]. rewrite E1 in Hf. by eapply F11.
  - intros t' d id p Hd Hin. apply lookup_insert_cases in Hd as [[-> ->]|[_ Hd]]; [|by eapply F12]. rewrite E2 in Hin. by eapply F12.
  - intros t' d id g Hd Hg. apply lookup_insert_cases in Hd as [[-> ->]|[_ Hd]]; [|by eapply F13]. rewrite E3 in Hg. by eapply F13.
  - intros t' d X Hd HX. apply lookup_insert_cases in Hd as [[-> ->]|[_ Hd]]; [|by eapply F14]. destruct (Hw X HX) as [? HX'].
    split; [done|]. by eapply F14.
Qed.

(** ** What the abstract state does *)

(** A write of the first [k] bytes of [data] at [off]. *)
Definition wrote (f f' : FS) (h : Handle) (off : Z) (data : bytes) (k now : Z) : Prop :=
  0 < k <= blen data /\
  exists id n o' dc, resolve f h = Ok (id, n) /\
    let n' := touchA now (touchM now (set_iSize (Z.max (iSize n) (off + k)) n)) in
    touches f f' id n' o' dc /\
    forall i, 0 <= i -> fileByte (chunkSize (cf f)) (iChunks n') o' i =
      if decide (off <= i < off + k) then bget data (i - off) else fileByte (chunkSize (cf f)) (iChunks n) (bufOf f id) i.

(** A change of the size to [size], with the rest of [sa]. *)
Definition resized (f f' : FS) (c : Caller) (h : Handle) (sa : SetAttr) (size now : Z) (at_ : Attr) : Prop :=
  exists id n chunks o' dc, resolve f h = Ok (id, n) /\ setAttrRequests c n sa = None /\
    let n' := (applySetAttr (touchM now (set_iSize size (set_iChunks chunks n))) sa now).1 in
    touches f f' id n' o' dc /\ at_ = attr (fsid f) n' /\
    forall i, 0 <= i -> fileByte (chunkSize (cf f)) (iChunks n') o' i =
      if i <? size then fileByte (chunkSize (cf f)) (iChunks n) (bufOf f id) i else zero_byte.

(** A namespace operation that found the mode [m]. *)
Definition ran (f f' : FS) (m : mountMode) (op : nsop) (r : bool) : Prop :=
  mutableMode m = None /\ runAs m op f = (r, f').

(** What the one step of a call that is not quiet does, by its own request. *)
Definition effect (q : request) (f f' : FS) : Prop :=
  match q with
  | QWrite _ h off data _ _ _ now _ => exists k, wrote f f' h off (clamp (maxFileSize K) off data) k now
  | QSetAttr c h sa now =>
      match saSize sa with
      | Some size => exists at_, resized f f' c h sa size now at_
      | None => exists r, setAttrNoSize f c h sa now = (r, f')
      end
  | QOp op => exists m r, ran f f' m op r
  | _ => False
  end.

(** A change of what the namespace and the files do not see. *)
Lemma unseen f f' :
  inodes f' = inodes f -> open f' = open f -> cf f' = cf f -> mode f' = mode f -> nextIno f' = nextIno f -> fsid f' = fsid f -> sameContents f f'.
Proof using Type.
  intros E1 E2 E3 E4 E5 E6. exists f'. split; [|apply nsSame_refl]. split; try done; rewrite ?E1; [done|].
  intros id n Hn. exists n. split; [done|]. split; [done|]. split; [done|]. intros i _. unfold contentAt, bufOf. by rewrite E2, E3.
Qed.

(** ** Steps that leave the files alone *)

Lemma Files_ext s s' C a a' :
  Files s C a -> tab s' = tab s -> heap s' = heap s -> inodes (mem s') = inodes (mem s) ->
  nextIno (mem s') = nextIno (mem s) -> cf (mem s') = cf (mem s) -> open (mem s') = ∅ -> cacheOK (mem s') ->
  a' = calm (open a) (mem s') -> Files s' C a'.
Proof using Type.
  intros HF Et Eh Ei En Ec Eo Hca ->. pose proof (abs_inodes _ _ _ HF) as Hai. pose proof (abs_cf _ _ _ HF) as Hac.
  pose proof (abs_next _ _ _ HF) as Han. destruct HF as [F1 F2 F3 F4 F5 F6 F7 F8 F9 F10 F11 F12 F13 F14].
  assert (Hal : forall id, alive s' id <-> alive s id) by (intros id; unfold alive; by rewrite Ei).
  assert (Hpt : forall id p, pointer s id p -> pointer s' id p).
  { intros id p [P1 P2 P3 P4]. split; rewrite ?Eh, ?En, ?Et; try done. by rewrite Hal. }
  split; rewrite ?Et, ?Eh, ?En, ?calm_open; try done.
  - congruence.
  - eapply good_ext; [exact F4|simpl; congruence..| |].
    + unfold cacheOK in *. done.
    + simpl. symmetry. apply F4.
  - rewrite Ei. intros id n Hn. unfold bufOf. simpl. by apply F5.
  - intros id. rewrite Hal. apply F6.
  - intros id p c. rewrite Hal. apply F9.
  - intros p c Hp Hh. destruct (F10 p c Hp Hh) as [R1 R2]. split; rewrite ?Et; simpl.
    + intros id. rewrite Hal. apply R1.
    + intros H. apply R2. intros id. rewrite <- Hal. apply H.
  - intros t c id p ph Hc Hf. destruct (F11 t c id p ph Hc Hf) as (Hp&cl&Hcl&Hph). split; [by apply Hpt|]. exists cl. split; [done|].
    unfold phaseOK in *. destruct ph; simpl; rewrite ?Hal, ?Ei; exact Hph.
  - intros t c id p Hc Hin. by eapply Hpt, F12.
  - intros t c id g Hc Hg. unfold named. rewrite En, Ei. by eapply F13.
Qed.

(** A call of the store that only adds chunks, and what it does to the cache and
    the set of known ones. *)
Lemma J_transfer s C a f w :
  J s C a -> aside (mem s) f -> cacheOK f -> held f w -> gained (bucket s) w ->
  J (set_bucket w (set_mem f s)) C (calm (open a) f) /\ sameContents a (calm (open a) f).
Proof using Type.
  intros [HF HL HC HA [S1 S2 S3 S4]] (ca&kn&->) Hca Hh Hga. set (f := set_knownChunks kn (set_cache ca (mem s))) in *.
  assert (HF' : Files (set_bucket w (set_mem f s)) C (calm (open a) f)).
  { eapply Files_ext; try done. apply HF. }
  split.
  - split; try done. split; try done.
    + intros t c ref Hc Hin. eapply refStored_gained; [exact Hga|by eapply S3].
    + intros t c Hc. specialize (S4 t c Hc). unfold sealOK in *. simpl. destruct (gSeal c) as [[[m sc] put]|]; [|done].
      destruct S4 as (H1&H2&H3&H4). split; [done|]. split; [done|]. split; [eapply inodesStored_mono; [apply Hga|done]|].
      intros Hp. unfold snapStored in *. eapply lookup_weaken; [by apply H4|apply Hga].
  - destruct (abs_rest _ _ _ HF) as (A1&A2&A3&A4&A5&A6&A7&A8). by apply unseen.
Qed.

(** A hold that changes what the commit knows of the root pointer, the mode or
    the budget's waiters. *)
Lemma J_root s C a f b wk :
  J s C a -> nsSame (mem s) f -> Budget.charge b = Budget.charge (budget f) -> Awaits b wk (gAwait <$> C) ->
  J (set_wakes wk (set_mem (set_budget b f) s)) C (calm (open a) (set_budget b f)) /\ sameContents a (calm (open a) (set_budget b f)).
Proof using Type.
  intros [HF HL HC HA [S1 S2 S3 S4]] [N1 N2 N3 N4 N5 N6 N7 N8 N9] Hb Haw.
  split.
  - split; try done.
    + eapply Files_ext; try done; simpl.
      * rewrite N6. apply HF.
      * unfold cacheOK. simpl. rewrite N8. apply (fetch_ok _ _ _ HF).
    + unfold Charged in *. simpl. rewrite Hb, N7. done.
    + split; try done; simpl.
      * destruct S1 as [H1 H2 H3 H4]. split; try done; simpl; [by rewrite N9|by rewrite N2].
      * destruct S2 as [E1 E2]. split; simpl; [by rewrite N1|by rewrite N2].
  - set (g := set_budget (budget (calm (open a) (set_budget b f))) a). exists g. split.
    + split; try done. intros id n Hn. by exists n.
    + destruct (abs_rest _ _ _ HF) as (A1&A2&A3&A4&A5&A6&A7&_). split; simpl; congruence.
Qed.

End Inv.
