(* ===== verification/HoldSteps.v ===== *)
(** * The steps keep the invariant

    One lemma per kind of step of [Hold]: what the call that takes it holds
    before and after, and what becomes of the calm state. [own] is the general
    one for the holder of a file's mutex, who alone changes the buffer and, in a
    hold of mu, the inode. *)

From Stdlib Require Import Bool.
From stdpp Require Import sorting.
From S2P Require Import Prelude Prog Vfs Fsm Modes Policy Inode ChunkCache Budget Store FsState Tree Namespace.
From S2P Require Import NamespaceInv Drops Effects Data DataSpec FileSpec DataInv ReadDir Commit WritePath Durable.
From S2P Require Import CommitSpec SyncSpec Whole System Locks Hold HoldInv.

Section Steps.
Context {Cd : Codec} {W : Type} {St : Store W} {Vw : StoreView W} {Lw : StoreLaws W}
  {Dg : Digest} {Hx : HexDigest} {Ro : RunOrder} {P : Policy} {TC : TypeChecked P}.
Context (K : conf).
Abbreviation shared := (shared W).
Abbreviation J := (J K).
Abbreviation Files := (Files K).

Lemma phaseOK_frame (s s' : shared) a a' id o ph :
  inodes (mem s') !! id = inodes (mem s) !! id -> (alive s id -> open a' !! id = open a !! id) ->
  phaseOK s a id o ph -> phaseOK s' a' id o ph.
Proof using Type.
  intros Ei Eo. assert (Hal : alive s' id <-> alive s id) by (unfold alive; by rewrite Ei).
  destruct ph; simpl; rewrite ?Ei.
  - intros (H1&H2&H3). split; [done|]. split; [intros Ha%Hal; rewrite Eo by done; by apply H2|by rewrite Hal].
  - intros (H1&H2&H3&H4). split; [done|]. split; [done|]. split; [|by rewrite Hal]. intros n Hn.
    rewrite Eo by (unfold alive; eauto). by apply H3.
  - intros (H1&H2&H3&H4). split; [done|]. split; [done|]. split; [|by rewrite Hal]. intros m Hn.
    rewrite Eo by (unfold alive; eauto). by apply H3.
  - intros (H1&H2&H3). split; [done|]. split; [done|]. intros m Hn. rewrite Eo by (unfold alive; eauto). by apply H3.
  - intros (H1&H2&H3&H4). split; [done|]. split; [done|]. split; [intros Ha%Hal; rewrite Eo by done; by apply H3|by rewrite Hal].
  - intros (H1&H2). split; [done|]. intros Ha%Hal. rewrite Eo by done. by apply H2.
Qed.

(** The state after the step of the holder of [p], for [id]. *)
Record owned (s s' : shared) (a a' : FS) (C : list ghost) (c c' : ghost) (id : Z) (p : nat) (cl' : cell) : Prop := {
  on_heap : heap s' = <[p := cl']> (heap s);
  on_tab : tab s' = tab s;
  on_cf : cf (mem s') = cf (mem s);
  on_next : nextIno (mem s') = nextIno (mem s);
  on_bare : open (mem s') = ∅;
  on_others : forall j, j ≠ id -> inodes (mem s') !! j = inodes (mem s) !! j;
  on_alive : alive s' id <-> alive s id;
  on_gen : forall n', inodes (mem s') !! id = Some n' -> exists n, inodes (mem s) !! id = Some n /\ iGen n' = iGen n;
  on_abs : a' = calm (open a') (mem s');
  on_open : forall j, j ≠ id -> open a' !! j = open a !! j;
  on_entry : is_Some (open a' !! id) <-> is_Some (open a !! id);
  on_good : good a';
  on_settled : forall n, inodes (mem s') !! id = Some n -> settled K n (bufOf a' id);
  on_cell : match gFile c' with
            | Some (id', p', ph) => id' = id /\ p' = p /\ phaseOK s' a' id (cOf cl') ph /\ cHeld cl' = true
            | None => resting s' a' p (cOf cl') /\ cHeld cl' = false
            end;
  on_dead : ~ alive s' id -> tab s !! id = Some p -> ofUnsettled (cOf cl') = false;
  on_ptrs : forall ip, ip ∈ gPtrs c' -> ip ∈ gPtrs c;
  on_name : gNames c' = gNames c;
  on_watch : gWatch c' = gWatch c /\ gGate c' = gGate c;
  on_marks : forall o, open a' !! id = Some o -> ofUnsettled o = true ->
    (exists o0, open a !! id = Some o0 /\ ofUnsettled o0 = true) \/ (forall t d, C !! t = Some d -> gWatch d = None)
}.

Lemma own (s s' : shared) a a' C t c c' id p cl cl' :
  Files s C a -> C !! t = Some c -> pointer s id p -> heap s !! p = Some cl ->
  (forall t' d j ph, t' ≠ t -> C !! t' = Some d -> gFile d ≠ Some (j, p, ph)) ->
  owned s s' a a' C c c' id p cl' -> Files s' (<[t := c']> C) a'.
Proof using Type.
  intros HF Ht Hpt Hcl Hothers [O1 O2 O3 O4 O5 O6 O7 Og O8 O9 O10 O11 O12 O13 O14 O15 On [O16 O16'] O17].
  pose proof (fi_inj _ _ _ _ HF) as Hinj. destruct HF as [F1 F2 F3 F4 F5 F6 F7 F8 F9 F10 F11 F12 F13 F14].
  assert (Hal : forall j, alive s' j <-> alive s j).
  { intros j. destruct (decide (j = id)) as [->|Hne]; [done|]. unfold alive. by rewrite O6. }
  assert (Hpoint : forall j q, pointer s j q -> pointer s' j q).
  { intros j q [P1 P2 P3 P4]. split; rewrite ?O2, ?O4; try done; [rewrite O1, lookup_insert; case_decide; eauto|by rewrite Hal]. }
  assert (Hsep : forall j q, q ≠ p -> alive s j -> pointer s j q \/ tab s !! j = Some q -> j ≠ id).
  { intros j q Hq Ha Hj ->. assert (tab s !! id = Some q) by (destruct Hj as [Hj|Hj]; [exact (pt_tab _ _ _ Hj Ha)|exact Hj]).
    pose proof (pt_tab _ _ _ Hpt Ha). congruence. }
  split; rewrite ?O2, ?O4, ?O3; try done.
  - intros j n Hn. destruct (decide (j = id)) as [->|Hne]; [by apply O12|]. rewrite O6 in Hn by done.
    unfold bufOf. rewrite O9 by done. by apply F5.
  - intros j. rewrite Hal. destruct (decide (j = id)) as [->|Hne]; [by rewrite O10|by rewrite O9].
  - intros j q Hq. destruct (F7 j q Hq). split; [|done]. rewrite O1, lookup_insert. case_decide; eauto.
  - intros j q d Hq. rewrite O1, lookup_insert, Hal. case_decide as E; [|by eapply F9]. subst q. intros [= <-] Hd.
    assert (j = id) as -> by (by apply (pt_only _ _ _ Hpt)). apply O14; [by rewrite O7|done].
  - intros q d. rewrite O1, lookup_insert. case_decide as E.
    + subst q. intros [= <-] Hh. destruct (gFile c') as [[[id' p'] ph]|]; [destruct O13 as (_&_&_&?); congruence|apply O13].
    + intros Hq Hh. destruct (F10 q d Hq Hh) as [R1 R2]. split; rewrite O2.
      * intros j Hj Ha%Hal. rewrite O9 by (eapply (Hsep j q); eauto). by apply R1.
      * intros H. apply R2. intros j Hj. rewrite <- Hal. by apply H.
  - intros t' d j q ph Hd Hf. apply lookup_insert_cases in Hd as [[-> ->]|[Hne Hd]].
    + rewrite Hf in O13. destruct O13 as (->&->&Hph&_). split; [by apply Hpoint|]. exists cl'. split; [by rewrite O1, lookup_insert_eq|done].
    + destruct (F11 t' d j q ph Hd Hf) as (Hq&cl1&Hcl1&Hph).
      assert (q ≠ p) as Hqp by (intros ->; by eapply Hothers). split; [by apply Hpoint|]. exists cl1.
      split; [by rewrite O1, lookup_insert_ne|]. destruct (decide (j = id)) as [->|Hji].
      * assert (Hdead : ~ alive s id) by (intros Ha; exact (Hsep id q Hqp Ha (or_introl Hq) eq_refl)).
        assert (inodes (mem s) !! id = None) as E1 by (by apply eq_None_not_Some).
        assert (inodes (mem s') !! id = None) as E2 by (apply eq_None_not_Some; by rewrite <- O7 in Hdead).
        apply (phaseOK_frame s s' a a'); [by rewrite E1, E2|intros Ha; by destruct (Hdead Ha)|done].
      * apply (phaseOK_frame s s' a a'); [by rewrite O6|by rewrite O9|done].
  - intros t' d j q Hd Hin. apply Hpoint. apply lookup_insert_cases in Hd as [[-> ->]|[_ Hd]]; [|by eapply F12]. by eapply F12, O15.
  - intros t' d j g Hd Hg.
    assert (Hn : named s j g) by (apply lookup_insert_cases in Hd as [[-> ->]|[_ Hd]]; [rewrite On in Hg|]; by eapply F13).
    destruct Hn as [N1 N2]. split; [by rewrite O4|]. intros n Hj. destruct (decide (j = id)) as [->|Hne]; [|apply N2; by rewrite <- O6].
    destruct (Og n Hj) as (n0&H0&->). by apply N2.
  - intros t' d X Hd HX. assert (Hd' : exists d0, C !! t' = Some d0 /\ gWatch d0 = Some X /\ gGate d = gGate d0).
    { apply lookup_insert_cases in Hd as [[-> ->]|[_ Hd]]; [exists c; split; [done|]; split; congruence|by exists d]. }
    destruct Hd' as (d0&Hd0&HX0&Hg). destruct (F14 t' d0 X Hd0 HX0) as [G1 G2]. split; [congruence|].
    intros j o Ho Hu. destruct (decide (j = id)) as [->|Hne].
    + destruct (O17 o Ho Hu) as [(o0&H0&Hu0)|Hno]; [by eapply G2|]. rewrite (Hno t' d0 Hd0) in HX0. done.
    + rewrite O9 in Ho by done. by eapply G2.
Qed.

(** Nobody else holds the mutex of a file. *)
Lemma mine_alone (s : shared) C a t c id p ph :
  J s C a -> C !! t = Some c -> gFile c = Some (id, p, ph) ->
  forall t' d j ph', t' ≠ t -> C !! t' = Some d -> gFile d ≠ Some (j, p, ph').
Proof using Type.
  intros [_ HL _ _ _] Ht Hf t' d j ph' Hne Hd Hd'. apply Hne.
  assert (H1 : (lockOf <$> C) !! t = Some (lockOf c)) by by rewrite list_lookup_fmap, Ht.
  assert (H2 : (lockOf <$> C) !! t' = Some (lockOf d)) by by rewrite list_lookup_fmap, Hd.
  pose proof (Locks_file_held _ _ _ _ _ _ HL t (lockOf c) H1 p ltac:(unfold lockOf; by rewrite Hf)) as Hp.
  apply (ow_one _ _ (lk_file _ _ _ _ _ _ HL p true Hp)); rewrite list_lookup_fmap; [rewrite H2|rewrite H1]; simpl;
    unfold hasFile, lockOf; simpl; [rewrite Hd'|rewrite Hf]; by rewrite bool_decide_eq_true_2.
Qed.

Lemma free_alone (s : shared) C a cl p :
  J s C a -> heap s !! p = Some cl -> cHeld cl = false -> forall t' d j ph', C !! t' = Some d -> gFile d ≠ Some (j, p, ph').
Proof using Type.
  intros [_ HL _ _ _] Hp Hh t' d j ph' Hd Hd'.
  assert (H2 : (lockOf <$> C) !! t' = Some (lockOf d)) by by rewrite list_lookup_fmap, Hd.
  pose proof (Locks_file_held _ _ _ _ _ _ HL t' (lockOf d) H2 p ltac:(unfold lockOf; by rewrite Hd')) as Hh'.
  rewrite lookup_fmap, Hp in Hh'. simpl in Hh'. congruence.
Qed.

(** The parts of [J] that a step of one call does not touch, but for the
    budget's charge. *)
Lemma J_step (s s' : shared) a a' C t c c' :
  J s C a -> C !! t = Some c -> Files s' (<[t := c']> C) a' ->
  Locks (cHeld <$> heap s') (commitMu s') (gateReaders s') (gateWaiting s') (gateWriter s') (lockOf <$> <[t := c']> C) ->
  Budget.charge (budget (mem s')) - Budget.charge (budget (mem s)) = heapSum (heap s') - heapSum (heap s) + (owed c' - owed c) ->
  Awaits (budget (mem s')) (wakes s') (gAwait <$> C) -> gAwait c' = gAwait c ->
  bucket s' = bucket s -> held (mem s') (bucket s) -> encodable (mem s') ->
  (forall ref, ref ∈ gMine c' -> ref ∈ gMine c) -> sealOK (bucket s) c' ->
  J s' (<[t := c']> C) a'.
Proof using Type.
  intros [_ HL HC HA [S1 S2 S3 S4]] Ht HF' HL' Hch Haw Hg Hb Hh He Hm Hs. split; try done.
  - unfold Charged in *. rewrite (tally_insert _ C t c) by done. lia.
  - by rewrite (fmap_insert_same gAwait C t c).
  - split; rewrite ?Hb; try done.
    + intros t' d ref Hd Hin. apply lookup_insert_cases in Hd as [[-> ->]|[_ Hd]]; [|by eapply S3]. by eapply S3, Hm.
    + intros t' d Hd. apply lookup_insert_cases in Hd as [[-> ->]|[_ Hd]]; [done|by eapply S4].
Qed.

(** ** The mutex of a file *)

(** A step that changes the buffer alone. *)
Lemma own_cell (s : shared) C a t c c' id p cl cl' :
  Files s C a -> C !! t = Some c -> pointer s id p -> heap s !! p = Some cl ->
  (forall t' d j ph, t' ≠ t -> C !! t' = Some d -> gFile d ≠ Some (j, p, ph)) ->
  match gFile c' with
  | Some (id', p', ph) => id' = id /\ p' = p /\ phaseOK s a id (cOf cl') ph /\ cHeld cl' = true
  | None => resting s a p (cOf cl') /\ cHeld cl' = false
  end ->
  (~ alive s id -> tab s !! id = Some p -> ofUnsettled (cOf cl') = false) ->
  (forall ip, ip ∈ gPtrs c' -> ip ∈ gPtrs c) -> gNames c' = gNames c -> gWatch c' = gWatch c /\ gGate c' = gGate c ->
  Files (set_heap (<[p := cl']> (heap s)) s) (<[t := c']> C) a.
Proof using Type.
  intros HF Ht Hpt Hcl Hal Hcell Hdead Hptrs Hnm Hw. eapply (own s _ a a C t c c' id p cl cl'); try done.
  pose proof HF as [F1 F2 F3 F4 F5 F6 F7 F8 F9 F10 F11 F12 F13 F14].
  split; try done; [by eauto|by apply F5| |by left; eauto].
  destruct (gFile c') as [[[id' p'] ph]|]; [destruct Hcell as (?&?&Hph&?); split_and!; try done; by apply (phaseOK_frame s _ a a)|].
  by destruct Hcell as [[R1 R2] ?].
Qed.

Lemma held_own (h : gmap nat cell) p cl cl' : h !! p = Some cl -> cHeld cl' = cHeld cl -> cHeld <$> <[p := cl']> h = cHeld <$> h.
Proof using Type. intros Hp Hc. rewrite fmap_insert, Hc. apply insert_id. by rewrite lookup_fmap, Hp. Qed.

Lemma J_lock (s : shared) C a t c id p cl :
  J s C a -> C !! t = Some c -> gFile c = None -> (id, p) ∈ gPtrs c -> heap s !! p = Some cl -> cHeld cl = false ->
  J (set_heap (<[p := mkCell (cOf cl) true]> (heap s)) s) (<[t := set_gFile (Some (id, p, Resting (cOf cl))) c]> C) a.
Proof using Type.
  intros HJ Ht Hf Hin Hp Hh. pose proof HJ as [HF HL HC HA HS]. pose proof (fi_ptrs _ _ _ _ HF t c id p Ht Hin) as Hpt.
  eapply (J_step s _ a a C t c); try done; [|simpl; rewrite fmap_insert; simpl| | | |apply (st_seal _ _ HS t c Ht)]; try apply HS.
  - eapply (own_cell s C a t c _ id p cl); try done.
    + intros t' d j ph _ Hd. by eapply (free_alone s C a cl p).
    + simpl. split; [done|]. split; [done|]. split; [|done]. destruct (fi_free _ _ _ _ HF p cl Hp Hh) as [R1 R2].
      split; [apply alike_refl|]. split; [intros Ha; apply R1; [by apply Hpt|done]|]. intros Hd. apply R2. intros j Hj.
      by rewrite (pt_only _ _ _ Hpt j Hj).
    + intros Hd Htab. by apply (fi_dead _ _ _ _ HF id p cl).
  - rewrite list_fmap_insert. apply (Locks_file_take _ _ _ _ _ _ HL t (lockOf c)).
    + by rewrite list_lookup_fmap, Ht.
    + by rewrite lookup_fmap, Hp, <- Hh.
    + unfold lockOf. by rewrite Hf.
  - simpl. rewrite heapSum_insert, Hp. unfold owed. rewrite Hf. simpl. lia.
Qed.

Lemma J_unlock (s : shared) C a t c id p o :
  J s C a -> C !! t = Some c -> gFile c = Some (id, p, Resting o) ->
  J (set_heap (alter (fun c => mkCell (cOf c) false) p (heap s)) s) (<[t := set_gFile None c]> C) a.
Proof using Type.
  intros HJ Ht Hf. pose proof HJ as [HF HL HC HA HS]. destruct (fi_hold _ _ _ _ HF t c id p _ Ht Hf) as (Hpt&cl&Hp&Hal&H1&H2).
  rewrite (alter_insert _ _ p cl Hp).
  eapply (J_step s _ a a C t c); try done; [|simpl; rewrite fmap_insert; simpl| | | |apply (st_seal _ _ HS t c Ht)]; try apply HS.
  - eapply (own_cell s C a t c _ id p cl); try done.
    + by eapply mine_alone.
    + simpl. split; [|done]. split.
      * intros j Hj Ha. rewrite (pt_only _ _ _ Hpt j Hj) in *. by apply H1.
      * intros Hd. apply H2. intros Ha. exact (Hd id (pt_tab _ _ _ Hpt Ha) Ha).
    + intros Hd Htab. by apply (fi_dead _ _ _ _ HF id p cl).
  - rewrite list_fmap_insert. apply (Locks_file_drop _ _ _ _ _ _ HL t (lockOf c)).
    + by rewrite list_lookup_fmap, Ht.
    + unfold lockOf. by rewrite Hf.
  - simpl. rewrite heapSum_insert, Hp. unfold owed. rewrite Hf. simpl. lia.
Qed.

(** What the holder finds in the heap. *)
Lemma hold_cell (s : shared) C a t c id p ph :
  J s C a -> C !! t = Some c -> gFile c = Some (id, p, ph) ->
  pointer s id p /\ exists cl, heap s !! p = Some cl /\ bufAt p s = cOf cl /\ cHeld cl = true /\ phaseOK s a id (cOf cl) ph.
Proof using Type.
  intros HJ Ht Hf. destruct (fi_hold _ _ _ _ (j_files _ _ _ _ HJ) t c id p ph Ht Hf) as (Hpt&cl&Hp&Hph). split; [done|]. exists cl.
  split; [done|]. split; [unfold bufAt; by rewrite Hp|]. split; [|done].
  pose proof (Locks_file_held _ _ _ _ _ _ (j_locks _ _ _ _ HJ) t (lockOf c) ltac:(by rewrite list_lookup_fmap, Ht) p ltac:(unfold lockOf; by rewrite Hf)) as Hh.
  rewrite lookup_fmap, Hp in Hh. by injection Hh.
Qed.

(** A step of the holder within the file: the buffer [o'] and the phase [ph'];
    the budget's charge moves by [d]. *)
Lemma J_hold (s s' : shared) C a a' t c id p ph cl o' ph' :
  J s C a -> C !! t = Some c -> gFile c = Some (id, p, ph) -> heap s !! p = Some cl -> cHeld cl = true ->
  owned s s' a a' C c (set_gFile (Some (id, p, ph')) c) id p (mkCell o' true) ->
  commitMu s' = commitMu s -> gateReaders s' = gateReaders s -> gateWaiting s' = gateWaiting s -> gateWriter s' = gateWriter s ->
  bucket s' = bucket s ->
  Budget.charge (budget (mem s')) - Budget.charge (budget (mem s)) =
    ofBytes o' - ofBytes (cOf cl) + (owed (set_gFile (Some (id, p, ph')) c) - owed c) ->
  Awaits (budget (mem s')) (wakes s') (gAwait <$> C) -> held (mem s') (bucket s) -> encodable (mem s') ->
  J s' (<[t := set_gFile (Some (id, p, ph')) c]> C) a'.
Proof using Type.
  intros HJ Ht Hf Hp Hh HO E1 E2 E3 E4 E5 Hch Haw Hhe Hen. pose proof HJ as [HF HL HC HA HS].
  eapply (J_step s s' a a' C t c); try done.
  - eapply own; try done; [by eapply (fi_hold _ _ _ _ HF)|by eapply mine_alone].
  - rewrite (on_heap _ _ _ _ _ _ _ _ _ _ HO), (held_own _ p cl) by done. rewrite E1, E2, E3, E4.
    rewrite (fmap_insert_same lockOf C t c); [done|done|]. unfold lockOf. simpl. by rewrite Hf.
  - rewrite (on_heap _ _ _ _ _ _ _ _ _ _ HO), heapSum_insert, Hp. simpl. lia.
  - apply (st_seal _ _ HS t c Ht).
Qed.

(** ... that changes only the buffer and the phase. *)
Lemma J_buf (s : shared) C a t c id p ph cl o' ph' :
  J s C a -> C !! t = Some c -> gFile c = Some (id, p, ph) -> heap s !! p = Some cl -> cHeld cl = true ->
  phaseOK s a id o' ph' -> (~ alive s id -> tab s !! id = Some p -> ofUnsettled o' = false) ->
  ofBytes o' - ofBytes (cOf cl) + (owed (set_gFile (Some (id, p, ph')) c) - owed c) = 0 ->
  J (set_heap (<[p := mkCell o' true]> (heap s)) s) (<[t := set_gFile (Some (id, p, ph')) c]> C) a.
Proof using Type.
  intros HJ Ht Hf Hp Hh Hph Hd Hch. pose proof HJ as [HF HL HC HA HS].
  pose proof HF as [F1 F2 F3 F4 F5 F6 F7 F8 F9 F10 F11 F12 F13 F14].
  eapply (J_hold s _ C a a t c id p ph cl o' ph'); try done; try apply HS; [|simpl; lia].
  split; try done; [by eauto|by apply F5|by left; eauto].
Qed.

(** ... or only the phase. *)
Lemma J_phase (s : shared) C a t c id p ph ph' :
  J s C a -> C !! t = Some c -> gFile c = Some (id, p, ph) ->
  (forall o, phaseOK s a id o ph -> phaseOK s a id o ph') -> owed (set_gFile (Some (id, p, ph')) c) = owed c ->
  J s (<[t := set_gFile (Some (id, p, ph')) c]> C) a.
Proof using Type.
  intros HJ Ht Hf Himp How. destruct (hold_cell s C a t c id p ph HJ Ht Hf) as (Hpt&cl&Hp&_&Hh&Hph).
  assert (Hs : set_heap (<[p := mkCell (cOf cl) true]> (heap s)) s = s).
  { unfold set_heap. rewrite insert_id; [by destruct s|]. rewrite Hp. destruct cl. simpl in *. by subst. }
  rewrite <- Hs. eapply J_buf; try done; [by apply Himp| |lia].
  intros Hd Htab. by apply (fi_dead _ _ _ _ (j_files _ _ _ _ HJ) id p cl).
Qed.

(** ** commitMu and the gate *)

(** A step on these alone. *)
Lemma J_locks (s s' : shared) C a t c c' :
  J s C a -> C !! t = Some c ->
  (mem s' = mem s /\ tab s' = tab s /\ heap s' = heap s /\ wakes s' = wakes s /\ bucket s' = bucket s) ->
  Locks (cHeld <$> heap s') (commitMu s') (gateReaders s') (gateWaiting s') (gateWriter s') (lockOf <$> <[t := c']> C) ->
  (gFile c' = gFile c /\ gPtrs c' = gPtrs c /\ gNames c' = gNames c /\ gMine c' = gMine c /\ gAwait c' = gAwait c) ->
  (forall X, gWatch c' = Some X -> gGate c' = GWriting /\ gWatch c = Some X) -> sealOK (bucket s) c' ->
  J s' (<[t := c']> C) a.
Proof using Type.
  intros HJ Ht (E1&E2&E3&E4&E5) HL' (G1&G2&Gn&G3&G4) Hw Hs. pose proof HJ as [HF HL HC HA HS].
  assert (HF' : Files s' C a).
  { eapply (Files_ext K s s' C a a); rewrite ?E1; try done; [apply HF|apply (fetch_ok K _ _ _ HF)|apply HF]. }
  eapply (J_step s s' a a C t c); rewrite ?E1, ?E3, ?E4; try done; try apply HS.
  - by eapply (Files_known K).
  - by rewrite <- E3.
  - unfold owed. rewrite G1. lia.
  - by rewrite G3.
Qed.

Lemma J_commit_take (s : shared) C a t c :
  J s C a -> C !! t = Some c -> commitMu s = false -> gGate c = GNone -> gWatch c = None -> gSeal c = None ->
  J (set_commitMu true s) (<[t := set_gCommit true c]> C) a.
Proof using Type.
  intros HJ Ht Hm Hg Hw Hs. eapply (J_locks s _ C a t c); try done; simpl; [|by rewrite Hw|unfold sealOK; simpl; by rewrite Hs].
  pose proof (j_locks _ _ _ _ HJ) as HL. rewrite list_fmap_insert. unfold lockOf at 1. simpl. rewrite Hg.
  apply (Locks_commit_take _ _ _ _ _ _ HL t (lockOf c)); [by rewrite list_lookup_fmap, Ht|done..].
Qed.

Lemma J_commit_drop (s : shared) C a t c :
  J s C a -> C !! t = Some c -> gCommit c = true -> gGate c = GNone -> gWatch c = None -> gSeal c = None ->
  J (set_commitMu false s) (<[t := set_gCommit false c]> C) a.
Proof using Type.
  intros HJ Ht Hm Hg Hw Hs. eapply (J_locks s _ C a t c); try done; simpl; [|by rewrite Hw|unfold sealOK; simpl; by rewrite Hs].
  pose proof (j_locks _ _ _ _ HJ) as HL. rewrite list_fmap_insert. unfold lockOf at 1. simpl. rewrite Hg.
  apply (Locks_commit_drop _ _ _ _ _ _ HL t (lockOf c)); [by rewrite list_lookup_fmap, Ht|done..].
Qed.

(** The gate: [g'] is the call's part in it afterwards. *)
Lemma J_gate (s : shared) C a t c g' r wt wr :
  J s C a -> C !! t = Some c -> gWatch c = None ->
  Locks (cHeld <$> heap s) (commitMu s) r wt wr (<[t := mkLockset (lsFile (lockOf c)) g' (gCommit c)]> (lockOf <$> C)) ->
  J (set_gate r wt wr s) (<[t := set_gGate g' c]> C) a.
Proof using Type.
  intros HJ Ht Hw HL. eapply (J_locks s _ C a t c); try done; simpl; [by rewrite list_fmap_insert|by rewrite Hw|].
  apply (st_seal _ _ (j_stored _ _ _ _ HJ) t c Ht).
Qed.

Lemma lock_at (C : list ghost) (t : nat) c : C !! t = Some c -> (lockOf <$> C) !! t = Some (lockOf c).
Proof using Type. intros Ht. by rewrite list_lookup_fmap, Ht. Qed.

Lemma J_share (s : shared) C a t c :
  J s C a -> C !! t = Some c -> gateWriter s || gateWaiting s = false -> gGate c = GNone -> gWatch c = None ->
  J (set_gate (gateReaders s + 1) false false s) (<[t := set_gGate GReading c]> C) a.
Proof using Type.
  intros HJ Ht [H1 H2]%orb_false_elim Hg Hw. apply J_gate; [done..|].
  by apply (Locks_share _ _ _ _ _ _ (j_locks _ _ _ _ HJ) t (lockOf c)); [apply lock_at|..].
Qed.

Lemma J_unshare (s : shared) C a t c :
  J s C a -> C !! t = Some c -> gGate c = GReading -> gWatch c = None ->
  J (set_gate (gateReaders s - 1) (gateWaiting s) (gateWriter s) s) (<[t := set_gGate GNone c]> C) a.
Proof using Type.
  intros HJ Ht Hg Hw. apply J_gate; [done..|].
  by apply (Locks_unshare _ _ _ _ _ _ (j_locks _ _ _ _ HJ) t (lockOf c)); [apply lock_at|..].
Qed.

Lemma J_announce (s : shared) C a t c :
  J s C a -> C !! t = Some c -> gateWriter s || gateWaiting s = false -> gGate c = GNone -> gCommit c = true -> gWatch c = None ->
  J (set_gate (gateReaders s) true false s) (<[t := set_gGate GWaiting c]> C) a.
Proof using Type.
  intros HJ Ht [H1 H2]%orb_false_elim Hg Hc Hw. apply J_gate; [done..|]. rewrite Hc, <- H1.
  by apply (Locks_announce _ _ _ _ _ _ (j_locks _ _ _ _ HJ) t (lockOf c)); [apply lock_at|..].
Qed.

Lemma J_acquire (s : shared) C a t c :
  J s C a -> C !! t = Some c -> gateReaders s = 0%nat -> gGate c = GWaiting -> gWatch c = None ->
  J (set_gate 0 false true s) (<[t := set_gGate GWriting c]> C) a.
Proof using Type.
  intros HJ Ht Hr Hg Hw. apply J_gate; [done..|].
  by apply (Locks_acquire _ _ _ _ _ _ (j_locks _ _ _ _ HJ) t (lockOf c)); [apply lock_at|..].
Qed.

Lemma J_vacate (s : shared) C a t c :
  J s C a -> C !! t = Some c -> gGate c = GWriting -> gWatch c = None ->
  J (set_gate (gateReaders s) (gateWaiting s) false s) (<[t := set_gGate GNone c]> C) a.
Proof using Type.
  intros HJ Ht Hg Hw. apply J_gate; [done..|].
  by apply (Locks_release _ _ _ _ _ _ (j_locks _ _ _ _ HJ) t (lockOf c)); [apply lock_at|..].
Qed.

(** While a call reads under the gate nobody watches. *)
Lemma reader_unwatched (s : shared) C a t c :
  J s C a -> C !! t = Some c -> gGate c = GReading -> forall t' d, C !! t' = Some d -> gWatch d = None.
Proof using Type.
  intros HJ Ht Hg t' d Hd. destruct (gWatch d) as [X|] eqn:EX; [|done]. exfalso.
  destruct (fi_watch _ _ _ _ (j_files _ _ _ _ HJ) t' d X Hd EX) as [Hw _].
  eapply (Locks_exclude _ _ _ _ _ _ t' (lockOf d) t (lockOf c) (j_locks _ _ _ _ HJ)); [by apply lock_at|done|by apply lock_at|done].
Qed.

End Steps.
