(* ===== verification/HoldFile.v ===== *)
(** * The steps of a write, a size change and a flush

    What the holder of openFile.mu does to the buffer, the budget and, in a hold
    of mu, the inode, phase by phase: each keeps the invariant, and the hold that
    publishes a write, cuts the file or repoints it is where the calm state
    moves. *)

From stdpp Require Import sorting.
From S2P Require Import Prelude Prog Vfs Fsm Modes Policy Inode ChunkCache Budget Store FsState Tree Namespace.
From S2P Require Import NamespaceInv Drops Effects Data DataSpec FileSpec DataInv ReadDir Commit WritePath Durable.
From S2P Require Import CommitSpec SyncSpec Whole System Locks Hold HoldInv HoldSteps.

Section File.
Context {Cd : Codec} {W : Type} {St : Store W} {Vw : StoreView W} {Lw : StoreLaws W}
  {Dg : Digest} {Hx : HexDigest} {Ro : RunOrder} {P : Policy} {TC : TypeChecked P}.
Context (K : conf).
Abbreviation shared := (shared W).
Abbreviation J := (J K).
Abbreviation Files := (Files K).

Lemma onBuf_insert p g (s : shared) cl :
  heap s !! p = Some cl -> onBuf p g s = set_heap (<[p := mkCell (g (cOf cl)) (cHeld cl)]> (heap s)) s.
Proof using Type. intros Hp. unfold onBuf. by rewrite (alter_insert _ _ p cl Hp). Qed.

(** ** Steps within the buffer *)

(** The charge moves too, and the waiters may be woken. *)
Lemma J_pay (s : shared) C a t c id p ph cl o' ph' v wk :
  J s C a -> C !! t = Some c -> gFile c = Some (id, p, ph) -> heap s !! p = Some cl -> cHeld cl = true ->
  phaseOK s a id o' ph' -> (~ alive s id -> tab s !! id = Some p -> ofUnsettled o' = false) ->
  v - Budget.charge (budget (mem s)) = ofBytes o' - ofBytes (cOf cl) + (owed (set_gFile (Some (id, p, ph')) c) - owed c) ->
  wk = wakes s \/ wk = wakes s + 1 ->
  J (set_wakes wk (onMem (fun f => set_budget (Budget.set_charge v (budget f)) f) (set_heap (<[p := mkCell o' true]> (heap s)) s)))
    (<[t := set_gFile (Some (id, p, ph')) c]> C) a.
Proof using Type.
  intros HJ Ht Hf Hp Hh Hph Hd Hch Hwk. pose proof HJ as [HF HL HC HA HS].
  pose proof HF as [F1 F2 F3 F4 F5 F6 F7 F8 F9 F10 F11 F12 F13 F14].
  eapply (J_hold K s _ C a a t c id p ph cl o' ph'); try done; simpl.
  - split; try done; [by eauto|by apply F5|by left; eauto].
  - destruct Hwk as [-> | ->]; [by apply Awaits_charge|]. apply Awaits_broadcast. by apply Awaits_charge.
  - destruct (st_held _ _ HS). by split.
  - apply HS.
Qed.

(** The holder's own change of the buffer. *)
Lemma J_own (s : shared) C a t c id p ph g ph' :
  J s C a -> C !! t = Some c -> gFile c = Some (id, p, ph) ->
  (forall o, phaseOK s a id o ph -> phaseOK s a id (g o) ph' /\ (ofUnsettled o = false -> ofUnsettled (g o) = false) /\
     ofBytes (g o) - ofBytes o + (owed (set_gFile (Some (id, p, ph')) c) - owed c) = 0) ->
  J (onBuf p g s) (<[t := set_gFile (Some (id, p, ph')) c]> C) a.
Proof using Type.
  intros HJ Ht Hf Hg. destruct (hold_cell K s C a t c id p ph HJ Ht Hf) as (Hpt&cl&Hp&_&Hh&Hph).
  rewrite (onBuf_insert p g s cl Hp), Hh. destruct (Hg _ Hph) as (H1&H2&H3). eapply (J_buf K); try done.
  intros Hd Htab. by apply H2, (fi_dead _ _ _ _ (j_files _ _ _ _ HJ) id p cl).
Qed.

Lemma owed_at c id p ph : owed (set_gFile (Some (id, p, ph)) c) = match ph with Owing _ _ _ n | Freeing n => n | _ => 0 end.
Proof using Type. by destruct ph. Qed.

Lemma owed_of c id p ph : gFile c = Some (id, p, ph) -> owed c = match ph with Owing _ _ _ n | Freeing n => n | _ => 0 end.
Proof using Type. unfold owed. intros ->. by destruct ph. Qed.

(** ** Buffering a write *)

Lemma J_begin (s : shared) C a t c id p o refs :
  J s C a -> C !! t = Some c -> gFile c = Some (id, p, Resting o) ->
  (forall n, inodes (mem s) !! id = Some n -> iChunks n = refs) ->
  J s (<[t := set_gFile (Some (id, p, Filling o refs o)) c]> C) a.
Proof using Type.
  intros HJ Ht Hf Hr. eapply (J_phase K); [done..| |by rewrite owed_at, (owed_of _ _ _ _ Hf)].
  intros u (H1&H2&H3). split; [done|]. split; [done|]. split; [|done]. intros n Hn. split; [by apply Hr|].
  exists u. split; [|done]. apply H2. unfold alive. eauto.
Qed.

Lemma J_fill (s : shared) C a t c id p o0 refs o idx b :
  J s C a -> C !! t = Some c -> gFile c = Some (id, p, Filling o0 refs o) ->
  J (onBuf p (fun o => stored o idx b) s) (<[t := set_gFile (Some (id, p, Filling o0 refs (stored o idx b))) c]> C) a.
Proof using Type.
  intros HJ Ht Hf. eapply J_own; [done..|]. intros u ((A1&A2&A3)&H2&H3&H4). rewrite owed_at, (owed_of _ _ _ _ Hf).
  split; [|split; [done|simpl; lia]]. split; [|done]. unfold alike, stored. simpl. by rewrite A1, A2, A3.
Qed.

(** A move of the charge alone. *)
Lemma J_charge (s : shared) C a t c id p ph ph' v wk :
  J s C a -> C !! t = Some c -> gFile c = Some (id, p, ph) -> (forall o, phaseOK s a id o ph -> phaseOK s a id o ph') ->
  v - Budget.charge (budget (mem s)) = owed (set_gFile (Some (id, p, ph')) c) - owed c -> wk = wakes s \/ wk = wakes s + 1 ->
  J (set_wakes wk (onMem (fun f => set_budget (Budget.set_charge v (budget f)) f) s)) (<[t := set_gFile (Some (id, p, ph')) c]> C) a.
Proof using Type.
  intros HJ Ht Hf Himp Hv Hwk. destruct (hold_cell K s C a t c id p _ HJ Ht Hf) as (Hpt&cl&Hp&_&Hh&Hph).
  assert (Hs : set_heap (<[p := mkCell (cOf cl) true]> (heap s)) s = s).
  { unfold set_heap. rewrite insert_id; [by destruct s|]. rewrite Hp. destruct cl. simpl in *. by subst. }
  pose proof (J_pay s C a t c id p _ cl (cOf cl) ph' v wk HJ Ht Hf Hp Hh) as H.
  rewrite Hs in H. apply H; [by apply Himp| |lia|done].
  intros Hd Htab. by apply (fi_dead _ _ _ _ (j_files _ _ _ _ HJ) id p cl).
Qed.

Lemma J_owe (s : shared) C a t c id p o0 refs o n :
  J s C a -> C !! t = Some c -> gFile c = Some (id, p, Filling o0 refs o) ->
  J (onMem (fun f => set_budget (Budget.add n (budget f)) f) s) (<[t := set_gFile (Some (id, p, Owing o0 refs o n)) c]> C) a.
Proof using Type.
  intros HJ Ht Hf. refine (J_charge s C a t c id p _ (Owing o0 refs o n) (Budget.charge (budget (mem s)) + n) (wakes s) HJ Ht Hf _ _ _);
    [done|rewrite owed_at, (owed_of _ _ _ _ Hf); lia|by left].
Qed.

Lemma J_paid (s : shared) C a t c id p o0 refs o n :
  J s C a -> C !! t = Some c -> gFile c = Some (id, p, Owing o0 refs o n) ->
  J (onBuf p (fun o => set_ofBytes (ofBytes o + n) o) s) (<[t := set_gFile (Some (id, p, Paid o0 refs o n)) c]> C) a.
Proof using Type.
  intros HJ Ht Hf. eapply J_own; [done..|]. intros u (H1&H2&H3&H4). rewrite owed_at, (owed_of _ _ _ _ Hf).
  split; [|split; [done|simpl; lia]]. split; [done|]. split; [done|]. intros m Hm. destruct (H3 m Hm) as (H5&v&H6&H7&H8).
  split; [done|]. exists v. split; [done|]. split; [done|]. simpl. lia.
Qed.

(** A write that charges nothing goes on at once. *)
Lemma J_free (s : shared) C a t c id p o0 refs o :
  J s C a -> C !! t = Some c -> gFile c = Some (id, p, Filling o0 refs o) ->
  J s (<[t := set_gFile (Some (id, p, Paid o0 refs o 0)) c]> C) a.
Proof using Type.
  intros HJ Ht Hf. eapply (J_phase K); [done..| |by rewrite owed_at, (owed_of _ _ _ _ Hf)].
  intros u (H1&H2&H3&H4). split; [done|]. split; [done|]. intros m Hm. destruct (H3 m Hm) as (H5&v&H6&H7&H8).
  split; [done|]. exists v. split; [done|]. split; [done|]. lia.
Qed.

(** ** Holds of mu that change the inode *)

(** The state after such a hold: the inode [n'], the buffer [o'] in the heap and
    the charge [v]. *)
Record moved (s s' : shared) (id : Z) (p : nat) (n' : inode) (o' : openFile) (v : Z) : Prop := {
  mv_inodes : inodes (mem s') = <[id := n']> (inodes (mem s));
  mv_conf : cf (mem s') = cf (mem s) /\ mode (mem s') = mode (mem s) /\ nextIno (mem s') = nextIno (mem s) /\ fsid (mem s') = fsid (mem s);
  mv_chunks : cache (mem s') = cache (mem s) /\ knownChunks (mem s') = knownChunks (mem s) /\ bucket s' = bucket s;
  mv_bare : open (mem s') = open (mem s);
  mv_budget : budget (mem s') = Budget.set_charge v (budget (mem s));
  mv_heap : heap s' = <[p := mkCell o' true]> (heap s);
  mv_tab : tab s' = tab s;
  mv_locks : commitMu s' = commitMu s /\ gateReaders s' = gateReaders s /\ gateWaiting s' = gateWaiting s /\ gateWriter s' = gateWriter s;
  mv_wakes : wakes s' = wakes s \/ wakes s' = wakes s + 1
}.

(** What the calm state of the file becomes: the inode [n'] with the buffer [u]. *)
Record renewed (w : W) (n n' : inode) (u : openFile) : Prop := {
  rn_skel : skel n' = skel n;
  rn_gen : iGen n' = iGen n;
  rn_text : iTarget n' = iTarget n;
  rn_file : fileOK (chunkSize K) n' u;
  rn_settled : settled K n' u;
  rn_stored : Forall (refStored w) (iChunks n')
}.

Lemma skel_entries n n' : skel n' = skel n -> iEntries n' = iEntries n.
Proof using Type. unfold skel. congruence. Qed.

Lemma moved_touches (s s' : shared) C a id p n n' o' u v :
  Files s C a -> inodes (mem s) !! id = Some n -> moved s s' id p n' o' v -> renewed (bucket s) n n' u ->
  let a' := calm (<[id := u]> (open a)) (mem s') in
  touches a a' id n' u (ofBytes u - ofBytes (bufOf a id)) /\ good a'.
Proof using Type.
  intros HF Hn [M1 (M2&M3&M4&M5) (M6&M7&_) M8 M9 _ _ _ _] [R1 R2 R3 R4 R5 R6] a'.
  destruct (abs_rest K _ _ _ HF) as (A1&A2&A3&A4&A5&A6&A7&A8).
  pose proof (fi_good _ _ _ _ HF) as [Hw Hd].
  assert (HT : touches a a' id n' u (ofBytes u - ofBytes (bufOf a id))).
  { split; simpl; try congruence. rewrite chargeSum_insert, (do_charge _ Hd). unfold bufOf. by destruct (open a !! id). }
  split; [done|]. eapply (touches_good a a' id n n'); try done; [congruence| |by rewrite (abs_cf K _ _ _ HF)].
  unfold cacheOK. simpl. rewrite M6. apply (fetch_ok K _ _ _ HF).
Qed.

Lemma J_move (s s' : shared) C a t c id p ph cl n n' o' u v ph' :
  J s C a -> C !! t = Some c -> gFile c = Some (id, p, ph) -> heap s !! p = Some cl -> cHeld cl = true ->
  inodes (mem s) !! id = Some n -> moved s s' id p n' o' v -> renewed (bucket s) n n' u ->
  let a' := calm (<[id := u]> (open a)) (mem s') in
  phaseOK s' a' id o' ph' ->
  v - Budget.charge (budget (mem s)) = ofBytes o' - ofBytes (cOf cl) + (owed (set_gFile (Some (id, p, ph')) c) - owed c) ->
  (ofUnsettled u = true -> (exists o, open a !! id = Some o /\ ofUnsettled o = true) \/ forall t d, C !! t = Some d -> gWatch d = None) ->
  J s' (<[t := set_gFile (Some (id, p, ph')) c]> C) a' /\ touches a a' id n' u (ofBytes u - ofBytes (bufOf a id)).
Proof using Type.
  intros HJ Ht Hf Hp Hh Hn HM HR a' Hph Hch Hmark. pose proof HJ as [HF HL HC HA HS].
  destruct (moved_touches s s' C a id p n n' o' u v HF Hn HM HR) as [HT Hgood]. split; [|done]. fold a' in HT, Hgood.
  assert (Hex : is_Some (open a !! id)).
  { apply (fi_dom _ _ _ _ HF). split; [unfold alive; eauto|]. exists p.
    apply (pt_tab _ _ _ (proj1 (fi_hold _ _ _ _ HF t c id p ph Ht Hf))). unfold alive. eauto. }
  destruct HM as [M1 (M2&M3&M4&M5) (M6&M7&M10) M8 M9 Mh Mt (L1&L2&L3&L4) Mw], HR as [R1 R2 R3 R4 R5 R6].
  eapply (J_hold K s s' C a a' t c id p ph cl o' ph'); try done.
  - split; try done; simpl.
    + rewrite M8. apply HF.
    + intros j Hj. by rewrite M1, lookup_insert_ne.
    + unfold alive. rewrite M1, lookup_insert_eq, Hn. split; eauto.
    + intros m. rewrite M1, lookup_insert_eq. intros [= <-]. eauto.
    + intros j Hj. by rewrite lookup_insert_ne.
    + rewrite lookup_insert_eq. split; eauto.
    + intros m. rewrite M1, lookup_insert_eq. intros [= <-]. unfold bufOf. simpl. by rewrite lookup_insert_eq.
    + intros Hdead _. destruct Hdead. unfold alive. rewrite M1, lookup_insert_eq. eauto.
    + intros o. rewrite lookup_insert_eq. intros [= <-]. apply Hmark.
  - rewrite M9. simpl. done.
  - rewrite M9. destruct Mw as [-> | ->]; [by apply Awaits_charge|]. apply Awaits_broadcast. by apply Awaits_charge.
  - destruct (st_held _ _ HS) as [H1 H2 H3 H4]. split; try done; [by rewrite M7|]. rewrite M1. intros j m. rewrite lookup_insert.
    case_decide; [|apply H4]. by intros [= <-].
  - destruct (st_text _ _ HS) as [E1 E2]. split; [by rewrite M2|]. intros j m. rewrite M1, lookup_insert.
    case_decide; [|apply E2]. intros [= <-]. rewrite (skel_entries _ _ R1), R3. by eapply E2.
Qed.

(** ** The hold that publishes a write *)

(** What the loop made of the buffer [o0]: the first [k] bytes of [data] at
    [off] are in [o], which takes [charge] more. *)
Definition filled (refs : list chunkRef) (o0 o : openFile) (off : Z) (data : bytes) (k charge : Z) : Prop :=
  (0 < k /\ 0 <= off /\ off + blen data < 2 ^ 64) /\ advance (chunkSize K) refs off data o0 0 0 o k charge.

Lemma fileByte_alike cs refs o o' i : alike o o' -> fileByte cs refs o i = fileByte cs refs o' i.
Proof using Type. intros (H1&H2&_). unfold fileByte. by rewrite H1, H2. Qed.

Lemma bufOK_alike cs refs o o' : alike o o' -> bufOK cs refs o' -> bufOK cs refs o.
Proof using Type. intros (H1&H2&_) [B1 B2]. split; rewrite ?H1, ?H2; done. Qed.

Lemma J_publish (s : shared) C a t c id p o0 refs o charge h n off data k now :
  J s C a -> C !! t = Some c -> gFile c = Some (id, p, Paid o0 refs o charge) -> resolve (mem s) h = Ok (id, n) ->
  filled refs o0 o off data k charge ->
  exists a' o', J (publish h p off k now s) (<[t := set_gFile (Some (id, p, Resting o')) c]> C) a' /\ wrote a a' h off data k now.
Proof using Type.
  intros HJ Ht Hf Hr [(K1&K2&K3) [K4 B1 _ _ B2 [B3 _] B4]]. rewrite Z.sub_0_r in B3. rewrite Z.add_0_r in B4. destruct (hold_cell K s C a t c id p _ HJ Ht Hf) as (Hpt&cl&Hp&_&Hh&Hal&Hun&Hlive).
  pose proof (resolve_ok _ _ _ _ Hr) as (Hn&_&_). destruct (Hlive n Hn) as (Hrefs&u&Hu&Hu0&Hby). subst refs.
  pose proof (j_files _ _ _ _ HJ) as HF. destruct (abs_file K _ _ _ HF id n Hn) as [HfOK Hid]. pose proof (fi_settled _ _ _ _ HF id n Hn) as Hset.
  rewrite (abs_buf _ _ _ Hu) in HfOK, Hset.
  assert (Hend : u64 (off + k) = off + k) by (apply u64_id; unfold is_u64; lia).
  set (n' := touchA now (touchM now (set_iSize (Z.max (iSize n) (off + k)) n))).
  assert (Hn' : iChunks n' = iChunks n /\ iSize n' = Z.max (iSize n) (off + k) /\ skelFields n' = skelFields n).
  { done. }
  destruct Hn' as (N1&N2&N3). destruct (skelFields_skel n n' N3) as (N4&N5&_).
  assert (Hview : forall i, 0 <= i -> fileByte (chunkSize K) (iChunks n) (cOf cl) i =
    if decide (off <= i < off + k) then bget data (i - off) else fileByte (chunkSize K) (iChunks n) u i).
  { intros i Hi. rewrite (fileByte_alike _ _ _ _ i Hal), B4, (fileByte_alike _ _ _ _ i Hu0) by done. done. }
  assert (Hfile : fileOK (chunkSize K) n' (cOf cl)).
  { destruct HfOK as [O1 O2 O3 O4 O5 O6]. destruct (bufOK_alike _ _ _ _ Hal B1) as [D1 D2]. split; rewrite ?N1; try done.
    - rewrite N2. unfold is_u64 in *. lia.
    - rewrite Hby, O5, B3. destruct Hal as (->&_), Hu0 as (->&_). lia.
    - rewrite N2. intros i Hi. rewrite Hview by (unfold is_u64 in O1; lia). rewrite decide_False by lia. apply O6. lia. }
  assert (HM : moved s (publish h p off k now s) id p n' (cOf cl) (Budget.charge (budget (mem s)))).
  { assert (Hset_ : (if iSize n <? off + k then set_iSize (off + k) n else n) = set_iSize (Z.max (iSize n) (off + k)) n).
    { destruct (Z.ltb_spec (iSize n) (off + k)); [by rewrite Z.max_r by lia|rewrite Z.max_l by lia; by destruct n]. }
    unfold publish. rewrite Hr, Hend, Hset_. split; try done; simpl; try tauto.
    - by rewrite (alter_insert_at _ id n).
    - by destruct (budget (mem s)).
    - rewrite insert_id; [done|]. rewrite Hp. destruct cl. simpl in *. by subst. }
  assert (HR : renewed (bucket s) n n' (cOf cl)).
  { split; try done; [|rewrite N1; by apply (h_files _ _ (st_held _ _ (j_stored _ _ _ _ HJ)) id)].
    unfold settled in *. destruct Hal as (A1&A2&A3), Hu0 as (U1&U2&U3). rewrite A2, A3, Hun, <- U3, N1, N2. intros Hf0.
    destruct (Hset Hf0) as [H1 H2]. split; [apply B2; congruence|]. intros i Hi. apply H2. lia. }
  destruct (J_move s (publish h p off k now s) C a t c id p _ cl n n' (cOf cl) (cOf cl) _ (Resting (cOf cl)) HJ Ht Hf Hp Hh Hn HM HR) as [HJ' HT].
  - split; [apply alike_refl|]. split; [intros _; simpl; by rewrite lookup_insert_eq|]. intros Hd. destruct Hd.
    unfold alive. rewrite (mv_inodes _ _ _ _ _ _ _ HM), lookup_insert_eq. eauto.
  - rewrite owed_at, (owed_of _ _ _ _ Hf). lia.
  - intros Hu'. left. exists u. split; [done|]. destruct Hal as (_&_&A3), Hu0 as (_&_&U3). congruence.
  - eexists _, (cOf cl). split; [exact HJ'|]. split; [lia|]. exists id, n, (cOf cl), (ofBytes (cOf cl) - ofBytes (bufOf a id)).
    split; [by rewrite <- (abs_resolve K _ _ _ HF)|].
    fold n'. split; [done|]. rewrite (abs_cf K _ _ _ HF), N1, (abs_buf _ _ _ Hu). exact Hview.
Qed.

Lemma J_publish_gone (s : shared) C a t c id p o0 refs o charge h off k now e :
  J s C a -> C !! t = Some c -> gFile c = Some (id, p, Paid o0 refs o charge) -> resolve (mem s) h = Err e -> ~ alive s id ->
  exists o', J (publish h p off k now s) (<[t := set_gFile (Some (id, p, Resting o')) c]> C) a.
Proof using Type.
  intros HJ Ht Hf Hr Hd. destruct (hold_cell K s C a t c id p _ HJ Ht Hf) as (Hpt&cl&Hp&Hb&Hh&Hal&Hun&_).
  set (o' := set_ofDirty ∅ (set_ofBytes 0 (cOf cl))). exists o'. unfold publish. rewrite Hr, Hb. unfold releases.
  rewrite (onBuf_insert _ _ s cl Hp), Hh.
  eapply (J_pay s C a t c id p _ cl o' (Resting o')); try done; simpl.
  - intros _ Htab. by apply (fi_dead _ _ _ _ (j_files _ _ _ _ HJ) id p cl).
  - rewrite owed_at, (owed_of _ _ _ _ Hf). lia.
  - by right.
Qed.

(** ** Flushes *)

Definition trimmedOf (o : openFile) : list (Z * chunkRef) := map (fun i => (i, trimRef o i)) (ranged (dom (ofPendingTrim o))).
Definition uploadedOf (o : openFile) : list (Z * chunkRef) := map (fun i => (i, uploadRef o i)) (sortedIdxs (ofDirty o)).

Lemma flushed_alike cs o o' chunks : alike o o' -> flushedChunks cs o chunks = repoint cs (trimmedOf o') (uploadedOf o') chunks.
Proof using Type. intros (H1&H2&_). unfold flushedChunks, trimmedOf, uploadedOf, trimRef, uploadRef. by rewrite H1, H2. Qed.

Lemma same_contents a a' : sameFiles a a' -> sameContents a a'.
Proof using Type. intros Hs. exists a'. split; [done|apply nsSame_refl]. Qed.

(** The hold that repoints the file at its uploads. *)
Lemma J_repoint (s : shared) C a t c id p o :
  J s C a -> C !! t = Some c -> gFile c = Some (id, p, Resting o) ->
  (forall ir, ir ∈ trimmedOf o ++ uploadedOf o -> ir.2 ∈ gMine c) ->
  exists a' o', J (repointHold id p (trimmedOf o) (uploadedOf o) s) (<[t := set_gFile (Some (id, p, Emptying o')) c]> C) a' /\
    sameContents a a' /\ forall u, open a' !! id = Some u -> ofUnsettled u = false.
Proof using Type.
  intros HJ Ht Hf Hmine. destruct (hold_cell K s C a t c id p _ HJ Ht Hf) as (Hpt&cl&Hp&Hb&Hh&Hal&Hlive&Hdead).
  pose proof (j_files _ _ _ _ HJ) as HF. set (o' := set_ofUnsettled false (cOf cl)). unfold repointHold.
  destruct (inodes (mem s) !! id) as [n|] eqn:Hn.
  2:{ assert (Hd : ~ alive s id) by (unfold alive; rewrite Hn; by intros [? ?]). exists a, (set_ofUnsettled false o). split; [|split; [apply sameContents_refl|]].
      - eapply J_own; [done..|]. intros u (A&H2&H3). rewrite owed_at, (owed_of _ _ _ _ Hf). split; [|split; [done|simpl; lia]].
        destruct A as (A1&A2&A3). split; [done|]. split; [done|]. split; [by intros Ha|]. simpl. apply H3.
      - intros u Hu. destruct Hd. apply (fi_dom _ _ _ _ HF). eauto. }
  assert (Hopen : open a !! id = Some (cOf cl)) by (apply Hlive; unfold alive; eauto).
  destruct (abs_file K _ _ _ HF id n Hn) as [HfOK _]. rewrite (abs_buf _ _ _ Hopen) in HfOK.
  assert (Hcs : 0 < chunkSize K < 2 ^ 32) by (rewrite <- (abs_cf K _ _ _ HF); apply (fi_good _ _ _ _ HF)).
  destruct (flush_file_ok _ n (cOf cl) Hcs HfOK) as [Hnew Hbytes]. rewrite (flushed_alike _ _ o _ Hal) in Hnew, Hbytes.
  set (n' := set_iChunks _ n) in Hnew. set (s' := onBuf p _ _).
  assert (HM : moved s s' id p n' o' (Budget.charge (budget (mem s)))).
  { unfold s'. rewrite (onBuf_insert _ _ _ cl) by done. split; try done; simpl; try tauto.
    - rewrite (fi_conf _ _ _ _ HF). apply map_eq. intros j. rewrite lookup_alter, lookup_insert. case_decide as E; [|done]. subst j. by rewrite Hn.
    - by destruct (budget (mem s)).
    - by rewrite Hh. }
  assert (Hst : forall ir, ir ∈ trimmedOf o ++ uploadedOf o -> refStored (bucket s) ir.2).
  { intros ir Hir. by eapply (st_mine _ _ (j_stored _ _ _ _ HJ)), Hmine. }
  assert (HR : renewed (bucket s) n n' newOpenFile).
  { split; try done.
    - intros _. split; [done|]. apply (fo_end _ _ _ Hnew).
    - apply repoint_stored; [apply list.Forall_forall; intros ir Hir; apply Hst, elem_of_app; auto..|].
      by apply (h_files _ _ (st_held _ _ (j_stored _ _ _ _ HJ)) id). }
  destruct (J_move s s' C a t c id p _ cl n n' o' newOpenFile _ (Emptying o') HJ Ht Hf Hp Hh Hn HM HR) as [HJ' HT].
  - split; [apply alike_refl|]. split; [done|]. split; [intros _; simpl; by rewrite lookup_insert_eq|]. intros Hd. destruct Hd.
    unfold alive. rewrite (mv_inodes _ _ _ _ _ _ _ HM), lookup_insert_eq. eauto.
  - rewrite owed_at, (owed_of _ _ _ _ Hf). simpl. lia.
  - done.
  - eexists _, o'. split; [exact HJ'|]. split; [|intros u; simpl; rewrite lookup_insert_eq; by intros [= <-]].
    apply same_contents. apply (flushedTo_same _ _ id n); [by rewrite (abs_inodes K _ _ _ HF)|]. eexists n', _. split; [exact HT|].
    split; [done|]. split; [done|]. rewrite (abs_cf K _ _ _ HF), (abs_buf _ _ _ Hopen). exact Hbytes.
Qed.

(** Nothing is buffered: only the mark is cleared. *)
Lemma J_clear (s : shared) C a t c id p o :
  J s C a -> C !! t = Some c -> gFile c = Some (id, p, Resting o) -> ofDirty o = ∅ -> ofPendingTrim o = ∅ ->
  exists a' o', J (onBuf p (set_ofUnsettled false) s) (<[t := set_gFile (Some (id, p, Resting o')) c]> C) a' /\
    sameContents a a' /\ forall u, open a' !! id = Some u -> ofUnsettled u = false.
Proof using Type.
  intros HJ Ht Hf Hdirty Htrim. destruct (hold_cell K s C a t c id p _ HJ Ht Hf) as (Hpt&cl&Hp&Hb&Hh&Hal&Hlive&Hdead).
  pose proof (j_files _ _ _ _ HJ) as HF. set (o' := set_ofUnsettled false (cOf cl)). destruct Hal as (A1&A2&A3).
  destruct (inodes (mem s) !! id) as [n|] eqn:Hn.
  2:{ assert (Hd : ~ alive s id) by (unfold alive; rewrite Hn; by intros [? ?]). exists a, (set_ofUnsettled false o). split; [|split; [apply sameContents_refl|]].
      - eapply J_own; [done..|]. intros u ((B1&B2&B3)&H2&H3). rewrite owed_at, (owed_of _ _ _ _ Hf). split; [|split; [done|simpl; lia]].
        split; [done|]. split; [by intros Ha|]. simpl. apply H3.
      - intros u Hu. destruct Hd. apply (fi_dom _ _ _ _ HF). eauto. }
  assert (Hopen : open a !! id = Some (cOf cl)) by (apply Hlive; unfold alive; eauto).
  destruct (abs_file K _ _ _ HF id n Hn) as [HfOK _]. rewrite (abs_buf _ _ _ Hopen) in HfOK.
  assert (HM : moved s (onBuf p (set_ofUnsettled false) s) id p n o' (Budget.charge (budget (mem s)))).
  { rewrite (onBuf_insert _ _ _ cl) by done. split; try done; simpl; try tauto; [by rewrite insert_id|by destruct (budget (mem s))|by rewrite Hh]. }
  assert (HR : renewed (bucket s) n n o').
  { destruct HfOK as [O1 O2 O3 O4 O5 O6]. split; try done; [|by apply (h_files _ _ (st_held _ _ (j_stored _ _ _ _ HJ)) id)].
    intros _. simpl. split; [congruence|]. intros i Hi. rewrite <- (O6 i Hi). unfold fileByte. by rewrite A1, A2, Hdirty, Htrim. }
  destruct (J_move s _ C a t c id p _ cl n n o' o' _ (Resting o') HJ Ht Hf Hp Hh Hn HM HR) as [HJ' HT].
  - split; [apply alike_refl|]. split; [intros _; simpl; by rewrite lookup_insert_eq|]. intros Hd. destruct Hd. unfold alive. simpl. rewrite Hn. eauto.
  - rewrite owed_at, (owed_of _ _ _ _ Hf). simpl. lia.
  - done.
  - eexists _, o'. split; [exact HJ'|]. split; [|intros u; simpl; rewrite lookup_insert_eq; by intros [= <-]].
    apply same_contents. destruct HT as [T1 T2 T3 T4 T5 T6 T7].
    assert (Hi : inodes (calm (<[id:=o']> (open a)) (mem (onBuf p (set_ofUnsettled false) s))) = inodes a) by (by rewrite (abs_inodes K _ _ _ HF)).
    split; try done; rewrite ?Hi; [done|]. intros j m Hm. exists m. split; [done|]. split; [done|]. split; [done|]. intros i _.
    unfold contentAt. rewrite T1. unfold bufOf. rewrite T6, lookup_insert. case_decide; [subst; by rewrite Hopen|done].
Qed.

Lemma J_reset (s : shared) C a t c id p o :
  J s C a -> C !! t = Some c -> gFile c = Some (id, p, Emptying o) ->
  J (onBuf p (fun o => set_ofPendingTrim ∅ (set_ofDirty ∅ o)) s)
    (<[t := set_gFile (Some (id, p, Emptying (set_ofPendingTrim ∅ (set_ofDirty ∅ o)))) c]> C) a.
Proof using Type.
  intros HJ Ht Hf. eapply J_own; [done..|]. intros u ((A1&A2&A3)&H2&H3&H4). rewrite owed_at, (owed_of _ _ _ _ Hf).
  split; [|split; [done|simpl; lia]]. by split.
Qed.

Lemma J_swap (s : shared) C a t c id p o :
  J s C a -> C !! t = Some c -> gFile c = Some (id, p, Emptying o) -> ofDirty o = ∅ -> ofPendingTrim o = ∅ ->
  J (onBuf p (set_ofBytes 0) s) (<[t := set_gFile (Some (id, p, Freeing (ofBytes (bufAt p s)))) c]> C) a.
Proof using Type.
  intros HJ Ht Hf Hd Htr. destruct (hold_cell K s C a t c id p _ HJ Ht Hf) as (Hpt&cl&Hp&Hb&Hh&(A1&A2&A3)&H2&H3&H4).
  rewrite (onBuf_insert _ _ _ cl Hp), Hh. eapply (J_buf K); try done.
  - split; [|done]. unfold set_ofBytes. by rewrite A1, A2, A3, Hd, Htr, H2.
  - intros _ _. simpl. congruence.
  - rewrite owed_at, (owed_of _ _ _ _ Hf), Hb. simpl. lia.
Qed.

Lemma J_release (s : shared) C a t c id p n :
  J s C a -> C !! t = Some c -> gFile c = Some (id, p, Freeing n) ->
  J (releases n s) (<[t := set_gFile (Some (id, p, Resting newOpenFile)) c]> C) a.
Proof using Type.
  intros HJ Ht Hf. refine (J_charge s C a t c id p _ (Resting newOpenFile) (Budget.charge (budget (mem s)) - n) (wakes s + 1) HJ Ht Hf _ _ _).
  - intros u [-> H2]. done.
  - rewrite owed_at, (owed_of _ _ _ _ Hf). lia.
  - by right.
Qed.

(** [dropIfGone]. *)
Lemma J_drop (s : shared) C a t c id p o :
  J s C a -> C !! t = Some c -> gFile c = Some (id, p, Resting o) ->
  exists o', J (dropHold id p s) (<[t := set_gFile (Some (id, p, Resting o')) c]> C) a.
Proof using Type.
  intros HJ Ht Hf. destruct (hold_cell K s C a t c id p _ HJ Ht Hf) as (Hpt&cl&Hp&Hb&Hh&Hal&H1&H2).
  unfold dropHold. destruct (inodes (mem s) !! id) as [n|] eqn:En.
  { exists o. eapply (J_phase K); [done..|]. by rewrite owed_at, (owed_of _ _ _ _ Hf). }
  assert (Hd : ~ alive s id) by (unfold alive; rewrite En; by intros [? ?]).
  set (o' := mkOpen ∅ ∅ 0 (ofUnsettled (cOf cl))). exists o'. rewrite Hb. unfold releases. rewrite (onBuf_insert _ _ s cl Hp), Hh.
  eapply (J_pay s C a t c id p _ cl o' (Resting o')); try done; simpl.
  - intros _ Htab. by apply (fi_dead _ _ _ _ (j_files _ _ _ _ HJ) id p cl).
  - rewrite owed_at, (owed_of _ _ _ _ Hf). lia.
  - by right.
Qed.

(** ** Size changes *)

Lemma resize_inode cs size n o : exists chunks, (resize cs size n o).1.1 = set_iSize size (set_iChunks chunks n).
Proof using Type. unfold resize. destruct (cutDirty _ _ _). by eexists. Qed.

Lemma settled_contents n n' u : iChunks n' = iChunks n -> iSize n' = iSize n -> settled K n u -> settled K n' u.
Proof using Type. unfold settled. by intros -> ->. Qed.

(** A size change is kept out of the commit phase by the gate, so that the mark
    it sets is not one the phase has to clear. *)
Lemma J_cut (s : shared) C a t c id p o who h sa size now n :
  J s C a -> C !! t = Some c -> gFile c = Some (id, p, Resting o) -> gGate c = GReading -> is_u64 size ->
  resolve (mem s) h = Ok (id, n) -> setAttrRequests who n sa = None ->
  exists at_ s' a' o', cutHold who h p sa size now s = (Ok at_, s') /\
    J s' (<[t := set_gFile (Some (id, p, Resting o')) c]> C) a' /\ resized a a' who h sa size now at_.
Proof using Type.
  intros HJ Ht Hf Hg Hsize Hr Hreq. destruct (hold_cell K s C a t c id p _ HJ Ht Hf) as (Hpt&cl&Hp&Hb&Hh&Hal&Hlive&_).
  pose proof (resolve_ok _ _ _ _ Hr) as (Hn&_&_). pose proof (j_files _ _ _ _ HJ) as HF.
  assert (Hopen : open a !! id = Some (cOf cl)) by (apply Hlive; unfold alive; eauto).
  destruct (abs_file K _ _ _ HF id n Hn) as [HfOK _]. pose proof (fi_settled _ _ _ _ HF id n Hn) as Hset.
  rewrite (abs_buf _ _ _ Hopen) in HfOK, Hset.
  assert (Hcs : 0 < chunkSize K < 2 ^ 32) by (rewrite <- (abs_cf K _ _ _ HF); apply (fi_good _ _ _ _ HF)).
  pose proof (resize_ok (chunkSize K) size n (cOf cl) Hcs Hsize HfOK) as Hok.
  pose proof (resize_settled (chunkSize K) size n (cOf cl) Hcs Hsize HfOK) as Hst.
  pose proof (resize_chunks (chunkSize K) size n (cOf cl)) as Hch.
  unfold cutHold. rewrite Hr, Hreq, Hb, (fi_conf _ _ _ _ HF).
  destruct (resize_inode (chunkSize K) size n (cOf cl)) as [chunks Hn1].
  destruct (resize (chunkSize K) size n (cOf cl)) as [[n1 o1] freed]. simpl in Hch, Hn1. destruct Hok as (R1&R2&R3&R4&R5&R6).
  destruct (applySetAttr_contents (touchM now n1) sa now) as (S1&S2&S3). destruct (applySetAttr_same (touchM now n1) sa now) as (S4&S5&_).
  destruct (applySetAttr (touchM now n1) sa now) as [n2 chg] eqn:E2'. simpl in S1, S2, S3, S4, S5.
  destruct (skelFields_skel _ _ R3) as (T1&T2&_).
  set (s1 := if 0 <? freed then releases freed s else s).
  assert (Hs1 : mem s1 = set_budget (Budget.set_charge (Budget.charge (budget (mem s)) - freed) (budget (mem s))) (mem s) /\
    (wakes s1 = wakes s \/ wakes s1 = wakes s + 1) /\ (heap s1 = heap s /\ tab s1 = tab s /\ bucket s1 = bucket s) /\
    commitMu s1 = commitMu s /\ gateReaders s1 = gateReaders s /\ gateWaiting s1 = gateWaiting s /\ gateWriter s1 = gateWriter s).
  { unfold s1. destruct (Z.ltb_spec 0 freed) as [Hpos|Hneg]; [split; [done|]; split; [by right|done]|].
    assert (freed = 0) as -> by lia. rewrite Z.sub_0_r. split; [|split; [by left|done]]. by destruct (mem s); destruct budget. }
  destruct Hs1 as (E1&E2&(E3&E4&E5)&E6).
  set (s' := onMem (fun f => markDirty (upd id (fun _ => n2) f)) (onBuf p (fun _ => o1) s1)).
  assert (HM : moved s s' id p n2 o1 (Budget.charge (budget (mem s)) - freed)).
  { unfold s'. rewrite (onBuf_insert _ _ s1 cl) by congruence. split; simpl; rewrite ?E1; simpl; try done.
    - by rewrite (alter_insert_at _ id n).
    - by rewrite E3, Hh. }
  assert (HR : renewed (bucket s) n n2 o1).
  { split; [by rewrite S4, <- T1|by rewrite S5, <- T2| |by eapply fileOK_contents|eapply settled_contents; [exact S1|exact S2|]|].
    - rewrite S3. unfold skelFields in R3. simpl. congruence.
    - unfold settled. simpl. intros Hu. apply Hst; [|done]. intros Hu0. by apply Hset.
    - rewrite S1. apply Hch; [done|]. by apply (h_files _ _ (st_held _ _ (j_stored _ _ _ _ HJ)) id). }
  destruct (J_move s s' C a t c id p _ cl n n2 o1 o1 _ (Resting o1) HJ Ht Hf Hp Hh Hn HM HR) as [HJ' HT].
  - split; [apply alike_refl|]. split; [intros _; simpl; by rewrite lookup_insert_eq|]. intros Hd. destruct Hd.
    unfold alive. rewrite (mv_inodes _ _ _ _ _ _ _ HM), lookup_insert_eq. eauto.
  - rewrite owed_at, (owed_of _ _ _ _ Hf). simpl. lia.
  - intros _. right. by eapply (reader_unwatched K).
  - eexists _, s', _, o1. split; [done|]. split; [exact HJ'|]. exists id, n, chunks, o1, (ofBytes o1 - ofBytes (bufOf a id)).
    split; [by rewrite <- (abs_resolve K _ _ _ HF)|]. split; [done|]. rewrite <- Hn1, E2'. cbv zeta. cbn [fst]. split; [done|].
    split; [by destruct (abs_rest K _ _ _ HF) as (_&_&_&->&_)|].
    rewrite (abs_cf K _ _ _ HF), (abs_buf _ _ _ Hopen), S1. exact R6.
Qed.

End File.
