(* ===== verification/HoldOps.v ===== *)
(** * The steps of getOpen, the namespace operations and the commit

    The holds of mu that add or remove entries of FS.open, the transfers of
    chunks, and the steps of a commit on the bucket and on what the mount knows
    of the root pointer. *)

From stdpp Require Import sorting.
From S2P Require Import Prelude Prog Vfs Fsm Modes Policy Inode ChunkCache Budget Store FsState Tree Namespace.
From S2P Require Import NamespaceInv Drops Effects Data DataSpec FileSpec DataInv ReadDir Commit WritePath Durable.
From S2P Require Import CommitSpec SyncSpec Whole System Locks Hold HoldInv HoldSteps HoldFile.

Section Ops.
Context {Cd : Codec} {W : Type} {St : Store W} {Vw : StoreView W} {Lw : StoreLaws W}
  {Dg : Digest} {Hx : HexDigest} {Ro : RunOrder} {P : Policy} {TC : TypeChecked P}.
Context (K : conf).
Abbreviation shared := (shared W).
Abbreviation J := (J K).
Abbreviation Files := (Files K).

(** ** getOpen *)

(** The calm state with an entry for [id]. *)
Definition withEntry (id : Z) (a : FS) : FS :=
  match inodes a !! id with Some _ => twin (<[id := newOpenFile]> (open a)) (budget a) a | None => a end.

Lemma withEntry_open id a j : open (withEntry id a) !! j =
  if decide (j = id /\ is_Some (inodes a !! id)) then Some newOpenFile else open a !! j.
Proof using Type.
  unfold withEntry. destruct (inodes a !! id) as [n|] eqn:E; simpl.
  - rewrite lookup_insert. destruct (decide (id = j)) as [->|Hne]; [rewrite decide_True by eauto; done|].
    rewrite decide_False; [done|]. intros [? _]. congruence.
  - rewrite decide_False; [done|]. intros [_ []]. done.
Qed.

Lemma withEntry_buf id a j : open a !! id = None -> bufOf (withEntry id a) j = bufOf a j.
Proof using Type. intros Ho. unfold bufOf. rewrite withEntry_open. case_decide as E; [|done]. destruct E as [-> _]. by rewrite Ho. Qed.

Lemma withEntry_rest id a : inodes (withEntry id a) = inodes a /\ cf (withEntry id a) = cf a /\ mode (withEntry id a) = mode a /\
  nextIno (withEntry id a) = nextIno a /\ fsid (withEntry id a) = fsid a.
Proof using Type. unfold withEntry. by destruct (inodes a !! id). Qed.

Lemma withEntry_good id a : good a -> open a !! id = None -> good (withEntry id a).
Proof using Type.
  intros Hg Ho. unfold withEntry. destruct (inodes a !! id) as [n|] eqn:En; [|done]. destruct (Hg) as [_ Hd].
  eapply (touches_good a _ id n n newOpenFile 0); try done.
  - split; try done; simpl; [by rewrite insert_id|lia].
  - apply (do_cache _ Hd).
  - pose proof (do_files _ Hd id n En) as H. unfold bufOf in H. by rewrite Ho in H.
  - unfold bufOf. by rewrite Ho.
Qed.

Lemma withEntry_same id a : open a !! id = None -> sameFiles a (withEntry id a).
Proof using Type.
  intros Ho. destruct (withEntry_rest id a) as (H1&H2&H3&H4&H5). split; try done; rewrite ?H1; [done|].
  intros j n Hn. exists n. split; [done|]. split; [done|]. split; [done|]. intros i _. unfold contentAt. by rewrite H2, withEntry_buf.
Qed.

Lemma withEntry_abs (s : shared) C a id : Files s C a -> open a !! id = None -> withEntry id a = calm (open (withEntry id a)) (mem s).
Proof using Type.
  intros HF Ho. pose proof (fi_abs _ _ _ _ HF) as Ha. unfold withEntry. destruct (inodes a !! id); [|done]. unfold calm. simpl.
  rewrite chargeSum_insert, Ho. simpl. rewrite Z.add_0_r. rewrite Ha at 2 3. done.
Qed.

Section Alloc.
Context (s : shared) (C : list ghost) (a : FS) (id g : Z) (p : nat).
Hypotheses (HF : Files s C a) (Hnm : named s id g) (Htab : tab s !! id = None) (Hp : heap s !! p = None).
Let s' : shared := set_tab (<[id := p]> (tab s)) (set_heap (<[p := mkCell newOpenFile false]> (heap s)) s).

Lemma alloc_none : open a !! id = None.
Proof using HF Htab. apply eq_None_not_Some. intros Ho. apply (fi_dom _ _ _ _ HF) in Ho as [_ [q Hq]]. congruence. Qed.

Lemma alloc_pointer j q : pointer s j q -> pointer s' j q /\ q ≠ p /\ (alive s j -> j ≠ id).
Proof using Htab Hp.
  clear Hnm. intros [[cl P1] P2 P3 P4]. assert (q ≠ p) as Hq by congruence. assert (alive s j -> j ≠ id) as Hj by (intros Ha ->; specialize (P3 Ha); congruence).
  split; [|done]. split; try done; simpl.
  - rewrite lookup_insert_ne by done. eauto.
  - intros Ha. rewrite lookup_insert_ne; [by apply P3|]. intros ->. by apply (Hj Ha).
  - intros k. rewrite lookup_insert. case_decide; [congruence|apply P4].
Qed.

Lemma Files_alloc : Files s' C (withEntry id a).
Proof using HF Hnm Htab Hp.
  pose proof alloc_none as Ho. pose proof (withEntry_rest id a) as (W1&W2&W3&W4&W5). pose proof (abs_inodes K _ _ _ HF) as Hi.
  pose proof (withEntry_abs s C a id HF Ho) as Habs.
  assert (Halv : forall j, is_Some (inodes a !! j) <-> alive s' j) by (intros j; by rewrite Hi).
  destruct HF as [F1 F2 F3 F4 F5 F6 F7 F8 F9 F10 F11 F12 F13 F14].
  split; try done; simpl.
  - by apply withEntry_good.
  - intros j n Hn. rewrite withEntry_buf by done. by apply F5.
  - intros j. rewrite withEntry_open, lookup_insert. destruct (decide (j = id)) as [->|Hne].
    + rewrite (decide_True (P := id = id)) by done. destruct (decide (_ /\ _)) as [[_ Ha]|Hna].
      * apply Halv in Ha. split; eauto.
      * rewrite Ho. split; [by intros []|]. intros [Ha _]. destruct Hna. split; [done|by apply Halv].
    + rewrite decide_False by tauto. rewrite decide_False by congruence. apply F6.
  - intros j q. rewrite lookup_insert. case_decide; [subst; intros [= <-]; rewrite lookup_insert_eq; split; [eauto|apply Hnm]|].
    intros Hj. destruct (F7 j q Hj) as [[cl Hcl] ?]. split; [|done]. rewrite lookup_insert_ne by congruence. eauto.
  - intros j k q. rewrite !lookup_insert. destruct (decide (id = j)), (decide (id = k)); [congruence| | |apply F8].
    + intros [= <-] Hk. destruct (F7 k p Hk) as [[? ?] _]. congruence.
    + intros Hj [= <-]. destruct (F7 j p Hj) as [[? ?] _]. congruence.
  - intros j q cl. rewrite !lookup_insert. destruct (decide (id = j)), (decide (p = q)) as [<-|]; [by intros _ [= <-]|congruence| |apply F9].
    intros Hj. destruct (F7 j p Hj) as [[? ?] _]. congruence.
  - intros q cl. rewrite lookup_insert. case_decide as E.
    + subst q. intros [= <-] _. split; [|done]. simpl. intros j. rewrite lookup_insert. case_decide as E; [subst j|].
      * intros _ Ha. rewrite withEntry_open, decide_True; [done|]. split; [done|]. by apply Halv.
      * intros Hj. destruct (F7 j p Hj) as [[? ?] _]. congruence.
    + intros Hq Hh. destruct (F10 q cl Hq Hh) as [R1 R2]. split; simpl.
      * intros j. rewrite lookup_insert. case_decide; [congruence|]. intros Hj Ha. rewrite withEntry_open, decide_False by (intros [? _]; congruence). by apply R1.
      * intros H. apply R2. intros j Hj. apply H. rewrite lookup_insert_ne by congruence. done.
  - intros t c j q ph Hc Hf. destruct (F11 t c j q ph Hc Hf) as (Hpt&cl&Hcl&Hph). destruct (alloc_pointer j q Hpt) as (Hpt'&Hq&Hj).
    split; [done|]. exists cl. split; [by rewrite lookup_insert_ne|]. eapply (phaseOK_frame s s' a); [done| |done].
    intros Ha. rewrite withEntry_open, decide_False; [done|]. intros [-> _]. by apply Hj.
  - intros t c j q Hc Hin. eapply alloc_pointer. by eapply F12.
  - intros t c X Hc HX. destruct (F14 t c X Hc HX) as [? HX']. split; [done|]. intros j o. rewrite withEntry_open.
    case_decide; [by intros [= <-]|apply HX'].
Qed.

End Alloc.

Lemma J_open (s : shared) C a t c id g :
  J s C a -> C !! t = Some c -> (id, g) ∈ gNames c ->
  exists a', J (openHold id s).2 (<[t := set_gPtrs ((id, (openHold id s).1) :: gPtrs c) c]> C) a' /\ sameContents a a'.
Proof using Type.
  intros HJ Ht Hnm. pose proof HJ as [HF HL HC HA HS]. pose proof (fi_name _ _ _ _ HF t c id g Ht Hnm) as Hn.
  assert (Hadd : forall s' a' p, J s' C a' -> tab s' !! id = Some p -> J s' (<[t := set_gPtrs ((id, p) :: gPtrs c) c]> C) a').
  { intros s' a' p HJ' Hp. pose proof (j_files _ _ _ _ HJ') as HF'. eapply (J_ghost K); try done; simpl.
    - intros j q [[= -> ->]|Hin]%elem_of_cons; [by eapply (tab_pointer K)|by eapply (fi_ptrs _ _ _ _ HF')].
    - intros ref. by eapply (st_mine _ _ (j_stored _ _ _ _ HJ')).
    - intros j k Hj. by eapply (fi_name _ _ _ _ HF').
    - intros X HX. by eapply (fi_watch _ _ _ _ HF').
    - by apply (st_seal _ _ (j_stored _ _ _ _ HJ') t c). }
  unfold openHold. destruct (tab s !! id) as [p|] eqn:Ep; simpl.
  { exists a. split; [by apply Hadd|apply sameContents_refl]. }
  set (p := fresh (dom (heap s))). assert (Hp : heap s !! p = None) by (apply not_elem_of_dom, is_fresh).
  exists (withEntry id a). split; [|apply same_contents, withEntry_same; by eapply alloc_none].
  apply Hadd; [|simpl; by rewrite lookup_insert_eq]. split; try done.
  - by eapply (Files_alloc s C a id g p).
  - simpl. rewrite fmap_insert. apply Locks_alloc; [done|]. by rewrite lookup_fmap, Hp.
  - unfold Charged in *. simpl. rewrite heapSum_insert, Hp, HC. simpl. lia.
  - by destruct HS.
Qed.

(** ** A hold of mu of a namespace operation *)

Record nsOp {A} (g : FS -> A * FS) : Prop := {
  no_blind : forall f, blind g f;
  no_effect : forall f, wf f -> nsEffect f (g f).2;
  no_wf : forall f, wf f -> nextIno f + 1 < 2 ^ 64 -> wf (g f).2 /\ nextIno f <= nextIno (g f).2;
  no_text : forall f, wf f -> encodable f -> encodable (g f).2
}.

Lemma setAttr_op c h sa now : nsOp (fun f => setAttrNoSize f c h sa now).
Proof using TC.
  assert (H2 : forall f, (setAttrNoSize f c h sa now).2 = (perform f (NSetAttr c h sa now)).2).
  { intros f. simpl. by destruct (setAttrNoSize f c h sa now). }
  split; intros f; rewrite ?H2.
  - apply setAttrNoSize_blind.
  - apply perform_effect.
  - intros Hw Hn. destruct (perform_wf f (NSetAttr c h sa now) Hw Hn). split; [done|lia].
  - intros Hw He. by apply perform_text.
Qed.

Lemma wf_mode m f : wf (set_mode m f) <-> wf f.
Proof using Type. split; intros []; by split. Qed.

Lemma runAs_op m op : opText op -> nsOp (runAs m op).
Proof using TC.
  intros Ht. assert (H2 : forall f, (runAs m op f).2 = set_mode (mode f) (perform (set_mode m f) op).2).
  { intros f. unfold runAs. by destruct (perform _ _). }
  split; intros f.
  - destruct (perform_blind op (set_mode m f)) as (x&Hl&Hb). exists x. rewrite H2. split; [exact Hl|]. intros o b.
    unfold runAs. change (set_mode m (twin o b f)) with (twin o b (set_mode m f)). rewrite Hb. by destruct (perform (set_mode m f) op).
  - intros Hw. rewrite H2. destruct (perform_effect (set_mode m f) op (proj2 (wf_mode m f) Hw)) as [([]&?&?&?)|(?&[[]|(n&?&[])])].
    + left. by split.
    + right. split; [done|]. left. by split.
    + right. split; [done|]. right. exists n. split; [done|]. by split.
  - intros Hw Hn. rewrite H2, wf_mode. destruct (perform_wf (set_mode m f) op (proj2 (wf_mode m f) Hw) Hn) as [? Hnx]. split; [done|].
    simpl in *. lia.
  - intros Hw [E1 E2]. rewrite H2. destruct (perform_text (set_mode m f) op (proj2 (wf_mode m f) Hw)) as [T1 T2]; [by split|done|]. by split.
Qed.

(** The pointer [absorb] forgets. *)
Definition dropped (x : option Z) (s : shared) : option nat := match x with Some id => tab s !! id | None => None end.

Section Absorb.
Context (s : shared) (f : FS) (x : option Z).
Hypotheses (Hopen : open f = without x (buffers s)) (Hheap : forall id p, tab s !! id = Some p -> is_Some (heap s !! p)).

Lemma absorb_open id p : tab s !! id = Some p -> open f !! id = None <-> x = Some id.
Proof using Hopen Hheap.
  intros Hp. destruct (Hheap id p Hp) as [cl Hcl].
  assert (Hb : buffers s !! id = Some (cOf cl)) by (unfold buffers; rewrite lookup_omap, Hp; simpl; by rewrite Hcl).
  rewrite Hopen. destruct x as [k|]; simpl; [|rewrite Hb; done]. rewrite lookup_delete. case_decide; [naive_solver|]. rewrite Hb. naive_solver.
Qed.

Lemma absorb_tab j : tab (absorb f s) !! j = if decide (x = Some j) then None else tab s !! j.
Proof using Hopen Hheap.
  unfold absorb. simpl. destruct (tab s !! j) as [p|] eqn:Ep.
  - pose proof (absorb_open j p Ep) as Ho. case_decide as E.
    + apply map_lookup_filter_None. right. intros q Hq. simpl. tauto.
    + apply map_lookup_filter_Some. simpl. split; [done|]. tauto.
  - rewrite (proj2 (map_lookup_filter_None _ _ _)) by auto. by case_decide.
Qed.

Lemma absorb_img p : p ∈ (map_img (filter (fun ip => open f !! ip.1 = None) (tab s)) : gset nat) <-> dropped x s = Some p.
Proof using Hopen Hheap.
  pose proof absorb_open as Hao. rewrite elem_of_map_img. unfold dropped. split.
  - intros (id&Hid). apply map_lookup_filter_Some in Hid as [Hp Hn]. simpl in Hn. rewrite (Hao id p Hp) in Hn. by rewrite Hn.
  - destruct x as [id|]; [|done]. intros Hp. exists id. apply map_lookup_filter_Some. split; [done|]. simpl. by rewrite (Hao id p Hp).
Qed.

Lemma absorb_heap p : heap (absorb f s) !! p = (fun c => if decide (dropped x s = Some p) then forsaken c else c) <$> heap s !! p.
Proof using Hopen Hheap.
  unfold absorb. simpl. rewrite map_lookup_imap. destruct (heap s !! p) as [c|]; [|done]. simpl. f_equal.
  pose proof (absorb_img p) as Hi. case_bool_decide as E1; case_decide as E2; tauto.
Qed.

Lemma absorb_wakes : wakes (absorb f s) = match dropped x s with Some _ => wakes s + 1 | None => wakes s end.
Proof using Hopen Hheap.
  unfold absorb. simpl. pose proof absorb_img as Hi. set (G := filter _ (tab s)) in *. destruct (dropped x s) as [p|] eqn:E.
  - rewrite bool_decide_eq_false_2; [done|]. intros H. assert (p ∈ (map_img G : gset nat)) as Hp by by apply Hi.
    rewrite H, map_img_empty_L in Hp. by apply not_elem_of_empty in Hp.
  - rewrite bool_decide_eq_true_2; [done|]. apply map_empty. intros id. destruct (G !! id) as [p|] eqn:Eg; [|done].
    assert (p ∈ (map_img G : gset nat)) as Hp%Hi by (apply elem_of_map_img; eauto). done.
Qed.

End Absorb.

(** The states before and after such a hold: [x] is the inode it removed. *)
Record nsStep (s s' : shared) (a a' : FS) (x : option Z) : Prop := {
  nt_lost : lost (mem s) (mem s') x;
  nt_conf : cf (mem s') = cf (mem s);
  nt_next : nextIno (mem s) <= nextIno (mem s');
  nt_inode : forall j n', inodes (mem s') !! j = Some n' ->
    (exists n, inodes (mem s) !! j = Some n /\ iChunks n' = iChunks n /\ iSize n' = iSize n /\ iGen n' = iGen n) \/
    (nextIno (mem s) <= j /\ iChunks n' = []);
  nt_tab : forall j, tab s' !! j = if decide (x = Some j) then None else tab s !! j;
  nt_heap : forall p, heap s' !! p = (fun c => if decide (dropped x s = Some p) then forsaken c else c) <$> heap s !! p;
  nt_bare : open (mem s') = ∅;
  nt_abs : a' = calm (open a') (mem s');
  nt_open : open a' = without x (open a);
  nt_good : good a'
}.

Section Stepped.
Context (s s' : shared) (C : list ghost) (a a' : FS) (x : option Z).
Hypotheses (HF : Files s C a) (HN : nsStep s s' a a' x).

(** An inode the table has had stays unless it is the one removed. *)
Lemma ns_alive j : j < nextIno (mem s) -> alive s' j <-> alive s j /\ x ≠ Some j.
Proof using HN.
  clear HF. intros Hj. destruct (nt_lost _ _ _ _ _ HN) as [L1 L2]. unfold alive in *. split.
  - intros [n' Hn']. destruct (nt_inode _ _ _ _ _ HN j n' Hn') as [(n&Hn&_)|[? _]]; [|lia]. split; [eauto|].
    intros E. destruct (L1 j E). congruence.
  - intros [Ha Hne]. destruct (inodes (mem s') !! j) eqn:E; [eauto|]. destruct Hne. by apply L2.
Qed.

Lemma ns_open j : x ≠ Some j -> open a' !! j = open a !! j.
Proof using HN.
  clear HF. intros Hj. rewrite (nt_open _ _ _ _ _ HN). destruct x as [k|]; simpl; [|done]. rewrite lookup_delete_ne; congruence.
Qed.

Lemma ns_pointer j p : pointer s j p -> pointer s' j p.
Proof using HN.
  clear HF. intros [P1 P2 P3 P4]. split.
  - rewrite (nt_heap _ _ _ _ _ HN), fmap_is_Some. done.
  - pose proof (nt_next _ _ _ _ _ HN). lia.
  - intros Ha. apply ns_alive in Ha as [Ha Hne]; [|done]. rewrite (nt_tab _ _ _ _ _ HN), decide_False by done. by apply P3.
  - intros k. rewrite (nt_tab _ _ _ _ _ HN). case_decide; [done|apply P4].
Qed.

(** The cell of another file is as it was. *)
Lemma ns_other j p : pointer s j p -> x ≠ Some j -> heap s' !! p = heap s !! p.
Proof using HN.
  clear HF. intros Hp Hj. rewrite (nt_heap _ _ _ _ _ HN). destruct (heap s !! p) as [c|]; [|done]. simpl. rewrite decide_False; [done|].
  unfold dropped. destruct x as [k|]; [|done]. intros Hk. destruct Hj. f_equal. by apply (pt_only _ _ _ Hp).
Qed.

Lemma ns_cell p c' : heap s' !! p = Some c' -> exists c, heap s !! p = Some c /\ cHeld c' = cHeld c /\ alike (cOf c') (cOf c) /\
  if decide (dropped x s = Some p) then ofBytes (cOf c') = 0 else c' = c.
Proof using HN.
  clear HF. rewrite (nt_heap _ _ _ _ _ HN). destruct (heap s !! p) as [c|]; [|done]. simpl. intros [= <-]. exists c. by case_decide.
Qed.

(** A call in the middle of a file whose inode is removed. *)
Lemma phaseOK_dies j o o' ph : ~ alive s' j -> alike o' o -> ofBytes o' = 0 -> phaseOK s a j o ph -> phaseOK s' a' j o' ph.
Proof using Type.
  clear HF HN. intros Hd (A1&A2&A3) Hb. assert (Hno : forall n, inodes (mem s') !! j = Some n -> False) by (intros n Hn; apply Hd; unfold alive; eauto).
  assert (Hal : forall u, alike o u -> alike o' u) by (intros u (U1&U2&U3); unfold alike; by rewrite A1, A2, A3).
  destruct ph; simpl.
  - intros (H1&_). split; [by apply Hal|]. by split.
  - intros (H1&H2&_). split; [by apply Hal|]. split; [done|]. split; [|done]. intros m Hm. by destruct (Hno m).
  - intros (H1&H2&_). split; [by apply Hal|]. split; [done|]. split; [|done]. intros m Hm. by destruct (Hno m).
  - intros (H1&H2&_). split; [by apply Hal|]. split; [done|]. intros m Hm. by destruct (Hno m).
  - intros (H1&H2&_). split; [by apply Hal|]. split; [done|]. by split.
  - intros [-> _]. split; [|done]. destruct o'. simpl in *. by subst.
Qed.

(** ... and one whose inode stays. *)
Lemma phaseOK_lives j o ph : j < nextIno (mem s) -> x ≠ Some j -> phaseOK s a j o ph -> phaseOK s' a' j o ph.
Proof using HN.
  clear HF. intros Hj Hne. assert (Ha : alive s' j <-> alive s j) by (rewrite ns_alive by done; tauto).
  assert (Hin : forall n', inodes (mem s') !! j = Some n' -> exists n, inodes (mem s) !! j = Some n /\ iChunks n' = iChunks n).
  { intros n' Hn'. destruct (nt_inode _ _ _ _ _ HN j n' Hn') as [(n&Hn&Hc&_)|[? _]]; [eauto|lia]. }
  assert (Hrefs : forall refs (Q : Prop), (forall n, inodes (mem s) !! j = Some n -> iChunks n = refs /\ Q) ->
    forall n, inodes (mem s') !! j = Some n -> iChunks n = refs /\ Q).
  { intros refs Q HQ n' Hn'. destruct (Hin n' Hn') as (n&Hn&->). by apply HQ. }
  destruct ph; simpl; rewrite ?Ha, ?(ns_open j Hne); [done|..|done|done].
  - intros (H1&H2&H3&H4). split; [done|]. split; [done|]. split; [|done]. by apply Hrefs.
  - intros (H1&H2&H3&H4). split; [done|]. split; [done|]. split; [|done]. by apply Hrefs.
  - intros (H1&H2&H3). split; [done|]. split; [done|]. by apply Hrefs.
Qed.

Lemma Files_ns : Files s' C a'.
Proof using HF HN.
  pose proof HF as [F1 F2 F3 F4 F5 F6 F7 F8 F9 F10 F11 F12 F13 F14]. pose proof HN as [N1 N2 N3 N4 N5 N6 N7 N8 N9 N10].
  assert (Htab : forall j p, tab s' !! j = Some p -> x ≠ Some j /\ tab s !! j = Some p).
  { intros j p. rewrite N5. by case_decide. }
  assert (Hkeep : forall j p, x ≠ Some j -> tab s !! j = Some p -> tab s' !! j = Some p) by (intros j p Hj; by rewrite N5, decide_False).
  assert (Hdrop : forall j p, x ≠ Some j -> tab s !! j = Some p -> dropped x s ≠ Some p).
  { intros j p Hj Hp. unfold dropped. destruct x as [k|]; [|done]. intros Hk. destruct Hj. f_equal. by eapply F8. }
  split; try done.
  - congruence.
  - intros j n' Hn'. destruct (N4 j n' Hn') as [(n&Hn&Hc&Hs&_)|[Hnew Hc]].
    + eapply settled_contents; [exact Hc|exact Hs|]. assert (x ≠ Some j) as Hne.
      { intros ->. destruct (proj1 N1 j eq_refl). congruence. }
      unfold bufOf. rewrite (ns_open j Hne). by apply F5.
    + unfold bufOf. assert (open a' !! j = None) as ->.
      { rewrite N9. assert (open a !! j = None) as Ho.
        { apply eq_None_not_Some. intros Ho. apply F6 in Ho as [_ [p Hp]]. destruct (F7 j p Hp). lia. }
        destruct x; simpl; [|done]. rewrite lookup_delete, Ho. by case_decide. }
      intros _. split; [done|]. intros i _. rewrite Hc. unfold fileByte. simpl. unfold storedByte. by rewrite lookup_nil.
  - intros j. destruct (decide (x = Some j)) as [E|Hne].
    + split; [|intros [[n' Hn'] _]; destruct (proj1 N1 j E); congruence].
      rewrite N9, E. simpl. rewrite lookup_delete_eq. by intros [].
    + rewrite (ns_open j Hne), F6. rewrite N5, decide_False by done. split; intros [Ha [p Hp]]; (split; [|eauto]);
        eapply ns_alive; eauto; by destruct (F7 j p Hp).
  - intros j p Hp. apply Htab in Hp as [_ Hp]. destruct (F7 j p Hp). split; [rewrite N6, fmap_is_Some; done|lia].
  - intros j k p Hj Hk. apply Htab in Hj as [_ Hj], Hk as [_ Hk]. by eapply F8.
  - intros j p c Hj Hc Hd. apply Htab in Hj as [Hne Hj]. destruct (F7 j p Hj) as [_ Hlt].
    destruct (ns_cell p c Hc) as (c0&Hc0&_&(_&_&->)&_). apply (F9 j p c0 Hj Hc0). intros Ha. apply Hd, ns_alive; [done|]. by split.
  - intros p c Hc Hh. destruct (ns_cell p c Hc) as (c0&Hc0&Hheld&_&Hcase). rewrite Hheld in Hh. destruct (F10 p c0 Hc0 Hh) as [R1 R2]. split.
    + intros j Hj Ha. apply Htab in Hj as [Hne Hj]. destruct (F7 j p Hj) as [_ Hlt]. apply ns_alive in Ha as [Ha _]; [|done].
      rewrite decide_False in Hcase by (by eapply Hdrop). subst c0. rewrite (ns_open j Hne). by apply R1.
    + intros Hall. case_decide as E; [done|]. subst c0. apply R2. intros j Hj Ha. assert (x ≠ Some j) as Hne by (intros ->; by apply E).
      apply (Hall j); [by apply Hkeep|]. apply ns_alive; [by destruct (F7 j p Hj)|done].
  - intros t c j p ph Hc Hf. destruct (F11 t c j p ph Hc Hf) as (Hpt&cl&Hcl&Hph). split; [by apply ns_pointer|].
    destruct (decide (x = Some j)) as [E|Hne].
    + destruct (proj1 N1 j E) as [Ha Hd]. assert (dropped x s = Some p) as Hdp by (rewrite E; by apply (pt_tab _ _ _ Hpt)).
      exists (forsaken cl). split; [rewrite N6, Hcl; simpl; by rewrite decide_True|]. eapply phaseOK_dies; [|apply alike_bytes|done|done].
      unfold alive. rewrite Hd. by intros [].
    + exists cl. split; [by rewrite (ns_other j p)|]. apply phaseOK_lives; [apply Hpt|done|done].
  - intros t c j p Hc Hin. by eapply ns_pointer, F12.
  - intros t c j g Hc Hg. destruct (F13 t c j g Hc Hg) as [G1 G2]. split; [lia|]. intros n' Hn'.
    destruct (N4 j n' Hn') as [(n&Hn&_&_&->)|[? _]]; [by apply G2|lia].
  - intros t c X Hc HX. destruct (F14 t c X Hc HX) as [? HX']. split; [done|]. intros j o Ho. apply HX'.
    destruct (decide (x = Some j)) as [E|Hne]; [|by rewrite <- (ns_open j Hne)]. rewrite N9, E in Ho. simpl in Ho. by rewrite lookup_delete_eq in Ho.
Qed.

End Stepped.

(** What is dropped changes the charge and nothing else of the budget. *)
Lemma released_rest x o b v : Budget.set_charge v (released x o b) = Budget.set_charge v b.
Proof using Type. destruct x as [id|]; simpl; [|done]. by destruct (o !! id). Qed.

Lemma dropped_heap x (s s' : shared) :
  (forall p, heap s' !! p = (fun c => if decide (dropped x s = Some p) then forsaken c else c) <$> heap s !! p) ->
  heapSum (heap s') = heapSum (heap s) - match dropped x s with Some p => ofBytes (bufAt p s) | None => 0 end /\
  cHeld <$> heap s' = cHeld <$> heap s.
Proof using Type.
  intros Hh. split.
  - destruct (dropped x s) as [p|] eqn:E.
    + destruct (heap s !! p) as [c|] eqn:Ec.
      * assert (heap s' = <[p := forsaken c]> (heap s)) as ->.
        { apply map_eq. intros q. rewrite Hh, lookup_insert. destruct (decide (p = q)) as [<-|Hne].
          - rewrite Ec. simpl. by rewrite decide_True.
          - destruct (heap s !! q); [|done]. simpl. rewrite decide_False; [done|]. congruence. }
        rewrite heapSum_insert, Ec. unfold bufAt. rewrite Ec. simpl. lia.
      * assert (heap s' = heap s) as ->.
        { apply map_eq. intros q. rewrite Hh. destruct (heap s !! q) eqn:Eq; [|done]. simpl. rewrite decide_False; [done|]. congruence. }
        unfold bufAt. rewrite Ec. simpl. lia.
    + assert (heap s' = heap s) as -> by (apply map_eq; intros q; rewrite Hh; by destruct (heap s !! q)). lia.
  - apply map_eq. intros q. rewrite !lookup_fmap, Hh. destruct (heap s !! q); [|done]. simpl. by case_decide.
Qed.

Lemma Files_wf (s : shared) C a : Files s C a -> wf (mem s).
Proof using Type.
  intros HF. destruct (fi_good _ _ _ _ HF) as [Hw _]. destruct (abs_rest K _ _ _ HF) as (A1&_&A3&_).
  apply (wf_ext a); [done|unfold shape; by rewrite A1|done|rewrite (fi_bare _ _ _ _ HF), dom_empty_L; apply empty_subseteq|].
  rewrite A1. eauto.
Qed.

Lemma good_after {A} (g : FS -> A * FS) a : nsOp g -> good a -> nextIno a + 1 < 2 ^ 64 -> good (g a).2.
Proof using Type.
  intros Hop [Hw Hd] Hr. destruct (no_wf g Hop a Hw Hr) as [Hw' _]. split; [done|].
  destruct (no_effect g Hop a Hw) as [(Hk&_)|(_&[Hk|(n&Hb&Hk)])]; [by eapply keepsFiles_data..|].
  apply (keepsFiles_data (withInode n a)); [|done]. by apply withInode_data.
Qed.

Lemma held_after {A} (g : FS -> A * FS) f w : nsOp g -> wf f -> held f w -> held (g f).2 w.
Proof using Type.
  intros Hop Hw Hh. destruct (no_effect g Hop f Hw) as [(Hk&_)|(_&[Hk|(n&Hb&Hk)])]; [by eapply keepsFiles_held..|].
  apply (keepsFiles_held (withInode n f)); [|done]. by apply withInode_held.
Qed.

Lemma inodes_after {A} (g : FS -> A * FS) f : nsOp g -> wf f -> cf (g f).2 = cf f /\ forall j n', inodes (g f).2 !! j = Some n' ->
  (exists n, inodes f !! j = Some n /\ iChunks n' = iChunks n /\ iSize n' = iSize n /\ iGen n' = iGen n) \/ (nextIno f <= j /\ iChunks n' = []).
Proof using Type.
  intros Hop Hw. assert (Hcase : keepsFiles f (g f).2 \/ exists n, blank n /\ keepsFiles (withInode n f) (g f).2).
  { destruct (no_effect g Hop f Hw) as [(Hk&_)|(_&[Hk|Hk])]; auto. }
  destruct Hcase as [[K1 _ _ K4 _]|(n0&[Hb _]&[K1 _ _ K4 _])]; (split; [done|]); intros j n' Hn';
    destruct (K4 j n' Hn') as (n&Hn&H1&H2&_&H4&_); [left; eauto 10|].
  simpl in Hn. rewrite lookup_insert in Hn. case_decide; [|left; eauto 10]. injection Hn as <-. right. subst. split; [lia|congruence].
Qed.

Lemma nsHold_eq {A} (g : FS -> A * FS) (s : shared) : nsHold g s = ((g (view s)).1, absorb (g (view s)).2 s).
Proof using Type. unfold nsHold. by destruct (g (view s)). Qed.

Lemma J_ns {A} (g : FS -> A * FS) (s : shared) C a :
  nsOp g -> J s C a -> nextIno (mem s) + 1 < 2 ^ 64 -> J (nsHold g s).2 C (g a).2 /\ (nsHold g s).1 = (g a).1.
Proof using Type.
  intros Hop HJ Hroom. pose proof HJ as [HF HL HC HA HS]. pose proof (Files_wf s C a HF) as Hw.
  destruct (no_blind g Hop (mem s)) as (x&Hlost&Hb).
  pose proof (Hb (buffers s) (budget (mem s))) as Hv. change (twin _ _ _) with (view s) in Hv at 1.
  pose proof (Hb (open a) (Budget.set_charge (chargeSum (open a)) (budget (mem s)))) as Ha.
  assert (Habs : twin (open a) (Budget.set_charge (chargeSum (open a)) (budget (mem s))) (mem s) = a) by (symmetry; apply HF).
  rewrite Habs in Ha. rewrite nsHold_eq, Hv, Ha. simpl. split; [|done]. set (f1 := (g (mem s)).2) in *.
  set (f2 := twin (without x (buffers s)) (released x (buffers s) (budget (mem s))) f1). set (s' := absorb f2 s).
  set (a' := twin (without x (open a)) _ f1).
  assert (Hheap : forall id p, tab s !! id = Some p -> is_Some (heap s !! p)) by (intros id p Hp; by apply (fi_tab _ _ _ _ HF) in Hp as [? _]).
  pose proof (absorb_heap s f2 x eq_refl Hheap) as Hh. destruct (inodes_after g (mem s) Hop Hw) as [Hcf Hin].
  assert (HN : nsStep s s' a a' x).
  { split; try done.
    - apply (no_wf g Hop (mem s) Hw Hroom).
    - by apply absorb_tab.
    - assert (Hbe : released x (open a) (Budget.set_charge (chargeSum (open a)) (budget (mem s))) =
        Budget.set_charge (chargeSum (without x (open a))) (released x (buffers s) (budget (mem s)))).
      { rewrite released_rest. unfold released. destruct x as [id|]; simpl; [|done]. rewrite chargeSum_delete.
        destruct (open a !! id) as [u|]; simpl; [done|]. by rewrite Z.sub_0_r. }
      unfold a'. rewrite Hbe. reflexivity.
    - replace a' with (g a).2 by (by rewrite Ha). apply good_after; [done|apply HF|]. by rewrite (abs_next K _ _ _ HF). }
  assert (Hlocks : commitMu s' = commitMu s /\ gateReaders s' = gateReaders s /\ gateWaiting s' = gateWaiting s /\ gateWriter s' = gateWriter s /\ bucket s' = bucket s) by done.
  assert (Hbud : budget (mem s') = released x (buffers s) (budget (mem s))) by done.
  assert (Hwk : wakes s' = match dropped x s with Some _ => wakes s + 1 | None => wakes s end) by (by apply absorb_wakes).
  assert (Hbuf : released x (buffers s) (budget (mem s)) =
    match dropped x s with Some p => Budget.release (ofBytes (bufAt p s)) (budget (mem s)) | None => budget (mem s) end).
  { unfold released, dropped. destruct x as [id|]; [|done]. unfold buffers. rewrite lookup_omap. destruct (tab s !! id) as [p|] eqn:Ep; [|done]. simpl.
    destruct (Hheap id p Ep) as [cl Hcl]. unfold bufAt. by rewrite Hcl. }
  assert (Hmem : mem s' = twin ∅ (released x (buffers s) (budget (mem s))) f1) by done.
  destruct (dropped_heap x s s' Hh) as [Hsum Hheld]. clearbody s'. destruct Hlocks as (L1&L2&L3&L4&L5).
  split.
  - by eapply Files_ns.
  - by rewrite Hheld, L1, L2, L3, L4.
  - unfold Charged in *. rewrite Hsum, Hbud, Hbuf. destruct (dropped x s); simpl; lia.
  - rewrite Hbud, Hbuf, Hwk. destruct (dropped x s); [by apply Awaits_release|done].
  - destruct HS as [S1 S2 S3 S4]. split; rewrite ?L5; try done.
    + destruct (held_after g (mem s) (bucket s) Hop Hw S1) as [H1 H2 H3 H4]. split; try done; by rewrite Hmem.
    + destruct (no_text g Hop (mem s) Hw S2) as [E1 E2]. split; by rewrite Hmem.
Qed.

End Ops.
