(* ===== verification/HoldCommit.v ===== *)
(** * The steps of a commit, of the transfers and of the budget *)

From stdpp Require Import sorting.
From S2P Require Import Prelude Prog Vfs Fsm Modes Policy Inode ChunkCache Budget Store FsState Tree Namespace.
From S2P Require Import NamespaceInv Drops Effects Data DataSpec FileSpec DataInv ReadDir Commit WritePath Durable.
From S2P Require Import CommitSpec SyncSpec Whole System Locks Hold HoldInv HoldSteps HoldFile HoldOps.

Section Commit.
Context {Cd : Codec} {W : Type} {St : Store W} {Vw : StoreView W} {Lw : StoreLaws W}
  {Dg : Digest} {Hx : HexDigest} {Ro : RunOrder} {P : Policy} {TC : TypeChecked P}.
Context (K : conf).
Abbreviation shared := (shared W).
Abbreviation J := (J K).
Abbreviation Files := (Files K).

(** ** What a call comes to know *)

(** Each thing it knows is one it knew, or is so now. *)
Lemma J_know (s : shared) C a t c c' :
  J s C a -> C !! t = Some c -> holdsSame c c' ->
  (forall id p, (id, p) ∈ gPtrs c' -> (id, p) ∈ gPtrs c \/ tab s !! id = Some p) ->
  (forall ref, ref ∈ gMine c' -> ref ∈ gMine c \/ refStored (bucket s) ref) ->
  (forall id g, (id, g) ∈ gNames c' -> (id, g) ∈ gNames c \/ named s id g) ->
  (gWatch c' = gWatch c \/ forall X, gWatch c' = Some X -> gGate c = GWriting /\ forall id o, open a !! id = Some o -> ofUnsettled o = true -> id ∈ X) ->
  (gSeal c' = gSeal c \/ sealOK (bucket s) c') -> J s (<[t := c']> C) a.
Proof using Type.
  intros HJ Ht Hs Hp Hm Hn Hw Hse. pose proof HJ as [HF _ _ _ HS]. pose proof (hs_gate _ _ Hs) as Hg. eapply (J_ghost K); try done.
  - intros id p Hin. destruct (Hp id p Hin); [by eapply (fi_ptrs _ _ _ _ HF)|by eapply (tab_pointer K)].
  - intros ref Hin. destruct (Hm ref Hin); [by eapply (st_mine _ _ HS)|done].
  - intros id g Hin. destruct (Hn id g Hin); [by eapply (fi_name _ _ _ _ HF)|done].
  - intros X HX. rewrite Hg. destruct Hw as [Hw|Hw]; [rewrite Hw in HX; by eapply (fi_watch _ _ _ _ HF)|by apply Hw].
  - destruct Hse as [Hse|Hse]; [|done]. pose proof (st_seal _ _ HS t c Ht) as Hok. unfold sealOK in *. by rewrite Hse, (hs_commit _ _ Hs).
Qed.

(** A chunk it has stored. *)
Lemma J_mine (s : shared) C a t c ref :
  J s C a -> C !! t = Some c -> refStored (bucket s) ref -> J s (<[t := set_gMine (ref :: gMine c) c]> C) a.
Proof using Type. intros HJ Ht Href. eapply J_know; eauto; [done|]. simpl. intros r [->|Hr]%elem_of_cons; auto. Qed.

(** Entries of FS.open it has listed. *)
Lemma J_listed (s : shared) C a t c l :
  J s C a -> C !! t = Some c -> (forall id p, (id, p) ∈ l -> tab s !! id = Some p) ->
  J s (<[t := set_gPtrs (l ++ gPtrs c) c]> C) a.
Proof using Type. intros HJ Ht Hl. eapply J_know; eauto; [done|]. simpl. intros id p [Hin|Hin]%elem_of_app; auto. Qed.

(** The inode a handle names. *)
Lemma J_name (s : shared) C a t c h id n :
  J s C a -> C !! t = Some c -> resolve (mem s) h = Ok (id, n) -> J s (<[t := set_gNames ((id, iGen n) :: gNames c) c]> C) a.
Proof using Type.
  intros HJ Ht Hr. pose proof HJ as [HF _ _ _ _]. apply resolve_ok in Hr as (Hn&_&_). eapply J_know; eauto; [done|]. simpl.
  intros i g [[= -> ->]|Hin]%elem_of_cons; [right|by left]. split; [|congruence]. rewrite <- (abs_next K _ _ _ HF). rewrite <- (abs_inodes K _ _ _ HF) in Hn.
  destruct (fi_good _ _ _ _ HF) as [Hw _]. destruct (wf_ids _ Hw id n Hn). lia.
Qed.

(** An inode that is gone stays so: whatever generation it would have. *)
Lemma J_dead (s : shared) C a t c id g g' :
  J s C a -> C !! t = Some c -> (id, g) ∈ gNames c -> ~ alive s id -> J s (<[t := set_gNames ((id, g') :: gNames c) c]> C) a.
Proof using Type.
  intros HJ Ht Hg Hd. eapply J_know; eauto; [done|]. simpl. intros i k [[= -> ->]|Hin]%elem_of_cons; [right|by left].
  split; [by eapply (fi_name _ _ _ _ (j_files _ _ _ _ HJ) t c)|]. intros n Hn. destruct Hd. unfold alive. eauto.
Qed.

Lemma J_gone (s : shared) C a t c id g g' :
  J s C a -> C !! t = Some c -> (id, g) ∈ gNames c -> (id, g') ∈ gNames c -> g ≠ g' -> ~ alive s id.
Proof using Type.
  intros HJ Ht Hg Hg' Hne [n Hn]. pose proof (fi_name _ _ _ _ (j_files _ _ _ _ HJ) t c id) as Hf.
  destruct (Hf g Ht Hg) as [_ H1], (Hf g' Ht Hg') as [_ H2]. apply Hne. rewrite <- (H1 n Hn). by apply H2.
Qed.

(** The marks it watches, holding the gate; none but those in [X] is set. *)
Lemma J_watch (s : shared) C a t c X :
  J s C a -> C !! t = Some c -> gGate c = GWriting ->
  (forall id o, open a !! id = Some o -> ofUnsettled o = true -> id ∈ X) -> J s (<[t := set_gWatch (Some X) c]> C) a.
Proof using Type. intros HJ Ht Hg Hu. eapply J_know; eauto; [done|]. right. simpl. by intros Y [= <-]. Qed.

Lemma J_unwatch (s : shared) C a t c :
  J s C a -> C !! t = Some c -> J s (<[t := set_gWatch None c]> C) a.
Proof using Type. intros HJ Ht. eapply J_know; eauto; [done|]. by right. Qed.

(** A call that has seen one mark cleared watches the others. *)
Lemma J_seen (s : shared) C a t c id :
  J s C a -> C !! t = Some c -> (forall u, open a !! id = Some u -> ofUnsettled u = false) ->
  J s (<[t := set_gWatch ((fun X => X ∖ {[id]}) <$> gWatch c) c]> C) a.
Proof using Type.
  intros HJ Ht Hu. destruct (gWatch c) as [X|] eqn:EX; simpl; [|by apply J_unwatch].
  destruct (fi_watch _ _ _ _ (j_files _ _ _ _ HJ) t c X Ht EX) as [Hg HX]. apply J_watch; [done..|].
  intros j o Ho Hun. apply elem_of_difference. split; [by eapply HX|]. intros ->%elem_of_singleton. rewrite (Hu o Ho) in Hun. done.
Qed.

(** ** Marks *)

(** The holder of a cell whose mutex is locked. *)
Lemma held_by (s : shared) C a p cl : J s C a -> heap s !! p = Some cl -> cHeld cl = true ->
  exists t d id ph, C !! t = Some d /\ gFile d = Some (id, p, ph) /\ pointer s id p /\ phaseOK s a id (cOf cl) ph.
Proof using Type.
  intros HJ Hp Hh. pose proof (lk_file _ _ _ _ _ _ (j_locks _ _ _ _ HJ) p true) as Ho. rewrite lookup_fmap, Hp in Ho. simpl in Ho. rewrite Hh in Ho.
  destruct (proj1 (ow_some _ _ (Ho eq_refl)) eq_refl) as [t Ht]. apply owner_of in Ht as (l&Hl&Hq%bool_decide_eq_true).
  rewrite list_lookup_fmap in Hl. destruct (C !! t) as [d|] eqn:Ed; [|done]. injection Hl as <-. unfold lockOf in Hq. simpl in Hq.
  destruct (gFile d) as [[[id q] ph]|] eqn:Ef; [|done]. injection Hq as ->. exists t, d, id, ph. split; [done|]. split; [done|].
  destruct (fi_hold _ _ _ _ (j_files _ _ _ _ HJ) t d id p ph Ed Ef) as (Hpt&cl'&Hcl'&Hph). split; [done|]. congruence.
Qed.

(** The mark in the heap is the mark of the calm state. *)
Lemma marks_agree (s : shared) C a id p cl : J s C a -> tab s !! id = Some p -> heap s !! p = Some cl ->
  ofUnsettled (cOf cl) = match open a !! id with Some u => ofUnsettled u | None => false end.
Proof using Type.
  intros HJ Htab Hp. pose proof (j_files _ _ _ _ HJ) as HF. destruct (decide (alive s id)) as [Ha|Hd].
  2:{ rewrite (fi_dead _ _ _ _ HF id p cl Htab Hp Hd). destruct (open a !! id) eqn:E; [|done]. destruct Hd. apply (fi_dom _ _ _ _ HF). eauto. }
  destruct (cHeld cl) eqn:Eh.
  - destruct (held_by s C a p cl HJ Hp Eh) as (t&d&j&ph&Hd&Hf&Hpt&Hph). assert (j = id) as -> by (symmetry; by apply (pt_only _ _ _ Hpt)).
    destruct Ha as [n Hn]. destruct ph; simpl in Hph.
    + destruct Hph as (_&H1&_). by rewrite H1 by (unfold alive; eauto).
    + destruct Hph as ((_&_&A)&B&H1&_). destruct (H1 n Hn) as (_&u&->&(_&_&D)&_). simpl. congruence.
    + destruct Hph as ((_&_&A)&B&H1&_). destruct (H1 n Hn) as (_&u&->&(_&_&D)&_). simpl. congruence.
    + destruct Hph as ((_&_&A)&B&H1). destruct (H1 n Hn) as (_&u&->&(_&_&D)&_). simpl. congruence.
    + destruct Hph as ((_&_&A)&B&H1&_). rewrite H1 by (unfold alive; eauto). simpl. congruence.
    + destruct Hph as (->&H1). by rewrite H1 by (unfold alive; eauto).
  - by rewrite (re_live _ _ _ _ (fi_free _ _ _ _ HF p cl Hp Eh) id Htab Ha).
Qed.

Definition unmarked (a : FS) : Prop := forall id o, open a !! id = Some o -> ofUnsettled o = false.

Lemma watched_clear (s : shared) C a t c : J s C a -> C !! t = Some c -> gWatch c = Some ∅ -> unmarked a.
Proof using Type.
  intros HJ Ht Hw id o Ho. destruct (fi_watch _ _ _ _ (j_files _ _ _ _ HJ) t c ∅ Ht Hw) as [_ HX].
  destruct (ofUnsettled o) eqn:E; [|done]. by destruct (not_elem_of_empty (C := gset Z) id); eapply HX.
Qed.

(** ** The seal *)

(** With no mark set, the namespace without the buffers is a good one. *)
Lemma calm_empty (s : shared) C a : Files s C a -> unmarked a -> good (calm ∅ (mem s)).
Proof using Type.
  intros HF Hun. pose proof (Files_wf K s C a HF) as Hw. destruct (fi_good _ _ _ _ HF) as [_ Hd].
  split; [apply (wf_ext (mem s)); [done..| |eauto]; simpl; rewrite dom_empty_L; apply empty_subseteq|].
  pose proof (fi_conf _ _ _ _ HF) as Hcf. pose proof (abs_cf K _ _ _ HF) as Hac. destruct Hd as [D1 D2 D3 D4 D5 D6]. rewrite Hac in *.
  split; simpl; rewrite ?Hcf; try done; [apply (fetch_ok K _ _ _ HF)|]. intros id n Hn.
  destruct (abs_file K _ _ _ HF id n Hn) as [[O1 O2 O3 O4 O5 O6] _]. unfold bufOf at 1. simpl. rewrite lookup_empty.
  split; try done. apply (fi_settled _ _ _ _ HF id n Hn). unfold bufOf. destruct (open a !! id) as [o|] eqn:Eo; [|done]. by apply (Hun id).
Qed.

Lemma view_unmarked (s : shared) C a : J s C a -> unmarked a -> anyUnsettled (view s) = false.
Proof using Type.
  intros HJ Hun. apply bool_decide_eq_false_2. intros (id&o&Ho&Hu). simpl in Ho. unfold buffers in Ho. rewrite lookup_omap in Ho.
  destruct (tab s !! id) as [p|] eqn:Ep; [|done]. simpl in Ho. destruct (heap s !! p) as [cl|] eqn:Ecl; [|done]. injection Ho as <-.
  rewrite (marks_agree s C a id p cl HJ Ep Ecl) in Hu. destruct (open a !! id) as [u|] eqn:Eu; [|done]. by rewrite (Hun id u Eu) in Hu.
Qed.

(** A commit that holds the gate and has cleared the marks is not refused. *)
Lemma J_seal (s : shared) C a t c nonce now1 now2 :
  J s C a -> C !! t = Some c -> gWatch c = Some ∅ -> gCommit c = true ->
  exists sc, seal nonce now1 now2 (view s) = Ok sc /\ J s (<[t := set_gSeal (Some (inodes (mem s), sc, false)) c]> C) a.
Proof using Hx.
  intros HJ Ht Hw Hc. pose proof HJ as [HF _ _ _ [S1 S2 _ _]]. pose proof (watched_clear s C a t c HJ Ht Hw) as Hun.
  pose proof (calm_empty s C a HF Hun) as Hgood.
  assert (Hseal : exists sc, seal nonce now1 now2 (view s) = Ok sc /\ seal nonce now1 now2 (calm ∅ (mem s)) = Ok sc).
  { unfold seal. rewrite (view_unmarked s C a HJ Hun). assert (anyUnsettled (calm ∅ (mem s)) = false) as ->.
    { apply bool_decide_eq_false_2. intros (id&o&Ho&_). simpl in Ho. by rewrite lookup_empty in Ho. }
    eexists. split; reflexivity. }
  destruct Hseal as (sc&H1&H2). exists sc. split; [done|].
  destruct (seal_spec (calm ∅ (mem s)) nonce now1 now2 sc) as (Hsf&_); [done| |done|done|].
  { intros id o Ho. simpl in Ho. by rewrite lookup_empty in Ho. }
  eapply J_know; eauto; [done|]. right. unfold sealOK. simpl. split; [done|]. split; [done|]. split; [apply S1|done].
Qed.

(** ** The bucket *)

(** A call of the store in a commit: the chunks are as they were. *)
Lemma J_bucket (s : shared) C a t c v w :
  J s C a -> C !! t = Some c -> gCommit c = true -> contentOK w -> rootOK w -> chunksSame (bucket s) w -> sealOK w (set_gSeal v c) ->
  J (set_bucket w s) (<[t := set_gSeal v c]> C) a.
Proof using Type.
  intros HJ Ht Hc Hco Hro Hsame Hse. pose proof HJ as [HF HL HC HA [S1 S2 S3 S4]].
  assert (HF' : Files (set_bucket w s) C a).
  { eapply (Files_ext K s _ C a); try done; [apply HF|apply (fetch_ok K _ _ _ HF)|apply HF]. }
  assert (Href : forall ref, refStored (bucket s) ref -> refStored w ref) by (intros ref Hr Hh; rewrite Hsame; by apply Hr).
  assert (HS' : forall D, (forall t' d, D !! t' = Some d -> (t' = t /\ d = set_gSeal v c) \/ (t' ≠ t /\ C !! t' = Some d)) -> Stored (set_bucket w s) D).
  { intros D HD. split; simpl.
    - destruct S1 as [H1 H2 H3 H4]. split; try done; [intros h Hh; rewrite Hsame; by apply H3|by eapply stored_same].
    - done.
    - intros t' d ref Hd Hin. apply Href. destruct (HD t' d Hd) as [[-> ->]|[_ Hd']]; [by apply (S3 t c)|by eapply S3].
    - intros t' d Hd. destruct (HD t' d Hd) as [[-> ->]|[Hne Hd']]; [done|]. specialize (S4 t' d Hd'). unfold sealOK in *.
      destruct (gSeal d) as [[[m sc] put]|]; [|done]. exfalso. destruct S4 as [Hcd _]. apply Hne.
      apply (ow_one _ _ (lk_commit _ _ _ _ _ _ HL)); rewrite !list_lookup_fmap; [rewrite Hd'|rewrite Ht]; simpl; by f_equal. }
  split.
  - eapply (Files_known K); try done. intros X HX. split; [apply (fi_watch _ _ _ _ HF t c X Ht HX)|done].
  - by rewrite (fmap_insert_same lockOf C t c).
  - unfold Charged in *. rewrite (tally_insert _ C t c) by done. change (owed (set_gSeal v c)) with (owed c). simpl. lia.
  - by rewrite (fmap_insert_same gAwait C t c).
  - apply HS'. intros t' d Hd. by apply lookup_insert_cases in Hd.
Qed.

Lemma J_bucketOK (s : shared) C a t c m sc put : J s C a -> C !! t = Some c -> gSeal c = Some (m, sc, put) ->
  gCommit c = true /\ sealedFor m sc /\ bucketOK m (bucket s) /\ (put = true -> snapStored sc (bucket s)).
Proof using Type.
  intros HJ Ht Hse. destruct (j_stored _ _ _ _ HJ) as [[H1 H2 H3 H4] _ _ S4]. specialize (S4 t c Ht). unfold sealOK in S4. rewrite Hse in S4.
  destruct S4 as (A&B&D&E). done.
Qed.

(** The snapshot is stored. *)
Lemma J_put (s : shared) C a t c m sc :
  J s C a -> C !! t = Some c -> gSeal c = Some (m, sc, false) ->
  let rw := Put (scKey sc) (scBody sc) (bucket s) in
  J (set_bucket rw.2 s) (<[t := set_gSeal (match rw.1 with Ok _ => Some (m, sc, true) | Err _ => None end) c]> C) a.
Proof using Lw.
  intros HJ Ht Hse rw. destruct (J_bucketOK s C a t c m sc false HJ Ht Hse) as (Hc&Hsf&Hbk&_).
  assert (Hcase : objects rw.2 = objects (bucket s) \/ objects rw.2 = <[scKey sc := scBody sc]> (objects (bucket s))).
  { destruct (Put (scKey sc) (scBody sc) (bucket s)) as [[[]|e] w] eqn:E; simpl.
    - right. pose proof (put_ok (scKey sc) (scBody sc) (bucket s) (sealed_key_ok m sc Hsf)) as H. rewrite E in H. by apply H.
    - pose proof (put_err (scKey sc) (scBody sc) (bucket s) e (sealed_key_ok m sc Hsf)) as H. rewrite E in H. by apply H. }
  assert (Hok : bucketOK m rw.2 /\ chunksSame (bucket s) rw.2 /\ forall u, rw.1 = Ok u -> snapStored sc rw.2).
  { destruct Hcase as [Ho|Ho].
    - destruct (store_same m sc (bucket s) rw.2 Hbk Ho) as (H1&H2&_). split; [done|]. split; [done|]. intros [] Hr.
      pose proof (put_ok (scKey sc) (scBody sc) (bucket s) (sealed_key_ok m sc Hsf) Hr) as H. unfold snapStored. fold rw in H. rewrite H. apply lookup_insert_eq.
    - destruct (store_snapshot m sc Hsf (bucket s) rw.2 Hbk Ho) as (H1&H2&H3). done. }
  destruct Hok as ([B1 B2 B3]&Hsame&Hst). apply J_bucket; try done. unfold sealOK. simpl. destruct rw.1 as [u|e] eqn:Er; [|done].
  split; [done|]. split; [done|]. split; [done|]. intros _. by eapply Hst.
Qed.

(** The root pointer is written. *)
Lemma J_swapRoot (s : shared) C a t c m sc :
  J s C a -> C !! t = Some c -> gSeal c = Some (m, sc, true) ->
  exists r w, swapRoot sc (mem s, bucket s) = (Ok r, (mem s, w)) /\
    J (set_bucket w s) (<[t := set_gSeal None c]> C) a /\ (forall etag, r = Swapped etag -> landed sc w).
Proof using Lw.
  intros HJ Ht Hse. destruct (J_bucketOK s C a t c m sc true HJ Ht Hse) as (Hc&Hsf&Hbk&Hst).
  destruct (swapRoot sc (mem s, bucket s)) as [r [f w]] eqn:E.
  destruct (swapRoot_spec m sc Hsf _ _ _ _ _ Hbk (Hst eq_refl) E) as (->&[B1 B2 B3]&Hsame&Hr).
  destruct r as [r|e]; [|done]. exists r, w. split; [done|]. split; [by apply J_bucket|]. intros etag ->. apply Hr.
Qed.

(** ** What the mount knows of the root pointer, and the waiters *)

Lemma J_same (s : shared) C a f :
  J s C a -> nsSame (mem s) f -> J (set_mem f s) C (calm (open a) f) /\ sameContents a (calm (open a) f).
Proof using Type.
  intros HJ Hns. pose proof (J_root K s C a f (budget f) (wakes s) HJ Hns eq_refl) as H. rewrite (ns_budget _ _ Hns) in H.
  assert (Hf : set_budget (budget (mem s)) f = f) by (rewrite <- (ns_budget _ _ Hns); by destruct f).
  rewrite Hf in H. replace (set_wakes (wakes s) (set_mem f s)) with (set_mem f s) in H by (by destruct s). apply H, HJ.
Qed.

Lemma J_budget (s : shared) C a t c b v wk :
  J s C a -> C !! t = Some c -> Budget.charge b = Budget.charge (budget (mem s)) -> Awaits b wk (<[t := v]> (gAwait <$> C)) ->
  let s' := set_wakes wk (onMem (set_budget b) s) in
  J s' (<[t := set_gAwait v c]> C) (calm (open a) (mem s')) /\ sameContents a (calm (open a) (mem s')).
Proof using Type.
  intros HJ Ht Hch Haw s'. pose proof HJ as [HF HL HC HA [S1 S2 S3 S4]].
  assert (HF' : Files s' C (calm (open a) (mem s'))).
  { eapply (Files_ext K s _ C a); try done; [apply HF|apply (fetch_ok K _ _ _ HF)]. }
  split; [|destruct (abs_rest K _ _ _ HF) as (A1&A2&A3&A4&A5&A6&A7&A8); by apply unseen]. split.
  - eapply (Files_known K); try done. intros X HX. split; [apply (fi_watch _ _ _ _ HF t c X Ht HX)|done].
  - by rewrite (fmap_insert_same lockOf C t c).
  - unfold Charged in *. rewrite (tally_insert _ C t c) by done. change (owed (set_gAwait v c)) with (owed c). simpl. rewrite Hch. lia.
  - by rewrite list_fmap_insert.
  - destruct S1 as [H1 H2 H3 H4]. split; try done.
    + intros t' d ref Hd. apply lookup_insert_cases in Hd as [[-> ->]|[_ Hd]]; [by apply (S3 t c)|by apply (S3 t' d)].
    + intros t' d Hd. apply lookup_insert_cases in Hd as [[-> ->]|[_ Hd]]; [by apply (S4 t c)|by apply (S4 t' d)].
Qed.

End Commit.
