(* ===== verification/HoldRules.v ===== *)
(** * The rules for the programs of [Hold]

    [wp] of [Prog] at the invariant of [HoldInv], and a rule for each kind of
    step: what the call must hold, and what it holds and knows after. A history
    is [within] another that adds quiet steps only, so a specification that says
    so says the program changed nothing a client sees. *)

From stdpp Require Import sorting.
From S2P Require Import Prelude Prog Vfs Fsm Modes Policy Inode ChunkCache Budget Store FsState Tree Namespace.
From S2P Require Import NamespaceInv Drops Effects Data DataSpec FileSpec DataInv ReadDir Commit WritePath Durable.
From S2P Require Import CommitSpec SyncSpec Whole System Locks Hold HoldInv HoldSteps HoldFile HoldOps HoldCommit.

(** A call that has nothing left to give back. *)
Record over (c : ghost) : Prop := {
  ov_file : gFile c = None;
  ov_gate : gGate c = GNone;
  ov_commit : gCommit c = false;
  ov_watch : gWatch c = None;
  ov_seal : gSeal c = None;
  ov_await : gAwait c = None
}.

(** Chains of longer and longer histories, by quiet steps. *)
Ltac extends :=
  match goal with
  | |- within _ ?H ?H => apply within_refl
  | h : within _ ?H ?H1 |- within _ ?H ?H' => first [exact h | apply (within_trans _ H H1 H' h); extends]
  | |- within _ ?H (took ?H' _ _) => apply within_took; [extends|first [assumption | apply sameContents_refl]]
  end.

Ltac later := unfold calmly in *; extends.

(** [c'] holds what [c] holds, and knows what it knows. *)
Record grown (c c' : ghost) : Prop := {
  gr_same : holdsSame c c';
  gr_watch : gWatch c' = gWatch c;
  gr_seal : gSeal c' = gSeal c;
  gr_name : gNames c' = gNames c;
  gr_ptrs : gPtrs c ⊆ gPtrs c';
  gr_mine : gMine c ⊆ gMine c'
}.

Lemma grown_refl c : grown c c.
Proof. by split. Qed.

Lemma grown_trans c c1 c2 : grown c c1 -> grown c1 c2 -> grown c c2.
Proof.
  intros [[A1 A2 A3 A4] A5 A6 A7 A8 A9] [[B1 B2 B3 B4] B5 B6 B7 B8 B9]. split; [split|..]; try congruence; by etrans.
Qed.

#[global] Instance grown_preorder : PreOrder grown.
Proof. split; [exact grown_refl|exact grown_trans]. Qed.

Section Rules.
Context {Cd : Codec} {W : Type} {St : Store W} {Vw : StoreView W} {Lw : StoreLaws W}
  {Dg : Digest} {Hx : HexDigest} {Ro : RunOrder} {P : Policy} {TC : TypeChecked P}.
Context (K : conf) (rq : request).
Abbreviation shared := (shared W).
Abbreviation J := (J K).
Abbreviation Files := (Files K).
Abbreviation hist := (@hist shared FS).
Abbreviation within := (within sameContents).

(** What a call that cannot step waits for. *)
Definition blocked (c : ghost) (s : shared) : Prop :=
  awaits (cHeld <$> heap s) (commitMu s) (gateReaders s) (gateWaiting s) (gateWriter s) (lockOf c) \/
  (lockOf c = unlocked /\ exists start, gAwait c = Some (Budget.Parked start, wakes s)).

(** Inode numbers are left. *)
Definition room (s : shared) : Prop := nextIno (mem s) + 1 < 2 ^ 64.

(** A call made for the request [rq] is verified with the effect of that. *)
Definition run {A} (p : prog shared A) (t : nat) (H : hist) (c : ghost) (Q : hist -> A -> ghost -> Prop) : Prop :=
  wp J sameContents blocked room (effect K rq) p t H c Q.

(** The calm states at which a call takes its steps, and the states. *)
Definition at_ (H : hist) (R : FS -> FS -> Prop) : Prop := exists s a s' a', ((s, a), (s', a')) ∈ H /\ R a a'.
Definition during (H : hist) (R : shared -> shared -> Prop) : Prop := exists s a s' a', ((s, a), (s', a')) ∈ H /\ R s s'.

(** [H'] has the steps of [H]. *)
Definition follows (H H' : hist) : Prop := forall x, x ∈ H -> x ∈ H'.

Lemma within_follows H H' : within H H' -> follows H H'.
Proof using Type. intros Hw x. by eapply within_elem. Qed.

Lemma at_follows H H' R : follows H H' -> at_ H R -> at_ H' R.
Proof using Type. intros Hw (s&a&s'&a'&Hh&HR). exists s, a, s', a'. split; [by apply Hw|done]. Qed.

Lemma at_within H H' R : within H H' -> at_ H R -> at_ H' R.
Proof using Type. intros Hw. by apply at_follows, within_follows. Qed.

Lemma at_took (H : hist) s a s' a' (R : FS -> FS -> Prop) : R a a' -> at_ (took H (s, a) (s', a')) R.
Proof using Type. intros HR. exists s, a, s', a'. split; [apply took_elem|done]. Qed.

Lemma at_mono H (R R' : FS -> FS -> Prop) : at_ H R -> (forall a a', R a a' -> R' a a') -> at_ H R'.
Proof using Type. intros (s&a&s'&a'&Hh&HR) Himp. exists s, a, s', a'. auto. Qed.

Lemma during_follows H H' R : follows H H' -> during H R -> during H' R.
Proof using Type. intros Hw (s&a&s'&a'&Hh&HR). exists s, a, s', a'. split; [by apply Hw|done]. Qed.

Lemma during_within H H' R : within H H' -> during H R -> during H' R.
Proof using Type. intros Hw. by apply during_follows, within_follows. Qed.

Lemma during_took (H : hist) s a s' a' (R : shared -> shared -> Prop) : R s s' -> during (took H (s, a) (s', a')) R.
Proof using Type. intros HR. exists s, a, s', a'. split; [apply took_elem|done]. Qed.

(** ** Structure *)

Lemma run_ret {A} (v : A) t H c (Q : hist -> A -> ghost -> Prop) : Q H v c -> run (Ret v) t H c Q.
Proof using Type. done. Qed.

Lemma run_bind {A B} (m : prog shared A) (f : A -> prog shared B) t H c Q :
  run m t H c (fun H' v c' => run (f v) t H' c' Q) -> run (pbind m f) t H c Q.
Proof using Type. apply wp_bind. Qed.

(** The rule for a program with a specification: it may end in any state the
    specification allows, its history longer. *)
Lemma run_mono {A} (p : prog shared A) t H c (Q Q' : hist -> A -> ghost -> Prop) :
  run p t H c Q -> (forall H' v c', Q H' v c' -> Q' H' v c') -> run p t H c Q'.
Proof using Type. apply wp_mono. Qed.

Lemma run_seq {A B} (m : prog shared A) (f : A -> prog shared B) t H c Q R :
  run m t H c R -> (forall H' v c', R H' v c' -> run (f v) t H' c' Q) -> run (pbind m f) t H c Q.
Proof using Type. intros Hm Hf. apply run_bind. by eapply run_mono. Qed.

Lemma run_or {A B} (m : prog shared (result A)) (f : A -> prog shared (result B)) t H c Q R :
  run m t H c R -> (forall H' v c', R H' (Ok v) c' -> run (f v) t H' c' Q) ->
  (forall H' e c', R H' (Err e) c' -> Q H' (Err e) c') -> run (orReturn m f) t H c Q.
Proof using Type. intros Hm Hf He. eapply run_seq; [exact Hm|]. intros H' [v|e] c' HR; [by apply Hf|]. by apply run_ret, He. Qed.

(** ** Steps *)

(** A step that may block, and is quiet. *)
Lemma run_atom {B} (g : shared -> option (B * shared)) t H c (Q : hist -> B -> ghost -> Prop) :
  (forall s C a H', within H H' -> room s -> J s C a -> C !! t = Some c ->
    match g s with
    | None => blocked c s
    | Some (b, s') => exists c' a', J s' (<[t := c']> C) a' /\ sameContents a a' /\ Q (took H' (s, a) (s', a')) b c'
    end) -> run (atom g) t H c Q.
Proof using Type.
  intros Hs. apply wp_atom. intros s C a Hr HJ Hc. specialize (Hs s C a H (within_refl _ _) Hr HJ Hc). destruct (g s) as [[b s']|]; [|done].
  destruct Hs as (c'&a'&H1&H2&H3). exists c', a'. split; [done|]. split; [by left|done].
Qed.

(** The step with the effect of the call's request, after quiet ones. *)
Lemma run_effect {B} (g : shared -> B * shared) t H c (Q : hist -> B -> ghost -> Prop) :
  calmly sameContents H ->
  (forall s C a, room s -> J s C a -> C !! t = Some c ->
    exists c' a', J (g s).2 (<[t := c']> C) a' /\ (sameContents a a' \/ effect K rq a a') /\ Q (took H (s, a) ((g s).2, a')) (g s).1 c') ->
  run (act1 g) t H c Q.
Proof using Type.
  intros Hcalm Hs. apply wp_atom. intros s C a Hr HJ Hc. destruct (Hs s C a Hr HJ Hc) as (c'&a'&H1&H2&H3). destruct (g s) as [b s'].
  exists c', a'. split; [done|]. split; [|done]. destruct H2 as [?|?]; [by left|by right].
Qed.

Lemma run_act {B} (g : shared -> B * shared) t H c (Q : hist -> B -> ghost -> Prop) :
  (forall s C a H', within H H' -> room s -> J s C a -> C !! t = Some c ->
    exists c' a', J (g s).2 (<[t := c']> C) a' /\ sameContents a a' /\ Q (took H' (s, a) ((g s).2, a')) (g s).1 c') ->
  run (act1 g) t H c Q.
Proof using Type.
  intros Hs. apply run_atom. intros s C a H' HH Hr HJ Hc. destruct (Hs s C a H' HH Hr HJ Hc) as (c'&a'&H1&H2&H3). destruct (g s) as [b s']. eauto.
Qed.

(** A look at the state, after which the call may know more. *)
Lemma run_peek {B} (g : shared -> B) t H c (Q : hist -> B -> ghost -> Prop) :
  (forall s C a H', within H H' -> J s C a -> C !! t = Some c ->
    exists c', J s (<[t := c']> C) a /\ Q (took H' (s, a) (s, a)) (g s) c') ->
  run (peek g) t H c Q.
Proof using Type.
  intros Hs. apply run_act. simpl. intros s C a H' HH _ HJ Hc. destruct (Hs s C a H' HH HJ Hc) as (c'&H1&H2).
  exists c', a. split; [done|]. split; [apply sameContents_refl|done].
Qed.

Lemma run_poke g t H c (Q : hist -> unit -> ghost -> Prop) :
  (forall s C a H', within H H' -> J s C a -> C !! t = Some c ->
    exists c' a', J (g s) (<[t := c']> C) a' /\ sameContents a a' /\ Q (took H' (s, a) (g s, a')) tt c') ->
  run (poke g) t H c Q.
Proof using Type. intros Hs. apply run_act. simpl. intros s C a H' HH _. by apply Hs. Qed.

(** A loop, by an invariant. *)
Lemma run_loopP {A X Y} (I : hist -> X -> ghost -> Prop) (body : X -> prog shared (X + Y)) x (k : Y -> prog shared A) t H c Q :
  (forall H H' x c, within H H' -> I H x c -> I H' x c) -> I H x c ->
  (forall H x c, I H x c -> run (body x) t H c (fun H' r c' => match r with inl x' => I H' x' c' | inr y => run (k y) t H' c' Q end)) ->
  run (Loop body x k) t H c Q.
Proof using Type. apply wp_loop. Qed.

Lemma keep_ghost (C : list ghost) t c : C !! t = Some c -> <[t := c]> C = C.
Proof using Type. apply list_insert_id. Qed.

(** ** Locks *)

Lemma run_lock id p t H c :
  gFile c = None -> (id, p) ∈ gPtrs c ->
  run (lockFile p) t H c (fun H' _ c' => within H H' /\ exists o, c' = set_gFile (Some (id, p, Resting o)) c).
Proof using Type.
  intros Hf Hin. apply run_atom. intros s C a H' HH _ HJ Hc.
  pose proof (fi_ptrs _ _ _ _ (j_files _ _ _ _ HJ) t c id p Hc Hin) as Hpt. destruct (pt_heap _ _ _ Hpt) as [cl Hcl]. rewrite Hcl.
  destruct (cHeld cl) eqn:Eh.
  - left. apply (AwaitFile _ _ _ _ _ _ p); [by rewrite lookup_fmap, Hcl; simpl; rewrite Eh|]. unfold lockOf. by rewrite Hf.
  - eexists _, a. split; [by eapply (J_lock K)|]. split; [apply sameContents_refl|]. split; [later|eauto].
Qed.

Lemma run_unlock id p o t H c :
  gFile c = Some (id, p, Resting o) -> run (unlockFile p) t H c (fun H' _ c' => within H H' /\ c' = set_gFile None c).
Proof using Type.
  intros Hf. apply run_poke. intros s C a H' HH HJ Hc. eexists _, a. split; [by eapply (J_unlock K)|].
  split; [apply sameContents_refl|]. split; [later|done].
Qed.

Lemma run_lockCommit t H c :
  gFile c = None -> gGate c = GNone -> gCommit c = false -> gWatch c = None -> gSeal c = None ->
  run lockCommit t H c (fun H' _ c' => within H H' /\ c' = set_gCommit true c).
Proof using Type.
  intros Hf Hg Hm Hw Hs. apply run_atom. intros s C a H' HH _ HJ Hc. destruct (commitMu s) eqn:Em.
  - left. apply AwaitCommit; try done. unfold lockOf. by rewrite Hf.
  - eexists _, a. split; [by apply (J_commit_take K)|]. split; [apply sameContents_refl|]. split; [later|done].
Qed.

Lemma run_unlockCommit t H c :
  gGate c = GNone -> gCommit c = true -> gWatch c = None -> gSeal c = None ->
  run unlockCommit t H c (fun H' _ c' => within H H' /\ c' = set_gCommit false c).
Proof using Type.
  intros Hg Hm Hw Hs. apply run_poke. intros s C a H' HH HJ Hc. eexists _, a. split; [by apply (J_commit_drop K)|].
  split; [apply sameContents_refl|]. split; [later|done].
Qed.

Lemma run_rlock t H c :
  gFile c = None -> gGate c = GNone -> gCommit c = false -> gWatch c = None ->
  run gateRLock t H c (fun H' _ c' => within H H' /\ c' = set_gGate GReading c).
Proof using Type.
  intros Hf Hg Hm Hw. apply run_atom. intros s C a H' HH _ HJ Hc. destruct (gateWriter s || gateWaiting s) eqn:E.
  - left. apply AwaitShare; try done. unfold lockOf. by rewrite Hf.
  - eexists _, a. split; [by apply (J_share K)|]. split; [apply sameContents_refl|]. split; [later|done].
Qed.

Lemma run_runlock t H c :
  gGate c = GReading -> gWatch c = None -> run gateRUnlock t H c (fun H' _ c' => within H H' /\ c' = set_gGate GNone c).
Proof using Type.
  intros Hg Hw. apply run_poke. intros s C a H' HH HJ Hc. eexists _, a. split; [by apply (J_unshare K)|].
  split; [apply sameContents_refl|]. split; [later|done].
Qed.

(** Only the owner of commitMu comes to the gate as a writer, so it never meets
    another there. *)
Lemma run_gateLock t H c :
  gFile c = None -> gGate c = GNone -> gCommit c = true -> gWatch c = None ->
  run gateLock t H c (fun H' _ c' => within H H' /\ c' = set_gGate GWriting c).
Proof using Type.
  intros Hf Hg Hm Hw. apply run_bind. apply run_atom. intros s C a H' HH _ HJ Hc.
  pose proof (Locks_not_writing _ _ _ _ _ _ (j_locks _ _ _ _ HJ) t (lockOf c) (lock_at C t c Hc) Hm ltac:(simpl; congruence)) as E1.
  pose proof (Locks_not_waiting _ _ _ _ _ _ (j_locks _ _ _ _ HJ) t (lockOf c) (lock_at C t c Hc) Hm ltac:(simpl; congruence)) as E2.
  assert (E : gateWriter s || gateWaiting s = false) by by rewrite E1, E2. rewrite E.
  eexists _, a. split; [by apply (J_announce K)|]. split; [apply sameContents_refl|]. apply run_atom. intros s1 C1 a1 H1 HH1 _ HJ1 Hc1.
  destruct (gateReaders s1) as [|r] eqn:Er.
  - eexists _, a1. split; [by apply (J_acquire K)|]. split; [apply sameContents_refl|]. split; [|done].
    eapply within_trans; [|apply within_took; [exact HH1|apply sameContents_refl]]. later.
  - left. apply AwaitReaders; [by rewrite Er| |done]. unfold lockOf. simpl. by rewrite Hf.
Qed.

(** ** Calls of the store *)

(** A call that leaves the mount but for the cache and the known chunks, and only
    adds chunks to the bucket. *)
Definition carries {A} (m : act W A) (Q : W -> result A -> Prop) : Prop :=
  forall f w r f' w', cacheOK f -> skipVerify (cf f) = false -> held f w -> m (f, w) = (r, (f', w')) ->
    aside f f' /\ cacheOK f' /\ held f' w' /\ gained w w' /\ Q w' r.

Lemma run_lift {A} (m : act W A) t H c (Q : W -> result A -> Prop) (R : result A -> ghost -> Prop) :
  carries m Q ->
  (forall s C a r, J s C a -> C !! t = Some c -> Q (bucket s) r -> exists c', J s (<[t := c']> C) a /\ R r c') ->
  run (lift m) t H c (fun H' r c' => within H H' /\ R r c' /\ during H' (fun s _ => exists x, m (mem s, bucket s) = (r, x))).
Proof using Type.
  intros Hm HR. apply run_act. intros s C a H' HH _ HJ Hc. destruct (m (mem s, bucket s)) as [r [f w]] eqn:E.
  destruct (fetch_ok K _ _ _ (j_files _ _ _ _ HJ)) as [H1 H2]. pose proof (st_held _ _ (j_stored _ _ _ _ HJ)) as H3.
  destruct (Hm _ _ _ _ _ H1 H2 H3 E) as (Ha&Hca&Hh&Hg&HQ).
  destruct (J_transfer K s C a f w HJ Ha Hca Hh Hg) as [HJ' Hat].
  destruct (HR _ C _ r HJ' Hc HQ) as (c'&HJ2&Hc'). exists c', (calm (open a) f). simpl.
  split; [done|]. split; [done|]. split; [later|]. split; [done|]. apply during_took. eauto.
Qed.

Lemma loadChunk_carries ref : carries (loadChunk ref) (fun _ r => forall d, r = Ok d -> d = chunkData ref).
Proof using Lw.
  intros f w r f' w' Hca Hv Hh E. destruct (loadChunk_spec _ _ _ _ _ _ Hv Hca E) as (H1&H2&H3).
  destruct (loadChunk_held ref f w r f' w' Hh Hv E) as (H4&H5&_). split_and!; try done. intros d Hd. by apply H3.
Qed.

Lemma run_load ref t H c :
  run (lift (loadChunk ref)) t H c (fun H' r c' => within H H' /\ c' = c /\ (forall d, r = Ok d -> d = chunkData ref) /\
    during H' (fun s _ => exists x, loadChunk ref (mem s, bucket s) = (r, x))).
Proof using Lw.
  eapply run_mono; [eapply (run_lift _ t H c _ (fun r c' => c' = c /\ forall d, r = Ok d -> d = chunkData ref))|intros H' r c' (H1&[H2 H3]&H4); split_and!; [exact H1|exact H2|exact H3|exact H4]]; [apply loadChunk_carries|].
  intros s C a r HJ Hc HQ. exists c. by rewrite keep_ghost.
Qed.

Lemma run_put data t H c :
  run (lift (putChunk data)) t H c (fun H' r c' => within H H' /\ grown c c' /\
    forall ref, r = Ok ref -> ref = mkChunkRef (sha data) (u32 (blen data)) /\ ref ∈ gMine c').
Proof using Lw.
  eapply run_mono; [eapply (run_lift _ t H c (fun w r => forall ref, r = Ok ref -> ref = mkChunkRef (sha data) (u32 (blen data)) /\ refStored w ref)
    (fun r c' => grown c c' /\ forall ref, r = Ok ref -> ref = mkChunkRef (sha data) (u32 (blen data)) /\ ref ∈ gMine c'))|intros H' r c' (H1&[H2 H3]&_); split_and!; [exact H1|exact H2|exact H3]].
  - intros f w r f' w' Hca Hv Hh E. destruct (putChunk_spec _ _ _ _ _ _ Hca E) as (H1&H2&H3).
    destruct (putChunk_held data f w r f' w' Hh Hv E) as (H4&H5&_&H6). split_and!; try done. intros ref Hr. split; [by apply H3|by apply H6].
  - intros s C a [ref|e] HJ Hc HQ.
    + destruct (HQ ref eq_refl) as [-> Hst]. eexists. split; [by apply (J_mine K)|]. split.
      * split; try done. simpl. intros x Hin. by apply list_elem_of_further.
      * intros ref [= <-]. split; [done|]. simpl. apply list_elem_of_here.
    + exists c. rewrite keep_ghost by done. split; [done|]. by split; [apply grown_refl|].
Qed.

(** A read of the bucket. *)
Lemma run_get {A} (m : W -> result A * W) t H c :
  (forall w, objects (m w).2 = objects w) ->
  run (lift (onStore m)) t H c (fun H' _ c' => within H H' /\ c' = c).
Proof using Type.
  intros Hm. eapply run_mono; [eapply (run_lift _ t H c (fun _ _ => True) (fun _ c' => c' = c))|intros H' r c' (H1&H2&_); split; [exact H1|exact H2]].
  - intros f w r f' w' Hca Hv Hh. unfold onStore. simpl. specialize (Hm w). destruct (m w) as [r0 w0]. intros [= <- <- <-]. simpl in Hm.
    split; [apply aside_refl|]. split; [done|].
    assert (Hg : gained w w0) by (apply gained_same; [done|apply Hh]). split; [|done]. eapply held_gained; [done..|]. auto.
  - intros s C a r HJ Hc _. exists c. by rewrite keep_ghost.
Qed.

End Rules.

#[global] Arguments run : simpl never.
#[global] Arguments pbind : simpl never.
