(* ===== verification/HoldRead.v ===== *)
(** * READ among other calls

    A READ takes its view in at most two holds of mu and fetches the chunks it
    names with no lock held. [run_Read]: the answer is that of the file at one
    moment of the call, the hold in which the view was taken, whatever other
    calls did before, between and after: chunks never change, and the holder of
    openFile.mu sees the buffer the inode goes with. *)

From stdpp Require Import sorting.
From S2P Require Import Prelude Prog Vfs Fsm Modes Policy Inode ChunkCache Budget Store FsState Tree Namespace.
From S2P Require Import NamespaceInv Drops Effects Data DataSpec FileSpec DataInv ReadDir Commit WritePath Durable.
From S2P Require Import CommitSpec SyncSpec Whole System Locks Hold HoldInv HoldSteps HoldFile HoldOps HoldCommit HoldRules.

Section Read.
Context {Cd : Codec} {W : Type} {St : Store W} {Vw : StoreView W} {Lw : StoreLaws W}
  {Dg : Digest} {Hx : HexDigest} {Ro : RunOrder} {P : Policy} {TC : TypeChecked P}.
Context (K : conf) (rq : request).
Abbreviation shared := (shared W).
Abbreviation J := (J K).
Abbreviation Files := (Files K).
Abbreviation hist := (@hist shared FS).
Abbreviation within := (within sameContents).
Abbreviation calmly := (calmly sameContents).
Abbreviation run := (run K rq).

Lemma abs_readable (s : shared) C a who h : Files s C a -> readable (mem s) who h = readable a who h.
Proof using Type. intros HF. unfold readable. by rewrite (abs_resolve K _ _ _ HF). Qed.

Lemma readable_resolve f who h k n : readable f who h = Ok (k, n) -> resolve f h = Ok (k, n).
Proof using Type. unfold readable. destruct (resolve f h) as [[k' n']|]; [|done]. simpl. destruct (checkPerm OpRead who n'); [done|]. by intros [= <- <-]. Qed.

(** The inode number in a handle that resolves. *)
Lemma handle_id (s : shared) C a h k n : Files s C a -> resolve (mem s) h = Ok (k, n) ->
  inodes (mem s) !! k = Some n /\ iID n = k /\ decodeHandle h = Some (k, iGen n).
Proof using Type.
  intros HF Hr. pose proof (resolve_ok _ _ _ _ Hr) as (Hn&_&_). split; [done|]. split; [by apply (abs_file K _ _ _ HF)|].
  unfold resolve in Hr. destruct (decodeHandle h) as [[i g]|]; [|done]. destruct (inodes (mem s) !! i) as [m|]; [|done].
  destruct (Z.eqb_spec (iGen m) g); [|done]. injection Hr as <- <-. by subst.
Qed.

Lemma conf_cs (s : shared) C a : Files s C a -> 0 < chunkSize K < 2 ^ 32 /\ 0 <= maxFileSize K < 2 ^ 64.
Proof using Type. intros HF. destruct (fi_good _ _ _ _ HF) as [_ [D1 D2 _ _ _ _]]. by rewrite (abs_cf K _ _ _ HF) in D1, D2. Qed.

Section Call.
Context (who : Caller) (h : Handle) (off count : Z).
Hypotheses (Hoff : 0 <= off) (Hcount : 0 <= count).

(** The view [v] of the file at a state with the calm state [a]. *)
Definition viewOf (v : Z * Z * bytes * list readRef) (a : FS) : Prop :=
  let '(size, end_, out, refs) := v in
  exists id n, readable a who h = Ok (id, n) /\ size = iSize n /\ (off < size ->
    end_ = readEnd off size count /\ refs = readRefs (chunkSize K) n (ofDirty (bufOf a id)) (ofPendingTrim (bufOf a id)) off end_ /\
    blen out = end_ - off /\ forall j, 0 <= j < end_ - off -> bget out j =
      match ofDirty (bufOf a id) !! ((off + j) / chunkSize K) with Some b => bget (bData b) ((off + j) mod chunkSize K) | None => zero_byte end).

(** The file at [a] is one the caller may read, and [ref] a chunk the READ needs. *)
Definition needs (ref : chunkRef) (a : FS) : Prop :=
  exists id n, readable a who h = Ok (id, n) /\ ref ∈ map rrRef (readRefs (chunkSize K) n (ofDirty (bufOf a id)) (ofPendingTrim (bufOf a id)) off (readEnd off (iSize n) count)).

(** The answer [r]: no step of the call changed anything, and what was read is
    the file as it was at one of them; an error is that of finding the file at
    one of them, or of fetching a chunk it had at one. *)
Definition answersRead (r : result (bytes * bool)) (H : hist) : Prop :=
  calmly H /\
  match r with
  | Ok (out, eof) => at_ H (fun a _ => exists id n, readable a who h = Ok (id, n) /\ readsTo (chunkSize K) n (bufOf a id) off count out eof)
  | Err e => at_ H (fun a _ => readable a who h = Err e) \/
      exists ref, at_ H (fun a _ => needs ref a) /\ during H (fun s _ => exists x, loadChunk ref (mem s, bucket s) = (Err e, x))
  end.

(** The view without the copy. *)
Definition firstOf (o : openFile) (v : Z * Z * list readRef) (a : FS) : Prop :=
  let '(size, end_, refs) := v in
  exists id n, readable a who h = Ok (id, n) /\ size = iSize n /\ ofDirty (bufOf a id) = ofDirty o /\ (off < size ->
    end_ = readEnd off size count /\ refs = readRefs (chunkSize K) n (ofDirty (bufOf a id)) (ofPendingTrim (bufOf a id)) off end_).

Definition found (r : result (Z * Z * bytes * list readRef)) (H : hist) : Prop :=
  match r with Ok v => at_ H (fun a _ => viewOf v a) | Err e => at_ H (fun a _ => readable a who h = Err e) end.

Lemma found_within r H H' : within H H' -> found r H -> found r H'.
Proof using Type. intros Hw. destruct r; by apply at_within. Qed.

Lemma run_second id g p o t H c :
  gFile c = Some (id, p, Resting o) -> decodeHandle h = Some (id, g) ->
  run (peek (readSecond who h p off count)) t H c (fun H' r c' => within H H' /\ c' = c /\
    match r with Ok v => at_ H' (fun a _ => firstOf o v a) | Err e => at_ H' (fun a _ => readable a who h = Err e) end).
Proof using Type.
  clear Hoff Hcount. intros Hf Hh. apply run_peek. intros s C a H' HH HJ Hc. exists c. rewrite keep_ghost by done. split; [done|]. split; [later|].
  split; [done|]. unfold readSecond. pose proof (j_files _ _ _ _ HJ) as HF.
  destruct (hold_cell K s C a t c id p _ HJ Hc Hf) as (_&cl&Hp&Hb&_&Hal&Hlive&_).
  destruct (readable (mem s) who h) as [[k n]|e] eqn:Er; [|apply at_took; by rewrite <- (abs_readable s C a)].
  pose proof (readable_resolve _ _ _ _ _ Er) as Hr. destruct (handle_id s C a h k n HF Hr) as (Hn&_&Hd). rewrite Hh in Hd. injection Hd as <- _.
  assert (Hopen : open a !! id = Some (cOf cl)) by (apply Hlive; unfold alive; eauto).
  assert (Hra : readable a who h = Ok (id, n)) by (by rewrite <- (abs_readable s C a)).
  rewrite Hb, (fi_conf _ _ _ _ HF). destruct (Z.leb_spec (iSize n) off) as [Hle|Hgt]; apply at_took; exists id, n; rewrite (abs_buf _ _ _ Hopen).
  - split; [done|]. split; [done|]. split; [apply Hal|]. lia.
  - split; [done|]. split; [done|]. split; [apply Hal|done].
Qed.

Lemma run_copy id p o end_ t H c :
  gFile c = Some (id, p, Resting o) ->
  run (peek (fun s => copyDirty (chunkSize (cf (mem s))) off end_ (bufAt p s))) t H c (fun H' out c' => within H H' /\ c' = c /\
    0 < chunkSize K /\ out = copyDirty (chunkSize K) off end_ o).
Proof using Type.
  clear Hoff Hcount. intros Hf. apply run_peek. intros s C a H' HH HJ Hc. exists c. rewrite keep_ghost by done. split; [done|]. split; [later|].
  split; [done|]. pose proof (j_files _ _ _ _ HJ) as HF. destruct (conf_cs s C a HF) as [? _]. split; [lia|].
  destruct (hold_cell K s C a t c id p _ HJ Hc Hf) as (_&cl&Hp&Hb&_&(Hal&_)&_). rewrite Hb, (fi_conf _ _ _ _ HF).
  unfold copyDirty. by rewrite Hal.
Qed.

Lemma run_readBuffered id g p t H c :
  over c -> (id, p) ∈ gPtrs c -> decodeHandle h = Some (id, g) ->
  run (readBufferedP who h p off count) t H c (fun H' r c' => within H H' /\ over c' /\
    found r H').
Proof using Hoff Hcount.
  intros Hov Hin Hh. eapply run_seq; [apply (run_lock K rq id); [apply Hov|done]|]. intros H1 _ c1 [HH1 (o&->)].
  eapply run_seq; [by apply (run_second id g)|]. intros H2 got c2 (HH2&->&Hgot).
  assert (Hend : forall H' (r : result (Z * Z * bytes * list readRef)), within H2 H' -> found r H' ->
    run (let~ _ := unlockFile p in Ret r) t H' (set_gFile (Some (id, p, Resting o)) c) (fun H' r c' => within H H' /\ over c' /\ found r H')).
  { intros H' r HH' Hr. eapply run_seq; [by eapply run_unlock|]. intros H3 _ c3 [HH3 ->]. apply run_ret.
    split; [later|]. split; [by destruct Hov|]. by eapply found_within. }
  destruct got as [[[size end_] refs]|e].
  2:{ apply run_bind, run_ret. apply Hend; [apply within_refl|done]. }
  destruct (Z.leb_spec size off) as [Hle|Hgt].
  - apply run_bind, run_ret. apply Hend; [apply within_refl|]. eapply at_mono; [exact Hgot|].
    intros a _ (i&n&H3&H4&_&_). exists i, n. split; [done|]. split; [done|]. lia.
  - apply run_bind. eapply run_seq; [by eapply run_copy|]. intros H3 out c3 (HH3&->&Hcs&->). apply run_ret.
    apply Hend; [done|]. eapply at_within; [exact HH3|]. eapply at_mono; [exact Hgot|].
    intros a _ (i&n&G1&G2&G3&G4). exists i, n. split; [done|]. split; [done|]. intros Hlt. destruct (G4 Hlt) as (->&->). split; [done|]. split; [done|].
    destruct (readEnd_spec off size count) as [He _]; [lia|done|]. rewrite G3. apply copyDirty_spec; [lia|lia].
Qed.

Lemma run_fetch end_ refs out t H c :
  run (fetchP (chunkSize K) off end_ refs out) t H c (fun H' r c' => within H H' /\ c' = c /\
    match r with
    | Ok v => v = fillRefs (chunkSize K) off end_ refs out
    | Err e => exists ref, ref ∈ map rrRef refs /\ during H' (fun s _ => exists x, loadChunk ref (mem s, bucket s) = (Err e, x))
    end).
Proof using Lw.
  clear Hoff Hcount. revert out H. induction refs as [|r refs IH]; intros out H; cbn [fetchP].
  { apply run_ret. split; [apply within_refl|]. by split. }
  eapply run_or; [apply run_load| |].
  - intros H1 d c1 (HH1&->&Hd&_). rewrite (Hd d eq_refl). change (match rrTrim r with Some to => _ | None => _ end) with (refData r).
    eapply run_mono; [apply IH|]. intros H2 v c2 (HH2&->&Hv). split; [later|]. split; [done|]. destruct v as [v|e]; [exact Hv|].
    destruct Hv as (ref&Hin&Hl). exists ref. split; [by apply list_elem_of_further|done].
  - intros H1 e c1 (HH1&->&_&Hl). split; [done|]. split; [done|]. exists (rrRef r). split; [apply list_elem_of_here|done].
Qed.

Lemma run_first t H c :
  over c -> run (peek (readFirst who h off count)) t H c (fun H' r c' => within H H' /\ over c' /\
    match r with
    | Ok (inl p) => exists id g, (id, p) ∈ gPtrs c' /\ decodeHandle h = Some (id, g)
    | Ok (inr v) => at_ H' (fun a _ => viewOf v a)
    | Err e => at_ H' (fun a _ => readable a who h = Err e)
    end).
Proof using Hoff Hcount.
  intros Hov. apply run_peek. intros s C a H' HH HJ Hc. unfold readFirst. pose proof (j_files _ _ _ _ HJ) as HF.
  destruct (readable (mem s) who h) as [[k n]|e] eqn:Er.
  2:{ exists c. rewrite keep_ghost by done. split; [done|]. split; [later|]. split; [done|]. apply at_took. by rewrite <- (abs_readable s C a). }
  pose proof (readable_resolve _ _ _ _ _ Er) as Hr. destruct (handle_id s C a h k n HF Hr) as (Hn&Hid&Hd). rewrite Hid.
  destruct (tab s !! k) as [p|] eqn:Et.
  - exists (set_gPtrs ([(k, p)] ++ gPtrs c) c). split.
    { apply (J_listed K); [done..|]. intros i q [[= -> ->]|Hin]%elem_of_cons; [done|by apply elem_of_nil in Hin]. }
    split; [later|]. split; [by destruct Hov|]. exists k, (iGen n). split; [apply list_elem_of_here|done].
  - exists c. rewrite keep_ghost by done. split; [done|]. split; [later|]. split; [done|].
    assert (Hbuf : bufOf a k = newOpenFile).
    { unfold bufOf. destruct (open a !! k) as [u|] eqn:Eu; [|done].
      destruct (proj1 (fi_dom _ _ _ _ HF k) (ex_intro _ u Eu)) as [_ [q Hq]]. congruence. }
    rewrite (fi_conf _ _ _ _ HF). destruct (conf_cs s C a HF) as [Hcs _].
    assert (Hra : readable a who h = Ok (k, n)) by (by rewrite <- (abs_readable s C a)).
    destruct (Z.ltb_spec off (iSize n)) as [Hlt|Hge]; apply at_took; exists k, n; (split; [done|]); (split; [done|]); intros Hlt'; [|lia].
    rewrite Hbuf. destruct (readEnd_spec off (iSize n) count) as [He _]; [lia|done|]. split; [done|]. split; [done|].
    split; [apply blen_zeros; lia|]. intros j Hj. rewrite bget_zeros. simpl. by rewrite lookup_empty.
Qed.

Lemma run_Read t H c :
  calmly H -> over c -> run (ReadP who h off count) t H c (fun H' r c' => over c' /\ answersRead r H').
Proof using Hoff Hcount Lw.
  intros Hcalm Hov. eapply run_or; [by apply run_first| |].
  2:{ intros H1 e c1 (HH1&Ho1&He). split; [done|]. split; [later|]. by left. }
  intros H1 first c1 (HH1&Hov1&Hfirst).
  eapply (run_or K rq _ _ t H1 c1 _ (fun H' r c' => within H1 H' /\ over c' /\ found r H')).
  - destruct first as [p|v]; [destruct Hfirst as (id&g&Hin&Hh); by eapply run_readBuffered|apply run_ret; split; [later|done]].
  - intros H2 [[[size end_] out] refs] c2 (HH2&Hov2&Hv). simpl in Hv. destruct (Z.leb_spec size off) as [Hle|Hgt].
    + apply run_ret. split; [done|]. split; [later|]. eapply at_mono; [exact Hv|]. intros a _ (id&n&H3&->&_). exists id, n. split; [done|]. by apply readsTo_past.
    + eapply (run_seq K rq _ _ t H2 c2 _ (fun H' cs c' => within H2 H' /\ c' = c2 /\ cs = chunkSize K /\ 0 < cs)).
      { apply run_peek. intros s C a H' HH HJ Hc. exists c2. rewrite keep_ghost by done. split; [done|]. split; [later|].
        pose proof (j_files _ _ _ _ HJ) as HF. destruct (conf_cs s C a HF) as [? _]. rewrite (fi_conf _ _ _ _ HF). split; [done|]. split; [done|lia]. }
      intros H3 cs c3 (HH3&->&->&Hcs). eapply run_or; [apply run_fetch| |].
      * intros H4 v c4 (HH4&->&->). apply run_ret. split; [done|]. split; [later|].
        eapply (at_within H2); [later|]. eapply at_mono; [exact Hv|]. intros a _ (id&n&R1&->&R2). exists id, n. split; [done|].
        destruct (R2 ltac:(lia)) as (->&->&R3&R4). apply readsTo_view; [lia|lia|lia|done|done].
      * intros H4 e c4 (HH4&->&ref&Hin&Hl). split; [done|]. split; [later|]. right. exists ref. split; [|done].
        eapply (at_within H2); [later|]. eapply at_mono; [exact Hv|]. intros a _ (id&n&R1&->&R2). exists id, n. split; [done|].
        by destruct (R2 ltac:(lia)) as (->&->&_).
  - intros H2 e c2 (HH2&Hov2&He). split; [done|]. split; [later|]. by left.
Qed.

End Call.

End Read.
