(* ===== verification/HoldFlush.v ===== *)
(** * Flushes among other calls

    [run_flushOpen]: a flush uploads what it read under openFile.mu, repoints the
    file in one hold of mu and gives back the buffer's charge; when it succeeds
    the file's mark is clear. [run_settleAll]: holding the gate, which keeps size
    changes out, the pass leaves no file marked. *)

From stdpp Require Import sorting.
From S2P Require Import Prelude Prog Vfs Fsm Modes Policy Inode ChunkCache Budget Store FsState Tree Namespace.
From S2P Require Import NamespaceInv Drops Effects Data DataSpec FileSpec DataInv ReadDir Commit WritePath Durable.
From S2P Require Import CommitSpec SyncSpec Whole System Locks Hold HoldInv HoldSteps HoldFile HoldOps HoldCommit HoldRules.

(** [c'] holds what [c] holds but for a file, and watches [w]. *)
Record passed (w : option (gset Z)) (c c' : ghost) : Prop := {
  pa_gate : gGate c' = gGate c;
  pa_commit : gCommit c' = gCommit c;
  pa_await : gAwait c' = gAwait c;
  pa_seal : gSeal c' = gSeal c;
  pa_names : gNames c ⊆ gNames c';
  pa_ptrs : gPtrs c ⊆ gPtrs c';
  pa_watch : gWatch c' = w
}.

Lemma passed_grown c c' : grown c c' -> passed (gWatch c) c c'.
Proof. intros [[]]. split; try done. congruence. Qed.

Lemma passed_trans w w' c c1 c2 : passed w c c1 -> passed w' c1 c2 -> passed w' c c2.
Proof. intros [] []. split; try congruence; by etrans. Qed.

(** The watch of a call that has seen [id] settled. *)
Definition less (id : Z) (w : option (gset Z)) : option (gset Z) := (fun X => X ∖ {[id]}) <$> w.

Lemma less_none (X : gset Z) : X ⊆ X ∖ ∅.
Proof. set_solver. Qed.

Lemma less_more (X Y L : gset Z) id : Y ⊆ (X ∖ {[id]}) ∖ L -> Y ⊆ X ∖ ({[id]} ∪ L).
Proof. set_solver. Qed.

Section Flush.
Context {Cd : Codec} {W : Type} {St : Store W} {Vw : StoreView W} {Lw : StoreLaws W}
  {Dg : Digest} {Hx : HexDigest} {Ro : RunOrder} {P : Policy} {TC : TypeChecked P}.
Context (K : conf) (rq : request).
Abbreviation shared := (shared W).
Abbreviation J := (J K).
Abbreviation Files := (Files K).
Abbreviation hist := (@hist shared FS).
Abbreviation within := (within sameContents).
Abbreviation calmly := (calmly sameContents).
Abbreviation run := (run K rq).

(** Two changes of what one call holds, in one step. *)
Lemma J_then (s : shared) C a t c1 c2 :
  J s (<[t := c1]> C) a -> (t < length C)%nat -> (forall D, J s D a -> D !! t = Some c1 -> J s (<[t := c2]> D) a) -> J s (<[t := c2]> C) a.
Proof using Type.
  intros HJ Ht Hnext. rewrite <- (list_insert_insert_eq C t c2 c1). apply Hnext; [done|]. by apply list_lookup_insert_eq.
Qed.

(** ** The transfers *)

Definition transferred (c : ghost) (ir : Z * chunkRef) : Prop := ir.2 ∈ gMine c.

Lemma run_each {A} (l : list A) (k : A -> prog shared (result (Z * chunkRef))) (g : A -> Z * chunkRef) t H c :
  (forall x H c, x ∈ l -> run (k x) t H c (fun H' r c' => within H H' /\ grown c c' /\ forall ir, r = Ok ir -> ir = g x /\ transferred c' ir)) ->
  run (eachP l k) t H c (fun H' r c' => within H H' /\ grown c c' /\ forall irs, r = Ok irs -> irs = map g l /\ Forall (transferred c') irs).
Proof using Type.
  intros Hk. revert H c. induction l as [|x l IH]; intros H c; cbn [eachP].
  { apply run_ret. split; [later|]. split; [done|]. by intros irs [= <-]. }
  eapply run_or; [apply Hk; apply list_elem_of_here| |].
  - intros H1 ir c1 (HH1&Hg1&Hir). destruct (Hir ir eq_refl) as [-> Hm]. eapply run_or; [apply IH| |].
    + intros y H2 c2 Hy. apply Hk. by apply list_elem_of_further.
    + intros H2 irs c2 (HH2&Hg2&Hirs). apply run_ret. destruct (Hirs irs eq_refl) as [-> Hms]. split; [later|]. split; [by etrans|].
      intros v [= <-]. split; [done|]. constructor; [|done]. by apply Hg2.
    + intros H2 e c2 (HH2&Hg2&_). split; [later|]. split; [by etrans|done].
  - intros H1 e c1 (HH1&Hg1&_). done.
Qed.

Lemma run_flushTrim o idx t H c : idx ∈ ranged (dom (ofPendingTrim o)) ->
  run (flushTrimP o idx) t H c (fun H' r c' => within H H' /\ grown c c' /\ forall ir, r = Ok ir -> ir = (idx, trimRef o idx) /\ transferred c' ir).
Proof using Lw.
  intros Hidx. apply ranged_elem, elem_of_dom in Hidx as [tr Htr]. unfold flushTrimP. rewrite Htr.
  eapply run_or; [apply run_load| |by intros H1 e c1 (HH1&->&_)]. intros H1 d c1 (HH1&->&Hd&_). rewrite (Hd d eq_refl).
  eapply run_or; [apply run_put| |by intros H2 e c2 (HH2&Hg&_); split; [later|]].
  intros H2 ref c2 (HH2&Hg&Href). apply run_ret. split; [later|]. split; [done|]. intros ir [= <-].
  destruct (Href ref eq_refl) as [-> Hin]. split; [|done]. f_equal. unfold trimRef. rewrite Htr.
  destruct (Z.ltb_spec (tTo tr) (blen (chunkData (tRef tr)))) as [Hlt|Hge]; [done|].
  assert (btake (blen (chunkData (tRef tr))) (chunkData (tRef tr)) = btake (tTo tr) (chunkData (tRef tr))) as ->; [|done].
  unfold btake, blen in *. rewrite !take_ge by lia. done.
Qed.

Lemma run_flushBuf o idx t H c : idx ∈ sortedIdxs (ofDirty o) ->
  run (flushBufP o idx) t H c (fun H' r c' => within H H' /\ grown c c' /\ forall ir, r = Ok ir -> ir = (idx, uploadRef o idx) /\ transferred c' ir).
Proof using Lw.
  intros Hidx. apply sortedIdxs_elem in Hidx as [b Hb]. unfold flushBufP. rewrite Hb.
  eapply run_or; [apply run_put| |by intros H2 e c2 (HH2&Hg&_); split; [later|]].
  intros H2 ref c2 (HH2&Hg&Href). apply run_ret. split; [later|]. split; [done|]. intros ir [= <-].
  destruct (Href ref eq_refl) as [-> Hin]. split; [|done]. unfold uploadRef. by rewrite Hb.
Qed.

Lemma run_transfers o t H c :
  run (let~? trimmed := eachP (ranged (dom (ofPendingTrim o))) (flushTrimP o) in
       let~? uploaded := eachP (sortedIdxs (ofDirty o)) (flushBufP o) in Ret (Ok (trimmed, uploaded))) t H c
    (fun H' r c' => within H H' /\ grown c c' /\ forall tu, r = Ok tu -> tu = (trimmedOf o, uploadedOf o) /\
       forall ir, ir ∈ trimmedOf o ++ uploadedOf o -> ir.2 ∈ gMine c').
Proof using Lw.
  eapply run_or; [apply run_each; intros; by apply run_flushTrim| |by intros H1 e c1 (?&?&_)].
  intros H1 tr c1 (HH1&Hg1&Htr). destruct (Htr tr eq_refl) as [-> Hm1].
  eapply run_or; [apply run_each; intros; by apply run_flushBuf| |].
  - intros H2 up c2 (HH2&Hg2&Hup). destruct (Hup up eq_refl) as [-> Hm2]. apply run_ret. split; [later|]. split; [by etrans|].
    intros tu [= <-]. split; [done|]. intros ir [Hin|Hin]%elem_of_app.
    + apply Hg2. by apply (proj1 (list.Forall_forall _ _) Hm1 ir).
    + by apply (proj1 (list.Forall_forall _ _) Hm2 ir).
  - intros H2 e c2 (HH2&Hg2&_). split; [later|]. split; [by etrans|done].
Qed.

(** ** One file *)

(** The look at the buffer: a file with nothing to flush is settled. *)
Definition nothing (o : openFile) : bool := bool_decide (ofDirty o = ∅) && bool_decide (ofPendingTrim o = ∅).

Lemma run_look id p o t H c :
  gFile c = Some (id, p, Resting o) ->
  run (peek (bufAt p)) t H c (fun H' o1 c' => within H H' /\
    c' = set_gWatch (if nothing o1 && negb (ofUnsettled o1) then less id (gWatch c) else gWatch c) (set_gFile (Some (id, p, Resting o1)) c)).
Proof using Type.
  intros Hf. apply run_peek. intros s C a H' HH HJ Hc. eexists. split; [|split; [later|done]].
  destruct (hold_cell K s C a t c id p _ HJ Hc Hf) as (_&cl&Hp&Hb&_&Hal&H1&H2). rewrite Hb.
  assert (HJ1 : J s (<[t := set_gFile (Some (id, p, Resting (cOf cl))) c]> C) a).
  { eapply (J_phase K); [done..| |by rewrite owed_at, (owed_of _ _ _ _ Hf)]. intros u ((B1&B2&B3)&Hu). split; [|done].
    destruct Hal as (A1&A2&A3). unfold alike. by rewrite A1, A2, A3. }
  destruct (nothing (cOf cl) && negb (ofUnsettled (cOf cl))) eqn:E; [|exact HJ1].
  eapply J_then; [exact HJ1|by eapply lookup_lt_Some|]. intros D HD Ht. apply (J_seen K s D a t (set_gFile (Some (id, p, Resting (cOf cl))) c) id HD Ht).
  intros u Hu. assert (alive s id) as Ha by (apply (fi_dom _ _ _ _ (j_files _ _ _ _ HD)); eauto). rewrite (H1 Ha) in Hu. injection Hu as <-.
  apply andb_true_iff in E as [_ E]. by apply negb_true_iff in E.
Qed.

Lemma run_clear id p o t H c :
  gFile c = Some (id, p, Resting o) -> nothing o = true ->
  run (poke (onBuf p (set_ofUnsettled false))) t H c (fun H' _ c' => within H H' /\
    exists o', c' = set_gWatch (less id (gWatch c)) (set_gFile (Some (id, p, Resting o')) c)).
Proof using Type.
  intros Hf [E1%bool_decide_eq_true E2%bool_decide_eq_true]%andb_true_iff. apply run_poke. intros s C a H' HH HJ Hc.
  destruct (J_clear K s C a t c id p o HJ Hc Hf E1 E2) as (a'&o'&HJ'&Hat&Hu).
  exists (set_gWatch (less id (gWatch c)) (set_gFile (Some (id, p, Resting o')) c)), a'. split; [|split; [done|split; [later|eauto]]].
  eapply J_then; [exact HJ'|by eapply lookup_lt_Some|]. intros D HD Ht. by apply (J_seen K _ D a' t (set_gFile (Some (id, p, Resting o')) c) id).
Qed.

Lemma run_repoint id p o t H c :
  gFile c = Some (id, p, Resting o) -> (forall ir, ir ∈ trimmedOf o ++ uploadedOf o -> ir.2 ∈ gMine c) ->
  run (poke (repointHold id p (trimmedOf o) (uploadedOf o))) t H c (fun H' _ c' => within H H' /\
    exists o', c' = set_gWatch (less id (gWatch c)) (set_gFile (Some (id, p, Emptying o')) c)).
Proof using Type.
  intros Hf Hm. apply run_poke. intros s C a H' HH HJ Hc.
  destruct (J_repoint K s C a t c id p o HJ Hc Hf Hm) as (a'&o'&HJ'&Hat&Hu).
  exists (set_gWatch (less id (gWatch c)) (set_gFile (Some (id, p, Emptying o')) c)), a'. split; [|split; [done|split; [later|eauto]]].
  eapply J_then; [exact HJ'|by eapply lookup_lt_Some|]. intros D HD Ht. by apply (J_seen K _ D a' t (set_gFile (Some (id, p, Emptying o')) c) id).
Qed.

(** The buffer is emptied and its charge given back. *)
Lemma run_empty id p o t H c :
  gFile c = Some (id, p, Emptying o) ->
  run (let~ _ := poke (onBuf p (fun o => set_ofPendingTrim ∅ (set_ofDirty ∅ o))) in
       let~ v := act1 (fun s => (ofBytes (bufAt p s), onBuf p (set_ofBytes 0) s)) in
       let~ _ := poke (releases v) in Ret (Ok tt : result unit)) t H c
    (fun H' r c' => within H H' /\ r = Ok tt /\ c' = set_gFile (Some (id, p, Resting newOpenFile)) c).
Proof using Type.
  intros Hf. eapply (run_seq K rq _ _ t H c _ (fun H' _ c' => within H H' /\ c' = set_gFile (Some (id, p, Emptying (set_ofPendingTrim ∅ (set_ofDirty ∅ o)))) c)).
  { apply run_poke. intros s C a H' HH HJ Hc. eexists _, a. split; [by apply (J_reset K)|]. split; [apply sameContents_refl|]. split; [later|done]. }
  intros H1 _ c1 [HH1 ->].
  eapply (run_seq K rq _ _ t H1 _ _ (fun H' v c' => within H1 H' /\ c' = set_gFile (Some (id, p, Freeing v)) c)).
  { apply run_act. intros s C a H' HH _ HJ Hc. eexists _, a. split; [by eapply (J_swap K)|]. split; [apply sameContents_refl|]. split; [later|done]. }
  intros H2 v c2 [HH2 ->].
  eapply (run_seq K rq _ _ t H2 _ _ (fun H' _ c' => within H2 H' /\ c' = set_gFile (Some (id, p, Resting newOpenFile)) c)).
  { apply run_poke. intros s C a H' HH HJ Hc. eexists _, a. split; [by eapply (J_release K)|]. split; [apply sameContents_refl|]. split; [later|done]. }
  intros H3 _ c3 [HH3 ->]. apply run_ret. split; [later|done].
Qed.

(** The watch after a flush. *)
Definition watchAfter {A} (id : Z) (r : result A) (c : ghost) : option (gset Z) :=
  match r with Ok _ => less id (gWatch c) | Err _ => gWatch c end.

Lemma run_flushBody id p o t H c :
  gFile c = Some (id, p, Resting o) ->
  run (flushBody id p) t H c (fun H' r c' => within H H' /\ passed (watchAfter id r c) c c' /\ exists o', gFile c' = Some (id, p, Resting o')).
Proof using Lw.
  intros Hf. eapply run_seq; [by eapply run_look|]. intros H1 o1 c1 [HH1 ->]. fold (nothing o1). destruct (nothing o1) eqn:En.
  - destruct (ofUnsettled o1) eqn:Eu; cbn [andb negb].
    + eapply run_seq; [by eapply run_clear|]. intros H2 _ c2 [HH2 (o'&->)]. apply run_ret. split; [later|]. split; [done|eauto].
    + apply run_ret. split; [done|]. split; [done|eauto].
  - cbn [andb]. eapply run_seq; [apply run_transfers|]. intros H2 got c2 (HH2&Hg&Hgot). pose proof Hg as [[G1 G2 G3 G4] G5 G6 G7 G8 G9]. simpl in *.
    destruct got as [[trimmed uploaded]|e].
    + destruct (Hgot _ eq_refl) as [[= -> ->] Hm]. eapply run_seq; [by eapply run_repoint|]. intros H3 _ c3 [HH3 (o'&->)].
      eapply run_mono; [by eapply run_empty|]. intros H4 r c4 (HH4&->&->). split; [later|]. split; [|eauto].
      split; try done; simpl; [by rewrite G7|by unfold less; rewrite G5].
    + eapply (run_seq K rq _ _ t H2 c2 _ (fun H' _ c' => within H2 H' /\ exists o', c' = set_gFile (Some (id, p, Resting o')) c2)).
      { apply run_poke. intros s C a H' HH HJ Hc. destruct (J_drop K s C a t c2 id p o1 HJ Hc G1) as (o'&HJ').
        eexists _, a. split; [exact HJ'|]. split; [apply sameContents_refl|]. split; [later|eauto]. }
      intros H3 _ c3 [HH3 (o'&->)]. apply run_ret. split; [later|]. split; [split; simpl; try done; by rewrite ?G7|eauto].
Qed.

Lemma run_flushOpen id p t H c :
  gFile c = None -> (id, p) ∈ gPtrs c ->
  run (flushOpenP id p) t H c (fun H' r c' => within H H' /\ passed (watchAfter id r c) c c' /\ gFile c' = None).
Proof using Lw.
  intros Hf Hin. eapply run_seq; [by apply (run_lock K rq id)|]. intros H1 _ c1 [HH1 (o&->)].
  eapply run_seq; [by eapply run_flushBody|]. intros H2 r c2 (HH2&Hp&o'&Ho').
  eapply run_seq; [by eapply run_unlock|]. intros H3 _ c3 [HH3 ->]. apply run_ret. split; [later|]. split; [|done].
  by destruct Hp as [P1 P2 P3 P4 P5 P6 P7].
Qed.

(** ** Lists of files *)

Lemma run_commitFile id t H c :
  gFile c = None -> gWatch c = None ->
  run (commitFileP id) t H c (fun H' r c' => within H H' /\ passed None c c' /\ gFile c' = None).
Proof using Lw.
  intros Hf Hw. eapply (run_seq K rq _ _ t H c _ (fun H' got c' => within H H' /\ grown c c' /\ forall p, got = Some p -> (id, p) ∈ gPtrs c')).
  { apply run_peek. intros s C a H' HH HJ Hc. destruct (tab s !! id) as [p|] eqn:Ep.
    - exists (set_gPtrs ([(id, p)] ++ gPtrs c) c). split.
      { apply (J_listed K); [done..|]. intros i q [[= -> ->]|Hin]%elem_of_cons; [done|by apply elem_of_nil in Hin]. }
      split; [later|]. split; [split; try done; intros x Hin; by apply list_elem_of_further|].
      intros q [= <-]. apply list_elem_of_here.
    - exists c. rewrite keep_ghost by done. split; [done|]. split; [later|]. by split. }
  intros H1 got c1 (HH1&Hg&Hgot). pose proof (passed_grown _ _ Hg) as Hp. pose proof (hs_file _ _ (gr_same _ _ Hg)) as Hf1. rewrite Hw in Hp.
  destruct got as [p|].
  - eapply run_mono; [apply run_flushOpen; [congruence|by apply Hgot]|]. intros H2 r c2 (HH2&Hp2&Hf2). split; [later|]. split; [|done].
    assert (watchAfter id r c1 = None) as E by (unfold watchAfter, less; rewrite (pa_watch _ _ _ Hp); by destruct r). rewrite E in Hp2.
    by eapply passed_trans.
  - apply run_ret. split; [done|]. split; [done|congruence].
Qed.

(** What a call watched as [w0] watches after flushing [l]. *)
Definition watchedAfter (ok : bool) (l : list (Z * nat)) (w0 w : option (gset Z)) : Prop :=
  match w0 with
  | None => w = None
  | Some X => exists Y, w = Some Y /\ (ok = true -> Y ⊆ X ∖ list_to_set (map fst l))
  end.

(** Files flushed one after another: each is seen settled. *)
Lemma run_flushList l t H c :
  gFile c = None -> (forall id p, (id, p) ∈ l -> (id, p) ∈ gPtrs c) ->
  run (flushListP l) t H c (fun H' r c' => within H H' /\ gFile c' = None /\ exists w, passed w c c' /\ watchedAfter (is_ok r) l (gWatch c) w).
Proof using Lw.
  revert H c. induction l as [|[id p] l IH]; intros H c Hf Hin; cbn [flushListP].
  { apply run_ret. split; [later|]. split; [done|]. exists (gWatch c). split; [by split|]. unfold watchedAfter. destruct (gWatch c) as [X|]; [|done].
    exists X. split; [done|]. intros _. apply less_none. }
  eapply run_or; [apply run_flushOpen; [done|apply Hin; apply list_elem_of_here]| |].
  - intros H1 [] c1 (HH1&Hp1&Hf1). eapply run_mono; [apply IH; [done|]|].
    + intros i q Hiq. apply (pa_ptrs _ _ _ Hp1). apply Hin. by apply list_elem_of_further.
    + intros H2 r c2 (HH2&Hf2&w&Hp2&Hw). split; [later|]. split; [done|]. exists w. split; [by eapply passed_trans|].
      rewrite (pa_watch _ _ _ Hp1) in Hw. simpl in Hw. unfold less, watchedAfter in *. destruct (gWatch c) as [X|]; simpl in *; [|done].
      destruct Hw as (Y&->&HY). exists Y. split; [done|]. intros Hok. by apply less_more, HY.
  - intros H1 e c1 (HH1&Hp1&Hf1). split; [done|]. split; [done|]. eexists. split; [exact Hp1|]. simpl. unfold watchedAfter.
    destruct (gWatch c) as [X|]; [by exists X|done].
Qed.

Lemma listed_elem want (s : shared) id p : (id, p) ∈ listed want s <-> tab s !! id = Some p /\ want (bufAt p s) = true.
Proof using Type.
  unfold listed. rewrite list_elem_of_omap. split.
  - intros (i&_&Hi). destruct (tab s !! i) as [q|] eqn:E; [|done]. destruct (want (bufAt q s)) eqn:Ew; [|done]. by injection Hi as <- <-.
  - intros [Ht Hw]. exists id. split; [apply ranged_elem, elem_of_dom; eauto|]. by rewrite Ht, Hw.
Qed.

Lemma run_flushAll t H c :
  gFile c = None -> gWatch c = None ->
  run flushAllP t H c (fun H' r c' => within H H' /\ passed None c c' /\ gFile c' = None).
Proof using Lw.
  intros Hf Hw. eapply (run_seq K rq _ _ t H c _ (fun H' l c' => within H H' /\ grown c c' /\ forall id p, (id, p) ∈ l -> (id, p) ∈ gPtrs c')).
  { apply run_peek. intros s C a H' HH HJ Hc. eexists. split; [apply (J_listed K) with (l := listed (fun _ => true) s); [done..|]|].
    - intros id p Hl. by apply listed_elem in Hl as [? _].
    - split; [later|]. split; [split; try done; intros x Hin; apply elem_of_app; by right|]. intros id p Hl. apply elem_of_app. by left. }
  intros H1 l c1 (HH1&Hg&Hl). pose proof (passed_grown _ _ Hg) as Hp. pose proof (hs_file _ _ (gr_same _ _ Hg)) as Hf1. rewrite Hw in Hp.
  eapply run_mono; [apply run_flushList; [congruence|done]|]. intros H2 r c2 (HH2&Hf2&w&Hp2&Hw2). split; [later|]. split; [|done].
  rewrite (pa_watch _ _ _ Hp) in Hw2. simpl in Hw2. subst w. by eapply passed_trans.
Qed.

(** The pass over the marked files, holding the gate: when it succeeds nothing is
    marked. *)
Lemma run_settleAll t H c :
  gFile c = None -> gWatch c = None -> gGate c = GWriting ->
  run settleAllP t H c (fun H' r c' => within H H' /\ gFile c' = None /\ exists Y, passed (Some Y) c c' /\ (is_ok r = true -> Y = ∅)).
Proof using Lw.
  intros Hf Hw Hg. eapply (run_seq K rq _ _ t H c _ (fun H' l c' => within H H' /\ gFile c' = None /\
    passed (Some (list_to_set (map fst l))) c c' /\ forall id p, (id, p) ∈ l -> (id, p) ∈ gPtrs c')).
  { apply run_peek. intros s C a H' HH HJ Hc. set (l := listed ofUnsettled s).
    exists (set_gWatch (Some (list_to_set (map fst l))) (set_gPtrs (l ++ gPtrs c) c)). split.
    - eapply J_then; [apply (J_listed K) with (l := l); [done..|]|by eapply lookup_lt_Some|].
      { intros id p Hl. by apply listed_elem in Hl as [? _]. }
      intros D HD Ht. apply (J_watch K); [done..|]. intros id o Ho Hu. apply elem_of_list_to_set, list_elem_of_fmap.
      destruct (proj1 (fi_dom _ _ _ _ (j_files _ _ _ _ HD) id) (ex_intro _ o Ho)) as [_ [p Hp]]. exists (id, p). split; [done|].
      apply listed_elem. split; [done|]. destruct (fi_tab _ _ _ _ (j_files _ _ _ _ HD) id p Hp) as [[cl Hcl] _].
      unfold bufAt. rewrite Hcl. simpl. by rewrite (marks_agree K s D a id p cl HD Hp Hcl), Ho.
    - split; [later|]. split; [done|]. split; [split; try done; intros x Hin; apply elem_of_app; by right|]. intros id p Hl. apply elem_of_app. by left. }
  intros H1 l c1 (HH1&Hf1&Hp&Hl). eapply run_mono; [by apply run_flushList|]. intros H2 r c2 (HH2&Hf2&w&Hp2&Hw2).
  rewrite (pa_watch _ _ _ Hp) in Hw2. destruct Hw2 as (Y&->&HY). split; [later|]. split; [done|]. exists Y. split; [by eapply passed_trans|].
  intros Hok. specialize (HY Hok). apply leibniz_equiv. intros x. split; [|by intros ?%not_elem_of_empty].
  intros Hin. apply HY, elem_of_difference in Hin. tauto.
Qed.

End Flush.
