(* ===== verification/HoldWrite.v ===== *)
(** * Buffered writes and size changes among other calls

    [run_bufferWrite]: however the loop, the charge and the publishing hold are
    interleaved with other calls, the write takes effect whole in the hold that
    publishes it, or the file has gone and nothing is left of it; the other steps
    change nothing a client sees. [run_truncate]: so does a size change, in its
    hold. A call that fails has changed nothing, and its error is that of one of
    its steps. *)

From stdpp Require Import sorting.
From S2P Require Import Prelude Prog Vfs Fsm Modes Policy Inode ChunkCache Budget Store FsState Tree Namespace.
From S2P Require Import NamespaceInv Drops Effects Data DataSpec FileSpec DataInv ReadDir Commit WritePath Durable.
From S2P Require Import CommitSpec SyncSpec Whole System Locks Hold HoldInv HoldSteps HoldFile HoldOps HoldCommit HoldRules.
From S2P Require Import HoldRead HoldFlush.

Section Write.
Context {Cd : Codec} {W : Type} {St : Store W} {Vw : StoreView W} {Lw : StoreLaws W}
  {Dg : Digest} {Hx : HexDigest} {Ro : RunOrder} {P : Policy} {TC : TypeChecked P}.
Context (K : conf) (rq : request).
Abbreviation shared := (shared W).
Abbreviation J := (J K).
Abbreviation Files := (Files K).
Abbreviation hist := (@hist shared FS).
Abbreviation within := (within sameContents).
Abbreviation calmly := (calmly sameContents).
Abbreviation acted := (acted sameContents).
Abbreviation once := (once sameContents).
Abbreviation run := (run K rq).

Lemma run_open id g t H c :
  (id, g) ∈ gNames c -> run (getOpenP id) t H c (fun H' p c' => within H H' /\ c' = set_gPtrs ((id, p) :: gPtrs c) c).
Proof using Type.
  intros Hg. apply run_act. intros s C a H' HH _ HJ Hc. destruct (J_open K s C a t c id g HJ Hc Hg) as (a'&HJ'&Hat).
  eexists _, a'. split; [exact HJ'|]. split; [done|]. split; [later|done].
Qed.

Lemma acted_follows (R : FS -> FS -> Prop) (H H' : hist) : acted R H H' -> follows H H'.
Proof using Type. intros Ha x. by eapply acted_elem. Qed.

(** The contents a write starts from could not be fetched. *)
Definition startFailed (e : error) (H : hist) : Prop :=
  during H (fun s _ => exists refs trims idx wi left x, startChunk (chunkSize K) refs trims idx wi left (mem s, bucket s) = (Err e, x)).

(** ** The loop *)

Section Loop.
Context (refs : list chunkRef) (off : Z) (data : bytes) (id : Z) (p : nat) (o0 : openFile).
Hypotheses (Hcs : 0 < chunkSize K) (Hoff : 0 <= off) (Hend : off + blen data < 2 ^ 64) (Hrefs : Forall (refOK (chunkSize K)) refs).

(** The contents an index starts from. *)
Lemma run_start o oh idx within left t H c :
  alike oh o -> bufOK (chunkSize K) refs o -> 0 <= idx ->
  run (match ofDirty oh !! idx with
       | Some b => Ret (Ok b)
       | None => lift (startChunk (chunkSize K) refs (ofPendingTrim oh) idx within left)
       end) t H c (fun H' r c' => Prog.within sameContents H H' /\ c' = c /\ (forall b, r = Ok b ->
         blen (bData b) <= chunkSize K /\ bCap b = chunkSize K /\
         ((within = 0 /\ chunkSize K <= left) \/ forall v, 0 <= v < chunkSize K -> bget (bData b) v = fileByte (chunkSize K) refs o (idx * chunkSize K + v))) /\
         forall e, r = Err e -> startFailed e H').
Proof using Hcs Hrefs Lw.
  clear Hoff Hend. intros (E1&E2&_) Ho Hidx. rewrite E1, E2. destruct (ofDirty o !! idx) as [b|] eqn:Ed.
  - apply run_ret. split; [later|]. split; [done|]. split; [|done]. intros b' [= <-]. destruct (bo_dirty _ _ _ Ho idx b Ed) as (_&H1&H2).
    split; [done|]. split; [done|]. right. intros v Hv. by rewrite fileByte_at, Ed by done.
  - eapply run_mono; [eapply (run_lift K rq _ t H c (fun _ r => forall b, r = Ok b -> blen (bData b) <= chunkSize K /\ bCap b = chunkSize K /\
       ((within = 0 /\ chunkSize K <= left) \/ forall v, 0 <= v < chunkSize K -> bget (bData b) v = fileByte (chunkSize K) refs o (idx * chunkSize K + v)))
       (fun r c' => c' = c /\ _))|intros H' r c' (H1&[H2 H3]&(s&a&s'&a'&Hin&x&Hx')); split_and!; [exact H1|exact H2|exact H3|]; intros e ->; exists s, a, s', a';
         split; [exact Hin|by exists refs, (ofPendingTrim o), idx, within, left, x]].
    + intros f w r f' w' Hca Hv Hh E. destruct (startChunk_spec _ _ _ _ _ _ _ _ _ _ _ Hcs Hidx Hv Hca Hrefs Ho Ed E) as (H1&H2&H3).
      destruct (startChunk_held _ _ _ _ _ _ f w r f' w' Hh Hv E) as (H4&H5&_). by split_and!.
    + intros s C a r HJ Hc HQ. exists c. rewrite keep_ghost by done. split; [done|]. split; [done|]. exact HQ.
Qed.

Lemma run_loop fuel o written charge t H c :
  gFile c = Some (id, p, Filling o0 refs o) -> 0 <= written <= blen data -> blen data - written < Z.of_nat fuel ->
  bufOK (chunkSize K) refs o ->
  run (bwLoopP fuel (chunkSize K) refs off data p written charge) t H c (fun H' r c' => within H H' /\
    match r with
    | Err e => written = 0 /\ c' = c /\ startFailed e H'
    | Ok (written', charge') => (0 < blen data -> 0 < written') /\ exists o', c' = set_gFile (Some (id, p, Filling o0 refs o')) c /\
        advance (chunkSize K) refs off data o written charge o' written' charge'
    end).
Proof using Hcs Hoff Hend Hrefs Lw.
  revert o written charge H c. induction fuel as [|fuel IH]; intros o written charge H c Hf Hwr Hfuel Ho; [lia|]. cbn [bwLoopP].
  assert (Hsame : c = set_gFile (Some (id, p, Filling o0 refs o)) c) by (rewrite <- Hf; by destruct c).
  destruct (Z.leb_spec (blen data) written) as [Hdone|Hmore].
  { apply run_ret. split; [later|]. split; [lia|]. exists o. split; [done|]. apply advance_refl; [done|lia]. }
  cbv zeta. destruct (turn_place (chunkSize K) off data written Hcs Hoff Hend ltac:(lia)) as (Hpos&Hwithin&Hidx).
  set (idx := u64 (off + written) / chunkSize K) in *. set (wi := u64 (off + written) mod chunkSize K) in *.
  eapply (run_seq K rq _ _ t H c _ (fun H' oh c' => within H H' /\ c' = c /\ alike oh o)).
  { apply run_peek. intros s C a H' HH HJ Hc. exists c. rewrite keep_ghost by done. split; [done|]. split; [later|]. split; [done|].
    destruct (hold_cell K s C a t c id p _ HJ Hc Hf) as (_&cl&_&Hb&_&Hal&_). by rewrite Hb. }
  intros H1 oh c1 (HH1&->&Hal). eapply run_seq; [by apply (run_start o)|]. intros H2 got c2 (HH2&->&Hgot&Hfail).
  destruct got as [b|e].
  2:{ destruct (Z.ltb_spec 0 written); apply run_ret; (split; [later|]); [|split; [lia|]; split; [done|by apply Hfail]].
      split; [lia|]. exists o. split; [done|]. apply advance_refl; [done|lia]. }
  destruct (Hgot b eq_refl) as (Hbl&Hbc&Hbv).
  set (nw := if blen data - written <? chunkSize K - wi then blen data - written else chunkSize K - wi) in *.
  destruct (advance_turn (chunkSize K) refs off data o idx wi written charge nw b Hcs Hpos Hwithin Hidx ltac:(lia) eq_refl Ho Hbl Hbc Hbv) as [Hnw Hturn].
  set (b' := placeBytes wi (btake nw (bdrop written data)) b) in *. pose proof (ad_written _ _ _ _ _ _ _ _ _ _ Hturn) as Hle.
  destruct Hal as (E1&_&_). rewrite E1.
  eapply (run_seq K rq _ _ t H2 c _ (fun H' _ c' => within H2 H' /\ c' = set_gFile (Some (id, p, Filling o0 refs (stored o idx b'))) c)).
  { apply run_poke. intros s C a H' HH HJ Hc. eexists _, a. split; [by apply (J_fill K s C a t c id p o0 refs o idx b')|].
    split; [apply sameContents_refl|]. split; [later|done]. }
  intros H3 _ c3 [HH3 ->]. eapply run_mono; [apply IH; [done|lia|lia|by eapply ad_ok]|].
  intros H4 [[written' charge']|e] c4 [HH4 Hres]; (split; [later|]); [|lia].
  destruct Hres as [Hpos' (o'&->&Hadv)]. split; [done|]. exists o'. split; [done|]. by eapply advance_trans.
Qed.

End Loop.

(** ** The charge *)

(** The loop is over and the charge made; nothing is charged for overwriting. *)
Definition charged (o0 : openFile) (refs : list chunkRef) (o : openFile) (q : Z) (ph : phase) : Prop :=
  ph = Paid o0 refs o q \/ (q = 0 /\ ph = Filling o0 refs o).

Lemma run_charge id p o0 refs o q t H c :
  gFile c = Some (id, p, Filling o0 refs o) -> 0 <= q ->
  run (chargeP p q) t H c (fun H' _ c' => within H H' /\ exists ph, charged o0 refs o q ph /\ c' = set_gFile (Some (id, p, ph)) c).
Proof using Type.
  intros Hf Hq. unfold chargeP. destruct (Z.ltb_spec 0 q).
  2:{ apply run_ret. split; [later|]. exists (Filling o0 refs o). split; [right; split; [lia|done]|]. rewrite <- Hf. by destruct c. }
  eapply (run_seq K rq _ _ t H c _ (fun H' _ c' => within H H' /\ c' = set_gFile (Some (id, p, Owing o0 refs o q)) c)).
  { apply run_poke. intros s C a H' HH HJ Hc. eexists _, a. split; [by apply (J_owe K)|]. split; [apply sameContents_refl|]. split; [later|done]. }
  intros H1 _ c1 [HH1 ->]. apply run_poke. intros s C a H' HH HJ Hc. eexists _, a. split; [by eapply (J_paid K)|].
  split; [apply sameContents_refl|]. split; [later|]. eexists. split; [by left|done].
Qed.

(** ** The hold that publishes *)

Definition absent (h : Handle) (a : FS) : Prop := exists e, resolve a h = Err e.

(** What became of the write, in the steps after [H]. *)
Definition published (h : Handle) (off : Z) (data : bytes) (k now : Z) (H H' : hist) : Prop :=
  acted (fun a a' => wrote a a' h off data k now) H H' \/ (within H H' /\ at_ H' (fun a _ => absent h a)).

Lemma published_before h off data k now H H0 H' : within H H0 -> published h off data k now H0 H' -> published h off data k now H H'.
Proof using Type. intros Hw [Hp|[Hp Ha]]; [left; by eapply acted_before|right; split; [later|done]]. Qed.

Lemma published_after h off data k now H H' H1 : published h off data k now H H' -> within H' H1 -> published h off data k now H H1.
Proof using Type. intros [Hp|[Hp Ha]] Hw; [left; by eapply acted_after|right; split; [later|by eapply at_within]]. Qed.

Lemma published_follows h off data k now H H' : published h off data k now H H' -> follows H H'.
Proof using Type. intros [Hp|[Hp _]]; [by eapply acted_follows|by apply within_follows]. Qed.

Lemma resolve_dead (s : shared) C a t c h id g e :
  J s C a -> C !! t = Some c -> (id, g) ∈ gNames c -> decodeHandle h = Some (id, g) -> resolve (mem s) h = Err e -> ~ alive s id.
Proof using Type.
  intros HJ Hc Hg Hh Hr [n Hn]. destruct (fi_name _ _ _ _ (j_files _ _ _ _ HJ) t c id g Hc Hg) as [_ Hgen].
  unfold resolve in Hr. rewrite Hh, Hn in Hr. by rewrite (Hgen n Hn), Z.eqb_refl in Hr.
Qed.

Lemma J_charged (s : shared) C a t c id p o0 refs o q ph :
  J s C a -> C !! t = Some c -> gFile c = Some (id, p, ph) -> charged o0 refs o q ph ->
  J s (<[t := set_gFile (Some (id, p, Paid o0 refs o q)) c]> C) a.
Proof using Type.
  intros HJ Hc Hf [->|[-> ->]]; [|by apply (J_free K)]. rewrite keep_ghost; [done|]. rewrite Hc. f_equal. rewrite <- Hf. by destruct c.
Qed.

Lemma run_publish h id g p o0 refs o q ph off data k now t H c :
  calmly H -> (forall a a', wrote a a' h off data k now -> effect K rq a a') ->
  gFile c = Some (id, p, ph) -> charged o0 refs o q ph -> filled K refs o0 o off data k q ->
  (id, g) ∈ gNames c -> decodeHandle h = Some (id, g) ->
  run (poke (publish h p off k now)) t H c (fun H' _ c' => published h off data k now H H' /\
    exists o', c' = set_gFile (Some (id, p, Resting o')) c).
Proof using Type.
  intros Hcalm Heff Hf Hch Hfill Hg Hh. apply run_effect; [done|]. cbn [fst snd]. intros s C a _ HJ Hc.
  pose proof (J_charged s C a t c id p o0 refs o q ph HJ Hc Hf Hch) as HJ1. set (c1 := set_gFile (Some (id, p, Paid o0 refs o q)) c) in *.
  assert (Hc1 : <[t := c1]> C !! t = Some c1) by (apply list_lookup_insert_eq; by eapply lookup_lt_Some).
  destruct (resolve (mem s) h) as [[k' n]|e] eqn:Er.
  - destruct (handle_id K s C a h k' n (j_files _ _ _ _ HJ) Er) as (_&_&Hd). rewrite Hh in Hd. injection Hd as <- _.
    destruct (J_publish K s _ a t c1 id p o0 refs o q h n off data k now HJ1 Hc1 eq_refl Er Hfill) as (a'&o'&HJ'&Hw).
    rewrite list_insert_insert_eq in HJ'. exists (set_gFile (Some (id, p, Resting o')) c), a'. split; [exact HJ'|].
    split; [right; by apply Heff|]. split; [left; apply acted_took; [later|done]|]. by exists o'.
  - pose proof (resolve_dead s C a t c h id g e HJ Hc Hg Hh Er) as Hd.
    destruct (J_publish_gone K s _ a t c1 id p o0 refs o q h off k now e HJ1 Hc1 eq_refl Er Hd) as (o'&HJ').
    rewrite list_insert_insert_eq in HJ'. exists (set_gFile (Some (id, p, Resting o')) c), a. split; [exact HJ'|].
    split; [left; apply sameContents_refl|]. split; [right; split; [later|]; apply at_took; exists e; by rewrite <- (abs_resolve K _ _ _ (j_files _ _ _ _ HJ))|].
    by exists o'.
Qed.

(** The file had gone before the loop: nothing was buffered. *)
Lemma run_publish_gone h id g p o off data k now t H c :
  gFile c = Some (id, p, Resting o) -> (id, g) ∈ gNames c -> (id, g + 1) ∈ gNames c -> decodeHandle h = Some (id, g) ->
  run (poke (publish h p off k now)) t H c (fun H' _ c' => published h off data k now H H' /\
    exists o', c' = set_gFile (Some (id, p, Resting o')) c).
Proof using Type.
  intros Hf Hg Hg' Hh. apply run_poke. intros s C a H' HH HJ Hc.
  pose proof (J_gone K s C a t c id g (g + 1) HJ Hc Hg Hg' ltac:(lia)) as Hd.
  assert (Er : exists e, resolve (mem s) h = Err e).
  { unfold resolve. rewrite Hh. destruct (inodes (mem s) !! id) as [n|] eqn:En; [|eauto]. destruct Hd. by exists n. }
  destruct Er as [e Er]. pose proof (lookup_lt_Some _ _ _ Hc) as Hlt.
  assert (HJ1 : J s (<[t := set_gFile (Some (id, p, Paid o [] o 0)) c]> C) a).
  { eapply J_then; [by apply (J_begin K s C a t c id p o []); [..|intros n Hn; destruct Hd; exists n]|done|]. intros D HD Ht.
    by apply (J_free K s D a t (set_gFile (Some (id, p, Filling o [] o)) c) id p o [] o HD). }
  destruct (J_publish_gone K s _ a t _ id p o [] o 0 h off k now e HJ1 (list_lookup_insert_eq _ _ _ Hlt) eq_refl Er Hd) as (o'&HJ').
  rewrite list_insert_insert_eq in HJ'. exists (set_gFile (Some (id, p, Resting o')) c), a. split; [exact HJ'|].
  split; [apply sameContents_refl|]. split; [right; split; [later|]; apply at_took; exists e; by rewrite <- (abs_resolve K _ _ _ (j_files _ _ _ _ HJ))|].
  by exists o'.
Qed.

(** ** The whole buffered write *)

(** The hold of mu that reads the file's chunks. *)
Lemma run_chunks h id g p o t H c :
  gFile c = Some (id, p, Resting o) -> (id, g) ∈ gNames c -> decodeHandle h = Some (id, g) ->
  run (peek (fun s => (chunkSize (cf (mem s)), match resolve (mem s) h with Ok (_, n) => Some (iChunks n) | Err _ => None end))) t H c
    (fun H' v c' => within H H' /\ v.1 = chunkSize K /\ 0 < chunkSize K /\
      match v.2 with
      | Some refs => c' = set_gFile (Some (id, p, Filling o refs o)) c /\ Forall (refOK (chunkSize K)) refs /\ bufOK (chunkSize K) refs o
      | None => c' = set_gNames ((id, g + 1) :: gNames c) c
      end).
Proof using Type.
  intros Hf Hg Hh. apply run_peek. intros s C a H' HH HJ Hc. pose proof (j_files _ _ _ _ HJ) as HF.
  rewrite (fi_conf _ _ _ _ HF). pose proof (proj1 (conf_cs K s C a HF)) as Hcs.
  destruct (resolve (mem s) h) as [[k n]|e] eqn:Er; simpl.
  - destruct (handle_id K s C a h k n HF Er) as (Hn&_&Hd). rewrite Hh in Hd. injection Hd as <- _.
    eexists. split; [apply (J_begin K s C a t c id p o (iChunks n) HJ Hc Hf); intros n' Hn'; congruence|].
    split; [later|]. split; [done|]. split; [lia|]. split; [done|].
    destruct (hold_cell K s C a t c id p _ HJ Hc Hf) as (_&cl&_&_&_&Hal&Ho&_). specialize (Ho (ex_intro _ n Hn)).
    destruct (abs_file K s C a HF id n Hn) as [Hok _]. rewrite (abs_buf a id _ Ho) in Hok. split; [apply Hok|].
    destruct Hal as (A1&A2&A3). apply (bufOK_alike _ _ _ (cOf cl)); [by unfold alike; rewrite A1, A2, A3|]. split; apply Hok.
  - pose proof (resolve_dead s C a t c h id g e HJ Hc Hg Hh Er) as Hd. eexists. split; [by apply (J_dead K s C a t c id g (g + 1))|].
    split; [later|]. split; [done|]. split; [lia|done].
Qed.

(** The mutex given back with nothing buffered. *)
Lemma run_giveUp id p o refs t H c :
  gFile c = Some (id, p, Filling o refs o) -> run (unlockFile p) t H c (fun H' _ c' => within H H' /\ c' = set_gFile None c).
Proof using Type.
  intros Hf. apply run_poke. intros s C a H' HH HJ Hc. eexists _, a. split; [|split; [apply sameContents_refl|split; [later|done]]].
  assert (HJ1 : J s (<[t := set_gFile (Some (id, p, Resting o)) c]> C) a).
  { apply (J_phase K s C a t c id p _ _ HJ Hc Hf); [|by rewrite owed_at, (owed_of _ _ _ _ Hf)].
    intros u (Hal&_&Hlive&Hdead). split; [done|]. split; [|done]. intros [n Hn]. destruct (Hlive n Hn) as (_&v&Hv&(B1&B2&B3)&Hby).
    destruct Hal as (A1&A2&A3). rewrite Hv. f_equal. destruct u, v. simpl in *. congruence. }
  eapply (J_unlock K s _ a t (set_gFile (Some (id, p, Resting o)) c)) in HJ1; [|apply list_lookup_insert_eq; by eapply lookup_lt_Some|done].
  by rewrite list_insert_insert_eq in HJ1.
Qed.

(** What a call knows after its write. *)
Definition wroteOr (h : Handle) (off : Z) (data : bytes) (now : Z) (r : result Z) (H H' : hist) : Prop :=
  match r with
  | Ok k => 0 < k <= blen data /\ published h off data k now H H'
  | Err e => within H H' /\ startFailed e H'
  end.

Lemma wroteOr_after h off data now r H H' H1 : wroteOr h off data now r H H' -> within H' H1 -> wroteOr h off data now r H H1.
Proof using Type.
  destruct r as [k|e]; intros [H2 H3] Hw; (split; [|]); [done|by eapply published_after|later|by eapply during_within].
Qed.

Lemma wroteOr_before h off data now r H H0 H' : within H H0 -> wroteOr h off data now r H0 H' -> wroteOr h off data now r H H'.
Proof using Type. intros Hw. destruct r as [k|e]; intros [H2 H3]; (split; [|]); [done|by eapply published_before|later|done]. Qed.

Section Body.
Context (h : Handle) (id g off : Z) (p : nat) (data : bytes) (now : Z).
Hypotheses (Hh : decodeHandle h = Some (id, g)) (Hoff : 0 <= off) (Hpos : 0 < blen data) (Hend : off + blen data < 2 ^ 64).
Hypothesis (Heff : forall k a a', wrote a a' h off data k now -> effect K rq a a').

Definition bodyDone (c c' : ghost) (p0 : option unit) : Prop :=
  gGate c' = gGate c /\ gCommit c' = gCommit c /\ gAwait c' = gAwait c /\ gSeal c' = gSeal c /\ gWatch c' = gWatch c /\
  gNames c ⊆ gNames c' /\ gPtrs c' = gPtrs c /\
  match p0 with
  | Some _ => exists o, gFile c' = Some (id, p, Resting o)
  | None => exists o refs, gFile c' = Some (id, p, Filling o refs o)
  end.

Lemma run_bwBody o t H c :
  calmly H -> gFile c = Some (id, p, Resting o) -> (id, g) ∈ gNames c ->
  run (bwBody h p off data now) t H c (fun H' r c' => wroteOr h off data now r H H' /\
    bodyDone c c' (match r with Ok _ => Some tt | Err _ => None end)).
Proof using Hh Hoff Hpos Hend Heff Lw.
  intros Hcalm Hf Hg. eapply run_seq; [by eapply run_chunks|]. intros H1 [cs refs] c1 (HH1&Ecs&Hcs&Hrefs). simpl in Ecs, Hrefs. subst cs.
  destruct refs as [refs|].
  - destruct Hrefs as (->&Hrefs&Hbuf). assert (Hlen : blen data - 0 < Z.of_nat (S (length data))) by (unfold blen; lia).
    eapply run_or; [apply (run_loop refs off data id p o Hcs Hoff Hend Hrefs (S (length data)) o 0 0); [done|lia|exact Hlen|done]| |].
    + intros H2 [k q] c2 (HH2&Hk&o1&->&Hadv).
      assert (Hfill : filled K refs o o1 off data k q) by (split; [split; [by apply Hk|done]|done]).
      eapply run_seq; [apply (run_charge id p o refs o1 q); [done|apply (ad_charge _ _ _ _ _ _ _ _ _ _ Hadv)]|].
      intros H3 _ c3 (HH3&ph&Hch&->). eapply run_seq; [eapply (run_publish h id g p o refs o1 q ph); try done; [later|by apply Heff]|].
      intros H4 _ c4 (Hpub&o2&->). apply run_ret. split; [|split_and!; try done; by exists o2].
      split; [split; [by apply Hk|apply (ad_written _ _ _ _ _ _ _ _ _ _ Hadv)]|]. eapply published_before; [|exact Hpub]. later.
    + intros H2 e c2 (HH2&_&->&He). split; [split; [later|done]|]. split_and!; try done. by exists o, refs.
  - subst c1. eapply (run_seq K rq (poke (publish h p off (blen data) now)) (fun _ => Ret (Ok (blen data))) t H1).
    { eapply (run_publish_gone h id g p o off data); [done| | |done]; simpl; [by apply list_elem_of_further|apply list_elem_of_here]. }
    intros H2 _ c2 (Hpub&o2&->). apply run_ret. split; [split; [lia|by eapply published_before]|].
    split_and!; try done; [|by exists o2]. intros x Hin. simpl. by apply list_elem_of_further.
Qed.

Lemma run_bufferWrite t H c :
  calmly H -> gFile c = None -> (id, p) ∈ gPtrs c -> (id, g) ∈ gNames c ->
  run (bufferWriteP h p off data now) t H c (fun H' r c' => wroteOr h off data now r H H' /\ passed (gWatch c) c c' /\ gFile c' = None).
Proof using Hh Hoff Hpos Hend Heff Lw.
  intros Hcalm Hf Hin Hg. eapply run_seq; [by apply (run_lock K rq id)|]. intros H1 _ c1 (HH1&o&->).
  eapply run_seq; [eapply run_bwBody; [later|done|done]|]. intros H2 r c2 (Hw&B1&B2&B3&B4&B5&B6&B7&Hfile). simpl in *.
  eapply (run_seq K rq _ _ t H2 c2 _ (fun H' _ c' => within H2 H' /\ c' = set_gFile None c2)).
  { destruct r as [k|e]; [destruct Hfile as [o' Ho']; by eapply run_unlock|]. destruct Hfile as (o'&refs&Ho'). by eapply run_giveUp. }
  intros H3 _ c3 [HH3 ->]. apply run_ret. split; [|split; [|done]].
  - eapply wroteOr_after; [|exact HH3]. by eapply wroteOr_before.
  - split; simpl; try done. by rewrite B7.
Qed.

End Body.

(** ** Size changes *)

(** The hold of mu that finds the file. *)
Lemma run_name {A} h (g : Z -> inode -> result A) t H c :
  run (peek (fun s => match resolve (mem s) h with Err e => Err e | Ok (id, n) => g id n end)) t H c
    (fun H' r c' => within H H' /\ exists l, c' = set_gNames l c /\ gNames c ⊆ l /\
       match r with
       | Ok v => exists id n, g id n = Ok v /\ iID n = id /\ decodeHandle h = Some (id, iGen n) /\ (id, iGen n) ∈ l /\
           at_ H' (fun a _ => resolve a h = Ok (id, n))
       | Err e => at_ H' (fun a _ => match resolve a h with Err e' => e' = e | Ok (id, n) => g id n = Err e end)
       end).
Proof using Type.
  apply run_peek. intros s C a H' HH HJ Hc. pose proof (abs_resolve K _ _ _ (j_files _ _ _ _ HJ) h) as Ea. destruct (resolve (mem s) h) as [[id n]|e] eqn:Er.
  - destruct (handle_id K s C a h id n (j_files _ _ _ _ HJ) Er) as (_&Hid&Hd). eexists. split; [by apply (J_name K s C a t c h id n)|].
    split; [later|]. eexists. split; [done|]. split; [intros x; apply list_elem_of_further|].
    destruct (g id n) as [v|e] eqn:Eg; [|apply at_took; by rewrite <- Ea].
    exists id, n. split_and!; try done; [apply list_elem_of_here|]. apply at_took. by rewrite <- Ea.
  - exists c. rewrite keep_ghost by done. split; [done|]. split; [later|]. exists (gNames c). split; [by destruct c|]. split; [done|].
    apply at_took. by rewrite <- Ea.
Qed.

(** A look that tells the call nothing to keep. *)
Lemma run_see {A} (g : shared -> A) t H c : run (peek g) t H c (fun H' _ c' => within H H' /\ c' = c).
Proof using Type. apply run_peek. intros s C a H' HH HJ Hc. exists c. rewrite keep_ghost by done. split; [done|]. by split; [later|]. Qed.

Lemma run_max t H c :
  run (peek (fun s => maxFileSize (cf (mem s)))) t H c (fun H' m c' => within H H' /\ c' = c /\ m = maxFileSize K /\ 0 <= m < 2 ^ 64).
Proof using Type.
  apply run_peek. intros s C a H' HH HJ Hc. exists c. rewrite keep_ghost by done. split; [done|]. split; [later|]. split; [done|].
  rewrite (fi_conf _ _ _ _ (j_files _ _ _ _ HJ)). split; [done|]. apply (conf_cs K s C a), HJ.
Qed.

Section Size.
Context (who : Caller) (h : Handle) (sa : SetAttr) (size now : Z).
Hypothesis (Heff : forall v a a', resized a a' who h sa size now v -> effect K rq a a').

(** The file at [a] is not there, or the caller may not change it. *)
Definition attrRefused (e : error) (a : FS) : Prop :=
  match resolve a h with Err e' => e' = e | Ok (_, n) => setAttrRequests who n sa = Some e end.

Definition answersSize (r : result Attr) (H H' : hist) : Prop :=
  match r with
  | Ok v => acted (fun a a' => resized a a' who h sa size now v) H H'
  | Err e => within H H' /\ ((e = EStatus ErrFBig /\ maxFileSize K < size) \/ at_ H' (fun a _ => attrRefused e a))
  end.

Lemma answersSize_after r H H' H1 : answersSize r H H' -> within H' H1 -> answersSize r H H1.
Proof using Type.
  destruct r as [v|e]; simpl; [by intros Ha Hw; eapply acted_after|]. intros [Hw [?|Ha]] Hw'; (split; [later|]); [by left|right; by eapply at_within].
Qed.

Lemma answersSize_before r H H0 H' : within H H0 -> answersSize r H0 H' -> answersSize r H H'.
Proof using Type. intros Hw. destruct r as [v|e]; simpl; [by apply acted_before|]. intros [Hw' Ha]. split; [later|done]. Qed.

Lemma run_cut id g p o t H c :
  calmly H -> is_u64 size -> gFile c = Some (id, p, Resting o) -> gGate c = GReading -> decodeHandle h = Some (id, g) ->
  run (act1 (cutHold who h p sa size now)) t H c (fun H' r c' => answersSize r H H' /\
    exists o', c' = set_gFile (Some (id, p, Resting o')) c).
Proof using Heff.
  intros Hcalm Hsz Hf Hg Hh. apply run_effect; [done|]. intros s C a _ HJ Hc. pose proof (abs_resolve K _ _ _ (j_files _ _ _ _ HJ) h) as Ear.
  assert (Hsame : c = set_gFile (Some (id, p, Resting o)) c) by (rewrite <- Hf; by destruct c).
  assert (Hstay : forall e, attrRefused e a -> cutHold who h p sa size now s = (Err e, s) ->
    exists c' a', J (cutHold who h p sa size now s).2 (<[t := c']> C) a' /\ (sameContents a a' \/ effect K rq a a') /\
      answersSize (cutHold who h p sa size now s).1 H (took H (s, a) ((cutHold who h p sa size now s).2, a')) /\
      exists o', c' = set_gFile (Some (id, p, Resting o')) c).
  { intros e Hat E. rewrite E. exists c, a. rewrite keep_ghost by done. split; [done|]. split; [left; apply sameContents_refl|].
    split; [|eauto]. split; [later|]. right. by apply at_took. }
  unfold attrRefused in Hstay. rewrite <- Ear in Hstay.
  destruct (resolve (mem s) h) as [[k n]|e] eqn:Er; [|apply (Hstay e); [done|]; unfold cutHold; by rewrite Er].
  destruct (setAttrRequests who n sa) as [e|] eqn:Ea; [apply (Hstay e); [done|]; unfold cutHold; by rewrite Er, Ea|].
  destruct (handle_id K s C a h k n (j_files _ _ _ _ HJ) Er) as (_&_&Hd). rewrite Hh in Hd. injection Hd as <- _.
  destruct (J_cut K s C a t c id p o who h sa size now n HJ Hc Hf Hg Hsz Er Ea) as (v&s'&a'&o'&E&HJ'&Hres). rewrite E.
  eexists _, a'. split; [exact HJ'|]. split; [right; by eapply Heff|]. split; [|eauto]. apply acted_took; [later|done].
Qed.

Lemma run_truncate t H c :
  calmly H -> is_u64 size -> over c -> run (truncateP who h sa size now) t H c (fun H' r c' => over c' /\ answersSize r H H').
Proof using Heff.
  intros Hcalm Hsz Hov. pose proof Hov as [O1 O2 O3 O4 O5 O6].
  eapply run_seq; [apply run_max|]. intros H1 max c1 (HH1&->&->&_). destruct (Z.ltb_spec (maxFileSize K) size).
  { apply run_ret. split; [done|]. split; [done|by left]. }
  eapply run_or; [apply (run_name h (fun _ n => match setAttrRequests who n sa with Some e => Err e | None => Ok (iID n) end))| |].
  2:{ intros H2 e c2 (HH2&l&->&_&He). split; [by split|]. split; [later|]. right. eapply at_mono; [exact He|]. intros a a'. unfold attrRefused.
      destruct (resolve a h) as [[id n]|]; [|done]. destruct (setAttrRequests who n sa); congruence. }
  intros H2 id c2 (HH2&l&->&_&id'&n&Hreq&Hn&Hd&Hin&_).
  assert (id' = id) as -> by (destruct (setAttrRequests who n sa); congruence).
  eapply run_seq; [by apply run_rlock|]. intros H3 _ c3 [HH3 ->].
  eapply run_seq; [by eapply (run_open id (iGen n))|]. intros H4 p c4 [HH4 ->].
  eapply run_seq; [apply (run_lock K rq id); [done|apply list_elem_of_here]|]. intros H5 _ c5 [HH5 (o&->)].
  eapply run_seq; [eapply (run_cut id (iGen n) p o); [later|done..]|]. intros H6 r c6 (Hr&o'&->).
  eapply run_seq; [by eapply (run_unlock K rq id p o')|]. intros H7 _ c7 [HH7 ->].
  eapply run_seq; [by apply run_runlock|]. intros H8 _ c8 [HH8 ->]. apply run_ret. split; [by split|].
  eapply (answersSize_before r H H5); [later|]. eapply answersSize_after; [exact Hr|later].
Qed.

End Size.

(** ** Operations that are one hold *)

Lemma run_hold {A} (g : FS -> A * FS) t H c :
  calmly H -> nsOp g -> (forall a, effect K rq a (g a).2) ->
  run (act1 (nsHold g)) t H c (fun H' r c' => c' = c /\ acted (fun a a' => g a = (r, a')) H H').
Proof using TC.
  intros Hcalm Hg Heff. apply run_effect; [done|]. intros s C a Hr HJ Hc. destruct (J_ns K g s C a Hg HJ Hr) as [HJ' Er].
  exists c, (g a).2. rewrite keep_ghost by (done || exact Hc). split; [done|]. split; [by right|]. split; [done|].
  apply acted_took; [later|]. rewrite Er. by destruct (g a).
Qed.

(** The check of the mode. *)
Lemma run_mode t H c :
  run (peek (fun s => mode (mem s))) t H c (fun H' m c' => within H H' /\ c' = c /\ at_ H' (fun a _ => mode a = m)).
Proof using Type.
  apply run_peek. intros s C a H' HH HJ Hc. exists c. rewrite keep_ghost by done. split; [done|]. split; [later|]. split; [done|].
  apply at_took. by destruct (abs_rest K s C a (j_files _ _ _ _ HJ)) as (_&_&_&_&_&_&_&E).
Qed.

(** The mount was, or was not, writable at one of the steps. *)
Definition modeWas (o : option error) (H : hist) : Prop := at_ H (fun a _ => mutableMode (mode a) = o).

Lemma modeWas_mode m o H : mutableMode m = o -> at_ H (fun a _ => mode a = m) -> modeWas o H.
Proof using Type. intros Hm Ha. eapply at_mono; [exact Ha|]. by intros a _ ->. Qed.

(** A namespace call ran its own operation in one step, or found the mount not
    writable and did nothing. *)
Definition answersOp (op : nsop) (r : bool) (H : hist) : Prop :=
  (r = false /\ calmly H /\ exists e, modeWas (Some e) H) \/
  exists m, at_ H (fun a _ => mode a = m) /\ once (fun a a' => ran a a' m op r) H.

Lemma run_op op t H c :
  calmly H -> opText op -> (forall m r a a', ran a a' m op r -> effect K rq a a') ->
  run (opP op) t H c (fun H' r c' => c' = c /\ answersOp op r H').
Proof using TC.
  intros Hcalm Hop Heff. eapply run_seq; [apply run_mode|]. intros H1 m c1 (HH1&->&Hm). destruct (mutableMode m) as [e|] eqn:Em.
  { apply run_ret. split; [done|]. left. split; [done|]. split; [later|]. exists e. by eapply modeWas_mode. }
  eapply run_mono.
  - apply (run_hold (runAs m op)); [later|by apply runAs_op|]. intros a. apply (Heff m (runAs m op a).1). split; [done|]. apply surjective_pairing.
  - intros H2 r c2 (->&Hr). split; [done|]. right. exists m. split; [eapply at_follows; [by eapply acted_follows|done]|].
    eapply acted_before; [exact Hcalm|]. eapply acted_before; [exact HH1|]. destruct Hr as (Ha&s&a&s'&a'&W1&W2&W3). exists Ha, s, a, s', a'. by split_and!.
Qed.

(** What a SETATTR did: its own change in one step, or nothing. *)
Definition answersAttr (who : Caller) (h : Handle) (sa : SetAttr) (now : Z) (r : result Attr) (H : hist) : Prop :=
  (exists e, r = Err e /\ calmly H /\ modeWas (Some e) H) \/
  (modeWas None H /\
   match saSize sa with
   | Some size => answersSize who h sa size now r [] H
   | None => once (fun a a' => setAttrNoSize a who h sa now = (r, a')) H
   end).

Lemma answersSize_follows who h sa size now r H H' : answersSize who h sa size now r H H' -> follows H H'.
Proof using Type. destruct r; simpl; [apply acted_follows|]. intros [Hw _]. by apply within_follows. Qed.

Lemma run_SetAttr who h sa now t H c :
  calmly H -> (forall size, saSize sa = Some size -> is_u64 size) -> over c -> (forall a a', effect K (QSetAttr who h sa now) a a' -> effect K rq a a') ->
  run (SetAttrP who h sa now) t H c (fun H' r c' => over c' /\ answersAttr who h sa now r H').
Proof using TC.
  intros Hcalm Hsz Hov Heff. eapply run_seq; [apply run_mode|]. intros H1 m c1 (HH1&->&Hm). destruct (mutableMode m) as [e|] eqn:Em.
  { apply run_ret. split; [done|]. left. exists e. split; [done|]. split; [later|]. by eapply modeWas_mode. }
  pose proof (modeWas_mode _ _ _ Em Hm) as Hmode. assert (Hcalm1 : calmly H1) by later. unfold answersAttr, effect in *. destruct (saSize sa) as [size|] eqn:Es.
  - eapply run_mono; [apply run_truncate; [|done|by apply Hsz|done]|].
    + intros v a a' Hr. apply Heff. by exists v.
    + intros H2 r c2 (Hov2&Hr). split; [done|]. right. split; [eapply at_follows; [by eapply answersSize_follows|done]|]. by eapply answersSize_before.
  - eapply run_mono; [apply (run_hold (fun f => setAttrNoSize f who h sa now)); [done|apply setAttr_op|]|].
    + intros a. apply Heff. exists (setAttrNoSize a who h sa now).1. apply surjective_pairing.
    + intros H2 r c2 (->&Hr). split; [done|]. right. split; [eapply at_follows; [by eapply acted_follows|done]|]. by eapply acted_before.
Qed.

End Write.
