(* ===== verification/HoldSync.v ===== *)
(** * Sync among other calls

    [run_Sync]: a Sync that reports success found nothing to commit, or the
    namespace of one moment of the call is what the root pointer came to name.
    It never fails because a truncate had left a file unsettled: the gate keeps
    size changes out from the time it looks for marks to the seal. *)

From stdpp Require Import sorting.
From S2P Require Import Prelude Prog Vfs Fsm Modes Policy Inode ChunkCache Budget Store FsState Tree Namespace.
From S2P Require Import NamespaceInv Drops Effects Data DataSpec FileSpec DataInv ReadDir Commit WritePath Durable.
From S2P Require Import CommitSpec SyncSpec Whole System Locks Hold HoldInv HoldSteps HoldFile HoldOps HoldCommit HoldRules.
From S2P Require Import HoldFlush HoldWrite.

(** What the seal answers when it finds a mark. *)
Definition errUnsettled : error := EMsg "commit refused: an inode is unsettled since a truncate".

Section Sync.
Context {Cd : Codec} {W : Type} {St : Store W} {Vw : StoreView W} {Lw : StoreLaws W}
  {Dg : Digest} {Hx : HexDigest} {Ro : RunOrder} {P : Policy} {TC : TypeChecked P}.
Context (K : conf) (rq : request).
Abbreviation shared := (shared W).
Abbreviation J := (J K).
Abbreviation hist := (@hist shared FS).
Abbreviation within := (within sameContents).
Abbreviation calmly := (calmly sameContents).
Abbreviation run := (run K rq).

(** ** Steps that change what the mount knows of the root pointer *)

Lemma run_quiet {A} (g : shared -> A * shared) t H c :
  (forall s, exists f, (g s).2 = set_mem f s /\ nsSame (mem s) f) ->
  run (act1 g) t H c (fun H' _ c' => within H H' /\ c' = c).
Proof using Type.
  intros Hg. apply run_act. intros s C a H' HH _ HJ Hc. destruct (Hg s) as (f&E&Hns). rewrite E.
  destruct (J_same K s C a f HJ Hns) as [HJ' Hat]. exists c, (calm (open a) f). rewrite keep_ghost by done.
  split; [done|]. split; [done|]. by split; [later|].
Qed.

Lemma run_resolveRoot t H c : run resolveRootP t H c (fun H' _ c' => within H H' /\ c' = c).
Proof using Lw.
  eapply run_seq; [apply run_get; intros w; apply gwe_frame|]. intros H1 read c1 [HH1 ->].
  eapply run_mono; [apply run_quiet|]; [|intros H2 v c2 [HH2 ->]; by split; [later|]].
  intros s. destruct (settleRoot read (mem s)) as [v f] eqn:E. exists f. split; [done|]. by destruct (settleRoot_spec _ _ _ _ E).
Qed.

(** ** The flight of a sealed commit *)

(** The snapshot [sc] of the namespace of one moment was put in place, or the
    store did not say whether it was. *)
Definition placed (H : hist) : Prop :=
  exists m sc, sealedFor m sc /\ during H (fun s _ => inodes (mem s) = m) /\
    (during H (fun _ s' => landed sc (bucket s')) \/
     during H (fun s _ => exists e e1 e2 x, swapRoot sc (mem s, bucket s) = (Ok (Doubtful e e1 e2), x))).

Lemma placed_within H H' : within H H' -> placed H -> placed H'.
Proof using Type.
  intros HH (m&sc&Hs&Hm&Hl). exists m, sc. split; [done|]. split; [by eapply during_within|].
  destruct Hl as [Hl|Hl]; [left|right]; by eapply during_within.
Qed.

(** What a call that holds commitMu ends as. *)
Definition synced (r : result unit) (H : hist) : Prop :=
  r ≠ Err errUnsettled /\ (r = Ok tt -> during H (fun s _ => dirty (mem s) = false) \/ placed H).

Lemma synced_within r H H' : within H H' -> synced r H -> synced r H'.
Proof using Type.
  intros HH [H1 H2]. split; [done|]. intros Hr. destruct (H2 Hr) as [?|?]; [left; by eapply during_within|right; by eapply placed_within].
Qed.

Lemma run_store sc m t H c :
  gSeal c = Some (m, sc, false) ->
  run (lift (onStore (Put (scKey sc) (scBody sc)))) t H c (fun H' r c' => within H H' /\
    c' = set_gSeal (match r with Ok _ => Some (m, sc, true) | Err _ => None end) c).
Proof using Lw.
  intros Hs. apply run_act. intros s C a H' HH _ HJ Hc. pose proof (J_put K s C a t c m sc HJ Hc Hs) as HJ'. simpl in HJ'.
  unfold onStore. cbn [fst snd]. destruct (Put (scKey sc) (scBody sc) (bucket s)) as [r w]. cbn [fst snd] in *.
  assert (Es : set_bucket w (set_mem (mem s) s) = set_bucket w s) by (by destruct s). rewrite Es.
  eexists _, a. split; [exact HJ'|]. split; [apply sameContents_refl|]. by split; [later|].
Qed.

(** The errors the write of the root pointer may end the commit with. *)
Definition outErrors (out : swapped) : list error :=
  match out with
  | Swapped _ => []
  | Doubtful e e1 e2 => match e with Some e => [e; e1; e2] | None => [e1; e2] end
  | SwapRefused e => [e]
  end.

Lemma swapRoot_errors sc f w out x : swapRoot sc (f, w) = (Ok out, x) -> errUnsettled ∉ outErrors out.
Proof using Type.
  intros E. assert (Hne : forall l : list error, Forall (fun e => e ≠ errUnsettled) l -> errUnsettled ∉ l).
  { intros l Hl Hin. by apply (proj1 (list.Forall_forall _ _) Hl _ Hin). }
  apply Hne. clear Hne. unfold swapRoot, fallback, reclaim, bind, attempt, onStore, getFS, ret in E. cbn [fst snd] in E.
  repeat (case_match; simplify_eq; cbn [outErrors]); repeat constructor; try discriminate.
Qed.

Lemma run_swap sc m t H c :
  gSeal c = Some (m, sc, true) ->
  run (lift (swapRoot sc)) t H c (fun H' r c' => within H H' /\ c' = set_gSeal None c /\ exists out, r = Ok out /\
    match out with
    | SwapRefused e => e ≠ errUnsettled
    | Swapped _ => during H' (fun _ s' => landed sc (bucket s'))
    | Doubtful e e1 e2 => e ≠ Some errUnsettled /\ e1 ≠ errUnsettled /\ e2 ≠ errUnsettled /\
        during H' (fun s _ => exists e e1 e2 x, swapRoot sc (mem s, bucket s) = (Ok (Doubtful e e1 e2), x))
    end).
Proof using Lw.
  intros Hs. apply run_act. intros s C a H' HH _ HJ Hc. destruct (J_swapRoot K s C a t c m sc HJ Hc Hs) as (out&w&E&HJ'&Hl). rewrite E. simpl.
  assert (Es : set_bucket w (set_mem (mem s) s) = set_bucket w s) by (by destruct s). rewrite Es.
  eexists _, a. split; [exact HJ'|]. split; [apply sameContents_refl|]. split; [later|]. split; [done|]. exists out. split; [done|].
  destruct out as [etag|e e1 e2|e].
  - apply during_took. by eapply Hl.
  - pose proof (swapRoot_errors _ _ _ _ _ E) as Hne. simpl in Hne. split_and!; [..|by apply during_took; eauto 6]; intros ->; apply Hne.
    + apply list_elem_of_here.
    + destruct e; repeat constructor.
    + destruct e; repeat constructor.
  - pose proof (swapRoot_errors _ _ _ _ _ E) as Hne. intros ->. apply Hne. apply list_elem_of_here.
Qed.

Lemma failed_synced e H : e ≠ errUnsettled -> synced (Err e) H.
Proof using Type. intros He. split; [congruence|done]. Qed.

Lemma run_settleDoubt sc now e e1 e2 t H c :
  e ≠ Some errUnsettled -> e1 ≠ errUnsettled -> e2 ≠ errUnsettled -> placed H ->
  run (settleDoubtP sc now e e1 e2) t H c (fun H' r c' => within H H' /\ c' = c /\ synced r H').
Proof using Lw.
  intros N0 N1 N2 Hcom. eapply run_seq.
  { apply run_quiet. intros s. destruct (fireRoot (rootKnowledge (mem s)) rootSwapUnknown) as [k ok]. eexists. split; [reflexivity|].
    destruct ok; [by split|]. destruct e; [by split|]. destruct (applyLocked_spec sc "" now (set_doubtKey "" (mem s))) as [[] _]. by split. }
  intros H1 ok c1 [HH1 ->]. destruct ok; cbn [negb].
  2:{ apply run_ret. split; [done|]. split; [done|]. destruct e as [e|]; [apply failed_synced; congruence|].
      split; [done|]. intros _. right. by eapply placed_within. }
  eapply run_seq; [apply run_resolveRoot|]. intros H2 v c2 [HH2 ->]. destruct v.
  - eapply run_seq; [apply run_quiet; intros s; eexists; split; [reflexivity|]; apply applyLocked_spec|]. intros H3 [] c3 [HH3 ->].
    apply run_ret. split; [later|]. split; [done|]. split; [done|]. intros _. right. eapply placed_within; [|exact Hcom]. later.
  - apply run_ret. split; [later|]. split; [done|]. by apply failed_synced.
  - apply run_ret. split; [later|]. split; [done|]. by apply failed_synced.
  - apply run_ret. split; [later|]. split; [done|]. by apply failed_synced.
Qed.

Lemma run_commitSealed m sc now t H c :
  gSeal c = Some (m, sc, false) -> sealedFor m sc -> during H (fun s _ => inodes (mem s) = m) ->
  run (commitSealedP sc now) t H c (fun H' r c' => within H H' /\ c' = set_gSeal None c /\ synced r H').
Proof using Lw.
  intros Hs Hsf Hm. eapply run_seq; [by eapply run_store|]. intros H1 [u|e] c1 [HH1 ->].
  2:{ apply run_ret. split; [done|]. split; [done|]. by apply failed_synced. }
  eapply run_or; [by eapply run_swap| |by intros H2 e c2 (_&_&out&?&_)].
  intros H2 out c2 (HH2&->&out'&[= <-]&Hout). destruct out as [etag|e e1 e2|e].
  - eapply run_seq.
    { apply run_quiet. intros s. eexists. split; [reflexivity|].
      destruct (applyLocked_spec sc etag now (set_rootKnowledge (fireRoot (rootKnowledge (mem s)) rootSwapOK).1 (mem s))) as [[] _]. by split. }
    intros H3 [] c3 [HH3 ->]. apply run_ret. split; [later|]. split; [done|]. split; [done|]. intros _. right.
    exists m, sc. split; [done|]. split; [eapply during_within; [|exact Hm]; later|]. left. eapply during_within; [|exact Hout]; later.
  - destruct Hout as (N0&N1&N2&Hd). eapply run_mono; [apply run_settleDoubt; try done|].
    + exists m, sc. split; [done|]. split; [eapply during_within; [|exact Hm]; later|by right].
    + intros H3 r c3 (HH3&->&Hr). split; [later|done].
  - apply run_ret. split; [later|]. split; [done|]. by apply failed_synced.
Qed.

(** ** The commit phase *)

(** The gate is given back, and the marks are watched no longer. *)
Lemma run_reopen t H c :
  gGate c = GWriting -> run gateUnlock t H c (fun H' _ c' => within H H' /\ c' = set_gGate GNone (set_gWatch None c)).
Proof using Type.
  intros Hg. apply run_poke. intros s C a H' HH HJ Hc. exists (set_gGate GNone (set_gWatch None c)), a.
  split; [|split; [apply sameContents_refl|by split; [later|]]].
  pose proof (J_unwatch K s C a t c HJ Hc) as HJ1.
  apply (J_vacate K) with (t := t) (c := set_gWatch None c) in HJ1; [|apply list_lookup_insert_eq; by eapply lookup_lt_Some|done|done].
  by rewrite list_insert_insert_eq in HJ1.
Qed.

Lemma run_seal nonce now1 now2 t H c :
  gWatch c = Some ∅ -> gCommit c = true ->
  run (peek (fun s => seal nonce now1 now2 (view s))) t H c (fun H' r c' => within H H' /\ exists m sc, r = Ok sc /\
    sealedFor m sc /\ during H' (fun s _ => inodes (mem s) = m) /\ c' = set_gSeal (Some (m, sc, false)) c).
Proof using Hx.
  intros Hw Hc. apply run_peek. intros s C a H' HH HJ Ht. destruct (J_seal K s C a t c nonce now1 now2 HJ Ht Hw Hc) as (sc&E&HJ').
  eexists. split; [exact HJ'|]. split; [later|]. exists (inodes (mem s)), sc. split; [done|].
  pose proof (st_seal _ _ (j_stored _ _ _ _ HJ') t _ (list_lookup_insert_eq _ _ _ (lookup_lt_Some _ _ _ Ht))) as Hse. simpl in Hse.
  split; [apply Hse|]. split; [by apply during_took|done].
Qed.

(** The call holds commitMu and nothing else. *)
Record committing (c : ghost) : Prop := {
  cm_file : gFile c = None;
  cm_gate : gGate c = GNone;
  cm_commit : gCommit c = true;
  cm_watch : gWatch c = None;
  cm_seal : gSeal c = None
}.

(** [c'] has kept what the rest of the call relies on. *)
Record kept (c c' : ghost) : Prop := {
  kt_await : gAwait c' = gAwait c;
  kt_names : gNames c ⊆ gNames c';
  kt_ptrs : gPtrs c ⊆ gPtrs c'
}.

Lemma kept_trans c c1 c2 : kept c c1 -> kept c1 c2 -> kept c c2.
Proof using Type. intros [A1 A2 A3] [B1 B2 B3]. split; [congruence|by etrans|by etrans]. Qed.

Lemma passed_kept w c c' : passed w c c' -> kept c c'.
Proof using Type. by intros []. Qed.

Lemma run_phase tk t H c :
  committing c ->
  run (phaseP tk) t H c (fun H' r c' => within H H' /\ kept c c' /\ gFile c' = None /\ gGate c' = GNone /\ gCommit c' = true /\ gWatch c' = None /\
    match r with
    | Ok sc => exists m, gSeal c' = Some (m, sc, false) /\ sealedFor m sc /\ during H' (fun s _ => inodes (mem s) = m)
    | Err e => e ≠ errUnsettled /\ gSeal c' = None
    end).
Proof using Lw Hx.
  intros [C1 C2 C3 C4 C5]. eapply run_seq; [by apply run_gateLock|]. intros H1 _ c1 [HH1 ->].
  eapply (run_seq K rq _ _ t H1 _ _ (fun H' r c' => within H1 H' /\ kept c c' /\ gFile c' = None /\ gGate c' = GWriting /\ gCommit c' = true /\
    match r with
    | Ok sc => exists m, gSeal c' = Some (m, sc, false) /\ sealedFor m sc /\ during H' (fun s _ => inodes (mem s) = m)
    | Err e => e ≠ errUnsettled /\ gSeal c' = None
    end)).
  - eapply (run_or K rq _ _ t H1 _ _ (fun H' r c' => within H1 H' /\ gFile c' = None /\ exists Y, passed (Some Y) (set_gGate GWriting c) c' /\
       match r with Ok _ => Y = ∅ | Err e => e ≠ errUnsettled end)).
    + eapply run_seq; [by apply run_settleAll|]. intros H2 r c2 (HH2&Hf2&Y&Hp&HY). apply run_ret. split; [done|]. split; [done|].
      exists Y. split; [done|]. destruct r as [[]|e]; [by apply HY|done].
    + intros H2 [] c2 (HH2&Hf2&Y&[P1 P2 P3 P4 P5 P6 P7]&->). simpl in *. eapply run_mono; [apply run_seal; [done|congruence]|].
      intros H3 r c3 (HH3&m&sc&->&Hsf&Hm&->). split; [later|]. split; [by split|]. split_and!; simpl; try congruence. by exists m.
    + intros H2 e c2 (HH2&Hf2&Y&[P1 P2 P3 P4 P5 P6 P7]&He). simpl in *. split; [done|]. split; [by split|]. split_and!; simpl; congruence.
  - intros H2 r c2 (HH2&[T1 T2 T3]&F2&G2&Hc2&Hr). eapply run_seq; [by apply run_reopen|]. intros H3 _ c3 [HH3 ->]. apply run_ret.
    split; [later|]. split; [by split|]. split_and!; simpl; try done. destruct r as [sc|e]; [|done].
    destruct Hr as (m&Hs&Hsf&Hm). exists m. split; [done|]. split; [done|]. by eapply during_within.
Qed.

(** ** Sync and COMMIT *)

Lemma run_clean t H c :
  run (peek (fun s => (dirty (mem s), rootKnowledge (mem s)))) t H c (fun H' v c' => within H H' /\ c' = c /\
    (v.1 = false -> during H' (fun s _ => dirty (mem s) = false))).
Proof using Type.
  apply run_peek. intros s C a H' HH HJ Hc. exists c. rewrite keep_ghost by done. split; [done|]. split; [later|]. split; [done|].
  intros Hd. by apply during_took.
Qed.

Lemma run_commit tk t H c :
  committing c -> run (commitP tk) t H c (fun H' r c' => within H H' /\ committing c' /\ kept c c' /\ synced r H').
Proof using Lw Hx.
  intros Hcm. assert (Hk : kept c c) by by split. eapply run_seq; [apply run_clean|]. intros H1 [d k] c1 (HH1&->&Hd). destruct d; cbn [negb].
  2:{ apply run_ret. split; [done|]. split; [done|]. split; [done|]. split; [done|]. intros _. left. by apply Hd. }
  eapply run_seq; [apply run_see|]. intros H2 m c2 [HH2 ->]. destruct (bool_decide (m = mountDiverged)).
  { apply run_ret. split; [later|]. split; [done|]. split; [done|]. by apply failed_synced. }
  eapply (run_or K rq _ _ t H2 c _ (fun H' r c' => within H2 H' /\ c' = c /\ r ≠ Err errUnsettled)).
  - destruct (bool_decide (k = rootInDoubt)); [|apply run_ret; split; [later|done]].
    eapply run_seq; [apply run_resolveRoot|]. intros H3 v c3 [HH3 ->]. apply run_ret. split; [done|]. split; [done|]. by destruct v.
  - intros H3 [] c3 (HH3&->&_). eapply run_or; [by apply run_phase| |].
    + intros H4 sc c4 (HH4&Hk4&F4&G4&Hc4&W4&m'&Hs&Hsf&Hm). eapply run_mono; [by eapply run_commitSealed|].
      intros H5 r c5 (HH5&->&Hr). split; [later|]. split; [by split|]. split; [|done]. by destruct Hk4.
    + intros H4 e c4 (HH4&Hk4&F4&G4&Hc4&W4&He&Hs). split; [later|]. split; [by split|]. split; [done|]. by apply failed_synced.
  - intros H3 e c3 (HH3&->&He). split; [later|]. split; [done|]. split; [done|]. apply failed_synced. congruence.
Qed.

(** The call holds no lock. *)
Record free (c : ghost) : Prop := {
  fr_file : gFile c = None;
  fr_gate : gGate c = GNone;
  fr_commit : gCommit c = false;
  fr_watch : gWatch c = None;
  fr_seal : gSeal c = None
}.

Lemma free_over c : over c <-> free c /\ gAwait c = None.
Proof using Type. split; [intros []; by repeat split|intros [[] ?]; by split]. Qed.

Lemma free_passed c c' : free c -> passed None c c' -> gFile c' = None -> free c'.
Proof using Type. intros [] [] ?. split; congruence. Qed.

Lemma run_Sync tk t H c :
  free c -> run (SyncP tk) t H c (fun H' r c' => within H H' /\ free c' /\ kept c c' /\ synced r H').
Proof using Lw Hx.
  intros Hfr. eapply (run_or K rq _ _ t H c _ (fun H' r c' => within H H' /\ free c' /\ kept c c' /\ r ≠ Err errUnsettled)).
  - eapply run_seq; [apply run_flushAll; apply Hfr|]. intros H1 r c1 (HH1&Hp&Hf1). apply run_ret. split; [done|].
    split; [by eapply free_passed|]. split; [by eapply passed_kept|]. by destruct r.
  - intros H1 [] c1 (HH1&[F1 F2 F3 F4 F5]&Hk1&_). eapply run_seq; [by apply run_lockCommit|]. intros H2 _ c2 [HH2 ->].
    eapply run_seq; [by apply run_commit|]. intros H3 r c3 (HH3&[M1 M2 M3 M4 M5]&Hk3&Hr).
    eapply run_seq; [by apply run_unlockCommit|]. intros H4 _ c4 [HH4 ->]. apply run_ret. split; [later|]. split; [by split|].
    split; [|by eapply synced_within]. apply (kept_trans _ _ _ Hk1). by destruct Hk3.
  - intros H1 e c1 (HH1&Hf1&Hk1&He). split; [done|]. split; [done|]. split; [done|]. apply failed_synced. congruence.
Qed.

(** A file's own flush before a Sync may fail with any error of the store. *)
Definition durable (r : result unit) (H : hist) : Prop :=
  r = Ok tt -> during H (fun s _ => dirty (mem s) = false) \/ placed H.

Lemma run_syncFile id tk t H c :
  free c -> run (syncFileP id tk) t H c (fun H' r c' => within H H' /\ free c' /\ kept c c' /\ durable r H').
Proof using Lw Hx.
  intros Hfr. eapply run_or; [apply run_commitFile; apply Hfr| |].
  - intros H1 [] c1 (HH1&Hp&Hf1). eapply run_mono; [apply run_Sync; by eapply free_passed|].
    intros H2 r c2 (HH2&Hf2&Hk2&Hr). split; [later|]. split; [done|]. split; [|exact (proj2 Hr)]. eapply kept_trans; [by eapply passed_kept|done].
  - intros H1 e c1 (HH1&Hp&Hf1). split; [done|]. split; [by eapply free_passed|]. split; [by eapply passed_kept|]. done.
Qed.

Lemma free_names l c : free c -> free (set_gNames l c).
Proof using Type. by intros []. Qed.

(** Where a COMMIT found its file. *)
Definition sought (h : Handle) (r : result unit) (H : hist) : Prop :=
  at_ H (fun a _ => is_ok (resolve a h) = true) \/ exists e, r = Err e /\ at_ H (fun a _ => resolve a h = Err e).

Lemma run_Commit h tk t H c :
  free c -> run (CommitP h tk) t H c (fun H' r c' => within H H' /\ free c' /\ gAwait c' = gAwait c /\ durable r H' /\ sought h r H').
Proof using Lw Hx.
  intros Hfr. eapply run_or; [apply (run_name K rq h (fun _ n => Ok (iID n)))| |].
  - intros H1 id c1 (HH1&l&->&_&id'&n&_&_&_&_&Hat). eapply run_mono; [apply run_syncFile; by apply free_names|].
    intros H2 r c2 (HH2&Hf2&[Hk _ _]&Hr). split; [later|]. split; [done|]. split; [done|]. split; [done|]. left. eapply at_within; [exact HH2|]. eapply at_mono; [exact Hat|]. by intros a a' ->.
  - intros H1 e c1 (HH1&l&->&_&He). split; [done|]. split; [by apply free_names|]. split; [done|]. split; [by intros ?|]. right. exists e. split; [done|].
    eapply at_mono; [exact He|]. intros a a'. cbn beta. destruct (resolve a h) as [[]|]; congruence.
Qed.

End Sync.
