(* ===== verification/HoldCall.v ===== *)
(** * WRITE and the calls of the filesystem

    [run_await]: a call that waits for the budget holds no lock while it waits,
    and is parked only while another drains; it may go round without end.
    [run_Write]: a WRITE that is answered took effect whole in one step, or its
    file had gone; with a stable answer a Sync followed; one that is refused did
    nothing. [call_wp]: every call is verified from start to end, in any
    company. *)

From stdpp Require Import sorting.
From S2P Require Import Prelude Prog Vfs Fsm Modes Policy Inode ChunkCache Budget Store FsState Tree Namespace.
From S2P Require Import NamespaceInv Drops Effects Data DataSpec FileSpec DataInv ReadDir Commit WritePath Durable.
From S2P Require Import CommitSpec SyncSpec Whole System Locks Hold HoldInv HoldSteps HoldFile HoldOps HoldCommit HoldRules.
From S2P Require Import HoldRead HoldFlush HoldWrite HoldSync.

Section Calls.
Context {Cd : Codec} {W : Type} {St : Store W} {Vw : StoreView W} {Lw : StoreLaws W}
  {Dg : Digest} {Hx : HexDigest} {Ro : RunOrder} {P : Policy} {TC : TypeChecked P}.
Context (K : conf) (rq : request).
Abbreviation shared := (shared W).
Abbreviation J := (J K).
Abbreviation hist := (@hist shared FS).
Abbreviation within := (within sameContents).
Abbreviation calmly := (calmly sameContents).
Abbreviation once := (once sameContents).
Abbreviation run := (run K rq).

(** ** The wait *)

(** A round of the wait, from [x] to [y]. *)
Lemma J_round (s : shared) C a t c b v wk :
  J s C a -> C !! t = Some c -> Budget.charge b = Budget.charge (budget (mem s)) ->
  (Awaits (budget (mem s)) (wakes s) (gAwait <$> C) -> (gAwait <$> C) !! t = Some (gAwait c) -> Awaits b wk (<[t := v]> (gAwait <$> C))) ->
  let s' := set_wakes wk (onMem (set_budget b) s) in
  exists a', J s' (<[t := set_gAwait v c]> C) a' /\ sameContents a a'.
Proof using Type.
  intros HJ Hc Hb Haw. eexists. apply (J_budget K); [done..|]. apply Haw; [apply HJ|]. by rewrite list_lookup_fmap, Hc.
Qed.

Lemma run_budget {A} loud (g : Budget.budget -> A * Budget.budget) (v : A -> Z -> option (Budget.call * Z)) t H c :
  (forall b, Budget.charge (g b).2 = Budget.charge b) ->
  (forall b w B, Awaits b w B -> B !! t = Some (gAwait c) ->
     let n := if loud : bool then w + 1 else w in Awaits (g b).2 n (<[t := v (g b).1 n]> B)) ->
  run (budgetHold loud g) t H c (fun H' r c' => within H H' /\ (exists b, r.1 = (g b).1 /\ during H' (fun _ s' => budget (mem s') = (g b).2)) /\ c' = set_gAwait (v r.1 r.2) c).
Proof using Type.
  intros Hch Haw. apply run_act. intros s C a H' HH _ HJ Hc. pose proof (Hch (budget (mem s))) as Hb. pose proof (Haw (budget (mem s)) (wakes s)) as Hw.
  destruct (g (budget (mem s))) as [x b] eqn:E. cbn [fst snd] in *. set (n := if loud then wakes s + 1 else wakes s) in *.
  destruct (J_round s C a t c b (v x n) n HJ Hc Hb (Hw _)) as (a'&HJ'&Hat). exists (set_gAwait (v x n) c), a'.
  split; [exact HJ'|]. split; [done|]. split; [later|]. split; [|done]. exists (budget (mem s)). rewrite E. split; [done|]. by apply during_took.
Qed.

(** What a call waiting as [cl] since the count [v] holds. *)
Definition waitsAs (cl : Budget.call) (v : Z) (c : ghost) : Prop :=
  free c /\ gAwait c = keepCall cl v /\ forall s, cl ≠ Budget.Woken s.

Lemma drained_not_woken canc s e b0 c b' : Budget.drained canc s e b0 = (c, b') -> forall s, c ≠ Budget.Woken s.
Proof using Type. destruct e; simpl; [by destruct canc; intros [= <- _]|]. apply iterate_not_woken. Qed.

Lemma free_await v c : free c -> free (set_gAwait v c).
Proof using Type. by intros []. Qed.

(** The names and entries a call knows. *)
Definition recalls (c c' : ghost) : Prop := gNames c ⊆ gNames c' /\ gPtrs c ⊆ gPtrs c'.

Lemma recalls_trans c c1 c2 : recalls c c1 -> recalls c1 c2 -> recalls c c2.
Proof using Type. intros [A1 A2] [B1 B2]. split; by etrans. Qed.

Lemma iterate_cancelled s b n : keepCall (Budget.iterate true s b).1 n = None.
Proof using Type. unfold Budget.iterate. destruct (Budget.failedSince s b); [done|]. by destruct (_ <? _). Qed.

Section Wait.
Context (ctx : nat -> bool) (ts : nat -> option tick).

(** Why a wait failed: the context was done in a round of it, its drain panicked,
    or the failure of a drain was found. *)
Definition waitFailed (e : error) (H : hist) : Prop :=
  (e = errCanceled /\ exists i, ctx i = true) \/ (e = Budget.errDrainPanicked /\ exists i, ts i = None) \/
  during H (fun _ s' => Budget.failure (budget (mem s')) = Some e).

(** What is known of a call that is over, of the hold that left the budget [b]
    with the context done or not. *)
Definition roundOf (canc : bool) (cl : Budget.call) (b : Budget.budget) : Prop :=
  match cl with
  | Budget.Done (Budget.Failed e) => Budget.failure b = Some e
  | Budget.Done Budget.CtxDone => canc = true
  | Budget.Done Budget.Panicked => False
  | _ => True
  end.

Lemma iterate_round canc s b : roundOf canc (Budget.iterate canc s b).1 (Budget.iterate canc s b).2.
Proof using Type.
  unfold Budget.iterate, Budget.failedSince. destruct (Budget.failure b) as [e|] eqn:Ef; [destruct (s <? Budget.failedAt b); [done|]|];
    (destruct (_ <? _); [done|]; destruct canc; [done|]; by destruct (Budget.draining b)).
Qed.

Lemma enter_round canc b : roundOf canc (Budget.enter canc b).1 (Budget.enter canc b).2.
Proof using Type. unfold Budget.enter. destruct (_ || _); [done|apply iterate_round]. Qed.

Lemma drained_round canc s e b : roundOf canc (Budget.drained canc s e b).1 (Budget.drained canc s e b).2.
Proof using Type. unfold Budget.drained. destruct e; [by destruct canc|apply iterate_round]. Qed.

(** What a call that stands as [cl] will answer is explained. *)
Definition callWas (cl : Budget.call) (H : hist) : Prop :=
  match cl with Budget.Done _ => match ended cl with Ok _ => True | Err e => waitFailed e H end | _ => True end.

Lemma waitFailed_within e H H' : within H H' -> waitFailed e H -> waitFailed e H'.
Proof using Type. intros Hw [?|[?|Hd]]; [by left|by right; left|right; right; by eapply during_within]. Qed.

Lemma callWas_within cl H H' : within H H' -> callWas cl H -> callWas cl H'.
Proof using Type. intros Hw. unfold callWas. destruct cl; try done. destruct (ended _); [done|]. by apply waitFailed_within. Qed.

Lemma callWas_round i cl b H : roundOf (ctx i) cl b -> during H (fun _ s' => budget (mem s') = b) -> callWas cl H.
Proof using Type.
  intros Hr (s&a&s'&a'&Hin&<-). destruct cl as [| | |[|e| |]]; try done; simpl in *; [|by left; eauto]. right. right. by exists s, a, s', a'.
Qed.

(** What the rounds keep. *)
Definition goesRound (H0 : hist) (c0 : ghost) (H : hist) (x : Budget.call * Z * nat) (c : ghost) : Prop :=
  within H0 H /\ waitsAs x.1.1 x.1.2 c /\ recalls c0 c /\ callWas x.1.1 H.

Definition waited (H0 : hist) (c0 : ghost) (H : hist) (r : result unit) (c : ghost) : Prop :=
  within H0 H /\ over c /\ recalls c0 c /\ match r with Ok _ => True | Err e => waitFailed e H end.

Definition roundEnds (H0 : hist) (c0 : ghost) (H : hist) (r : (Budget.call * Z * nat) + result unit) (c : ghost) : Prop :=
  match r with inl x => goesRound H0 c0 H x c | inr r => waited H0 c0 H r c end.

(** The context is done. *)
Lemma run_cancel start v i t H0 c0 H c :
  ctx i = true -> goesRound H0 c0 H (Budget.Parked start, v, i) c ->
  run (let~ (cl, _) := budgetHold true (fun b => Budget.iterate true start (unparked b)) in Ret (inr (ended cl))) t H c (roundEnds H0 c0).
Proof using Type.
  intros Hi (HH0&(Hfr&Ha&_)&Hrec&_). simpl in Ha. eapply run_seq.
  { apply (run_budget true (fun b => Budget.iterate true start (unparked b)) keepCall).
    - intros b. by rewrite iterate_charge.
    - intros b w B HB HBt. rewrite Ha in HBt. eapply (Awaits_resume b (w + 1) B (Awaits_broadcast b w B HB) t start v true); [done|]. apply surjective_pairing. }
  intros H1 [x n] c1 (HH1&(b&Hb&Hd)&->). simpl in *. subst x. apply run_ret. split; [later|]. split; [|split; [done|]].
  - apply free_over. split; [by apply free_await|]. apply iterate_cancelled.
  - pose proof (iterate_round true start (unparked b)) as Hr. rewrite <- Hi in Hr at 1. pose proof (callWas_round i _ _ H1 Hr Hd) as Hw.
    pose proof (iterate_cancelled start (unparked b) 0) as Hk. destruct (Budget.iterate true start (unparked b)).1; try done.
Qed.

(** The drain panicked. *)
Lemma run_panic start v i t H0 c0 H c :
  ts i = None -> goesRound H0 c0 H (Budget.Draining start, v, i) c ->
  run (let~ _ := budgetHold true (fun b => (tt, Budget.settle (Some Budget.errDrainPanicked) b)) in
       Ret (inr (Err Budget.errDrainPanicked))) t H c (roundEnds H0 c0).
Proof using Type.
  intros Hi (HH0&(Hfr&Ha&_)&Hrec&_). simpl in Ha. eapply run_seq.
  { apply (run_budget true (fun b => (tt, Budget.settle (Some Budget.errDrainPanicked) b)) (fun _ _ => None)); [done|].
    intros b w B HB HBt. rewrite Ha in HBt. by eapply Awaits_panicked. }
  intros H1 x c1 (HH1&_&->). apply run_ret. split; [later|]. split; [apply free_over; split; [by apply free_await|done]|]. split; [done|].
  right. left. eauto.
Qed.

(** The wait for a broadcast. *)
Lemma run_park start v i t H0 c0 H c :
  ctx i = false -> goesRound H0 c0 H (Budget.Parked start, v, i) c ->
  run (atom (fun s => if wakes s =? v then None
                      else let (cl, b) := Budget.iterate false start (unparked (budget (mem s))) in Some (cl, wakes s, onMem (set_budget b) s))) t H c
    (fun H' r c' => goesRound H0 c0 H' (r.1, r.2, S i) c').
Proof using Type.
  intros Hi (HH0&(Hfr&Ha&_)&Hrec&_). simpl in Ha. apply run_atom. intros s C a H' HH _ HJ Hc. destruct (Z.eqb_spec (wakes s) v) as [E|E].
  { right. split; [|exists start; by rewrite E]. destruct Hfr as [F1 F2 F3 _ _]. unfold lockOf. by rewrite F1, F2, F3. }
  pose proof (iterate_round false start (unparked (budget (mem s)))) as Hround.
  destruct (Budget.iterate false start (unparked (budget (mem s)))) as [cl b] eqn:Ei.
  destruct (J_round s C a t c b (keepCall cl (wakes s)) (wakes s) HJ Hc) as (a'&HJ'&Hat).
  - pose proof (iterate_charge false start (unparked (budget (mem s)))) as Hch. by rewrite Ei in Hch.
  - intros HA Ht. rewrite Ha in Ht. by eapply Awaits_resume.
  - eexists _, a'. split; [|split; [exact Hat|]].
    + replace (set_wakes (wakes s) (onMem (set_budget b) s)) with (onMem (set_budget b) s) in HJ' by (by destruct s). exact HJ'.
    + split; [later|]. split; [|split; [done|]].
      * split; [by apply free_await|]. split; [done|]. by eapply iterate_not_woken.
      * rewrite <- Hi in Hround. eapply callWas_round; [exact Hround|]. by apply during_took.
Qed.

(** The drain a call was elected for has ended. *)
Lemma run_drained start v i e t H c :
  free c -> gAwait c = Some (Budget.Draining start, v) ->
  run (budgetHold true (Budget.drained (ctx i) start e)) t H c (fun H' r c' => within H H' /\ waitsAs r.1 r.2 c' /\ recalls c c' /\ callWas r.1 H').
Proof using Type.
  intros Hfr Ha. eapply run_mono.
  { apply (run_budget true (Budget.drained (ctx i) start e) keepCall).
    - intros b. apply drained_charge.
    - intros b w B HB HBt. rewrite Ha in HBt. eapply Awaits_drained; [done..|]. apply surjective_pairing. }
  intros H2 [cl n] c2 (HH2&(b&Hb&Hd)&->). simpl in Hb. subst cl. split; [later|]. split; [|split; [done|]].
  - split; [by apply free_await|]. split; [done|]. exact (drained_not_woken (ctx i) start e b _ _ (surjective_pairing _)).
  - eapply callWas_round; [apply drained_round|exact Hd].
Qed.

Lemma run_round t H0 c0 H x c : goesRound H0 c0 H x c -> run (awaitRound ctx ts x) t H c (roundEnds H0 c0).
Proof using Lw Hx.
  destruct x as [[cl v] i]. intros Hg. pose proof Hg as (HH0&(Hfr&Ha&Hnw)&Hrec&Hwas). unfold awaitRound. cbn [fst snd] in *.
  destruct cl as [start|start|start|o]; [|by destruct (Hnw start)|..].
  - destruct (ctx i) eqn:Ei; [by eapply run_cancel|]. eapply run_seq; [by eapply run_park|]. intros H1 [cl1 v1] c1 Hp. by apply run_ret.
  - destruct (ts i) as [tk|] eqn:Ei; [|by eapply run_panic]. eapply run_seq; [by apply run_Sync|].
    intros H1 r c1 (HH1&Hf1&[K1 K2 K3]&_). eapply run_seq; [apply (run_drained start v i (errOf r)); [done|by rewrite K1, Ha]|].
    intros H2 [cl2 v2] c2 (HH2&Hw&Hr&Hwas2). apply run_ret. split; [later|]. split; [done|]. split; [|done].
    eapply recalls_trans; [exact Hrec|]. eapply recalls_trans; [by split|done].
  - apply run_ret. split; [done|]. split; [by apply free_over|]. done.
Qed.

Lemma run_await cl v t H c :
  waitsAs cl v c -> callWas cl H -> run (awaitP ctx ts cl v) t H c (waited H c).
Proof using Lw Hx.
  intros Hw Hwas. apply (run_loopP K rq (goesRound H c)).
  - intros H1 H2 x c1 HH (HH1&?&?&?). split; [later|]. split; [done|]. split; [done|]. by eapply callWas_within.
  - split; [later|done].
  - intros H1 x c1 Hg. eapply run_mono; [by apply run_round|]. intros H2 [x2|r] c2; [done|]. intros Hr. by apply run_ret.
Qed.

Lemma enter_not_woken canc b0 c b' : Budget.enter canc b0 = (c, b') -> forall s, c ≠ Budget.Woken s.
Proof using Type. unfold Budget.enter. destruct (_ || _); [by intros [= <- _]|]. apply iterate_not_woken. Qed.

Lemma run_budgetP t H c : over c -> run (budgetP ctx ts) t H c (waited H c).
Proof using Lw Hx.
  intros [Hfr Ha]%free_over. eapply run_seq.
  { apply (run_budget false (Budget.enter (ctx 0%nat)) keepCall).
    - intros b. apply enter_charge.
    - intros b w B HB HBt. rewrite Ha in HBt. eapply Awaits_enter; [done..|]. apply surjective_pairing. }
  intros H1 [cl n] c1 (HH1&(b&Hb&Hd)&->). simpl in Hb. subst cl.
  eapply run_mono; [apply run_await|intros H2 r c2 (HH2&Ho2&Hr2&He2); split; [later|]; by split].
  - split; [by apply free_await|]. split; [done|]. exact (enter_not_woken (ctx 0%nat) b _ _ (surjective_pairing _)).
  - eapply callWas_round; [apply enter_round|exact Hd].
Qed.

End Wait.

(** ** WRITE *)

Lemma over_ptrs l c : over c -> over (set_gPtrs l c).
Proof using Type. by intros []. Qed.

Lemma over_names l c : over c -> over (set_gNames l c).
Proof using Type. by intros []. Qed.

Lemma over_passed c c' : over c -> passed None c c' -> gFile c' = None -> over c'.
Proof using Type. intros [] [] ?. split; congruence. Qed.

Section Write.
Context (who : Caller) (h : Handle) (off : Z) (data : bytes) (how : Stability) (ctx : nat -> bool) (ts : nat -> option tick) (now : Z).
Hypothesis (Heff : forall k a a', wrote a a' h off (clamp (maxFileSize K) off data) k now -> effect K rq a a').

(** The file at [a], if the caller may write it. *)
Definition writeCheck (a : FS) : result Z :=
  match resolve a h with
  | Err e => Err e
  | Ok (id, n) => match checkPerm OpWrite who n with Some e => Err e | None => Ok id end
  end.

(** The write was let in, and its first [n] bytes took effect in one step of the
    call, or the file was gone at one. *)
Definition wroteOnce (n : Z) (H : hist) : Prop :=
  0 < n <= blen (clamp (maxFileSize K) off data) /\ off < maxFileSize K /\ at_ H (fun a _ => is_ok (writeCheck a) = true) /\
  published h off (clamp (maxFileSize K) off data) n now [] H.

(** Why a WRITE was refused. *)
Definition writeRefused (e : error) (H : hist) : Prop :=
  modeWas (Some e) H \/ (e = EStatus ErrFBig /\ maxFileSize K <= off) \/ at_ H (fun a _ => writeCheck a = Err e) \/
  waitFailed ctx ts e H \/ startFailed K e H.

(** A WRITE that is answered wrote what it counts, and was stable if it says so,
    with a Sync after the write. One that fails did nothing, and its error is
    that of one of its steps; or it was to be stable, took effect and its Sync
    failed. *)
Definition answersWrite (r : result (Z * Stability)) (H : hist) : Prop :=
  match r with
  | Ok (k, how') => modeWas None H /\
      ((blen data = 0 /\ k = 0 /\ how' = FileSync /\ calmly H) \/
       exists n, k = u32 n /\ wroteOnce n H /\ match how with Unstable => how' = Unstable | _ => how' = FileSync /\ durable (Ok tt) H end)
  | Err e => (calmly H /\ writeRefused e H) \/ (how ≠ Unstable /\ exists n, wroteOnce n H)
  end.

Lemma wroteOnce_within n H H' : within H H' -> wroteOnce n H -> wroteOnce n H'.
Proof using Type.
  intros Hw (H1&H2&H3&H4). split; [done|]. split; [done|]. split; [by eapply at_within|by eapply published_after].
Qed.

(** The stable end of a write. *)
Lemma run_stable id n tk t H c :
  over c -> how ≠ Unstable -> modeWas None H -> wroteOnce n H ->
  run (let~? _ := syncFileP id tk in Ret (Ok (u32 n, FileSync))) t H c (fun H' r c' => over c' /\ answersWrite r H').
Proof using Lw Hx.
  intros Hov Hst Hm Hw. destruct (proj1 (free_over _) Hov) as [Hf Ha]. eapply run_or; [by apply run_syncFile| |].
  - intros H1 [] c1 (HH1&Hf1&[K1 _ _]&Hd1). apply run_ret. split; [apply free_over; split; [done|congruence]|].
    split; [by eapply at_within|]. right. exists n. split; [done|]. split; [by eapply wroteOnce_within|]. by destruct how.
  - intros H1 e c1 (HH1&Hf1&[K1 _ _]&_). split; [apply free_over; split; [done|congruence]|]. right. split; [done|]. exists n. by eapply wroteOnce_within.
Qed.

(** The write once the budget lets it through. *)
Lemma run_through id g t H c tk :
  calmly H -> over c -> 0 <= off < maxFileSize K -> 0 < blen data -> maxFileSize K < 2 ^ 64 -> decodeHandle h = Some (id, g) -> (id, g) ∈ gNames c ->
  modeWas None H -> at_ H (fun a _ => is_ok (writeCheck a) = true) ->
  run (let~ p := getOpenP id in
       let~? written := bufferWriteP h p off (clamp (maxFileSize K) off data) now in
       match how with
       | FileSync | DataSync => let~? _ := syncFileP id tk in Ret (Ok (u32 written, FileSync))
       | Unstable => Ret (Ok (u32 written, Unstable))
       end) t H c (fun H' r c' => over c' /\ answersWrite r H').
Proof using Lw Hx Heff.
  intros Hcalm Hov Hoff Hd Hmax Hh Hg Hm Hck. destruct (clamp_spec (maxFileSize K) off data ltac:(lia)) as [Hlen Hend].
  set (d := clamp (maxFileSize K) off data) in *. assert (Hpos : 0 < blen d) by lia. assert (Hbnd : off + blen d < 2 ^ 64) by lia.
  eapply run_seq; [by eapply (run_open K rq id g)|]. intros H1 p c1 [HH1 ->].
  eapply run_or; [apply (run_bufferWrite K rq h id g off p d now Hh ltac:(lia) Hpos Hbnd Heff); [later|apply Hov|apply list_elem_of_here|done]| |].
  - intros H2 k c2 ((Hk&Hpub)&Hpa&Hf2). assert (Ho2 : over c2).
    { apply (over_passed (set_gPtrs ((id, p) :: gPtrs c) c)); [by apply over_ptrs| |done]. change (gWatch (set_gPtrs _ c)) with (gWatch c) in Hpa.
      by rewrite (ov_watch _ Hov) in Hpa. }
    assert (Hfo : follows H H2).
    { intros x Hin. apply (published_follows _ _ _ _ _ _ _ Hpub). eapply within_elem; [exact HH1|done]. }
    assert (Hw : wroteOnce k H2).
    { split; [done|]. split; [lia|]. split; [by eapply at_follows|]. eapply published_before; [|exact Hpub]. later. }
    assert (Hm2 : modeWas None H2) by (by eapply at_follows).
    destruct how eqn:Eh; [|apply (run_stable id k tk); [done|by rewrite Eh|done|done]..].
    apply run_ret. split; [done|]. split; [done|]. right. exists k. split; [done|]. split; [done|]. by rewrite Eh.
  - intros H2 e c2 ((HH2&Hst)&Hpa&Hf2). split.
    { apply (over_passed (set_gPtrs ((id, p) :: gPtrs c) c)); [by apply over_ptrs| |done]. change (gWatch (set_gPtrs _ c)) with (gWatch c) in Hpa.
      by rewrite (ov_watch _ Hov) in Hpa. }
    left. split; [later|]. by do 4 right.
Qed.

Lemma run_Write tk t H c :
  calmly H -> 0 <= off -> over c ->
  run (WriteP who h off data how ctx ts now tk) t H c (fun H' r c' => over c' /\ answersWrite r H').
Proof using Lw Hx Heff.
  intros Hcalm Hoff Hov. eapply run_seq; [apply run_mode|]. intros H1 m c1 (HH1&->&Hm). destruct (mutableMode m) as [e|] eqn:Em.
  { apply run_ret. split; [done|]. left. split; [later|]. left. by eapply modeWas_mode. }
  pose proof (modeWas_mode _ _ _ Em Hm) as Hmode. destruct (Z.eqb_spec (blen data) 0) as [E0|E0].
  { apply run_ret. split; [done|]. split; [done|]. left. split_and!; [done..|later]. }
  pose proof (blen_nonneg data) as Hnn. eapply run_seq; [apply run_max|]. intros H2 max c2 (HH2&->&->&Hmax).
  destruct (Z.leb_spec (maxFileSize K) off) as [Hle|Hlt]; [apply run_ret; split; [done|]; left; split; [later|by right; left]|].
  cbv zeta. eapply run_or; [apply (run_name K rq h (fun _ n => match checkPerm OpWrite who n with Some e => Err e | None => Ok (iID n) end))| |].
  2:{ intros H3 e c3 (HH3&l&->&_&He). split; [by apply over_names|]. left. split; [later|]. right. right. left. eapply at_mono; [exact He|].
      intros a a'. unfold writeCheck. destruct (resolve a h) as [[id n]|]; [|congruence]. destruct (checkPerm OpWrite who n); congruence. }
  intros H3 id c3 (HH3&l&->&_&id'&n&Hreq&Hn&Hd&Hin&Hat).
  destruct (checkPerm OpWrite who n) as [e|] eqn:Ep; [done|]. assert (id' = id) as -> by congruence.
  assert (Hck : at_ H3 (fun a _ => is_ok (writeCheck a) = true)).
  { eapply at_mono; [exact Hat|]. intros a a' Ha. unfold writeCheck. by rewrite Ha, Ep. }
  eapply run_or; [by apply run_budgetP, over_names| |].
  2:{ intros H4 e c4 (HH4&Ho4&_&He). split; [done|]. left. split; [later|]. by do 3 right; left. }
  intros H4 [] c4 (HH4&Ho4&[Hr4 _]&_). apply (run_through id (iGen n)); try done; try lia; [later|by apply Hr4| |by eapply at_within].
  eapply at_within; [|exact Hmode]. later.
Qed.

End Write.

(** ** Every call *)

(** The requests the wire can carry. *)
Definition allowed (q : request) : Prop :=
  match q with
  | QRead _ _ off count => 0 <= off /\ 0 <= count
  | QWrite _ _ off _ _ _ _ _ _ => 0 <= off
  | QSetAttr _ _ sa _ => forall size, saSize sa = Some size -> is_u64 size
  | QOp op => opText op
  | QCommit _ _ | QSync _ => True
  end.

(** A Sync and a COMMIT change nothing a client sees, whatever they answer. *)
Definition answersSync (r : result unit) (H : hist) : Prop := calmly H /\ synced r H.
Definition answersCommit (h : Handle) (r : result unit) (H : hist) : Prop := calmly H /\ durable r H /\ sought h r H.

(** What a reply says of the steps its call took, [H]. *)
Definition explained (q : request) (r : reply) (H : hist) : Prop :=
  match q, r with
  | QRead who h off count, RData r => answersRead K who h off count r H
  | QWrite who h off data how ctx ts now _, RCount r => answersWrite who h off data how ctx ts now r H
  | QSetAttr who h sa now, RAttr r => answersAttr K who h sa now r H
  | QOp op, RDone r => answersOp op r H
  | QCommit h _, RSynced r => answersCommit h r H
  | QSync _, RSynced r => answersSync r H
  | _, _ => False
  end.

Lemma idle_over : over idle.
Proof using Type. by split. Qed.

(** A call whose reply is a function of its answer. *)
Lemma run_reply {A} (m : prog shared A) (g : A -> reply) t H c (R : A -> hist -> Prop) (Q : reply -> hist -> Prop) :
  run m t H c (fun H' r c' => over c' /\ R r H') -> (forall r H', R r H' -> Q (g r) H') ->
  run (let~ r := m in Ret (g r)) t H c (fun H' r c' => over c' /\ Q r H').
Proof using Type. intros Hm HQ. eapply run_seq; [exact Hm|]. intros H' r c' (Ho&HR). apply run_ret. split; [done|by apply HQ]. Qed.

End Calls.

Section Every.
Context {Cd : Codec} {W : Type} {St : Store W} {Vw : StoreView W} {Lw : StoreLaws W}
  {Dg : Digest} {Hx : HexDigest} {Ro : RunOrder} {P : Policy} {TC : TypeChecked P}.
Context (K : conf).

Lemma call_wp q t : allowed q ->
  wp (J K) sameContents blocked room (effect K q) (call (W := W) q) t [] idle (fun H' r c' => over c' /\ explained K q r H').
Proof using Lw Hx TC.
  intros Hq. pose proof (proj1 (free_over idle) idle_over) as [Hf _]. assert (Hcalm : calmly sameContents (@nil ((shared W * FS) * (shared W * FS)))) by apply within_refl.
  destruct q as [who h off count|who h off data how ctx ts now tk|who h sa now|op|h tk|tk]; simpl in Hq.
  - eapply (run_reply K (QRead who h off count)); [apply run_Read; [apply Hq..|done|apply idle_over]|done].
  - eapply (run_reply K (QWrite who h off data how ctx ts now tk)); [apply run_Write; [|done|done|apply idle_over]|done]. intros k a a' Hw. by exists k.
  - eapply (run_reply K (QSetAttr who h sa now)); [apply run_SetAttr; [done|done|apply idle_over|done]|done].
  - eapply (run_reply K (QOp op)); [|by intros r H' Hr; exact Hr]. eapply run_mono; [apply run_op; [done|done|]|].
    + intros m r a a' Hr. by exists m, r.
    + intros H' r c' (->&Hr). split; [apply idle_over|exact Hr].
  - eapply (run_reply K (QCommit h tk)); [|by intros r H' Hr; exact Hr]. eapply run_mono; [by apply run_Commit|]. intros H' r c' (HH&Hf'&Ha&Hr).
    split; [by apply free_over|]. done.
  - eapply (run_reply K (QSync tk)); [|by intros r H' Hr; exact Hr]. eapply run_mono; [by apply run_Sync|]. intros H' r c' (HH&Hf'&[Ha _ _]&Hr).
    split; [by apply free_over|]. by split.
Qed.

End Every.
