(* ===== verification/Rival.v ===== *)
(** * A mount whose root another writer has moved

    Two mounts of one bucket. [stale] says that the root pointer is no longer
    the one the mount knows: its ETag is another, and it names a snapshot of
    another writer. Whatever the stale mount is then asked to do, and whatever
    of the store fails, it leaves the root pointer and every object but its own
    snapshots as they are, so the other mount stays sound; and no Sync of its
    changes is ever acknowledged. That is of a mount without
    AllowUnconditionalRoot. A mount's snapshots are told apart by their nonces. *)

From stdpp Require Import sorting.
From S2P Require Import Prelude Vfs Fsm Modes Policy Inode ChunkCache Budget Store FsState Tree Namespace.
From S2P Require Import NamespaceInv Effects Data DataSpec FileSpec DataInv ReadDir Commit WritePath Keeps Durable.
From S2P Require Import CommitSpec SyncSpec Whole System.

(** ** What the calls leave of the mount's knowledge of the root *)

Section View.
Context {P : Policy}.

Lemma relinkOut_view nid from f : rootView (relinkOut nid from f) = rootView f.
Proof.
  unfold relinkOut. destruct (relink nid from None (inodes f)) as [m gone]. destruct gone; [|done]. unfold dropOpen. simpl. by destruct (open f !! nid).
Qed.

Lemma createEntry_view f c dir name t sa target excl now1 now2 : rootView (createEntry f c dir name t sa target excl now1 now2).2 = rootView f.
Proof.
  destruct (createEntry f c dir name t sa target excl now1 now2) as [r f'] eqn:E. cbn [snd].
  by apply createEntry_cases in E as [->|(did&d&_&_&_&_&_&_&_&->)].
Qed.

Lemma unlink_view f c dir name b now : rootView (unlink f c dir name b now).2 = rootView f.
Proof. unfold unlink. repeat case_match; try done. cbn [snd]. exact (relinkOut_view _ _ (upd _ _ f)). Qed.

Lemma Rename_view f c d1 x d2 y t1 t2 t3 : rootView (Rename f c d1 x d2 y t1 t2 t3).2 = rootView f.
Proof. unfold Rename. repeat case_match; try done. cbn [snd]. exact (relinkOut_view _ _ f). Qed.

Lemma setAttrNoSize_view f c h sa now : rootView (setAttrNoSize f c h sa now).2 = rootView f.
Proof. unfold setAttrNoSize. by repeat case_match. Qed.

Lemma perform_view f op : rootView (perform f op).2 = rootView f.
Proof.
  destruct op as [c dir name sa excl t1 t2|c dir name sa t1 t2|c dir name target sa t1 t2|c dir name t|c dir name t|c d1 x d2 y t1 t2 t3|c h sa t]; cbn [perform];
    unfold Create, Mkdir, Symlink, Remove, Rmdir.
  - pose proof (createEntry_view f c dir name TypeReg sa "" excl t1 t2) as H. by destruct (createEntry _ _ _ _ _ _ _ _ _ _).
  - pose proof (createEntry_view f c dir name TypeDir sa "" true t1 t2) as H. by destruct (createEntry _ _ _ _ _ _ _ _ _ _).
  - destruct (String.eqb target ""); [done|]. pose proof (createEntry_view f c dir name TypeLnk sa target true t1 t2) as H.
    by destruct (createEntry _ _ _ _ _ _ _ _ _ _).
  - pose proof (unlink_view f c dir name false t) as H. by destruct (unlink _ _ _ _ _ _).
  - pose proof (unlink_view f c dir name true t) as H. by destruct (unlink _ _ _ _ _ _).
  - pose proof (Rename_view f c d1 x d2 y t1 t2 t3) as H. by destruct (Rename _ _ _ _ _ _ _ _ _).
  - pose proof (setAttrNoSize_view f c h sa t) as H. by destruct (setAttrNoSize _ _ _ _ _).
Qed.

Lemma SetAttr_view f c h sa now : rootView (SetAttr_ f c h sa now).2 = rootView f.
Proof.
  unfold SetAttr_. destruct (mutable f); [done|]. destruct (saSize sa) as [size|]; [|apply setAttrNoSize_view].
  unfold truncate, getOpen. destruct (_ <? _); [done|]. destruct (resolve f h) as [[k n]|]; [|done]. destruct (setAttrRequests c n sa); [done|].
  destruct (open f !! iID n); repeat (case_match; try done).
Qed.

End View.

(** ** Keys of a given length *)

Lemma length_append a b : String.length (a +:+ b) = (String.length a + String.length b)%nat.
Proof. induction a as [|c a IH]; [done|]. change (String c a +:+ b) with (String c (a +:+ b)). cbn. by rewrite IH. Qed.

Lemma digits_length n z : String.length (digits n z) = n.
Proof. revert z. induction n as [|n IH]; intros z; [done|]. cbn [digits]. rewrite length_append, IH. cbn. lia. Qed.

Lemma hex_length l : String.length (hex l) = (2 * length l)%nat.
Proof. induction l as [|b l IH]; [done|]. cbn [hex]. rewrite length_append, IH. cbn -[Nat.mul]. lia. Qed.

Lemma snapshotKey_length e n : String.length (snapshotKey e n) = (39 + 2 * length n)%nat.
Proof. unfold snapshotKey. rewrite !length_append, digits_length, hex_length. cbn -[Nat.mul Nat.add]. lia. Qed.

(** ** The invariant of a stale mount *)

Section Stale.
Context {Cd : Codec} {W : Type} {St : Store W} {Vw : StoreView W} {Lw : StoreLaws W}
  {Dg : Digest} {Hx : HexDigest} {Ro : RunOrder} {P : Policy} {TC : TypeChecked P}.

(** The nonces the mount draws. *)
Context (N : bytes -> Prop).

(** The snapshots of the mount. *)
Definition mine (k : string) : Prop := exists e n, N n /\ k = snapshotKey e n.

(** The root pointer is no longer the one the mount knows. *)
Record stale (f : FS) (w : W) : Prop := {
  st_root : exists raw rp, objects w !! rootKey = Some raw /\ unmarshalRoot raw = Some rp /\ rpVersion rp = snapshotVersion /\
    rpSnapshot rp ≠ "" /\ ~ mine (rpSnapshot rp) /\ rpSnapshot rp ≠ rootSnapshot f;
  st_etag : etagOf w rootKey ≠ Some (rootETag f);
  st_doubt : doubtKey f = "" \/ mine (doubtKey f)
}.

(** ... and the mount was not allowed to write it unconditionally. *)
Record overtaken (f : FS) (w : W) : Prop := {
  ot_root : exists raw rp, objects w !! rootKey = Some raw /\ unmarshalRoot raw = Some rp /\ rpVersion rp = snapshotVersion /\
    rpSnapshot rp ≠ "" /\ ~ mine (rpSnapshot rp) /\ rpSnapshot rp ≠ rootSnapshot f;
  ot_etag : etagOf w rootKey ≠ Some (rootETag f);
  ot_doubt : doubtKey f = "" \/ mine (doubtKey f);
  ot_cond : fallbackAllowed f = false
}.

Lemma overtaken_stale f w : overtaken f w <-> stale f w /\ fallbackAllowed f = false.
Proof using Type. split; [intros []; by repeat split|intros [[] ?]; by split]. Qed.

(** Nothing but its own snapshots changes. *)
Record untouched (w w' : W) : Prop := {
  ut_etag : etagOf w' rootKey = etagOf w rootKey;
  ut_same : forall k, ~ mine k -> objects w' !! k = objects w !! k
}.

Lemma untouched_trans w w1 w2 : untouched w w1 -> untouched w1 w2 -> untouched w w2.
Proof using Type. intros [A1 A2] [B1 B2]. split; [congruence|]. intros k Hk. by rewrite B2, A2. Qed.

Lemma mine_root : ~ mine rootKey.
Proof using Type. intros (e&n&_&Hk). by apply (snapshotKey_root e n). Qed.

Lemma mine_chunk h : ~ mine (chunkKey h).
Proof using Type. intros (e&n&_&Hk). by apply (snapshotKey_chunk e n h). Qed.

Lemma mine_ok k : mine k -> keyOK k.
Proof using Lw. intros (e&n&_&->). apply key_snapshot. Qed.

(** A root that is not touched stays moved. *)
Lemma stale_untouched f w w' : overtaken f w -> untouched w w' -> overtaken f w'.
Proof using Type.
  intros [(raw&rp&H1&H2) H3 H4 H5] [L1 L2]. split; [|by rewrite L1|done|done]. exists raw, rp. by rewrite L2 by apply mine_root.
Qed.

Lemma stale_view f g w : rootView g = rootView f -> overtaken f w -> overtaken g w.
Proof using Type.
  intros Hv [H1 H2 H3 H4]. injection Hv as V1 V2 V3 V4 _. split; [by rewrite V2|by rewrite V1|by rewrite V3|].
  unfold fallbackAllowed in *. by rewrite V4.
Qed.

Lemma untouched_same w w' : objects w' = objects w -> etagOf w' rootKey = etagOf w rootKey -> untouched w w'.
Proof using Type. intros Ho He. split; [done|]. intros k _. by rewrite Ho. Qed.

(** Only an object of its own changes. *)
Lemma untouched_own w w' k : mine k -> (forall j, j ≠ k -> objects w' !! j = objects w !! j) -> etagOf w' rootKey = etagOf w rootKey -> untouched w w'.
Proof using Type.
  intros Hk Ho He. split; [done|]. intros j Hj. rewrite Ho; [done|]. by intros ->.
Qed.

Lemma put_own k d w : mine k -> untouched w (Put k d w).2.
Proof using Lw.
  intros Hk. pose proof (mine_ok k Hk) as Hok. assert (Hne : k ≠ rootKey) by (intros ->; by apply mine_root).
  apply (untouched_own w _ k Hk); [|by apply put_etags]. intros j Hj. destruct (Put k d w).1 as [[]|e] eqn:E.
  - rewrite (put_ok k d w Hok E). by rewrite lookup_insert_ne.
  - destruct (put_err k d w e Hok E) as [->| ->]; [done|by rewrite lookup_insert_ne].
Qed.

Lemma delete_own k w : mine k -> untouched w (Delete k w).2.
Proof using Lw.
  intros Hk. pose proof (mine_ok k Hk) as Hok. assert (Hne : k ≠ rootKey) by (intros ->; by apply mine_root).
  apply (untouched_own w _ k Hk); [|by apply del_etags]. intros j Hj. destruct (Delete k w).1 as [[]|e] eqn:E.
  - rewrite (del_ok k w Hok E). by rewrite lookup_delete_ne.
  - destruct (del_err k w e Hok E) as [->| ->]; [done|by rewrite lookup_delete_ne].
Qed.

(** The swap of a root that has moved is refused. *)
Lemma pim_stale d w t f : overtaken f w -> t = rootETag f ->
  exists e, (PutIfMatch rootKey d t w).1 = Err e /\ untouched w (PutIfMatch rootKey d t w).2.
Proof using Lw.
  intros [(raw&rp&Hr&_) He _ _] ->. assert (Hno : etagOf w rootKey ≠ (if String.eqb (rootETag f) "" then None else Some (rootETag f))).
  { destruct (String.eqb (rootETag f) ""); [|done]. intros Hn. destruct (proj2 (etag_some w rootKey)) as [x Hsome]; [by eexists|]. congruence. }
  destruct (PutIfMatch rootKey d (rootETag f) w).1 as [t'|e] eqn:E.
  - by destruct (pim_ok _ _ _ _ _ key_root E) as (?&_).
  - exists e. split; [done|]. destruct (pim_err _ _ _ _ _ key_root E) as [[Ho Het]|[? _]]; [by apply untouched_same|done].
Qed.

(** ** The commit of a stale mount *)

Lemma resolve_stale f w v f' w' : overtaken f w -> resolveRoot (f, w) = (Ok v, (f', w')) ->
  untouched w w' /\ overtaken f' w' /\ (v = probeTheirs \/ v = probeFailed).
Proof using Lw.
  intros Hs Hrun. assert (Hl : untouched w w').
  { unfold resolveRoot, bind, attempt, onStore, onFS in Hrun. cbn in Hrun. pose proof (gwe_frame rootKey w) as H1. pose proof (gwe_etags rootKey w rootKey) as H2.
    destruct (GetWithETag rootKey w) as [read w1]. cbn in *. destruct (settleRoot read f). injection Hrun as <- <- <-. by apply untouched_same. }
  destruct (resolveRoot_spec _ _ _ _ _ Hrun) as (_&read&v'&[= <-]&Hread&Hset). split; [done|]. pose proof (stale_untouched _ _ _ Hs Hl) as Hs'.
  destruct Hs as [(raw&rp&Hr&Hu&Hver&Hne&Hmi&Hrs) _ Hdo _].
  assert (Hcl : classifyRoot read (rootSnapshot f) (doubtKey f) = (probeTheirs, rp) \/ exists x, classifyRoot read (rootSnapshot f) (doubtKey f) = (probeFailed, x)).
  { unfold classifyRoot. destruct read as [[d t]|e].
    - destruct (gwe_ok rootKey w d t key_root (eq_sym Hread)) as [Hd _]. assert (d = raw) as -> by congruence. rewrite Hu, Hver, Z.eqb_refl. cbn [negb orb].
      apply String.eqb_neq in Hne as Hne'. rewrite Hne'. destruct (String.eqb_spec (rpSnapshot rp) (doubtKey f)) as [Hd'|_].
      + destruct Hdo as [Hdo|Hdo]; rewrite <- Hd' in Hdo; congruence.
      + apply String.eqb_neq in Hrs. rewrite Hrs. by left.
    - destruct (errIs e ErrNotFound) eqn:Ee; [|right; by eexists]. exfalso.
      assert (Hn : objects w !! rootKey = None) by (apply gwe_missing; [apply key_root|by rewrite <- Hread]). congruence. }
  unfold settleRoot in Hset. destruct Hcl as [Hcl|[x Hcl]]; rewrite Hcl in Hset; injection Hset as <- <-; [|by auto].
  split; [|by left]. destruct Hs' as [O1 O2 O3 O4]. by split.
Qed.

(** What the swap of a stale mount can come to: never to a swap. *)
Lemma swap_stale s f w r f' w' : overtaken f w -> mine (scKey s) -> scRootETag s = rootETag f -> swapRoot s (f, w) = (r, (f', w')) ->
  f' = f /\ untouched w w' /\
  match r with Ok (Doubtful (Some _) _ _) | Ok (SwapRefused _) => True | _ => False end.
Proof using Lw.
  intros Hs Hm Ht. unfold swapRoot, bind at 1, attempt, onStore. cbn [fst snd].
  destruct (pim_stale (scRpBody s) w (scRootETag s) f Hs Ht) as (e&He&Hl). destruct (PutIfMatch rootKey (scRpBody s) (scRootETag s) w) as [r1 w1]. cbn [fst snd] in *. subst r1.
  unfold bind at 1, getFS. cbn [fst snd]. rewrite (ot_cond f w Hs). destruct (errIs e ErrPrecondition); [by intros [= <- <- <-]|].
  destruct (errIs e ErrUnsupported); [|by intros [= <- <- <-]].
  unfold reclaim, bind at 1, attempt, onStore. cbn [fst snd]. pose proof (get_frame rootKey w1) as H1. pose proof (get_etags rootKey w1 rootKey) as H2.
  destruct (Get rootKey w1) as [raw w2]. cbn [fst snd] in *. assert (Hl2 : untouched w w2) by (eapply untouched_trans; [exact Hl|by apply untouched_same]).
  destruct (_ || _); [|by intros [= <- <- <-]]. unfold bind, attempt, onStore, ret. cbn [fst snd].
  pose proof (delete_own (scKey s) w2 Hm) as Hd. destruct (Delete (scKey s) w2) as [r3 w3]. cbn [snd] in Hd. intros [= <- <- <-].
  split; [done|]. split; [by eapply untouched_trans|done].
Qed.

Lemma commit_stale s now f w r f' w' : overtaken f w -> mine (scKey s) -> scRootETag s = rootETag f -> commitSealed s now (f, w) = (r, (f', w')) ->
  untouched w w' /\ overtaken f' w' /\ is_ok r = false.
Proof using Lw.
  intros Hs Hm Ht. unfold commitSealed, settleDoubt, bind at 1, attempt at 1, onStore at 1. cbn [fst snd]. pose proof (put_own (scKey s) (scBody s) w Hm) as Hl1.
  destruct (Put (scKey s) (scBody s) w) as [[[]|e] w1]; cbn [snd] in Hl1; [|intros [= <- <- <-]; split; [done|split; [by eapply stale_untouched|done]]].
  pose proof (stale_untouched _ _ _ Hs Hl1) as Hs1. intros Hrun.
  apply bind_inv in Hrun as [(o&[f2 w2]&Hsw&Hrun)|(e&Hsw&->)]; destruct (swap_stale s f w1 _ _ _ Hs1 Hm Ht Hsw) as (->&Hl2&Ho); [|done].
  pose proof (untouched_trans _ _ _ Hl1 Hl2) as Hl. pose proof (stale_untouched _ _ _ Hs1 Hl2) as Hs2. destruct o as [et|[old|] ue fe|e]; [done| |done|by injection Hrun as <- <- <-].
  unfold bind at 1, getFS in Hrun. cbn [fst snd] in Hrun. destruct (fireRoot (rootKnowledge f) rootSwapUnknown) as [k ok]. destruct ok; cbn [negb] in Hrun.
  - unfold bind at 1, modFS in Hrun. cbn [fst snd] in Hrun. set (g := set_rootKnowledge k (set_doubtKey (scKey s) f)) in Hrun.
    assert (Hg : overtaken g w2) by (destruct Hs2 as [H1 H2 _ H4]; split; [done|done|by right|done]).
    apply bind_inv in Hrun as [(v&[f3 w3]&Hrr&Hrun)|(e&Hrr&_)]; [|by destruct (resolveRoot_spec _ _ _ _ _ Hrr) as (_&?&?&?&_)].
    destruct (resolve_stale _ _ _ _ _ Hg Hrr) as (Hl3&Hs3&[-> | ->]); injection Hrun as <- <- <-; (split; [by eapply untouched_trans|done]).
  - injection Hrun as <- <- <-. split; [done|]. split; [|done]. destruct Hs2 as [H1 H2 _ H4]. split; [done|done|by left|done].
Qed.

(** ** Every call *)

(** The root pointer and every object of others stay as they are. *)
Record leaves (w w' : W) : Prop := {
  lv_root : objects w' !! rootKey = objects w !! rootKey;
  lv_etag : etagOf w' rootKey = etagOf w rootKey;
  lv_keep : forall k d, ~ mine k -> objects w !! k = Some d -> objects w' !! k = Some d
}.

Lemma leaves_refl w : leaves w w.
Proof using Type. by split. Qed.

Lemma untouched_leaves w w1 w2 : leaves w w1 -> untouched w1 w2 -> leaves w w2.
Proof using Type.
  intros [A1 A2 A3] [B1 B2]. split; [by rewrite B2 by apply mine_root|congruence|]. intros k d Hk Hd. rewrite B2 by done. eauto.
Qed.

Lemma untouched_content w w' : untouched w w' -> contentOK w -> contentOK w'.
Proof using Type. intros [_ H] Hc h d. rewrite H by apply mine_chunk. apply Hc. Qed.

(** A stale mount, and what became of the bucket since [w0]. *)
Definition rival (w0 : W) (s : FS * W) : Prop := overtaken s.1 s.2 /\ contentOK s.2 /\ leaves w0 s.2.

Lemma rival_step w0 f w f' w' : rival w0 (f, w) -> untouched w w' -> overtaken f' w' -> rival w0 (f', w').
Proof using Type.
  intros (_&H2&H3) Hu Hs. split; [done|]. split; [by eapply untouched_content|by eapply untouched_leaves].
Qed.

Lemma rival_same w0 f w w' : rival w0 (f, w) -> objects w' = objects w -> etagOf w' rootKey = etagOf w rootKey -> rival w0 (f, w').
Proof using Type.
  intros Hr Ho He. assert (Hu : untouched w w') by by apply untouched_same. eapply rival_step; [exact Hr|exact Hu|]. eapply stale_untouched; [apply Hr|done].
Qed.

Lemma rival_view w0 f g w : rootView g = rootView f -> rival w0 (f, w) -> rival w0 (g, w).
Proof using Type. intros Hv (H1&H2&H3). split; [by eapply stale_view|done]. Qed.

Lemma rival_chunk w0 d f w : rival w0 (f, w) -> rival w0 (f, (Put (chunkKey (sha d)) d w).2).
Proof using Lw.
  intros (Hs&Hc&Hl). set (w' := (Put (chunkKey (sha d)) d w).2). cbn [fst snd] in *.
  assert (Ho : objects w' = objects w \/ objects w' = <[chunkKey (sha d) := d]> (objects w)).
  { unfold w'. destruct (Put (chunkKey (sha d)) d w).1 as [[]|e] eqn:E.
    - right. by apply put_ok; [apply key_chunk|].
    - by eapply put_err; [apply key_chunk|]. }
  assert (He : etagOf w' rootKey = etagOf w rootKey) by (apply put_etags; [apply key_chunk|apply chunkKey_root]).
  destruct Ho as [Ho|Ho]; [by apply (rival_same w0 f w w'); [split|..]|]. split; [|split]; cbn [fst snd].
  - destruct Hs as [(raw&rp&H1&H2) H3 H4 H5]. split; [|by rewrite He|done|done]. exists raw, rp. rewrite Ho, lookup_insert_ne by apply chunkKey_root. done.
  - intros h x. rewrite Ho, lookup_insert. case_decide as Hk; [|apply Hc]. apply chunkKey_inj in Hk as <-. intros [= <-]. by rewrite unsha_sha.
  - destruct Hl as [L1 L2 L3]. split; [by rewrite Ho, lookup_insert_ne by apply chunkKey_root|congruence|]. intros k x Hk Hd. apply L3 in Hd; [|done].
    rewrite Ho, lookup_insert. case_decide as Hk'; [|done]. subst k. rewrite (Hc _ _ Hd). by rewrite unsha_sha.
Qed.

Lemma rival_framed w0 : framed (rival w0).
Proof using Lw.
  split; intros; try (by eapply rival_view; [|eassumption]).
  - apply (rival_same w0 f w); [done|apply get_frame|apply get_etags].
  - apply (rival_same w0 f w); [done|apply head_frame|apply head_etags].
  - by apply rival_chunk.
Qed.

(** The chance of the mount's Syncs. *)
Definition drawn (t : tick) : Prop := N (tkNonce t).

Lemma rival_committing w0 : committing (rival w0) drawn.
Proof using Lw.
  split.
  - intros [f w] Hr. destruct (resolveRoot (f, w)) as [r [f' w']] eqn:E. destruct (resolveRoot_spec _ _ _ _ _ E) as (_&_&v&->&_).
    destruct (resolve_stale _ _ _ _ _ (proj1 Hr) E) as (Hu&Hs&_). by eapply rival_step.
  - intros t Ht [f w] Hr. unfold bind at 1, getFS. cbn [fst snd]. unfold bind at 1, answer. cbn [fst snd].
    destruct (seal (tkNonce t) (tkSnap t) (tkRoot t) f) as [s|] eqn:Es; [|done]. unfold seal in Es. destruct (anyUnsettled f); [done|].
    injection Es as <-. match goal with |- rival _ (commitSealed ?s ?n (f, w)).2 => destruct (commitSealed s n (f, w)) as [r [f' w']] eqn:E end.
    eapply commit_stale in E as (Hu&Hs&_); [by eapply rival_step|apply Hr|by eexists _, _|done].
Qed.

(** The chance of the Syncs a call may run. *)
Definition opDrawn (op : sysop) : Prop :=
  match op with
  | CallWrite _ _ _ _ _ ts _ t => Forall drawn ts /\ drawn t
  | CallCommit _ t | CallSync t => drawn t
  | _ => True
  end.

Lemma exec_rival w0 op : opDrawn op -> keeps (rival w0) (exec op).
Proof using Lw.
  pose proof (rival_framed w0) as Hf. pose proof (Sync_keeps _ Hf drawn (rival_committing w0)) as Hs. pose proof (rival_view w0) as Hv. intros Hop.
  destruct op; cbn [exec opDrawn] in *; unfold succeeded.
  - apply keeps_onFS. intros f w. apply Hv, perform_view.
  - apply keeps_onFS. intros f w. apply Hv. pose proof (SetAttr_view f c h sa now) as H. by destruct (SetAttr_ f c h sa now).
  - apply keeps_bind; [|intros; apply keeps_ret]. apply keeps_attempt. by apply Read_keeps.
  - apply keeps_bind; [|intros; apply keeps_ret]. apply keeps_attempt. destruct Hop as [H1 H2]. by apply (Write_keeps _ Hf drawn Hs (fun b f w => Hv f (set_budget b f) w eq_refl)).
  - apply keeps_bind; [|intros; apply keeps_ret]. apply keeps_attempt. by apply (Commit_keeps _ Hf drawn Hs).
  - apply keeps_bind; [|intros; apply keeps_ret]. apply keeps_attempt. by apply Hs.
Qed.

Lemma execAll_rival w0 ops : Forall opDrawn ops -> keeps (rival w0) (execAll ops).
Proof using Lw.
  intros Hops. unfold execAll. apply keeps_forEach_. intros op Hin. rewrite list.Forall_forall in Hops.
  apply keeps_bind; [by apply exec_rival, Hops|]. intros. apply keeps_ret.
Qed.

(** ** The other mount *)

Lemma leaves_sound fA fB w w' : sound fA w -> overtaken fB w -> contentOK w' -> leaves w w' -> sound fA w'.
Proof using Type.
  intros [Hg [H1 H2 H3 H4] He Hcl] [(raw0&rp0&Hr&Hu&_&_&Hmi&_) _ _ _] Hc [L1 L2 L3].
  assert (Hchunk : forall h d, objects w !! chunkKey h = Some d -> objects w' !! chunkKey h = Some d) by (intros h d; apply L3, mine_chunk).
  assert (Href : forall ref, refStored w ref -> refStored w' ref) by (intros ref Hs Hh; by apply Hchunk, Hs).
  assert (Hino : forall m, inodesStored w m -> inodesStored w' m).
  { intros m Hm id n Hn. eapply list.Forall_impl; [by eapply Hm|exact Href]. }
  assert (Hload : forall raw rp snap, objects w !! rootKey = Some raw -> loadable w raw rp snap -> loadable w' raw rp snap).
  { intros raw rp snap Hraw (K1&K2&(body&K3&K4)&K5&K6&K7). assert (rp = rp0) as -> by congruence. split; [done|]. split; [done|].
    split; [|split; [done|split; [by apply Hino|done]]]. exists body. split; [by apply L3|done]. }
  split; [done| |done|].
  - split; [done| |intros h Hh; by apply Hchunk, H3|by apply Hino]. intros raw Hraw. rewrite L1 in Hraw. destruct (H2 raw Hraw) as (rp&snap&Hl).
    exists rp, snap. by apply Hload.
  - intros Hd. destruct (Hcl Hd) as (raw&rp&snap&K1&K2&K3). exists raw, rp, snap. rewrite L1. split; [done|]. split; [by apply Hload|done].
Qed.

Lemma dirty_framed : framed (W := W) (fun s => dirty s.1 = true).
Proof using Type. by split. Qed.

(** Changes of a stale mount are not acknowledged. *)
Lemma Sync_stale w0 t f w r s' : rival w0 (f, w) -> drawn t -> dirty f = true -> Sync t (f, w) = (r, s') -> is_ok r = false.
Proof using Lw.
  intros Hr Ht Hd Hrun. unfold Sync in Hrun. pose proof (rival_framed w0) as Hf.
  assert (Hfl : forall l o s r s', rival w0 s -> flushList l o s = (r, s') -> rival w0 s').
  { intros l o s1 r1 s2 Hr1 E. pose proof (flushList_keeps _ Hf l o s1 Hr1) as H. by rewrite E in H. }
  assert (Hdi : forall l o s r s', dirty s.1 = true -> flushList (W := W) l o s = (r, s') -> dirty s'.1 = true).
  { intros l o s1 r1 s2 Hd1 E. pose proof (flushList_keeps _ dirty_framed l o s1 Hd1) as H. by rewrite E in H. }
  apply bind_inv in Hrun as [([]&[f1 w1]&H1&Hrun)|(e&_&->)]; [|done]. apply wrapErr_inv in H1 as (r1&H1&_). unfold flushAll in H1. rewrite (bind_ok _ _ _ f (f, w)) in H1 by done.
  pose proof (Hfl _ _ _ _ _ Hr H1) as Hr1. pose proof (Hdi _ _ (f, w) _ _ Hd H1) as Hd1. cbn [fst] in Hd1. rewrite (bind_ok _ _ _ f1 (f1, w1)), Hd1 in Hrun by done. cbn [negb] in Hrun.
  destruct (bool_decide (mode f1 = mountDiverged)); [by injection Hrun as <- <-|].
  apply bind_inv in Hrun as [(u&[f2 w2]&H2&Hrun)|(e&_&->)]; [|done].
  assert (Hr2 : rival w0 (f2, w2)).
  { case_bool_decide; [|by injection H2 as <- <- <-]. apply bind_inv in H2 as [(v&[g x]&Hrr&H2)|(e&Hrr&_)]; [|by destruct (resolveRoot_spec _ _ _ _ _ Hrr) as (_&?&?&?&_)].
    destruct (resolve_stale _ _ _ _ _ (proj1 Hr1) Hrr) as (_&_&[-> | ->]); done. }
  apply bind_inv in Hrun as [([]&[f3 w3]&H3&Hrun)|(e&_&->)]; [|done]. apply wrapErr_inv in H3 as (r3&H3&_). unfold settleAll in H3. rewrite (bind_ok _ _ _ f2 (f2, w2)) in H3 by done.
  pose proof (Hfl _ _ _ _ _ Hr2 H3) as Hr3.
  rewrite (bind_ok _ _ _ f3 (f3, w3)) in Hrun by done. apply bind_inv in Hrun as [(s&[f4 w4]&H4&Hrun)|(e&_&->)]; [|done].
  unfold answer in H4. injection H4 as H4 <- <-. unfold seal in H4. destruct (anyUnsettled f3); [done|]. injection H4 as <-.
  destruct s' as [f' w']. by eapply commit_stale in Hrun as (_&_&?); [|apply Hr3|by eexists _, _|].
Qed.

(** C11 Two mounts of one bucket: once another writer has moved the root pointer,
    nothing a stale mount is asked to do moves it again or takes anything from
    the other mount, which stays sound; the mount stays stale, and a Sync of its
    changes fails. The stale mount is one that may not write the root pointer
    unconditionally: with AllowUnconditionalRoot and a store that answers
    ErrUnsupported it does overwrite it. *)
Theorem rival_harmless fA fB w ops r fB' w' : sound fA w -> stale fB w -> fallbackAllowed fB = false -> Forall opDrawn ops ->
  execAll ops (fB, w) = (r, (fB', w')) ->
  sound fA w' /\ stale fB' w' /\ objects w' !! rootKey = objects w !! rootKey /\ etagOf w' rootKey = etagOf w rootKey /\
  forall t, drawn t -> dirty fB' = true -> is_ok (Sync t (fB', w')).1 = false.
Proof using Lw.
  intros HA Hst Hfb Hops Hrun. pose proof (proj2 (overtaken_stale _ _) (conj Hst Hfb)) as HB.
  assert (H0 : rival w (fB, w)) by (split; [done|]; split; [apply HA|apply leaves_refl]).
  pose proof (execAll_rival w ops Hops (fB, w) H0) as Hr. rewrite Hrun in Hr. cbn [snd] in Hr. pose proof Hr as (H1&H2&H3). cbn [fst snd] in *.
  split; [by eapply leaves_sound|]. split; [by apply overtaken_stale|]. split; [apply H3|]. split; [apply H3|]. intros t Ht Hd.
  destruct (Sync t (fB', w')) as [r1 s1] eqn:E. by eapply Sync_stale.
Qed.

End Stale.
