(* ===== verification/Mount.v ===== *)
(** * Mounting

    [New] on a bucket whose root pointer names a whole filesystem adopts that
    filesystem, and on an empty bucket it makes one; either way the mount comes
    up [sound]. *)

From stdpp Require Import sorting.
From S2P Require Import Prelude Vfs Fsm Modes Policy Inode ChunkCache Budget Store FsState Tree Namespace.
From S2P Require Import NamespaceInv NamespaceSpec Effects Data DataSpec FileSpec DataInv ReadDir Commit.
From S2P Require Import WritePath Durable CommitSpec SyncSpec Whole System.

(** The wrapper obeys the laws of the store it wraps. *)
#[global] Instance readonly_laws {W} {St : Store W} {Vw : StoreView W} {Lw : StoreLaws W} : @StoreLaws W (ReadOnly St) Vw.
Proof. split; simpl; try done; try apply Lw; auto. Qed.

(** What New asks of the configuration: a uint32 chunk size, verification on. *)
Definition configOK (cfg : Config) : Prop := is_u32 (ChunkSize cfg) /\ SkipChunkVerification cfg = false.

Section Mount.
Context {Cd : Codec} {W : Type} {Vw : StoreView W}
  {Dg : Digest} {Hx : HexDigest} {Ro : RunOrder} {P : Policy}.

(** The mount New builds before it reads the bucket. *)
Record fresh (cfg : Config) (writer : string) (f : FS) : Prop := {
  fr_cs : 4096 <= chunkSize (cf f) < 2 ^ 32;
  fr_max : maxFileSize (cf f) = 0;
  fr_verify : skipVerify (cf f) = false;
  fr_writer : writerID (cf f) = writer;
  fr_open : open f = ∅;
  fr_budget : Budget.charge (budget f) = 0;
  fr_cache : cacheOK f;
  fr_known : knownChunks f = ∅;
  fr_dirty : dirty f = false;
  fr_root : rootKnowledge f = rootKnown;
  fr_mode : mode f = (if ReadOnlyMount cfg then mountReadOnly else mountWritable);
  fr_owner : ownerUID (cf f) = OwnerUID cfg /\ ownerGID (cf f) = OwnerGID cfg
}.

Lemma buildFS_fresh cfg writer f : configOK cfg -> buildFS cfg writer = Ok f -> fresh cfg writer f.
Proof using Type.
  intros [Hc Hv]. unfold buildFS. set (cs := if ChunkSize cfg =? 0 then _ else _).
  assert (Hcs : cs < 2 ^ 32) by (unfold cs, defaultChunkSize; unfold is_u32 in Hc; destruct (_ =? 0); [done|lia]).
  destruct (Z.ltb_spec cs 4096); [done|]. destruct (_ <? 0); [done|]. intros [= <-]. split; try done.
  split; [apply ChunkCache.wf_new|]. intros h d Hd. done.
Qed.

(** A namespace put on a fresh mount. *)
Lemma fresh_data cfg writer f g :
  fresh cfg writer f -> cacheOK g -> maxFileSize (cf g) = 0 -> skipVerify (cf g) = false -> 0 < chunkSize (cf g) < 2 ^ 32 ->
  open g = open f -> budget g = budget f ->
  (forall id n, inodes g !! id = Some n -> fileOK (chunkSize (cf g)) n newOpenFile) -> dataOK g.
Proof using Type.
  intros [F1 F2 F3 F4 F5 F6 F7 F8 F9 F10 F11 F12] Hc Hm Hv Hcs Ho Hb Hf. split; try done.
  - rewrite Hm. lia.
  - intros id n Hn. unfold bufOf. rewrite Ho, F5, lookup_empty. by apply (Hf id).
  - rewrite Hb, Ho, F6, F5. done.
Qed.

Lemma adopt_sound cfg writer f rp etag raw snap w :
  fresh cfg writer f -> utf8 writer = true -> contentOK w -> rootOK w -> objects w !! rootKey = Some raw -> loadable w raw rp snap ->
  sound (adopt rp etag snap f) w.
Proof using Type.
  intros Hf Hwr Hco Hro Hraw Hl. pose proof Hl as (_&_&_&Hs&Hst&_). set (g := adopt rp etag snap f).
  assert (Hd : dataOK g).
  { apply (fresh_data cfg writer f g Hf); try done; try apply Hf; [apply (sa_cs _ Hs)|apply (sa_files _ Hs)]. }
  split.
  - split; [|done]. split; try apply Hs. intros id. simpl. rewrite (fr_open _ _ _ Hf), lookup_empty. by intros [? ?].
  - split; try done. simpl. rewrite (fr_known _ _ _ Hf). by intros h ?%not_elem_of_empty.
  - split; [simpl; by rewrite (fr_writer _ _ _ Hf)|]. simpl. intros id n Hn. destruct (sa_text _ Hs id n Hn) as (?&?&_). done.
  - intros _. by exists raw, rp, snap.
Qed.

Lemma emptyNamespace_data cfg writer f name now : fresh cfg writer f -> dataOK (emptyNamespace name now f).
Proof using Type.
  intros Hf. apply (fresh_data cfg writer f _ Hf); try done; try apply Hf.
  - simpl. pose proof (fr_cs _ _ _ Hf). lia.
  - intros id n. simpl. rewrite lookup_singleton_Some. intros [_ <-]. split; simpl; try done; intros ? ?; by rewrite lookup_empty.
Qed.

(** New has yet to set the limit on file sizes. *)
Lemma setMaxFileSize_sound {St : Store W} f w : sound f w -> sound (setMaxFileSize f) w.
Proof using Type.
  intros [[Hw [D1 D2 D3 D4 D5 D6]] [H1 H2 H3 H4] He Hc]. split; [split| | |done].
  - by destruct Hw.
  - split; try done. simpl. unfold maxFileChunks. change (Z.shiftl 1 20) with (2 ^ 20). nia.
  - by split.
  - done.
Qed.

Lemma initEmpty_sound {St : Store W} {Lw : StoreLaws W} cfg writer f t now w r f' w' :
  fresh cfg writer f -> utf8 writer = true -> contentOK w -> rootOK w -> initEmpty t now (f, w) = (Ok r, (f', w')) ->
  sound f' w' /\ inodes f' = {[ rootInodeID := rootInode (ownerUID (cf f)) (ownerGID (cf f)) now ]} /\ open f' = ∅.
Proof using Hx.
  intros Hf Hwr Hco Hro. unfold initEmpty, bind at 1, modFS. simpl. unfold bind at 1, getFS. simpl.
  set (g := emptyNamespace Name now f).
  assert (Hg : good g) by (split; [apply emptyNamespace_wf, Hf|by eapply emptyNamespace_data]).
  assert (Hdr : drained g) by (intros id o; unfold g; simpl; rewrite (fr_open _ _ _ Hf), lookup_empty; done).
  assert (He : encodable g).
  { split; [simpl; by rewrite (fr_writer _ _ _ Hf)|]. simpl. intros id n. rewrite lookup_singleton_Some. intros [_ <-]. simpl.
    split; [|done]. intros x c. by rewrite lookup_empty. }
  assert (Hh : held g w).
  { split; try done; [simpl; rewrite (fr_known _ _ _ Hf); by intros h ?%not_elem_of_empty|]. intros id n. simpl. rewrite lookup_singleton_Some.
    intros [_ <-]. constructor. }
  unfold bind at 1, answer. destruct (seal _ _ _ g) as [s|e] eqn:Es; [|done]. intros Hrun.
  destruct (seal_spec g _ _ _ s Hg Hdr He Es) as (Hsf&_&_&_&Hch&_&Hdec).
  destruct (commitSealed_spec s _ g w _ f' w' ltac:(destruct Hh; by split) Hsf (fr_root _ _ _ Hf) Hrun) as (Hns&Hb&Hcs&_&Hl&_).
  split; [|split; [by rewrite (ns_inodes _ _ Hns)|rewrite (ns_open _ _ Hns); apply Hf]].
  split; [by eapply nsSame_good|by eapply (nsSame_held g f' _ w)|by eapply nsSame_encodable|]. intros _.
  destruct Hl as (raw&rp&snap&L1&L2&_&L4). rewrite Hdec in L4. injection L4 as <-. exists raw, rp, (snapshotOf g (tkSnap t)).
  split; [done|]. split; [done|]. simpl. destruct Hns as [N1 N2 N3 _ _ _ _ _ _]. by rewrite N1, N2, N3.
Qed.

(** What the mount finds. *)
Definition finds (f : FS) (now : Z) (w : W) (f' : FS) (w' : W) : Prop :=
  match objects w !! rootKey with
  | Some raw => exists rp snap, loadable w raw rp snap /\ inodes f' = snInodes snap /\ nextIno f' = snNextIno snap /\
      chunkSize (cf f') = snChunkSize snap /\ objects w' = objects w
  | None => inodes f' = {[ rootInodeID := rootInode (ownerUID (cf f)) (ownerGID (cf f)) now ]} /\ mode f ≠ mountReadOnly
  end.

Lemma loadOrInit_sound {St : Store W} {Lw : StoreLaws W} cfg writer f t now w r f' w' :
  fresh cfg writer f -> utf8 writer = true -> contentOK w -> rootOK w -> loadOrInit t now (f, w) = (Ok r, (f', w')) ->
  sound f' w' /\ open f' = ∅ /\ finds f now w f' w'.
Proof using Hx.
  intros Hf Hwr Hco Hro. unfold loadOrInit. unfold bind at 1, attempt, onStore. simpl. unfold bind at 1, getFS. simpl.
  pose proof (gwe_frame rootKey w) as Hfr. pose proof (fun x0 x1 => gwe_ok rootKey w x0 x1 key_root) as Hok. pose proof (gwe_missing rootKey w key_root) as Hmi.
  destruct (GetWithETag rootKey w) as [[[raw etag]|e] w1]; simpl in *.
  - destruct (Hok raw etag eq_refl) as [Hraw _]. destruct (Hro raw Hraw) as (rp&snap&Hl).
    pose proof Hl as (Hrp&Hv&(body&Hb&Hdec)&Hsa&_&Hne). rewrite Hrp, Hv. simpl.
    destruct (String.eqb etag ""); [done|]. unfold bind at 1, attempt, onStore. simpl.
    pose proof (get_frame (rpSnapshot rp) w1) as Hfr2. pose proof (fun x0 => get_ok (rpSnapshot rp) w1 x0 Hne) as Hok2.
    destruct (Get (rpSnapshot rp) w1) as [[body'|e] w2]; simpl in *; [|done].
    specialize (Hok2 body' eq_refl). rewrite Hfr in Hok2. assert (body' = body) as -> by congruence. rewrite Hdec.
    unfold bind, modFS. simpl. destruct (sane_root _ Hsa) as [rt ->]. intros [= <- <- <-].
    assert (Ho : objects w2 = objects w) by congruence. unfold finds. rewrite Hraw.
    split; [|split; [apply Hf|exists rp, snap; done]].
    destruct (adopt_sound cfg writer f rp etag raw snap w Hf Hwr Hco Hro Hraw Hl) as [S1 S2 S3 S4].
    assert (Hga : gained w w2) by by apply gained_same.
    split; [done| |done|intros Hcl; by eapply committed_gained; [apply S4|..]].
    eapply held_gained; [exact S2|exact Hga|done|by left].
  - destruct (errIs e ErrNotFound) eqn:En; [|done]. case_bool_decide as Em; [done|]. intros Hrun.
    apply (initEmpty_sound cfg writer) in Hrun as (Hs&Hi&Ho); try done.
    + split; [done|]. split; [done|]. unfold finds. by rewrite (Hmi eq_refl).
    + intros h d. rewrite Hfr. apply Hco.
    + intros raw. rewrite Hfr. intros Hraw. by rewrite (Hmi eq_refl) in Hraw.
Qed.

(** A mount whose reads are answered comes up. *)
Lemma loadOrInit_up {St : Store W} {Lw : StoreLaws W} f t now w raw etag w1 :
  rootOK w -> GetWithETag rootKey w = (Ok (raw, etag), w1) -> etag ≠ "" ->
  (forall k d, objects w1 !! k = Some d -> (Get k w1).1 = Ok d) ->
  exists f' w', loadOrInit t now (f, w) = (Ok tt, (f', w')).
Proof using Type.
  intros Hro Hg Het Hget. pose proof (gwe_ok rootKey w raw etag key_root) as Hok. pose proof (gwe_frame rootKey w) as Hfr. rewrite Hg in Hok, Hfr.
  destruct (Hok eq_refl) as [Hraw _]. destruct (Hro raw Hraw) as (rp&snap&Hrp&Hv&(body&Hb&Hdec)&Hsa&_).
  simpl in Hfr. rewrite <- Hfr in Hb. specialize (Hget _ _ Hb).
  unfold loadOrInit. unfold bind at 1, attempt, onStore. simpl. rewrite Hg. unfold bind at 1, getFS. simpl. rewrite Hrp, Hv. simpl.
  destruct (String.eqb_spec etag ""); [done|]. unfold bind at 1, attempt, onStore. simpl.
  destruct (Get (rpSnapshot rp) w1) as [r w2]. simpl in *. subst r. rewrite Hdec. unfold bind, modFS. simpl.
  destruct (sane_root _ Hsa) as [rt ->]. eauto.
Qed.

Lemma New_inv {St : Store W} {Lw : StoreLaws W} cfg writer t now w g w' :
  configOK cfg -> utf8 writer = true -> contentOK w -> rootOK w -> New cfg writer t now w = (Ok g, w') ->
  sound g w' /\ open g = ∅ /\ exists f, fresh cfg writer f /\ finds f now w g w'.
Proof using Hx.
  intros Hcfg Hwr Hco Hro. unfold New. destruct (buildFS cfg writer) as [f|] eqn:Eb; [|done].
  pose proof (buildFS_fresh cfg writer f Hcfg Eb) as Hf.
  assert (Hend : forall f' w1, sound f' w1 /\ open f' = ∅ /\ finds f now w f' w1 ->
     (Ok (setMaxFileSize f') : result FS, w1) = (Ok g, w') -> sound g w' /\ open g = ∅ /\ exists f, fresh cfg writer f /\ finds f now w g w').
  { intros f' w1 (H1&H2&H3) [= <- <-]. split; [by apply setMaxFileSize_sound|]. split; [done|]. by exists f. }
  destruct (ReadOnlyMount cfg).
  - destruct (loadOrInit t now (f, w)) as [[r|e] [f' w1]] eqn:El; [|done]. apply Hend.
    by eapply (@loadOrInit_sound (ReadOnly St) _ cfg writer).
  - destruct (loadOrInit t now (f, w)) as [[r|e] [f' w1]] eqn:El; [|done]. apply Hend.
    by eapply (loadOrInit_sound cfg writer).
Qed.

(** A mount of a bucket whose root pointer names a whole filesystem comes up, when
    its reads are answered. *)
Lemma New_up {St : Store W} {Lw : StoreLaws W} cfg writer t now w raw etag w1 :
  configOK cfg -> ReadOnlyMount cfg = false -> 4096 <= ChunkSize cfg -> 0 <= CommitInterval cfg -> utf8 writer = true ->
  contentOK w -> rootOK w ->
  GetWithETag rootKey w = (Ok (raw, etag), w1) -> etag ≠ "" -> (forall k d, objects w1 !! k = Some d -> (Get k w1).1 = Ok d) ->
  exists g w2 rp snap, New cfg writer t now w = (Ok g, w2) /\ sound g w2 /\
    objects w !! rootKey = Some raw /\ loadable w raw rp snap /\ inodes g = snInodes snap.
Proof using Hx.
  intros Hcfg Hro Hcs Hci Hwr Hcon Hroot Hgwe Het Hget.
  assert (Hb : exists b, buildFS cfg writer = Ok b).
  { unfold buildFS. destruct (Z.eqb_spec (ChunkSize cfg) 0); [lia|]. destruct (Z.ltb_spec (ChunkSize cfg) 4096); [lia|].
    destruct (Z.ltb_spec (CommitInterval cfg) 0); [lia|]. eauto. }
  destruct Hb as [b Hb]. destruct (loadOrInit_up b t now w raw etag w1 Hroot Hgwe Het Hget) as (f1&w2&Hl).
  assert (Hnew : New cfg writer t now w = (Ok (setMaxFileSize f1), w2)) by (unfold New; by rewrite Hb, Hro, Hl).
  destruct (New_inv cfg writer t now w _ w2 Hcfg Hwr Hcon Hroot Hnew) as (Hsg&_&f0&_&Hfi).
  pose proof (gwe_ok rootKey w raw etag key_root) as Hok. rewrite Hgwe in Hok. destruct (Hok eq_refl) as [Hraw _].
  unfold finds in Hfi. rewrite Hraw in Hfi. destruct Hfi as (rp&snap&L1&L2&_).
  by exists (setMaxFileSize f1), w2, rp, snap.
Qed.

End Mount.
