(* ===== verification/PruneSpec.v ===== *)
(** * Pruning and the order of snapshot keys

    Keys sort as their epochs do, so "below the current key" is "older than the
    current snapshot"; a pruning pass deletes only such keys, so what the root
    pointer names survives it. *)

From Stdlib Require Import Ascii.
From stdpp Require Import sorting.
From S2P Require Import Prelude Vfs Fsm Modes Policy Inode ChunkCache Budget Store FsState Tree Namespace.
From S2P Require Import NamespaceInv Effects Data DataSpec FileSpec DataInv ReadDir Commit WritePath Keeps.
From S2P Require Import Durable CommitSpec SyncSpec Whole System.

(** ** String order *)

Lemma strLt_compare a b : String.compare a b = Lt -> strLt a b.
Proof. intros H. split; [apply strLe_cases; auto|]. intros ->. by rewrite compare_refl in H. Qed.

(** ** Keys sort as epochs do *)

Lemma digit_compare u v s s' :
  0 <= u < v -> v < 10 ->
  String.compare (String (ascii_of_nat (Z.to_nat (48 + u))) s) (String (ascii_of_nat (Z.to_nat (48 + v))) s') = Lt.
Proof.
  intros Hu Hv. simpl. unfold Ascii.compare.
  assert (Hn : forall k, 0 <= k < 10 -> N_of_ascii (ascii_of_nat (Z.to_nat (48 + k))) = Z.to_N (48 + k)).
  { intros k Hk. unfold ascii_of_nat. rewrite N_ascii_embedding; lia. }
  rewrite !Hn by lia. assert ((Z.to_N (48 + u) ?= Z.to_N (48 + v))%N = Lt) as ->; [apply N.compare_lt_iff; lia|done].
Qed.

Lemma digits_compare n z z' s s' :
  0 <= z < z' -> z' < 10 ^ Z.of_nat n -> String.compare (digits n z +:+ s) (digits n z' +:+ s') = Lt.
Proof.
  revert z z' s s'. induction n as [|n IH]; intros z z' s s' Hz Hm; [change (10 ^ Z.of_nat 0) with 1 in Hm; lia|].
  rewrite Nat2Z.inj_succ, Z.pow_succ_r in Hm by lia. cbn [digits].
  assert (Happ : forall a b c : string, (a +:+ b) +:+ c = a +:+ (b +:+ c)) by (intros a b c; induction a as [|x a IHa]; [done|exact (f_equal (String x) IHa)]).
  rewrite !Happ. pose proof (Z.div_mod z 10 ltac:(lia)). pose proof (Z.div_mod z' 10 ltac:(lia)).
  pose proof (Z.mod_pos_bound z 10 ltac:(lia)). pose proof (Z.mod_pos_bound z' 10 ltac:(lia)).
  destruct (Z.lt_trichotomy (z / 10) (z' / 10)) as [Hd|[Hd|Hd]]; [| |lia].
  - apply IH; [|lia]. split; [apply Z.div_pos; lia|lia].
  - rewrite Hd, compare_app. apply digit_compare; lia.
Qed.

Lemma snapshotKey_lt e e' n n' : 0 <= e < e' -> e' < 2 ^ 64 -> strLt (snapshotKey e n) (snapshotKey e' n').
Proof.
  intros He Hm. apply strLt_compare. unfold snapshotKey. rewrite compare_app. apply digits_compare; [done|].
  change (10 ^ Z.of_nat 20) with 100000000000000000000. lia.
Qed.

(** ** Which keys a pass deletes *)

Lemma sorted_split (l : list string) n : Sorted strLe l -> forall p q, p ∈ take n l -> q ∈ drop n l -> strLe p q.
Proof.
  intros Hs%Sorted_StronglySorted; [|exact strLe_trans]. revert n. induction Hs as [|a l Hs IH Hall]; intros n p q; [rewrite take_nil; by intros ?%elem_of_nil|].
  destruct n as [|n]; simpl; [by intros ?%elem_of_nil|]. rewrite elem_of_cons. intros [->|Hp] Hq; [|by eapply IH].
  rewrite list.Forall_forall in Hall. apply Hall. rewrite <- (take_drop n l). apply elem_of_app. by right.
Qed.

Lemma prunable_split keys current keep :
  exists rest, let below := filter (fun k => strLt k current) keys in
    prunable keys current keep ++ rest ≡ₚ below /\
    (forall p q, p ∈ prunable keys current keep -> q ∈ rest -> strLe p q) /\
    blen rest = Z.min (blen below) (Z.max 0 keep).
Proof.
  set (below := filter (fun k => strLt k current) keys).
  set (k := if keep <? 0 then 0 else keep). assert (Hk : k = Z.max 0 keep) by (unfold k; destruct (Z.ltb_spec keep 0); lia).
  pose proof (blen_nonneg below) as H0. unfold prunable. fold below k. destruct (Z.leb_spec (blen below) k) as [Hb|Hb].
  - exists below. simpl. split; [done|]. split; [intros p q Hp; by apply elem_of_nil in Hp|lia].
  - exists (bdrop (blen below - k) (merge_sort strLe below)). cbv zeta. unfold btake, bdrop. split; [|split].
    + rewrite take_drop. apply merge_sort_Permutation.
    + apply sorted_split, Sorted_merge_sort, _.
    + unfold blen in *. rewrite length_drop, (Permutation_length (merge_sort_Permutation strLe below)). lia.
Qed.

Lemma prunable_below keys current keep k : k ∈ prunable keys current keep -> k ∈ keys /\ strLt k current.
Proof.
  destruct (prunable_split keys current keep) as (rest&Hp&_). cbv zeta in Hp. intros Hk.
  assert (Hin : k ∈ filter (fun k => strLt k current) keys) by (rewrite <- Hp; apply elem_of_app; by left).
  apply list_elem_of_filter in Hin. tauto.
Qed.

(** ** A pass *)

Section Prune.
Context {Cd : Codec} {W : Type} {St : Store W} {Vw : StoreView W} {Lw : StoreLaws W}
  {Dg : Digest} {Hx : HexDigest} {Ro : RunOrder} {P : Policy} {TC : TypeChecked P}.

Definition underSnapshots (k : string) : Prop := String.prefix snapshotPrefix k = true.

(** A key a listing of the snapshots gives. *)
Definition listedSnapshot (k : string) : Prop := underSnapshots k /\ keyOK k.

Lemma listSnapshots_spec fuel after keys f w r f' w' :
  Forall listedSnapshot keys -> listSnapshots fuel after keys (f, w) = (r, (f', w')) ->
  f' = f /\ objects w' = objects w /\ forall l, r = Ok l -> Forall listedSnapshot l.
Proof using Lw.
  revert after keys w. induction fuel as [|fuel IH]; intros after keys w Hk; simpl; [by intros [= <- <- <-]|].
  unfold wrapErr, bind, attempt, onStore, ret, fail. simpl.
  pose proof (list_frame snapshotPrefix after 1000 w) as Hfr. pose proof (list_ok snapshotPrefix after 1000 w) as Hok.
  destruct (ListObjects snapshotPrefix after 1000 w) as [[batch|e] w1]; simpl in *; [|by intros [= <- <- <-]].
  destruct (list.last batch) as [o|]; [|intros [= <- <- <-]; split; [done|]; split; [done|]; by intros l [= <-]].
  assert (Hk' : Forall listedSnapshot (keys ++ map oiKey batch)).
  { apply Forall_app. split; [done|]. apply list.Forall_forall. intros k Hin. apply list_elem_of_fmap in Hin as (i&->&Hi). by apply (Hok batch). }
  destruct (blen batch <? 1000); [intros [= <- <- <-]; split; [done|]; split; [done|]; by intros l [= <-]|].
  intros Hrun. destruct (IH _ _ _ Hk' Hrun) as (?&Ho&?). split; [done|]. split; [congruence|done].
Qed.

(** What a pass that spares keys from [current] on leaves of the bucket. *)
Record spared (current : string) (w w' : W) : Prop := {
  sp_other : forall k, ~ underSnapshots k -> objects w' !! k = objects w !! k;
  sp_above : forall k, ~ strLt k current -> objects w' !! k = objects w !! k
}.

Lemma spared_same current w w' : objects w' = objects w -> spared current w w'.
Proof using Type. intros E. split; intros k _; by rewrite E. Qed.

Lemma spared_trans current w w1 w2 : spared current w w1 -> spared current w1 w2 -> spared current w w2.
Proof using Type. intros [A1 A2] [B1 B2]. split; intros k Hk; [rewrite B1, A1|rewrite B2, A2]; done. Qed.

Lemma delete_spared current k w : listedSnapshot k -> strLt k current -> spared current w (Delete k w).2.
Proof using Lw.
  intros [Hu Hne] Hlt. pose proof (del_ok k w Hne) as Hok. pose proof (fun x0 => del_err k w x0 Hne) as Herr. destruct (Delete k w) as [r w1]. simpl in *.
  assert (Hc : objects w1 = objects w \/ objects w1 = delete k (objects w)) by (destruct r as [[]|e]; [right; by apply Hok|by apply (Herr e)]).
  destruct Hc as [E|E]; [by apply spared_same|]. split; intros j Hj; rewrite E, lookup_delete_ne; [done|congruence|done|congruence].
Qed.

Lemma deleteAll_spared current l f w r f' w' :
  Forall (fun k => listedSnapshot k /\ strLt k current) l ->
  forEach_ l (fun key => let! _ := attempt (onStore (Delete key)) in ret tt) (f, w) = (r, (f', w')) ->
  f' = f /\ spared current w w' /\ r = Ok tt.
Proof using Lw.
  revert w. induction l as [|k l IH]; intros w Hf; cbn [forEach_].
  { intros [= <- <- <-]. split; [done|]. split; [by apply spared_same|done]. }
  apply list.Forall_cons in Hf as [[Hu Hlt] Hf]. pose proof (delete_spared current k w Hu Hlt) as Hs.
  unfold bind at 1. unfold bind at 1, attempt, onStore, ret. simpl. destruct (Delete k w) as [r1 w1]. simpl in Hs.
  intros Hrun. apply IH in Hrun as (->&Hs2&->); [|done]. split; [done|]. split; [by eapply spared_trans|done].
Qed.

Lemma prunePass_spared fuel current f w r f' w' :
  prunePass fuel current (f, w) = (r, (f', w')) -> f' = set_pruning false f /\ spared current w w'.
Proof using Lw.
  unfold prunePass. unfold bind at 1, attempt. destruct (pruneSnapshots fuel current (f, w)) as [r0 [f0 w0]] eqn:E.
  unfold modFS. simpl. intros [= <- <- <-]. unfold pruneSnapshots in E.
  apply bind_inv in E as [(keys&[f1 w1]&H1&E)|(e&H1&->)];
    destruct (listSnapshots_spec fuel "" [] f w _ _ _ (List.Forall_nil _) H1) as (->&Ho&Hu).
  - rewrite (bind_ok _ _ _ f (f, w1)) in E by done.
    apply (deleteAll_spared current) in E as (->&Hs&_); [split; [done|]; eapply spared_trans; [by apply spared_same|exact Hs]|].
    apply list.Forall_forall. intros k [Hk Hlt]%prunable_below. split; [|done]. specialize (Hu keys eq_refl).
    rewrite list.Forall_forall in Hu. by apply Hu.
  - split; [done|by apply spared_same].
Qed.

Lemma spared_held current f w w' :
  held f w -> spared current w w' ->
  (forall raw rp, objects w !! rootKey = Some raw -> unmarshalRoot raw = Some rp -> ~ strLt (rpSnapshot rp) current) ->
  held f w' /\ forall raw rp snap, objects w !! rootKey = Some raw -> loadable w raw rp snap -> objects w' !! rootKey = Some raw /\ loadable w' raw rp snap.
Proof using Type.
  intros [H1 H2 H3 H4] [S1 S2] Hroot.
  assert (Hch : chunksSame w w') by (intros h; by apply S1). assert (Hrt : objects w' !! rootKey = objects w !! rootKey) by by apply S1.
  assert (Hld : forall raw rp snap, objects w !! rootKey = Some raw -> loadable w raw rp snap -> loadable w' raw rp snap).
  { intros raw rp snap Hraw (L1&L2&(body&L3&L4)&L5&L6&L7). split; [done|]. split; [done|].
    split; [exists body; rewrite (S2 (rpSnapshot rp)) by (by eapply Hroot); done|]. split; [done|]. split; [by eapply stored_same|done]. }
  split.
  - split.
    + by eapply content_same.
    + intros raw. rewrite Hrt. intros Hraw. destruct (H2 raw Hraw) as (rp&snap&Hl). exists rp, snap. by apply Hld.
    + intros h Hh. rewrite Hch. by apply H3.
    + by eapply stored_same.
  - intros raw rp snap Hraw Hl. rewrite Hrt. split; [done|by apply Hld].
Qed.

End Prune.
