(* ===== verification/Concrete.v ===== *)
(** * Concrete parameters

    Instances of the parameters of the development, simple enough to compute
    with, on which the witnesses run: a digest that is its data in hexadecimal,
    the order and growth of a runtime, and a codec that spells out a binary
    code. They show that the assumptions on crypto/sha256, the Go runtime,
    encoding/json and compress/gzip hold together. *)

From Stdlib Require Import Ascii Strings.Byte.
From stdpp Require Import sorting countable.
From S2P Require Import Prelude Vfs Modes Policy Inode ChunkCache Budget Store FsState Tree Namespace.
From S2P Require Import NamespaceInv Effects Data DataSpec FileSpec DataInv ReadDir Commit Durable CommitSpec.

(** ** A digest *)

Definition unhexDigit (a : ascii) : Z :=
  let n := Z.of_nat (nat_of_ascii a) in if n <? 58 then n - 48 else n - 87.

Fixpoint unhex (s : string) : bytes :=
  match s with
  | String a (String b s) => byte_of_Z (16 * unhexDigit a + unhexDigit b) :: unhex s
  | _ => []
  end.

Lemma unhex_hex d : unhex (hex d) = d.
Proof.
  induction d as [|b d IH]; [done|].
  change (unhex (hex (b :: d))) with (byte_of_Z (16 * unhexDigit (hexDigit (Z_of_byte b / 16)) + unhexDigit (hexDigit (Z_of_byte b mod 16))) :: unhex (hex d)).
  rewrite IH. f_equal. destruct b; vm_compute; reflexivity.
Qed.

#[global] Instance plainDigest : Digest := {|
  sha d := String "h" (hex d);
  unsha s := match s with String _ s => unhex s | EmptyString => [] end;
  unsha_sha := unhex_hex;
  sha_nonempty d := ltac:(discriminate);
  sha_word d := hex_word d
|}.

#[global] Instance plainHex : HexDigest.
Proof. intros d. apply asciiText_utf8. apply asciiText_cons; [vm_compute; reflexivity|apply hex_ascii]. Qed.

(** ** A runtime *)

#[global] Instance plainOrder : RunOrder := {|
  ranged := elements;
  ranged_perm X := Permutation_refl _;
  growslice oldCap newLen := newLen;
  growslice_fits oldCap newLen := Z.le_refl newLen
|}.

(** ** A codec *)

(** A self-delimiting code. *)
Class Serial (A : Type) := {
  toBytes : A -> bytes;
  fromBytes : bytes -> option (A * bytes);
  fromBytes_to : forall a l, fromBytes (toBytes a ++ l) = Some (a, l)
}.

(** A type coded as another. *)
Definition serial_via {A B} `{Serial B} (f : A -> B) (g : B -> A) (Hgf : forall a, g (f a) = a) : Serial A.
Proof.
  refine {| toBytes a := toBytes (f a); fromBytes l := '(b, l) ← fromBytes l; Some (g b, l) |}.
  intros a l. rewrite fromBytes_to. simpl. by rewrite Hgf.
Defined.

Fixpoint posBytes (p : positive) : bytes :=
  match p with xH => [x01] | xO p => x00 :: posBytes p | xI p => x02 :: posBytes p end.

Fixpoint bytesPos (l : bytes) : option (positive * bytes) :=
  match l with
  | [] => None
  | x01 :: l => Some (xH, l)
  | x00 :: l => '(p, l) ← bytesPos l; Some (xO p, l)
  | _ :: l => '(p, l) ← bytesPos l; Some (xI p, l)
  end.

Lemma bytesPos_pos p l : bytesPos (posBytes p ++ l) = Some (p, l).
Proof. induction p as [p IH|p IH|]; simpl; [by rewrite IH|by rewrite IH|done]. Qed.

#[global] Instance Z_serial : Serial Z.
Proof.
  refine {| toBytes z := match z with Z0 => [x00] | Zpos p => x01 :: posBytes p | Zneg p => x02 :: posBytes p end;
            fromBytes l := match l with
                          | [] => None
                          | x00 :: l => Some (0, l)
                          | x01 :: l => '(p, l) ← bytesPos l; Some (Zpos p, l)
                          | _ :: l => '(p, l) ← bytesPos l; Some (Zneg p, l)
                          end |}.
  intros [|p|p] l; simpl; by rewrite ?bytesPos_pos.
Defined.

#[global] Instance byte_serial : Serial byte.
Proof. refine {| toBytes b := [b]; fromBytes l := match l with [] => None | b :: l => Some (b, l) end |}. done. Defined.

#[global] Instance prod_serial {A B} `{Serial A, Serial B} : Serial (A * B).
Proof.
  refine {| toBytes p := toBytes p.1 ++ toBytes p.2; fromBytes l := '(a, l) ← fromBytes l; '(b, l) ← fromBytes l; Some ((a, b), l) |}.
  intros [a b] l. simpl. rewrite <- app_assoc, fromBytes_to. simpl. rewrite fromBytes_to. done.
Defined.

Fixpoint fromBytesN {A} `{Serial A} (n : nat) (l : bytes) : option (list A * bytes) :=
  match n with
  | O => Some ([], l)
  | S n => '(a, l) ← fromBytes l; '(r, l) ← fromBytesN n l; Some (a :: r, l)
  end.

Lemma fromBytesN_to {A} `{Serial A} (r : list A) l : fromBytesN (length r) (concat (map toBytes r) ++ l) = Some (r, l).
Proof. induction r as [|a r IH]; [done|]. simpl. rewrite <- app_assoc, fromBytes_to. simpl. by rewrite IH. Qed.

#[global] Instance list_serial {A} `{Serial A} : Serial (list A).
Proof.
  refine {| toBytes r := toBytes (Z.of_nat (length r)) ++ concat (map toBytes r); fromBytes l := '(n, l) ← fromBytes l; fromBytesN (Z.to_nat n) l |}.
  intros r l. rewrite <- app_assoc, fromBytes_to. simpl. rewrite Nat2Z.id. apply fromBytesN_to.
Defined.

#[global] Instance string_serial : Serial string :=
  serial_via bytesOf String.string_of_list_byte String.string_of_list_byte_of_string.

#[global] Instance option_serial {A} `{Serial A} : Serial (option A).
Proof.
  refine (serial_via (fun o : option A => match o with Some a => [a] | None => [] end) (fun l => match l with a :: _ => Some a | [] => None end) _).
  by intros [].
Defined.

#[global] Instance gmap_serial {K A} `{Countable K} `{Serial K} `{Serial A} : Serial (gmap K A) :=
  serial_via map_to_list list_to_map list_to_map_to_list.

#[global] Instance FileType_serial : Serial FileType.
Proof.
  refine (serial_via
    (fun t => match t with TypeReg => 1 | TypeDir => 2 | TypeBlk => 3 | TypeChr => 4 | TypeLnk => 5 | TypeSock => 6 | TypeFifo => 7 end)
    (fun z => if z =? 1 then TypeReg else if z =? 2 then TypeDir else if z =? 3 then TypeBlk else if z =? 4 then TypeChr
              else if z =? 5 then TypeLnk else if z =? 6 then TypeSock else TypeFifo) _).
  by intros [].
Defined.

#[global] Instance chunkRef_serial : Serial chunkRef.
Proof. refine (serial_via (fun c => (cHash c, cSize c)) (fun p => mkChunkRef p.1 p.2) _). by intros []. Defined.

#[global] Instance inode_serial : Serial inode.
Proof.
  refine (serial_via
    (fun n => ((iID n, iGen n, iType n, iMode n, iUID n, iGID n, iNLink n), (iSize n, iATimeNS n, iMTimeNS n, iCTimeNS n),
               (iEntries n, iParent n, iChunks n, iTarget n)))
    (fun '((a, b, c, d, e, f, g), (h, i, j, k), (l, m, n, o)) => mkInode a b c d e f g h i j k l m n o) _).
  by intros [].
Defined.

#[global] Instance rawInode_serial : Serial rawInode.
Proof. refine (serial_via (fun r => (rawNode r, rawEntries r)) (fun p => mkRaw p.1 p.2) _). by intros []. Defined.

#[global] Instance rawSnapshot_serial : Serial rawSnapshot.
Proof.
  refine (serial_via (fun r => (rsVersion r, rsEpoch r, rsNextIno r, rsChunkSize r, rsInodes r, rsCreatedNS r))
    (fun '(a, b, c, d, e, f) => mkRawSnapshot a b c d e f) _). by intros [].
Defined.

#[global] Instance rootPointer_serial : Serial rootPointer.
Proof.
  refine (serial_via (fun r => (rpVersion r, rpEpoch r, rpSnapshot r, rpFSID r, rpWrittenNS r, rpWriter r))
    (fun '(a, b, c, d, e, f) => mkRootPointer a b c d e f) _). by intros [].
Defined.

Definition readBack {A} `{Serial A} (b : bytes) : option A := fst <$> fromBytes b.

Lemma readBack_written {A} `{Serial A} (a : A) : readBack (toBytes a) = Some a.
Proof. unfold readBack. rewrite <- (app_nil_r (toBytes a)), fromBytes_to. done. Qed.

#[global] Instance plainCodec : Codec := {|
  marshalRoot := toBytes;
  unmarshalRoot := readBack;
  marshalSnap := toBytes;
  unmarshalSnap := readBack;
  root_roundtrip rp _ _ := readBack_written rp;
  snap_roundtrip s _ := readBack_written (rawOf s)
|}.
