(* ===== verification/Demo.v ===== *)
(** * A small mount, for the witnesses

    A filesystem made in an empty bucket, a file created in it and written to,
    with the parameters of [Concrete]. *)

From Stdlib Require Import Strings.Byte.
From S2P Require Import Prelude Vfs Fsm Modes Policy Inode ChunkCache Budget Store FsState Tree Namespace.
From S2P Require Import NamespaceInv NamespaceSpec Effects Data DataSpec FileSpec DataInv ReadDir Commit.
From S2P Require Import WritePath Durable CommitSpec SyncSpec Whole System Mount Concrete.

#[global] Existing Instance Unix.

Definition smallConfig : Config := mkConfig 4096 0 1000 1000 false false 0 8192 0 false.
Definition tk (k : Z) : tick := mkTick [byte_of_Z k] k k k.

Definition noBucket : Bucket.world := Bucket.mkWorld ∅ [].

(** The state of a run. *)
Definition stateOf {A} (r : A * (FS * Bucket.world)) : FS * Bucket.world := r.2.

Definition mounted : FS * Bucket.world := cameUp demo (New smallConfig "host/1" (tk 1) 7 noBucket).

Lemma smallConfig_ok : configOK smallConfig.
Proof. split; [vm_compute; split; [discriminate|reflexivity]|reflexivity]. Qed.

Lemma noBucket_content : contentOK noBucket.
Proof. intros h d H. discriminate H. Qed.

Lemma noBucket_root : rootOK noBucket.
Proof. intros raw H. discriminate H. Qed.

Lemma mounted_run : New smallConfig "host/1" (tk 1) 7 noBucket = (Ok mounted.1, mounted.2).
Proof. apply (run_cameUp demo _ mounted); [reflexivity|run_it]. Qed.

Lemma mounted_sound : sound mounted.1 mounted.2.
Proof.
  exact (proj1 (New_inv smallConfig "host/1" (tk 1) 7 noBucket mounted.1 mounted.2 smallConfig_ok eq_refl
    noBucket_content noBucket_root mounted_run)).
Qed.

(** A file "f" of the root directory, made at 20. *)
Definition withFile : FS := (perform mounted.1 (NCreate owner rootHandle "f" noSetAttr true 20 21)).2.
Definition fileHandle : Handle := encodeHandle 2 20.

Lemma withFile_sound : sound withFile mounted.2.
Proof. apply perform_sound; [exact mounted_sound|run_it|run_it]. Qed.

(** "hello" written at 10, not yet committed. *)
Definition hello : bytes := [x68; x65; x6c; x6c; x6f].

Definition writtenTo : FS * Bucket.world :=
  (Write owner fileHandle 10 hello Unstable [] 30 (tk 2) (withFile, mounted.2)).2.

Lemma writtenTo_run : Write owner fileHandle 10 hello Unstable [] 30 (tk 2) (withFile, mounted.2) = (Ok (5, Unstable), writtenTo).
Proof. run_reply. Qed.

Lemma writtenTo_sound : sound writtenTo.1 writtenTo.2.
Proof.
  pose proof writtenTo_run as H. destruct writtenTo as [f w].
  exact (proj1 (Write_sound owner fileHandle 10 hello Unstable [] 30 (tk 2) withFile mounted.2 _ f w withFile_sound ltac:(lia) H)).
Qed.

(** Only evaluation looks into them from here on. *)
#[global] Opaque mounted withFile writtenTo.
