(* ===== verification/DataProps.v ===== *)
(** * What the data path promises its clients

    READ, WRITE and size changes against the contents of the files, [contentAt];
    the exactness of the charge; and the checks a chunk passes on its way in. *)

From Stdlib Require Import Strings.Byte.
From stdpp Require Import sorting.
From S2P Require Import Prelude Vfs Fsm Modes Policy Inode ChunkCache Budget Store FsState Tree Namespace.
From S2P Require Import NamespaceInv NamespaceSpec Effects Data DataSpec FileSpec DataInv ReadDir Commit.
From S2P Require Import WritePath Keeps Durable CommitSpec SyncSpec Whole System Mount Concrete Demo.

Section Props.
Context {Cd : Codec} {W : Type} {St : Store W} {Vw : StoreView W} {Lw : StoreLaws W}
  {Dg : Digest} {Hx : HexDigest} {Ro : RunOrder} {P : Policy} {TC : TypeChecked P}.

(** The file [j] of [f], attributes, size and contents, is the same in [f']. *)
Definition fileAs (f f' : FS) (j : Z) : Prop :=
  forall m, inodes f !! j = Some m -> exists m', inodes f' !! j = Some m' /\ attrFields m' = attrFields m /\ iSize m' = iSize m /\
    forall i, 0 <= i -> contentAt f' j m' i = contentAt f j m i.

Lemma sameContents_file f f' j : sameContents f f' -> fileAs f f' j.
Proof using Type.
  intros (g&[_ _ _ _ _ A6]&Hns) m Hm. destruct (A6 j m Hm) as (m'&H1&H2&H3&H4). exists m'.
  rewrite (ns_inodes _ _ Hns). repeat (split; [done|]). intros i Hi. rewrite (nsSame_contents g f') by done. by apply H4.
Qed.

Lemma fileAs_trans f g h j : fileAs f g j -> fileAs g h j -> fileAs f h j.
Proof using Type.
  intros A B m Hm. destruct (A m Hm) as (m1&H1&H2&H3&H4), (B m1 H1) as (m2&K1&K2&K3&K4). exists m2.
  split; [done|]. split; [congruence|]. split; [congruence|]. intros i Hi. by rewrite K4, H4.
Qed.

Lemma touches_other f f' id n' o' dc j : touches f f' id n' o' dc -> j ≠ id -> fileAs f f' j.
Proof using Type.
  intros [T1 _ T3 _ _ T6 _] Hj m Hm. exists m. rewrite T3, lookup_insert_ne by done. repeat (split; [done|]).
  intros i _. unfold contentAt, bufOf. by rewrite T1, T6, lookup_insert_ne.
Qed.

Lemma touches_content f f' id n' o' dc i :
  touches f f' id n' o' dc -> contentAt f' id n' i = fileByte (chunkSize (cf f)) (iChunks n') o' i.
Proof using Type. intros [T1 _ _ _ _ T6 _]. unfold contentAt, bufOf. by rewrite T1, T6, lookup_insert_eq. Qed.

(** ** READ *)

(** C9 READ returns the file: when it succeeds, the reply has as many bytes as
    were asked for and the file holds past the offset, each the byte of the
    file's contents at its place, whether it is buffered, stored, cut by a
    truncate or in a hole; EOF is answered exactly when the reply reaches the
    end of the file; and reading changes no file. It holds on any store at all:
    bytes a store answers wrongly never reach the reply. *)
Theorem Read_returns_contents c h off count f w out eof f' w' id n :
  good f -> 0 <= off -> 0 <= count -> resolve f h = Ok (id, n) ->
  Read c h off count (f, w) = (Ok (out, eof), (f', w')) ->
  blen out = Z.max 0 (Z.min count (iSize n - off)) /\
  (forall j, 0 <= j < blen out -> bget out j = contentAt f id n (off + j)) /\
  eof = (iSize n <=? off + blen out) /\ good f' /\ sameFiles f f'.
Proof using Type.
  intros Hg Ho Hc Hr Hrun. pose proof Hg as [Hw Hd]. pose proof (resolve_ok f h id n Hr) as (Hn&_&_).
  destruct (Read_view c h off count f w out eof f' w' id n (do_verify f Hd) (do_cache f Hd) ltac:(pose proof (do_cs f Hd); lia)
    Ho Hc Hr (wf_id f id n Hw Hn) Hrun) as (Ha&Hca&H1&H2&H3).
  split; [done|]. split; [done|]. split; [done|]. split; [by eapply aside_good|by apply aside_same].
Qed.

(** ** WRITE *)

(** A WRITE that succeeds: the wait, the buffering and, if asked for, the sync. *)
Lemma Write_ok c h off data how ts now t f w k st f' w' :
  sound f w -> 0 <= off -> 0 < blen data -> Write c h off data how ts now t (f, w) = (Ok (k, st), (f', w')) ->
  exists id n f2 w2 n2 written f3 w3,
    resolve f h = Ok (id, n) /\ checkPerm OpWrite c n = None /\ mutable f = None /\ off < maxFileSize (cf f) /\
    sound f2 w2 /\ sameContents f f2 /\ resolve f2 h = Ok (id, n2) /\ is_Some (open f2 !! id) /\
    bufferWrite h id (bufOf f2 id) off (clamp (maxFileSize (cf f)) off data) now (f2, w2) = (Ok written, (f3, w3)) /\
    sound f3 w3 /\ k = u32 written /\
    ((st = Unstable /\ how = Unstable /\ f' = f3 /\ w' = w3) \/
     (st = FileSync /\ how ≠ Unstable /\ syncFileAndNamespace id t (f3, w3) = (Ok tt, (f', w')))).
Proof using Lw Hx.
  intros Hs Hoff Hlen Hrun. unfold Write in Hrun. rewrite (bind_ok _ _ _ f (f, w)) in Hrun by done.
  destruct (mutable f); [done|]. destruct (Z.eqb_spec (blen data) 0) as [Hz|Hz]; [lia|].
  destruct (Z.leb_spec (maxFileSize (cf f)) off); [done|].
  apply bind_inv in Hrun as [([id n]&[g x]&H1&Hrun)|(e&_&?)]; [|done]. unfold answer in H1; injection H1 as Hres <- <-.
  destruct (checkPerm OpWrite c n) eqn:Hp; [done|].
  pose proof (resolve_ok f h id n Hres) as (Hn&_&_). rewrite (wf_id f id n (proj1 (so_good f w Hs)) Hn) in Hrun.
  apply bind_inv in Hrun as [([]&[f1 w1]&H1&Hrun)|(e&_&?)]; [|done]. apply await_sound in H1 as [Hk1 Hc1]; [|done].
  destruct (sameContents_resolve f f1 h id n Hc1 Hres) as (n1&Hr1&_). pose proof (resolve_ok f1 h id n1 Hr1) as (Hn1&_&_).
  destruct (getOpen_sound id f1 w1 (proj1 Hk1) ltac:(eauto)) as (Hk2&Hb2&Ho2&Hi2&Hcf2).
  pose proof (getOpen_buf id f1) as Hgb. pose proof (getOpen_same id f1) as Hgs.
  unfold bind at 1, onFS in Hrun. simpl in Hrun. destruct (getOpen id f1) as [o f2].
  simpl in *. subst o. rewrite <- Hb2 in Hrun.
  destruct (clamp_spec (maxFileSize (cf f)) off data ltac:(lia)) as [_ Hcl].
  assert (Hr2 : resolve f2 h = Ok (id, n1)) by (rewrite <- Hr1; unfold resolve; by rewrite Hi2).
  assert (Hm2 : off + blen (clamp (maxFileSize (cf f)) off data) <= maxFileSize (cf f2)) by (by rewrite Hcf2, (sameContents_cf f f1)).
  apply bind_inv in Hrun as [(wr&[f3 w3]&H3&Hrun)|(e&_&?)]; [|done].
  pose proof (bufferWrite_sound h id n1 off _ now f2 w1 _ f3 w3 (proj1 Hk2) Hr2 Ho2 Hoff Hm2 H3) as Hk3.
  exists id, n, f2, w1, n1, wr, f3, w3. do 4 (split; [done|]). split; [apply Hk2|].
  split; [eapply sameContents_trans; [exact Hc1|by apply Hgs]|]. do 3 (split; [done|]). split; [apply Hk3|].
  destruct how; [injection Hrun as <- <- <- <-; split; [done|]; by left|..];
    (apply bind_inv in Hrun as [([]&[f4 w4]&H4&Hrun)|(e&_&?)]; [|done]); injection Hrun as <- <- <- <-; (split; [done|]); right; done.
Qed.

Lemma syncFile_contents id t f w r f' w' :
  sound f w -> syncFileAndNamespace id t (f, w) = (r, (f', w')) -> sameContents f f'.
Proof using Lw Hx.
  intros Hs Hrun. unfold syncFileAndNamespace in Hrun. apply bind_inv in Hrun as [([]&[f1 w1]&H1&Hrun)|(e&H1&->)];
    destruct (commitFile_sound _ _ _ _ _ _ Hs H1) as [Hk Hsf].
  - eapply sameContents_trans; [exists f1; split; [exact Hsf|apply nsSame_refl]|].
    by destruct (Sync_sound _ _ _ _ _ _ (proj1 Hk) Hrun).
  - exists f'. split; [done|apply nsSame_refl].
Qed.

(** What a WRITE that succeeds has done, and that the mount is sound after it. *)
Lemma Write_effect c h off data how ts now t f w k st f' w' :
  sound f w -> 0 <= off -> 0 < blen data < 2 ^ 32 -> Write c h off data how ts now t (f, w) = (Ok (k, st), (f', w')) ->
  sound f' w' /\ exists id n n', resolve f h = Ok (id, n) /\ resolve f' h = Ok (id, n') /\
    0 < k <= blen data /\ off + k <= maxFileSize (cf f) /\ iSize n' = Z.max (iSize n) (off + k) /\
    (forall i, 0 <= i -> contentAt f' id n' i = if decide (off <= i < off + k) then bget data (i - off) else contentAt f id n i) /\
    (forall j, j ≠ id -> fileAs f f' j).
Proof using Lw Hx.
  intros Hs Hoff Hlen Hrun. split; [by eapply Write_sound|].
  destruct (Write_ok _ _ _ _ _ _ _ _ _ _ _ _ _ _ Hs Hoff (proj1 Hlen) Hrun) as (id&n&f2&w2&n2&wr&f3&w3&Hr&_&_&Hmax&Hs2&Hc2&Hr2&Ho2&Hb&Hs3&->&Hend).
  destruct (clamp_spec (maxFileSize (cf f)) off data ltac:(lia)) as [Hcl1 Hcl2].
  set (d := clamp (maxFileSize (cf f)) off data) in *.
  assert (Hcf : cf f2 = cf f) by by apply sameContents_cf.
  destruct (bufferWrite_spec h id n2 off d now f2 w2 _ f3 w3 (so_good _ _ Hs2) Hr2 Ho2 Hoff ltac:(by rewrite Hcf) Hb)
    as (_&Hk&Hk0&n3&o3&dc&Ht&Hsk&_&Hsz&_&_&Hv).
  destruct (sameContents_resolve f f2 h id n Hc2 Hr) as (n2'&Hr2'&_&Hsz2&Hv2). assert (n2' = n2) as -> by congruence.
  pose proof (resolve_ok f2 h id n2 Hr2) as (Hn2&_&_).
  assert (Hn3 : inodes f3 !! id = Some n3) by by rewrite (to_inodes _ _ _ _ _ _ Ht), lookup_insert_eq.
  assert (Hr3 : resolve f3 h = Ok (id, n3)).
  { apply (resolve_touched f2 f3 id n2 n3 h Hr2 Hn3). by destruct (skelFields_skel n2 n3 Hsk) as (_&?&_). }
  assert (Hc3 : sameContents f3 f').
  { destruct Hend as [(_&_&->&_)|(_&_&Hsy)]; [apply sameContents_refl|by eapply syncFile_contents]. }
  destruct (sameContents_resolve f3 f' h id n3 Hc3 Hr3) as (n4&Hr4&_&Hsz4&Hv4).
  specialize (Hk0 ltac:(lia)). assert (Hu : u32 wr = wr) by (apply u32_id; unfold is_u32; lia). rewrite Hu.
  exists id, n, n4. split; [done|]. split; [done|]. split; [lia|]. split; [lia|]. split; [congruence|]. split.
  - intros i Hi. rewrite Hv4, (touches_content _ _ _ _ _ _ _ Ht), Hv by done. case_decide as Hin; [|exact (Hv2 i Hi)].
    unfold d, clamp. destruct (_ <? _); [|done]. rewrite bget_take. unfold d in *. destruct (Z.ltb_spec (i - off) (maxFileSize (cf f) - off)); [done|lia].
  - intros j Hj. eapply fileAs_trans; [by apply sameContents_file|]. eapply fileAs_trans; [by eapply touches_other|by apply sameContents_file].
Qed.

(** C8 WRITE of at least one byte overwrites exactly what it says: when it
    succeeds, whatever
    stability was asked for and even if it first had to drain the buffers to
    get under the budget, it took between one byte and all of those below the
    limit, and reports how many; the file holds those bytes at the offset and
    is as long as before or as they reach; every other byte of the file, and
    every other file, is what it was. *)
Theorem Write_updates_contents c h off data how ts now t f w k st f' w' :
  sound f w -> 0 <= off -> 0 < blen data < 2 ^ 32 -> Write c h off data how ts now t (f, w) = (Ok (k, st), (f', w')) ->
  exists id n n', resolve f h = Ok (id, n) /\ resolve f' h = Ok (id, n') /\
    0 < k <= blen data /\ off + k <= maxFileSize (cf f) /\ iSize n' = Z.max (iSize n) (off + k) /\
    (forall i, 0 <= i -> contentAt f' id n' i = if decide (off <= i < off + k) then bget data (i - off) else contentAt f id n i) /\
    (forall j, j ≠ id -> fileAs f f' j).
Proof using Lw Hx. intros Hs Hoff Hlen Hrun. by apply Write_effect in Hrun as [_ H]. Qed.

(** C26 A WRITE answered FILE_SYNC is stable. Either it carried no bytes, and then
    it counted none and changed nothing, whatever stability was asked for and
    whatever the mount had left to commit; or the call asked for stability and
    the bucket's root pointer names exactly the namespace of the mount, with
    nothing left in a buffer and the mount clean. A write of bytes that was not
    synced is never answered FILE_SYNC. *)
Theorem Write_stable_committed c h off data how ts now t f w k f' w' :
  sound f w -> 0 <= off -> Write c h off data how ts now t (f, w) = (Ok (k, FileSync), (f', w')) ->
  (blen data = 0 /\ k = 0 /\ f' = f /\ w' = w) \/
  (0 < blen data /\ how ≠ Unstable /\ committed f' w' /\ drained f' /\ dirty f' = false).
Proof using Lw Hx.
  intros Hs Hoff Hrun. destruct (decide (blen data = 0)) as [Hz|Hnz].
  { left. unfold Write in Hrun. rewrite (bind_ok _ _ _ f (f, w)) in Hrun by done. destruct (mutable f); [done|].
    apply Z.eqb_eq in Hz as Hz'. rewrite Hz' in Hrun. by injection Hrun as <- <- <-. }
  right. pose proof (blen_nonneg data) as Hnn. assert (Hlen : 0 < blen data) by lia. split; [done|].
  destruct (Write_ok _ _ _ _ _ _ _ _ _ _ _ _ _ _ Hs Hoff Hlen Hrun)
    as (id&n&f2&w2&n2&wr&f3&w3&_&_&_&_&_&_&_&_&_&Hs3&_&[(?&_)|(_&Hhow&Hsy)]); [done|]. split; [done|].
  unfold syncFileAndNamespace in Hsy. apply bind_inv in Hsy as [([]&[f4 w4]&H4&Hsy)|(e&_&?)]; [|done].
  destruct (commitFile_sound _ _ _ _ _ _ Hs3 H4) as [[[Hg Hh He Hc] _] _].
  destruct (Sync_full t f4 w4 _ f' w' Hg Hh He Hc Hsy) as [_ Hok]. destruct (Hok eq_refl) as (?&?&?&_). done.
Qed.

(** ** Backpressure *)

Lemma chargeSum_drained m : (forall id o, m !! id = Some o -> o = newOpenFile) -> chargeSum m = 0.
Proof using Type.
  induction m as [|id o m Hid _ IH] using map_first_key_ind; [done|]. intros H. rewrite chargeSum_insert, Hid, IH.
  - rewrite (H id o) by apply lookup_insert_eq. done.
  - intros j p Hj. apply (H j). rewrite lookup_insert_ne; [done|]. congruence.
Qed.

(** A WRITE held back by the budget is let through after one drain: if the
    buffers are at or over a positive limit and no drain is running, the wait
    runs one Sync, and when that succeeds it returns, with nothing charged and
    no drain marked as running, whatever else could be drained after it. *)
Theorem await_one_drain t ts f w f1 w1 :
  sound f w -> 0 < Budget.maxBytes (budget f) <= Budget.charge (budget f) ->
  Budget.draining (budget f) = false -> Budget.failedAt (budget f) <= Budget.ended (budget f) ->
  Sync t (set_budget (Budget.set_draining true (budget f)) f, w) = (Ok tt, (f1, w1)) ->
  exists f2, await (t :: ts) (f, w) = (Ok tt, (f2, w1)) /\ DirtyBytes f2 = 0 /\ Budget.draining (budget f2) = false.
Proof using Lw Hx.
  intros Hs Hlim Hdr Hfa Hsy. set (b0 := Budget.set_draining true (budget f)) in *.
  pose proof (budget_sound f w b0 Hs eq_refl) as [[Hg Hh He Hc] _].
  destruct (Sync_full t _ w _ f1 w1 Hg Hh He Hc Hsy) as [[Hg1 _ _ _ _] Hok]. destruct (Hok eq_refl) as (_&Hd1&_&_).
  assert (Hch : Budget.charge (budget f1) = 0) by (rewrite (do_charge f1 (proj2 Hg1)); by apply chargeSum_drained).
  pose proof (Sync_budget t (set_budget b0 f) w) as Hrest. rewrite Hsy in Hrest. unfold budgetRest in Hrest. simpl in Hrest.
  unfold Budget.set_charge in Hrest. injection Hrest as R1 R2 R3 R4 R5 R6.
  assert (Hent : Budget.enter false (budget f) = (Budget.Draining (Budget.ended (budget f)), b0)).
  { unfold Budget.enter. destruct (Z.leb_spec (Budget.maxBytes (budget f)) 0); [lia|].
    destruct (Z.ltb_spec (Budget.charge (budget f)) (Budget.maxBytes (budget f))) as [|Hge]; [lia|]. simpl.
    unfold Budget.iterate, Budget.failedSince. rewrite Hdr. destruct (Budget.failure (budget f)); [destruct (Z.ltb_spec (Budget.ended (budget f)) (Budget.failedAt (budget f))); [lia|]|];
      (destruct (Z.ltb_spec (Budget.charge (budget f)) (Budget.maxBytes (budget f))); [lia|done]). }
  assert (Hdn : Budget.drained false (Budget.ended (budget f)) None (budget f1) = (Budget.Done Budget.Passed, Budget.settle None (budget f1))).
  { simpl. unfold Budget.iterate, Budget.failedSince. simpl. rewrite R5, R6, R1, Hch.
    destruct (Budget.failure (budget f)); [destruct (Z.ltb_spec (Budget.ended (budget f)) (Budget.failedAt (budget f))); [lia|]|];
      (destruct (Z.ltb_spec 0 (Budget.maxBytes (budget f))); [done|lia]). }
  exists (set_budget (Budget.settle None (budget f1)) f1). split; [|split; [exact Hch|done]].
  unfold await, bind at 1, onBudget, onFS. simpl. rewrite Hent. cbn [awaitLoop]. unfold bind at 1, attempt. rewrite Hsy.
  unfold bind, onBudget, onFS. simpl errOf. cbn [fst snd]. rewrite Hdn. by destruct ts.
Qed.

(** The charge of one file. *)
Lemma capSum_cs cs m : (forall idx b, m !! idx = Some b -> bCap b = cs) -> capSum m = cs * Z.of_nat (size m).
Proof using Type.
  induction m as [|idx b m Hi _ IH] using map_first_key_ind; [intros _; rewrite map_size_empty; unfold capSum; rewrite map_fold_empty; lia|].
  intros H. rewrite capSum_insert, Hi, map_size_insert_None by done. rewrite IH.
  - rewrite (H idx b) by apply lookup_insert_eq. lia.
  - intros j p Hj. apply (H j). rewrite lookup_insert_ne; [done|]. congruence.
Qed.

(** How many chunks are buffered, over all files. *)
Definition bufferedChunks (f : FS) : Z := map_fold (fun _ o s => s + Z.of_nat (size (ofDirty o))) 0 (open f).

Lemma charge_count cs (m : gmap Z openFile) :
  (forall id o, m !! id = Some o -> ofBytes o = cs * Z.of_nat (size (ofDirty o))) ->
  chargeSum m = cs * map_fold (fun _ o s => s + Z.of_nat (size (ofDirty o))) 0 m.
Proof using Type.
  induction m as [|id o m Hi _ IH] using map_first_key_ind; intros H.
  { unfold chargeSum. rewrite !map_fold_empty. lia. }
  rewrite chargeSum_insert, Hi. rewrite map_fold_insert_L by (done || (intros; lia)). rewrite IH.
  - rewrite (H id o) by apply lookup_insert_eq. lia.
  - intros j p Hj. apply (H j). rewrite lookup_insert_ne; [done|]. congruence.
Qed.

(** The budget is exact: after any sequence of calls, whatever failed on the
    way, the bytes charged are one chunk size for every chunk that is buffered,
    over the files that still exist; none leaks and none is counted twice. *)
Theorem charge_exact ops f w r f' w' :
  sound f w -> nextIno f + blen ops < 2 ^ 64 -> Forall argsOK ops -> execAll ops (f, w) = (r, (f', w')) ->
  DirtyBytes f' = chunkSize (cf f') * bufferedChunks f'.
Proof using Lw Hx TC.
  intros Hs Hn Ha Hrun. destruct (execAll_sound ops f w r f' w' Hs Hn Ha Hrun) as [[Hw Hd] _ _ _].
  unfold DirtyBytes, Budget.used. rewrite (do_charge f' Hd). apply charge_count. intros id o Ho.
  destruct (wf_open f' Hw id) as [n Hnn]; [eauto|]. pose proof (do_files f' Hd id n Hnn) as Hok. unfold bufOf in Hok. rewrite Ho in Hok. simpl in Hok.
  rewrite (fo_bytes _ _ _ Hok). apply capSum_cs. intros idx b Hb. by destruct (fo_dirty _ _ _ Hok idx b Hb) as (_&_&?).
Qed.

(** ** Size changes *)

(** C16 SETATTR with a size cuts or extends the file: when it succeeds the size
    was within the limit and is now the file's; below both the old and the new
    size the contents are what they were, and past the old size they are zero,
    also where an earlier truncate cut something off; every other file is what
    it was; the mount still holds, on any store, everything it held. *)
Theorem SetAttr_resizes f c h sa size now a f' w :
  sound f w -> is_u64 size -> saSize sa = Some size -> SetAttr_ f c h sa now = (Ok a, f') ->
  exists id n n', resolve f h = Ok (id, n) /\ resolve f' h = Ok (id, n') /\ aSize a = size /\ iSize n' = size /\ size <= maxFileSize (cf f) /\
    (forall i, 0 <= i -> contentAt f' id n' i = if decide (i < size /\ i < iSize n) then contentAt f id n i else zero_byte) /\
    (forall j, j ≠ id -> fileAs f f' j) /\ sound f' w.
Proof using Type.
  intros Hs Hu Hsa. unfold SetAttr_. destruct (mutable f); [done|]. rewrite Hsa. intros Hrun.
  destruct (truncate_inv f c h sa size now _ f' (so_good f w Hs) Hu Hrun) as [_ (id&n&n'&o'&dc&Hr&Ht&Hm&Hgen&_&Hsz&_&->&_&_&_&_&Hv)].
  pose proof (resolve_ok f h id n Hr) as (Hn&_&_).
  exists id, n, n'. split; [done|].
  split; [apply (resolve_touched f f' id n n' h Hr); [by rewrite (to_inodes _ _ _ _ _ _ Ht), lookup_insert_eq|done]|].
  split; [done|]. split; [done|]. split; [done|]. split; [|split; [intros j Hj; by eapply touches_other|by eapply truncate_sound]].
  intros i Hi. rewrite (touches_content _ _ _ _ _ _ _ Ht), Hv by done. unfold contentAt.
  destruct (Z.ltb_spec i size); [|by rewrite decide_False by lia]. destruct (decide (i < iSize n)); [by rewrite decide_True by lia|].
  rewrite decide_False by lia. apply (do_files f (proj2 (so_good f w Hs)) id n Hn). lia.
Qed.

(** ** Flushing *)

(** Flushing never loses a byte: on any store, whichever uploads or fetches
    fail, every file has the attributes, size and contents it had; and if every
    transfer succeeds nothing is buffered and nothing is charged any more. *)
Theorem flushAll_keeps_contents f w r f' w' :
  good f -> flushAll (f, w) = (r, (f', w')) ->
  sameFiles f f' /\ good f' /\ (is_ok r = true -> drained f' /\ DirtyBytes f' = 0).
Proof using Type.
  intros Hg Hrun. destruct (flushAll_inv f w r f' w' Hg Hrun) as (H1&H2&H3). split; [done|]. split; [done|].
  destruct r as [u|e]; [|done]. intros _. split; [exact H3|]. unfold DirtyBytes, Budget.used. rewrite (do_charge f' (proj2 H1)).
  by apply chargeSum_drained.
Qed.

(** ** Chunks *)

(** Every chunk is verified: whatever the store answers, a fetch gives the
    bytes the reference's hash is the hash of (zeros for a hole) or an error,
    and the cache never holds bytes under another hash than theirs. *)
Theorem loadChunk_verified ref f w d f' w' :
  skipVerify (cf f) = false -> cacheOK f -> loadChunk ref (f, w) = (Ok d, (f', w')) ->
  (if isHole ref then d = zeros (cSize ref) else sha d = cHash ref) /\ cacheOK f'.
Proof using Type.
  intros Hv Hc Hrun. destruct (loadChunk_spec ref f w _ f' w' Hv Hc Hrun) as (_&Hc'&Hd). destruct (Hd d eq_refl) as [Hd1 Hd2].
  split; [|done]. unfold chunkData in Hd1. destruct (isHole ref); [done|by apply Hd2].
Qed.

(** An upload that reports success is in the bucket: the reference it gives
    names the hash of the data, and the bucket holds exactly the data under it,
    whether it was put now, found by the probe or known from before. *)
Theorem putChunk_stored data f w ref f' w' :
  held f w -> skipVerify (cf f) = false -> putChunk data (f, w) = (Ok ref, (f', w')) -> cacheOK f ->
  cHash ref = sha data /\ objects w' !! chunkKey (sha data) = Some data /\ held f' w'.
Proof using Lw.
  intros Hh Hv Hrun Hc. destruct (putChunk_spec data f w _ f' w' Hc Hrun) as (_&_&Href). specialize (Href ref eq_refl).
  destruct (putChunk_held data f w _ f' w' Hh Hv Hrun) as (Hh'&_&_&Hst). specialize (Hst ref eq_refl). subst ref. simpl.
  split; [done|]. split; [|done]. unfold refStored, isHole in Hst. simpl in Hst. rewrite unsha_sha in Hst. apply Hst.
  apply String.eqb_neq, sha_nonempty.
Qed.

End Props.

(** ** Witnesses *)


Definition readBack : result (bytes * bool) * (FS * Bucket.world) := Read owner fileHandle 8 10 (writtenTo.1, writtenTo.2).

Lemma Read_returns_contents_witness :
  Read owner fileHandle 8 10 (writtenTo.1, writtenTo.2) = (Ok ([x00; x00] ++ hello, true), (readBack.2.1, readBack.2.2)) /\
  forall j, 0 <= j < 7 -> bget ([x00; x00] ++ hello) j = contentAt writtenTo.1 2 (inodeAt writtenTo.1 2) (8 + j).
Proof.
  assert (Hrun : Read owner fileHandle 8 10 (writtenTo.1, writtenTo.2) =
    (Ok ([x00; x00] ++ hello, true), (readBack.2.1, readBack.2.2))) by run_reply.
  split; [exact Hrun|].
  exact (proj1 (proj2 (Read_returns_contents owner fileHandle 8 10 writtenTo.1 writtenTo.2 _ true _ _ 2 (inodeAt writtenTo.1 2)
    (so_good _ _ writtenTo_sound) ltac:(lia) ltac:(lia) (resolve_at writtenTo.1 fileHandle 2 20 eq_refl ltac:(run_it)) Hrun))).
Defined.

Lemma Write_updates_contents_witness :
  exists id n n', resolve withFile fileHandle = Ok (id, n) /\ resolve writtenTo.1 fileHandle = Ok (id, n') /\ iSize n' = Z.max (iSize n) 15.
Proof.
  pose proof writtenTo_run as Hrun. rewrite (surjective_pairing writtenTo) in Hrun.
  destruct (Write_updates_contents owner fileHandle 10 hello Unstable [] 30 (tk 2) withFile mounted.2 5 Unstable writtenTo.1 writtenTo.2
    withFile_sound ltac:(lia) ltac:(vm_compute; split; reflexivity) Hrun) as (id&n&n'&H1&H2&_&_&H3&_).
  exists id, n, n'. split; [exact H1|]. split; [exact H2|exact H3].
Defined.

(** The same write, stable. *)
Definition stableTo : FS * Bucket.world := (Write owner fileHandle 10 hello FileSync [] 30 (tk 2) (withFile, mounted.2)).2.

Lemma Write_stable_committed_witness : committed stableTo.1 stableTo.2 /\ dirty stableTo.1 = false.
Proof.
  assert (Hrun : Write owner fileHandle 10 hello FileSync [] 30 (tk 2) (withFile, mounted.2) = (Ok (5, FileSync), (stableTo.1, stableTo.2))) by run_reply.
  destruct (Write_stable_committed owner fileHandle 10 hello FileSync [] 30 (tk 2) withFile mounted.2 5 stableTo.1 stableTo.2
    withFile_sound ltac:(lia) Hrun) as [(Hz&_)|(_&_&H1&_&H2)]; [vm_compute in Hz; discriminate Hz|].
  split; [exact H1|exact H2].
Defined.

(** A mount whose limit is already used up. *)
Definition overLimit : FS := set_budget (Budget.mkBudget 4096 4096 0 false 0 None 0) writtenTo.1.

Lemma overLimit_sound : sound overLimit writtenTo.2.
Proof. apply budget_sound; [exact writtenTo_sound|run_it]. Qed.

Definition drainedTo : FS * Bucket.world :=
  (Sync (tk 3) (set_budget (Budget.set_draining true (budget overLimit)) overLimit, writtenTo.2)).2.

Lemma await_one_drain_witness : exists f2, await [tk 3] (overLimit, writtenTo.2) = (Ok tt, (f2, drainedTo.2)) /\ DirtyBytes f2 = 0.
Proof.
  destruct (await_one_drain (tk 3) [] overLimit writtenTo.2 drainedTo.1 drainedTo.2 overLimit_sound
    ltac:(vm_compute; split; [reflexivity|discriminate]) ltac:(reflexivity) ltac:(vm_compute; discriminate) ltac:(run_reply)) as (f2&H1&H2&_).
  exists f2. split; [exact H1|exact H2].
Defined.

Definition someCalls : list sysop :=
  [ CallWrite owner fileHandle 5000 hello Unstable [] 40 (tk 4); CallSync (tk 5); CallWrite owner fileHandle 0 hello Unstable [] 41 (tk 6) ].

Definition afterCalls : FS * Bucket.world := (execAll someCalls (writtenTo.1, writtenTo.2)).2.

Lemma charge_exact_witness : DirtyBytes afterCalls.1 = 4096 * bufferedChunks afterCalls.1 /\ bufferedChunks afterCalls.1 = 1.
Proof.
  assert (Ha : Forall argsOK someCalls) by (repeat constructor; vm_compute; discriminate).
  assert (Hrun : execAll someCalls (writtenTo.1, writtenTo.2) = (Ok tt, (afterCalls.1, afterCalls.2))) by run_reply.
  pose proof (charge_exact someCalls writtenTo.1 writtenTo.2 (Ok tt) afterCalls.1 afterCalls.2 writtenTo_sound ltac:(run_it) Ha Hrun) as H.
  assert (Hc : chunkSize (cf afterCalls.1) = 4096) by run_it. rewrite Hc in H. split; [exact H|run_it].
Defined.

Definition shrink : SetAttr := mkSetAttr None None None (Some 12) None None.

Definition shrunk : result Attr * FS := SetAttr_ writtenTo.1 owner fileHandle shrink 50.
Definition shrunkAttr : Attr := okValue (attr 0 (rootInode 0 0 0)) shrunk.1.

Lemma SetAttr_resizes_witness :
  SetAttr_ writtenTo.1 owner fileHandle shrink 50 = (Ok shrunkAttr, shrunk.2) /\ aSize shrunkAttr = 12 /\ sound shrunk.2 writtenTo.2.
Proof.
  assert (Hr : SetAttr_ writtenTo.1 owner fileHandle shrink 50 = (Ok shrunkAttr, shrunk.2)) by (apply run_value; run_it). split; [exact Hr|].
  assert (Hu : is_u64 12) by (vm_compute; split; [discriminate|reflexivity]).
  pose proof (SetAttr_resizes writtenTo.1 owner fileHandle shrink 12 50 shrunkAttr shrunk.2 writtenTo.2 writtenTo_sound Hu eq_refl Hr) as H.
  destruct H as (id&H). destruct H as (n&n'&_&_&Ha&_&_&_&_&Hs). split; [exact Ha|exact Hs].
Defined.

Definition flushedFS : FS * Bucket.world := (flushAll (writtenTo.1, writtenTo.2)).2.

Lemma flushAll_keeps_contents_witness : sameFiles writtenTo.1 flushedFS.1 /\ drained flushedFS.1.
Proof.
  assert (Hrun : flushAll (writtenTo.1, writtenTo.2) = (Ok tt, (flushedFS.1, flushedFS.2))) by run_reply.
  pose proof (flushAll_keeps_contents writtenTo.1 writtenTo.2 (Ok tt) flushedFS.1 flushedFS.2 (so_good _ _ writtenTo_sound) Hrun) as H.
  destruct H as (H1&_&H2). split; [exact H1|]. exact (proj1 (H2 eq_refl)).
Defined.

Definition helloRef : chunkRef := mkChunkRef (sha hello) 5.
Definition helloStored : FS * Bucket.world := (putChunk hello (withFile, mounted.2)).2.

Lemma helloStored_run : putChunk hello (withFile, mounted.2) = (Ok helloRef, (helloStored.1, helloStored.2)).
Proof. run_reply. Qed.

Lemma putChunk_stored_witness : objects helloStored.2 !! chunkKey (sha hello) = Some hello.
Proof.
  destruct withFile_sound as [Hg Hh _ _].
  pose proof (putChunk_stored hello withFile mounted.2 helloRef helloStored.1 helloStored.2 Hh (do_verify _ (proj2 Hg))
    helloStored_run (do_cache _ (proj2 Hg))) as H. exact (proj1 (proj2 H)).
Defined.

Definition helloLoaded : FS * Bucket.world := (loadChunk helloRef (helloStored.1, helloStored.2)).2.

Lemma loadChunk_verified_witness :
  loadChunk helloRef (helloStored.1, helloStored.2) = (Ok hello, (helloLoaded.1, helloLoaded.2)) /\ cacheOK helloLoaded.1.
Proof.
  destruct withFile_sound as [Hg _ _ _].
  destruct (putChunk_spec hello withFile mounted.2 (Ok helloRef) helloStored.1 helloStored.2 (do_cache _ (proj2 Hg)) helloStored_run) as (_&Hc&_).
  assert (Hrun : loadChunk helloRef (helloStored.1, helloStored.2) = (Ok hello, (helloLoaded.1, helloLoaded.2))) by run_reply.
  assert (Hv : skipVerify (cf helloStored.1) = false) by run_it. split; [exact Hrun|].
  exact (proj2 (loadChunk_verified helloRef helloStored.1 helloStored.2 hello helloLoaded.1 helloLoaded.2 Hv Hc Hrun)).
Defined.
