(* ===== verification/CommitProps.v ===== *)
(** * What commits and mounts promise

    Durability and crash safety of every sequence of calls, compare-and-swap of
    the root pointer, when a mount may conclude that it has diverged, pruning,
    read-only mounts, and the round trips of snapshots and handles. *)

From Stdlib Require Import Ascii Strings.Byte.
From stdpp Require Import sorting.
From S2P Require Import Prelude Vfs Fsm Modes Policy Inode ChunkCache Budget Store FsState Tree Namespace.
From S2P Require Import NamespaceInv NamespaceSpec Effects Data DataSpec FileSpec DataInv ReadDir Commit.
From S2P Require Import WritePath Keeps Durable CommitSpec SyncSpec Whole System Rival Diverge Mount PruneSpec Concrete Demo.
From S2P Require Import DataProps.

Section Props.
Context {Cd : Codec} {W : Type} {St : Store W} {Vw : StoreView W} {Lw : StoreLaws W}
  {Dg : Digest} {Hx : HexDigest} {Ro : RunOrder} {P : Policy} {TC : TypeChecked P}.

(** C4 Every sequence of calls, on any store that keeps its promises and
    whichever of its calls fail, with or without having taken effect, keeps the
    mount and its bucket sound: the namespace is a tree of well-formed files,
    every chunk a file or the root snapshot refers to is stored under its hash,
    the root pointer names a whole filesystem that a mount can load, and a
    namespace not marked dirty is the one it names. *)
Theorem calls_keep_bucket ops f w r f' w' :
  sound f w -> nextIno f + blen ops < 2 ^ 64 -> Forall argsOK ops -> execAll ops (f, w) = (r, (f', w')) -> sound f' w'.
Proof using Lw Hx TC. apply execAll_sound. Qed.

(** ** Durability *)

(** What a fresh mount finds of the mount [f]. *)
Definition sameOnRemount (f g : FS) : Prop :=
  (forall id, inodes f !! id = None -> inodes g !! id = None) /\ forall id, fileAs f g id.

Lemma committed_remount cfg writer t now f1 w1 g w2 :
  configOK cfg -> utf8 writer = true -> sound f1 w1 -> committed f1 w1 -> drained f1 ->
  New cfg writer t now w1 = (Ok g, w2) -> sound g w2 /\ objects w2 = objects w1 /\ sameOnRemount f1 g.
Proof using Lw Hx.
  intros Hcfg Hwr [Hg1 Hh1 _ _] (raw&rp&snap&C1&C2&C3&C4&C5) Hdr Hnew.
  destruct (New_inv cfg writer t now w1 g w2 Hcfg Hwr (h_content _ _ Hh1) (h_root _ _ Hh1) Hnew) as (Hs&Ho&f0&_&Hfi).
  unfold finds in Hfi. rewrite C1 in Hfi. destruct Hfi as (rp'&snap'&L2&F1&F2&F3&F4).
  assert (snap' = snap) as ->.
  { destruct C2 as (A1&_&(b1&A3&A4)&_), L2 as (B1&_&(b2&B3&B4)&_). congruence. }
  split; [done|]. split; [done|]. rewrite C3 in F1. split; [by intros id; rewrite F1|].
  intros id m Hm. exists m. rewrite F1. split; [done|]. split; [done|]. split; [done|]. intros i _.
  unfold contentAt, bufOf. rewrite Ho, lookup_empty, F3, C5. destruct (open f1 !! id) as [o|] eqn:Eo; [|done]. by rewrite (Hdr id o Eo).
Qed.

Lemma Sync_remount cfg writer t t2 now f w f1 w1 g w2 :
  configOK cfg -> utf8 writer = true -> sound f w -> Sync t (f, w) = (Ok tt, (f1, w1)) ->
  New cfg writer t2 now w1 = (Ok g, w2) -> sound g w2 /\ sameOnRemount f g.
Proof using Lw Hx.
  intros Hcfg Hwr [Hg Hh He Hc] Hsy Hnew. destruct (Sync_full t f w _ f1 w1 Hg Hh He Hc Hsy) as [[Hg1 Hh1 He1 Hsc Hc1] Hok].
  destruct (Hok eq_refl) as (Hcom&Hdr&_&_).
  destruct (committed_remount cfg writer t2 now f1 w1 g w2 Hcfg Hwr ltac:(by split) Hcom Hdr Hnew) as (Hs&_&Hgone&Hfile).
  split; [done|]. split; [|intros id; eapply fileAs_trans; [by apply sameContents_file|apply Hfile]].
  intros id Hid. apply Hgone. destruct Hsc as (k&Hsf&Hns). rewrite (ns_inodes _ _ Hns). by apply (sf_gone _ _ Hsf).
Qed.

(** C5 A Sync that succeeds is durable: a mount made of the bucket afterwards,
    by any process and with any configuration, has exactly the inodes the
    syncing mount had when Sync was called, each with its attributes, the
    times included, its size and every byte of its contents, buffered writes and
    truncates included. *)
Theorem Sync_durable cfg writer t t2 now f w f1 w1 g w2 :
  configOK cfg -> utf8 writer = true -> sound f w -> Sync t (f, w) = (Ok tt, (f1, w1)) ->
  New cfg writer t2 now w1 = (Ok g, w2) -> sound g w2 /\ sameOnRemount f g.
Proof using Lw Hx. apply Sync_remount. Qed.

(** A crash loses nothing that was committed, and never leaves a bucket that
    does not mount: stop after any prefix of any sequence of calls, with any
    failures, and a fresh mount whose two reads are answered comes up, sound,
    with the filesystem the root pointer then names. *)
Theorem crash_remounts cfg writer t now ops f w r f' w' raw etag w1 :
  configOK cfg -> ReadOnlyMount cfg = false -> 4096 <= ChunkSize cfg -> 0 <= CommitInterval cfg -> utf8 writer = true ->
  sound f w -> nextIno f + blen ops < 2 ^ 64 -> Forall argsOK ops -> execAll ops (f, w) = (r, (f', w')) ->
  GetWithETag rootKey w' = (Ok (raw, etag), w1) -> etag ≠ "" -> (forall k d, objects w1 !! k = Some d -> (Get k w1).1 = Ok d) ->
  exists g w2 rp snap, New cfg writer t now w' = (Ok g, w2) /\ sound g w2 /\
    objects w' !! rootKey = Some raw /\ loadable w' raw rp snap /\ inodes g = snInodes snap.
Proof using Lw Hx TC.
  intros Hcfg Hro Hcs Hci Hwr Hs Hn Ha Hrun. destruct (execAll_sound ops f w r f' w' Hs Hn Ha Hrun) as [_ [H1 H2 _ _] _ _].
  by apply New_up.
Qed.

(** Sync never harms the mount: whether it succeeds or fails, at whatever
    point, every file has the attributes, size and contents it had, and no
    inode appears or goes. *)
Theorem Sync_keeps_files t f w r f' w' :
  sound f w -> Sync t (f, w) = (r, (f', w')) ->
  sound f' w' /\ (forall id, inodes f !! id = None <-> inodes f' !! id = None) /\ forall id, fileAs f f' id.
Proof using Lw Hx.
  intros Hs Hsy. destruct (Sync_sound t f w r f' w' Hs Hsy) as [[Hs' _] Hsc]. split; [done|].
  split; [|intros id; by apply sameContents_file]. intros id. split.
  - intros Hid. destruct Hsc as (k&Hsf&Hns). rewrite (ns_inodes _ _ Hns). by apply (sf_gone _ _ Hsf).
  - intros Hid. apply eq_None_not_Some. intros [n Hn]. destruct (sameContents_file f f' id Hsc n Hn) as (n'&Hn'&_). congruence.
Qed.

(** Mounting: a mount of a bucket whose root pointer, if it has one, names a
    whole filesystem comes up sound when it comes up at all, with exactly the
    namespace of that snapshot and the bucket untouched, or, on a bucket
    without a root pointer, with an empty root directory, and then never for a
    read-only mount. *)
Theorem New_sound cfg writer t now w g w' :
  configOK cfg -> utf8 writer = true -> contentOK w -> rootOK w -> New cfg writer t now w = (Ok g, w') ->
  sound g w' /\
  match objects w !! rootKey with
  | Some raw => exists rp snap, loadable w raw rp snap /\ inodes g = snInodes snap /\ nextIno g = snNextIno snap /\ objects w' = objects w
  | None => inodes g = {[ rootInodeID := rootInode (OwnerUID cfg) (OwnerGID cfg) now ]} /\ ReadOnlyMount cfg = false
  end.
Proof using Lw Hx.
  intros Hcfg Hwr Hco Hro Hnew. destruct (New_inv cfg writer t now w g w' Hcfg Hwr Hco Hro Hnew) as (Hs&_&f&Hf&Hfi). split; [done|].
  unfold finds in Hfi. destruct (objects w !! rootKey) as [raw|].
  - destruct Hfi as (rp&snap&H1&H2&H3&_&H4). by exists rp, snap.
  - destruct Hfi as [H1 H2]. destruct (fr_owner _ _ _ Hf) as [O1 O2]. rewrite O1, O2 in H1. split; [done|].
    rewrite (fr_mode _ _ _ Hf) in H2. by destruct (ReadOnlyMount cfg).
Qed.

(** ** Compare and swap *)

(** The root pointer through the parts of a flight. *)
Lemma fallback_root s f w r f' w' :
  fallback s (f, w) = (r, (f', w')) ->
  f' = f /\ (objects w' !! rootKey = objects w !! rootKey \/ objects w' !! rootKey = Some (scRpBody s)).
Proof using Lw.
  unfold fallback, bind, attempt, onStore, ret. cbn [fst snd].
  pose proof (put_ok rootKey (scRpBody s) w key_root) as Hpo. pose proof (fun x0 => put_err rootKey (scRpBody s) w x0 key_root) as Hpe.
  destruct (Put rootKey (scRpBody s) w) as [[[]|e'] w2]; cbn [fst snd] in *.
  - pose proof (head_frame rootKey w2) as Hhf. destruct (Head rootKey w2) as [info w3]. cbn [fst snd] in *.
    assert (Hr : objects w3 !! rootKey = Some (scRpBody s)) by (by rewrite Hhf, Hpo, lookup_insert_eq).
    destruct info as [i|?]; [destruct (String.eqb (oiETag i) "")|]; intros [= <- <- <-]; auto.
  - intros [= <- <- <-]. split; [done|]. destruct (Hpe e' eq_refl) as [E|E]; rewrite E; [by left|]. right. apply lookup_insert_eq.
Qed.

Lemma reclaim_root s e f w r f' w' :
  keyOK (scKey s) -> scKey s ≠ rootKey -> reclaim s e (f, w) = (r, (f', w')) -> f' = f /\ objects w' !! rootKey = objects w !! rootKey.
Proof using Lw.
  intros Hne Hk. unfold reclaim, bind, attempt, onStore, ret. cbn [fst snd]. pose proof (get_frame rootKey w) as Hgf.
  destruct (Get rootKey w) as [raw w2]. cbn [fst snd] in *.
  match goal with |- context [if ?b then _ else _] => destruct b end; cbn [fst snd].
  - pose proof (del_ok (scKey s) w2 Hne) as Hdo. pose proof (fun x0 => del_err (scKey s) w2 x0 Hne) as Hde. destruct (Delete (scKey s) w2) as [dr w3]. cbn [fst snd] in *.
    intros [= <- <- <-]. split; [done|]. rewrite <- Hgf.
    assert (Hc : objects w3 = objects w2 \/ objects w3 = delete (scKey s) (objects w2)) by (destruct dr as [[]|e']; [right; by apply Hdo|by apply (Hde e')]).
    destruct Hc as [->| ->]; [done|by rewrite lookup_delete_ne].
  - intros [= <- <- <-]. split; [done|]. by rewrite Hgf.
Qed.

(** The condition the swap is made under. *)
Definition expects (s : sealedCommit) (w : W) : Prop :=
  etagOf w rootKey = if String.eqb (scRootETag s) "" then None else Some (scRootETag s).

Lemma swapRoot_root s f w r f' w' :
  keyOK (scKey s) -> scKey s ≠ rootKey -> swapRoot s (f, w) = (r, (f', w')) ->
  f' = f /\ (objects w' !! rootKey = objects w !! rootKey \/
    (objects w' !! rootKey = Some (scRpBody s) /\ (allowUnconditionalRoot (cf f) = true \/ expects s w))).
Proof using Lw.
  intros Hne Hk. unfold swapRoot. unfold bind at 1, attempt, onStore. cbn [fst snd].
  pose proof (fun x0 => pim_ok rootKey (scRpBody s) (scRootETag s) w x0 key_root) as Hok. pose proof (fun x0 => pim_err rootKey (scRpBody s) (scRootETag s) w x0 key_root) as Herr.
  destruct (PutIfMatch rootKey (scRpBody s) (scRootETag s) w) as [[etag|e] w1]; cbn [fst snd] in *; unfold bind at 1, getFS; cbn [fst snd].
  - destruct (Hok etag eq_refl) as (He&Ho&_). intros Hrun.
    assert (f' = f /\ w' = w1) as [-> ->] by (destruct (String.eqb etag ""); by injection Hrun as <- <- <-).
    split; [done|]. right. rewrite Ho, lookup_insert_eq. auto.
  - assert (H1 : objects w1 !! rootKey = objects w !! rootKey \/ (objects w1 !! rootKey = Some (scRpBody s) /\ expects s w)).
    { destruct (Herr e eq_refl) as [[-> _]|(He&Ho)]; [by left|]. right. by rewrite Ho, lookup_insert_eq. }
    clear Hok Herr. revert H1. generalize (expects s w). intros X H1.
    assert (Hend : forall w2, objects w2 !! rootKey = objects w1 !! rootKey -> objects w2 !! rootKey = objects w !! rootKey \/
      (objects w2 !! rootKey = Some (scRpBody s) /\ (allowUnconditionalRoot (cf f) = true \/ X))).
    { intros w2 ->. destruct H1 as [?|[? ?]]; auto. }
    destruct (errIs e ErrPrecondition); [intros [= <- <- <-]; auto|].
    destruct (errIs e ErrUnsupported); [|intros [= <- <- <-]; auto]. unfold fallbackAllowed. destruct (allowUnconditionalRoot (cf f)) eqn:Ea.
    + intros Hrun. apply fallback_root in Hrun as [-> [Hr|Hr]]; (split; [done|]); [by apply Hend|]. right. auto.
    + intros Hrun. apply reclaim_root in Hrun as [-> Hr]; [|done..]. split; [done|]. by apply Hend.
Qed.

(** C10 The root pointer moves by compare and swap: a commit that is in flight
    leaves it as it was, or at the root this commit sealed; and it moves it
    only when the pointer's ETag is still the one this mount last saw (none for
    none), unless the operator vouched that there is no other writer. So two
    mounts never overwrite each other's commits, whatever replies are lost. *)
Theorem commit_compares_and_swaps nonce now1 now2 now f s g w r g' w' :
  seal nonce now1 now2 f = Ok s -> commitSealed s now (g, w) = (r, (g', w')) ->
  objects w' !! rootKey = objects w !! rootKey \/
  (objects w' !! rootKey = Some (scRpBody s) /\
   (allowUnconditionalRoot (cf g) = true \/ etagOf w rootKey = if String.eqb (rootETag f) "" then None else Some (rootETag f))).
Proof using Lw.
  intros Hseal. assert (Hs : scRootETag s = rootETag f /\ scKey s ≠ rootKey /\ keyOK (scKey s)).
  { unfold seal in Hseal. destruct (anyUnsettled f); [done|]. injection Hseal as <-. split; [done|]. split; [done|apply key_snapshot]. }
  destruct Hs as (<-&Hk&Hne). fold (expects s w). unfold commitSealed, settleDoubt. unfold bind at 1, attempt, onStore. simpl.
  pose proof (put_ok (scKey s) (scBody s) w Hne) as Hpo. pose proof (fun x0 => put_err (scKey s) (scBody s) w x0 Hne) as Hpe.
  pose proof (put_etags (scKey s) (scBody s) w rootKey Hne Hk) as Het.
  destruct (Put (scKey s) (scBody s) w) as [pr w1]. simpl in *.
  assert (H1 : objects w1 !! rootKey = objects w !! rootKey).
  { assert (Hc : objects w1 = objects w \/ objects w1 = <[scKey s := scBody s]> (objects w)) by (destruct pr as [[]|e]; [right; by apply Hpo|by apply (Hpe e)]).
    destruct Hc as [->| ->]; [done|by rewrite lookup_insert_ne]. }
  destruct pr as [[]|e]; [|intros [= <- <- <-]; by left].
  intros Hrun. apply bind_inv in Hrun as [(out&[f2 w2]&Hsw&Hrun)|(e&Hsw&_)]; destruct (swapRoot_root s g w1 _ _ _ Hne Hk Hsw) as [-> Hroot];
    unfold expects in Hroot; rewrite Het, H1 in Hroot; [|done].
  assert (Hw : objects w' !! rootKey = objects w2 !! rootKey); [|by rewrite Hw].
  destruct out as [etag|oldErr u fl|e]; [by rewrite <- (f_equal (fun x => snd (snd x)) Hrun : w2 = w')| |
    by rewrite <- (f_equal (fun x => snd (snd x)) Hrun : w2 = w')].
  rewrite (bind_ok _ _ _ g (g, w2)) in Hrun by done. destruct (fireRoot (rootKnowledge g) rootSwapUnknown) as [k ok].
  destruct ok; cbn [negb] in Hrun; [|destruct oldErr; by rewrite <- (f_equal (fun x => snd (snd x)) Hrun : w2 = w')].
  rewrite (bind_ok _ _ _ tt (set_rootKnowledge k (set_doubtKey (scKey s) g), w2)) in Hrun by done.
  apply bind_inv in Hrun as [(v&[f3 w3]&Hrr&Hrun)|(e&Hrr&->)]; destruct (resolveRoot_spec _ _ _ _ _ Hrr) as (Ho&_); [|by rewrite Ho].
  destruct v; by rewrite <- (f_equal (fun x => snd (snd x)) Hrun : w3 = w'), Ho.
Qed.

(** C29 A commit whose reply is lost is settled, not failed: if the swap of the
    root pointer took effect but answered an error, and the read that follows
    is answered, the commit succeeds, knows the pointer's ETag, and the mount
    is clean but for changes made since the seal. *)
Theorem lost_reply_settles nonce now1 now2 now f s w w1 w2 w3 e etag :
  good f -> drained f -> encodable f -> seal nonce now1 now2 f = Ok s -> rootKnowledge f = rootKnown ->
  Put (scKey s) (scBody s) w = (Ok tt, w1) -> PutIfMatch rootKey (scRpBody s) (scRootETag s) w1 = (Err e, w2) ->
  errIs e ErrUnsupported = false ->
  GetWithETag rootKey w2 = (Ok (scRpBody s, etag), w3) -> etag ≠ "" ->
  exists f', commitSealed s now (f, w) = (Ok tt, (f', w3)) /\ rootETag f' = etag /\ rootSnapshot f' = scKey s /\
    rootKnowledge f' = rootKnown /\ mode f' = mode f /\ dirty f' = false.
Proof using Hx.
  intros Hg Hdr He Hseal Hk Hput Hpim Hsup Hgwe Het.
  destruct (seal_spec f nonce now1 now2 s Hg Hdr He Hseal) as ([_ _ (rp&R1&R2&R3)]&_&_&_&Hch&Hkey&_).
  set (g := set_rootKnowledge rootInDoubt (set_doubtKey (scKey s) f)).
  assert (Hset : settleRoot (Ok (scRpBody s, etag)) g = (probeOurs,
     set_doubtKey "" (set_rootSnapshot (scKey s) (set_rootETag etag (set_epoch (rpEpoch rp) (set_rootKnowledge rootKnown g)))))).
  { unfold settleRoot, classifyRoot. rewrite R1, R2, R3. unfold g. cbn [doubtKey set_doubtKey set_rootKnowledge rootSnapshot rootKnowledge].
    rewrite String.eqb_refl, fireRoot_spec. destruct (String.eqb_spec (scKey s) "") as [E|]; [rewrite Hkey in E; done|].
    destruct (String.eqb_spec etag ""); done. }
  set (g2 := set_doubtKey "" _) in Hset.
  assert (Hrr : resolveRoot (g, w2) = (Ok probeOurs, (g2, w3))).
  { unfold resolveRoot, bind, attempt, onStore, onFS. cbn [snd fst]. rewrite Hgwe. cbn [snd fst]. by rewrite Hset. }
  assert (Hsw : exists o u x, swapRoot s (f, w1) = (Ok (Doubtful o u x), (f, w2))).
  { unfold swapRoot, bind, attempt, onStore, getFS, ret. cbn [snd fst]. rewrite Hpim. cbn [snd fst]. rewrite Hsup.
    destruct (errIs e ErrPrecondition); eauto. }
  destruct Hsw as (o&u&x&Hsw). exists (applyLocked s (rootETag g2) now g2). split.
  - unfold commitSealed, settleDoubt. unfold bind at 1, attempt, onStore. cbn [snd fst]. rewrite Hput. rewrite (bind_ok _ _ _ _ _ Hsw).
    rewrite (bind_ok _ _ _ f (f, w2)) by done. rewrite Hk, fireRoot_spec. cbn [negb].
    rewrite (bind_ok _ _ _ tt (g, w2)) by done. by rewrite (bind_ok _ _ _ _ _ Hrr).
  - destruct (applyLocked_spec s (rootETag g2) now g2) as (_&H1&_&H2&H3&H4&H5). split; [done|]. split; [done|]. split; [done|]. split; [done|].
    rewrite H4. change (changes g2) with (changes f). by rewrite Hch, Z.eqb_refl.
Qed.

Lemma marks_changes k f : is_u64 (changes f) -> changes (Nat.iter k markDirty f) = u64 (changes f + Z.of_nat k).
Proof using Type.
  intros Hu. induction k as [|k IH]; [simpl; rewrite Z.add_0_r; symmetry; by apply u64_id|].
  simpl Nat.iter. unfold markDirty at 1. simpl. rewrite IH. unfold u64. rewrite Zplus_mod_idemp_l. f_equal. lia.
Qed.

(** A change made while a commit is in flight is not lost: if between the
    seal and the end of the flight the namespace was marked changed any number
    of times short of 2^64, the mount is still dirty after it, and so commits
    again; if it was not, the mount is clean. *)
Theorem flight_keeps_changes nonce now1 now2 f s k etag now g :
  is_u64 (changes f) -> seal nonce now1 now2 f = Ok s -> Z.of_nat k < 2 ^ 64 ->
  changes g = changes (Nat.iter k markDirty f) -> dirty (applyLocked s etag now g) = negb (bool_decide (k = 0%nat)).
Proof using Type.
  intros Hu Hseal Hk Hch. destruct (applyLocked_spec s etag now g) as (_&_&_&_&_&->&_).
  assert (scChanges s = changes f) as ->. { unfold seal in Hseal. destruct (anyUnsettled f); [done|]. by injection Hseal as <-. }
  rewrite Hch, marks_changes by done. f_equal. unfold u64, is_u64 in *.
  destruct (Z.eqb_spec ((changes f + Z.of_nat k) mod 2 ^ 64) (changes f)) as [E|E]; symmetry.
  - apply bool_decide_true. destruct (decide (changes f + Z.of_nat k < 2 ^ 64)); [rewrite Z.mod_small in E by lia; lia|].
    rewrite <- (Z.mod_unique (changes f + Z.of_nat k) (2 ^ 64) 1 (changes f + Z.of_nat k - 2 ^ 64)) in E by lia. lia.
  - apply bool_decide_false. intros ->. rewrite Z.add_0_r, Z.mod_small in E by lia. done.
Qed.

(** Sealing refuses a namespace exactly when a file of it is unsettled since a
    truncate, and otherwise seals that namespace: the snapshot decodes to its
    inodes, next inode number and chunk size at the next epoch, and the root
    pointer to the snapshot's key. *)
Theorem seal_faithful nonce now1 now2 f :
  good f -> encodable f ->
  match seal nonce now1 now2 f with
  | Err _ => exists id o, open f !! id = Some o /\ ofUnsettled o = true
  | Ok s =>
      (forall id o, open f !! id = Some o -> ofUnsettled o = false) /\
      (exists snap, decodeSnapshot (scBody s) = Some snap /\ snInodes snap = inodes f /\ snNextIno snap = nextIno f /\
         snChunkSize snap = chunkSize (cf f) /\ snEpoch snap = u64 (epoch f + 1)) /\
      (exists rp, unmarshalRoot (scRpBody s) = Some rp /\ rpSnapshot rp = scKey s /\ rpEpoch rp = u64 (epoch f + 1) /\ rpFSID rp = fsid f)
  end.
Proof using Hx.
  intros Hg He. unfold seal. destruct (anyUnsettled f) eqn:Eu; unfold anyUnsettled in Eu.
  - apply bool_decide_eq_true in Eu. destruct Eu as (id&o&H1&H2). by exists id, o.
  - apply bool_decide_eq_false in Eu. cbn [scBody scRpBody scKey]. split; [|split].
    + intros id o Ho. destruct (ofUnsettled o) eqn:E; [|done]. destruct Eu. by exists id, o.
    + exists (snapshotOf f now1). split; [|done]. apply Durable.decode_encode. apply encodable_text; [apply Hg|done].
    + eexists. rewrite root_roundtrip; [done|apply snapshotKey_utf8|apply He].
Qed.

(** Decoding a snapshot gives back what was encoded, empty directories
    included, as long as its names, link targets and hashes are valid UTF-8. *)
Theorem snapshot_roundtrip s :
  (forall id n, snInodes s !! id = Some n -> textOK n) -> decodeSnapshot (encodeSnapshot s) = Some s.
Proof using Type. apply Durable.decode_encode. Qed.

(** ** Pruning *)

(** C27 A pruning pass never deletes what is in use: while the root pointer names
    a snapshot not older than the one the pass was started for, the mount and
    its bucket stay sound, the root pointer and every chunk stay as they are,
    and so does every snapshot from that one on. *)
Theorem prune_keeps_root fuel current f w r f' w' :
  sound f w -> prunePass fuel current (f, w) = (r, (f', w')) ->
  (forall raw rp, objects w !! rootKey = Some raw -> unmarshalRoot raw = Some rp -> ~ strLt (rpSnapshot rp) current) ->
  sound f' w' /\ objects w' !! rootKey = objects w !! rootKey /\ (forall h, objects w' !! chunkKey h = objects w !! chunkKey h) /\
  (forall k, ~ strLt k current -> objects w' !! k = objects w !! k).
Proof using Lw.
  intros [Hg Hh He Hc] Hrun Hroot. destruct (prunePass_spared fuel current f w r f' w' Hrun) as [-> Hsp].
  destruct (spared_held current f w w' Hh Hsp Hroot) as [Hh' Hld]. destruct Hsp as [S1 S2].
  split; [|split; [by apply S1|split; [intros h; by apply S1|done]]]. split.
  - destruct Hg as [Hw Hd]. split; [by destruct Hw|by destruct Hd].
  - by destruct Hh'.
  - done.
  - intros Hcl. destruct (Hc Hcl) as (raw&rp&snap&C1&C2&C3). exists raw, rp, snap. destruct (Hld raw rp snap C1 C2). done.
Qed.

End Props.

(** Which snapshots a pass deletes: of the keys older than the current one,
    all but the newest [keep]; what it spares of them is never older than what
    it deletes. *)
Theorem prunable_oldest keys current keep :
  exists rest, let below := filter (fun k => strLt k current) keys in
    prunable keys current keep ++ rest ≡ₚ below /\
    (forall p q, p ∈ prunable keys current keep -> q ∈ rest -> strLe p q) /\
    blen rest = Z.min (blen below) (Z.max 0 keep).
Proof. apply prunable_split. Qed.

(** Snapshot keys sort as their epochs do, whatever their nonces, so the
    order pruning works with is the order in which the commits were made. *)
Theorem snapshotKey_order e e' n n' : 0 <= e < e' -> e' < 2 ^ 64 -> strLt (snapshotKey e n) (snapshotKey e' n').
Proof. apply snapshotKey_lt. Qed.

(** C40 A read-only mount cannot change its bucket: behind the wrapper New gives
    it, no call of the filesystem, mounting, Sync and pruning included, changes
    any object, whatever it answers. *)
Theorem readonly_changes_nothing {Cd : Codec} {W} {St : Store W} {Vw : StoreView W} {Lw : StoreLaws W} {Dg : Digest} {Ro : RunOrder} {P : Policy}
    f w c h off count data how ts now t fuel current :
  objects (loadOrInit (St := ReadOnly St) t now (f, w)).2.2 = objects w /\
  objects (Read (St := ReadOnly St) c h off count (f, w)).2.2 = objects w /\
  objects (Write (St := ReadOnly St) c h off data how ts now t (f, w)).2.2 = objects w /\
  objects (Commit (St := ReadOnly St) h t (f, w)).2.2 = objects w /\
  objects (Sync (St := ReadOnly St) t (f, w)).2.2 = objects w /\
  objects (prunePass (St := ReadOnly St) fuel current (f, w)).2.2 = objects w.
Proof.
  pose proof (readonly_keeps (St := St) (objects w)) as Hk.
  pose proof (bucket_framed _ Hk) as Hf. pose proof (Sync_keeps _ Hf _ (rooted_committing _ (bucket_rooted _ Hk))) as Hc. pose proof (bucket_view (W := W) (fun w0 => objects w0 = objects w)) as Hv.
  split; [exact (loadOrInit_keeps _ Hk t now (f, w) eq_refl)|]. split; [exact (Read_keeps _ Hf c h off count (f, w) eq_refl)|].
  split; [refine (Write_keeps _ Hf _ Hc (fun b f0 w0 => Hv f0 (set_budget b f0) w0 eq_refl) c h off data how ts now t _ I (f, w) eq_refl); by apply list.Forall_forall|].
  split; [exact (Commit_keeps _ Hf _ Hc h t I (f, w) eq_refl)|].
  split; [exact (Hc t I (f, w) eq_refl)|exact (prunePass_keeps _ Hk fuel current (f, w) eq_refl)].
Qed.

(** Handles round trip: a handle made of an inode number and a generation
    decodes to them, and a handle that decodes is the one made of what it
    decodes to, so no two handles name the same inode. *)
Theorem handle_roundtrip :
  (forall id gen, is_u64 id -> is_u64 gen -> decodeHandle (encodeHandle id gen) = Some (id, gen)) /\
  (forall h id gen, decodeHandle h = Some (id, gen) -> encodeHandle id gen = h).
Proof. split; [apply decode_encode_handle|]. intros h id gen Hd. by apply encode_decode_handle in Hd as (?&_&_). Qed.

(** The names the filesystem accepts are not all names its snapshots can
    carry: a name with a byte that is not UTF-8 passes validName. *)
Theorem validName_accepts_invalid_text : exists x, validName x = None /\ utf8 x = false.
Proof. exists (String (ascii_of_nat 255) ""). split; vm_compute; reflexivity. Qed.

(** ** Witnesses *)

Lemma sound_world f w w' : sound f w -> Bucket.objs w' = Bucket.objs w -> sound f w'.
Proof.
  intros Hs E. pose proof Hs as [Hg Hh _ _]. assert (Hga : gained w w') by (apply gained_same; [exact E|apply Hh]).
  apply (aside_sound f f w w' Hs (aside_refl f) Hg); [|done]. eapply held_gained; [exact Hh|exact Hga|done|by left].
Qed.

Definition withScript (l : list Bucket.fault) (w : Bucket.world) : Bucket.world := Bucket.mkWorld (Bucket.objs w) l.

Lemma withScript_sound f w l : sound f w -> sound f (withScript l w).
Proof. intros Hs. by apply (sound_world f w). Qed.

(** The bucket of [writtenTo], about to fail two writes. *)
Definition flaky : Bucket.world := withScript [Bucket.FailBefore; Bucket.ReplyLost] writtenTo.2.

Definition crashCalls : list sysop :=
  [ CallSync (tk 3); CallNs (NRemove owner rootHandle "nothing" 60); CallWrite owner fileHandle 0 hello DataSync [] 61 (tk 4) ].

Definition crashed : FS * Bucket.world := (execAll crashCalls (writtenTo.1, flaky)).2.

Lemma flaky_sound : sound writtenTo.1 flaky.
Proof. exact (withScript_sound writtenTo.1 writtenTo.2 [Bucket.FailBefore; Bucket.ReplyLost] writtenTo_sound). Qed.

Lemma crashCalls_ok : Forall argsOK crashCalls.
Proof. repeat constructor; vm_compute; discriminate. Qed.

Lemma crashed_run : execAll crashCalls (writtenTo.1, flaky) = (Ok tt, (crashed.1, crashed.2)).
Proof. run_reply. Qed.

Lemma calls_keep_bucket_witness : sound crashed.1 crashed.2.
Proof.
  exact (calls_keep_bucket crashCalls writtenTo.1 flaky (Ok tt) crashed.1 crashed.2 flaky_sound ltac:(run_it) crashCalls_ok crashed_run).
Defined.

Definition synced : FS * Bucket.world := (Sync (tk 3) (writtenTo.1, writtenTo.2)).2.
Definition remounted : FS * Bucket.world := cameUp demo (New smallConfig "host/2" (tk 4) 99 synced.2).

Lemma synced_run : Sync (tk 3) (writtenTo.1, writtenTo.2) = (Ok tt, (synced.1, synced.2)).
Proof. run_reply. Qed.

Lemma remounted_run : New smallConfig "host/2" (tk 4) 99 synced.2 = (Ok remounted.1, remounted.2).
Proof. apply (run_cameUp demo _ remounted); [reflexivity|run_it]. Qed.

Lemma Sync_durable_witness : fileAs writtenTo.1 remounted.1 2.
Proof.
  pose proof (Sync_durable smallConfig "host/2" (tk 3) (tk 4) 99 writtenTo.1 writtenTo.2 synced.1 synced.2 remounted.1 remounted.2
    smallConfig_ok eq_refl writtenTo_sound synced_run remounted_run) as H.
  exact (proj2 (proj2 H) 2).
Defined.

(** The byte written before the Sync, read from the bucket after the remount. *)
Example remounted_byte : okValue ([], false) (Read owner fileHandle 10 1 (remounted.1, remounted.2)).1 = ([x68], false).
Proof. run_it. Qed.

Definition crashRoot : bytes := default [] (Bucket.objs crashed.2 !! rootKey).

Lemma crash_remounts_witness :
  exists g w2 rp snap, New smallConfig "host/3" (tk 9) 99 crashed.2 = (Ok g, w2) /\ sound g w2 /\
    loadable crashed.2 crashRoot rp snap /\ inodes g = snInodes snap.
Proof.
  assert (Hgwe : GetWithETag rootKey crashed.2 = (Ok (crashRoot, Bucket.etag crashRoot), crashed.2)).
  { apply (Bucket.getWithETag_at rootKey crashed.2). run_it. }
  assert (Hget : forall k d, objects crashed.2 !! k = Some d -> (Get k crashed.2).1 = Ok d).
  { intros k d Hk. change (objects crashed.2) with (Bucket.objs crashed.2) in Hk.
    change (Get k crashed.2) with (Bucket.get k crashed.2). unfold Bucket.get. cbn [fst]. by rewrite Hk. }
  pose proof (crash_remounts smallConfig "host/3" (tk 9) 99 crashCalls writtenTo.1 flaky (Ok tt) crashed.1 crashed.2 crashRoot (Bucket.etag crashRoot) crashed.2
    smallConfig_ok eq_refl ltac:(vm_compute; discriminate) ltac:(vm_compute; discriminate) eq_refl flaky_sound ltac:(run_it) crashCalls_ok crashed_run
    Hgwe ltac:(discriminate) Hget) as (g&w2&rp&snap&H1&H2&_&H3&H4).
  exists g, w2, rp, snap. auto.
Defined.

Definition failedSync : FS * Bucket.world := (Sync (tk 3) (writtenTo.1, flaky)).2.

Lemma Sync_keeps_files_witness : is_ok (Sync (tk 3) (writtenTo.1, flaky)).1 = false /\ fileAs writtenTo.1 failedSync.1 2.
Proof.
  assert (Hrun : Sync (tk 3) (writtenTo.1, flaky) = ((Sync (tk 3) (writtenTo.1, flaky)).1, (failedSync.1, failedSync.2))) by run_all.
  pose proof (Sync_keeps_files (tk 3) writtenTo.1 flaky _ failedSync.1 failedSync.2 flaky_sound Hrun) as H.
  split; [run_it|exact (proj2 (proj2 H) 2)].
Defined.

Lemma New_sound_witness : inodes mounted.1 = {[ rootInodeID := rootInode 1000 1000 7 ]}.
Proof.
  pose proof (New_sound smallConfig "host/1" (tk 1) 7 noBucket mounted.1 mounted.2 smallConfig_ok eq_refl noBucket_content noBucket_root mounted_run) as H.
  exact (proj1 (proj2 H)).
Defined.

(** A sealed commit of the mount with the new file. *)
Definition noSeal : sealedCommit := mkSealed 0 "" [] [] "" 0.
Definition sealed : sealedCommit := okValue noSeal (seal [x01] 1 2 withFile).

Lemma sealed_run : seal [x01] 1 2 withFile = Ok sealed.
Proof. apply is_ok_value. run_it. Qed.

Lemma withFile_drained : drained withFile.
Proof. intros id o H. assert (E : open withFile = ∅) by run_it. rewrite E, lookup_empty in H. discriminate H. Qed.

(** Another mount committed first. *)
Definition rivalFS : FS := (perform mounted.1 (NMkdir owner rootHandle "d" noSetAttr 40 41)).2.
Definition rival : FS * Bucket.world := (Sync (tk 8) (rivalFS, mounted.2)).2.

Lemma commit_compares_and_swaps_witness :
  let r := commitSealed sealed 3 (withFile, rival.2) in objects r.2.2 !! rootKey = objects rival.2 !! rootKey.
Proof.
  intros r. assert (Hrun : commitSealed sealed 3 (withFile, rival.2) = (r.1, (r.2.1, r.2.2))) by run_all.
  destruct (commit_compares_and_swaps [x01] 1 2 3 withFile sealed withFile rival.2 _ _ _ sealed_run Hrun) as [H|(_&[H|H])].
  - exact H.
  - vm_compute in H. discriminate H.
  - vm_compute in H. discriminate H.
Defined.

(** The reply of the swap is lost. *)
Definition lossy : Bucket.world := withScript [Bucket.Normal; Bucket.ReplyLost] mounted.2.
Definition lossy1 : Bucket.world := (Bucket.put (scKey sealed) (scBody sealed) lossy).2.
Definition lossy2 : Bucket.world := (Bucket.putIfMatch rootKey (scRpBody sealed) (scRootETag sealed) lossy1).2.

Lemma lost_reply_settles_witness : exists f', commitSealed sealed 3 (withFile, lossy) = (Ok tt, (f', lossy2)) /\ dirty f' = false.
Proof.
  destruct withFile_sound as [Hg _ He _].
  assert (H1 : Put (scKey sealed) (scBody sealed) lossy = (Ok tt, lossy1)) by run_reply.
  assert (H2 : PutIfMatch rootKey (scRpBody sealed) (scRootETag sealed) lossy1 = (Err Bucket.lost, lossy2)) by run_reply.
  assert (H3 : GetWithETag rootKey lossy2 = (Ok (scRpBody sealed, Bucket.etag (scRpBody sealed)), lossy2)) by run_it.
  assert (Hk : rootKnowledge withFile = rootKnown) by run_it.
  pose proof (lost_reply_settles [x01] 1 2 3 withFile sealed lossy lossy1 lossy2 lossy2 Bucket.lost (Bucket.etag (scRpBody sealed))
    Hg withFile_drained He sealed_run Hk H1 H2 eq_refl H3 ltac:(discriminate)) as (f'&H4&_&_&_&_&H5).
  exists f'. split; [exact H4|exact H5].
Defined.

Lemma flight_keeps_changes_witness :
  dirty (applyLocked sealed "e" 3 (markDirty withFile)) = true /\ dirty (applyLocked sealed "e" 3 withFile) = false.
Proof.
  assert (Hu : is_u64 (changes withFile)) by (vm_compute; split; [discriminate|reflexivity]). split.
  - exact (flight_keeps_changes [x01] 1 2 withFile sealed 1 "e" 3 (markDirty withFile) Hu sealed_run ltac:(reflexivity) ltac:(run_it)).
  - exact (flight_keeps_changes [x01] 1 2 withFile sealed 0 "e" 3 withFile Hu sealed_run ltac:(reflexivity) ltac:(run_it)).
Defined.

Lemma seal_faithful_witness : exists snap, decodeSnapshot (scBody sealed) = Some snap /\ snInodes snap = inodes withFile.
Proof.
  destruct withFile_sound as [Hg _ He _]. pose proof (seal_faithful [x01] 1 2 withFile Hg He) as H. rewrite sealed_run in H.
  destruct H as (_&(snap&H1&H2&_)&_). exists snap. split; [exact H1|exact H2].
Defined.

Lemma snapshot_roundtrip_witness : decodeSnapshot (encodeSnapshot (snapshotOf withFile 5)) = Some (snapshotOf withFile 5).
Proof.
  apply snapshot_roundtrip. destruct withFile_sound as [Hg _ He _]. exact (encodable_text withFile (proj2 Hg) He).
Defined.

Definition pruned : result unit * (FS * Bucket.world) := prunePass 3 (rootSnapshot synced.1) (synced.1, synced.2).

Definition rootOf (w : Bucket.world) : rootPointer := default noRoot ((objects w !! rootKey) ≫= unmarshalRoot).

Lemma rootOf_spec w raw rp : objects w !! rootKey = Some raw -> unmarshalRoot raw = Some rp -> rp = rootOf w.
Proof. intros H1 H2. unfold rootOf. rewrite H1. change (Some raw ≫= unmarshalRoot) with (unmarshalRoot raw). by rewrite H2. Qed.

Lemma rootOf_at w (raw := default [] (objects w !! rootKey)) :
  bool_decide (is_Some ((objects w !! rootKey) ≫= unmarshalRoot)) = true -> objects w !! rootKey = Some raw /\ unmarshalRoot raw = Some (rootOf w).
Proof.
  unfold raw, rootOf. rewrite bool_decide_eq_true. destruct (objects w !! rootKey) as [b|]; [|by intros []].
  change (Some b ≫= unmarshalRoot) with (unmarshalRoot b). intros [rp Hrp]. cbn [default]. by rewrite Hrp.
Qed.

Lemma synced_root : rpSnapshot (rootOf synced.2) = rootSnapshot synced.1.
Proof. run_it. Qed.

Lemma prune_keeps_root_witness : sound pruned.2.1 pruned.2.2 /\ objects pruned.2.2 !! rootKey = objects synced.2 !! rootKey.
Proof.
  assert (Hrun : prunePass 3 (rootSnapshot synced.1) (synced.1, synced.2) = (pruned.1, (pruned.2.1, pruned.2.2))) by run_all.
  pose proof (proj1 (Sync_sound (tk 3) _ _ _ _ _ writtenTo_sound synced_run)) as Hs.
  assert (Hroot : forall raw rp, objects synced.2 !! rootKey = Some raw -> unmarshalRoot raw = Some rp -> ~ strLt (rpSnapshot rp) (rootSnapshot synced.1)).
  { intros raw rp H1 H2. rewrite (rootOf_spec synced.2 raw rp H1 H2). intros [_ H]. apply H. exact synced_root. }
  pose proof (prune_keeps_root 3 (rootSnapshot synced.1) synced.1 synced.2 _ _ _ (proj1 Hs) Hrun Hroot) as (H1&H2&_).
  split; [exact H1|exact H2].
Defined.

(** The mount as it was before its Sync, beside the one that made it: a rival
    that draws nonces of two bytes. *)
Definition rivalTick : tick := mkTick [x09; x09] 70 71 72.
Definition rivalCalls : list sysop := [CallNs (NRemove owner rootHandle "nothing" 60); CallSync rivalTick].
Definition rivalRun : result unit * (FS * Bucket.world) := execAll rivalCalls (writtenTo.1, synced.2).

Lemma writtenTo_stale : stale (fun n => length n = 2%nat) writtenTo.1 synced.2.
Proof.
  split; [|apply (bool_decide_eq_true_1 _); run_it|left; run_it]. exists (default [] (objects synced.2 !! rootKey)), (rootOf synced.2).
  destruct (rootOf_at synced.2 ltac:(run_it)) as [H1 H2]. split; [exact H1|]. split; [exact H2|]. split; [run_it|].
  split; [apply (bool_decide_eq_true_1 _); run_it|]. split; [|apply (bool_decide_eq_true_1 _); run_it].
  intros (e&n&Hn&Hk). assert (Hl : String.length (rpSnapshot (rootOf synced.2)) = 41%nat) by run_it. rewrite Hk, snapshotKey_length, Hn in Hl. discriminate Hl.
Qed.

Lemma rival_harmless_witness : is_ok (Sync rivalTick rivalRun.2).1 = false /\ sound synced.1 rivalRun.2.2 /\
  objects rivalRun.2.2 !! rootKey = objects synced.2 !! rootKey.
Proof.
  assert (Hrun : execAll rivalCalls (writtenTo.1, synced.2) = (rivalRun.1, (rivalRun.2.1, rivalRun.2.2))) by run_all.
  pose proof (proj1 (proj1 (Sync_sound (tk 3) _ _ _ _ _ writtenTo_sound synced_run))) as Hs.
  assert (Hd : Forall (opDrawn (fun n => length n = 2%nat)) rivalCalls) by (repeat constructor).
  pose proof (rival_harmless (fun n => length n = 2%nat) synced.1 writtenTo.1 synced.2 rivalCalls _ _ _ Hs writtenTo_stale ltac:(run_it) Hd Hrun) as (H1&_&H3&_).
  split; [run_it|]. split; [exact H1|exact H3].
Defined.


Lemma snapshotKey_order_witness : strLt (snapshotKey 9 [x01]) (snapshotKey 10 []).
Proof. apply snapshotKey_order; [lia|reflexivity]. Defined.

Lemma readonly_changes_nothing_witness : objects (Sync (St := ReadOnly Bucket.bucket_store) (tk 3) (writtenTo.1, writtenTo.2)).2.2 = objects writtenTo.2.
Proof.
  exact (proj1 (proj2 (proj2 (proj2 (proj2 (readonly_changes_nothing writtenTo.1 writtenTo.2 owner fileHandle 0 0 [] Unstable [] 0 (tk 3) 0%nat "")))))).
Defined.
