(* ===== verification/HoldProps.v ===== *)
(** * What holds of every interleaving

    Any number of READ, WRITE, SETATTR, COMMIT and namespace calls and of Syncs,
    their steps interleaved in any order, from a mount nobody has called yet.
    The states of a run, less what calls have half done, form a sequence of
    states of the sequential filesystem; a call moves it at most once, by its own
    operation whole; every answer is explained by the steps its call made; some
    call can always step until all have returned; the budget is charged for what
    is buffered and no more; and the bucket can be mounted at every step. *)

From Stdlib Require Import Strings.Byte.
From stdpp Require Import sorting.
From S2P Require Import Prelude Prog Vfs Fsm Modes Policy Inode ChunkCache Budget Store FsState Tree Namespace.
From S2P Require Import NamespaceInv NamespaceSpec Drops Effects Data DataSpec FileSpec DataInv ReadDir Commit WritePath Durable.
From S2P Require Import CommitSpec SyncSpec Whole System Locks Hold HoldInv HoldSteps HoldFile HoldOps HoldCommit HoldRules.
From S2P Require Import HoldRead HoldFlush HoldWrite HoldSync HoldCall Mount Concrete Demo.

(** A mount as it comes up: no file is open and nobody waits for the budget. *)
Definition unused (f : FS) : Prop := open f = ∅ /\ Budget.inv (budget f) ∅.

Section Props.
Context {Cd : Codec} {W : Type} {St : Store W} {Vw : StoreView W} {Lw : StoreLaws W}
  {Dg : Digest} {Hx : HexDigest} {Ro : RunOrder} {P : Policy} {TC : TypeChecked P}.
Abbreviation shared := (shared W).
Abbreviation pool := (sys shared request reply).

(** ** The invariant at the start, and where a call is made *)

Lemma J_call K (s : shared) C a : J K s C a -> J K s (C ++ [idle]) a.
Proof using Type.
  intros [[F1 F2 F3 F4 F5 F6 F7 F8 F9 F10 F11 F12 F13 F14] HL HC HA [S1 S2 S3 S4]].
  assert (Hin : forall t c, (C ++ [idle]) !! t = Some c -> C !! t = Some c \/ c = idle).
  { intros t c H. apply lookup_app_Some in H as [?|[_ H]]; [by left|right]. destruct (t - length C)%nat; [by injection H|done]. }
  split.
  - split; try done.
    + intros t c id p ph [H| ->]%Hin Hf; [by eapply F11|done].
    + intros t c id p [H| ->]%Hin Hf; [by eapply F12|by apply elem_of_nil in Hf].
    + intros t c id g [H| ->]%Hin Hf; [by eapply F13|by apply elem_of_nil in Hf].
    + intros t c X [H| ->]%Hin Hf; [by eapply F14|done].
  - rewrite fmap_app. by apply Locks_call.
  - unfold Charged in *. rewrite tally_app. change (tally owed [idle]) with 0. lia.
  - rewrite fmap_app. by apply Awaits_call.
  - split; try done.
    + intros t c ref [H| ->]%Hin Hf; [by eapply S3|by apply elem_of_nil in Hf].
    + intros t c [H| ->]%Hin; [by eapply S4|done].
Qed.

Lemma Locks_none : Locks ∅ false 0 false false [].
Proof using Type.
  assert (Hno : Owned false []) by (split; [split; [done|by intros [t Ht]]|done]). by split.
Qed.

Lemma J_start f (w : W) : sound f w -> unused f -> J (cf f) (atRest f w) [] (calm ∅ f).
Proof using Type.
  intros [Hg Hh Ht _] [Ho Hb]. pose proof Hg as [Hw Hd]. pose proof (do_charge _ Hd) as Hch. rewrite Ho in Hch. change (chargeSum ∅) with 0 in Hch.
  assert (Hgood : good (calm ∅ f)) by (eapply good_ext; [exact Hg|done..|by apply Hd|by rewrite Hch]).
  assert (Hbuf : forall id, bufOf (calm ∅ f) id = newOpenFile) by (intros id; unfold bufOf; simpl; by rewrite lookup_empty).
  split; [split; simpl; try done|apply Locks_none|exact Hch| |].
  - intros id n Hn _. rewrite Hbuf. split; [done|]. pose proof (do_files _ (proj2 Hgood) id n Hn) as Hf. rewrite Hbuf in Hf. apply Hf.
  - intros id. rewrite !lookup_empty. split; [by intros [? ?]|by intros [_ [? ?]]].
  - split; [|done]. exists ∅. split; [intros t; by rewrite lookup_empty|exact Hb].
  - destruct Hh as [A1 A2 A3 A4], Ht as [B1 B2]. by split.
Qed.

(** ** Runs *)

(** A run of calls the wire can carry, in which inode numbers do not run out. *)
Record runOf (f : FS) (w : W) (l : list (pool * option nat)) (y : pool) : Prop := {
  ru_runs : runs call (mkSys (atRest f w) []) l y;
  ru_room : Forall (fun x => room (st x.1)) l;
  ru_allowed : forall t q p, calls y !! t = Some (q, p) -> allowed q
}.

Lemma run_traced f (w : W) l y :
  sound f w -> unused f -> runOf f w l y ->
  exists al a C, traced (J (cf f)) over sameContents blocked room (effect (cf f)) (explained (cf f)) l y al a C /\ (al ++ [a]) !! 0%nat = Some (calm ∅ f).
Proof using Lw Hx TC.
  intros Hs Hu [Hr Hroom Hall]. eapply (linear call (J (cf f)) idle over sameContents blocked room allowed sameContents_refl (effect (cf f)) (explained (cf f))); try done.
  - apply J_call.
  - intros q t Hq. by apply call_wp.
  - by apply J_start.
Qed.

(** ** When every call has returned *)

Lemma heapSum_zero h : (forall p c, h !! p = Some c -> ofBytes (cOf c) = 0) -> heapSum h = 0.
Proof using Type.
  induction h as [|p c h Hp _ IH] using map_first_key_ind; [done|]. intros H. rewrite heapSum_insert, Hp, IH.
  - pose proof (H p c (lookup_insert_eq _ _ _)). lia.
  - intros q d Hq. apply (H q). rewrite lookup_insert_ne; [done|]. intros ->. congruence.
Qed.

(** The bytes of the heap are those of the table, if no other buffer counts any. *)
Lemma heap_table (tb : gmap Z nat) h :
  (forall id j p, tb !! id = Some p -> tb !! j = Some p -> j = id) -> (forall id p, tb !! id = Some p -> is_Some (h !! p)) ->
  (forall p c, h !! p = Some c -> (forall id, tb !! id ≠ Some p) -> ofBytes (cOf c) = 0) ->
  heapSum h = chargeSum (omap (fun p => cOf <$> h !! p) tb).
Proof using Type.
  revert h. induction tb as [|id p tb Hid _ IH] using map_first_key_ind; intros h Hinj Hin Hout.
  { rewrite omap_empty. apply heapSum_zero. intros p c Hp. apply (Hout p c Hp). intros id. by rewrite lookup_empty. }
  destruct (Hin id p (lookup_insert_eq _ _ _)) as [c Hc].
  assert (Hold : forall j q, tb !! j = Some q -> <[id := p]> tb !! j = Some q /\ j ≠ id).
  { intros j q Hj. assert (j ≠ id) as Hne by congruence. split; [by rewrite lookup_insert_ne|done]. }
  assert (Hne : forall j q, tb !! j = Some q -> q ≠ p).
  { intros j q Hj ->. destruct (Hold j p Hj) as [Hj' Hn]. apply Hn. by apply (Hinj id j p (lookup_insert_eq _ _ _)). }
  assert (Hom : omap (fun q => cOf <$> h !! q) tb = omap (fun q => cOf <$> delete p h !! q) tb).
  { apply map_eq. intros j. rewrite !lookup_omap. destruct (tb !! j) as [q|] eqn:Ej; [|done]. simpl.
    rewrite lookup_delete_ne; [done|]. intros ->. by eapply Hne. }
  rewrite <- (insert_delete_id h p c) at 1 by done. rewrite heapSum_insert, lookup_delete_eq.
  rewrite (omap_insert_Some _ _ _ _ (cOf c)) by (by rewrite Hc). rewrite chargeSum_insert, lookup_omap, Hid. simpl.
  rewrite Hom, (IH (delete p h)); [lia|..].
  - intros j k q Hj Hk. apply (Hinj j k q); by apply Hold.
  - intros j q Hj. rewrite lookup_delete_ne; [by apply (Hin j), Hold|]. intros ->. by eapply Hne.
  - intros q d Hq Hno. apply lookup_delete_Some in Hq as [Hqp Hq]. apply (Hout q d Hq). intros j Hj.
    apply lookup_insert_Some in Hj as [[_ E]|[_ Hj]]; [congruence|by apply (Hno j)].
Qed.

(** Nothing is held and nobody waits. *)
Record quiescent (s : shared) : Prop := {
  qu_files : forall p c, heap s !! p = Some c -> cHeld c = false;
  qu_commit : commitMu s = false;
  qu_gate : gateReaders s = 0%nat /\ gateWaiting s = false /\ gateWriter s = false;
  qu_budget : Budget.parked (budget (mem s)) = 0 /\ Budget.draining (budget (mem s)) = false
}.

Lemma Owned_none b l : Owned b l -> (forall t, l !! t ≠ Some true) -> b = false.
Proof using Type. intros [Hs _] Hno. destruct b; [|done]. destruct (proj1 Hs eq_refl) as [t Ht]. by destruct (Hno t). Qed.

Lemma J_quiescent K (s : shared) C a : J K s C a -> (forall t c, C !! t = Some c -> over c) ->
  quiescent s /\ Budget.charge (budget (mem s)) = chargeSum (open (view s)).
Proof using Type.
  intros HJ Hov. pose proof HJ as [HF HL HC HA _].
  assert (Hlk : forall t (x : lockset), (lockOf <$> C) !! t = Some x -> x = unlocked).
  { intros t x Hx'. rewrite list_lookup_fmap in Hx'. destruct (C !! t) as [c|] eqn:Ec; [|done]. injection Hx' as <-.
    destruct (Hov t c Ec) as [O1 O2 O3 _ _ _]. unfold lockOf. by rewrite O1, O2, O3. }
  assert (Hfree : forall b (g : lockset -> bool), Owned b (g <$> (lockOf <$> C)) -> g unlocked = false -> b = false).
  { intros b g Hb Hg. eapply Owned_none; [exact Hb|]. intros t Ht. rewrite list_lookup_fmap in Ht. destruct ((lockOf <$> C) !! t) as [x|] eqn:Ex; [|done].
    rewrite (Hlk t x Ex) in Ht. injection Ht. congruence. }
  assert (Hhold : forall p c, heap s !! p = Some c -> cHeld c = false).
  { intros p c Hp. apply (Hfree _ (hasFile p)); [|done]. apply (lk_file _ _ _ _ _ _ HL). by rewrite lookup_fmap, Hp. }
  split.
  - split; [done|by apply (Hfree _ lsCommit (lk_commit _ _ _ _ _ _ HL))| |].
    + split; [|split; [by apply (Hfree _ (isRole GWaiting) (lk_waiting _ _ _ _ _ _ HL))|by apply (Hfree _ (isRole GWriting) (lk_writing _ _ _ _ _ _ HL))]]. pose proof (lk_readers _ _ _ _ _ _ HL) as Hr. rewrite tally_zero in Hr; [lia|].
      intros x [t Ht]%list_elem_of_lookup. by rewrite (Hlk t x Ht).
    + destruct HA as [(m&Hm&[_ I2 _ I4 _ _]) _]. assert (m = ∅) as ->.
      { apply map_eq. intros t. rewrite Hm, lookup_empty, list_lookup_fmap. destruct (C !! t) as [c|] eqn:Ec; [|done].
        simpl. by rewrite (ov_await _ (Hov t c Ec)). }
      split; [exact I4|]. destruct (Budget.draining (budget (mem s))); [|done]. destruct (proj1 I2 eq_refl) as (t&x&Ht). by rewrite lookup_empty in Ht.
  - unfold Charged in HC. rewrite HC, (tally_zero owed C).
    + rewrite Z.add_0_r. apply heap_table; [apply HF|intros id p Hp; by apply (fi_tab _ _ _ _ HF id)|].
      intros p c Hp Hno. apply (re_dead _ _ _ _ (fi_free _ _ _ _ HF p c Hp (Hhold p c Hp))). intros id Hid. by destruct (Hno id).
    + intros c [t Ht]%list_elem_of_lookup. unfold owed. by rewrite (ov_file _ (Hov t c Ht)).
Qed.

(** ** Some call can step *)

Section Progress.
Context (K : conf) (l : list (pool * option nat)) (y : pool) (al : list FS) (a : FS) (C : list ghost).
Hypotheses (HT : traced (J K) over sameContents blocked room (effect K) (explained K) l y al a C) (Hroom : room (st y)).

Definition steps : Prop := exists t z, sstep call (Some t) y z.

(** A call can step, or is blocked, or has returned. *)
Lemma step_or t c : C !! t = Some c -> steps \/ over c \/ blocked c (st y).
Proof using HT Hroom.
  intros Hc. destruct HT as [_ T2 T3 _ _ _ T7]. destruct (calls y !! t) as [[q p]|] eqn:Et.
  2:{ apply lookup_ge_None in Et. apply lookup_lt_Some in Hc. lia. }
  destruct (T7 t q p Et) as (c'&Hc'&_&Hwp). assert (c' = c) as -> by congruence. destruct p as [r|B g k|X Y body v k]; [right; left; apply Hwp| |].
  - specialize (Hwp (st y) C a Hroom T2 Hc). destruct (g (st y)) as [[b s]|] eqn:Eg; [|by right; right]. left. exists t. eexists. by econstructor.
  - left. exists t. eexists. by econstructor.
Qed.

(** A call that waits for a lock waits for one that can step. *)
Lemma lock_freed t c : C !! t = Some c ->
  awaits (cHeld <$> heap (st y)) (commitMu (st y)) (gateReaders (st y)) (gateWaiting (st y)) (gateWriter (st y)) (lockOf c) -> steps.
Proof using HT Hroom.
  intros Hc Haw. destruct (unblocked _ _ _ _ _ _ t (lockOf c) (j_locks _ _ _ _ (tr_now _ _ _ _ _ _ _ _ _ _ _ _ HT)) (lock_at C t c Hc) Haw) as (t'&x&Hx'&Hne&Hna).
  rewrite list_lookup_fmap in Hx'. destruct (C !! t') as [d|] eqn:Ed; [|done]. injection Hx' as <-.
  destruct (step_or t' d Ed) as [?|[[O1 O2 O3 _ _ _]|[?|[? _]]]]; [done| |done|done].
  destruct Hne. unfold lockOf. by rewrite O1, O2, O3.
Qed.

Lemma never_stuck : returned y \/ steps.
Proof using HT Hroom.
  destruct (returned_or y) as [?|(t&q&p&Ht&Hne)]; [by left|right].
  destruct (tr_calls _ _ _ _ _ _ _ _ _ _ _ _ HT t q _ Ht) as (c&Hc&_&Hwp). destruct p as [r|B g k|X Y body v k]; [by destruct (Hne r)| |by exists t; eexists; econstructor].
  specialize (Hwp (st y) C a Hroom (tr_now _ _ _ _ _ _ _ _ _ _ _ _ HT) Hc).
  destruct (g (st y)) as [[b s]|] eqn:Eg; [exists t; eexists; by econstructor|].
  destruct Hwp as [Haw|(_&start&Hp)]; [by eapply lock_freed|].
  assert (Hpk : (gAwait <$> C) !! t = Some (Some (Budget.Parked start, wakes (st y)))) by (by rewrite list_lookup_fmap, Hc; simpl; rewrite Hp).
  destruct (Awaits_drainer _ _ _ t start (j_awaits _ _ _ _ (tr_now _ _ _ _ _ _ _ _ _ _ _ _ HT)) Hpk) as (t'&start'&v'&Hd).
  rewrite list_lookup_fmap in Hd. destruct (C !! t') as [d|] eqn:Ed; [|done]. injection Hd as Hd.
  destruct (step_or t' d Ed) as [?|[[_ _ _ _ _ Hn]|[?|(_&start2&Hp2)]]]; [done|congruence|by eapply lock_freed|congruence].
Qed.

End Progress.

Lemma paired_zip (l : list (pool * option nat)) (y : pool) (al : list FS) a : length al = length l ->
  paired l y al a = zip (st <$> (fst <$> l) ++ [y]) (al ++ [a]).
Proof using Type.
  intros Hl. unfold paired. rewrite fmap_app, (zip_with_app _ _ (st <$> [y]) al [a]) by (by rewrite !length_fmap). by rewrite <- list_fmap_compose.
Qed.

(** C1 Linearizability. However the steps of any number of calls interleave, the
    run has a sequence of states of the sequential filesystem beside it, one per
    state of the run and with its namespace. Making a call changes nothing; a
    step of a call changes nothing a client sees, or has the effect of that
    call's own request: the write of its data at its offset, its size change, its
    namespace or attribute operation, whole; and of all the steps of a call, at
    most one has an effect. Every call that has returned is explained by the
    steps it made itself. A READ changed nothing and returned the contents of the
    file at one of them, or the error of finding the file or fetching a chunk at
    one. A WRITE took effect once, or its file was gone; with an error it did
    nothing and one of its steps found the reason, or it was to be stable and
    only its Sync failed. So for SETATTR and the namespace operations; a COMMIT
    or a Sync changed nothing a client sees. *)
Theorem calls_linearize f (w : W) l y :
  sound f w -> unused f -> runOf f w l y ->
  exists al : list FS, length al = S (length l) /\ al !! 0%nat = Some (calm ∅ f) /\
    (forall i x a, ((fst <$> l) ++ [y]) !! i = Some x -> al !! i = Some a -> good a /\ a = calm (open a) (mem (st x))) /\
    (forall i m a a', (snd <$> l) !! i = Some m -> al !! i = Some a -> al !! (i + 1)%nat = Some a' ->
       match m with
       | None => a' = a
       | Some t => exists q p, calls y !! t = Some (q, p) /\ (sameContents a a' \/ effect (cf f) q a a')
       end) /\
    (forall t q p, calls y !! t = Some (q, p) -> let H := ownSteps t (zip (st <$> (fst <$> l) ++ [y]) al) (snd <$> l) in
       (calmly sameContents H \/ once sameContents (effect (cf f) q) H) /\ forall r, p = Ret r -> explained (cf f) q r H).
Proof using Lw Hx TC.
  intros Hs Hu Hrun. destruct (run_traced f w l y Hs Hu Hrun) as (al&a&C&[T1 T2 T3 T4 T5 T6 T7]&H0). exists (al ++ [a]).
  split; [rewrite length_app; simpl; lia|]. split; [done|]. split; [|split].
  - intros i x b Hx' Hb. assert (Hi : exists D, J (cf f) (st x) D b).
    { apply lookup_snoc_cases in Hx' as [Hx'|[-> ->]], Hb as [Hb|[Hi ->]]; eauto.
      - apply lookup_lt_Some in Hx'. rewrite length_fmap in Hx'. lia.
      - apply lookup_lt_Some in Hb. rewrite length_fmap in Hb. lia. }
    destruct Hi as [D HD]. pose proof (j_files _ _ _ _ HD) as HF. split; [apply HF|by apply (fi_abs _ _ _ _ HF)].
  - intros i [t|] b b' Hi Hb Hb'; [|by eapply T5]. destruct (lookup_lt_is_Some_2 (calls y) t (T6 i t Hi)) as [[q p] Ht]. exists q, p. split; [done|].
    destruct (T7 t q p Ht) as (c&_&Hm&_). rewrite paired_zip in Hm by done.
    assert (Hst : forall j d, (al ++ [a]) !! j = Some d -> exists x, zip (st <$> (fst <$> l) ++ [y]) (al ++ [a]) !! j = Some (x, d)).
    { intros j d Hd. destruct (lookup_lt_is_Some_2 (st <$> (fst <$> l) ++ [y]) j) as [x Hxj].
      - apply lookup_lt_Some in Hd. rewrite length_app in Hd. rewrite length_fmap, length_app, length_fmap. simpl in *. lia.
      - exists x. apply lookup_zip_with_Some. by exists x, d. }
    destruct (Hst _ _ Hb) as [x Hxb], (Hst _ _ Hb') as [x' Hxb']. eapply (modest_step sameContents (effect (cf f)) q); [exact Hm|]. apply ownSteps_elem. eauto.
  - intros t q p Ht. destruct (T7 t q p Ht) as (c&_&Hm&Hwp). rewrite paired_zip in Hm, Hwp by done. split; [exact Hm|]. intros r ->. apply Hwp.
Qed.

(** C2 No deadlock: in every state of every interleaving in which inode numbers
    are left, all calls have returned or one of them can step. The mutexes of
    files, the commit gate with its waiting writer, the commit mutex and the
    budget never block all calls that are left, and none is parked on the budget
    with nobody left to wake it. A writer may go round in its wait for as long
    as drains free too little and others take the room. *)
Theorem calls_never_deadlock f (w : W) l y :
  sound f w -> unused f -> runOf f w l y -> room (st y) -> returned y \/ exists t z, sstep call (Some t) y z.
Proof using Lw Hx TC. intros Hs Hu Hrun Hr. destruct (run_traced f w l y Hs Hu Hrun) as (al&a&C&HT&_). by eapply (never_stuck (cf f)). Qed.

(** C7 Nothing leaks: whenever all calls made have returned, no lock is held,
    nobody waits for the budget and no drain is marked, and the budget is
    charged for exactly the bytes the buffers in FS.open count. *)
Theorem calls_give_back f (w : W) l y :
  sound f w -> unused f -> runOf f w l y -> returned y ->
  quiescent (st y) /\ Budget.charge (budget (mem (st y))) = chargeSum (open (view (st y))).
Proof using Lw Hx TC.
  intros Hs Hu Hrun Hret. destruct (run_traced f w l y Hs Hu Hrun) as (al&a&C&[T1 T2 T3 T4 T5 T6 T7]&_).
  apply (J_quiescent (cf f) _ C a T2). intros t c Hc. destruct (calls y !! t) as [[q p]|] eqn:Et.
  2:{ apply lookup_ge_None in Et. apply lookup_lt_Some in Hc. lia. }
  destruct (T7 t q p Et) as (c'&Hc'&_&Hwp), (Hret t q p Et) as [r ->]. destruct Hwp as [Hov _]. congruence.
Qed.

(** C3 A crash between any two steps of any interleaving leaves a bucket that
    mounts: the writes of chunks, of a snapshot and of the root pointer by calls
    under way, however far each has come, leave a root pointer that names a
    whole filesystem, and a fresh mount whose reads are answered comes up with
    it. *)
Theorem crash_between_steps cfg writer tk now f (w : W) l y raw etag w1 :
  configOK cfg -> ReadOnlyMount cfg = false -> 4096 <= ChunkSize cfg -> 0 <= CommitInterval cfg -> utf8 writer = true ->
  sound f w -> unused f -> runOf f w l y ->
  GetWithETag rootKey (bucket (st y)) = (Ok (raw, etag), w1) -> etag ≠ "" -> (forall k d, objects w1 !! k = Some d -> (Get k w1).1 = Ok d) ->
  exists g w2 rp snap, New cfg writer tk now (bucket (st y)) = (Ok g, w2) /\ sound g w2 /\
    loadable (bucket (st y)) raw rp snap /\ inodes g = snInodes snap.
Proof using Lw Hx TC.
  intros Hcfg Hro Hcs Hci Hwr Hs Hu Hrun Hg He Hget. destruct (run_traced f w l y Hs Hu Hrun) as (al&a&C&[_ T2 _ _ _ _ _]&_).
  destruct (st_held _ _ (j_stored _ _ _ _ T2)) as [H1 H2 _ _].
  destruct (New_up cfg writer tk now (bucket (st y)) raw etag w1 Hcfg Hro Hcs Hci Hwr H1 H2 Hg He Hget) as (g&w2&rp&snap&E1&E2&_&E3&E4).
  by exists g, w2, rp, snap.
Qed.

(** A step call [t] made, as an entry of the run. *)
Lemma during_made (l : list (pool * option nat)) (y : pool) (al : list FS) t (R : shared -> shared -> Prop) :
  during (ownSteps t (zip (st <$> (fst <$> l) ++ [y]) al) (snd <$> l)) R ->
  exists x z, (x, Some t) ∈ l /\ z ∈ (fst <$> l) ++ [y] /\ R (st x) (st z).
Proof using Type.
  intros (s&a&s'&a'&(j&Hj&Hx'&Hz)%ownSteps_elem&HR). apply lookup_zip_with_Some in Hx' as (u&b&[= <- <-]&Hu&_).
  apply lookup_zip_with_Some in Hz as (v&b'&[= <- <-]&Hv&_). rewrite list_lookup_fmap in Hu, Hv.
  rewrite (list_lookup_fmap snd l j) in Hj.
  destruct (l !! j) as [[x who]|] eqn:El; [|done]. injection Hj as ->.
  rewrite (lookup_app_l_Some (fst <$> l) [y] j x) in Hu by (by rewrite list_lookup_fmap, El). injection Hu as <-.
  destruct (((fst <$> l) ++ [y]) !! (j + 1)%nat) as [z|] eqn:Ez; [|done]. injection Hv as <-.
  exists x, z. split; [by eapply list_elem_of_lookup_2|]. split; [by eapply list_elem_of_lookup_2|done].
Qed.

(** C6 A Sync among other calls. It is never refused because a truncate has left
    a file unsettled, whatever truncates run beside it; and one that reports
    success found nothing to commit at one of its steps, or sealed the whole
    namespace of one of its steps, and that snapshot was stored with every chunk
    it names and the root pointer came to name it, unless the store left open
    whether it did. *)
Theorem Sync_among_calls f (w : W) l y t tk r :
  sound f w -> unused f -> runOf f w l y -> calls y !! t = Some (QSync tk, Ret (RSynced r)) ->
  r ≠ Err errUnsettled /\ (r = Ok tt ->
    (exists x, (x, Some t) ∈ l /\ dirty (mem (st x)) = false) \/
    exists x x' z sc, (x, Some t) ∈ l /\ sealedFor (inodes (mem (st x))) sc /\ (x', Some t) ∈ l /\ z ∈ (fst <$> l) ++ [y] /\
      (landed sc (bucket (st z)) \/ exists e e1 e2 v, swapRoot sc (mem (st x'), bucket (st x')) = (Ok (Doubtful e e1 e2), v))).
Proof using Lw Hx TC.
  intros Hs Hu Hrun Ht. destruct (run_traced f w l y Hs Hu Hrun) as (al&a&C&[T1 T2 T3 T4 T5 T6 T7]&H0).
  destruct (T7 t _ _ Ht) as (c&_&_&[_ [_ He]]).
  rewrite paired_zip in He by done. destruct He as [H1 H2]. split; [done|]. intros Hr. destruct (H2 Hr) as [Hd|(m&sc&Hsf&Hm&Hl)].
  - left. destruct (during_made l y _ t _ Hd) as (x&_&Hx'&_&HR). by exists x.
  - right. destruct (during_made l y _ t _ Hm) as (x&_&Hx'&_&<-).
    destruct Hl as [Hl|Hl]; destruct (during_made l y _ t _ Hl) as (x'&z&Hx2&Hz&HR); exists x, x', z, sc; auto 10.
Qed.

End Props.

(** ** A run *)

(** A WRITE, a SETATTR that cuts the file and a Sync step in turn; when the first
    two are answered a READ is made, which steps in turn with the Sync. *)
Definition cutTo12 : SetAttr := mkSetAttr None None None (Some 12) None None.

(** A context that is not done, and a drain nobody is elected for. *)
Definition never : nat -> bool := fun _ => false.
Definition noTick : nat -> option tick := fun _ => None.

Definition schedule : list (request + nat) :=
  [inl (QWrite owner fileHandle 10 hello Unstable never noTick 30 (tk 2)); inl (QSetAttr owner fileHandle cutTo12 40); inl (QSync (tk 3))] ++
  map inr [0; 1; 2; 0; 1; 2; 0; 1; 2; 0; 1; 2; 0; 1; 2; 0; 0; 0; 0; 0; 0; 0; 0; 0; 0; 1; 1; 1; 1; 2; 2]%nat ++
  [inl (QRead owner fileHandle 0 100)] ++ map inr [2; 3; 2; 3; 2; 3; 2; 3; 2; 3; 2; 3]%nat.

Definition begun : sys (shared Bucket.world) request reply := mkSys (atRest withFile mounted.2) [].

(** The first [n] steps of the run. *)
Definition ranTo (n : nat) : list (sys (shared Bucket.world) request reply * option nat) * sys (shared Bucket.world) request reply :=
  default ([], begun) (drive call (take n schedule) [] begun).

Definition goes (n : nat) : bool :=
  match drive call (take n schedule) [] begun with
  | Some (l, y) => forallb (fun x => nextIno (mem (st x.1)) + 1 <? 2 ^ 64) (l ++ [(y, None)])
  | None => false
  end.

Lemma withFile_unused : unused withFile.
Proof.
  split; [run_it|]. assert (E : budget withFile = Budget.newBudget 8192) by run_it. rewrite E.
  split; try done. simpl. split; [done|]. intros (i&s&Hi). by rewrite lookup_empty in Hi.
Qed.

Lemma ranTo_run n :
  goes n = true -> (forall q, q ∈ map fst (calls (ranTo n).2) -> allowed q) ->
  runOf withFile mounted.2 (ranTo n).1 (ranTo n).2 /\ room (st (ranTo n).2).
Proof.
  unfold goes, ranTo. destruct (drive call (take n schedule) [] begun) as [[l y]|] eqn:E; [|done]. simpl. intros Hg Hall.
  assert (Hroom : Forall (fun x => room (st x.1)) (l ++ [(y, None)])).
  { apply list.Forall_forall. intros x Hin. apply Z.ltb_lt. rewrite forallb_forall in Hg. apply Hg. by apply list_elem_of_In. }
  apply Forall_app in Hroom as [H1 H2]. split; [|by inversion H2]. split; [|done|].
  - eapply drive_runs; [constructor|exact E].
  - intros t q p Ht. apply Hall. apply list_elem_of_In, in_map_iff. exists (q, p). split; [done|]. apply list_elem_of_In. by eapply list_elem_of_lookup_2.
Qed.

(** Every request of the schedule is one the wire can carry. *)
Lemma schedule_allowed (l : list request) :
  l ⊆ [QWrite owner fileHandle 10 hello Unstable never noTick 30 (tk 2); QSetAttr owner fileHandle cutTo12 40; QSync (tk 3); QRead owner fileHandle 0 100] ->
  forall q, q ∈ l -> allowed q.
Proof.
  intros Hl q Hq. apply Hl in Hq. repeat (apply elem_of_cons in Hq as [->|Hq]); [simpl; lia|by intros size [= <-]|done|simpl; lia|by apply elem_of_nil in Hq].
Qed.

Lemma ranTo_of n :
  goes n = true ->
  map fst (calls (ranTo n).2) = take (length (calls (ranTo n).2)) [QWrite owner fileHandle 10 hello Unstable never noTick 30 (tk 2); QSetAttr owner fileHandle cutTo12 40; QSync (tk 3); QRead owner fileHandle 0 100] ->
  runOf withFile mounted.2 (ranTo n).1 (ranTo n).2 /\ room (st (ranTo n).2).
Proof.
  intros Hg Hq. apply (ranTo_run n Hg). apply schedule_allowed. rewrite Hq. intros q Hin. apply list_elem_of_lookup in Hin as [t Ht].
  apply lookup_take_Some in Ht as [Ht _]. by eapply list_elem_of_lookup_2.
Qed.

Definition whole : nat := length schedule.

Lemma whole_run : runOf withFile mounted.2 (ranTo whole).1 (ranTo whole).2.
Proof. apply (ranTo_of whole); run_it. Qed.

(** What each call of the run was answered. *)
Example whole_answers :
  map (fun c => match c.2 with Ret r => Some r | _ => None end) (calls (ranTo whole).2) =
  [Some (RCount (Ok (5, Unstable)));
   Some (RAttr (Ok (mkAttr TypeReg 420 1 1000 1000 12 0 (0, 0) (fsid withFile) 2 30 40 40)));
   Some (RSynced (Ok tt));
   Some (RData (Ok (replicate 10 zero_byte ++ [x68; x65], true)))].
Proof. run_it. Qed.

(** The READ returned the ten zeros and two bytes that were the file at one of
    its own steps, and changed nothing; the WRITE had its effect in one of its
    own. *)
Lemma calls_linearize_witness : exists al : list FS, al !! 0%nat = Some (calm ∅ withFile) /\
  let own t := ownSteps t (zip (st <$> (fst <$> (ranTo whole).1) ++ [(ranTo whole).2]) al) (snd <$> (ranTo whole).1) in
  answersRead (cf withFile) owner fileHandle 0 100 (Ok (replicate 10 zero_byte ++ [x68; x65], true)) (own 3%nat) /\
  answersWrite (cf withFile) owner fileHandle 10 hello Unstable never noTick 30 (Ok (5, Unstable)) (own 0%nat).
Proof.
  destruct (calls_linearize withFile mounted.2 (ranTo whole).1 (ranTo whole).2 withFile_sound withFile_unused whole_run) as (al&_&H0&_&_&He).
  exists al. split; [exact H0|]. split.
  - apply (proj2 (He 3%nat (QRead owner fileHandle 0 100) (Ret (RData (Ok (replicate 10 zero_byte ++ [x68; x65], true)))) ltac:(run_it)) _ eq_refl).
  - apply (proj2 (He 0%nat (QWrite owner fileHandle 10 hello Unstable never noTick 30 (tk 2)) (Ret (RCount (Ok (5, Unstable)))) ltac:(run_it)) _ eq_refl).
Defined.

(** Stopped after twenty-one steps the SETATTR waits for the file and the Sync for
    the gate; the WRITE can step. *)
Definition midway : nat := 21.

Example midway_blocked :
  map (fun t => match move call (inr t) (ranTo midway).2 with Some _ => true | None => false end) [0; 1; 2]%nat = [true; false; false].
Proof. run_it. Qed.

Lemma calls_never_deadlock_witness : returned (ranTo midway).2 \/ exists t z, sstep call (Some t) (ranTo midway).2 z.
Proof.
  assert (Hr : runOf withFile mounted.2 (ranTo midway).1 (ranTo midway).2 /\ room (st (ranTo midway).2)) by (apply (ranTo_of midway); run_it).
  exact (calls_never_deadlock withFile mounted.2 (ranTo midway).1 (ranTo midway).2 withFile_sound withFile_unused (proj1 Hr) (proj2 Hr)).
Defined.

(** One buffer of a chunk is left, and charged. *)
Lemma calls_give_back_witness :
  quiescent (st (ranTo whole).2) /\ Budget.charge (budget (mem (st (ranTo whole).2))) = 4096 /\ chargeSum (open (view (st (ranTo whole).2))) = 4096.
Proof.
  assert (Hret : returned (ranTo whole).2).
  { intros t q p Ht. assert (Hb : forallb (fun c => match c.2 with Ret _ => true | _ => false end) (calls (ranTo whole).2) = true) by run_it.
    rewrite forallb_forall in Hb. specialize (Hb (q, p) (proj1 (list_elem_of_In _ _) (list_elem_of_lookup_2 _ _ _ Ht))). destruct p; [eauto|done..]. }
  destruct (calls_give_back withFile mounted.2 (ranTo whole).1 (ranTo whole).2 withFile_sound withFile_unused whole_run Hret) as [Hq Hc].
  split; [exact Hq|]. split; [run_it|]. rewrite <- Hc. run_it.
Defined.

(** Stopped after the snapshot is stored and before the root pointer is written. *)
Definition unswapped : nat := 40.

Definition oldRoot : bytes := default [] (Bucket.objs (bucket (st (ranTo unswapped).2)) !! rootKey).

Lemma crash_between_steps_witness :
  exists g w2 rp snap, New smallConfig "host/3" (tk 9) 99 (bucket (st (ranTo unswapped).2)) = (Ok g, w2) /\ sound g w2 /\
    loadable (bucket (st (ranTo unswapped).2)) oldRoot rp snap /\ inodes g = snInodes snap.
Proof.
  assert (Hr : runOf withFile mounted.2 (ranTo unswapped).1 (ranTo unswapped).2 /\ room (st (ranTo unswapped).2)) by (apply (ranTo_of unswapped); run_it).
  assert (Hgwe : GetWithETag rootKey (bucket (st (ranTo unswapped).2)) = (Ok (oldRoot, Bucket.etag oldRoot), bucket (st (ranTo unswapped).2))).
  { apply (Bucket.getWithETag_at rootKey (bucket (st (ranTo unswapped).2))). run_it. }
  assert (Hget : forall k d, objects (bucket (st (ranTo unswapped).2)) !! k = Some d -> (Get k (bucket (st (ranTo unswapped).2))).1 = Ok d).
  { intros k d Hk. change (objects (bucket (st (ranTo unswapped).2))) with (Bucket.objs (bucket (st (ranTo unswapped).2))) in Hk.
    change (Get k (bucket (st (ranTo unswapped).2))) with (Bucket.get k (bucket (st (ranTo unswapped).2))). unfold Bucket.get. cbn [fst]. by rewrite Hk. }
  exact (crash_between_steps smallConfig "host/3" (tk 9) 99 withFile mounted.2 (ranTo unswapped).1 (ranTo unswapped).2 oldRoot (Bucket.etag oldRoot) _
    smallConfig_ok eq_refl ltac:(vm_compute; discriminate) ltac:(vm_compute; discriminate) eq_refl withFile_sound withFile_unused (proj1 Hr)
    Hgwe ltac:(discriminate) Hget).
Defined.

Lemma Sync_among_calls_witness : exists x, (x, Some 2%nat) ∈ (ranTo whole).1 /\
  (dirty (mem (st x)) = false \/ exists sc, sealedFor (inodes (mem (st x))) sc).
Proof.
  assert (Ht : calls (ranTo whole).2 !! 2%nat = Some (QSync (tk 3), Ret (RSynced (Ok tt)))) by run_it.
  destruct (Sync_among_calls withFile mounted.2 (ranTo whole).1 (ranTo whole).2 2 (tk 3) (Ok tt) withFile_sound withFile_unused whole_run Ht) as [_ H].
  destruct (H eq_refl) as [(x&Hx&Hd)|(x&x'&z&sc&Hx&Hs&_)]; exists x; eauto.
Defined.
