(* ===== verification/Xdr.v ===== *)
(** * The XDR codec (internal/xdr/xdr.go)

    A Writer is only ever appended to, so each of its methods is modelled by the
    bytes a call appends. A Reader is its state, the buffer, the offset and the
    latched error, and each of its methods a function of it; a sequence of
    decodes is written in [rd], the state monad over a Reader. A slice read from
    a reader is its bytes: the code never tells an empty slice from a nil one. *)

From Stdlib Require Import Strings.Byte.
From S2P Require Import Prelude Vfs Inode.

Inductive xdrErr := ErrShort | ErrTooLong.

#[global] Instance xdrErr_eq_dec : EqDecision xdrErr.
Proof. solve_decision. Defined.

Definition maxVarLen : Z := Z.shiftl 64 20.

(** The bytes that pad [n] bytes up to a multiple of four. *)
Definition padLen (n : Z) : Z := (4 - n mod 4) mod 4.

(** ** Writer *)

Module Writer.

Definition pad (n : Z) : bytes := zeros (padLen n).
Definition Uint32 (v : Z) : bytes := be_bytes 4 v.
Definition Uint64 (v : Z) : bytes := be_bytes 8 v.
Definition Bool (v : bool) : bytes := if v then Uint32 1 else Uint32 0.
Definition Fixed (b : bytes) : bytes := b ++ pad (blen b).
Definition Opaque (b : bytes) : bytes := Uint32 (u32 (blen b)) ++ Fixed b.
Definition String (s : string) : bytes :=
  let b := bytesOf s in Uint32 (u32 (blen b)) ++ b ++ pad (blen b).

End Writer.

(** ** Reader *)

Record Reader := mkReader { rBuf : bytes; rOff : Z; rErr : option xdrErr }.

Definition NewReader (b : bytes) : Reader := mkReader b 0 None.

Definition Remaining (r : Reader) : Z := blen (rBuf r) - rOff r.

(** A decode. *)
Definition rd (A : Type) : Type := Reader -> A * Reader.

Definition rret {A} (a : A) : rd A := fun r => (a, r).
Definition rbind {A B} (m : rd A) (k : A -> rd B) : rd B := fun r => let (a, r) := m r in k a r.

Notation "'let^' x := m 'in' k" := (rbind m (fun x => k))
  (at level 10, x pattern, m at level 100, k at level 200) : strata_scope.

(** [r.Err()]. *)
Definition errOf : rd (option xdrErr) := fun r => (rErr r, r).

Module Reader.

Definition fail (e : xdrErr) (r : Reader) : Reader :=
  match rErr r with None => mkReader (rBuf r) (rOff r) (Some e) | Some _ => r end.

(** [None] is the nil slice of a failed take. *)
Definition take (n : Z) : rd (option bytes) := fun r =>
  match rErr r with
  | Some _ => (None, r)
  | None =>
      if (n <? 0) || (blen (rBuf r) <? rOff r + n) then (None, fail ErrShort r)
      else (Some (btake n (bdrop (rOff r) (rBuf r))), mkReader (rBuf r) (rOff r + n) None)
  end.

Definition Uint32 : rd Z :=
  let^ s := take 4 in rret (match s with None => 0 | Some b => be_Z b end).

Definition Uint64 : rd Z :=
  let^ s := take 8 in rret (match s with None => 0 | Some b => be_Z b end).

Definition Bool : rd bool := let^ v := Uint32 in rret (negb (v =? 0)).

Definition skipPad (n : Z) : rd unit :=
  if 0 <? padLen n then let^ _ := take (padLen n) in rret tt else rret tt.

Definition Fixed (n : Z) : rd bytes :=
  let^ s := take n in
  match s with
  | None => rret []
  | Some b => let^ _ := skipPad n in rret b
  end.

Definition Opaque : rd bytes :=
  let^ n := Uint32 in
  let^ e := errOf in
  match e with
  | Some _ => rret []
  | None =>
      if maxVarLen <? n then (fun r => ([], fail ErrTooLong r))
      else Fixed n
  end.

Definition String : rd string := let^ b := Opaque in rret (String.string_of_list_byte b).

Definition Skip (n : Z) : rd unit := let^ _ := take n in skipPad n.

End Reader.

Definition maxInt32 : Z := 2 ^ 31 - 1.

Definition CheckLen (n limit : Z) : option xdrErr :=
  if (limit <? n) || (maxInt32 <? n) then Some ErrTooLong else None.

#[global] Arguments Writer.Uint32 : simpl never.
#[global] Arguments Writer.Uint64 : simpl never.
#[global] Arguments Writer.Fixed : simpl never.
#[global] Arguments Writer.Opaque : simpl never.
#[global] Arguments Writer.String : simpl never.
#[global] Arguments Reader.Uint32 : simpl never.
#[global] Arguments Reader.Uint64 : simpl never.
#[global] Arguments Reader.Opaque : simpl never.
#[global] Arguments Reader.String : simpl never.

(** ** What a decode reads *)

(** The bytes not yet decoded. *)
Definition rest (r : Reader) : bytes := bdrop (rOff r) (rBuf r).

(** [r] has failed nowhere and is within its buffer. *)
Definition fine (r : Reader) : Prop := rErr r = None /\ 0 <= rOff r <= blen (rBuf r).

(** [p] reads the encoding [enc] as [v], from whatever reader it is at the head
    of, and leaves what follows. *)
Definition reads {A} (p : rd A) (enc : bytes) (v : A) : Prop :=
  forall r tl, fine r -> rest r = enc ++ tl -> exists r', p r = (v, r') /\ fine r' /\ rest r' = tl.

Lemma reads_ret {A} (v : A) : reads (rret v) [] v.
Proof. intros r tl Hf Hr. by exists r. Qed.

Lemma reads_bind {A B} (p : rd A) (k : A -> rd B) e1 e2 a b :
  reads p e1 a -> reads (k a) e2 b -> reads (rbind p k) (e1 ++ e2) b.
Proof.
  intros Hp Hk r tl Hf Hr. rewrite <- app_assoc in Hr.
  destruct (Hp r _ Hf Hr) as (r1&E1&F1&R1). destruct (Hk r1 tl F1 R1) as (r2&E2&F2&R2).
  exists r2. unfold rbind. by rewrite E1.
Qed.

(** A last step that decodes nothing. *)
Lemma reads_map {A B} (p : rd A) (g : A -> B) e a : reads p e a -> reads (let^ x := p in rret (g x)) e (g a).
Proof. intros Hp. rewrite <- (app_nil_r e). eapply reads_bind; [done|apply reads_ret]. Qed.

Lemma reads_err : reads errOf [] None.
Proof. intros r tl [He Hb] Hr. exists r. unfold errOf. by rewrite He. Qed.

Lemma reads_take n b : blen b = n -> reads (Reader.take n) b (Some b).
Proof.
  intros Hn r tl [He Hb] Hr. pose proof (blen_nonneg b). unfold Reader.take. rewrite He.
  assert (Hl : blen (rest r) = blen (rBuf r) - rOff r) by (unfold rest; rewrite blen_drop by lia; lia).
  rewrite Hr, blen_app in Hl. pose proof (blen_nonneg tl).
  destruct (Z.ltb_spec n 0); [lia|]. destruct (Z.ltb_spec (blen (rBuf r)) (rOff r + n)); [lia|]. simpl.
  exists (mkReader (rBuf r) (rOff r + n) None). fold (rest r). rewrite Hr. unfold btake.
  rewrite <- Hn. unfold blen at 1. rewrite Nat2Z.id, take_app_length. split; [done|]. split; [split; simpl; [done|lia]|].
  unfold rest, bdrop in *. simpl. rewrite Z2Nat.inj_add, <- drop_drop, Hr by lia. unfold blen. by rewrite Nat2Z.id, drop_app_length.
Qed.

Lemma padLen_range n : 0 <= padLen n < 4.
Proof. unfold padLen. apply Z.mod_pos_bound. lia. Qed.

(** The two integer widths. *)
Lemma reads_be n v :
  0 <= v < 256 ^ Z.of_nat n ->
  reads (let^ s := Reader.take (Z.of_nat n) in rret (match s with None => 0 | Some b => be_Z b end)) (be_bytes n v) v.
Proof.
  intros Hv. pose proof (reads_map (Reader.take (Z.of_nat n)) (fun s => match s with None => 0 | Some b => be_Z b end)
    (be_bytes n v) (Some (be_bytes n v))) as H.
  cbv beta iota in H. rewrite be_Z_bytes, Z.mod_small in H by done. apply H, reads_take.
  unfold blen. by rewrite be_bytes_length.
Qed.

Lemma reads_uint32 v : is_u32 v -> reads Reader.Uint32 (Writer.Uint32 v) v.
Proof. apply (reads_be 4). Qed.

Lemma reads_uint64 v : is_u64 v -> reads Reader.Uint64 (Writer.Uint64 v) v.
Proof. apply (reads_be 8). Qed.

Lemma reads_bool v : reads Reader.Bool (Writer.Bool v) v.
Proof.
  unfold Reader.Bool, Writer.Bool.
  destruct v; [apply (reads_map _ (fun v => negb (v =? 0)) _ 1)|apply (reads_map _ (fun v => negb (v =? 0)) _ 0)];
    apply reads_uint32; unfold is_u32; lia.
Qed.

Lemma reads_pad n : reads (Reader.skipPad n) (Writer.pad n) tt.
Proof.
  unfold Reader.skipPad, Writer.pad. pose proof (padLen_range n). destruct (Z.ltb_spec 0 (padLen n)).
  - apply (reads_map _ (fun _ => tt) _ (Some (zeros (padLen n)))). apply reads_take. apply blen_zeros. lia.
  - assert (padLen n = 0) as -> by lia. apply reads_ret.
Qed.

Lemma reads_fixed b n : n = blen b -> reads (Reader.Fixed n) (Writer.Fixed b) b.
Proof.
  intros ->. unfold Reader.Fixed, Writer.Fixed. eapply reads_bind; [by apply reads_take|]. simpl.
  apply (reads_map _ (fun _ => b) _ tt). apply reads_pad.
Qed.

Lemma reads_opaque b : blen b <= maxVarLen -> reads Reader.Opaque (Writer.Opaque b) b.
Proof.
  intros Hb. pose proof (blen_nonneg b) as H0. assert (Hu : is_u32 (blen b)) by (unfold is_u32, maxVarLen in *; vm_compute (Z.shiftl 64 20) in Hb; lia).
  unfold Reader.Opaque, Writer.Opaque. rewrite u32_id by done. eapply reads_bind; [by apply reads_uint32|].
  rewrite <- (app_nil_l (Writer.Fixed b)). eapply reads_bind; [apply reads_err|]. simpl.
  destruct (Z.ltb_spec maxVarLen (blen b)); [lia|]. by apply reads_fixed.
Qed.

Lemma string_bytes s : String.string_of_list_byte (bytesOf s) = s.
Proof. apply String.string_of_list_byte_of_string. Qed.

Lemma reads_string s : blen (bytesOf s) <= maxVarLen -> reads Reader.String (Writer.String s) s.
Proof.
  intros Hs. pose proof (reads_map Reader.Opaque String.string_of_list_byte _ _ (reads_opaque (bytesOf s) Hs)) as H.
  rewrite string_bytes in H. exact H.
Qed.

(** ** What a decode does to its reader *)

(** The buffer is not touched, the offset only grows and stays within it, and a
    reader that has failed is left exactly as it is. *)
Record advances (r r' : Reader) : Prop := {
  ad_buf : rBuf r' = rBuf r;
  ad_off : rOff r <= rOff r' <= blen (rBuf r);
  ad_err : rErr r ≠ None -> r' = r
}.

Definition within (r : Reader) : Prop := 0 <= rOff r <= blen (rBuf r).

Definition safe {A} (p : rd A) : Prop := forall r, within r -> advances r (p r).2.

(** More bytes after the buffer's end change nothing a decode without an error
    has seen. *)
Definition extend (x : bytes) (r : Reader) : Reader := mkReader (rBuf r ++ x) (rOff r) (rErr r).

Definition local {A} (p : rd A) : Prop :=
  forall x r, within r -> rErr (p r).2 = None -> p (extend x r) = ((p r).1, extend x (p r).2).

Lemma advances_refl r : within r -> advances r r.
Proof. intros [H1 H2]. split; [done|lia|done]. Qed.

Lemma advances_trans r1 r2 r3 : advances r1 r2 -> advances r2 r3 -> advances r1 r3.
Proof.
  intros [A1 A2 A3] [B1 B2 B3]. rewrite A1 in B2. split; [congruence|lia|].
  intros He. specialize (A3 He) as ->. by apply B3.
Qed.

Lemma advances_within r r' : within r -> advances r r' -> within r'.
Proof. unfold within. intros Hw [A1 A2 _]. rewrite A1. lia. Qed.

Lemma safe_ret {A} (a : A) : safe (rret a).
Proof. intros r. apply advances_refl. Qed.

Lemma safe_bind {A B} (p : rd A) (k : A -> rd B) : safe p -> (forall a, safe (k a)) -> safe (rbind p k).
Proof.
  intros Hp Hk r Hw. unfold rbind. specialize (Hp r Hw). destruct (p r) as [a r1]. simpl in *.
  eapply advances_trans; [done|]. apply Hk. by eapply advances_within.
Qed.

Lemma safe_err : safe errOf.
Proof. intros r. apply advances_refl. Qed.

Lemma safe_fail {A} (a : A) e : safe (fun r => (a, Reader.fail e r)).
Proof. intros r [H1 H2]. unfold Reader.fail. simpl. destruct (rErr r) eqn:E; split; simpl; try done; try lia; congruence. Qed.

Lemma safe_take n : safe (Reader.take n).
Proof.
  intros r Hw. unfold Reader.take. destruct (rErr r) eqn:E; [by apply advances_refl|].
  destruct (Z.ltb_spec n 0), (Z.ltb_spec (blen (rBuf r)) (rOff r + n)); simpl; try by apply (safe_fail (A := unit) tt).
  destruct Hw. split; simpl; [done|lia|congruence].
Qed.

Lemma local_ret {A} (a : A) : local (rret a).
Proof. by intros x r. Qed.

(** An error latched in the first step is still there after the second. *)
Lemma local_bind {A B} (p : rd A) (k : A -> rd B) :
  safe p -> (forall a, safe (k a)) -> local p -> (forall a, local (k a)) -> local (rbind p k).
Proof.
  intros Sp Sk Hp Hk x r Hw. unfold rbind. specialize (Sp r Hw). specialize (Hp x r Hw). destruct (p r) as [a r1]. simpl in *. intros He.
  assert (Hw1 : within r1) by by eapply advances_within.
  assert (E1 : rErr r1 = None).
  { destruct (rErr r1) eqn:E; [|done]. pose proof (ad_err _ _ (Sk a r1 Hw1) ltac:(congruence)) as H. congruence. }
  rewrite (Hp E1). by apply Hk.
Qed.

Lemma local_err : local errOf.
Proof. by intros x r. Qed.

Lemma local_fail {A} (a : A) e : local (fun r => (a, Reader.fail e r)).
Proof. intros x r Hw. unfold Reader.fail. simpl. destruct (rErr r) eqn:E; simpl; [congruence|done]. Qed.

Lemma local_take n : local (Reader.take n).
Proof.
  intros x r [H1 H2]. unfold Reader.take, extend. simpl. destruct (rErr r) eqn:E; [simpl; congruence|].
  rewrite blen_app. pose proof (blen_nonneg x). unfold Reader.fail. rewrite E.
  destruct (Z.ltb_spec n 0); [done|]. destruct (Z.ltb_spec (blen (rBuf r)) (rOff r + n)); [done|].
  destruct (Z.ltb_spec (blen (rBuf r) + blen x) (rOff r + n)); [lia|]. simpl. intros _. do 2 f_equal.
  unfold btake, bdrop. rewrite drop_app_le, take_app_le; [done| |]; unfold blen in *; [rewrite length_drop; lia|lia].
Qed.

Create HintDb xdr.
#[export] Hint Resolve safe_ret safe_err safe_fail safe_take local_ret local_err local_fail local_take : xdr.

(** A decode built from the reader's methods. *)
Ltac decoder :=
  repeat (first
    [ progress intros
    | match goal with
      | |- safe (rbind _ _) => apply safe_bind
      | |- local (rbind _ _) => apply local_bind
      | |- context [match ?x with _ => _ end] => destruct x
      end
    | solve [eauto with xdr] ]).

Lemma safe_uint32 : safe Reader.Uint32.
Proof. unfold Reader.Uint32. decoder. Qed.
Lemma local_uint32 : local Reader.Uint32.
Proof. unfold Reader.Uint32. decoder. Qed.
Lemma safe_uint64 : safe Reader.Uint64.
Proof. unfold Reader.Uint64. decoder. Qed.
Lemma local_uint64 : local Reader.Uint64.
Proof. unfold Reader.Uint64. decoder. Qed.
#[export] Hint Resolve safe_uint32 local_uint32 safe_uint64 local_uint64 : xdr.

Lemma safe_bool : safe Reader.Bool.
Proof. unfold Reader.Bool. decoder. Qed.
Lemma local_bool : local Reader.Bool.
Proof. unfold Reader.Bool. decoder. Qed.
Lemma safe_pad n : safe (Reader.skipPad n).
Proof. unfold Reader.skipPad. decoder. Qed.
Lemma local_pad n : local (Reader.skipPad n).
Proof. unfold Reader.skipPad. decoder. Qed.
#[export] Hint Resolve safe_bool local_bool safe_pad local_pad : xdr.

Lemma safe_fixed n : safe (Reader.Fixed n).
Proof. unfold Reader.Fixed. decoder. Qed.
Lemma local_fixed n : local (Reader.Fixed n).
Proof. unfold Reader.Fixed. decoder. Qed.
#[export] Hint Resolve safe_fixed local_fixed : xdr.

Lemma safe_opaque : safe Reader.Opaque.
Proof. unfold Reader.Opaque. decoder. Qed.
Lemma local_opaque : local Reader.Opaque.
Proof. unfold Reader.Opaque. decoder. Qed.
#[export] Hint Resolve safe_opaque local_opaque : xdr.

Lemma safe_string : safe Reader.String.
Proof. unfold Reader.String. decoder. Qed.
Lemma local_string : local Reader.String.
Proof. unfold Reader.String. decoder. Qed.
#[export] Hint Resolve safe_string local_string : xdr.

(** ** Whole messages *)

(** A field of a message. *)
Inductive item :=
| IUint32 (v : Z)
| IUint64 (v : Z)
| IBool (v : bool)
| IFixed (b : bytes)
| IOpaque (b : bytes)
| IString (s : string).

Definition putItem (i : item) : bytes :=
  match i with
  | IUint32 v => Writer.Uint32 v
  | IUint64 v => Writer.Uint64 v
  | IBool v => Writer.Bool v
  | IFixed b => Writer.Fixed b
  | IOpaque b => Writer.Opaque b
  | IString s => Writer.String s
  end.

(** Read a field of the kind of [i]; a fixed-length opaque of its length. *)
Definition getItem (i : item) : rd item :=
  match i with
  | IUint32 _ => let^ v := Reader.Uint32 in rret (IUint32 v)
  | IUint64 _ => let^ v := Reader.Uint64 in rret (IUint64 v)
  | IBool _ => let^ v := Reader.Bool in rret (IBool v)
  | IFixed b => let^ v := Reader.Fixed (blen b) in rret (IFixed v)
  | IOpaque _ => let^ v := Reader.Opaque in rret (IOpaque v)
  | IString _ => let^ v := Reader.String in rret (IString v)
  end.

Definition putItems (l : list item) : bytes := concat (map putItem l).

Fixpoint getItems (l : list item) : rd (list item) :=
  match l with
  | [] => rret []
  | i :: l => let^ v := getItem i in let^ vs := getItems l in rret (v :: vs)
  end.

(** The values the field's Go type has, and the lengths the reader accepts. *)
Definition itemOK (i : item) : Prop :=
  match i with
  | IUint32 v => is_u32 v
  | IUint64 v => is_u64 v
  | IOpaque b => blen b <= maxVarLen
  | IString s => blen (bytesOf s) <= maxVarLen
  | _ => True
  end.

Lemma reads_item i : itemOK i -> reads (getItem i) (putItem i) i.
Proof.
  destruct i; simpl; intros Hi; apply reads_map;
    auto using reads_uint32, reads_uint64, reads_bool, reads_fixed, reads_opaque, reads_string.
Qed.

Lemma reads_items l : Forall itemOK l -> reads (getItems l) (putItems l) l.
Proof.
  induction 1 as [|i l Hi _ IH]; [apply reads_ret|]. unfold putItems. simpl.
  eapply reads_bind; [by apply reads_item|]. rewrite <- (app_nil_r (concat _)). eapply reads_bind; [exact IH|apply reads_ret].
Qed.

Lemma safe_items l : safe (getItems l).
Proof. induction l as [|i l IH]; simpl; [apply safe_ret|]. destruct i; simpl; decoder. Qed.

Lemma local_items l : local (getItems l).
Proof.
  induction l as [|i l IH]; simpl; [apply local_ret|]. pose proof (safe_items l). destruct i; simpl; decoder.
Qed.

Lemma padLen_aligned n : 0 <= n -> (n + padLen n) mod 4 = 0.
Proof. intros. unfold padLen. pose proof (Z.mod_pos_bound n 4). rewrite <- Z.add_mod_idemp_l by lia. 
  assert (n mod 4 = 0 \/ n mod 4 = 1 \/ n mod 4 = 2 \/ n mod 4 = 3) as [->|[->|[->| ->]]] by lia; done.
Qed.

Lemma blen_fixed b : blen (Writer.Fixed b) mod 4 = 0.
Proof.
  unfold Writer.Fixed, Writer.pad. pose proof (padLen_range (blen b)). rewrite blen_app, blen_zeros by lia.
  apply padLen_aligned, blen_nonneg.
Qed.

Lemma blen_be n v : blen (be_bytes n v) = Z.of_nat n.
Proof. unfold blen. by rewrite be_bytes_length. Qed.

(** ** The promises of the codec *)

(** C32 Every message round trips: fields of any kinds and number, written one after
    another, are read back by the same sequence of reads with their values,
    without an error, and with nothing but what followed the message left; and
    what was written is a whole number of four-byte units. *)
Theorem xdr_roundtrip l tl :
  Forall itemOK l ->
  exists r', getItems l (NewReader (putItems l ++ tl)) = (l, r') /\ rErr r' = None /\
    Remaining r' = blen tl /\ blen (putItems l) mod 4 = 0.
Proof.
  intros Hl. destruct (reads_items l Hl (NewReader (putItems l ++ tl)) tl) as (r'&E&[F1 F2]&R).
  { split; simpl; [done|]. split; [lia|apply blen_nonneg]. }
  { done. }
  exists r'. split; [done|]. split; [done|]. split.
  - unfold Remaining. rewrite <- R. unfold rest. rewrite blen_drop by lia. lia.
  - clear -Hl. unfold putItems. induction Hl as [|i l Hi _ IH]; [done|]. simpl. rewrite blen_app, Z.add_mod, IH, Z.add_0_r, Z.mod_mod by lia.
    destruct i; simpl; try apply blen_fixed.
    + unfold Writer.Uint32. by rewrite blen_be.
    + unfold Writer.Uint64. by rewrite blen_be.
    + unfold Writer.Bool, Writer.Uint32. by destruct v; rewrite blen_be.
    + unfold Writer.Opaque, Writer.Uint32. by rewrite blen_app, blen_be, Z.add_mod, blen_fixed.
    + unfold Writer.String, Writer.Uint32. fold (Writer.Fixed (bytesOf s)). by rewrite blen_app, blen_be, Z.add_mod, blen_fixed.
Qed.

(** A message cut short anywhere is refused: reading its fields from a proper
    prefix of it ends with an error, however the values came out. And on any
    bytes at all a sequence of reads stays within the buffer. *)
Theorem xdr_truncated_refused l p q :
  Forall itemOK l -> putItems l = p ++ q -> q ≠ [] ->
  rErr (getItems l (NewReader p)).2 ≠ None /\ rOff (getItems l (NewReader p)).2 <= blen p.
Proof.
  intros Hl Hpq Hq. assert (Hw : within (NewReader p)) by (split; simpl; [lia|apply blen_nonneg]).
  pose proof (safe_items l (NewReader p) Hw) as [A1 A2 _]. simpl in *. split; [|lia]. intros He.
  pose proof (local_items l q (NewReader p) Hw He) as Hx.
  destruct (reads_items l Hl (NewReader (putItems l)) []) as (r'&E&[_ F2]&R).
  { split; simpl; [done|]. split; [lia|apply blen_nonneg]. }
  { unfold rest, bdrop. simpl. by rewrite app_nil_r. }
  rewrite Hpq in E. change (NewReader (p ++ q)) with (extend q (NewReader p)) in E. rewrite Hx in E.
  injection E as _ <-. simpl in R, F2. pose proof (f_equal blen R) as Hr. unfold rest in Hr. simpl in Hr.
  rewrite blen_drop, A1, blen_app in Hr by lia. destruct q; [done|]. unfold blen in *. simpl in *. lia.
Qed.
