(* ===== verification/ReplyCache.v ===== *)
(** * The duplicate request cache (internal/sunrpc/cache.go)

    The replies of the calls that must not run twice, by connection, xid and
    procedure. [entries] maps a key to its stored reply, or to [None] while the
    call is in flight; [done] is the eviction queue, oldest first. Every method
    runs under the cache's mutex and is one step; the clock readings are
    arguments, in nanoseconds. *)

From Stdlib Require Import Strings.Byte.
From Stdlib Require Sorted.
From S2P Require Import Prelude.

Record replyKey := mkReplyKey { kConn : Z; kXid : Z; kProg : Z; kVers : Z; kProc : Z }.

#[global] Instance replyKey_eq_dec : EqDecision replyKey.
Proof. solve_decision. Defined.

Definition keyTuple (k : replyKey) : Z * Z * Z * Z * Z := (kConn k, kXid k, kProg k, kVers k, kProc k).

#[global] Instance replyKey_countable : Countable replyKey.
Proof.
  apply (inj_countable' keyTuple (fun '(a, b, c, d, e) => mkReplyKey a b c d e)). by intros [].
Defined.

Inductive cacheState := cacheMiss | cacheInFlight | cacheHit.

Record replyCache := mkReplyCache {
  maxEntries : Z;
  maxAge : Z;
  entries : gmap replyKey (option bytes);
  doneQ : list (replyKey * Z)
}.

Definition replyCacheMaxEntries : Z := 4096.
Definition replyCacheMaxAge : Z := 120 * 10 ^ 9.

Definition newReplyCache (n age : Z) : replyCache := mkReplyCache n age ∅ [].

(** [popDone] in a loop while the head is expired. *)
Fixpoint purge (now age : Z) (m : gmap replyKey (option bytes)) (q : list (replyKey * Z))
  : gmap replyKey (option bytes) * list (replyKey * Z) :=
  match q with
  | (k, at_) :: q' => if age <? now - at_ then purge now age (delete k m) q' else (m, q)
  | [] => (m, [])
  end.

(** [popDone] in a loop while there is no room and something to evict. *)
Fixpoint evict (max : Z) (m : gmap replyKey (option bytes)) (q : list (replyKey * Z))
  : gmap replyKey (option bytes) * list (replyKey * Z) :=
  match q with
  | (k, _) :: q' => if max <=? Z.of_nat (size m) then evict max (delete k m) q' else (m, q)
  | [] => (m, [])
  end.

Definition begin (now : Z) (k : replyKey) (c : replyCache) : (option bytes * cacheState) * replyCache :=
  let (m, q) := purge now (maxAge c) (entries c) (doneQ c) in
  match m !! k with
  | Some (Some stored) => ((Some stored, cacheHit), mkReplyCache (maxEntries c) (maxAge c) m q)
  | Some None => ((None, cacheInFlight), mkReplyCache (maxEntries c) (maxAge c) m q)
  | None =>
      let (m, q) := evict (maxEntries c) m q in
      let m := if Z.of_nat (size m) <? maxEntries c then <[k := None]> m else m in
      ((None, cacheMiss), mkReplyCache (maxEntries c) (maxAge c) m q)
  end.

(** [abandon], and what [finish] does with an empty reply. *)
Definition abandon (k : replyKey) (c : replyCache) : replyCache :=
  match entries c !! k with
  | Some None => mkReplyCache (maxEntries c) (maxAge c) (delete k (entries c)) (doneQ c)
  | _ => c
  end.

Definition finish (now : Z) (k : replyKey) (reply : bytes) (c : replyCache) : replyCache :=
  match reply with
  | [] => abandon k c
  | _ =>
      match entries c !! k with
      | Some None => mkReplyCache (maxEntries c) (maxAge c) (<[k := Some reply]> (entries c)) (doneQ c ++ [(k, now)])
      | _ => c
      end
  end.

Definition cacheLen (c : replyCache) : Z := Z.of_nat (size (entries c)).

(** ** The invariant *)

Record cacheOK (c : replyCache) : Prop := {
  co_bound : cacheLen c <= Z.max 0 (maxEntries c);
  co_nodup : NoDup (map fst (doneQ c));
  co_done : forall k, k ∈ map fst (doneQ c) <-> exists r, entries c !! k = Some (Some r);
  co_some : forall k r, entries c !! k = Some (Some r) -> r ≠ []
}.

(** What a queue and a map have in common through a purge or an eviction. *)
Record queued (m : gmap replyKey (option bytes)) (q : list (replyKey * Z)) : Prop := {
  qu_nodup : NoDup (map fst q);
  qu_done : forall k, k ∈ map fst q <-> exists r, m !! k = Some (Some r);
  qu_some : forall k r, m !! k = Some (Some r) -> r ≠ []
}.

Lemma queued_pop m k at_ q : queued m ((k, at_) :: q) -> queued (delete k m) q.
Proof.
  intros [H1 H2 H3]. simpl in *. apply list.NoDup_cons in H1 as [Hk Hq]. split; [done| |].
  - intros j. rewrite lookup_delete. case_decide as Hj.
    + subst. split; [done|by intros [? ?]].
    + rewrite <- H2, elem_of_cons. split; [auto|by intros [->|?]].
  - intros j r. rewrite lookup_delete. case_decide; [done|apply H3].
Qed.

Lemma queued_pop_size m k at_ q : queued m ((k, at_) :: q) -> size m = S (size (delete k m)).
Proof.
  intros [_ H2 _]. destruct (proj1 (H2 k)) as [r Hr]; [apply list_elem_of_here|].
  symmetry. rewrite <- (map_size_insert_None k (Some r)) by apply lookup_delete_eq. by rewrite insert_delete_id.
Qed.

(** A key that stays when the queue is popped: what is in flight always does. *)
Definition spares (m m' : gmap replyKey (option bytes)) : Prop :=
  (forall k, m !! k = Some None -> m' !! k = Some None) /\ (forall k v, m' !! k = Some v -> m !! k = Some v).

Lemma spares_refl m : spares m m.
Proof. done. Qed.

Lemma spares_pop m k at_ q m' : queued m ((k, at_) :: q) -> spares (delete k m) m' -> spares m m'.
Proof.
  intros [_ H2 _] [S1 S2]. destruct (proj1 (H2 k)) as [r Hr]; [apply list_elem_of_here|]. split.
  - intros j Hj. apply S1. rewrite lookup_delete_ne; [done|]. intros ->. congruence.
  - intros j v Hj. apply S2 in Hj. by apply lookup_delete_Some in Hj as [_ ?].
Qed.

Lemma purge_spec now age m q m' q' :
  queued m q -> purge now age m q = (m', q') ->
  queued m' q' /\ spares m m' /\ (size m' <= size m)%nat /\ (exists p, q = p ++ q' /\ Forall (fun x => age < now - x.2) p).
Proof.
  revert m. induction q as [|[k at_] q IH]; intros m Hq; simpl.
  { intros [= <- <-]. split; [done|]. split; [apply spares_refl|]. split; [done|]. by exists []. }
  destruct (Z.ltb_spec age (now - at_)) as [Hx|Hx].
  - intros Hp. destruct (IH _ (queued_pop _ _ _ _ Hq) Hp) as (H1&H2&H3&p&->&H4). split; [done|].
    split; [by eapply spares_pop|]. pose proof (queued_pop_size _ _ _ _ Hq). split; [lia|].
    exists ((k, at_) :: p). split; [done|]. by constructor.
  - intros [= <- <-]. split; [done|]. split; [apply spares_refl|]. split; [done|]. by exists [].
Qed.

Lemma evictOld_spec max m q m' q' :
  queued m q -> evict max m q = (m', q') ->
  queued m' q' /\ spares m m' /\ (size m' <= size m)%nat /\ (exists p, q = p ++ q') /\
  (Z.of_nat (size m) < max -> m' = m /\ q' = q) /\
  (q' = [] \/ Z.of_nat (size m') < max).
Proof.
  revert m. induction q as [|[k at_] q IH]; intros m Hq; simpl.
  { intros [= <- <-]. split; [done|]. split; [apply spares_refl|]. split; [done|]. split; [by exists []|]. auto. }
  destruct (Z.leb_spec max (Z.of_nat (size m))) as [Hx|Hx].
  - intros Hp. destruct (IH _ (queued_pop _ _ _ _ Hq) Hp) as (H1&H2&H3&(p&->)&H4&H5). split; [done|].
    split; [by eapply spares_pop|]. pose proof (queued_pop_size _ _ _ _ Hq). split; [lia|].
    split; [by exists ((k, at_) :: p)|]. split; [lia|done].
  - intros [= <- <-]. split; [done|]. split; [apply spares_refl|]. split; [done|]. split; [by exists []|]. auto.
Qed.

Lemma cacheOK_queued c : cacheOK c -> queued (entries c) (doneQ c).
Proof. intros [_ H1 H2 H3]. by split. Qed.

(** ** The methods, case by case *)

Lemma begin_spec now k c s c' :
  cacheOK c -> begin now k c = (s, c') ->
  cacheOK c' /\ maxEntries c' = maxEntries c /\ maxAge c' = maxAge c /\
  (forall j, entries c !! j = Some None -> entries c' !! j = Some None) /\
  (forall j r, entries c' !! j = Some (Some r) -> entries c !! j = Some (Some r)) /\
  match s.2 with
  | cacheHit => exists r, s.1 = Some r /\ entries c' !! k = Some (Some r)
  | cacheInFlight => s.1 = None /\ entries c !! k = Some None
  | cacheMiss => s.1 = None /\ entries c !! k ≠ Some None /\
      (entries c' !! k = Some None \/ (entries c' !! k = None /\ doneQ c' = [] /\ maxEntries c <= cacheLen c'))
  end.
Proof.
  intros Hok. pose proof (cacheOK_queued c Hok) as Hq. pose proof (co_bound c Hok) as Hb. unfold cacheLen in Hb.
  unfold begin. destruct (purge now (maxAge c) (entries c) (doneQ c)) as [m q] eqn:Ep.
  destruct (purge_spec _ _ _ _ _ _ Hq Ep) as (Hq1&[Hs1 Hs2]&Hz1&_).
  assert (Hok1 : cacheOK (mkReplyCache (maxEntries c) (maxAge c) m q)).
  { destruct Hq1. split; try done. unfold cacheLen. simpl. lia. }
  destruct (m !! k) as [[r|]|] eqn:Ek.
  - intros [= <- <-]. simpl. do 4 (split; [done|]). split; [intros j x; apply Hs2|]. by exists r.
  - intros [= <- <-]. simpl. do 4 (split; [done|]). split; [intros j x; apply Hs2|]. split; [done|by apply Hs2].
  - destruct (evict (maxEntries c) m q) as [m2 q2] eqn:Ee.
    destruct (evictOld_spec _ _ _ _ _ Hq1 Ee) as ([N1 N2 N3]&[Ht1 Ht2]&Hz2&_&_&Hroom). intros [= <- <-]. simpl.
    assert (Ek2 : m2 !! k = None). { destruct (m2 !! k) eqn:E; [|done]. apply Ht2 in E. congruence. }
    assert (Hnf : entries c !! k ≠ Some None). { intros E. apply Hs1 in E. congruence. }
    destruct (Z.ltb_spec (Z.of_nat (size m2)) (maxEntries c)) as [Hlt|Hge].
    + split; [|split; [done|split; [done|split; [|split; [|split; [done|split; [done|]]]]]]].
      * split; simpl.
        -- unfold cacheLen. simpl. rewrite map_size_insert_None by done. lia.
        -- done.
        -- intros j. rewrite N2. rewrite lookup_insert. case_decide; [|done]. subst. rewrite Ek2. split; by intros [? ?].
        -- intros j r. rewrite lookup_insert. case_decide; [done|apply N3].
      * intros j Hj. rewrite lookup_insert. case_decide; [done|]. auto.
      * intros j r. rewrite lookup_insert. case_decide; [done|]. auto.
      * left. apply lookup_insert_eq.
    + split; [|split; [done|split; [done|split; [auto|split; [auto|split; [done|split; [done|]]]]]]].
      * split; simpl; try done. unfold cacheLen. simpl. lia.
      * right. split; [done|]. split; [|unfold cacheLen; simpl; lia]. destruct Hroom; [done|lia].
Qed.

(** A [begin] puts no call in flight but its own. *)
Lemma begin_flight now k c j : cacheOK c -> j ≠ k -> entries (begin now k c).2 !! j = Some None -> entries c !! j = Some None.
Proof.
  intros Hok Hj. pose proof (cacheOK_queued c Hok) as Hq. unfold begin. destruct (purge now (maxAge c) (entries c) (doneQ c)) as [m q] eqn:Ep.
  destruct (purge_spec _ _ _ _ _ _ Hq Ep) as (Hq1&[_ Hs]&_). destruct (m !! k) as [[r|]|]; [apply Hs..|].
  destruct (evict (maxEntries c) m q) as [m2 q2] eqn:Ee. destruct (evictOld_spec _ _ _ _ _ Hq1 Ee) as (_&[_ Ht]&_). cbn [snd entries].
  destruct (_ <? _); [rewrite lookup_insert_ne by done|]; intros Hf; by apply Hs, Ht.
Qed.

Lemma abandon_spec k c :
  cacheOK c -> cacheOK (abandon k c) /\ maxEntries (abandon k c) = maxEntries c /\ maxAge (abandon k c) = maxAge c /\
  (forall j, j ≠ k -> entries (abandon k c) !! j = entries c !! j) /\
  (forall r, entries (abandon k c) !! k = Some (Some r) <-> entries c !! k = Some (Some r)) /\
  entries (abandon k c) !! k ≠ Some None.
Proof.
  intros [H1 H2 H3 H4]. unfold abandon. destruct (entries c !! k) as [[r|]|] eqn:E.
  - split; [done|]. split; [done|]. split; [done|]. split; [done|]. split; [|congruence]. intros r'. by rewrite E.
  - split; [|split; [done|split; [done|split; [|split]]]]; simpl.
    + split; simpl.
      * unfold cacheLen in *. simpl. pose proof (map_size_delete k (entries c)) as Hd. rewrite E in Hd. simpl in Hd. lia.
      * done.
      * intros j. rewrite H3, lookup_delete. case_decide; [|done]. subst. rewrite E. split; by intros [? ?].
      * intros j r. rewrite lookup_delete. case_decide; [done|apply H4].
    + intros j Hj. by rewrite lookup_delete_ne.
    + intros r. rewrite lookup_delete_eq. done.
    + by rewrite lookup_delete_eq.
  - split; [done|]. split; [done|]. split; [done|]. split; [done|]. split; [|congruence]. intros r'. by rewrite E.
Qed.

Lemma finish_spec now k reply c :
  cacheOK c -> cacheOK (finish now k reply c) /\ maxEntries (finish now k reply c) = maxEntries c /\ maxAge (finish now k reply c) = maxAge c /\
  (forall j, j ≠ k -> entries (finish now k reply c) !! j = entries c !! j) /\
  (reply ≠ [] -> entries c !! k = Some None -> entries (finish now k reply c) !! k = Some (Some reply)) /\
  (forall r, entries (finish now k reply c) !! k = Some (Some r) -> entries c !! k = Some (Some r) \/ (r = reply /\ entries c !! k = Some None)).
Proof.
  intros Hok. destruct reply as [|b reply].
  { simpl. destruct (abandon_spec k c Hok) as (A1&A2&A3&A4&A5&_). do 4 (split; [done|]). split; [done|]. intros r Hr. left. by apply A5. }
  unfold finish. destruct (entries c !! k) as [[r|]|] eqn:E; [| |].
  1, 3: split_and!; [done|done|done|done|congruence|intros r' Hr; left; congruence].
  destruct Hok as [H1 H2 H3 H4]. split; [|split; [done|split; [done|split; [|split]]]]; simpl.
  - assert (Hn : k ∉ map fst (doneQ c)) by (rewrite H3; intros [? ?]; congruence). split; simpl.
    + unfold cacheLen in *. simpl. rewrite map_size_insert_Some by eauto. done.
    + rewrite map_app. apply list.NoDup_app. split; [done|]. split; [|apply NoDup_singleton].
      intros x Hx ->%list_elem_of_singleton. done.
    + intros j. rewrite map_app, elem_of_app, H3, lookup_insert. simpl. rewrite list_elem_of_singleton. case_decide.
      * subst. split; [eauto|auto].
      * split; [intros [?|?]; [done|congruence]|auto].
    + intros j r. rewrite lookup_insert. case_decide; [by intros [= <-]|apply H4].
  - intros j Hj. by rewrite lookup_insert_ne.
  - intros _ _. apply lookup_insert_eq.
  - intros r. rewrite lookup_insert_eq. intros [= <-]. auto.
Qed.

(** ** Runs *)

Inductive cacheOp :=
| OBegin (now : Z) (k : replyKey)
| OFinish (now : Z) (k : replyKey) (reply : bytes)
| OAbandon (k : replyKey).

Definition cacheStep (c : replyCache) (op : cacheOp) : replyCache :=
  match op with
  | OBegin now k => (begin now k c).2
  | OFinish now k reply => finish now k reply c
  | OAbandon k => abandon k c
  end.

Definition cacheRun (ops : list cacheOp) (c : replyCache) : replyCache := foldl cacheStep c ops.

(** The clock reading of a step, if it makes one. *)
Definition opTime (op : cacheOp) : option Z :=
  match op with OBegin now _ | OFinish now _ _ => Some now | OAbandon _ => None end.

(** The readings of a run never go back: Go compares monotonic readings. *)
Fixpoint clocked (t : Z) (ops : list cacheOp) (now : Z) : Prop :=
  match ops with
  | [] => t <= now
  | op :: ops => match opTime op with Some t' => t <= t' /\ clocked t' ops now | None => clocked t ops now end
  end.

Lemma newReplyCache_ok n age : cacheOK (newReplyCache n age).
Proof.
  split; simpl.
  - unfold cacheLen. simpl. rewrite map_size_empty. lia.
  - constructor.
  - intros k. rewrite lookup_empty. split; [by intros ?%elem_of_nil|by intros [? ?]].
  - intros k r. by rewrite lookup_empty.
Qed.

Lemma cacheStep_ok c op :
  cacheOK c -> cacheOK (cacheStep c op) /\ maxEntries (cacheStep c op) = maxEntries c /\ maxAge (cacheStep c op) = maxAge c.
Proof.
  intros Hok. destruct op as [now k|now k r|k]; simpl.
  - destruct (begin now k c) as [s c'] eqn:E. destruct (begin_spec _ _ _ _ _ Hok E) as (?&?&?&_). done.
  - destruct (finish_spec now k r c Hok) as (?&?&?&_). done.
  - destruct (abandon_spec k c Hok) as (?&?&?&_). done.
Qed.

Lemma cacheRun_ok ops c :
  cacheOK c -> cacheOK (cacheRun ops c) /\ maxEntries (cacheRun ops c) = maxEntries c /\ maxAge (cacheRun ops c) = maxAge c.
Proof.
  revert c. induction ops as [|op ops IH]; intros c Hok; [done|]. simpl.
  destruct (cacheStep_ok c op Hok) as (H1&H2&H3). destruct (IH _ H1) as (K1&K2&K3).
  split; [done|]. split; congruence.
Qed.

(** *** What is stored, and since when *)

(** Every reply in the queue was stored by a [finish] of the run so far at the
    time the queue says, and the queue is in the order of those times, none of
    which is past [t]. *)
Record storedBy (past : list cacheOp) (t : Z) (c : replyCache) : Prop := {
  sb_from : forall k at_, (k, at_) ∈ doneQ c -> exists r, entries c !! k = Some (Some r) /\ OFinish at_ k r ∈ past;
  sb_sorted : Sorted.StronglySorted (fun x y => x.2 <= y.2) (doneQ c);
  sb_past : Forall (fun x => x.2 <= t) (doneQ c)
}.

Lemma strongly_suffix {A} (R : A -> A -> Prop) p q : Sorted.StronglySorted R (p ++ q) -> Sorted.StronglySorted R q.
Proof. induction p; simpl; [done|]. intros H. inversion H. auto. Qed.

Lemma strongly_snoc {A} (R : A -> A -> Prop) q x : Sorted.StronglySorted R q -> Forall (fun y => R y x) q -> Sorted.StronglySorted R (q ++ [x]).
Proof.
  induction 1 as [|y q Hq IH Hy]; simpl; intros Hf; [repeat constructor|].
  apply list.Forall_cons in Hf as [Hyx Hf]. constructor; [by apply IH|].
  apply Forall_app. split; [done|]. by constructor.
Qed.

Lemma storedBy_weaken past t past' t' c : storedBy past t c -> past ⊆ past' -> t <= t' -> storedBy past' t' c.
Proof.
  intros [H1 H2 H3] Hs Ht. split; [|done|].
  - intros k a Hk. destruct (H1 k a Hk) as (r&?&?). eauto.
  - eapply list.Forall_impl; [exact H3|]. simpl. lia.
Qed.

(** Popping the queue keeps it. *)
Lemma storedBy_suffix past t c m q p :
  storedBy past t c -> doneQ c = p ++ q -> queued m q -> spares (entries c) m ->
  storedBy past t (mkReplyCache (maxEntries c) (maxAge c) m q).
Proof.
  intros [H1 H2 H3] Hp [_ Q2 _] [_ S2]. rewrite Hp in *. split; simpl.
  - intros k a Hk. destruct (H1 k a) as (r&Hr&Hin); [apply elem_of_app; by right|].
    destruct (proj1 (Q2 k)) as [r' Hr']; [apply list_elem_of_fmap; by exists (k, a)|]. exists r'. split; [done|].
    apply S2 in Hr'. congruence.
  - by eapply strongly_suffix.
  - by apply Forall_app in H3 as [_ ?].
Qed.

Lemma storedBy_begin past t c now k :
  cacheOK c -> storedBy past t c -> t <= now -> storedBy (past ++ [OBegin now k]) now (begin now k c).2.
Proof.
  intros Hok Hs Ht. apply (storedBy_weaken past t); [|set_solver|done]. pose proof (cacheOK_queued c Hok) as Hq.
  unfold begin. destruct (purge now (maxAge c) (entries c) (doneQ c)) as [m q] eqn:Ep.
  destruct (purge_spec _ _ _ _ _ _ Hq Ep) as (Hq1&Hs1&_&p&Hp&_).
  destruct (m !! k) as [[r|]|] eqn:Ek; [by eapply storedBy_suffix..|].
  destruct (evict (maxEntries c) m q) as [m2 q2] eqn:Ee.
  destruct (evictOld_spec _ _ _ _ _ Hq1 Ee) as (Hq2&Hs2&_&(p2&->)&_). simpl.
  assert (Hst : storedBy past t (mkReplyCache (maxEntries c) (maxAge c) m2 q2)).
  { apply (storedBy_suffix past t c m2 q2 (p ++ p2)); [done|by rewrite <- app_assoc|done|].
    destruct Hs1, Hs2. split; auto. }
  destruct (Z.ltb_spec (Z.of_nat (size m2)) (maxEntries c)); [|done]. destruct Hst as [T1 T2 T3]. split; simpl in *; [|done|done].
  intros j a Hj. destruct (T1 j a Hj) as (r&Hr&Hin). exists r. split; [|done]. rewrite lookup_insert_ne; [done|]. intros <-.
  destruct Hs2 as [_ Hs2]. apply Hs2 in Hr. congruence.
Qed.

Lemma storedBy_abandon past t c k : storedBy past t c -> storedBy past t (abandon k c).
Proof.
  intros [H1 H2 H3]. unfold abandon. destruct (entries c !! k) as [[r|]|] eqn:E; [by split| |by split]. split; simpl; [|done|done].
  intros j a Hj. destruct (H1 j a Hj) as (r&Hr&Hin). exists r. split; [|done]. rewrite lookup_delete_ne; [done|]. congruence.
Qed.

Lemma storedBy_finish past t c now k reply :
  storedBy past t c -> t <= now -> storedBy (past ++ [OFinish now k reply]) now (finish now k reply c).
Proof.
  intros Hs Ht. assert (Hw : storedBy (past ++ [OFinish now k reply]) now c) by (apply (storedBy_weaken past t); [done|set_solver|done]).
  unfold finish. destruct reply as [|b reply]; [by apply storedBy_abandon|].
  destruct (entries c !! k) as [[r|]|] eqn:E; [done| |done]. destruct Hw as [H1 H2 H3]. split; simpl.
  - intros j a. rewrite elem_of_app, list_elem_of_singleton. intros [Hj|[= -> ->]].
    + destruct (H1 j a Hj) as (r&Hr&Hin). exists r. split; [|done]. rewrite lookup_insert_ne; [done|]. congruence.
    + exists (b :: reply). rewrite lookup_insert_eq. split; [done|]. apply elem_of_app. right. apply list_elem_of_here.
  - apply strongly_snoc; [done|]. eapply list.Forall_impl; [exact H3|]. simpl. lia.
  - apply Forall_app. split; [done|]. by repeat constructor.
Qed.

Lemma storedBy_run ops past t c now :
  cacheOK c -> storedBy past t c -> clocked t ops now -> exists t', t' <= now /\ storedBy (past ++ ops) t' (cacheRun ops c).
Proof.
  revert past t c. induction ops as [|op ops IH]; intros past t c Hok Hs Hc; simpl in *.
  { exists t. by rewrite app_nil_r. }
  destruct (cacheStep_ok c op Hok) as (Hok'&_).
  replace (past ++ op :: ops) with ((past ++ [op]) ++ ops) by by rewrite <- app_assoc.
  destruct op as [t' k|t' k r|k]; simpl in Hc.
  - apply (IH _ t'); [done| |apply Hc]. apply (storedBy_begin past t); [done|done|apply Hc].
  - apply (IH _ t'); [done| |apply Hc]. apply (storedBy_finish past t); [done|apply Hc].
  - apply (IH _ t); [done| |done]. apply (storedBy_weaken past t); [by apply storedBy_abandon|set_solver|done].
Qed.

(** What is left after a purge has not expired. *)
Lemma purge_fresh now age m q m' q' :
  Sorted.StronglySorted (fun x y => x.2 <= y.2) q -> purge now age m q = (m', q') -> Forall (fun x => now - x.2 <= age) q'.
Proof.
  revert m. induction q as [|[k a] q IH]; intros m Hs; simpl.
  { intros [= _ <-]. constructor. }
  inversion Hs as [|? ? Hq Hall]; subst. destruct (Z.ltb_spec age (now - a)); [by apply IH|].
  intros [= _ <-]. constructor; [done|]. eapply list.Forall_impl; [exact Hall|]. simpl. lia.
Qed.

(** *** The promises *)

(** The cache keeps to its bound: after any sequence of calls it holds at most
    its maximum of entries, its queue lists exactly the replies it stores, each
    once, and no stored reply is empty. *)
Theorem cache_bounded ops n age :
  0 <= n -> cacheLen (cacheRun ops (newReplyCache n age)) <= n /\ cacheOK (cacheRun ops (newReplyCache n age)).
Proof.
  intros Hn. destruct (cacheRun_ok ops _ (newReplyCache_ok n age)) as (H1&H2&_). split; [|done].
  pose proof (co_bound _ H1) as Hb. rewrite H2 in Hb. simpl in Hb. lia.
Qed.

(** A replayed reply is genuine: what a [begin] answers as a hit is, byte for
    byte, what a [finish] for the same key was given, and not longer ago than
    the maximum age. *)
Theorem cache_hit_genuine ops n age t now k r c' :
  clocked t ops now -> begin now k (cacheRun ops (newReplyCache n age)) = ((Some r, cacheHit), c') ->
  exists at_, OFinish at_ k r ∈ ops /\ now - at_ <= age.
Proof.
  intros Hc Hb. destruct (storedBy_run ops [] t (newReplyCache n age) now (newReplyCache_ok n age)) as (t'&Ht&Hs).
  { split; simpl; [by intros ? ? ?%elem_of_nil|constructor|constructor]. }
  { done. }
  destruct (cacheRun_ok ops _ (newReplyCache_ok n age)) as (Hok&_&Hage). set (c := cacheRun ops _) in *. simpl in Hs, Hage.
  unfold begin in Hb. destruct (purge now (maxAge c) (entries c) (doneQ c)) as [m q] eqn:Ep.
  destruct (purge_spec _ _ _ _ _ _ (cacheOK_queued c Hok) Ep) as ([_ Q2 _]&[_ S2]&_&p&Hp&_).
  destruct (m !! k) as [[r'|]|] eqn:Ek; [|done|by destruct (evict _ _ _)]. injection Hb as -> _.
  assert (Hin : k ∈ map fst q) by (apply Q2; eauto). apply list_elem_of_fmap in Hin as ([k' at_]&Hk&Hin). simpl in Hk. subst k'.
  destruct (sb_from _ _ _ Hs k at_) as (r'&Hr'&Hfin); [rewrite Hp; apply elem_of_app; by right|].
  apply S2 in Ek. assert (r' = r) as -> by congruence. exists at_. split; [done|].
  pose proof (purge_fresh _ _ _ _ _ _ (sb_sorted _ _ _ Hs) Ep) as Hhd. rewrite Hage in Hhd.
  rewrite list.Forall_forall in Hhd. exact (Hhd _ Hin).
Qed.

(** While a call is executing, no duplicate of it starts: from the [begin] that
    reserved its key until the [finish] or [abandon] for that key, every [begin]
    for it answers that the call is in flight, whatever else the cache is asked
    to do and however full it is. *)
Theorem cache_one_in_flight ops c k now :
  cacheOK c -> entries c !! k = Some None ->
  Forall (fun op => match op with OFinish _ k' _ | OAbandon k' => k' ≠ k | OBegin _ _ => True end) ops ->
  (begin now k (cacheRun ops c)).1 = (None, cacheInFlight).
Proof.
  intros Hok Hk Hops. revert c Hok Hk. induction Hops as [|op ops Hop _ IH]; intros c Hok Hk; simpl.
  - destruct (begin now k c) as [[o s] c'] eqn:E. destruct (begin_spec _ _ _ _ _ Hok E) as (_&_&_&Hkeep&Hsub&Hs). simpl in *.
    destruct s; [by destruct Hs as (_&?&_)|by destruct Hs as [-> _]|]. destruct Hs as (r&_&Hr). apply Hsub in Hr. congruence.
  - destruct (cacheStep_ok c op Hok) as (Hok'&_). apply IH; [done|]. destruct op as [t j|t j r|j]; simpl in *.
    + destruct (begin t j c) as [s c'] eqn:E. destruct (begin_spec _ _ _ _ _ Hok E) as (_&_&_&Hkeep&_). by apply Hkeep.
    + destruct (finish_spec t j r c Hok) as (_&_&_&Hne&_). by rewrite Hne.
    + destruct (abandon_spec j c Hok) as (_&_&_&Hne&_). by rewrite Hne.
Qed.

(** A reply that is stored stays: neither younger than the maximum age nor with
    room in the cache is it dropped. *)
Lemma kept_step c op k t r :
  cacheOK c -> (k, t) ∈ doneQ c -> entries c !! k = Some (Some r) -> cacheLen c < maxEntries c ->
  (forall now, opTime op = Some now -> now - t <= maxAge c) ->
  (k, t) ∈ doneQ (cacheStep c op) /\ entries (cacheStep c op) !! k = Some (Some r) /\ cacheLen (cacheStep c op) <= cacheLen c + 1.
Proof.
  intros Hok Hin Hr Hroom Hage. destruct op as [now j|now j rep|j]; simpl in *.
  - specialize (Hage now eq_refl). unfold begin. destruct (purge now (maxAge c) (entries c) (doneQ c)) as [m q] eqn:Ep.
    destruct (purge_spec _ _ _ _ _ _ (cacheOK_queued c Hok) Ep) as (Hq1&[_ S2]&Hz&p&Hp&Hex).
    assert (Hq : (k, t) ∈ q).
    { rewrite Hp, elem_of_app in Hin. destruct Hin as [Hin|?]; [|done]. rewrite list.Forall_forall in Hex. apply Hex in Hin. simpl in Hin. lia. }
    assert (Hm : m !! k = Some (Some r)).
    { destruct (proj1 (qu_done _ _ Hq1 k)) as [r' Hr']; [apply list_elem_of_fmap; by exists (k, t)|]. rewrite Hr'. apply S2 in Hr'. congruence. }
    unfold cacheLen in *. destruct (m !! j) as [[?|]|] eqn:Ej; simpl; [split_and!; [done|done|lia]..|].
    destruct (evict (maxEntries c) m q) as [m2 q2] eqn:Ee. destruct (evictOld_spec _ _ _ _ _ Hq1 Ee) as (_&_&_&_&Hno&_).
    destruct (Hno ltac:(lia)) as [-> ->]. simpl. split; [done|]. destruct (Z.ltb_spec (Z.of_nat (size m)) (maxEntries c)); [|split; [done|lia]].
    rewrite lookup_insert_ne by congruence. split; [done|]. rewrite map_size_insert_None by done. lia.
  - destruct (finish_spec now j rep c Hok) as (_&_&_&Hne&_). destruct (decide (k = j)) as [->|Hj].
    + unfold finish, abandon. rewrite Hr. destruct rep; (split; [done|]; split; [done|lia]).
    + rewrite Hne by done. unfold finish, abandon, cacheLen. destruct rep, (entries c !! j) as [[?|]|] eqn:E; simpl; (split; [|split; [done|]]); try done; try lia.
      * rewrite map_size_delete, E. simpl. lia.
      * apply elem_of_app. by left.
      * rewrite map_size_insert_Some by eauto. lia.
  - destruct (abandon_spec j c Hok) as (_&_&_&Hne&_). unfold abandon, cacheLen in *. destruct (entries c !! j) as [[?|]|] eqn:E; simpl.
    + split_and!; [done|done|lia].
    + rewrite lookup_delete_ne by congruence. split_and!; [done|done|]. rewrite map_size_delete, E. simpl. lia.
    + split_and!; [done|done|lia].
Qed.

Lemma kept_run ops c k t r :
  cacheOK c -> (k, t) ∈ doneQ c -> entries c !! k = Some (Some r) -> cacheLen c + blen ops <= maxEntries c ->
  Forall (fun op => forall now, opTime op = Some now -> now - t <= maxAge c) ops ->
  (k, t) ∈ doneQ (cacheRun ops c) /\ entries (cacheRun ops c) !! k = Some (Some r).
Proof.
  intros Hok Hin Hr Hroom Hops. revert c Hok Hin Hr Hroom Hops. induction ops as [|op ops IH]; intros c Hok Hin Hr Hroom Hops; [done|].
  apply list.Forall_cons in Hops as [Hop Hops]. destruct (cacheStep_ok c op Hok) as (Hok'&Hmx&Hag).
  assert (Hl : blen (op :: ops) = 1 + blen ops) by (unfold blen; simpl; lia). pose proof (blen_nonneg ops).
  destruct (kept_step c op k t r Hok Hin Hr ltac:(lia) Hop) as (K1&K2&K3). simpl. apply IH; [done|done|done|lia|].
  by rewrite Hag.
Qed.

(** A retransmission is answered with the original's reply: once a call's reply
    is stored, every duplicate that arrives within the maximum age gets exactly
    its bytes, if no more calls came in between than the cache had room for. *)
Theorem cache_replays ops c k t reply now :
  cacheOK c -> entries c !! k = Some None -> reply ≠ [] -> cacheLen c + blen ops <= maxEntries c ->
  Forall (fun op => forall now, opTime op = Some now -> now - t <= maxAge c) ops -> now - t <= maxAge c ->
  (begin now k (cacheRun ops (finish t k reply c))).1 = (Some reply, cacheHit).
Proof.
  intros Hok Hk Hne Hroom Hops Hnow. destruct (finish_spec t k reply c Hok) as (Hok1&Hmx&Hag&_&Hst&_). specialize (Hst Hne Hk).
  assert (Hin : (k, t) ∈ doneQ (finish t k reply c)).
  { unfold finish. rewrite Hk. destruct reply; [done|]. simpl. apply elem_of_app. right. apply list_elem_of_here. }
  assert (Hlen : cacheLen (finish t k reply c) = cacheLen c).
  { unfold finish, cacheLen. rewrite Hk. destruct reply; [done|]. simpl. rewrite map_size_insert_Some by eauto. done. }
  destruct (kept_run ops _ k t reply Hok1 Hin Hst) as [K1 K2]; [by rewrite Hlen, Hmx|by rewrite Hag|].
  destruct (cacheRun_ok ops _ Hok1) as (Hok2&_&Hag2). set (c2 := cacheRun ops _) in *.
  unfold begin. destruct (purge now (maxAge c2) (entries c2) (doneQ c2)) as [m q] eqn:Ep.
  destruct (purge_spec _ _ _ _ _ _ (cacheOK_queued c2 Hok2) Ep) as (Hq1&[_ S2]&_&p&Hp&Hex).
  assert (Hq : (k, t) ∈ q).
  { rewrite Hp, elem_of_app in K1. destruct K1 as [K1|?]; [|done]. rewrite list.Forall_forall in Hex. apply Hex in K1. simpl in K1. lia. }
  destruct (proj1 (qu_done _ _ Hq1 k)) as [r' Hr']; [apply list_elem_of_fmap; by exists (k, t)|]. rewrite Hr'. apply S2 in Hr'. simpl. congruence.
Qed.

(** With room in the cache a call that is to be executed has its key reserved. *)
Lemma begin_reserves now k c :
  cacheOK c -> cacheLen c < maxEntries c -> (begin now k c).1.2 = cacheMiss ->
  entries (begin now k c).2 !! k = Some None /\ cacheLen (begin now k c).2 <= cacheLen c + 1.
Proof.
  intros Hok Hroom. unfold begin. destruct (purge now (maxAge c) (entries c) (doneQ c)) as [m q] eqn:Ep.
  destruct (purge_spec _ _ _ _ _ _ (cacheOK_queued c Hok) Ep) as (Hq1&_&Hz&_). unfold cacheLen in *.
  destruct (m !! k) as [[?|]|] eqn:Ek; [done|done|]. destruct (evict (maxEntries c) m q) as [m2 q2] eqn:Ee.
  destruct (evictOld_spec _ _ _ _ _ Hq1 Ee) as (_&_&_&_&Hno&_). destruct (Hno ltac:(lia)) as [-> ->]. simpl. intros _.
  destruct (Z.ltb_spec (Z.of_nat (size m)) (maxEntries c)); [|lia]. split; [apply lookup_insert_eq|].
  rewrite map_size_insert_None by done. lia.
Qed.
