(* ===== verification/Rpc.v ===== *)
(** * The RPC server (internal/sunrpc/rpc.go)

    Record marking over a byte stream, credentials, and the dispatch of a call
    to a registered program through the duplicate request cache. A [Handler] is
    the interface of that name over a state [S]; its argument [e] of [Call] is
    the clock and chance the call meets. [classify] is the part of [dispatch]
    that is a function of the record and the registrations alone; [dispatch]
    runs the call and records its reply. *)

From Stdlib Require Import Strings.Byte.
From S2P Require Import Prelude Vfs Inode Xdr ReplyCache.

Definition callMsg : Z := 0.
Definition replyMsg : Z := 1.
Definition msgAccepted : Z := 0.
Definition msgDenied : Z := 1.
Definition success : Z := 0.
Definition progUnavail : Z := 1.
Definition progMismatch : Z := 2.
Definition procUnavail : Z := 3.
Definition garbageArgs : Z := 4.
Definition systemErr : Z := 5.
Definition rpcMismatch : Z := 0.
Definition authError : Z := 1.
Definition authNone : Z := 0.
Definition authSys : Z := 1.
Definition rpcVersion : Z := 2.
Definition maxRecord : Z := Z.shiftl 8 20.

(** ** Record marking *)

(** What ends a read of the stream. *)
Inductive recErr := EOF | UnexpectedEOF | RecordTooLong.

(** [io.ReadFull] of [n] bytes: the bytes and what is left of the stream. *)
Definition readFull (n : Z) (s : bytes) : res recErr (bytes * bytes) :=
  if n <=? blen s then Ok (btake n s, bdrop n s)
  else match s with [] => Err EOF | _ => Err UnexpectedEOF end.

(** [None] is a loop that ran out of fuel; every turn takes four bytes or ends
    the loop. *)
Fixpoint readRecordLoop (fuel : nat) (out s : bytes) : option (res recErr (bytes * bytes)) :=
  match fuel with
  | O => None
  | S fuel =>
      match readFull 4 s with
      | Err e => Some (Err e)
      | Ok (hdr, s) =>
          let h := be_Z hdr in
          let last := negb (Z.land h 0x80000000 =? 0) in
          let n := Z.land h 0x7fffffff in
          if maxRecord <? blen out + n then Some (Err RecordTooLong)
          else match readFull n s with
               | Err e => Some (Err e)
               | Ok (frag, s) => if last then Some (Ok (out ++ frag, s)) else readRecordLoop fuel (out ++ frag) s
               end
      end
  end.

Definition readRecord (s : bytes) : option (res recErr (bytes * bytes)) := readRecordLoop (S (length s)) [] s.

Definition writeRecord (body : bytes) : bytes := be_bytes 4 (Z.lor (u32 (blen body)) 0x80000000) ++ body.

(** ** The wait before an Accept is tried again, in nanoseconds *)

Definition acceptDelay (prev : Z) : Z :=
  let first := 5 * 10 ^ 6 in
  let limit := 10 ^ 9 in
  if prev <=? 0 then first
  else if limit / 2 <=? prev then limit
  else if first <? 2 * prev then 2 * prev else first.

(** ** Credentials *)

Record Cred := mkCred { crUID : Z; crGID : Z; crGIDs : list Z; crMachine : string }.

Definition readOpaqueAuth : rd (res xdrErr Z) :=
  let^ flavor := Reader.Uint32 in
  let^ _ := Reader.Opaque in
  let^ e := errOf in
  rret (match e with Some e => Err e | None => Ok flavor end).

Fixpoint readGIDs (n : nat) : rd (list Z) :=
  match n with
  | O => rret []
  | S n => let^ g := Reader.Uint32 in let^ gs := readGIDs n in rret (g :: gs)
  end.

(** The AUTH_SYS body. *)
Definition readSysCred : rd (res xdrErr Cred) :=
  let^ _ := Reader.Uint32 in
  let^ machine := Reader.String in
  let^ uid := Reader.Uint32 in
  let^ gid := Reader.Uint32 in
  let^ n := Reader.Uint32 in
  let^ e := errOf in
  match e with
  | Some e => rret (Err e)
  | None =>
      let n := if 16 <? n then 16 else n in
      let^ gids := readGIDs (Z.to_nat n) in
      let^ e := errOf in
      rret (match e with Some e => Err e | None => Ok (mkCred uid gid gids machine) end)
  end.

Definition nobody : Cred := mkCred 65534 65534 [] "".

Definition readCred : rd (res xdrErr Cred) :=
  let^ flavor := Reader.Uint32 in
  let^ body := Reader.Opaque in
  let^ e := errOf in
  rret (match e with
        | Some e => Err e
        | None => if flavor =? authSys then (readSysCred (NewReader body)).1 else Ok nobody
        end).

(** ** Programs *)

(** What a call of a procedure comes to: its reply body, an error that is
    ErrGarbageArgs, another error, or a panic. *)
Inductive callOut := CallOk (body : bytes) | CallGarbage | CallFailed | CallPanicked.

Record Handler (S E : Type) := mkHandler {
  Call : E -> Z -> Cred -> Reader -> S -> callOut * S;
  HasProc : Z -> bool;
  Idempotent : Z -> bool
}.
Arguments mkHandler {S E}.
Arguments Call {S E}.
Arguments HasProc {S E}.
Arguments Idempotent {S E}.

(** The registrations of a Server. Its cache is part of the state [dispatch]
    works on. *)
Record Server (S E : Type) := mkServer {
  programs : gmap (Z * Z) (Handler S E);
  versions : gmap Z (list Z)
}.
Arguments mkServer {S E}.
Arguments programs {S E}.
Arguments versions {S E}.

Definition NewServer {S E} : Server S E := mkServer ∅ ∅.
Definition newCache : replyCache := newReplyCache replyCacheMaxEntries replyCacheMaxAge.

Definition Register {S E} (prog vers : Z) (h : Handler S E) (s : Server S E) : Server S E :=
  mkServer (<[(prog, vers) := h]> (programs s))
    (<[prog := default [] (versions s !! prog) ++ [vers]]> (versions s)).

(** ** Replies *)

Definition replyHeader (xid stat : Z) : bytes :=
  Writer.Uint32 xid ++ Writer.Uint32 replyMsg ++ Writer.Uint32 msgAccepted ++
  Writer.Uint32 authNone ++ Writer.Uint32 0 ++ Writer.Uint32 stat.

Definition acceptedErr (xid stat : Z) (extra : bytes) : bytes := replyHeader xid stat ++ extra.

Definition rejectAuth (xid : Z) : bytes :=
  Writer.Uint32 xid ++ Writer.Uint32 replyMsg ++ Writer.Uint32 msgDenied ++ Writer.Uint32 authError ++ Writer.Uint32 1.

Definition rejectMismatch (xid lo hi : Z) : bytes :=
  Writer.Uint32 xid ++ Writer.Uint32 replyMsg ++ Writer.Uint32 msgDenied ++ Writer.Uint32 rpcMismatch ++
  Writer.Uint32 lo ++ Writer.Uint32 hi.

(** The range of the versions registered for a program. *)
Definition versionRange (known : list Z) : Z * Z :=
  let v0 := default 0 (head known) in
  foldl (fun lh v => (if v <? lh.1 then v else lh.1, if lh.2 <? v then v else lh.2)) (v0, v0) known.

(** ** Dispatch *)

(** What a record comes to before anything is executed: no answer, a reply, or
    a call of a procedure under its cache key. *)
Inductive verdict (S E : Type) :=
| Drop
| Answer (reply : bytes)
| Run (k : replyKey) (h : Handler S E) (cred : Cred) (args : Reader).
Arguments Drop {S E}.
Arguments Answer {S E}.
Arguments Run {S E}.

Definition classify {S E} (srv : Server S E) (connID : Z) (rec : bytes) : verdict S E :=
  let (xid, r) := Reader.Uint32 (NewReader rec) in
  let (mtype, r) := Reader.Uint32 r in
  if negb (bool_decide (rErr r = None)) || negb (mtype =? callMsg) then Drop
  else
    let (rpcvers, r) := Reader.Uint32 r in
    let (prog, r) := Reader.Uint32 r in
    let (vers, r) := Reader.Uint32 r in
    let (proc, r) := Reader.Uint32 r in
    if negb (bool_decide (rErr r = None)) then Drop
    else if negb (rpcvers =? rpcVersion) then Answer (rejectMismatch xid rpcVersion rpcVersion)
    else
      match readCred r with
      | (Err _, _) => Answer (rejectAuth xid)
      | (Ok cred, r) =>
          match readOpaqueAuth r with
          | (Err _, _) => Answer (rejectAuth xid)
          | (Ok _, r) =>
              match programs srv !! (prog, vers) with
              | None =>
                  match default [] (versions srv !! prog) with
                  | [] => Answer (acceptedErr xid progUnavail [])
                  | known =>
                      let (lo, hi) := versionRange known in
                      Answer (acceptedErr xid progMismatch (Writer.Uint32 lo ++ Writer.Uint32 hi))
                  end
              | Some h =>
                  if negb (HasProc h proc) then Answer (acceptedErr xid procUnavail [])
                  else Run (mkReplyKey connID xid prog vers proc) h cred r
              end
          end
      end.

(** The reply to what a call came to. *)
Definition encodeReply (xid : Z) (out : callOut) : bytes :=
  match out with
  | CallGarbage => acceptedErr xid garbageArgs []
  | CallFailed | CallPanicked => acceptedErr xid systemErr []
  | CallOk body => replyHeader xid success ++ Writer.Fixed body
  end.

(** [now1] is read by [begin], [now2] by [finish]. *)
Definition dispatch {S E} (srv : Server S E) (connID : Z) (rec : bytes) (now1 now2 : Z) (e : E) (st : replyCache * S)
  : option bytes * (replyCache * S) :=
  let (c, s) := st in
  match classify srv connID rec with
  | Drop => (None, (c, s))
  | Answer reply => (Some reply, (c, s))
  | Run k h cred r =>
      if Idempotent h (kProc k) then
        let (out, s) := Call h e (kProc k) cred r s in (Some (encodeReply (kXid k) out), (c, s))
      else
        match begin now1 k c with
        | ((Some prior, cacheHit), c) => (Some prior, (c, s))
        | ((_, cacheMiss), c) =>
            let (out, s) := Call h e (kProc k) cred r s in
            let reply := encodeReply (kXid k) out in
            (Some reply, (match reply with [] => abandon k c | _ => finish now2 k reply c end, s))
        | (_, c) => (None, (c, s))
        end
  end.
