(* ===== verification/RpcSpec.v ===== *)
(** * What the RPC layer promises

    Records are reassembled and bounded; a well-formed call reaches its
    procedure with exactly what the client sent; every reply is addressed to
    its call; and a retransmitted call is answered without being executed. *)

From Stdlib Require Import Strings.Byte.
From S2P Require Import Prelude Vfs Inode Xdr ReplyCache Rpc.

(** ** Records *)

(** One fragment of a record, and a record sent in fragments. *)
Definition fragment (last : bool) (b : bytes) : bytes :=
  be_bytes 4 (if last then Z.lor (blen b) 0x80000000 else blen b) ++ b.

Definition fragments (init : list bytes) (lastf : bytes) : bytes := concat (map (fragment false) init) ++ fragment true lastf.

Lemma land_high n : 0 <= n < 2 ^ 31 -> Z.land n 0x80000000 = 0.
Proof.
  intros Hn. change 0x80000000 with (2 ^ 31). apply Z.bits_inj'. intros i Hi. rewrite Z.land_spec, Z.bits_0, Z.pow2_bits_eqb by lia.
  destruct (Z.eqb_spec 31 i) as [<-|]; [|by rewrite andb_false_r].
  rewrite <- (Z.mod_small n (2 ^ 31)) by lia. by rewrite Z.mod_pow2_bits_high.
Qed.

Lemma land_low n : 0 <= n < 2 ^ 31 -> Z.land n 0x7fffffff = n.
Proof. intros Hn. change 0x7fffffff with (Z.ones 31). rewrite Z.land_ones by lia. by apply Z.mod_small. Qed.

Lemma fragment_header (last : bool) (b : bytes) (n := blen b) (h := be_Z (be_bytes 4 (if last then Z.lor n 0x80000000 else n))) :
  n < 2 ^ 31 -> negb (Z.land h 0x80000000 =? 0) = last /\ Z.land h 0x7fffffff = n.
Proof.
  intros Hn. assert (H0 : 0 <= n) by apply blen_nonneg. unfold h. rewrite be_Z_bytes. change (256 ^ Z.of_nat 4) with (2 ^ 32).
  destruct last.
  - assert (Hl : Z.lor n 0x80000000 = n + 2 ^ 31).
    { pose proof (Z.add_lor_land n 0x80000000) as H. rewrite land_high in H by lia. lia. }
    rewrite (Z.mod_small (Z.lor n 0x80000000)) by lia. rewrite !Z.land_lor_distr_l, land_high, land_low by lia. split; [done|].
    change (Z.land 0x80000000 0x7fffffff) with 0. apply Z.lor_0_r.
  - rewrite (Z.mod_small n) by lia. rewrite land_high, land_low by lia. done.
Qed.

Lemma readFull_app a s n : n = blen a -> readFull n (a ++ s) = Ok (a, s).
Proof.
  intros ->. unfold readFull. rewrite blen_app. pose proof (blen_nonneg s). destruct (Z.leb_spec (blen a) (blen a + blen s)); [|lia].
  unfold btake, bdrop, blen. by rewrite Nat2Z.id, take_app_length, drop_app_length.
Qed.

Lemma readRecord_frag fuel out (last : bool) b tl :
  blen b < 2 ^ 31 -> blen out + blen b <= maxRecord ->
  readRecordLoop (S fuel) out (fragment last b ++ tl) =
    if last then Some (Ok (out ++ b, tl)) else readRecordLoop fuel (out ++ b) tl.
Proof.
  intros Hb Hm. unfold fragment. rewrite <- app_assoc. cbn [readRecordLoop].
  rewrite readFull_app by by rewrite blen_be. cbv zeta. destruct (fragment_header last b Hb) as [-> ->].
  destruct (Z.ltb_spec maxRecord (blen out + blen b)); [lia|]. by rewrite readFull_app.
Qed.

(** C31 Records survive fragmentation: however a client splits a record of at most
    the maximum size into fragments, reading it back gives the record whole and
    leaves the stream at the next one; writing a record and reading it back is
    the case of one fragment. *)
Theorem record_reassembled init lastf tl :
  blen (concat init ++ lastf) <= maxRecord ->
  readRecord (fragments init lastf ++ tl) = Some (Ok (concat init ++ lastf, tl)).
Proof.
  assert (Hgen : forall fuel out init, (length init < fuel)%nat -> blen (out ++ concat init ++ lastf) <= maxRecord ->
    readRecordLoop fuel out (fragments init lastf ++ tl) = Some (Ok (out ++ concat init ++ lastf, tl))).
  { intros fuel out l. revert fuel out. induction l as [|b l IH]; intros fuel out Hf Hm; (destruct fuel as [|fuel]; [simpl in Hf; lia|]);
      unfold fragments in *; cbn [map concat app length] in *; rewrite ?blen_app in Hm;
      pose proof (blen_nonneg out); pose proof (blen_nonneg lastf); assert (maxRecord = 2 ^ 23) as Hmr by done.
    - rewrite readRecord_frag by lia. done.
    - pose proof (blen_nonneg b). pose proof (blen_nonneg (concat l)). rewrite <- !app_assoc. rewrite readRecord_frag by lia.
      rewrite app_assoc. rewrite IH; [by rewrite !app_assoc|lia|]. rewrite !blen_app. lia. }
  intros Hm. apply (Hgen _ [] init); [|done]. unfold fragments. rewrite !length_app. clear.
  induction init as [|b l IH]; [simpl; lia|]. cbn [map concat length]. rewrite length_app. unfold fragment at 1.
  rewrite length_app, be_bytes_length. lia.
Qed.

(** A hostile stream cannot make the server buffer more than the maximum: on
    any bytes the read ends, with a record of at most that size taken from the
    front of the stream, or with an error. *)
Theorem record_bounded s :
  exists r, readRecord s = Some r /\
    match r with Ok (rec, tl) => blen rec <= maxRecord /\ 4 + blen rec + blen tl <= blen s | Err _ => True end.
Proof.
  assert (Hgen : forall fuel out s, (length s < fuel)%nat -> blen out <= maxRecord ->
    exists r, readRecordLoop fuel out s = Some r /\
      match r with Ok (rec, tl) => blen rec <= maxRecord /\ 4 + blen rec + blen tl <= blen out + blen s | Err _ => True end).
  { intros fuel. induction fuel as [|fuel IH]; intros out s' Hf Hm; [lia|]. cbn [readRecordLoop].
    unfold readFull at 1. destruct (Z.leb_spec 4 (blen s')) as [H4|H4]; [|destruct s'; by eexists]. cbv zeta.
    set (h := be_Z _). assert (Hn : 0 <= Z.land h 0x7fffffff) by (apply Z.land_nonneg; lia).
    destruct (Z.ltb_spec maxRecord (blen out + Z.land h 0x7fffffff)); [by eexists|].
    set (n := Z.land h 0x7fffffff) in *. unfold readFull. destruct (Z.leb_spec n (blen (bdrop 4 s'))) as [Hb|Hb]; [|destruct (bdrop 4 s'); by eexists].
    rewrite blen_drop in Hb by lia.
    assert (Hout : blen (out ++ btake n (bdrop 4 s')) = blen out + n) by (rewrite blen_app, blen_take, blen_drop by lia; lia).
    destruct (negb (Z.land h 0x80000000 =? 0)).
    - eexists. split; [done|]. simpl. rewrite Hout, !blen_drop by lia. lia.
    - destruct (IH (out ++ btake n (bdrop 4 s')) (bdrop n (bdrop 4 s'))) as (r&Hr&HP).
      + unfold bdrop. rewrite !length_drop. unfold blen in H4. lia.
      + lia.
      + exists r. split; [done|]. destruct r as [[rec tl]|]; [|done]. rewrite Hout, !blen_drop in HP by lia. lia. }
  destruct (Hgen (S (length s)) [] s) as (r&Hr&HP); [lia|done|]. exists r. split; [done|]. destruct r as [[rec tl]|]; [|done].
  rewrite blen_nil in HP. lia.
Qed.

Lemma acceptDelay_range prev : 5 * 10 ^ 6 <= acceptDelay prev <= 10 ^ 9.
Proof. unfold acceptDelay. change (10 ^ 9 / 2) with 500000000. repeat case_bool; lia. Qed.

(** ** Calls *)

(** The AUTH_SYS credential and the call a client sends. *)
Definition putCred (stamp : Z) (c : Cred) : bytes :=
  Writer.Uint32 stamp ++ Writer.String (crMachine c) ++ Writer.Uint32 (crUID c) ++ Writer.Uint32 (crGID c) ++
  Writer.Uint32 (blen (crGIDs c)) ++ concat (map Writer.Uint32 (crGIDs c)).

Definition callRecord (xid prog vers proc stamp : Z) (c : Cred) (args : bytes) : bytes :=
  Writer.Uint32 xid ++ Writer.Uint32 callMsg ++ Writer.Uint32 rpcVersion ++ Writer.Uint32 prog ++ Writer.Uint32 vers ++
  Writer.Uint32 proc ++ Writer.Uint32 authSys ++ Writer.Opaque (putCred stamp c) ++
  Writer.Uint32 authNone ++ Writer.Opaque [] ++ args.

(** A credential the protocol can carry. *)
Record credOK (c : Cred) : Prop := {
  cd_uid : is_u32 (crUID c);
  cd_gid : is_u32 (crGID c);
  cd_gids : Forall is_u32 (crGIDs c);
  cd_many : (length (crGIDs c) <= 16)%nat;
  cd_machine : blen (bytesOf (crMachine c)) <= 255
}.

Lemma reads_gids l : Forall is_u32 l -> reads (readGIDs (length l)) (concat (map Writer.Uint32 l)) l.
Proof.
  induction 1 as [|g l Hg _ IH]; [apply reads_ret|]. cbn [map concat length readGIDs]. eapply reads_bind; [by apply reads_uint32|].
  rewrite <- (app_nil_r (concat _)). eapply reads_bind; [exact IH|apply reads_ret].
Qed.

(** A last check of the error, which there is none of. *)
Lemma reads_unless {A B} (p : rd A) (g : A -> B) (bad : xdrErr -> B) e a :
  reads p e a -> reads (let^ x := p in let^ er := errOf in rret (match er with Some x' => bad x' | None => g x end)) e (g a).
Proof.
  intros Hp. rewrite <- (app_nil_r e). eapply reads_bind; [exact Hp|]. rewrite <- (app_nil_r []).
  eapply reads_bind; [apply reads_err|apply reads_ret].
Qed.

Lemma reads_sysCred stamp c : is_u32 stamp -> credOK c -> reads readSysCred (putCred stamp c) (Ok c).
Proof.
  intros Hst [H1 H2 H3 H4 H5]. unfold readSysCred, putCred. eapply reads_bind; [by apply reads_uint32|].
  eapply reads_bind; [apply reads_string; change maxVarLen with (2 ^ 26); lia|].
  eapply reads_bind; [by apply reads_uint32|]. eapply reads_bind; [by apply reads_uint32|].
  eapply reads_bind; [apply reads_uint32; unfold is_u32, blen; lia|].
  rewrite <- (app_nil_l (concat _)). eapply reads_bind; [apply reads_err|]. cbv iota beta zeta.
  destruct (Z.ltb_spec 16 (blen (crGIDs c))) as [?|_]; [unfold blen in *; lia|]. unfold blen. rewrite Nat2Z.id.
  pose proof (reads_unless _ (fun gids => Ok (mkCred (crUID c) (crGID c) gids (crMachine c))) Err _ _ (reads_gids _ H3)) as H.
  by destruct c.
Qed.

(** Reading from a buffer that is exactly the encoding. *)
Lemma reads_whole {A} (p : rd A) e v : reads p e v -> (p (NewReader e)).1 = v.
Proof.
  intros Hp. destruct (Hp (NewReader e) []) as (r'&E&_).
  - split; simpl; [done|]. split; [lia|apply blen_nonneg].
  - unfold rest, bdrop. simpl. by rewrite app_nil_r.
  - by rewrite E.
Qed.

Lemma blen_string_max s : blen (Writer.String s) <= 8 + blen (bytesOf s).
Proof.
  unfold Writer.String, Writer.Uint32, Writer.pad. pose proof (padLen_range (blen (bytesOf s))).
  rewrite !blen_app, blen_be, blen_zeros by lia. lia.
Qed.

Lemma putCred_len stamp c : credOK c -> blen (putCred stamp c) <= maxVarLen.
Proof.
  intros [_ _ _ H4 H5]. unfold putCred. pose proof (blen_string_max (crMachine c)) as Hs. rewrite !blen_app. unfold Writer.Uint32 at 1 2 3 4. rewrite !blen_be.
  assert (Hg : blen (concat (map Writer.Uint32 (crGIDs c))) = 4 * Z.of_nat (length (crGIDs c))).
  { induction (crGIDs c) as [|g l IH]; [done|]. cbn [map concat length]. rewrite blen_app, IH by (simpl in H4; lia). unfold Writer.Uint32. rewrite blen_be. lia. }
  rewrite Hg. change maxVarLen with (2 ^ 26). lia.
Qed.

Lemma reads_cred stamp c : is_u32 stamp -> credOK c ->
  reads readCred (Writer.Uint32 authSys ++ Writer.Opaque (putCred stamp c)) (Ok c).
Proof.
  intros Hst Hc. unfold readCred. eapply reads_bind; [apply reads_uint32; unfold is_u32, authSys; lia|].
  pose proof (reads_unless Reader.Opaque (fun body => if authSys =? authSys then (readSysCred (NewReader body)).1 else Ok nobody) Err
    (Writer.Opaque (putCred stamp c)) (putCred stamp c) (reads_opaque _ (putCred_len stamp c Hc))) as H.
  cbv beta in H. rewrite Z.eqb_refl in H. rewrite (reads_whole _ _ _ (reads_sysCred stamp c Hst Hc)) in H. exact H.
Qed.

Lemma reads_noAuth : reads readOpaqueAuth (Writer.Uint32 authNone ++ Writer.Opaque []) (Ok authNone).
Proof.
  unfold readOpaqueAuth. eapply reads_bind; [apply reads_uint32; unfold is_u32, authNone; lia|].
  apply (reads_unless Reader.Opaque (fun _ => Ok authNone) Err _ []). by apply reads_opaque.
Qed.

(** The header of a call: what [classify] reads before it decides. *)
Lemma classify_call {S E} (srv : Server S E) connID xid prog vers proc stamp c args :
  is_u32 xid -> is_u32 prog -> is_u32 vers -> is_u32 proc -> is_u32 stamp -> credOK c ->
  exists r, fine r /\ rest r = args /\
    classify srv connID (callRecord xid prog vers proc stamp c args) =
      match programs srv !! (prog, vers) with
      | None => match default [] (versions srv !! prog) with
                | [] => Answer (acceptedErr xid progUnavail [])
                | known => Answer (acceptedErr xid progMismatch (Writer.Uint32 (versionRange known).1 ++ Writer.Uint32 (versionRange known).2))
                end
      | Some h => if HasProc h proc then Run (mkReplyKey connID xid prog vers proc) h c r
                  else Answer (acceptedErr xid procUnavail [])
      end.
Proof.
  intros H1 H2 H3 H4 H5 Hc. unfold callRecord, classify.
  set (rec := Writer.Uint32 xid ++ _).
  assert (F0 : fine (NewReader rec)) by (split; simpl; [done|split; [lia|apply blen_nonneg]]).
  destruct (reads_uint32 xid H1 (NewReader rec) _ F0 eq_refl) as (r1&->&F1&R1).
  destruct (reads_uint32 callMsg ltac:(unfold is_u32, callMsg; lia) r1 _ F1 R1) as (r2&->&F2&R2).
  rewrite bool_decide_true by apply F2. cbn [negb orb]. rewrite Z.eqb_refl. cbn [negb].
  destruct (reads_uint32 rpcVersion ltac:(unfold is_u32, rpcVersion; lia) r2 _ F2 R2) as (r3&->&F3&R3).
  destruct (reads_uint32 prog H2 r3 _ F3 R3) as (r4&->&F4&R4). destruct (reads_uint32 vers H3 r4 _ F4 R4) as (r5&->&F5&R5).
  destruct (reads_uint32 proc H4 r5 _ F5 R5) as (r6&->&F6&R6). rewrite bool_decide_true by apply F6. cbn [negb]. rewrite Z.eqb_refl. cbn [negb].
  rewrite app_assoc in R6. destruct (reads_cred stamp c H5 Hc r6 _ F6 R6) as (r7&->&F7&R7).
  rewrite app_assoc in R7. destruct (reads_noAuth r7 _ F7 R7) as (r8&->&F8&R8).
  exists r8. split; [done|]. split; [done|]. destruct (programs srv !! (prog, vers)) as [h|].
  - by destruct (HasProc h proc).
  - destruct (default [] (versions srv !! prog)) as [|v known]; [done|]. by destruct (versionRange (v :: known)).
Qed.

(** A well-formed call is delivered: if its program, version and procedure are
    registered, what is run is that procedure, for the credential the client
    asserted, on a reader at the first byte of the arguments it sent; if they
    are not, nothing is run and the reply says which is missing. *)
Theorem call_delivered {S E} (srv : Server S E) connID xid prog vers proc stamp c args h :
  is_u32 xid -> is_u32 prog -> is_u32 vers -> is_u32 proc -> is_u32 stamp -> credOK c ->
  programs srv !! (prog, vers) = Some h ->
  if HasProc h proc then
    exists r, classify srv connID (callRecord xid prog vers proc stamp c args) = Run (mkReplyKey connID xid prog vers proc) h c r /\
      rErr r = None /\ rest r = args
  else classify srv connID (callRecord xid prog vers proc stamp c args) = Answer (acceptedErr xid procUnavail []).
Proof.
  intros H1 H2 H3 H4 H5 Hc Hh. destruct (classify_call srv connID xid prog vers proc stamp c args H1 H2 H3 H4 H5 Hc) as (r&[Hf _]&Hr&->).
  rewrite Hh. destruct (HasProc h proc); [|done]. by exists r.
Qed.

(** ** Replies *)

(** A reply that begins with the xid of its call and says it is a reply. *)
Definition answers (xid : bytes) (reply : bytes) : Prop := exists tl, reply = xid ++ Writer.Uint32 replyMsg ++ tl.

Definition addressed (c : replyCache) : Prop :=
  forall k r, entries c !! k = Some (Some r) -> answers (Writer.Uint32 (kXid k)) r.

Lemma first_word rec :
  (4 <= blen rec /\ Writer.Uint32 (Reader.Uint32 (NewReader rec)).1 = btake 4 rec) \/ rErr (Reader.Uint32 (NewReader rec)).2 ≠ None.
Proof.
  unfold Reader.Uint32, rbind, Reader.take. cbn [rErr NewReader rBuf rOff]. destruct (Z.ltb_spec (blen rec) (0 + 4)) as [H|H]; [by right|].
  left. split; [lia|]. cbn. unfold Writer.Uint32, bdrop. rewrite drop_0.
  pose proof (be_bytes_Z (btake 4 rec)) as Hb. unfold btake in *. rewrite length_take in Hb. unfold blen in H.
  replace (Z.to_nat 4 `min` length rec)%nat with 4%nat in Hb by lia. exact Hb.
Qed.

Lemma uint32_latched r : rErr r ≠ None -> (Reader.Uint32 r).2 = r.
Proof. intros Hr. unfold Reader.Uint32, rbind, Reader.take. by destruct (rErr r). Qed.

Lemma classify_xid {S E} (srv : Server S E) connID rec :
  match classify srv connID rec with
  | Drop => True
  | Answer reply => answers (btake 4 rec) reply
  | Run k _ _ _ => Writer.Uint32 (kXid k) = btake 4 rec /\ kConn k = connID
  end.
Proof.
  unfold classify. pose proof (first_word rec) as Hw. destruct (Reader.Uint32 (NewReader rec)) as [xid r1]. cbn [fst snd] in Hw.
  pose proof (uint32_latched r1) as Hl. destruct (Reader.Uint32 r1) as [mtype r2]. cbn [snd] in Hl.
  case_bool_decide as He; cbn [negb orb]; [|done]. destruct Hw as [[_ Hx]|Hbad]; [|rewrite (Hl Hbad) in He; done].
  destruct (mtype =? callMsg); cbn [negb]; [|done].
  destruct (Reader.Uint32 r2) as [rpcvers r3], (Reader.Uint32 r3) as [prog r4], (Reader.Uint32 r4) as [vers r5], (Reader.Uint32 r5) as [proc r6].
  case_bool_decide; cbn [negb]; [|done]. unfold answers. rewrite <- Hx.
  destruct (rpcvers =? rpcVersion); cbn [negb]; [|by eexists].
  destruct (readCred r6) as [[cred|?] r7]; [|by eexists]. destruct (readOpaqueAuth r7) as [[?|?] r8]; [|by eexists].
  destruct (programs srv !! (prog, vers)) as [h|]; [destruct (HasProc h proc); cbn [negb]; [done|by eexists]|].
  destruct (default [] (versions srv !! prog)); [by eexists|]. destruct (versionRange _). by eexists.
Qed.

Lemma encodeReply_answers xid out : answers (Writer.Uint32 xid) (encodeReply xid out) /\ encodeReply xid out ≠ [].
Proof.
  assert (Hne : answers (Writer.Uint32 xid) (encodeReply xid out)).
  { unfold answers, encodeReply, acceptedErr, replyHeader. destruct out; rewrite <- ?app_assoc; by eexists. }
  split; [done|]. destruct Hne as [tl ->]. intros H%(f_equal blen). rewrite !blen_app in H. unfold Writer.Uint32 in H.
  rewrite !blen_be in H. pose proof (blen_nonneg tl). unfold blen in H. simpl in H. lia.
Qed.

(** ** The cache under dispatch *)

(** A dispatch uses the cache at most twice, for the key of its call, and at
    the times it was given. *)
Lemma dispatch_cache {S E} (srv : Server S E) connID rec now1 now2 e c s reply c' s' :
  dispatch srv connID rec now1 now2 e (c, s) = (reply, (c', s')) ->
  exists ops, c' = cacheRun ops c /\ (length ops <= 2)%nat /\
    Forall (fun op => forall t, opTime op = Some t -> t = now1 \/ t = now2) ops.
Proof.
  assert (H0 : exists ops, c = cacheRun ops c /\ (length ops <= 2)%nat /\
    Forall (fun op => forall t, opTime op = Some t -> t = now1 \/ t = now2) ops) by (exists []; split_and!; [done|simpl; lia|constructor]).
  unfold dispatch. destruct (classify srv connID rec) as [|?|k h cred r]; [by intros [= <- <- <-]|by intros [= <- <- <-]|].
  destruct (Idempotent h (kProc k)).
  { destruct (Call h e (kProc k) cred r s) as [out s1]. by intros [= <- <- <-]. }
  assert (H1 : forall c2, (begin now1 k c).2 = c2 -> exists ops, c2 = cacheRun ops c /\ (length ops <= 2)%nat /\
    Forall (fun op => forall t, opTime op = Some t -> t = now1 \/ t = now2) ops).
  { intros c2 <-. exists [OBegin now1 k]. split; [done|]. split; [simpl; lia|]. constructor; [|constructor]. simpl. intros t [= <-]. auto. }
  destruct (begin now1 k c) as [[p []] c2] eqn:Eb; cbn [snd] in H1.
  - destruct (Call h e (kProc k) cred r s) as [out s1].
    assert (Hop : exists op, (match encodeReply (kXid k) out with [] => abandon k c2 | _ => finish now2 k (encodeReply (kXid k) out) c2 end) = cacheStep c2 op /\
      forall t, opTime op = Some t -> t = now1 \/ t = now2).
    { destruct (encodeReply (kXid k) out) as [|b l]; [exists (OAbandon k); done|].
      exists (OFinish now2 k (b :: l)). split; [done|]. simpl. intros t [= <-]. auto. }
    destruct Hop as (op&Hop&Ht). assert (Hc' : (reply, (c', s')) = (Some (encodeReply (kXid k) out), (cacheStep c2 op, s1)) ->
      exists ops, c' = cacheRun ops c /\ (length ops <= 2)%nat /\ Forall (fun op => forall t, opTime op = Some t -> t = now1 \/ t = now2) ops).
    { intros [= -> -> ->]. exists [OBegin now1 k; op]. split; [simpl; by rewrite Eb|]. split; [simpl; lia|].
      constructor; [simpl; intros t [= <-]; auto|]. by constructor. }
    rewrite Hop. destruct p; intros Hrun; by apply Hc'.
  - destruct p; intros [= <- <- <-]; by apply H1.
  - destruct p; intros [= <- <- <-]; by apply H1.
Qed.

(** A call as it arrives: its connection, record, clock readings and chance. *)
Record arrival (E : Type) := mkArrival { arConn : Z; arRec : bytes; arNow1 : Z; arNow2 : Z; arEnv : E }.
Arguments mkArrival {E}.
Arguments arConn {E}.
Arguments arRec {E}.
Arguments arNow1 {E}.
Arguments arNow2 {E}.
Arguments arEnv {E}.

Definition serve1 {S E} (srv : Server S E) (st : replyCache * S) (a : arrival E) : replyCache * S :=
  (dispatch srv (arConn a) (arRec a) (arNow1 a) (arNow2 a) (arEnv a) st).2.

Definition serve {S E} (srv : Server S E) (l : list (arrival E)) (st : replyCache * S) : replyCache * S := foldl (serve1 srv) st l.

Lemma serve_cache {S E} (srv : Server S E) l c s :
  exists ops, (serve srv l (c, s)).1 = cacheRun ops c /\ (length ops <= 2 * length l)%nat /\
    Forall (fun op => forall t, opTime op = Some t -> exists a, a ∈ l /\ (t = arNow1 a \/ t = arNow2 a)) ops.
Proof.
  revert c s. induction l as [|a l IH]; intros c s; [exists []; split_and!; [done|simpl; lia|constructor]|].
  change (serve srv (a :: l) (c, s)) with (serve srv l (serve1 srv (c, s) a)). unfold serve1.
  destruct (dispatch srv (arConn a) (arRec a) (arNow1 a) (arNow2 a) (arEnv a) (c, s)) as [rp [c1 s1]] eqn:Ed.
  destruct (dispatch_cache _ _ _ _ _ _ _ _ _ _ _ Ed) as (o1&->&L1&T1). destruct (IH (cacheRun o1 c) s1) as (o2&H2&L2&T2).
  exists (o1 ++ o2). cbn [snd]. rewrite H2. unfold cacheRun. rewrite foldl_app. split; [done|].
  rewrite length_app. split; [simpl; lia|]. apply Forall_app. split.
  - eapply list.Forall_impl; [exact T1|]. intros op Hop t Ht. exists a. split; [apply list_elem_of_here|]. auto.
  - eapply list.Forall_impl; [exact T2|]. intros op Hop t Ht. destruct (Hop t Ht) as (b&?&?). exists b. split; [by right|done].
Qed.

(** ** The promises of dispatch *)

Lemma addressed_new n age : addressed (newReplyCache n age).
Proof. intros k r. simpl. by rewrite lookup_empty. Qed.

Lemma dispatch_addressed {S E} (srv : Server S E) connID rec now1 now2 e c s reply c' s' :
  cacheOK c -> addressed c -> dispatch srv connID rec now1 now2 e (c, s) = (reply, (c', s')) ->
  cacheOK c' /\ addressed c' /\ forall rp, reply = Some rp -> answers (btake 4 rec) rp.
Proof.
  intros Hok Had. unfold dispatch. pose proof (classify_xid srv connID rec) as Hx.
  destruct (classify srv connID rec) as [|rp|k h cred r]; [by intros [= <- <- <-]|intros [= <- <- <-]; split_and!; [done|done|by intros ? [= <-]]|].
  destruct Hx as [Hx _]. destruct (Idempotent h (kProc k)).
  { destruct (Call h e (kProc k) cred r s) as [out s1]. intros [= <- <- <-]. split_and!; [done|done|]. intros ? [= <-].
    rewrite <- Hx. apply encodeReply_answers. }
  destruct (begin now1 k c) as [[p st] c2] eqn:Eb. destruct (begin_spec _ _ _ _ _ Hok Eb) as (Hok2&_&_&_&Hsub&Hst). simpl in Hst.
  assert (Had2 : addressed c2) by (intros j x Hj; apply Had; by apply Hsub). destruct st.
  - destruct Hst as (->&_&_). destruct (Call h e (kProc k) cred r s) as [out s1]. destruct (encodeReply_answers (kXid k) out) as [Ha Hne].
    intros [= <- <- <-]. destruct (encodeReply (kXid k) out) as [|b l] eqn:Er; [done|].
    destruct (finish_spec now2 k (b :: l) c2 Hok2) as (F1&_&_&F4&_&F6). split; [done|]. split; [|intros ? [= <-]; by rewrite <- Hx].
    intros j x. destruct (decide (j = k)) as [->|Hj]; [|rewrite F4 by done; apply Had2].
    intros [Hj|[-> _]]%F6; [by apply Had2|done].
  - destruct Hst as [-> _]. intros [= <- <- <-]. done.
  - destruct Hst as (x&->&Hr). intros [= <- <- <-]. split_and!; [done|done|]. intros ? [= <-]. rewrite <- Hx. by apply Had2.
Qed.

(** Every reply is addressed to its call: after any calls on any connections,
    whatever their bytes, what a call is answered with begins with the four
    bytes its record began with, its xid, and is marked a reply, also when it
    is replayed from the cache. *)
Theorem reply_addressed {S E} (srv : Server S E) calls s0 connID rec now1 now2 e reply st :
  dispatch srv connID rec now1 now2 e (serve srv calls (newCache, s0)) = (Some reply, st) ->
  exists tl, reply = btake 4 rec ++ Writer.Uint32 replyMsg ++ tl.
Proof.
  assert (Hinv : forall calls c s, cacheOK c -> addressed c ->
    cacheOK (serve srv calls (c, s)).1 /\ addressed (serve srv calls (c, s)).1).
  { intros l. induction l as [|a l IH]; intros c s Hok Had; [done|].
    change (serve srv (a :: l) (c, s)) with (serve srv l (serve1 srv (c, s) a)). unfold serve1.
    destruct (dispatch srv (arConn a) (arRec a) (arNow1 a) (arNow2 a) (arEnv a) (c, s)) as [rp [c1 s1]] eqn:Ed.
    destruct (dispatch_addressed _ _ _ _ _ _ _ _ _ _ _ Hok Had Ed) as (?&?&_). by apply IH. }
  destruct (Hinv calls newCache s0 (newReplyCache_ok _ _) (addressed_new _ _)) as [Hok Had].
  destruct (serve srv calls (newCache, s0)) as [c s]. destruct st as [c' s']. intros Hd.
  destruct (dispatch_addressed _ _ _ _ _ _ _ _ _ _ _ Hok Had Hd) as (_&_&Ha). by apply Ha.
Qed.

(** C20 A retransmission is not executed: once a call that must not run twice has
    been answered, the same record arriving again on the same connection gets
    the same bytes and leaves the program's state alone, whatever calls were
    served in between, as long as the cache had room for them and the maximum
    age has not passed. *)
Theorem retransmission_replayed {S E} (srv : Server S E) connID rec k h cred args now1 now2 e c s reply c1 s1 calls now3 now4 e' :
  cacheOK c -> classify srv connID rec = Run k h cred args -> Idempotent h (kProc k) = false -> entries c !! k = None ->
  dispatch srv connID rec now1 now2 e (c, s) = (Some reply, (c1, s1)) ->
  cacheLen c + 1 + 2 * blen calls <= maxEntries c ->
  Forall (fun a => arNow1 a - now2 <= maxAge c /\ arNow2 a - now2 <= maxAge c) calls -> now3 - now2 <= maxAge c ->
  let st := serve srv calls (c1, s1) in
  exists c', dispatch srv connID rec now3 now4 e' st = (Some reply, (c', st.2)).
Proof.
  intros Hok Hcl Hid Hnew Hd Hroom Hage Hnow st. unfold dispatch in Hd. rewrite Hcl, Hid in Hd.
  destruct (begin now1 k c) as [[p bst] c2] eqn:Eb. destruct (begin_spec _ _ _ _ _ Hok Eb) as (Hok2&Hmx&Hag&_&Hsub&Hst). simpl in Hst.
  pose proof (blen_nonneg calls). pose proof (begin_reserves now1 k c Hok ltac:(lia)) as Hres. rewrite Eb in Hres. cbn [fst snd] in Hres.
  destruct bst; [|by destruct Hst as [_ ?]; congruence|by destruct Hst as (x&_&Hr); apply Hsub in Hr; congruence].
  destruct Hst as (->&_&_). destruct (Hres eq_refl) as [Hfl Hlen]. clear Hres.
  destruct (Call h e (kProc k) cred args s) as [out s2]. destruct (encodeReply_answers (kXid k) out) as [_ Hne].
  set (rp := encodeReply (kXid k) out) in *. assert (Hd' : (Some rp, (finish now2 k rp c2, s2)) = (Some reply, (c1, s1))) by (by destruct rp).
  injection Hd' as -> <- <-. clear Hd.
  destruct (serve_cache srv calls (finish now2 k reply c2) s2) as (ops&Hops&Hlo&Hto).
  assert (Hhit : (begin now3 k st.1).1 = (Some reply, cacheHit)).
  { unfold st. rewrite Hops. apply cache_replays; [done|done|done|unfold blen in *; lia| |lia].
    eapply list.Forall_impl; [exact Hto|]. intros op Hop t Ht. destruct (Hop t Ht) as (a&Ha&Hta).
    rewrite list.Forall_forall in Hage. destruct (Hage a Ha). destruct Hta; subst; lia. }
  unfold dispatch. destruct st as [c3 s3]. rewrite Hcl, Hid. cbn [fst] in Hhit. destruct (begin now3 k c3) as [x c4]. cbn [fst] in Hhit. subst x.
  by exists c4.
Qed.
