(* ===== verification/Conn.v ===== *)
(** * Connections of the RPC server (internal/sunrpc/rpc.go, Serve and serveConn)

    [Serve] is the accept loop. A connection is the loop that reads records,
    the goroutines that serve them, and what they share: the semaphore, the
    wait group, the write mutex and the socket. [connStep] is one step of one of
    them, [step] one step of the server or of a client, in any interleaving. A
    goroutine is a [task] that goes through the parts of [dispatch]: the cache
    is asked, the procedure runs, the deferred resolution is made, and the reply
    is written a piece at a time while the mutex is held; then its deferred
    calls run one by one: the mutex is unlocked, the token given back and the
    wait group told. The effect of a procedure falls at one moment between the
    two uses of the cache.

    A client sends bytes when it likes, takes replies when it likes and may end
    its stream or reset the connection, or never do either: [readRecord] blocks
    until a whole record or the end of the stream has come, with no deadline,
    and a write blocks while the client takes nothing. The context closes no
    connection. [stream], [served] and [replies] record what was sent, for which
    records a goroutine was started, and which replies had the mutex. *)

From Stdlib Require Import Strings.Byte.
From S2P Require Import Prelude Vfs Inode Xdr ReplyCache Rpc.

(** ** The accept loop *)

(** What Accept gives, an error being a temporary net.Error or another. *)
Inductive acceptOut := Accepted (peer : string) | Temporary | Permanent (m : string).

(** One turn: what Accept gave, whether [ctx] was done when its error was looked
    at, and whether it was done before the wait was over. *)
Record turn := mkTurn { tnOut : acceptOut; tnDone : bool; tnDoneInWait : bool }.

(** What Serve has done so far: the connections it started and its waits, in
    order, and what it returned. *)
Record serveLog := mkServeLog { svConns : list string; svWaits : list Z; svReturn : option (option string) }.

Fixpoint Serve (wait : Z) (turns : list turn) : serveLog :=
  match turns with
  | [] => mkServeLog [] [] None
  | t :: turns =>
      match tnOut t with
      | Accepted p => let r := Serve 0 turns in mkServeLog (p :: svConns r) (svWaits r) (svReturn r)
      | Temporary =>
          if tnDone t then mkServeLog [] [] (Some None)
          else
            let wait := acceptDelay wait in
            if tnDoneInWait t then mkServeLog [] [wait] (Some None)
            else let r := Serve wait turns in mkServeLog (svConns r) (wait :: svWaits r) (svReturn r)
      | Permanent m => if tnDone t then mkServeLog [] [] (Some None) else mkServeLog [] [] (Some (Some m))
      end
  end.

(** ** A connection *)

Definition maxInFlight : nat := 64.

(** Where a goroutine is: before [dispatch], in it, waiting for the mutex,
    writing, with its token still to give back, with [wg.Done] still to call. *)
Inductive task (S E : Type) :=
| Spawned (rec : bytes)
| Calling (k : replyKey) (tracked : bool) (h : Handler S E) (cred : Cred) (args : Reader)
| Returning (k : replyKey) (reply : bytes)
| Waiting (reply : bytes)
| Sending (unsent : bytes)
| Leaving
| Ending.
Arguments Spawned {S E}.
Arguments Calling {S E}.
Arguments Returning {S E}.
Arguments Waiting {S E}.
Arguments Sending {S E}.
Arguments Leaving {S E}.
Arguments Ending {S E}.

(** The loop of serveConn: in [readRecord], in the select with a record in
    hand, in the deferred [wg.Wait], or over with the connection closed. *)
Inductive reading := Reading | Holding (rec : bytes) | Draining | Closed.

#[global] Instance reading_eq_dec : EqDecision reading.
Proof. solve_decision. Defined.

(** [ended]: the client has ended its stream. [input]: what has come and is not
    read. [window]: how many bytes the client still takes. [broken]: the
    connection is reset, or closed after a failed write. *)
Record conn (S E : Type) := mkConn {
  connID : Z;
  stream : bytes;
  ended : bool;
  input : bytes;
  reader : reading;
  sem : nat;
  wg : nat;
  writeMu : bool;
  tasks : gmap nat (task S E);
  broken : bool;
  window : nat;
  output : bytes;
  served : list bytes;
  replies : list (nat * bytes)
}.
Arguments mkConn {S E}.
Arguments connID {S E}.
Arguments stream {S E}.
Arguments ended {S E}.
Arguments input {S E}.
Arguments reader {S E}.
Arguments sem {S E}.
Arguments wg {S E}.
Arguments writeMu {S E}.
Arguments tasks {S E}.
Arguments broken {S E}.
Arguments window {S E}.
Arguments output {S E}.
Arguments served {S E}.
Arguments replies {S E}.

Inductive connEvent (E : Type) :=
| RRead
| RAcquire
| RGiveUp
| RClose
| TBegin (t : nat) (now : Z)
| TCall (t : nat) (e : E)
| TFinish (t : nat) (now : Z)
| TLock (t : nat)
| TPush (t : nat) (n : nat)
| TFail (t : nat) (n : nat)
| TUnlock (t : nat)
| TRelease (t : nat)
| TDone (t : nat).
Arguments RRead {E}.
Arguments RAcquire {E}.
Arguments RGiveUp {E}.
Arguments RClose {E}.
Arguments TBegin {E}.
Arguments TCall {E}.
Arguments TFinish {E}.
Arguments TLock {E}.
Arguments TPush {E}.
Arguments TFail {E}.
Arguments TUnlock {E}.
Arguments TRelease {E}.
Arguments TDone {E}.

Section Server.
Context {S E : Type} (srv : Server S E).
Implicit Types (c : conn S E) (st : replyCache * S).

(** Dispatch up to the call: over without a reply, with one, or the call. *)
Definition enter (id : Z) (rec : bytes) (now : Z) (rc : replyCache) : option (task S E) * replyCache :=
  match classify srv id rec with
  | Drop => (None, rc)
  | Answer reply => (Some (Waiting reply), rc)
  | Run k h cred r =>
      if Idempotent h (kProc k) then (Some (Calling k false h cred r), rc)
      else
        match begin now k rc with
        | ((Some prior, cacheHit), rc) => (Some (Waiting prior), rc)
        | ((_, cacheMiss), rc) => (Some (Calling k true h cred r), rc)
        | (_, rc) => (None, rc)
        end
  end.

(** The call, with its reply. *)
Definition execute (k : replyKey) (tracked : bool) (h : Handler S E) (cred : Cred) (args : Reader) (e : E) (s : S) : task S E * S :=
  let (out, s) := Call h e (kProc k) cred args s in
  let reply := encodeReply (kXid k) out in
  (if tracked then Returning k reply else Waiting reply, s).

(** The deferred function. *)
Definition resolveCall (k : replyKey) (reply : bytes) (now : Z) (rc : replyCache) : replyCache :=
  match reply with [] => abandon k rc | _ => finish now k reply rc end.

Definition setReader (r : reading) (c : conn S E) : conn S E :=
  mkConn (connID c) (stream c) (ended c) (input c) r (sem c) (wg c) (writeMu c) (tasks c) (broken c) (window c) (output c) (served c) (replies c).

Definition setTask (t : nat) (a : task S E) (c : conn S E) : conn S E :=
  mkConn (connID c) (stream c) (ended c) (input c) (reader c) (sem c) (wg c) (writeMu c) (<[t := a]> (tasks c)) (broken c) (window c) (output c) (served c) (replies c).

(** [readRecord] on what has come: it blocks on an incomplete record, unless the
    client has ended its stream. *)
Definition readStep (c : conn S E) : option (conn S E) :=
  if broken c then Some (setReader Draining c)
  else
    match readRecord (input c) with
    | Some (Ok (rec, rest)) =>
        Some (mkConn (connID c) (stream c) (ended c) rest (Holding rec) (sem c) (wg c) (writeMu c) (tasks c) (broken c) (window c) (output c) (served c) (replies c))
    | Some (Err RecordTooLong) => Some (setReader Draining c)
    | Some (Err _) => if ended c then Some (setReader Draining c) else None
    | None => None
    end.

(** The semaphore is taken and the goroutine started. *)
Definition spawn (rec : bytes) (c : conn S E) : conn S E :=
  mkConn (connID c) (stream c) (ended c) (input c) Reading (Datatypes.S (sem c)) (Datatypes.S (wg c)) (writeMu c) (<[length (served c) := Spawned rec]> (tasks c)) (broken c) (window c) (output c) (served c ++ [rec]) (replies c).

Definition lock (t : nat) (reply : bytes) (c : conn S E) : conn S E :=
  mkConn (connID c) (stream c) (ended c) (input c) (reader c) (sem c) (wg c) true (<[t := Sending (writeRecord reply)]> (tasks c)) (broken c) (window c) (output c) (served c) (if broken c then replies c else replies c ++ [(t, reply)]).

(** The socket takes [b] of what a goroutine writes, which has [rest] left; a
    write that fails closes the connection. *)
Definition push (t : nat) (b rest : bytes) (fail : bool) (c : conn S E) : conn S E :=
  mkConn (connID c) (stream c) (ended c) (input c) (reader c) (sem c) (wg c) (writeMu c) (<[t := Sending rest]> (tasks c)) (broken c || fail) (window c - length b) (output c ++ b) (served c) (replies c).

(** The deferred calls of a goroutine. *)
Definition unlock (t : nat) (c : conn S E) : conn S E :=
  mkConn (connID c) (stream c) (ended c) (input c) (reader c) (sem c) (wg c) false (<[t := Leaving]> (tasks c)) (broken c) (window c) (output c) (served c) (replies c).

Definition releaseSem (t : nat) (c : conn S E) : conn S E :=
  mkConn (connID c) (stream c) (ended c) (input c) (reader c) (sem c - 1) (wg c) (writeMu c) (<[t := Ending]> (tasks c)) (broken c) (window c) (output c) (served c) (replies c).

Definition endTask (t : nat) (c : conn S E) : conn S E :=
  mkConn (connID c) (stream c) (ended c) (input c) (reader c) (sem c) (wg c - 1) (writeMu c) (delete t (tasks c)) (broken c) (window c) (output c) (served c) (replies c).

(** [ctx]: whether the context is done. A step that is not enabled is [None]. *)
Definition connStep (ctx : bool) (ev : connEvent E) (c : conn S E) (st : replyCache * S) : option (conn S E * (replyCache * S)) :=
  match ev with
  | RRead => match reader c with Reading => (fun c => (c, st)) <$> readStep c | _ => None end
  | RAcquire =>
      match reader c with
      | Holding rec => if (sem c <? maxInFlight)%nat then Some (spawn rec c, st) else None
      | _ => None
      end
  | RGiveUp => match reader c with Holding _ => if ctx then Some (setReader Draining c, st) else None | _ => None end
  | RClose => match reader c with Draining => if (wg c =? 0)%nat then Some (setReader Closed c, st) else None | _ => None end
  | TBegin t now =>
      match tasks c !! t with
      | Some (Spawned rec) =>
          let (a, rc) := enter (connID c) rec now st.1 in Some (setTask t (default Leaving a) c, (rc, st.2))
      | _ => None
      end
  | TCall t e =>
      match tasks c !! t with
      | Some (Calling k tracked h cred args) =>
          let (a, s) := execute k tracked h cred args e st.2 in Some (setTask t a c, (st.1, s))
      | _ => None
      end
  | TFinish t now =>
      match tasks c !! t with
      | Some (Returning k reply) => Some (setTask t (Waiting reply) c, (resolveCall k reply now st.1, st.2))
      | _ => None
      end
  | TLock t =>
      match tasks c !! t with
      | Some (Waiting reply) => if writeMu c then None else Some (lock t reply c, st)
      | _ => None
      end
  | TPush t n =>
      match tasks c !! t with
      | Some (Sending unsent) =>
          if broken c || (n =? 0)%nat || (window c <? n)%nat || (length unsent <? n)%nat then None
          else Some (push t (take n unsent) (drop n unsent) false c, st)
      | _ => None
      end
  | TFail t n =>
      match tasks c !! t with
      | Some (Sending (b :: l)) => Some (push t (if broken c then [] else take (n `min` window c) (b :: l)) [] true c, st)
      | _ => None
      end
  | TUnlock t => match tasks c !! t with Some (Sending []) => Some (unlock t c, st) | _ => None end
  | TRelease t => match tasks c !! t with Some Leaving => Some (releaseSem t c, st) | _ => None end
  | TDone t => match tasks c !! t with Some Ending => Some (endTask t c, st) | _ => None end
  end.

(** ** The server *)

Record server := mkState {
  conns : list (conn S E);
  shared : replyCache * S;
  ctxDone : bool
}.

(** What a client does to its connection. *)
Inductive clientEvent := Send (b : bytes) | HangUp | Take (n : nat) | ResetConn.

Definition clientStep (ev : clientEvent) (c : conn S E) : conn S E :=
  match ev with
  | Send b => if ended c then c else mkConn (connID c) (stream c ++ b) (ended c) (input c ++ b) (reader c) (sem c) (wg c) (writeMu c) (tasks c) (broken c) (window c) (output c) (served c) (replies c)
  | HangUp => mkConn (connID c) (stream c) true (input c) (reader c) (sem c) (wg c) (writeMu c) (tasks c) (broken c) (window c) (output c) (served c) (replies c)
  | Take n => mkConn (connID c) (stream c) (ended c) (input c) (reader c) (sem c) (wg c) (writeMu c) (tasks c) (broken c) (window c + n) (output c) (served c) (replies c)
  | ResetConn => mkConn (connID c) (stream c) (ended c) (input c) (reader c) (sem c) (wg c) (writeMu c) (tasks c) true (window c) (output c) (served c) (replies c)
  end.

Inductive event := EAccept | ECancel | EConn (i : nat) (ev : connEvent E) | EClient (i : nat) (ev : clientEvent).

(** [connSerial] counts the connections, so a serial is never 0. *)
Definition serveConn (serial : Z) : conn S E :=
  mkConn serial [] false [] Reading 0 0 false ∅ false 0 [] [] [].

Definition step (ev : event) (s : server) : option server :=
  match ev with
  | EAccept => Some (mkState (conns s ++ [serveConn (blen (conns s) + 1)]) (shared s) (ctxDone s))
  | ECancel => Some (mkState (conns s) (shared s) true)
  | EConn i ev =>
      match conns s !! i with
      | None => None
      | Some c =>
          match connStep (ctxDone s) ev c (shared s) with
          | None => None
          | Some (c, sh) => Some (mkState (<[i := c]> (conns s)) sh (ctxDone s))
          end
      end
  | EClient i ev =>
      match conns s !! i with
      | None => None
      | Some c => Some (mkState (<[i := clientStep ev c]> (conns s)) (shared s) (ctxDone s))
      end
  end.

Definition start (s : S) : server := mkState [] (newCache, s) false.

Definition isOpen (c : conn S E) : bool := match reader c with Closed => false | _ => true end.

Definition liveConns (s : server) : nat := length (List.filter isOpen (conns s)).

(** The states a server gets to with at most [n] connections open at a time. *)
Inductive reached (n : nat) (s0 : S) : server -> Prop :=
| reached_start : reached n s0 (start s0)
| reached_step s ev s' : reached n s0 s -> step ev s = Some s' -> (liveConns s' <= n)%nat -> reached n s0 s'.

End Server.
Arguments server : clear implicits.
Arguments event : clear implicits.
Arguments mkState {S E}.
Arguments conns {S E}.
Arguments shared {S E}.
Arguments ctxDone {S E}.
Arguments EAccept {E}.
Arguments ECancel {E}.
Arguments EConn {E}.
Arguments EClient {E}.
