(* ===== verification/ConnSpec.v ===== *)
(** * What the connections of the RPC server promise

    However the reading loops, the goroutines and their writes interleave:
    tokens are bounded per connection and goroutines gone when it closes; what a client
    receives is whole replies, each to a record it sent and at most one to each;
    no two goroutines execute the same call that must not run twice; between two
    things its clients do the server comes to rest, and then waits for nothing
    but them. A goroutine that is not interleaved with another is [dispatch]. *)

From Stdlib Require Import Strings.Byte.
From S2P Require Import Prelude Vfs Inode Xdr ReplyCache Rpc RpcSpec Conn.

(** A relation that goes down a pair of measures is well founded. *)
Lemma lex_wf {T} (R : T -> T -> Prop) (f g : T -> nat) :
  (forall x y, R x y -> (f x < f y \/ (f x = f y /\ g x < g y))%nat) -> well_founded R.
Proof.
  intros HR. assert (H : forall n m x, (f x <= n)%nat -> (g x <= m)%nat -> Acc R x).
  { induction n as [n IHn] using lt_wf_ind. induction m as [m IHm] using lt_wf_ind. intros x Hf Hg. constructor. intros y Hy.
    destruct (HR y x Hy) as [Hlt|[Heq Hlt]]; [by eapply (IHn (f y)); [lia|done|]|].
    eapply (IHm (g y)); [lia|lia|done]. }
  intros x. by eapply H.
Qed.

(** ** The cache *)

Record cacheFine (rc : replyCache) : Prop := {
  cf_ok : cacheOK rc;
  cf_addressed : addressed rc;
  cf_max : maxEntries rc = replyCacheMaxEntries
}.

Lemma newCache_fine : cacheFine newCache.
Proof. split; [apply newReplyCache_ok|apply addressed_new|done]. Qed.

Lemma begin_fine now k rc : cacheFine rc -> cacheFine (begin now k rc).2.
Proof.
  intros [H1 H2 H3]. destruct (begin now k rc) as [x rc'] eqn:E. destruct (begin_spec _ _ _ _ _ H1 E) as (K1&K2&_&_&K5&_). cbn [snd].
  split; [done| |by rewrite K2]. intros j r Hj. apply H2. by apply K5.
Qed.

Lemma resolveCall_fine k reply now rc : cacheFine rc -> answers (Writer.Uint32 (kXid k)) reply -> cacheFine (resolveCall k reply now rc).
Proof.
  intros [H1 H2 H3] Ha. unfold resolveCall. destruct reply as [|b l].
  - destruct (abandon_spec k rc H1) as (K1&K2&_&K4&K5&_). split; [done| |by rewrite K2]. intros j r. destruct (decide (j = k)) as [->|Hj].
    + intros Hr%K5. by apply H2.
    + rewrite K4 by done. apply H2.
  - destruct (finish_spec now k (b :: l) rc H1) as (K1&K2&_&K4&_&K6). split; [done| |by rewrite K2]. intros j r. destruct (decide (j = k)) as [->|Hj].
    + intros [Hr|[-> _]]%K6; [by apply H2|done].
    + rewrite K4 by done. apply H2.
Qed.

(** ** Records that come over time *)

Lemma readFull_more n s1 s2 : match readFull n s1 with
  | Ok (b, tl) => readFull n (s1 ++ s2) = Ok (b, tl ++ s2)
  | Err e => e = EOF \/ e = UnexpectedEOF
  end.
Proof.
  unfold readFull. destruct (Z.leb_spec n (blen s1)) as [Hn|Hn]; [|destruct s1; auto].
  assert (Hn' : (n <=? blen (s1 ++ s2)) = true) by (apply Z.leb_le; rewrite blen_app; pose proof (blen_nonneg s2); lia).
  rewrite Hn'. unfold btake, bdrop, blen in *. by rewrite take_app_le, drop_app_le by lia.
Qed.

Lemma readRecordLoop_app fuel fuel' out s1 s2 : (fuel <= fuel')%nat -> match readRecordLoop fuel out s1 with
  | Some (Ok (rec, tl)) => readRecordLoop fuel' out (s1 ++ s2) = Some (Ok (rec, tl ++ s2))
  | Some (Err RecordTooLong) => readRecordLoop fuel' out (s1 ++ s2) = Some (Err RecordTooLong)
  | _ => True
  end.
Proof.
  revert fuel' out s1. induction fuel as [|fuel IH]; intros [|fuel'] out s1 Hle; try done; [lia|]. cbn [readRecordLoop].
  pose proof (readFull_more 4 s1 s2) as H4. destruct (readFull 4 s1) as [[hdr tl]|e]; [|by destruct H4 as [->| ->]]. rewrite H4. cbv zeta.
  destruct (maxRecord <? _); [done|]. pose proof (readFull_more (Z.land (be_Z hdr) 0x7fffffff) tl s2) as Hf.
  destruct (readFull _ tl) as [[frag tl']|e]; [|by destruct Hf as [->| ->]]. rewrite Hf. destruct (negb _); [done|]. apply IH. lia.
Qed.

(** A record that has come in full is the same whatever comes after it. *)
Lemma readRecord_app s1 s2 rec tl : readRecord s1 = Some (Ok (rec, tl)) -> readRecord (s1 ++ s2) = Some (Ok (rec, tl ++ s2)).
Proof.
  unfold readRecord. intros H. pose proof (readRecordLoop_app (Datatypes.S (length s1)) (Datatypes.S (length (s1 ++ s2))) [] s1 s2) as Ha.
  rewrite H in Ha. apply Ha. rewrite length_app. lia.
Qed.

Section Server.
Context {S E : Type} (srv : Server S E).
Implicit Types (c : conn S E) (a : task S E) (rc : replyCache) (s : server S E).

(** ** A goroutine alone is [dispatch] *)

(** A goroutine that nothing comes between does to the cache and the program
    what [dispatch] does, and waits to write exactly its reply, or is over
    without one. *)
Theorem goroutine_is_dispatch id rec now1 now2 e rc (s : S) :
  dispatch srv id rec now1 now2 e (rc, s) =
  match enter srv id rec now1 rc with
  | (Some (Calling k tracked h cred args), rc1) =>
      match execute k tracked h cred args e s with
      | (Returning k reply, s1) => (Some reply, (resolveCall k reply now2 rc1, s1))
      | (Waiting reply, s1) => (Some reply, (rc1, s1))
      | (_, s1) => (None, (rc1, s1))
      end
  | (Some (Waiting reply), rc1) => (Some reply, (rc1, s))
  | (_, rc1) => (None, (rc1, s))
  end.
Proof.
  unfold dispatch, enter, execute. destruct (classify srv id rec) as [| |k h cred r]; [done..|].
  destruct (Idempotent h (kProc k)); [by destruct (Call h e (kProc k) cred r s)|].
  destruct (begin now1 k rc) as [[[p|] []] rc1]; try done; by destruct (Call h e (kProc k) cred r s).
Qed.

(** ** One connection *)

Definition isSending (a : task S E) : bool := match a with Sending _ => true | _ => false end.

(** Whether its reply has had the mutex. *)
Definition past (a : task S E) : bool := match a with Sending _ | Leaving | Ending => true | _ => false end.

(** Whether it has its token of the semaphore. *)
Definition held (a : task S E) : nat := match a with Ending => 0 | _ => 1 end.

Definition total (f : task S E -> nat) (m : gmap nat (task S E)) : nat := sum_list (map (fun ta => f ta.2) (map_to_list m)).

Lemma total_at f m t a : m !! t = Some a -> total f m = (f a + total f (delete t m))%nat.
Proof. intros Ht. unfold total. by rewrite <- (map_to_list_delete m t a Ht). Qed.

Lemma total_insert f m t a : total f (<[t := a]> m) = (f a + total f (delete t m))%nat.
Proof. rewrite (total_at f _ t a) by apply lookup_insert_eq. by rewrite delete_insert_eq. Qed.

Lemma total_set f m t a b : m !! t = Some a -> (total f (<[t := b]> m) + f a = total f m + f b)%nat.
Proof. intros Ht. rewrite total_insert, (total_at f m t a Ht). lia. Qed.

(** What a goroutine that serves a record is at. *)
Definition taskOK (id : Z) (rec : bytes) (a : task S E) : Prop :=
  match a with
  | Spawned r => r = rec
  | Calling k _ _ _ _ => Writer.Uint32 (kXid k) = btake 4 rec /\ kConn k = id
  | Returning k reply => Writer.Uint32 (kXid k) = btake 4 rec /\ kConn k = id /\ answers (btake 4 rec) reply
  | Waiting reply => answers (btake 4 rec) reply
  | _ => True
  end.

(** Records read off a stream, and what is left of it. *)
Inductive streamed (sent : bytes) : list bytes -> bytes -> Prop :=
| streamed_none : streamed sent [] sent
| streamed_one l tl rec tl' : streamed sent l tl -> readRecord tl = Some (Ok (rec, tl')) -> streamed sent (l ++ [rec]) tl'.

(** The semaphore, the wait group and the mutex. *)
Record counted (c : conn S E) : Prop := {
  ct_sem : sem c = total held (tasks c);
  ct_wg : wg c = size (tasks c);
  ct_max : (sem c <= maxInFlight)%nat;
  ct_mu : forall t a, tasks c !! t = Some a -> isSending a = true -> writeMu c = true;
  ct_held : writeMu c = true -> exists t a, tasks c !! t = Some a /\ isSending a = true;
  ct_one : forall t t' a a', tasks c !! t = Some a -> tasks c !! t' = Some a' -> isSending a = true -> isSending a' = true -> t = t';
  ct_closed : reader c = Closed -> tasks c = ∅
}.

(** Who serves what. *)
Record placed (c : conn S E) : Prop := {
  pl_task : forall t a, tasks c !! t = Some a -> exists rec, served c !! t = Some rec /\ taskOK (connID c) rec a;
  pl_reply : forall t r, (t, r) ∈ replies c -> exists rec, served c !! t = Some rec /\ answers (btake 4 rec) r;
  pl_nodup : NoDup (map fst (replies c));
  pl_gone : forall t a, t ∈ map fst (replies c) -> tasks c !! t = Some a -> past a = true;
  pl_stream : match reader c with
              | Reading => streamed (stream c) (served c) (input c)
              | Holding rec => streamed (stream c) (served c ++ [rec]) (input c)
              | _ => exists tl, streamed (stream c) (served c) tl
              end
}.

Definition wire (l : list (nat * bytes)) : bytes := concat (map (fun tr => writeRecord tr.2) l).

(** What is on the wire. *)
Definition written (c : conn S E) : Prop :=
  exists tl, output c ++ tl = wire (replies c) /\
    (broken c = false -> (writeMu c = false -> tl = []) /\ forall t b, tasks c !! t = Some (Sending b) -> tl = b).

Record connOK (c : conn S E) : Prop := { ck_counted : counted c; ck_placed : placed c; ck_written : written c }.

Lemma serveConn_ok n : connOK (serveConn n).
Proof.
  split.
  - split; cbn [serveConn tasks sem wg writeMu reader]; rewrite ?map_size_empty; try done; unfold maxInFlight; lia.
  - split; cbn [serveConn tasks connID served replies stream input reader]; try done; [by intros ? ? ?%elem_of_nil|constructor|constructor].
  - exists []. split; [done|]. intros _. split; [done|]. cbn. intros t b. by rewrite lookup_empty.
Qed.

Lemma streamed_drop sent l rec tl : streamed sent (l ++ [rec]) tl -> exists tl', streamed sent l tl'.
Proof.
  intros H. remember (l ++ [rec]) as x eqn:Ex. destruct H as [|l' tl rec' tl' Hs _]; [by destruct l|].
  apply app_inj_tail in Ex as [-> _]. by eexists.
Qed.

Lemma streamed_app sent l tl b : streamed sent l tl -> streamed (sent ++ b) l (tl ++ b).
Proof. induction 1 as [|l tl rec tl' _ IH Hr]; [constructor|]. econstructor; [exact IH|]. by apply readRecord_app. Qed.

(** *** The transformers *)

Lemma clientStep_ok ev c : connOK c -> connOK (clientStep ev c) /\ connID (clientStep ev c) = connID c.
Proof.
  intros [[A1 A2 A3 A4 A5 A6 A7] [B1 B2 B3 B4 B5] (tl&Ho&Hb)]. destruct ev as [b| |n|]; cbn [clientStep].
  - destruct (ended c) eqn:Ee; [split; [|done]; split; [by split|by split|by exists tl]|]. split; [|done]. split; [by split| |by exists tl].
    split; try done. cbn. destruct (reader c) as [|rec| |]; [by apply streamed_app..| |]; destruct B5 as [tl' B5]; exists (tl' ++ b); by apply streamed_app.
  - split; [|done]. split; [by split|by split|by exists tl].
  - split; [|done]. split; [by split|by split|by exists tl].
  - split; [|done]. split; [by split|by split|by exists tl].
Qed.

Lemma setReader_ok r c : connOK c -> (r = Closed -> tasks c = ∅) ->
  match r with Reading => False | Holding _ => False | _ => True end -> connOK (setReader r c).
Proof.
  intros [[A1 A2 A3 A4 A5 A6 A7] [B1 B2 B3 B4 B5] Hw] Hc Hr. split; [split; try done|split; try done|exact Hw].
  cbn. destruct r; try done; (destruct (reader c) as [|rec| |]; [by eexists|by eapply streamed_drop|done..]).
Qed.

Lemma task_update c t a b : tasks c !! t = Some a -> size (<[t := b]> (tasks c)) = size (tasks c).
Proof. intros Ht. apply map_size_insert_Some. eauto. Qed.

Lemma task_open c t a : counted c -> tasks c !! t = Some a -> reader c ≠ Closed.
Proof. intros [_ _ _ _ _ _ A7] Ht Hc. rewrite A7 in Ht by done. by rewrite lookup_empty in Ht. Qed.

Definition withSem (n : nat) (c : conn S E) : conn S E :=
  mkConn (connID c) (stream c) (ended c) (input c) (reader c) n (wg c) (writeMu c) (tasks c) (broken c) (window c) (output c) (served c) (replies c).

(** A goroutine goes on outside of the mutex, with or without its token. *)
Lemma task_ok n t a b c : connOK c -> tasks c !! t = Some a -> isSending a = false -> isSending b = false -> (past a = true -> past b = true) ->
  (n + held a = sem c + held b)%nat -> (n <= sem c)%nat ->
  (forall rec, taskOK (connID c) rec a -> taskOK (connID c) rec b) -> connOK (withSem n (setTask t b c)).
Proof.
  intros [HA [B1 B2 B3 B4 B5] (tl&Ho&Hb)] Ht Ha Hb' Hp Hn Hle Hok. pose proof (task_open _ _ _ HA Ht) as Hop. destruct HA as [A1 A2 A3 A4 A5 A6 A7]. split.
  - split; cbn [withSem setTask tasks sem wg writeMu reader]; rewrite ?(task_update c t a b Ht); try done.
    + pose proof (total_set held _ _ _ b Ht). lia.
    + lia.
    + intros j x. rewrite lookup_insert. case_decide; [intros [= <-]; congruence|apply A4].
    + intros Hm. destruct (A5 Hm) as (j&x&Hj&Hx). exists j, x. rewrite lookup_insert_ne; [done|]. intros ->. congruence.
    + intros j j' x x'. rewrite !lookup_insert. do 2 case_decide; [congruence|intros [= <-]; congruence|intros _ [= <-]; congruence|apply A6].
  - split; cbn [withSem setTask tasks connID served replies stream input reader]; try done.
    + intros j x. rewrite lookup_insert. case_decide; [|apply B1]. subst. intros [= <-]. destruct (B1 _ _ Ht) as (rec&?&?). eauto.
    + intros j x Hj. rewrite lookup_insert. case_decide; [|by apply B4]. subst. intros [= <-]. apply Hp. by eapply B4.
  - exists tl. split; [done|]. intros Hbr. destruct (Hb Hbr) as [H1 H2]. split; [done|]. cbn [withSem setTask tasks]. intros j x. rewrite lookup_insert.
    case_decide; [intros [= ->]; done|apply H2].
Qed.

Lemma setTask_ok t a b c : connOK c -> tasks c !! t = Some a -> isSending a = false -> isSending b = false -> past a = false -> held b = 1%nat ->
  (forall rec, taskOK (connID c) rec a -> taskOK (connID c) rec b) -> connOK (setTask t b c).
Proof.
  intros Hc Ht Ha Hb Hp Hh Hok. apply (task_ok (sem c) t a b c Hc Ht Ha Hb); [by rewrite Hp| |done|done]. rewrite Hh. destruct a; cbn in *; try done; lia.
Qed.

(** The token goes back, and the wait group is told. *)
Lemma releaseSem_ok t c : connOK c -> tasks c !! t = Some Leaving -> connOK (releaseSem t c).
Proof.
  intros Hc Ht. apply (task_ok (sem c - 1) t Leaving Ending c Hc Ht); try done; [|lia]. cbn.
  rewrite (ct_sem c (ck_counted c Hc)), (total_at _ _ _ _ Ht). cbn. lia.
Qed.

Lemma endTask_ok t c : connOK c -> tasks c !! t = Some Ending -> connOK (endTask t c).
Proof.
  intros [HA [B1 B2 B3 B4 B5] (tl&Ho&Hb)] Ht. pose proof (task_open _ _ _ HA Ht) as Hop. destruct HA as [A1 A2 A3 A4 A5 A6 A7].
  pose proof (map_size_delete t (tasks c)) as Hd. rewrite Ht in Hd. cbn in Hd. split.
  - split; cbn [endTask tasks sem wg writeMu reader]; rewrite ?Hd; try lia; try done.
    + by rewrite A1, (total_at _ _ _ _ Ht).
    + intros j x Hj. apply lookup_delete_Some in Hj as [_ Hj]. by eapply A4.
    + intros Hm. destruct (A5 Hm) as (j&x&Hj&Hx). exists j, x. rewrite lookup_delete_ne; [done|]. intros ->. rewrite Ht in Hj. by injection Hj as <-.
    + intros j j' x x' Hj Hj'. apply lookup_delete_Some in Hj as [_ Hj], Hj' as [_ Hj']. by eapply A6.
  - split; cbn [endTask tasks connID served replies stream input reader]; try done.
    + intros j x Hj. apply lookup_delete_Some in Hj as [_ Hj]. by apply B1.
    + intros j x Hj Hx. apply lookup_delete_Some in Hx as [_ Hx]. by eapply B4.
  - exists tl. split; [done|]. intros Hbr. destruct (Hb Hbr) as [H1 H2]. split; [done|]. cbn [endTask tasks]. intros j x Hj.
    apply lookup_delete_Some in Hj as [_ Hj]. by eapply H2.
Qed.

(** The semaphore is taken for a record and its goroutine started. *)
Lemma served_new c : placed c -> tasks c !! length (served c) = None.
Proof.
  intros [B1 _ _ _ _]. destruct (tasks c !! length (served c)) as [a|] eqn:Ea; [|done]. destruct (B1 _ _ Ea) as (r&Hl&_). apply lookup_lt_Some in Hl. lia.
Qed.

Lemma spawn_ok rec c : connOK c -> reader c = Holding rec -> (sem c < maxInFlight)%nat -> connOK (spawn rec c).
Proof.
  intros [[A1 A2 A3 A4 A5 A6 A7] HB (tl&Ho&Hb)] Hr Hs. pose proof (served_new c HB) as Hnew. destruct HB as [B1 B2 B3 B4 B5].
  assert (Hkeep : forall t r, served c !! t = Some r -> (served c ++ [rec]) !! t = Some r) by (intros t r; apply lookup_app_l_Some). split.
  - split; cbn [spawn tasks sem wg writeMu reader]; rewrite ?map_size_insert_None by done; try lia; try done.
    + rewrite total_insert, delete_id by done. cbn. by rewrite A1.
    + intros j x. rewrite lookup_insert. case_decide; [by intros [= <-]|apply A4].
    + intros Hm. destruct (A5 Hm) as (j&x&Hj&Hx). exists j, x. rewrite lookup_insert_ne; [done|]. intros Hjn. subst j. congruence.
    + intros j j' x x'. rewrite !lookup_insert. do 2 case_decide; [congruence|by intros [= <-]|by intros _ [= <-]|apply A6].
  - split; cbn [spawn tasks connID served replies stream input reader]; try done.
    + intros j x. rewrite lookup_insert. case_decide as Hj.
      * subst. intros [= <-]. exists rec. split; [|done]. by apply list_lookup_middle.
      * intros Hx. destruct (B1 _ _ Hx) as (r&?&?). eauto.
    + intros j r Hj. destruct (B2 _ _ Hj) as (r'&?&?). eauto.
    + intros j x Hj. rewrite lookup_insert. case_decide; [|by apply B4]. subst. exfalso.
      apply list_elem_of_fmap in Hj as ([j' r]&He&Hj). cbn in He. subst j'. destruct (B2 _ _ Hj) as (r'&Hl&_). apply lookup_lt_Some in Hl. lia.
    + by rewrite Hr in B5.
  - exists tl. split; [done|]. intros Hbr. destruct (Hb Hbr) as [H1 H2]. split; [done|]. cbn [spawn tasks]. intros j x. rewrite lookup_insert.
    case_decide; [done|apply H2].
Qed.

(** A record is taken off the stream. *)
Lemma readStep_ok c c' : connOK c -> reader c = Reading -> readStep c = Some c' -> connOK c' /\ connID c' = connID c /\ tasks c' = tasks c.
Proof.
  intros Hok Hr. assert (Hdr : connOK (setReader Draining c)) by by apply setReader_ok. unfold readStep.
  destruct (broken c) eqn:Eb; [by intros [= <-]|]. destruct (readRecord (input c)) as [[[rec tl]|[]]|] eqn:Er; [|destruct (ended c)..|done];
    try done; [|by intros [= <-]..]. intros [= <-]. split; [|done].
  destruct Hok as [[A1 A2 A3 A4 A5 A6 A7] [B1 B2 B3 B4 B5] Hw]. split; [split; try done|split; try done|unfold written in *; by rewrite Eb in Hw].
  cbn. rewrite Hr in B5. by econstructor.
Qed.

Lemma wire_snoc l t r : wire (l ++ [(t, r)]) = wire l ++ writeRecord r.
Proof. unfold wire. rewrite map_app, concat_app. cbn. by rewrite app_nil_r. Qed.

(** The mutex is taken. *)
Lemma lock_ok t reply c : connOK c -> tasks c !! t = Some (Waiting reply) -> writeMu c = false -> connOK (lock t reply c).
Proof.
  intros [HA [B1 B2 B3 B4 B5] (tl&Ho&Hb)] Ht Hm. pose proof (task_open _ _ _ HA Ht) as Hop. destruct HA as [A1 A2 A3 A4 A5 A6 A7].
  assert (Hno : forall j x, tasks c !! j = Some x -> isSending x = false).
  { intros j x Hx. destruct (isSending x) eqn:Ex; [|done]. rewrite (A4 _ _ Hx Ex) in Hm. done. }
  assert (Hnin : t ∉ map fst (replies c)) by (intros Hin; specialize (B4 _ _ Hin Ht); done). split.
  - split; cbn [lock tasks sem wg writeMu reader]; rewrite ?(task_update c t _ _ Ht); try done.
    + pose proof (total_set held _ _ _ (Sending (writeRecord reply)) Ht) as Hs. cbn [held] in Hs. lia.
    + intros _. exists t, (Sending (writeRecord reply)). by rewrite lookup_insert_eq.
    + intros j j' x x'. rewrite !lookup_insert. do 2 case_decide; [congruence|intros _ Hx; by rewrite (Hno _ _ Hx)|intros Hx; by rewrite (Hno _ _ Hx)|].
      intros Hx. by rewrite (Hno _ _ Hx).
  - destruct (B1 _ _ Ht) as (rec&Hrec&Hans). split; cbn [lock tasks connID served replies stream input reader]; try done.
    + intros j x. rewrite lookup_insert. case_decide; [|apply B1]. subst. intros [= <-]. by exists rec.
    + intros j r. destruct (broken c); [apply B2|]. rewrite elem_of_app, list_elem_of_singleton. intros [Hj|[= -> ->]]; [by apply B2|by exists rec].
    + destruct (broken c); [done|]. rewrite map_app. apply list.NoDup_app. split; [done|]. split; [|apply NoDup_singleton].
      intros x Hx ->%list_elem_of_singleton. done.
    + intros j x Hj. rewrite lookup_insert. case_decide as Hjt; [by intros [= <-]|]. apply B4. destruct (broken c); [done|].
      rewrite map_app, elem_of_app in Hj. destruct Hj as [Hj|Hj%list_elem_of_singleton]; [done|]. by subst.
  - destruct (broken c) eqn:Ebr.
    + exists tl. cbn [lock output replies broken]. rewrite Ebr. by split.
    + destruct (Hb eq_refl) as [H1 H2]. specialize (H1 Hm). subst tl. exists (writeRecord reply). cbn [lock output replies broken writeMu tasks].
      rewrite Ebr, wire_snoc, <- Ho, app_nil_r. split; [done|]. intros _. split; [done|]. intros j b. rewrite lookup_insert.
      case_decide; [by intros [= <-]|]. intros Hx. by specialize (Hno _ _ Hx).
Qed.

(** The goroutine that holds the mutex gets on with its write, or fails. *)
Lemma push_ok t unsent b rest fail c : connOK c -> tasks c !! t = Some (Sending unsent) ->
  (broken c = true -> b = []) -> (broken c = false -> exists tl, unsent = b ++ tl /\ (fail = false -> tl = rest)) ->
  connOK (push t b rest fail c).
Proof.
  intros [HA [B1 B2 B3 B4 B5] (tl&Ho&Hb)] Ht Hbk Hun. pose proof (task_open _ _ _ HA Ht) as Hop. destruct HA as [A1 A2 A3 A4 A5 A6 A7]. split.
  - split; cbn [push tasks sem wg writeMu reader]; rewrite ?(task_update c t _ _ Ht); try done.
    + pose proof (total_set held _ _ _ (Sending rest) Ht) as Hs. cbn [held] in Hs. lia.
    + intros j x. rewrite lookup_insert. case_decide; [|apply A4]. intros _ _. by eapply A4.
    + intros _. exists t, (Sending rest). by rewrite lookup_insert_eq.
    + intros j j' x x'. rewrite !lookup_insert. do 2 case_decide; subst; [done| | |apply A6].
      * intros _ Hx _ Hs. by eapply (A6 _ _ (Sending unsent)).
      * intros Hx _ Hs _. by eapply (A6 _ _ _ (Sending unsent)).
  - split; cbn [push tasks connID served replies stream input reader]; try done.
    + intros j x. rewrite lookup_insert. case_decide; [|apply B1]. subst. intros [= <-]. destruct (B1 _ _ Ht) as (rec&?&_). by exists rec.
    + intros j x Hj. rewrite lookup_insert. case_decide; [by intros [= <-]|by apply B4].
  - unfold written. cbn [push output replies broken writeMu tasks]. destruct (broken c) eqn:Hbr.
    { rewrite (Hbk eq_refl), app_nil_r. by exists tl. }
    destruct (Hb eq_refl) as [_ H2], (Hun eq_refl) as (tl'&->&Hf). specialize (H2 _ _ Ht). subst tl. exists tl'. rewrite <- app_assoc. split; [done|].
    cbn [orb]. intros ->. rewrite (Hf eq_refl) in *. split; [rewrite (A4 t (Sending _) Ht eq_refl); done|]. intros j x. rewrite lookup_insert.
    case_decide as Hj; [by intros [= <-]|]. intros Hx. destruct Hj. by eapply (A6 _ _ (Sending _) (Sending x)).
Qed.

(** It lets go of the mutex. *)
Lemma unlock_ok t c : connOK c -> tasks c !! t = Some (Sending []) -> connOK (unlock t c).
Proof.
  intros [HA [B1 B2 B3 B4 B5] (tl&Ho&Hb)] Ht. pose proof (task_open _ _ _ HA Ht) as Hop. destruct HA as [A1 A2 A3 A4 A5 A6 A7].
  assert (Hno : forall j x, <[t := Leaving]> (tasks c) !! j = Some x -> isSending x = false).
  { intros j x. rewrite lookup_insert. case_decide as Hj; [by intros [= <-]|]. intros Hx. destruct (isSending x) eqn:Ex; [|done]. destruct Hj. by eapply A6. }
  split.
  - split; cbn [unlock tasks sem wg writeMu reader]; rewrite ?(task_update c t _ _ Ht); try done.
    + pose proof (total_set held _ _ _ Leaving Ht) as Hs. cbn [held] in Hs. lia.
    + intros j x Hx. by rewrite (Hno _ _ Hx).
    + intros j j' x x' Hx. by rewrite (Hno _ _ Hx).
  - split; cbn [unlock tasks connID served replies stream input reader]; try done.
    + intros j x. rewrite lookup_insert. case_decide; [|apply B1]. subst. intros [= <-]. destruct (B1 _ _ Ht) as (rec&?&_). by exists rec.
    + intros j x Hj. rewrite lookup_insert. case_decide; [by intros [= <-]|by apply B4].
  - unfold written. cbn [unlock output replies broken writeMu tasks]. exists tl. split; [done|]. intros Hbr. split; [|intros j x Hx; by specialize (Hno _ _ Hx)].
    intros _. by apply (Hb Hbr) in Ht.
Qed.

(** *** The steps *)

Lemma enter_spec id rec now rc b rc' : cacheFine rc -> enter srv id rec now rc = (b, rc') ->
  cacheFine rc' /\ let a := default Leaving b in isSending a = false /\ held a = 1%nat /\ taskOK id rec a.
Proof.
  intros Hf. unfold enter. pose proof (classify_xid srv id rec) as Hx. destruct (classify srv id rec) as [|reply|k h cred r].
  { by intros [= <- <-]. }
  { by intros [= <- <-]. }
  destruct (Idempotent h (kProc k)); [by intros [= <- <-]|].
  pose proof (begin_fine now k rc Hf) as Hf'. destruct (begin now k rc) as [[p bs] rc1] eqn:Eb.
  destruct (begin_spec _ _ _ _ _ (cf_ok _ Hf) Eb) as (_&_&_&_&_&Hs). cbn [fst snd] in *. destruct bs.
  - destruct Hs as (->&_). by intros [= <- <-].
  - destruct Hs as [-> _]. by intros [= <- <-].
  - destruct Hs as (r'&->&Hr'). intros [= <- <-]. split_and!; [done..|]. cbn. destruct Hx as [<- _]. by apply Hf'.
Qed.

Lemma execute_spec id rec k b h cred args e (s : S) a (s' : S) : execute k b h cred args e s = (a, s') ->
  taskOK id rec (Calling k b h cred args) -> isSending a = false /\ held a = 1%nat /\ taskOK id rec a.
Proof.
  unfold execute. destruct (Call h e (kProc k) cred args s) as [out s1]. destruct (encodeReply_answers (kXid k) out) as [Ha _].
  destruct b; intros [= <- <-] [Hx Hid]; (split_and!; [done..|]); cbn; by rewrite <- Hx.
Qed.

Lemma connStep_ok ctx ev c st c' st' : connOK c -> cacheFine st.1 -> connStep srv ctx ev c st = Some (c', st') ->
  connOK c' /\ cacheFine st'.1 /\ connID c' = connID c.
Proof.
  intros Hok Hf. destruct ev as [| | | |t now|t e|t now|t|t n|t n|t|t|t]; cbn [connStep].
  - destruct (reader c) eqn:Er; try done. destruct (readStep c) as [c1|] eqn:Es; [|done]. intros [= <- <-].
    destruct (readStep_ok _ _ Hok Er Es) as (?&?&_). done.
  - destruct (reader c) as [|rec| |] eqn:Er; try done. destruct (Nat.ltb_spec (sem c) maxInFlight); [|done]. intros [= <- <-].
    split; [by apply spawn_ok|done].
  - destruct (reader c); try done. destruct ctx; [|done]. intros [= <- <-]. split; [by apply setReader_ok|done].
  - destruct (reader c); try done. destruct (Nat.eqb_spec (wg c) 0) as [Hw|]; [|done]. intros [= <- <-].
    split; [|done]. apply setReader_ok; [done| |done]. intros _. rewrite (ct_wg c (ck_counted c Hok)) in Hw. by apply map_size_empty_iff in Hw.
  - destruct (tasks c !! t) as [[rec| | | | | |]|] eqn:Et; try done. destruct (enter srv (connID c) rec now st.1) as [b rc] eqn:Ee. intros [= <- <-].
    destruct (enter_spec _ _ _ _ _ _ Hf Ee) as (Hf'&Hs&Hh&Hta). split; [|done]. eapply setTask_ok; [done|exact Et|done..|]. by intros rec' <-.
  - destruct (tasks c !! t) as [[|k b h cred args| | | | |]|] eqn:Et; try done. destruct (execute k b h cred args e st.2) as [a s1] eqn:Ee. intros [= <- <-].
    split; [|done]. destruct (pl_task c (ck_placed c Hok) _ _ Et) as (rec&_&Hr).
    destruct (execute_spec _ _ _ _ _ _ _ _ _ _ _ Ee Hr) as (?&?&_). eapply setTask_ok; [done|exact Et|done..|].
    intros rec' Hr'. by apply (execute_spec _ _ _ _ _ _ _ _ _ _ _ Ee Hr').
  - destruct (tasks c !! t) as [[| |k reply| | | |]|] eqn:Et; try done. intros [= <- <-]. cbn [fst].
    destruct (pl_task c (ck_placed c Hok) _ _ Et) as (rec&_&Hx&Hid&Ha). split; [|split; [|done]].
    + eapply setTask_ok; [done|exact Et|done..|]. by intros r (_&_&?).
    + apply resolveCall_fine; [done|]. by rewrite Hx.
  - destruct (tasks c !! t) as [[| | |reply| | |]|] eqn:Et; try done. destruct (writeMu c) eqn:Em; [done|]. intros [= <- <-]. split; [by apply lock_ok|done].
  - destruct (tasks c !! t) as [[| | | |unsent| |]|] eqn:Et; try done. destruct (broken c) eqn:Eb; [done|]. destruct (_ || _); [done|].
    intros [= <- <-]. split; [|done]. eapply push_ok; [done|exact Et|by rewrite Eb|]. intros _. exists (drop n unsent). by rewrite take_drop.
  - destruct (tasks c !! t) as [[| | | |[|x l]| |]|] eqn:Et; try done. intros [= <- <-]. split; [|done].
    eapply push_ok; [done|exact Et|by intros ->|]. intros ->. eexists. split; [by rewrite take_drop|done].
  - destruct (tasks c !! t) as [[| | | |[|]| |]|] eqn:Et; try done. intros [= <- <-]. split; [by apply unlock_ok|done].
  - destruct (tasks c !! t) as [[| | | | | |]|] eqn:Et; try done. intros [= <- <-]. split; [by apply releaseSem_ok|done].
  - destruct (tasks c !! t) as [[| | | | | |]|] eqn:Et; try done. intros [= <- <-]. split; [by apply endTask_ok|done].
Qed.

(** ** The server *)

Record serverOK (s : server S E) : Prop := {
  so_cache : cacheFine (shared s).1;
  so_conn : forall i c, conns s !! i = Some c -> connOK c /\ connID c = Z.of_nat i + 1
}.

Lemma start_ok (s0 : S) : serverOK (start s0).
Proof. split; [apply newCache_fine|]. intros i c. by destruct i. Qed.

Lemma step_ok ev s s' : serverOK s -> step srv ev s = Some s' -> serverOK s'.
Proof.
  intros [H1 H2]. destruct ev as [| |i ev|i ev]; cbn [step].
  - intros [= <-]. split; [done|]. cbn. intros i c [Hi|[Hi Hc]]%lookup_app_Some; [by apply H2|]. apply list_lookup_singleton_Some in Hc as [Hi' <-].
    split; [apply serveConn_ok|]. cbn. unfold blen. lia.
  - intros [= <-]. by split.
  - destruct (conns s !! i) as [c|] eqn:Ei; [|done]. destruct (connStep srv (ctxDone s) ev c (shared s)) as [[c' sh]|] eqn:Es; [|done].
    intros [= <-]. destruct (H2 _ _ Ei) as [Hok Hid]. destruct (connStep_ok _ _ _ _ _ _ Hok H1 Es) as (K1&K2&K3). split; [done|]. cbn.
    intros j x [(<-&->&_)|[_ Hj]]%list_lookup_insert_Some; [|by apply H2]. split; [done|]. by rewrite K3.
  - destruct (conns s !! i) as [c|] eqn:Ei; [|done]. intros [= <-]. destruct (H2 _ _ Ei) as [Hok Hid]. pose proof (clientStep_ok ev c Hok) as [K1 K2].
    split; [done|]. cbn [conns]. intros j x [(<-&<-&_)|[_ Hj]]%list_lookup_insert_Some; [|by apply H2]. split; [done|]. by rewrite K2.
Qed.

Lemma reached_ok n (s0 : S) s : reached srv n s0 s -> serverOK s.
Proof. induction 1 as [|s ev s' _ IH Hs _]; [apply start_ok|by eapply step_ok]. Qed.

(** C34 Goroutines are bounded: in every state a server gets to, the tokens taken
    of a connection's semaphore, at most 64, are those of its goroutines that
    have not yet given theirs back; the wait group counts all its goroutines; at
    most one of them has the mutex, and while none has it is free; and a
    connection that is closed has none left. *)
Theorem goroutines_bounded n (s0 : S) s i c : reached srv n s0 s -> conns s !! i = Some c ->
  sem c = total held (tasks c) /\ (sem c <= 64)%nat /\ wg c = size (tasks c) /\
  (forall t t' b b', tasks c !! t = Some (Sending b) -> tasks c !! t' = Some (Sending b') -> t = t' /\ writeMu c = true) /\
  (writeMu c = true -> exists t b, tasks c !! t = Some (Sending b)) /\
  (reader c = Closed -> tasks c = ∅).
Proof.
  intros Hr Hi. destruct (so_conn s (reached_ok _ _ _ Hr) i c Hi) as [[[A1 A2 A3 A4 A5 A6 A7] _ _] _]. split_and!; try done.
  - intros t t' b b' Ht Ht'. split; [by eapply A6|by eapply A4].
  - intros Hm. destruct (A5 Hm) as (t&[]&Ht&?); try done. eauto.
Qed.

(** C22 A client receives whole replies to what it sent: in every state a server
    gets to, what was written to a connection is the beginning of a sequence of
    reply records, all of them when no write has failed and none is under way;
    the records served are the first ones of the client's stream; and every
    reply begins with the xid of one of them, no two replies being to the same
    one. *)
Theorem replies_whole n (s0 : S) s i c : reached srv n s0 s -> conns s !! i = Some c ->
  (exists tl, output c ++ tl = concat (map (fun tr => writeRecord tr.2) (replies c)) /\ (broken c = false -> writeMu c = false -> tl = [])) /\
  (exists tl, streamed (stream c) (served c) tl) /\
  NoDup (map fst (replies c)) /\
  (forall t r, (t, r) ∈ replies c -> exists rec, served c !! t = Some rec /\ answers (btake 4 rec) r).
Proof.
  intros Hr Hi. destruct (so_conn s (reached_ok _ _ _ Hr) i c Hi) as [[_ [B1 B2 B3 B4 B5] (tl&Ho&Hb)] _]. split_and!; try done.
  - exists tl. split; [done|]. intros Hbr. by apply Hb.
  - destruct (reader c); [by eexists|by eapply streamed_drop|done..].
Qed.

(** ** Calls that must not run twice *)

Definition keyOf (a : task S E) : option replyKey :=
  match a with Calling k true _ _ _ | Returning k _ => Some k | _ => None end.

(** The calls under way on a connection, and on all, that must not run twice. *)
Definition tracked (m : gmap nat (task S E)) : list replyKey := omap (fun ta => keyOf ta.2) (map_to_list m).

Definition executing (s : server S E) : list replyKey := concat (map (fun c => tracked (tasks c)) (conns s)).

Definition one (a : task S E) : list replyKey := option_list (keyOf a).

Lemma tracked_at m t a : m !! t = Some a -> tracked m ≡ₚ one a ++ tracked (delete t m).
Proof. intros Ht. unfold tracked. rewrite <- (map_to_list_delete m t a Ht). cbn. unfold one. by destruct (keyOf a). Qed.

Lemma tracked_insert m t a : tracked (<[t := a]> m) ≡ₚ one a ++ tracked (delete t m).
Proof. rewrite (tracked_at _ t a) by apply lookup_insert_eq. by rewrite delete_insert_eq. Qed.

Lemma tracked_len m : (length (tracked m) <= total held m)%nat.
Proof.
  unfold tracked, total. induction (map_to_list m) as [|x l IH]; cbn; [done|]. destruct (keyOf x.2) eqn:Ek; cbn; [|lia].
  destruct x.2; cbn in *; try done; lia.
Qed.

(** What one step does to the calls under way and to those the cache has in
    flight. *)
Inductive moved (l l' : list replyKey) (rc rc' : replyCache) : Prop :=
| moved_same : l' ≡ₚ l -> (forall j, entries rc' !! j = Some None <-> entries rc !! j = Some None) -> moved l l' rc rc'
| moved_in k : l' ≡ₚ k :: l -> entries rc !! k ≠ Some None ->
    (forall j, j ≠ k -> entries rc' !! j = Some None <-> entries rc !! j = Some None) ->
    (entries rc' !! k = Some None \/ (entries rc' !! k = None /\ doneQ rc' = [] /\ maxEntries rc <= cacheLen rc')) -> moved l l' rc rc'
| moved_out k : l ≡ₚ k :: l' -> (forall j, j ≠ k -> entries rc' !! j = Some None <-> entries rc !! j = Some None) ->
    (entries rc !! k = Some None -> entries rc' !! k ≠ Some None) -> moved l l' rc rc'.

Lemma moved_refl l l' rc : l' ≡ₚ l -> moved l l' rc rc.
Proof. intros H. by apply moved_same. Qed.

#[local] Instance moved_proper : Proper (Permutation ==> Permutation ==> eq ==> eq ==> iff) moved.
Proof.
  assert (H : forall l1 l2 l1' l2' rc rc', l1 ≡ₚ l2 -> l1' ≡ₚ l2' -> moved l1 l1' rc rc' -> moved l2 l2' rc rc').
  { intros l1 l2 l1' l2' rc rc' Hl Hl' [Hp Hc|k Hp Hk Hc Hr|k Hp Hc Hr]; rewrite Hl, Hl' in Hp.
    - by apply moved_same.
    - by apply (moved_in _ _ _ _ k).
    - by apply (moved_out _ _ _ _ k). }
  intros l1 l2 Hl l1' l2' Hl' rc ? <- rc' ? <-. by split; apply H.
Qed.

Lemma enter_moved id rec now rc b rc' : cacheFine rc -> enter srv id rec now rc = (b, rc') ->
  forall l, moved l (one (default Leaving b) ++ l) rc rc'.
Proof.
  intros Hf. unfold enter. destruct (classify srv id rec) as [|reply|k h cred r]; [intros [= <- <-] l; by apply moved_refl..|].
  destruct (Idempotent h (kProc k)); [intros [= <- <-] l; by apply moved_refl|].
  pose proof (fun j => begin_flight now k rc j (cf_ok _ Hf)) as Hin. destruct (begin now k rc) as [[p bs] rc1] eqn:Eb.
  destruct (begin_spec _ _ _ _ _ (cf_ok _ Hf) Eb) as (_&_&_&Hkeep&Hback&Hs). cbn [fst snd] in *.
  assert (Hiff : forall j, j ≠ k -> entries rc1 !! j = Some None <-> entries rc !! j = Some None) by (intros j Hj; split; auto).
  destruct bs.
  - destruct Hs as (->&Hk&Hres). intros [= <- <-] l. by eapply (moved_in _ _ _ _ k).
  - destruct Hs as [-> Hk]. intros [= <- <-] l. apply moved_same; [done|]. intros j. destruct (decide (j = k)) as [->|]; [|auto]. split; auto.
  - destruct Hs as (r'&->&Hr'). intros [= <- <-] l. apply moved_same; [done|]. intros j. destruct (decide (j = k)) as [->|]; [|auto].
    apply Hback in Hr' as Hr. rewrite Hr, Hr'. done.
Qed.

Lemma resolveCall_moved k reply now rc l : cacheFine rc -> reply ≠ [] -> moved (k :: l) l rc (resolveCall k reply now rc).
Proof.
  intros Hf Hne. unfold resolveCall. destruct reply as [|b r]; [done|]. destruct (finish_spec now k (b :: r) rc (cf_ok _ Hf)) as (_&_&_&Hj&Hk&_).
  apply (moved_out _ _ _ _ k); [done| |].
  - intros j Hne'. by rewrite Hj.
  - intros Hk'. by rewrite (Hk Hne Hk').
Qed.

Lemma answers_nonempty x r : answers x r -> r ≠ [].
Proof.
  intros [tl ->] H. apply app_nil in H as [_ H]. apply app_nil in H as [H _]. by apply (f_equal length) in H.
Qed.

Lemma execute_key k b h cred args e (s : S) a (s' : S) : execute k b h cred args e s = (a, s') -> one a = one (Calling k b h cred args).
Proof. unfold execute. destruct (Call h e (kProc k) cred args s) as [out s1]. by destruct b; intros [= <- <-]. Qed.

Lemma connStep_moved ctx ev c st c' st' : connOK c -> cacheFine st.1 -> connStep srv ctx ev c st = Some (c', st') ->
  moved (tracked (tasks c)) (tracked (tasks c')) st.1 st'.1.
Proof.
  intros Hok Hf. assert (Hset : forall t a b m, tasks c !! t = Some a -> one b = one a -> m = <[t := b]> (tasks c) -> tracked m ≡ₚ tracked (tasks c)).
  { intros t a b m Ht Hab ->. by rewrite tracked_insert, (tracked_at _ _ _ Ht), Hab. }
  destruct ev as [| | | |t now|t e|t now|t|t n|t n|t|t|t]; cbn [connStep].
  - destruct (reader c) eqn:Er; try done. destruct (readStep c) as [c1|] eqn:Es; [|done]. intros [= <- <-].
    destruct (readStep_ok _ _ Hok Er Es) as (_&_&->). by apply moved_refl.
  - destruct (reader c) as [|rec| |]; try done. destruct (sem c <? maxInFlight)%nat; [|done]. intros [= <- <-]. apply moved_refl.
    cbn [spawn tasks]. by rewrite tracked_insert, delete_id by apply served_new, Hok.
  - destruct (reader c); try done. destruct ctx; [|done]. intros [= <- <-]. by apply moved_refl.
  - destruct (reader c); try done. destruct (wg c =? 0)%nat; [|done]. intros [= <- <-]. by apply moved_refl.
  - destruct (tasks c !! t) as [[rec| | | | | |]|] eqn:Et; try done. destruct (enter srv (connID c) rec now st.1) as [b rc] eqn:Ee. intros [= <- <-].
    pose proof (enter_moved _ _ _ _ _ _ Hf Ee (tracked (delete t (tasks c)))) as Hm. pose proof (tracked_at _ _ _ Et) as Hp. cbn [one keyOf option_list app] in Hp.
    rewrite Hp. cbn [fst setTask tasks]. by rewrite tracked_insert.
  - destruct (tasks c !! t) as [[|k b h cred args| | | | |]|] eqn:Et; try done. destruct (execute k b h cred args e st.2) as [a s1] eqn:Ee. intros [= <- <-].
    apply moved_refl. eapply Hset; [exact Et| |done]. by eapply execute_key.
  - destruct (tasks c !! t) as [[| |k reply| | | |]|] eqn:Et; try done. intros [= <- <-]. cbn [fst setTask tasks].
    destruct (pl_task c (ck_placed c Hok) _ _ Et) as (rec&_&_&_&Ha%answers_nonempty).
    rewrite (tracked_at _ _ _ Et), tracked_insert. by apply resolveCall_moved.
  - destruct (tasks c !! t) as [[| | |reply| | |]|] eqn:Et; try done. destruct (writeMu c); [done|]. intros [= <- <-]. apply moved_refl. eapply (Hset t); [exact Et| |reflexivity]; done.
  - destruct (tasks c !! t) as [[| | | |unsent| |]|] eqn:Et; try done. destruct (_ || _); [done|]. intros [= <- <-]. apply moved_refl. eapply (Hset t); [exact Et| |reflexivity]; done.
  - destruct (tasks c !! t) as [[| | | |[|x l]| |]|] eqn:Et; try done. intros [= <- <-]. apply moved_refl. eapply (Hset t); [exact Et| |reflexivity]; done.
  - destruct (tasks c !! t) as [[| | | |[|]| |]|] eqn:Et; try done. intros [= <- <-]. apply moved_refl. eapply (Hset t); [exact Et| |reflexivity]; done.
  - destruct (tasks c !! t) as [[| | | | | |]|] eqn:Et; try done. intros [= <- <-]. apply moved_refl. eapply (Hset t); [exact Et| |reflexivity]; done.
  - destruct (tasks c !! t) as [[| | | | | |]|] eqn:Et; try done. intros [= <- <-]. apply moved_refl. cbn [endTask tasks]. by rewrite (tracked_at _ _ _ Et).
Qed.

(** The cache has in flight exactly the calls under way, each under way once. *)
Definition flightOK (s : server S E) : Prop :=
  NoDup (executing s) /\ forall k, entries (shared s).1 !! k = Some None <-> k ∈ executing s.

Lemma executing_bound (l : list (conn S E)) : Forall connOK l ->
  (length (concat (map (fun c => tracked (tasks c)) l)) <= 64 * length (List.filter isOpen l))%nat.
Proof.
  induction 1 as [|c l [[A1 A2 A3 A4 A5 A6 A7] _ _] _ IH]; cbn -[Nat.mul]; [lia|]. rewrite length_app. pose proof (tracked_len (tasks c)) as Hl.
  rewrite A1 in A3. unfold maxInFlight in A3. unfold isOpen at 1. destruct (reader c) eqn:Er; cbn [length]; try lia. rewrite (A7 eq_refl) in *.
  change (total held ∅) with 0%nat in Hl. lia.
Qed.

Lemma executing_at s i c : conns s !! i = Some c ->
  exists l, executing s ≡ₚ tracked (tasks c) ++ l /\
    forall c' sh d, executing (mkState (<[i := c']> (conns s)) sh d) ≡ₚ tracked (tasks c') ++ l.
Proof.
  intros Hi. exists (concat (map (fun c => tracked (tasks c)) (take i (conns s) ++ drop (Datatypes.S i) (conns s)))).
  assert (Hp : forall (l1 l2 : list (conn S E)) x, concat (map (fun c => tracked (tasks c)) (l1 ++ x :: l2)) ≡ₚ
    tracked (tasks x) ++ concat (map (fun c => tracked (tasks c)) (l1 ++ l2))).
  { intros l1 l2 x. rewrite !map_app, !concat_app. cbn. by rewrite Permutation_app_swap_app. }
  unfold executing. split.
  - rewrite <- (take_drop_middle (conns s) i c Hi) at 1. apply Hp.
  - intros c' sh d. cbn. rewrite insert_take_drop by (by eapply lookup_lt_Some). apply Hp.
Qed.

Lemma size_keys (m : gmap replyKey (option bytes)) l : NoDup l -> (forall k v, m !! k = Some v -> k ∈ l) -> (size m <= length l)%nat.
Proof.
  intros Hl Hin. rewrite <- size_dom, <- (size_list_to_set (C := gset replyKey) l Hl). apply subseteq_size. intros k [v Hv]%elem_of_dom.
  apply elem_of_list_to_set. by eapply Hin.
Qed.

(** A cache that could not reserve a key has that many calls in flight. *)
Lemma full_in_flight rc l : cacheFine rc -> NoDup l -> doneQ rc = [] -> (forall j, entries rc !! j = Some None -> j ∈ l) -> cacheLen rc <= blen l.
Proof.
  intros [Hok _ _] Hl Hd Hin. unfold cacheLen, blen. pose proof (size_keys (entries rc) l Hl) as Hs. rewrite <- Nat2Z.inj_le. apply Hs. intros k [r|] Hk; [|by apply Hin].
  assert (Hq : k ∈ map fst (doneQ rc)) by (apply (co_done rc Hok); by exists r). rewrite Hd in Hq. by apply elem_of_nil in Hq.
Qed.

Lemma moved_flight l l' r rc rc' : cacheFine rc -> cacheFine rc' -> NoDup (l ++ r) -> (forall k, entries rc !! k = Some None <-> k ∈ l ++ r) ->
  moved l l' rc rc' -> (length (l' ++ r) <= 64 * 64)%nat -> NoDup (l' ++ r) /\ forall k, entries rc' !! k = Some None <-> k ∈ l' ++ r.
Proof.
  intros Hrc Hrc' Hn Hf [Hp Hc|k Hp Hk Hc Hres|k Hp Hc Hk] Hlen.
  - rewrite Hp. split; [done|]. intros j. by rewrite Hc, Hf, Hp.
  - rewrite Hp in *. cbn [app] in *. assert (Hnew : entries rc' !! k = Some None).
    { destruct Hres as [?|(Hno&Hd&Hfull)]; [done|]. assert (Hin : cacheLen rc' <= blen (l ++ r)).
      { apply full_in_flight; [done|done|done|]. intros j Hj. apply Hf, Hc; [|done]. congruence. }
      rewrite (cf_max rc Hrc) in Hfull. unfold replyCacheMaxEntries, blen in *. cbn [length] in Hlen. lia. }
    assert (Hout : k ∉ l ++ r) by by rewrite <- Hf. split; [by constructor|]. intros j. rewrite Hp. cbn [app]. rewrite elem_of_cons.
    destruct (decide (j = k)) as [->|Hj]; [by split; [left|]|]. rewrite Hc, Hf by done. split; [by right|by intros [?|?]].
  - rewrite Hp in Hn. cbn [app] in Hn. apply list.NoDup_cons in Hn as [Hout Hn]. split; [done|]. intros j.
    destruct (decide (j = k)) as [->|Hj]; [|rewrite Hc, Hf, Hp by done; cbn [app]; rewrite elem_of_cons; naive_solver].
    split; [|done]. intros Hin. destruct (Hk); [|done]. rewrite Hf, Hp. by left.
Qed.

Lemma step_flight ev s s' : serverOK s -> flightOK s -> step srv ev s = Some s' -> (liveConns s' <= 64)%nat -> flightOK s'.
Proof.
  intros Hok [Hn Hf] Hst Hlive. pose proof (step_ok _ _ _ Hok Hst) as Hok'. assert (Hbound : (length (executing s') <= 64 * 64)%nat).
  { etrans; [apply executing_bound|unfold liveConns in Hlive; lia]. apply list.Forall_forall. intros x [j Hj]%list_elem_of_lookup.
    by destruct (so_conn _ Hok' _ _ Hj). }
  destruct ev as [| |i ev|i ev]; cbn [step] in Hst.
  - injection Hst as <-. unfold flightOK, executing in *. cbn. rewrite map_app, concat_app. cbn. by rewrite app_nil_r.
  - by injection Hst as <-.
  - destruct (conns s !! i) as [c|] eqn:Ei; [|done]. destruct (connStep srv (ctxDone s) ev c (shared s)) as [[c' sh]|] eqn:Es; [|done].
    injection Hst as <-. destruct (so_conn s Hok _ _ Ei) as [Hc _]. pose proof (connStep_moved _ _ _ _ _ _ Hc (so_cache s Hok) Es) as Hm.
    destruct (executing_at s i c Ei) as (l&Hl&Hl'). specialize (Hl' c' sh (ctxDone s)). rewrite Hl' in Hbound. rewrite Hl in Hn.
    assert (Hf' : forall k, entries (shared s).1 !! k = Some None <-> k ∈ tracked (tasks c) ++ l) by (intros k; by rewrite Hf, Hl).
    destruct (moved_flight _ _ l _ _ (so_cache s Hok) (so_cache _ Hok') Hn Hf' Hm Hbound) as [H1 H2].
    split; [by rewrite Hl'|]. intros k. by rewrite H2, Hl'.
  - destruct (conns s !! i) as [c|] eqn:Ei; [|done]. injection Hst as <-. destruct (executing_at s i c Ei) as (l&Hl&Hl').
    specialize (Hl' (clientStep ev c) (shared s) (ctxDone s)). replace (tasks (clientStep ev c)) with (tasks c) in Hl' by (destruct ev; cbn; [destruct (ended c)|..]; done).
    rewrite <- Hl in Hl'. split; [by rewrite Hl'|]. intros k. cbn [shared]. by rewrite Hf, Hl'.
Qed.

(** C21 No call that must not run twice is executed by two goroutines at a time:
    as long as at most 64 connections are open at once, the calls under way all
    have keys of their own, and the cache has exactly these in flight. *)
Theorem executed_once (s0 : S) s : reached srv 64 s0 s ->
  NoDup (executing s) /\ forall k, entries (shared s).1 !! k = Some None <-> k ∈ executing s.
Proof.
  intros Hr. assert (H : serverOK s /\ flightOK s); [|exact (proj2 H)]. induction Hr as [|s ev s' _ [IH1 IH2] Hs Hl].
  - split; [apply start_ok|]. split; [constructor|]. intros k. cbn. rewrite lookup_empty. split; [done|by intros ?%elem_of_nil].
  - split; [by eapply step_ok|by eapply step_flight].
Qed.

(** ** Coming to rest *)

Definition rank (a : task S E) : nat :=
  match a with
  | Spawned _ => 7 | Calling _ _ _ _ _ => 6 | Returning _ _ => 5 | Waiting _ => 4 | Sending _ => 3 | Leaving => 2 | Ending => 1
  end.

Definition unsentOf (a : task S E) : nat := match a with Sending b => length b | _ => 0 end.

(** What is left to do on a connection, but for the bytes of a write. *)
Definition todo (c : conn S E) : nat :=
  10 * match reader c with Reading => 2 * length (input c) + 2 | Holding _ => 2 * length (input c) + 3 | Draining => 1 | Closed => 0 end
  + total rank (tasks c).

Definition unsentAll (c : conn S E) : nat := total unsentOf (tasks c).

Lemma enter_rank id rec now rc b rc' : cacheFine rc -> enter srv id rec now rc = (b, rc') -> (rank (default Leaving b) < 7)%nat.
Proof.
  intros Hf He. unfold enter in He. destruct (classify srv id rec) as [|reply|k h cred r]; [injection He as <- _; cbn; lia..|].
  destruct (Idempotent h (kProc k)); [injection He as <- _; cbn; lia|].
  destruct (begin now k rc) as [[[p|] []] rc1]; try done; injection He as <- _; cbn; lia.
Qed.

Lemma connStep_less ctx ev c st c' st' : connOK c -> cacheFine st.1 -> connStep srv ctx ev c st = Some (c', st') ->
  (todo c' < todo c \/ (todo c' = todo c /\ unsentAll c' < unsentAll c))%nat.
Proof.
  intros Hok Hf. unfold todo, unsentAll. assert (Hset : forall t a b, tasks c !! t = Some a -> (rank b < rank a)%nat ->
    (total rank (<[t := b]> (tasks c)) < total rank (tasks c))%nat).
  { intros t a b Ht Hr. pose proof (total_set rank _ _ _ b Ht). lia. }
  assert (Hsend : forall t b b', tasks c !! t = Some (Sending b) -> (length b' < length b)%nat ->
    total rank (<[t := Sending b']> (tasks c)) = total rank (tasks c) /\ (total unsentOf (<[t := Sending b']> (tasks c)) < total unsentOf (tasks c))%nat).
  { intros t b b' Ht Hr. pose proof (total_set rank _ _ _ (Sending b') Ht) as H1. pose proof (total_set unsentOf _ _ _ (Sending b') Ht) as H2.
    cbn [rank unsentOf] in *. lia. }
  destruct ev as [| | | |t now|t e|t now|t|t n|t n|t|t|t]; cbn [connStep].
  - destruct (reader c) eqn:Er; try done. unfold readStep. destruct (broken c); [intros [= <- <-]; left; cbn -[Nat.mul]; lia|].
    destruct (record_bounded (input c)) as (x&->&Hx). destruct x as [[rec tl]|[]]; [|destruct (ended c); [|done]..|];
      intros [= <- <-]; left; cbn -[Nat.mul]; [|lia..]. unfold blen in Hx. lia.
  - destruct (reader c) as [|rec| |]; try done. destruct (sem c <? maxInFlight)%nat; [|done]. intros [= <- <-]. left. cbn -[Nat.mul total].
    rewrite total_insert, delete_id by apply served_new, Hok. cbn -[Nat.mul]. lia.
  - destruct (reader c); try done. destruct ctx; [|done]. intros [= <- <-]. left. cbn -[Nat.mul]. lia.
  - destruct (reader c); try done. destruct (wg c =? 0)%nat; [|done]. intros [= <- <-]. left. cbn -[Nat.mul]. lia.
  - destruct (tasks c !! t) as [[rec| | | | | |]|] eqn:Et; try done. destruct (enter srv (connID c) rec now st.1) as [b rc] eqn:Ee. intros [= <- <-]. left.
    cbn [setTask tasks reader input]. specialize (Hset _ _ (default Leaving b) Et (enter_rank _ _ _ _ _ _ Hf Ee)). lia.
  - destruct (tasks c !! t) as [[|k b h cred args| | | | |]|] eqn:Et; try done. destruct (execute k b h cred args e st.2) as [a s1] eqn:Ee. intros [= <- <-]. left.
    cbn [setTask tasks reader input]. assert (Ha : (rank a < 6)%nat); [|specialize (Hset _ _ a Et Ha); lia].
    unfold execute in Ee. destruct (Call h e (kProc k) cred args st.2). destruct b; injection Ee as <- _; cbn; lia.
  - destruct (tasks c !! t) as [[| |k reply| | | |]|] eqn:Et; try done. intros [= <- <-]. left. cbn [setTask tasks reader input].
    specialize (Hset _ _ (Waiting reply) Et ltac:(cbn; lia)). lia.
  - destruct (tasks c !! t) as [[| | |reply| | |]|] eqn:Et; try done. destruct (writeMu c); [done|]. intros [= <- <-]. left. cbn [lock tasks reader input].
    specialize (Hset _ _ (Sending (writeRecord reply)) Et ltac:(cbn; lia)). lia.
  - destruct (tasks c !! t) as [[| | | |unsent| |]|] eqn:Et; try done. destruct (broken c); [done|]. destruct (Nat.eqb_spec n 0); [done|].
    destruct (window c <? n)%nat; [done|]. destruct (Nat.ltb_spec (length unsent) n); [done|]. intros [= <- <-]. right. cbn [push tasks reader input].
    destruct (Hsend t unsent (drop n unsent) Et) as [H1 H2]; [rewrite length_drop; lia|]. lia.
  - destruct (tasks c !! t) as [[| | | |[|x l]| |]|] eqn:Et; try done. intros [= <- <-]. right. cbn [push tasks reader input].
    destruct (Hsend t (x :: l) [] Et) as [H1 H2]; [cbn; lia|]. lia.
  - destruct (tasks c !! t) as [[| | | |[|]| |]|] eqn:Et; try done. intros [= <- <-]. left. cbn [unlock tasks reader input].
    specialize (Hset _ _ Leaving Et ltac:(cbn; lia)). lia.
  - destruct (tasks c !! t) as [[| | | | | |]|] eqn:Et; try done. intros [= <- <-]. left. cbn [releaseSem tasks reader input].
    specialize (Hset _ _ Ending Et ltac:(cbn; lia)). lia.
  - destruct (tasks c !! t) as [[| | | | | |]|] eqn:Et; try done. intros [= <- <-]. left. cbn [endTask tasks reader input].
    rewrite (total_at rank _ _ _ Et). cbn [rank]. lia.
Qed.

(** Nothing of a connection can go on by itself: a write that is not on a broken
    connection fails only by what its client does. *)
Definition still (ctx : bool) (c : conn S E) (st : replyCache * S) : Prop :=
  forall ev, match ev with TFail _ _ => broken c = true | _ => True end -> connStep srv ctx ev c st = None.

(** It waits for its client to send, all that has come in full being served and
    answered. *)
Definition idle (c : conn S E) : Prop :=
  reader c = Reading /\ tasks c = ∅ /\ broken c = false /\ ended c = false /\
  output c = wire (replies c) /\ streamed (stream c) (served c) (input c) /\
  (readRecord (input c) = Some (Err EOF) \/ readRecord (input c) = Some (Err UnexpectedEOF)).

(** It waits for its client to take a reply, all its goroutines being done but
    for writing theirs. *)
Definition stalled (c : conn S E) : Prop :=
  broken c = false /\ window c = 0%nat /\ (exists t b, tasks c !! t = Some (Sending b) /\ b ≠ []) /\
  forall t a, tasks c !! t = Some a -> isSending a = true \/ exists reply, a = Waiting reply.

Lemma still_task (e0 : E) ctx c st t a : still ctx c st -> tasks c !! t = Some a ->
  (exists reply, a = Waiting reply /\ writeMu c = true) \/ (exists b, a = Sending b /\ b ≠ [] /\ broken c = false /\ window c = 0%nat).
Proof.
  intros Hst Ht. destruct a as [rec|k b h cred args|k reply|reply|b| |].
  - specialize (Hst (TBegin t 0) I). cbn [connStep] in Hst. rewrite Ht in Hst. by destruct (enter _ _ _ _ _).
  - specialize (Hst (TCall t e0) I). cbn [connStep] in Hst. rewrite Ht in Hst. by destruct (execute _ _ _ _ _ _ _).
  - specialize (Hst (TFinish t 0) I). cbn [connStep] in Hst. by rewrite Ht in Hst.
  - left. exists reply. split; [done|]. specialize (Hst (TLock t) I). cbn [connStep] in Hst. rewrite Ht in Hst. by destruct (writeMu c).
  - right. exists b. destruct b as [|x l]; [specialize (Hst (TUnlock t) I); cbn [connStep] in Hst; by rewrite Ht in Hst|]. assert (Hbr : broken c = false).
    { destruct (broken c) eqn:Eb; [|done]. specialize (Hst (TFail t 0) Eb). cbn [connStep] in Hst. by rewrite Ht in Hst. }
    split_and!; [done..|]. specialize (Hst (TPush t 1) I). cbn [connStep] in Hst. rewrite Ht, Hbr in Hst. by destruct (window c).
  - specialize (Hst (TRelease t) I). cbn [connStep] in Hst. by rewrite Ht in Hst.
  - specialize (Hst (TDone t) I). cbn [connStep] in Hst. by rewrite Ht in Hst.
Qed.

Lemma still_stalled (e0 : E) ctx c st : connOK c -> still ctx c st -> tasks c ≠ ∅ -> stalled c.
Proof.
  intros Hok Hst Hne. assert (Hs : exists t b, tasks c !! t = Some (Sending b)).
  { apply map_choose in Hne as (t&a&Ht). destruct (still_task e0 _ _ _ _ _ Hst Ht) as [(r&->&Hm)|(b&->&_)]; [|eauto].
    destruct (ct_held c (ck_counted c Hok) Hm) as (j&[]&Hj&?); try done. eauto. }
  destruct Hs as (t&b&Ht). destruct (still_task e0 _ _ _ _ _ Hst Ht) as [(r&?&_)|(b'&[= <-]&Hb&Hbr&Hw)]; [done|]. split_and!; [done|done|eauto|].
  intros j a Hj. destruct (still_task e0 _ _ _ _ _ Hst Hj) as [(r&->&_)|(b'&->&_)]; [right; eauto|by left].
Qed.

Lemma still_rest (e0 : E) ctx c st : connOK c -> still ctx c st -> reader c = Closed \/ idle c \/ stalled c.
Proof.
  intros Hok Hst. destruct (decide (tasks c = ∅)) as [He|He]; [|right; right; by eapply still_stalled]. destruct Hok as [[A1 A2 _ _ A5 _ _] HB (tl&Ho&Hw)].
  rewrite He in A1, A2. change (total held ∅) with 0%nat in A1. rewrite map_size_empty in A2.
  assert (Hmu : writeMu c = false) by (destruct (writeMu c); [destruct (A5 eq_refl) as (t&a&Ht&_); by rewrite He, lookup_empty in Ht|done]).
  destruct (reader c) as [|rec| |] eqn:Er; [| | |by left].
  - right. left. specialize (Hst RRead I). cbn [connStep] in Hst. rewrite Er in Hst. unfold readStep in Hst. destruct (broken c) eqn:Eb; [done|].
    destruct (Hw eq_refl) as [Htl _]. rewrite (Htl Hmu), app_nil_r in Ho. pose proof (pl_stream c HB) as Hs. rewrite Er in Hs.
    destruct (record_bounded (input c)) as (x&Hx&_). rewrite Hx in Hst. destruct x as [[]|[]]; [done|destruct (ended c) eqn:Ed; [done|]..|done];
      split_and!; auto.
  - specialize (Hst RAcquire I). cbn [connStep] in Hst. by rewrite Er, A1 in Hst.
  - specialize (Hst RClose I). cbn [connStep] in Hst. by rewrite Er, A2 in Hst.
Qed.

Definition sumOf (f : conn S E -> nat) (s : server S E) : nat := sum_list (map f (conns s)).

Lemma sumOf_at f s i c : conns s !! i = Some c -> exists r, sumOf f s = (f c + r)%nat /\
  forall c' sh d, sumOf f (mkState (<[i := c']> (conns s)) sh d) = (f c' + r)%nat.
Proof.
  intros Hi. exists (sum_list (map f (take i (conns s) ++ drop (Datatypes.S i) (conns s)))).
  assert (Hp : forall l1 l2 x, sum_list (map f (l1 ++ x :: l2)) = (f x + sum_list (map f (l1 ++ l2)))%nat).
  { intros l1 l2 x. induction l1 as [|y l1 IH]; cbn; [done|]. rewrite IH. lia. }
  unfold sumOf. split.
  - rewrite <- (take_drop_middle (conns s) i c Hi) at 1. apply Hp.
  - intros c' sh d. cbn. rewrite insert_take_drop by (by eapply lookup_lt_Some). apply Hp.
Qed.

(** One step of a connection, with the state well formed before it. *)
Definition goesOn (s' s : server S E) : Prop := serverOK s /\ exists i ev, step srv (EConn i ev) s = Some s'.

Lemma goesOn_less s' s : goesOn s' s ->
  (sumOf todo s' < sumOf todo s \/ (sumOf todo s' = sumOf todo s /\ sumOf unsentAll s' < sumOf unsentAll s))%nat.
Proof.
  intros [Hok (i&ev&Hs)]. cbn [step] in Hs. destruct (conns s !! i) as [c|] eqn:Ei; [|done].
  destruct (connStep srv (ctxDone s) ev c (shared s)) as [[c' sh]|] eqn:Es; [|done]. injection Hs as <-.
  destruct (so_conn s Hok _ _ Ei) as [Hc _]. pose proof (connStep_less _ _ _ _ _ _ Hc (so_cache s Hok) Es) as Hl.
  destruct (sumOf_at todo s i c Ei) as (r&H1&H2), (sumOf_at unsentAll s i c Ei) as (r'&H1'&H2'). rewrite H1, H2, H1', H2'. lia.
Qed.

(** C38 The server waits for nothing but its clients: from any state it gets to,
    its own steps end, however they interleave, unless a client does something
    more; and when none of them is left to take, every connection is closed, or
    is idle, with everything that came in full served and answered and only its
    client's bytes or the end of its stream missing, or is stalled on a reply
    its client does not take. No goroutine, token or mutex is waited for in
    vain. *)
Theorem server_settles (e0 : E) n (s0 : S) s : reached srv n s0 s ->
  Acc goesOn s /\
  (Forall (fun c => still (ctxDone s) c (shared s)) (conns s) -> Forall (fun c => reader c = Closed \/ idle c \/ stalled c) (conns s)).
Proof.
  intros Hr%reached_ok. split.
  - apply (lex_wf goesOn (sumOf todo) (sumOf unsentAll)). apply goesOn_less.
  - intros Hstuck. apply list.Forall_forall. intros c Hin. apply list.Forall_forall with (x := c) in Hstuck; [|done].
    apply list_elem_of_lookup in Hin as [i Hi]. destruct (so_conn s Hr _ _ Hi) as [Hc _]. by eapply still_rest.
Qed.

End Server.

(** ** The accept loop *)

(** Serve returns nil exactly when its context is done: it returns nil only
    when it finds it done after a failed Accept or during a wait, and another
    error only when Accept gave that error, not a temporary one, with the
    context not done. As long as neither comes it goes on, has started a
    connection for every Accept that succeeded, and has waited after every
    failed one, between 5 ms and 1 s. *)
Theorem serve_returns wait turns (r := Serve wait turns) :
  (svReturn r = Some None -> exists t, t ∈ turns /\ (tnDone t = true \/ tnDoneInWait t = true)) /\
  (forall m, svReturn r = Some (Some m) -> exists t, t ∈ turns /\ tnOut t = Permanent m /\ tnDone t = false) /\
  (Forall (fun t => tnDone t = false /\ tnDoneInWait t = false /\ forall m, tnOut t ≠ Permanent m) turns ->
    svReturn r = None /\ svConns r = omap (fun t => match tnOut t with Accepted p => Some p | _ => None end) turns /\
    (length (svConns r) + length (svWaits r))%nat = length turns) /\
  Forall (fun w => 5 * 10 ^ 6 <= w <= 10 ^ 9) (svWaits r).
Proof.
  subst r. revert wait. induction turns as [|[[b| |m0] d dw] turns IH]; intros wait; cbn [Serve tnOut tnDone tnDoneInWait].
  { split_and!; [done..|constructor]. }
  - destruct (IH 0) as (H1&H2&H3&H4). cbn [svReturn svConns svWaits]. split_and!; [| | |done].
    + intros H. destruct (H1 H) as (t&?&?). exists t. split; [by right|done].
    + intros m H. destruct (H2 m H) as (t&?&?). exists t. split; [by right|done].
    + intros [_ Hf]%list.Forall_cons. destruct (H3 Hf) as (?&Hc&Hl). split_and!; [done|cbn; by rewrite Hc|cbn [length]; lia].
  - destruct d; [|destruct dw]; cbn [svReturn svConns svWaits].
    + split_and!; [intros _; eexists; split; [left; reflexivity|cbn; auto]|done| |constructor]. by intros [[? _] _]%list.Forall_cons.
    + split_and!; [intros _; eexists; split; [left; reflexivity|cbn; auto]|done| |]; [by intros [(_&?&_) _]%list.Forall_cons|].
      constructor; [apply acceptDelay_range|constructor].
    + destruct (IH (acceptDelay wait)) as (H1&H2&H3&H4). split_and!.
      * intros H. destruct (H1 H) as (t&?&?). exists t. split; [by right|done].
      * intros m H. destruct (H2 m H) as (t&?&?). exists t. split; [by right|done].
      * intros [_ Hf]%list.Forall_cons. destruct (H3 Hf) as (?&Hc&Hl). split_and!; [done|cbn; by rewrite Hc|cbn [length]; lia].
      * constructor; [apply acceptDelay_range|done].
  - destruct d; cbn [svReturn svConns svWaits].
    + split_and!; [intros _; eexists; split; [left; reflexivity|cbn; auto]|done| |constructor]. by intros [[? _] _]%list.Forall_cons.
    + split_and!; [done| | |constructor].
      * intros m [= ->]. eexists. split; [left; reflexivity|done].
      * intros [(_&_&Hm) _]%list.Forall_cons. by destruct (Hm m0).
Qed.

(** ** A server that counts *)

Section Runs.
Context {S E : Type} (srv : Server S E).

(** A run with at most [n] connections open at a time. *)
Fixpoint runs (n : nat) (evs : list (event E)) (s : server S E) : option (server S E) :=
  match evs with
  | [] => Some s
  | ev :: evs =>
      match step srv ev s with
      | Some s' => if (liveConns s' <=? n)%nat then runs n evs s' else None
      | None => None
      end
  end.

Definition ran (n : nat) (evs : list (event E)) (s : server S E) : bool := match runs n evs s with Some _ => true | None => false end.

Lemma runs_reached n (s0 : S) evs s s' : reached srv n s0 s -> runs n evs s = Some s' -> reached srv n s0 s'.
Proof.
  revert s. induction evs as [|ev evs IH]; intros s Hr; cbn [runs]; [by intros [= <-]|]. destruct (step srv ev s) as [s1|] eqn:Es; [|done].
  destruct (Nat.leb_spec (liveConns s1) n); [|done]. apply IH. by econstructor.
Qed.

Lemma ran_reached n (s0 : S) evs : ran n evs (start s0) = true -> reached srv n s0 (default (start s0) (runs n evs (start s0))).
Proof.
  unfold ran. destruct (runs n evs (start s0)) as [s'|] eqn:Er; [|done]. intros _. eapply runs_reached; [constructor|exact Er].
Qed.

End Runs.

(** Its one procedure counts the calls and answers nothing; it must not run
    twice. *)
Definition counter : Handler Z unit := mkHandler (fun _ _ _ _ n => (CallOk [], n + 1)) (fun _ => true) (fun _ => false).

Definition counting : Server Z unit := Register 7 1 counter NewServer.

Definition aCall : bytes := writeRecord (callRecord 5 7 1 1 0 (mkCred 0 0 [] "m") []).

(** A client sends a call and, half of it with the call and half of it later,
    sends it again; the copy arrives while the call is under way, and the reply
    is being written. *)
Definition sentTwice : list (event unit) :=
  [EAccept; EClient 0 (Send (aCall ++ take 20 aCall))] ++ map (EConn 0) [RRead; RAcquire] ++
  [EClient 0 (Send (drop 20 aCall))] ++ map (EConn 0) [RRead; RAcquire; TBegin 0 1; TBegin 1 2; TCall 0 tt].

Definition midway : server Z unit := default (start 0) (runs counting 64 sentTwice (start 0)).

(** The client takes the reply in two pieces; both goroutines are over and it
    sends no more. *)
Definition answeredRun : list (event unit) :=
  sentTwice ++ map (EConn 0) [TFinish 0 3; TLock 0] ++ [EClient 0 (Take 3)] ++ map (EConn 0) [TPush 0 3; TRelease 1] ++
  [EClient 0 (Take 25)] ++ map (EConn 0) [TPush 0 25; TUnlock 0; TDone 1; TRelease 0; TDone 0].

Definition answered : server Z unit := default (start 0) (runs counting 64 answeredRun (start 0)).

(** It ends its stream. *)
Definition atEnd : server Z unit := default (start 0)
  (runs counting 64 (answeredRun ++ [EClient 0 HangUp; EConn 0 RRead; EConn 0 RClose]) (start 0)).

(** It is counted once and answered once. *)
Example counted_once :
  (shared atEnd).2 = 1 /\ map (fun c => bool_decide (reader c = Closed)) (conns atEnd) = [true] /\
  map (fun c => blen (output c)) (conns atEnd) = [28].
Proof. vm_compute. auto. Qed.

Lemma executed_once_witness : length (executing midway) = 1%nat /\ NoDup (executing midway).
Proof.
  split; [vm_compute; reflexivity|]. apply (executed_once counting 0 midway). apply ran_reached. vm_compute. reflexivity.
Defined.

Definition firstConn (s : server Z unit) : conn Z unit := default (serveConn 0) (conns s !! 0%nat).

Lemma firstConn_at s : (0 <? length (conns s))%nat = true -> conns s !! 0%nat = Some (firstConn s).
Proof. unfold firstConn. destruct (conns s); [done|]. done. Qed.

Lemma goroutines_bounded_witness : size (tasks (firstConn midway)) = 2%nat /\ sem (firstConn midway) = total held (tasks (firstConn midway)).
Proof.
  split; [vm_compute; reflexivity|]. apply (goroutines_bounded counting 64 0 midway 0 (firstConn midway)).
  - apply ran_reached. vm_compute. reflexivity.
  - apply firstConn_at. vm_compute. reflexivity.
Defined.

Lemma replies_whole_witness : length (replies (firstConn atEnd)) = 1%nat /\ NoDup (map fst (replies (firstConn atEnd))).
Proof.
  split; [vm_compute; reflexivity|]. apply (replies_whole counting 64 0 atEnd 0 (firstConn atEnd)).
  - apply ran_reached. vm_compute. reflexivity.
  - apply firstConn_at. vm_compute. reflexivity.
Defined.

Lemma still_idle ctx c st : reader c = Reading -> tasks c = ∅ -> readStep c = None -> still counting ctx c st.
Proof.
  intros Hr Ht Hs ev _. destruct ev; cbn [connStep]; rewrite ?Hr, ?Ht, ?lookup_empty; try done. by rewrite Hs.
Qed.

Lemma firstConn_all (P : conn Z unit -> Prop) s : length (conns s) = 1%nat -> P (firstConn s) -> Forall P (conns s).
Proof. unfold firstConn. destruct (conns s) as [|c [|]]; [done| |done]. cbn. intros _ H. by constructor. Qed.

Lemma server_settles_witness :
  Acc (goesOn counting) answered /\ Forall (fun c => reader c = Closed \/ idle c \/ stalled c) (conns answered).
Proof.
  assert (Hr : reached counting 64 0 answered) by (apply ran_reached; vm_compute; reflexivity).
  split; [apply (server_settles counting tt 64 0 answered Hr)|]. apply (server_settles counting tt 64 0 answered Hr).
  apply firstConn_all; [vm_compute; reflexivity|]. apply still_idle; vm_compute; reflexivity.
Defined.

Lemma serve_returns_witness :
  svWaits (Serve 0 [mkTurn Temporary false false; mkTurn Temporary false false; mkTurn (Accepted "client") false false; mkTurn Temporary false true]) =
    [5000000; 10000000; 5000000] /\
  exists t, t ∈ [mkTurn Temporary false true] /\ (tnDone t = true \/ tnDoneInWait t = true).
Proof. split; [vm_compute; reflexivity|]. apply (serve_returns 0 [mkTurn Temporary false true]). vm_compute. reflexivity. Defined.
