(* ===== verification/NfsWire.v ===== *)
(** * The NFSv3 wire types (internal/nfs/wire.go) and the filesystem they serve

    The encoders of the reply types give the bytes they append; the decoders of
    the argument types are reads of [Xdr]. A decoder that fails gives [None]:
    every caller answers any of its errors alike. Times are nanoseconds since
    1970, as [UnixNano] gives them. [VfsFS] is the interface [vfs.FS] the
    procedures call. *)

From Stdlib Require Import Strings.Byte.
From S2P Require Import Prelude Vfs Inode Xdr.

(** ** Programs and procedures *)

Definition ProgramNFS : Z := 100003.
Definition VersionNFS : Z := 3.
Definition ProgramMount : Z := 100005.
Definition VersionMount : Z := 3.

Definition procNull : Z := 0.
Definition procGetAttr : Z := 1.
Definition procSetAttr : Z := 2.
Definition procLookup : Z := 3.
Definition procAccess : Z := 4.
Definition procReadlink : Z := 5.
Definition procRead : Z := 6.
Definition procWrite : Z := 7.
Definition procCreate : Z := 8.
Definition procMkdir : Z := 9.
Definition procSymlink : Z := 10.
Definition procMknod : Z := 11.
Definition procRemove : Z := 12.
Definition procRmdir : Z := 13.
Definition procRename : Z := 14.
Definition procLink : Z := 15.
Definition procReaddir : Z := 16.
Definition procReaddirPlus : Z := 17.
Definition procFSStat : Z := 18.
Definition procFSInfo : Z := 19.
Definition procPathconf : Z := 20.
Definition procCommit : Z := 21.
Definition procCount : Z := 22.

Definition maxHandleLen : Z := 64.

(** [statusOf]: the status in an error's chain, or NFS3ERR_IO. *)
Definition statusOf (err : option error) : Status :=
  match err with
  | None => OK
  | Some e => match errAsStatus e with Some s => s | None => ErrIO end
  end.

(** ** Encoders *)

Definition putStatus (s : Status) : bytes := Writer.Uint32 (status_code s).

(** The [UnixNano] of Go's zero time, were it in range. *)
Definition zeroTime : Z := -62135596800 * 10 ^ 9.

Definition putTime (t : Z) : bytes :=
  if t =? zeroTime then Writer.Uint32 0 ++ Writer.Uint32 0
  else Writer.Uint32 (u32 (t / 10 ^ 9)) ++ Writer.Uint32 (t mod 10 ^ 9).

Definition putFattr (a : Attr) : bytes :=
  Writer.Uint32 (ftype_code (aType a)) ++ Writer.Uint32 (aMode a) ++ Writer.Uint32 (aNLink a) ++
  Writer.Uint32 (aUID a) ++ Writer.Uint32 (aGID a) ++ Writer.Uint64 (aSize a) ++ Writer.Uint64 (aUsed a) ++
  Writer.Uint32 (aRDev a).1 ++ Writer.Uint32 (aRDev a).2 ++ Writer.Uint64 (aFSID a) ++ Writer.Uint64 (aFileID a) ++
  putTime (aATime a) ++ putTime (aMTime a) ++ putTime (aCTime a).

Definition putPostOpAttr (a : option Attr) : bytes :=
  match a with None => Writer.Bool false | Some a => Writer.Bool true ++ putFattr a end.

(** [None] is the wccAttr that is not valid. *)
Record wccAttr := mkWcc { wccSize : Z; wccMTime : Z; wccCTime : Z }.

Definition wccFrom (a : option Attr) : option wccAttr :=
  match a with None => None | Some a => Some (mkWcc (aSize a) (aMTime a) (aCTime a)) end.

Definition putWccData (before : option wccAttr) (after : option Attr) : bytes :=
  match before with
  | Some b => Writer.Bool true ++ Writer.Uint64 (wccSize b) ++ putTime (wccMTime b) ++ putTime (wccCTime b)
  | None => Writer.Bool false
  end ++ putPostOpAttr after.

Definition putHandle (h : Handle) : bytes := Writer.Opaque h.

Definition putPostOpHandle (h : option Handle) : bytes :=
  match h with None => Writer.Bool false | Some h => Writer.Bool true ++ putHandle h end.

(** ** Decoders *)

Definition obind {A B} (m : rd (option A)) (k : A -> rd (option B)) : rd (option B) :=
  let^ o := m in match o with None => rret None | Some a => k a end.

Notation "'let^?' x := m 'in' k" := (obind m (fun x => k))
  (at level 10, x pattern, m at level 100, k at level 200) : strata_scope.

(** [if r.Err() != nil] at the end of a decode. *)
Definition checked {A} (a : A) : rd (option A) :=
  let^ e := errOf in rret (match e with None => Some a | Some _ => None end).

Definition getHandle : rd (option Handle) :=
  let^ h := Reader.Opaque in
  let^? h := checked h in
  rret (if maxHandleLen <? blen h then None else Some h).

Definition getDirOpArgs : rd (option (Handle * string)) :=
  let^? h := getHandle in
  let^ name := Reader.String in
  checked (h, name).

Definition setToServerTime : Z := 1.
Definition setToClientTime : Z := 2.

Definition getTime : rd Z :=
  let^ sec := Reader.Uint32 in
  let^ nsec := Reader.Uint32 in
  rret (sec * 10 ^ 9 + nsec).

(** An optional field of a sattr3. *)
Definition getOpt {A} (p : rd A) : rd (option A) :=
  let^ b := Reader.Bool in
  if b then let^ v := p in rret (Some v) else rret None.

(** A time of a sattr3, with the server's clock at [now]. *)
Definition getTimeHow (now : Z) : rd (option Z) :=
  let^ how := Reader.Uint32 in
  if how =? setToServerTime then rret (Some now)
  else if how =? setToClientTime then let^ t := getTime in rret (Some t)
  else rret None.

(** [now1] and [now2] are the clock when the access and the modification time
    are decoded. *)
Definition getSattr (now1 now2 : Z) : rd (option SetAttr) :=
  let^ mode := getOpt Reader.Uint32 in
  let^ uid := getOpt Reader.Uint32 in
  let^ gid := getOpt Reader.Uint32 in
  let^ size := getOpt Reader.Uint64 in
  let^ atime := getTimeHow now1 in
  let^ mtime := getTimeHow now2 in
  checked (mkSetAttr mode uid gid size atime mtime).

(** ** The interface the procedures are written against *)

(** A computation on the filesystem's state; [E] is the clock and chance a call
    meets. *)
Definition prog (S A : Type) : Type := S -> A * S.

Definition pret {S A} (a : A) : prog S A := fun s => (a, s).
Definition pbind {S A B} (m : prog S A) (k : A -> prog S B) : prog S B := fun s => let (a, s) := m s in k a s.

Notation "'let@' x := m 'in' k" := (pbind m (fun x => k))
  (at level 10, x pattern, m at level 100, k at level 200) : strata_scope.

Class VfsFS (S E : Type) := {
  vRoot : S -> Handle;
  vMaxFileSize : S -> Z;
  vGetAttr : Handle -> prog S (result Attr);
  vSetAttr : E -> Caller -> Handle -> SetAttr -> prog S (result Attr);
  vLookup : Caller -> Handle -> string -> prog S (result (Handle * Attr));
  vAccess : Caller -> Handle -> Z -> prog S (result Z);
  vRead : Caller -> Handle -> Z -> Z -> prog S (result (bytes * bool));
  vWrite : E -> Caller -> Handle -> Z -> bytes -> Stability -> prog S (result (Z * Stability));
  vCommit : E -> Handle -> Z -> Z -> prog S (result unit);
  vCreate : E -> Caller -> Handle -> string -> SetAttr -> bool -> prog S (result (Handle * Attr));
  vMkdir : E -> Caller -> Handle -> string -> SetAttr -> prog S (result (Handle * Attr));
  vSymlink : E -> Caller -> Handle -> string -> string -> SetAttr -> prog S (result (Handle * Attr));
  vReadLink : Handle -> prog S (result string);
  vRemove : E -> Caller -> Handle -> string -> prog S (result unit);
  vRmdir : E -> Caller -> Handle -> string -> prog S (result unit);
  vRename : E -> Caller -> Handle -> string -> Handle -> string -> prog S (result unit);
  vReadDir : Caller -> Handle -> Z -> bytes -> Z -> bool -> prog S (result (list DirEntry * bool * bytes));
  vFSStat : Handle -> prog S (result Stat)
}.
