(* ===== verification/Nfs3.v ===== *)
(** * The NFSv3 procedures (internal/nfs/nfs3.go)

    Each procedure decodes its arguments, calls the filesystem and encodes its
    reply; [None] is the error sunrpc.ErrGarbageArgs, before which nothing was
    written to the reply. The write verifier is a parameter, [verf]. *)

From Stdlib Require Import Strings.Byte.
From S2P Require Import Prelude Vfs Inode Xdr ReplyCache Rpc NfsWire.

Definition maxReadSize : Z := Z.shiftl 1 20.
Definition maxWriteSize : Z := Z.shiftl 1 20.
Definition dirPrefSize : Z := Z.shiftl 64 10.

Definition createUnchecked : Z := 0.
Definition createGuarded : Z := 1.
Definition createExclusive : Z := 2.

Definition fsfSymlink : Z := 0x0002.
Definition fsfHomogeneous : Z := 0x0008.
Definition fsfCanSetTime : Z := 0x0010.

Definition callerFrom (c : Cred) : Caller := mkCaller (crUID c) (crGID c) (crGIDs c).

(** [vfs.Stability(v)]: Write tests for the two stable values and takes any
    other for UNSTABLE. *)
Definition stability_of (v : Z) : Stability :=
  if v =? 1 then DataSync else if v =? 2 then FileSync else Unstable.

Definition stability_code (s : Stability) : Z := match s with Unstable => 0 | DataSync => 1 | FileSync => 2 end.

Definition nfsIdempotent (proc : Z) : bool :=
  bool_decide (proc ∈ [procNull; procGetAttr; procLookup; procAccess; procReadlink; procRead; procWrite; procReaddir;
    procReaddirPlus; procFSStat; procFSInfo; procPathconf; procCommit]).

(** What a call of the server meets besides its state: the clock while the
    arguments are decoded, and what the filesystem meets. *)
Record nfsEnv (E : Type) := mkNfsEnv { neNow1 : Z; neNow2 : Z; neFS : E }.
Arguments mkNfsEnv {E}.
Arguments neNow1 {E}.
Arguments neNow2 {E}.
Arguments neFS {E}.

Section Procedures.
Context {S E : Type} {V : VfsFS S E} (verf : bytes).

Abbreviation proc := (Reader -> prog S (option bytes)).

(** Decode with [p], answer garbage if it fails, go on with the arguments. *)
Definition decoding {A} (p : rd (option A)) (k : A -> prog S (option bytes)) : proc := fun r =>
  match (p r).1 with None => pret None | Some a => k a end.

Definition reply (b : bytes) : prog S (option bytes) := pret (Some b).

(** A nil handle has no attributes; the decoded handles are never nil but when
    empty, which [vGetAttr] refuses too. *)
Definition attrOf (h : Handle) : prog S (option Attr) :=
  let@ a := vGetAttr h in pret (match a with Ok a => Some a | Err _ => None end).

Definition getattr : proc := decoding getHandle (fun h =>
  let@ a := vGetAttr h in
  match a with
  | Err e => reply (putStatus (statusOf (Some e)))
  | Ok a => reply (putStatus OK ++ putFattr a)
  end).

(** The arguments of SETATTR: the guard's time if there is a guard, and whether
    the reader failed by the end. *)
Definition getSetAttrArgs (now1 now2 : Z) : rd (option (Handle * SetAttr * option Z * bool)) :=
  let^? h := getHandle in
  let^? sa := getSattr now1 now2 in
  let^ guard := getOpt getTime in
  let^ e := errOf in
  rret (Some (h, sa, guard, negb (bool_decide (e = None)))).

Definition setattr (e : nfsEnv E) (c : Caller) : proc :=
  decoding (getSetAttrArgs (neNow1 e) (neNow2 e)) (fun '(h, sa, guard, failed) =>
  let@ stale :=
    match guard with
    | None => pret None
    | Some t =>
        let@ cur := vGetAttr h in
        pret (match cur with Ok cur => if aCTime cur =? t then None else Some cur | Err _ => None end)
    end in
  match stale with
  | Some cur => reply (putStatus ErrNotSync ++ putWccData (wccFrom (Some cur)) (Some cur))
  | None =>
      if failed then pret None
      else
        let@ b := attrOf h in
        let@ a := vSetAttr (neFS e) c h sa in
        match a with
        | Err er => let@ after := attrOf h in reply (putStatus (statusOf (Some er)) ++ putWccData (wccFrom b) after)
        | Ok a => reply (putStatus OK ++ putWccData (wccFrom b) (Some a))
        end
  end).

Definition lookup (c : Caller) : proc := decoding getDirOpArgs (fun '(dir, name) =>
  let@ found := vLookup c dir name in
  match found with
  | Err e => let@ d := attrOf dir in reply (putStatus (statusOf (Some e)) ++ putPostOpAttr d)
  | Ok (h, a) => let@ d := attrOf dir in reply (putStatus OK ++ putHandle h ++ putPostOpAttr (Some a) ++ putPostOpAttr d)
  end).

Definition getAccessArgs : rd (option (Handle * Z)) :=
  let^? h := getHandle in
  let^ want := Reader.Uint32 in
  checked (h, want).

Definition access (c : Caller) : proc := decoding getAccessArgs (fun '(h, want) =>
  let@ granted := vAccess c h want in
  match granted with
  | Err e => reply (putStatus (statusOf (Some e)) ++ putPostOpAttr None)
  | Ok granted => let@ a := attrOf h in reply (putStatus OK ++ putPostOpAttr a ++ Writer.Uint32 granted)
  end).

Definition readlink : proc := decoding getHandle (fun h =>
  let@ target := vReadLink h in
  match target with
  | Err e => let@ a := attrOf h in reply (putStatus (statusOf (Some e)) ++ putPostOpAttr a)
  | Ok target => let@ a := attrOf h in reply (putStatus OK ++ putPostOpAttr a ++ Writer.String target)
  end).

(** The arguments READ and COMMIT begin with. *)
Definition getRangeArgs : rd (option (Handle * Z * Z)) :=
  let^? h := getHandle in
  let^ off := Reader.Uint64 in
  let^ count := Reader.Uint32 in
  checked (h, off, count).

Definition read (c : Caller) : proc := decoding getRangeArgs (fun '(h, off, count) =>
  let count := if maxReadSize <? count then maxReadSize else count in
  let@ got := vRead c h off count in
  match got with
  | Err e => let@ a := attrOf h in reply (putStatus (statusOf (Some e)) ++ putPostOpAttr a)
  | Ok (data, eof) =>
      let@ a := attrOf h in
      reply (putStatus OK ++ putPostOpAttr a ++ Writer.Uint32 (u32 (blen data)) ++ Writer.Bool eof ++ Writer.Opaque data)
  end).

Definition getWriteArgs : rd (option (Handle * Z * Z * Stability * bytes)) :=
  let^? h := getHandle in
  let^ off := Reader.Uint64 in
  let^ count := Reader.Uint32 in
  let^ how := Reader.Uint32 in
  let^ data := Reader.Opaque in
  checked (h, off, count, stability_of how, data).

Definition write (e : nfsEnv E) (c : Caller) : proc := decoding getWriteArgs (fun '(h, off, count, how, data) =>
  let count := if u32 (blen data) <? count then u32 (blen data) else count in
  let count := if maxWriteSize <? count then maxWriteSize else count in
  let data := btake count data in
  let@ b := attrOf h in
  let@ res := vWrite (neFS e) c h off data how in
  match res with
  | Err er => let@ a := attrOf h in reply (putStatus (statusOf (Some er)) ++ putWccData (wccFrom b) a)
  | Ok (n, committed) =>
      let@ a := attrOf h in
      reply (putStatus OK ++ putWccData (wccFrom b) a ++ Writer.Uint32 n ++ Writer.Uint32 (stability_code committed) ++ Writer.Fixed verf)
  end).

(** The reply of CREATE, MKDIR and SYMLINK. *)
Definition created (dir : Handle) (b : option Attr) (h : Handle) (a : Attr) : prog S (option bytes) :=
  let@ d := attrOf dir in
  reply (putStatus OK ++ putPostOpHandle (Some h) ++ putPostOpAttr (Some a) ++ putWccData (wccFrom b) d).

Definition notCreated (dir : Handle) (b : option Attr) (e : error) : prog S (option bytes) :=
  let@ d := attrOf dir in reply (putStatus (statusOf (Some e)) ++ putWccData (wccFrom b) d).

Definition getCreateArgs (now1 now2 : Z) : rd (option (Handle * string * Z * SetAttr)) :=
  let^? (dir, name) := getDirOpArgs in
  let^ mode := Reader.Uint32 in
  if (mode =? createUnchecked) || (mode =? createGuarded) then
    let^? sa := getSattr now1 now2 in checked (dir, name, mode, sa)
  else if mode =? createExclusive then
    let^ _ := Reader.Fixed 8 in checked (dir, name, mode, noSetAttr)
  else rret None.

Definition create (e : nfsEnv E) (c : Caller) : proc :=
  decoding (getCreateArgs (neNow1 e) (neNow2 e)) (fun '(dir, name, mode, sa) =>
  let@ b := attrOf dir in
  let@ made := vCreate (neFS e) c dir name sa (negb (mode =? createUnchecked)) in
  match made with
  | Err er => notCreated dir b er
  | Ok (h, a) =>
      match (if mode =? createUnchecked then saSize sa else None) with
      | None => created dir b h a
      | Some size =>
          let@ na := vSetAttr (neFS e) c h (mkSetAttr None None None (Some size) None None) in
          created dir b h (match na with Ok na => na | Err _ => a end)
      end
  end).

Definition getMkdirArgs (now1 now2 : Z) : rd (option (Handle * string * SetAttr)) :=
  let^? (dir, name) := getDirOpArgs in
  let^? sa := getSattr now1 now2 in
  rret (Some (dir, name, sa)).

Definition mkdir (e : nfsEnv E) (c : Caller) : proc :=
  decoding (getMkdirArgs (neNow1 e) (neNow2 e)) (fun '(dir, name, sa) =>
  let@ b := attrOf dir in
  let@ made := vMkdir (neFS e) c dir name sa in
  match made with Err er => notCreated dir b er | Ok (h, a) => created dir b h a end).

Definition getSymlinkArgs (now1 now2 : Z) : rd (option (Handle * string * SetAttr * string)) :=
  let^? (dir, name) := getDirOpArgs in
  let^? sa := getSattr now1 now2 in
  let^ target := Reader.String in
  checked (dir, name, sa, target).

Definition symlink (e : nfsEnv E) (c : Caller) : proc :=
  decoding (getSymlinkArgs (neNow1 e) (neNow2 e)) (fun '(dir, name, sa, target) =>
  let@ b := attrOf dir in
  let@ made := vSymlink (neFS e) c dir name target sa in
  match made with Err er => notCreated dir b er | Ok (h, a) => created dir b h a end).

Definition unsupportedCreate : proc := decoding getDirOpArgs (fun '(dir, _) =>
  let@ b := attrOf dir in
  let@ a := attrOf dir in
  reply (putStatus ErrNotSupp ++ putWccData (wccFrom b) a)).

Definition errorOf (r : result unit) : option error := match r with Ok _ => None | Err e => Some e end.

Definition remove (e : nfsEnv E) (c : Caller) (isDir : bool) : proc := decoding getDirOpArgs (fun '(dir, name) =>
  let@ b := attrOf dir in
  let@ res := (if isDir then vRmdir (neFS e) c dir name else vRemove (neFS e) c dir name) in
  let@ a := attrOf dir in
  reply (putStatus (statusOf (errorOf res)) ++ putWccData (wccFrom b) a)).

Definition getRenameArgs : rd (option (Handle * string * Handle * string)) :=
  let^? (fromDir, fromName) := getDirOpArgs in
  let^? (toDir, toName) := getDirOpArgs in
  rret (Some (fromDir, fromName, toDir, toName)).

Definition rename (e : nfsEnv E) (c : Caller) : proc := decoding getRenameArgs (fun '(fromDir, fromName, toDir, toName) =>
  let@ bf := attrOf fromDir in
  let@ bt := attrOf toDir in
  let@ res := vRename (neFS e) c fromDir fromName toDir toName in
  let@ af := attrOf fromDir in
  let@ at_ := attrOf toDir in
  reply (putStatus (statusOf (errorOf res)) ++ putWccData (wccFrom bf) af ++ putWccData (wccFrom bt) at_)).

Definition getLinkArgs : rd (option (Handle * Handle * string)) :=
  let^? h := getHandle in
  let^? (dir, name) := getDirOpArgs in
  rret (Some (h, dir, name)).

Definition link : proc := decoding getLinkArgs (fun '(h, dir, _) =>
  let@ a := attrOf h in
  let@ b := attrOf dir in
  let@ d := attrOf dir in
  reply (putStatus ErrNotSupp ++ putPostOpAttr a ++ putWccData (wccFrom b) d)).

(** [copy(verf[:], verfBytes)] into an array of eight zeros. *)
Definition toVerf (b : bytes) : bytes := copy_into (zeros 8) 0 8 b.

Definition getReaddirArgs (plus : bool) : rd (option (Handle * Z * bytes * Z)) :=
  let^? h := getHandle in
  let^ cookie := Reader.Uint64 in
  let^ vb := Reader.Fixed 8 in
  let^ _ := if plus then Reader.Uint32 else rret 0 in
  let^ max := Reader.Uint32 in
  checked (h, cookie, toVerf vb, max).

Definition putEntry (plus : bool) (e : DirEntry) : bytes :=
  Writer.Bool true ++ Writer.Uint64 (deFileID e) ++ Writer.String (deName e) ++ Writer.Uint64 (deCookie e) ++
  (if plus then putPostOpAttr (deAttr e) ++ putPostOpHandle (deHandle e) else []).

Definition readdir (c : Caller) (plus : bool) : proc := decoding (getReaddirArgs plus) (fun '(h, cookie, vf, max) =>
  let max := if maxReadSize <? max then maxReadSize else max in
  let@ got := vReadDir c h cookie vf max plus in
  match got with
  | Err e => let@ a := attrOf h in reply (putStatus (statusOf (Some e)) ++ putPostOpAttr a)
  | Ok (entries, eof, outVerf) =>
      let@ a := attrOf h in
      reply (putStatus OK ++ putPostOpAttr a ++ Writer.Fixed outVerf ++ concat (map (putEntry plus) entries) ++
             Writer.Bool false ++ Writer.Bool eof)
  end).

Definition fsstat : proc := decoding getHandle (fun h =>
  let@ st := vFSStat h in
  match st with
  | Err e => reply (putStatus (statusOf (Some e)) ++ putPostOpAttr None)
  | Ok st =>
      let@ a := attrOf h in
      reply (putStatus OK ++ putPostOpAttr a ++ Writer.Uint64 (stTotalBytes st) ++ Writer.Uint64 (stFreeBytes st) ++
             Writer.Uint64 (stAvailBytes st) ++ Writer.Uint64 (stTotalFiles st) ++ Writer.Uint64 (stFreeFiles st) ++
             Writer.Uint64 (stFreeFiles st) ++ Writer.Uint32 0)
  end).

Definition fsinfo : proc := decoding getHandle (fun h =>
  let@ a := attrOf h in
  let@ max := (fun s => (vMaxFileSize s, s)) in
  reply (putStatus OK ++ putPostOpAttr a ++
    Writer.Uint32 maxReadSize ++ Writer.Uint32 maxReadSize ++ Writer.Uint32 4096 ++
    Writer.Uint32 maxWriteSize ++ Writer.Uint32 maxWriteSize ++ Writer.Uint32 4096 ++
    Writer.Uint32 dirPrefSize ++ Writer.Uint64 max ++ Writer.Uint32 1 ++ Writer.Uint32 0 ++
    Writer.Uint32 (Z.lor (Z.lor fsfSymlink fsfHomogeneous) fsfCanSetTime))).

Definition pathconf : proc := decoding getHandle (fun h =>
  let@ a := attrOf h in
  reply (putStatus OK ++ putPostOpAttr a ++ Writer.Uint32 1 ++ Writer.Uint32 255 ++
    Writer.Bool true ++ Writer.Bool true ++ Writer.Bool false ++ Writer.Bool true)).

Definition commit (e : nfsEnv E) : proc := decoding getRangeArgs (fun '(h, off, count) =>
  let@ b := attrOf h in
  let@ res := vCommit (neFS e) h off count in
  let@ a := attrOf h in
  match res with
  | Err er => reply (putStatus (statusOf (Some er)) ++ putWccData (wccFrom b) a)
  | Ok _ => reply (putStatus OK ++ putWccData (wccFrom b) a ++ Writer.Fixed verf)
  end).

(** [Server.Call]. *)
Definition nfsCall (e : nfsEnv E) (p : Z) (cred : Cred) : proc :=
  let c := callerFrom cred in
  if p =? procNull then (fun _ => reply [])
  else if p =? procGetAttr then getattr
  else if p =? procSetAttr then setattr e c
  else if p =? procLookup then lookup c
  else if p =? procAccess then access c
  else if p =? procReadlink then readlink
  else if p =? procRead then read c
  else if p =? procWrite then write e c
  else if p =? procCreate then create e c
  else if p =? procMkdir then mkdir e c
  else if p =? procSymlink then symlink e c
  else if p =? procMknod then unsupportedCreate
  else if p =? procRemove then remove e c false
  else if p =? procRmdir then remove e c true
  else if p =? procRename then rename e c
  else if p =? procLink then link
  else if p =? procReaddir then readdir c false
  else if p =? procReaddirPlus then readdir c true
  else if p =? procFSStat then fsstat
  else if p =? procFSInfo then fsinfo
  else if p =? procPathconf then pathconf
  else if p =? procCommit then commit e
  else (fun _ => pret None).

(** The program as the RPC server sees it. *)
Definition nfsHandler : Handler S (nfsEnv E) := mkHandler
  (fun e p cred r s => let (b, s) := nfsCall e p cred r s in (match b with Some b => CallOk b | None => CallGarbage end, s))
  (fun p => p <? procCount)
  nfsIdempotent.

End Procedures.
