(* ===== verification/NfsMount.v ===== *)
(** * The MOUNT program (internal/nfs/mount.go)

    The table of mounts is the program's own state, beside the filesystem's.
    DUMP walks a Go map: the order is a parameter, [iter]. *)

From Stdlib Require Import Ascii.
From S2P Require Import Prelude Vfs Inode Xdr ReplyCache Rpc NfsWire Nfs3.

Definition mountProcNull : Z := 0.
Definition mountProcMnt : Z := 1.
Definition mountProcDump : Z := 2.
Definition mountProcUmnt : Z := 3.
Definition mountProcUmntAll : Z := 4.
Definition mountProcExport : Z := 5.
Definition mountProcCount : Z := 6.

Definition mnt3OK : Z := 0.
Definition mnt3ErrNoEnt : Z := 2.

Definition authFlavorNone : Z := 0.
Definition authFlavorSys : Z := 1.

(** [strings.TrimSuffix(s, "/")]. *)
Fixpoint trimSlash (s : string) : string :=
  match s with
  | EmptyString => EmptyString
  | String "/" EmptyString => EmptyString
  | String c s => String c (trimSlash s)
  end.

Definition norm (s : string) : string :=
  let s := trimSlash s in if String.eqb s "" then "/" else s.

(** [NewMountServer]: the export of a server made with [export]. *)
Definition exportOf (export : string) : string := if String.eqb export "" then "/" else export.

Definition accepts (export path : string) : bool := String.eqb (norm path) (norm export).

(** The table: client name to exported path. *)
Abbreviation mountTable := (gmap string string).

Section Mount.
Context {S E : Type} {V : VfsFS S E} (export : string) (iter : mountTable -> list (string * string)).

Definition putMounts (l : list (string * string)) : bytes :=
  concat (map (fun m => Writer.Bool true ++ Writer.String m.1 ++ Writer.String m.2) l) ++ Writer.Bool false.

(** [MountServer.Call]; [None] is sunrpc.ErrGarbageArgs. *)
Definition mountCall (p : Z) (cred : Cred) (r : Reader) (st : mountTable * S) : option bytes * (mountTable * S) :=
  let (mounts, s) := st in
  if p =? mountProcNull then (Some [], st)
  else if p =? mountProcMnt then
    let (path, r) := Reader.String r in
    match rErr r with
    | Some _ => (None, st)
    | None =>
        if negb (accepts export path) then (Some (Writer.Uint32 mnt3ErrNoEnt), st)
        else
          (Some (Writer.Uint32 mnt3OK ++ Writer.Opaque (vRoot s) ++
                 Writer.Uint32 2 ++ Writer.Uint32 authFlavorSys ++ Writer.Uint32 authFlavorNone),
           (<[crMachine cred := path]> mounts, s))
    end
  else if p =? mountProcUmnt then
    let (path, r) := Reader.String r in
    match rErr r with
    | Some _ => (None, st)
    | None => (Some [], (delete (crMachine cred) mounts, s))
    end
  else if p =? mountProcUmntAll then (Some [], (∅, s))
  else if p =? mountProcDump then (Some (putMounts (iter mounts)), st)
  else if p =? mountProcExport then
    (Some (Writer.Bool true ++ Writer.String export ++ Writer.Bool false ++ Writer.Bool false), st)
  else (None, st).

Definition mountHandler : Handler (mountTable * S) (nfsEnv E) := mkHandler
  (fun _ p cred r st => let (b, st) := mountCall p cred r st in (match b with Some b => CallOk b | None => CallGarbage end, st))
  (fun p => p <? mountProcCount)
  (fun _ => true).

End Mount.

(** ** The two programs on one server *)

(** A program that uses the second part of the state. *)
Definition onSnd {M S E} (h : Handler S E) : Handler (M * S) E := mkHandler
  (fun e p cred r st => let (out, s) := Call h e p cred r st.2 in (out, (st.1, s)))
  (HasProc h) (Idempotent h).

(** What [serve] of cmd/strata registers. *)
Definition nfsServer {S E} {V : VfsFS S E} (verf : bytes) (export : string) (iter : mountTable -> list (string * string))
  : Server (mountTable * S) (nfsEnv E) :=
  Register ProgramMount VersionMount (mountHandler (exportOf export) iter)
    (Register ProgramNFS VersionNFS (onSnd (nfsHandler verf)) NewServer).
