(* ===== verification/NfsSpec.v ===== *)
(** * The NFSv3 wire types, from the client's side

    A client's encoders for the arguments and its decoder for attributes, and
    that the server's decoders and encoders read and write exactly them. *)

From Stdlib Require Import Strings.Byte.
From S2P Require Import Prelude Vfs Inode Xdr NfsWire Nfs3.

(** ** Reading with [let^?] *)

Lemma reads_checked {A} (a : A) : reads (checked a) [] (Some a).
Proof. apply (reads_map errOf (fun e => match e with None => Some a | Some _ => None end) [] None), reads_err. Qed.

Lemma reads_obind {A B} (p : rd (option A)) (k : A -> rd (option B)) e1 e2 a b :
  reads p e1 (Some a) -> reads (k a) e2 b -> reads (obind p k) (e1 ++ e2) b.
Proof. intros Hp Hk. unfold obind. eapply reads_bind; [exact Hp|exact Hk]. Qed.

(** A last read, and the check that ends the decode. *)
Lemma reads_then_checked {A B} (p : rd A) (g : A -> B) e a : reads p e a -> reads (let^ x := p in checked (g x)) e (Some (g a)).
Proof. intros Hp. rewrite <- (app_nil_r e). eapply reads_bind; [exact Hp|apply reads_checked]. Qed.

(** ** A client's arguments *)

Definition putOpt {A} (put : A -> bytes) (o : option A) : bytes :=
  match o with None => Writer.Bool false | Some a => Writer.Bool true ++ put a end.

Definition putTimeArg (t : Z * Z) : bytes := Writer.Uint32 t.1 ++ Writer.Uint32 t.2.

(** What a client asks of a time: leave it, the server's clock, or seconds and
    nanoseconds of its own. *)
Inductive timeArg := KeepTime | ServerTime | ClientTime (t : Z * Z).

Definition putTimeHow (t : timeArg) : bytes :=
  match t with
  | KeepTime => Writer.Uint32 0
  | ServerTime => Writer.Uint32 setToServerTime
  | ClientTime t => Writer.Uint32 setToClientTime ++ putTimeArg t
  end.

Record sattrArg := mkSattrArg {
  xMode : option Z; xUID : option Z; xGID : option Z; xSize : option Z; xATime : timeArg; xMTime : timeArg
}.

Definition putSattr (x : sattrArg) : bytes :=
  putOpt Writer.Uint32 (xMode x) ++ putOpt Writer.Uint32 (xUID x) ++ putOpt Writer.Uint32 (xGID x) ++
  putOpt Writer.Uint64 (xSize x) ++ putTimeHow (xATime x) ++ putTimeHow (xMTime x).

(** What they come to at the server. *)
Definition nanosOf (t : Z * Z) : Z := t.1 * 10 ^ 9 + t.2.

Definition timeMeant (now : Z) (t : timeArg) : option Z :=
  match t with KeepTime => None | ServerTime => Some now | ClientTime t => Some (nanosOf t) end.

Definition sattrMeant (now1 now2 : Z) (x : sattrArg) : SetAttr :=
  mkSetAttr (xMode x) (xUID x) (xGID x) (xSize x) (timeMeant now1 (xATime x)) (timeMeant now2 (xMTime x)).

Definition allOf {A} (P : A -> Prop) (o : option A) : Prop := match o with None => True | Some a => P a end.

Definition timeArgOK (t : timeArg) : Prop := match t with ClientTime t => is_u32 t.1 /\ is_u32 t.2 | _ => True end.

Definition sattrOK (x : sattrArg) : Prop :=
  allOf is_u32 (xMode x) /\ allOf is_u32 (xUID x) /\ allOf is_u32 (xGID x) /\ allOf is_u64 (xSize x) /\
  timeArgOK (xATime x) /\ timeArgOK (xMTime x).

Lemma reads_opt {A} (p : rd A) (put : A -> bytes) o :
  allOf (fun a => reads p (put a) a) o -> reads (getOpt p) (putOpt put o) o.
Proof.
  destruct o as [a|]; cbn [allOf putOpt]; intros Hp; unfold getOpt.
  - eapply reads_bind; [apply reads_bool|]. by apply (reads_map p Some).
  - rewrite <- (app_nil_r (Writer.Bool false)). eapply reads_bind; [apply reads_bool|apply reads_ret].
Qed.

Lemma allOf_impl {A} (P Q : A -> Prop) o : (forall a, P a -> Q a) -> allOf P o -> allOf Q o.
Proof. destruct o; simpl; auto. Qed.

Lemma reads_time t : is_u32 t.1 -> is_u32 t.2 -> reads getTime (putTimeArg t) (nanosOf t).
Proof.
  intros H1 H2. unfold getTime, putTimeArg. eapply reads_bind; [by apply reads_uint32|].
  by apply (reads_map _ (fun n => t.1 * 10 ^ 9 + n)), reads_uint32.
Qed.

Lemma reads_timeHow now t : timeArgOK t -> reads (getTimeHow now) (putTimeHow t) (timeMeant now t).
Proof.
  unfold getTimeHow. destruct t as [| |t]; cbn [timeArgOK putTimeHow timeMeant]; intros Ht.
  - rewrite <- (app_nil_r (Writer.Uint32 0)). eapply reads_bind; [apply reads_uint32; unfold is_u32; lia|apply reads_ret].
  - rewrite <- (app_nil_r (Writer.Uint32 _)). eapply reads_bind; [apply reads_uint32; unfold is_u32, setToServerTime; lia|apply reads_ret].
  - eapply reads_bind; [apply reads_uint32; unfold is_u32, setToClientTime; lia|].
    destruct Ht. by apply (reads_map getTime Some), reads_time.
Qed.

Lemma reads_sattr now1 now2 x : sattrOK x -> reads (getSattr now1 now2) (putSattr x) (Some (sattrMeant now1 now2 x)).
Proof.
  intros (H1&H2&H3&H4&H5&H6). unfold getSattr, putSattr.
  do 3 (eapply reads_bind; [apply reads_opt; eapply allOf_impl; [|done]; exact reads_uint32|]).
  eapply reads_bind; [apply reads_opt; eapply allOf_impl; [|done]; exact reads_uint64|].
  eapply reads_bind; [by apply reads_timeHow|].
  by apply (reads_then_checked (getTimeHow now2)
    (mkSetAttr (xMode x) (xUID x) (xGID x) (xSize x) (timeMeant now1 (xATime x)))), reads_timeHow.
Qed.

Definition handleOK (h : Handle) : Prop := blen h <= maxHandleLen.
Definition nameOK (s : string) : Prop := blen (bytesOf s) <= maxVarLen.

Lemma reads_handle h : handleOK h -> reads getHandle (putHandle h) (Some h).
Proof.
  intros Hh. assert (Hm : blen h <= maxVarLen) by (transitivity maxHandleLen; [exact Hh|discriminate]).
  unfold getHandle, putHandle. rewrite <- (app_nil_r (Writer.Opaque h)). eapply reads_bind; [by apply reads_opaque|].
  change (@nil byte) with (@nil byte ++ []). eapply reads_obind; [apply reads_checked|].
  assert (maxHandleLen <? blen h = false) as -> by (by apply Z.ltb_ge). apply reads_ret.
Qed.

Definition putDirOp (dir : Handle) (name : string) : bytes := putHandle dir ++ Writer.String name.

Lemma reads_dirOp dir name : handleOK dir -> nameOK name -> reads getDirOpArgs (putDirOp dir name) (Some (dir, name)).
Proof.
  intros Hd Hn. unfold getDirOpArgs, putDirOp. eapply reads_obind; [by apply reads_handle|].
  by apply (reads_then_checked Reader.String (pair dir)), reads_string.
Qed.

(** READ and COMMIT, WRITE. *)
Definition putRange (h : Handle) (off count : Z) : bytes := putHandle h ++ Writer.Uint64 off ++ Writer.Uint32 count.

Lemma reads_range h off count :
  handleOK h -> is_u64 off -> is_u32 count -> reads getRangeArgs (putRange h off count) (Some (h, off, count)).
Proof.
  intros Hh Ho Hc. unfold getRangeArgs, putRange. eapply reads_obind; [by apply reads_handle|].
  eapply reads_bind; [by apply reads_uint64|]. by apply (reads_then_checked Reader.Uint32 (pair (h, off))), reads_uint32.
Qed.

Definition putWrite (h : Handle) (off count : Z) (how : Stability) (data : bytes) : bytes :=
  putHandle h ++ Writer.Uint64 off ++ Writer.Uint32 count ++ Writer.Uint32 (stability_code how) ++ Writer.Opaque data.

Lemma stability_of_code how : stability_of (stability_code how) = how.
Proof. by destruct how. Qed.

Lemma reads_write h off count how data :
  handleOK h -> is_u64 off -> is_u32 count -> blen data <= maxVarLen ->
  reads getWriteArgs (putWrite h off count how data) (Some (h, off, count, how, data)).
Proof.
  intros Hh Ho Hc Hd. unfold getWriteArgs, putWrite. eapply reads_obind; [by apply reads_handle|].
  eapply reads_bind; [by apply reads_uint64|]. eapply reads_bind; [by apply reads_uint32|].
  eapply reads_bind; [apply reads_uint32; destruct how; unfold is_u32; simpl; lia|]. rewrite stability_of_code.
  by apply (reads_then_checked Reader.Opaque (pair (h, off, count, how))), reads_opaque.
Qed.

(** ** A client's view of the replies *)

(** Attributes as RFC 1813 lays them out. *)
Definition ftypeOf (v : Z) : FileType :=
  if v =? 1 then TypeReg else if v =? 2 then TypeDir else if v =? 3 then TypeBlk else if v =? 4 then TypeChr
  else if v =? 5 then TypeLnk else if v =? 6 then TypeSock else TypeFifo.

Definition getFattr : rd Attr :=
  let^ t := Reader.Uint32 in
  let^ mode := Reader.Uint32 in
  let^ nlink := Reader.Uint32 in
  let^ uid := Reader.Uint32 in
  let^ gid := Reader.Uint32 in
  let^ size := Reader.Uint64 in
  let^ used := Reader.Uint64 in
  let^ rd1 := Reader.Uint32 in
  let^ rd2 := Reader.Uint32 in
  let^ fsid := Reader.Uint64 in
  let^ fileid := Reader.Uint64 in
  let^ atime := getTime in
  let^ mtime := getTime in
  let^ ctime := getTime in
  rret (mkAttr (ftypeOf t) mode nlink uid gid size used (rd1, rd2) fsid fileid atime mtime ctime).

(** A time the wire can carry: from 1970 up to 2106. *)
Definition wireTime (t : Z) : Prop := 0 <= t < 2 ^ 32 * 10 ^ 9.

Record wireAttr (a : Attr) : Prop := {
  wa_mode : is_u32 (aMode a);
  wa_nlink : is_u32 (aNLink a);
  wa_uid : is_u32 (aUID a);
  wa_gid : is_u32 (aGID a);
  wa_size : is_u64 (aSize a);
  wa_used : is_u64 (aUsed a);
  wa_rdev1 : is_u32 (aRDev a).1;
  wa_rdev2 : is_u32 (aRDev a).2;
  wa_fsid : is_u64 (aFSID a);
  wa_fileid : is_u64 (aFileID a);
  wa_atime : wireTime (aATime a);
  wa_mtime : wireTime (aMTime a);
  wa_ctime : wireTime (aCTime a)
}.

Lemma reads_putTime t : wireTime t -> reads getTime (putTime t) t.
Proof.
  intros Ht. unfold wireTime in Ht. unfold putTime. destruct (Z.eqb_spec t zeroTime) as [->|_]; [unfold zeroTime in Ht; lia|].
  pose proof (Z.div_mod t (10 ^ 9) ltac:(lia)). pose proof (Z.mod_pos_bound t (10 ^ 9) ltac:(lia)).
  assert (Hd : is_u32 (t / 10 ^ 9)).
  { split; [apply Z.div_pos; lia|]. apply Z.div_lt_upper_bound; lia. }
  rewrite (u32_id _ Hd). pose proof (reads_time (t / 10 ^ 9, t mod 10 ^ 9) Hd ltac:(unfold is_u32; simpl; lia)) as H1.
  replace (nanosOf _) with t in H1 by (unfold nanosOf; simpl; lia). exact H1.
Qed.

Lemma ftypeOf_code t : ftypeOf (ftype_code t) = t /\ is_u32 (ftype_code t).
Proof. destruct t; split; try reflexivity; unfold is_u32; simpl; lia. Qed.

Lemma reads_fattr a : wireAttr a -> reads getFattr (putFattr a) a.
Proof.
  intros []. destruct (ftypeOf_code (aType a)) as [Ht Hu]. unfold getFattr, putFattr.
  repeat (eapply reads_bind; [first [by apply reads_uint32|by apply reads_uint64|by apply reads_putTime]|]).
  rewrite <- (app_nil_r (putTime (aCTime a))). eapply reads_bind; [by apply reads_putTime|].
  rewrite Ht, <- surjective_pairing. destruct a. apply reads_ret.
Qed.
