(* ===== verification/NfsServe.v ===== *)
(** * What the NFSv3 procedures promise of any filesystem

    The theorems hold of every filesystem behind [VfsFS]: that a call answered
    as garbage has changed nothing needs only that queries are queries
    ([VfsQueries]); that an invariant survives every call needs only that each
    call of the interface keeps it ([VfsKeeps]). *)

From Stdlib Require Import Strings.Byte.
From S2P Require Import Prelude Vfs Inode Xdr ReplyCache Rpc RpcSpec NfsWire Nfs3 NfsMount NfsSpec.

(** ** Interfaces *)

(** The calls that only look. *)
Class VfsQueries (S E : Type) {V : VfsFS S E} : Prop := {
  q_getattr h s : (vGetAttr h s).2 = s;
  q_lookup c h x s : (vLookup c h x s).2 = s;
  q_access c h w s : (vAccess c h w s).2 = s;
  q_readlink h s : (vReadLink h s).2 = s;
  q_readdir c h ck vf m p s : (vReadDir c h ck vf m p s).2 = s;
  q_fsstat h s : (vFSStat h s).2 = s
}.

(** [m] goes from [I (n + k)] to [I n], for any [n]. *)
Definition spends {S A} (I : Z -> S -> Prop) (k : Z) (m : prog S A) : Prop :=
  forall n s, 0 <= n -> I (n + k) s -> I n (m s).2.

(** An invariant that every call of the interface keeps at the cost of one
    unit, for arguments the wire can carry and new names that are [text]. *)
Class VfsKeeps (S E : Type) {V : VfsFS S E} (I : Z -> S -> Prop) (text : string -> Prop) : Prop := {
  k_weaken n m s : 0 <= n <= m -> I m s -> I n s;
  k_setattr e c h sa : (forall size, saSize sa = Some size -> is_u64 size) -> spends I 1 (vSetAttr e c h sa);
  k_read c h off count : spends I 1 (vRead c h off count);
  k_write e c h off data how : is_u64 off -> spends I 1 (vWrite e c h off data how);
  k_commit e h off count : spends I 1 (vCommit e h off count);
  k_create e c dir name sa excl : text name -> spends I 1 (vCreate e c dir name sa excl);
  k_mkdir e c dir name sa : text name -> spends I 1 (vMkdir e c dir name sa);
  k_symlink e c dir name target sa : text name -> text target -> spends I 1 (vSymlink e c dir name target sa);
  k_remove e c dir name : spends I 1 (vRemove e c dir name);
  k_rmdir e c dir name : spends I 1 (vRmdir e c dir name);
  k_rename e c d1 x d2 y : text y -> spends I 1 (vRename e c d1 x d2 y)
}.

(** The text a call asks the filesystem to store. *)
Definition callText {E} (e : nfsEnv E) (p : Z) (r : Reader) : list string :=
  if p =? procCreate then match (getCreateArgs (neNow1 e) (neNow2 e) r).1 with Some (_, name, _, _) => [name] | None => [] end
  else if p =? procMkdir then match (getMkdirArgs (neNow1 e) (neNow2 e) r).1 with Some (_, name, _) => [name] | None => [] end
  else if p =? procSymlink then
    match (getSymlinkArgs (neNow1 e) (neNow2 e) r).1 with Some (_, name, _, target) => [name; target] | None => [] end
  else if p =? procRename then match (getRenameArgs r).1 with Some (_, _, _, name) => [name] | None => [] end
  else [].

(** ** Decoded numbers are within their width *)

Definition yields {A} (p : rd A) (Q : A -> Prop) : Prop := forall r, Q (p r).1.

Lemma yields_bind {A B} (p : rd A) (k : A -> rd B) P Q : yields p P -> (forall a, P a -> yields (k a) Q) -> yields (rbind p k) Q.
Proof. intros Hp Hk r. unfold rbind. specialize (Hp r). destruct (p r) as [a r1]. by apply Hk. Qed.

Lemma yields_any {A} (p : rd A) : yields p (fun _ => True).
Proof. by intros r. Qed.

Lemma yields_ret {A} (a : A) (Q : A -> Prop) : Q a -> yields (rret a) Q.
Proof. by intros H r. Qed.

Lemma yields_obind {A B} (p : rd (option A)) (k : A -> rd (option B)) P Q :
  yields p (allOf P) -> (forall a, P a -> yields (k a) (allOf Q)) -> yields (obind p k) (allOf Q).
Proof. intros Hp Hk. eapply yields_bind; [exact Hp|]. intros [a|] Ha; [by apply Hk|by apply yields_ret]. Qed.

Lemma yields_checked {A} (a : A) (Q : A -> Prop) : Q a -> yields (checked a) (allOf Q).
Proof. intros Ha r. unfold checked, rbind, errOf, rret. simpl. by destruct (rErr r). Qed.

Lemma yields_some {A} (p : rd (option A)) : yields p (allOf (fun _ => True)).
Proof. intros r. by destruct (p r).1. Qed.

Lemma yields_uint64 : yields Reader.Uint64 is_u64.
Proof.
  intros r. unfold Reader.Uint64, rbind, Reader.take. destruct (rErr r); [by split|].
  destruct (Z.ltb_spec 8 0), (Z.ltb_spec (blen (rBuf r)) (rOff r + 8)); simpl; try by split.
  set (b := btake _ _). pose proof (be_Z_range b) as Hb. unfold is_u64. assert (Z.of_nat (length b) <= 8).
  { unfold b, btake. rewrite length_take. lia. }
  pose proof (Z.pow_le_mono_r 256 (Z.of_nat (length b)) 8 ltac:(lia) ltac:(lia)). lia.
Qed.

Lemma yields_sattr now1 now2 : yields (getSattr now1 now2) (allOf (fun sa => forall size, saSize sa = Some size -> is_u64 size)).
Proof.
  unfold getSattr. do 3 (eapply yields_bind; [apply yields_any|]; intros ? _).
  apply (yields_bind _ _ (allOf is_u64)).
  - unfold getOpt. eapply yields_bind; [apply yields_any|]. intros [] _; [|by apply yields_ret].
    eapply yields_bind; [apply yields_uint64|]. intros v Hv. by apply yields_ret.
  - intros size Hsize. do 2 (eapply yields_bind; [apply yields_any|]; intros ? _). apply yields_checked. simpl.
    intros ? ->. exact Hsize.
Qed.

(** ** Garbage *)

Section Garbage.
Context {S E : Type} {V : VfsFS S E} {Q : VfsQueries S E} (verf : bytes).

(** Whatever [m] is run on, it answers something. *)
Definition replies (m : prog S (option bytes)) : Prop := forall s, (m s).1 ≠ None.

Lemma replies_bind {A} (m : prog S A) (k : A -> prog S (option bytes)) : (forall a, replies (k a)) -> replies (pbind m k).
Proof using Type. intros Hk s. unfold pbind. destruct (m s) as [a s1]. apply Hk. Qed.

Lemma replies_reply b : replies (reply b).
Proof using Type. by intros s. Qed.

(** [m] leaves the state alone; [m] does when it answers nothing. *)
Definition query {A} (m : prog S A) : Prop := forall s, (m s).2 = s.
Definition harmless (m : prog S (option bytes)) : Prop := forall s, (m s).1 = None -> (m s).2 = s.

Lemma query_bind {A B} (m : prog S A) (k : A -> prog S B) : query m -> (forall a, query (k a)) -> query (pbind m k).
Proof using Type.
  intros Hm Hk s. unfold pbind. specialize (Hm s). destruct (m s) as [a s1]. simpl in Hm. subst s1. apply Hk.
Qed.

Lemma query_ret {A} (a : A) : query (pret a).
Proof using Type. by intros s. Qed.

Lemma harmless_replies m : replies m -> harmless m.
Proof using Type. intros Hm s H. by apply Hm in H. Qed.

Lemma harmless_query m : query m -> harmless m.
Proof using Type. intros Hm s _. apply Hm. Qed.

Lemma harmless_bind {A} (m : prog S A) k : query m -> (forall a, harmless (k a)) -> harmless (pbind m k).
Proof using Type.
  intros Hm Hk s. unfold pbind. specialize (Hm s). destruct (m s) as [a s1]. simpl in Hm. subst s1. apply Hk.
Qed.

Lemma harmless_decoding {A} (d : rd (option A)) k r : (forall a, harmless (k a)) -> harmless (decoding d k r).
Proof using Type. intros Hk s. unfold decoding. destruct (d r).1 as [a|]; [apply Hk|done]. Qed.

Ltac replying :=
  repeat (intros; first
    [ apply replies_reply | apply replies_bind
    | match goal with |- replies (match ?x with _ => _ end) => destruct x end
    | match goal with |- replies (if ?x then _ else _) => destruct x end
    | match goal with |- replies (let '(_, _) := ?x in _) => destruct x end
    | progress unfold created, notCreated ]).

Lemma setattr_harmless e c r : harmless (setattr e c r).
Proof using Q.
  apply harmless_decoding. intros [[[h sa] guard] failed]. apply harmless_bind.
  - destruct guard; [|apply query_ret]. apply query_bind; [intros s; apply q_getattr|intros; apply query_ret].
  - intros [cur|]; [apply harmless_replies, replies_reply|]. destruct failed; [apply harmless_query, query_ret|].
    apply harmless_replies. replying.
Qed.

Lemma nfsCall_harmless e p cred r : harmless (nfsCall verf e p cred r).
Proof using Q.
  unfold nfsCall. repeat case_match; try (apply setattr_harmless); try (by intros s);
    apply harmless_decoding; intros; apply harmless_replies; replying.
Qed.

(** A call the server answers with GARBAGE_ARGS has changed nothing: whatever
    the procedure and the bytes, the filesystem is as it was. *)
Theorem garbage_changes_nothing e p cred r s s' : nfsCall verf e p cred r s = (None, s') -> s' = s.
Proof using Q. intros H. pose proof (nfsCall_harmless e p cred r s) as Hg. rewrite H in Hg. by apply Hg. Qed.

End Garbage.

(** ** Invariants *)

Section Keeps.
Context {S E : Type} {V : VfsFS S E} {Q : VfsQueries S E} (I : Z -> S -> Prop) (text : string -> Prop)
  {K : VfsKeeps S E I text} (verf : bytes).

Lemma spends_bind {A B} (m : prog S A) (k : A -> prog S B) i j :
  0 <= i -> 0 <= j -> spends I i m -> (forall a, spends I j (k a)) -> spends I (i + j) (pbind m k).
Proof using Type.
  intros Hi Hj Hm Hk n s Hn Hs. unfold pbind. specialize (Hm (n + j) s ltac:(lia)).
  replace (n + j + i) with (n + (i + j)) in Hm by lia. specialize (Hm Hs). destruct (m s) as [a s1]. by apply Hk.
Qed.

Lemma spends_query {A} (m : prog S A) k : 0 <= k -> query m -> spends I k m.
Proof using K. intros Hk Hm n s Hn Hs. rewrite Hm. eapply k_weaken; [|done]. lia. Qed.

Lemma spends_free {A B} (m : prog S A) (k : A -> prog S B) j : query m -> (forall a, spends I j (k a)) -> spends I j (pbind m k).
Proof using Type.
  intros Hm Hk n s Hn Hs. unfold pbind. specialize (Hm s). destruct (m s) as [a s1]. simpl in Hm. subst s1. by apply Hk.
Qed.

Lemma attrOf_query h : query (attrOf h).
Proof using Q. apply query_bind; [intros s; apply q_getattr|intros; apply query_ret]. Qed.

Lemma reply_query b : query (reply b : prog S (option bytes)).
Proof using Type. apply query_ret. Qed.

(** A call of the interface, then queries. *)
Lemma spends_call {A B} (m : prog S A) (k : A -> prog S B) : spends I 1 m -> (forall a, query (k a)) -> spends I 2 (pbind m k).
Proof using K. intros Hm Hk. apply (spends_bind m k 1 1); [lia|lia|done|]. intros a. apply spends_query; [lia|done]. Qed.

Ltac asking :=
  repeat (intros; first
    [ apply reply_query | apply query_ret | apply attrOf_query | apply query_bind
    | (intro; first [apply q_getattr|apply q_lookup|apply q_access|apply q_readlink|apply q_readdir|apply q_fsstat|reflexivity])
    | match goal with |- query (match ?x with _ => _ end) => destruct x end
    | match goal with |- query (let '(_, _) := ?x in _) => destruct x end
    | progress unfold created, notCreated ]).

(** Decoded arguments of which [P] holds. *)
Lemma spends_decoding {A} (d : rd (option A)) k r j (P : A -> Prop) :
  0 <= j -> allOf P (d r).1 -> (forall a, P a -> spends I j (k a)) -> spends I j (decoding d k r).
Proof using K.
  intros Hj Hd Hk. unfold decoding. destruct (d r).1 as [a|]; [by apply Hk|]. apply spends_query; [done|apply query_ret].
Qed.

Lemma setattr_spends e c r : spends I 2 (setattr e c r).
Proof using Q K.
  apply (spends_decoding _ _ _ _ (fun '(_, sa, _, _) => forall size, saSize sa = Some size -> is_u64 size)); [lia| |].
  - revert r. change (yields (getSetAttrArgs (neNow1 e) (neNow2 e))
      (allOf (fun '(_, sa, _, _) => forall size, saSize sa = Some size -> is_u64 size))).
    unfold getSetAttrArgs. eapply yields_obind; [apply yields_some|]. intros h _. eapply yields_obind; [apply yields_sattr|].
    intros sa Hsa. do 2 (eapply yields_bind; [apply yields_any|]; intros ? _). by apply yields_ret.
  - intros [[[h sa] guard] failed] Hsa. apply spends_free.
    + destruct guard; asking.
    + intros [cur|]; [apply spends_query; [lia|asking]|]. destruct failed; [apply spends_query; [lia|asking]|].
      apply spends_free; [apply attrOf_query|]. intros b. apply spends_call; [by apply k_setattr|asking].
Qed.

Lemma write_spends e c r : spends I 2 (write verf e c r).
Proof using Q K.
  apply (spends_decoding _ _ _ _ (fun '(_, off, _, _, _) => is_u64 off)); [lia| |].
  - revert r. change (yields getWriteArgs (allOf (fun '(_, off, _, _, _) => is_u64 off))).
    unfold getWriteArgs. eapply yields_obind; [apply yields_some|]. intros h _. eapply yields_bind; [apply yields_uint64|].
    intros off Hoff. do 3 (eapply yields_bind; [apply yields_any|]; intros ? _). by apply yields_checked.
  - intros [[[[h off] count] how] data] Hoff. apply spends_free; [apply attrOf_query|]. intros b.
    apply spends_call; [by apply k_write|asking].
Qed.

Lemma create_spends e c r : Forall text (callText e procCreate r) -> spends I 2 (create e c r).
Proof using Q K.
  intros Ht. apply (spends_decoding _ _ _ _ (fun '(_, name, _, sa) => text name /\ forall size, saSize sa = Some size -> is_u64 size)); [lia| |].
  - unfold callText in Ht. simpl in Ht. assert (Hy : yields (getCreateArgs (neNow1 e) (neNow2 e))
      (allOf (fun '(_, _, _, sa) => forall size, saSize sa = Some size -> is_u64 size))).
    { unfold getCreateArgs. eapply yields_obind; [apply yields_some|]. intros [dir name] _.
      eapply yields_bind; [apply yields_any|]. intros mode _. destruct (_ || _).
      - eapply yields_obind; [apply yields_sattr|]. intros sa Hsa. by apply yields_checked.
      - destruct (_ =? _); [|by apply yields_ret]. eapply yields_bind; [apply yields_any|]. intros _ _. by apply yields_checked. }
    specialize (Hy r). destruct (getCreateArgs _ _ r).1 as [[[[dir name] mode] sa]|]; [|done]. simpl in *.
    by apply list.Forall_cons in Ht as [? _].
  - intros [[[dir name] mode] sa] [Hn Hsa]. apply spends_free; [apply attrOf_query|]. intros b.
    apply (spends_bind _ _ 1 1); [lia|lia|by apply k_create|]. intros [[h a]|er]; [|apply spends_query; [lia|asking]].
    destruct (if mode =? createUnchecked then saSize sa else None) as [size|] eqn:Es; [|apply spends_query; [lia|asking]].
    apply (spends_bind _ _ 1 0); [lia|lia| |].
    + apply k_setattr. simpl. intros ? [= <-]. destruct (mode =? createUnchecked); [by apply Hsa|done].
    + intros na. apply spends_query; [lia|asking].
Qed.

Lemma mkdir_spends e c r : Forall text (callText e procMkdir r) -> spends I 2 (mkdir e c r).
Proof using Q K.
  intros Ht. apply (spends_decoding _ _ _ _ (fun '(_, name, _) => text name)); [lia| |].
  - unfold callText in Ht. simpl in Ht. destruct (getMkdirArgs _ _ r).1 as [[[dir name] sa]|]; [|done].
    by apply list.Forall_cons in Ht as [? _].
  - intros [[dir name] sa] Hn. apply spends_free; [apply attrOf_query|]. intros b. apply spends_call; [by apply k_mkdir|asking].
Qed.

Lemma symlink_spends e c r : Forall text (callText e procSymlink r) -> spends I 2 (symlink e c r).
Proof using Q K.
  intros Ht. apply (spends_decoding _ _ _ _ (fun '(_, name, _, target) => text name /\ text target)); [lia| |].
  - unfold callText in Ht. simpl in Ht. destruct (getSymlinkArgs _ _ r).1 as [[[[dir name] sa] target]|]; [|done].
    apply list.Forall_cons in Ht as [? Ht]. by apply list.Forall_cons in Ht as [? _].
  - intros [[[dir name] sa] target] [Hn Ht']. apply spends_free; [apply attrOf_query|]. intros b.
    apply spends_call; [by apply k_symlink|asking].
Qed.

Lemma remove_spends e c isDir r : spends I 2 (remove e c isDir r).
Proof using Q K.
  eapply spends_decoding; [lia|apply yields_some|]. intros [dir name] _. apply spends_free; [apply attrOf_query|]. intros b.
  apply spends_call; [destruct isDir; [apply k_rmdir|apply k_remove]|asking].
Qed.

Lemma rename_spends e c r : Forall text (callText e procRename r) -> spends I 2 (rename e c r).
Proof using Q K.
  intros Ht. apply (spends_decoding _ _ _ _ (fun '(_, _, _, name) => text name)); [lia| |].
  - unfold callText in Ht. simpl in Ht. destruct (getRenameArgs r).1 as [[[[d1 x] d2] y]|]; [|done].
    by apply list.Forall_cons in Ht as [? _].
  - intros [[[d1 x] d2] y] Hy. apply spends_free; [apply attrOf_query|]. intros bf. apply spends_free; [apply attrOf_query|].
    intros bt. apply spends_call; [by apply k_rename|asking].
Qed.

(** A procedure that decodes and then only asks. *)
Lemma spends_asking {A} (d : rd (option A)) k r : (forall a, query (k a)) -> spends I 2 (decoding d k r).
Proof using K. intros Hk. eapply spends_decoding; [lia|apply yields_some|]. intros a _. apply spends_query; [lia|apply Hk]. Qed.

Lemma nfsCall_spends e p cred r : Forall text (callText e p r) -> spends I 2 (nfsCall verf e p cred r).
Proof using Q K.
  intros Ht. unfold nfsCall. assert (Hq : forall m : prog S (option bytes), query m -> spends I 2 m) by (intros; apply spends_query; [lia|done]).
  repeat match goal with |- spends _ _ ((if ?x =? ?y then _ else _) _) => destruct (Z.eqb_spec x y) as [->|_] end;
    try solve [apply spends_asking; asking]; try solve [apply Hq; asking].
  - apply setattr_spends.
  - eapply spends_decoding; [lia|apply yields_some|]. intros [[h off] count] _. apply spends_call; [apply k_read|asking].
  - apply write_spends.
  - by apply create_spends.
  - by apply mkdir_spends.
  - by apply symlink_spends.
  - apply remove_spends.
  - apply remove_spends.
  - by apply rename_spends.
  - eapply spends_decoding; [lia|apply yields_some|]. intros [[h off] count] _. apply spends_free; [apply attrOf_query|].
    intros b. apply spends_call; [apply k_commit|asking].
Qed.

Lemma query_decoding {A} (d : rd (option A)) k r : (forall a, query (k a)) -> query (decoding d k r : prog S (option bytes)).
Proof using Type. intros Hk s. unfold decoding. destruct (d r).1; [apply Hk|done]. Qed.

(** The procedures answered without the reply cache, but for those that go to
    the data path, only ask. *)
Lemma nfsCall_query e p cred r :
  nfsIdempotent p = true -> p ≠ procRead -> p ≠ procWrite -> p ≠ procCommit -> query (nfsCall verf e p cred r).
Proof using Q.
  intros Hi%bool_decide_eq_true_1 H1 H2 H3. unfold nfsCall. repeat (apply elem_of_cons in Hi as [->|Hi]); try done;
    cbn [Z.eqb Pos.eqb procNull procGetAttr procLookup procAccess procReadlink procReaddir procReaddirPlus procFSStat procFSInfo procPathconf];
    try solve [apply query_decoding; asking]; try solve [asking]. by apply elem_of_nil in Hi.
Qed.

(** ** The server *)

Context (export : string) (iter : mountTable -> list (string * string)).
Let srv := nfsServer verf export iter.

(** The new names an arriving record carries are text. *)
Definition arrivalText (a : arrival (nfsEnv E)) : Prop :=
  match classify srv (arConn a) (arRec a) with
  | Run k _ _ r => kProg k = ProgramNFS -> Forall text (callText (arEnv a) (kProc k) r)
  | _ => True
  end.

Lemma classify_handler {S' E'} (srv' : Server S' E') connID rec k h cred r :
  classify srv' connID rec = Run k h cred r -> programs srv' !! (kProg k, kVers k) = Some h.
Proof using Type.
  unfold classify. destruct (Reader.Uint32 (NewReader rec)) as [xid r1]. destruct (Reader.Uint32 r1) as [mtype r2].
  destruct (_ || _); [done|].
  destruct (Reader.Uint32 r2) as [rpcvers r3], (Reader.Uint32 r3) as [prog r4], (Reader.Uint32 r4) as [vers r5], (Reader.Uint32 r5) as [proc r6].
  destruct (negb _); [done|]. destruct (negb _); [done|].
  destruct (readCred r6) as [[cred'|?] r7]; [|done]. destruct (readOpaqueAuth r7) as [[?|?] r8]; [|done].
  destruct (programs srv' !! (prog, vers)) as [h'|] eqn:Eh.
  - destruct (HasProc h' proc); [|done]. by intros [= <- <- <- <-].
  - destruct (default [] _); [done|]. by destruct (versionRange _).
Qed.

(** The programs of the server: NFS on the filesystem, MOUNT on its own table. *)
Lemma srv_handlers k h : programs srv !! (kProg k, kVers k) = Some h ->
  (kProg k = ProgramNFS /\ h = onSnd (nfsHandler verf)) \/ h = mountHandler (exportOf export) iter.
Proof using Type.
  unfold srv, nfsServer, Register, NewServer. cbn [programs]. rewrite lookup_insert. case_decide as H1; [intros [= <-]; by right|].
  rewrite lookup_insert. case_decide as H2; [|by rewrite lookup_empty]. intros [= <-]. injection H2 as H2 _. by left.
Qed.

Lemma mountCall_fs ex p cred r t s : (mountCall ex iter p cred r (t, s)).2.2 = s.
Proof using Type.
  unfold mountCall. destruct (Reader.String r) as [path r1]. by repeat case_match; simplify_eq.
Qed.

Lemma dispatch_spends n a c t s reply c' t' s' :
  0 <= n -> arrivalText a -> I (n + 2) s ->
  dispatch srv (arConn a) (arRec a) (arNow1 a) (arNow2 a) (arEnv a) (c, (t, s)) = (reply, (c', (t', s'))) -> I n s'.
Proof using Q K.
  intros Hn Ht Hs. assert (Hw : I n s) by (eapply k_weaken; [|done]; lia). unfold arrivalText in Ht. unfold dispatch.
  destruct (classify srv (arConn a) (arRec a)) as [|?|k h cred r] eqn:Ec; [by intros [= <- <- <- <-]..|].
  assert (Hcall : forall out t1 s1, Call h (arEnv a) (kProc k) cred r (t, s) = (out, (t1, s1)) -> I n s1).
  { intros out t1 s1. destruct (srv_handlers k h (classify_handler _ _ _ _ _ _ _ Ec)) as [[Hp ->]| ->].
    - cbn [onSnd Call nfsHandler snd fst]. pose proof (nfsCall_spends (arEnv a) (kProc k) cred r (Ht Hp) n s Hn Hs) as Hk.
      destruct (nfsCall verf (arEnv a) (kProc k) cred r s) as [b s2]. by intros [= <- <- <-].
    - cbn [mountHandler Call]. pose proof (mountCall_fs (exportOf export) (kProc k) cred r t s) as Hm.
      destruct (mountCall _ _ _ _ _ _) as [b [t2 s2]]. simpl in Hm. subst s2. by intros [= <- <- <-]. }
  destruct (Call h (arEnv a) (kProc k) cred r (t, s)) as [out [t1 s1]]. specialize (Hcall out t1 s1 eq_refl).
  destruct (Idempotent h (kProc k)); [by intros [= <- <- <- <-]|].
  destruct (begin (arNow1 a) k c) as [[p st] c2]. by destruct p, st; intros [= <- <- <- <-].
Qed.

Lemma serve_spends l c t s :
  Forall arrivalText l -> I (2 * blen l) s -> I 0 (serve srv l (c, (t, s))).2.2.
Proof using Q K.
  revert c t s. induction l as [|a l IH]; intros c t s Ht Hs; [exact Hs|].
  apply list.Forall_cons in Ht as [Ha Ht]. change (serve srv (a :: l) (c, (t, s))) with (serve srv l (serve1 srv (c, (t, s)) a)). unfold serve1.
  destruct (dispatch srv (arConn a) (arRec a) (arNow1 a) (arNow2 a) (arEnv a) (c, (t, s))) as [rp [c1 [t1 s1]]] eqn:Ed.
  apply IH; [done|]. eapply dispatch_spends; [|exact Ha| |exact Ed]; [apply Z.mul_nonneg_nonneg; [lia|apply blen_nonneg]|].
  unfold blen in *. simpl in Hs. eapply k_weaken; [|exact Hs]. lia.
Qed.

End Keeps.

(** ** A client's view of the replies *)

(** The value a decode gives, if the bytes were enough. *)
Definition decodes {A} (p : rd A) (b : bytes) : option A :=
  let (a, r) := p (NewReader b) in match rErr r with None => Some a | Some _ => None end.

(** Whether this is the successful reply to call [xid]. *)
Definition getAccepted (xid : Z) : rd bool :=
  let^ x := Reader.Uint32 in
  let^ m := Reader.Uint32 in
  let^ st := Reader.Uint32 in
  let^ _ := Reader.Uint32 in
  let^ _ := Reader.Opaque in
  let^ acc := Reader.Uint32 in
  rret ((x =? xid) && (m =? replyMsg) && (st =? msgAccepted) && (acc =? success)).

Definition unmarshal {A} (xid : Z) (p : rd (option A)) (b : bytes) : option A :=
  match decodes (let^ ok := getAccepted xid in if ok then p else rret None) b with Some (Some a) => Some a | _ => None end.

(** A result whose status is OK. *)
Definition getOK {A} (p : rd A) : rd (option A) :=
  let^ st := Reader.Uint32 in if st =? status_code OK then let^ a := p in rret (Some a) else rret None.

(** Attributes, not looked into. *)
Definition getRawAttr : rd (option bytes) := getOpt (Reader.Fixed 84).
Definition getRawWcc : rd (option bytes * option bytes) :=
  let^ b := getOpt (Reader.Fixed 24) in let^ a := getRawAttr in rret (b, a).

Definition getWriteReply : rd (option (Z * Z * bytes)) := getOK (
  let^ _ := getRawWcc in
  let^ n := Reader.Uint32 in
  let^ how := Reader.Uint32 in
  let^ vf := Reader.Fixed 8 in
  rret (n, how, vf)).

Definition getReadReply : rd (option (bytes * bool)) := getOK (
  let^ _ := getRawAttr in
  let^ _ := Reader.Uint32 in
  let^ eof := Reader.Bool in
  let^ data := Reader.Opaque in
  rret (data, eof)).

Lemma reads_fixed4 b n : n = blen b -> n mod 4 = 0 -> reads (Reader.Fixed n) b b.
Proof.
  intros Hn H4. assert (Hp : Writer.Fixed b = b).
  { unfold Writer.Fixed, Writer.pad, padLen. rewrite <- Hn, H4. apply app_nil_r. }
  rewrite <- Hp at 1. by apply reads_fixed.
Qed.

Lemma blen_putTime t : blen (putTime t) = 8.
Proof. unfold putTime. by destruct (t =? zeroTime). Qed.

Lemma blen_putFattr a : blen (putFattr a) = 84.
Proof. unfold putFattr. rewrite !blen_app, !blen_putTime. reflexivity. Qed.

Lemma reads_rawAttr a : reads getRawAttr (putPostOpAttr a) (putFattr <$> a).
Proof.
  pose proof (reads_opt (Reader.Fixed 84) id (putFattr <$> a)) as H. destruct a as [a|]; apply H; [|done].
  apply reads_fixed4; [by rewrite blen_putFattr|done].
Qed.

Lemma reads_rawWcc b a : exists v, reads getRawWcc (putWccData b a) v.
Proof.
  unfold getRawWcc, putWccData.
  assert (Hb : exists o, reads (getOpt (Reader.Fixed 24)) (match b with
    | Some b => Writer.Bool true ++ Writer.Uint64 (wccSize b) ++ putTime (wccMTime b) ++ putTime (wccCTime b)
    | None => Writer.Bool false end) o).
  { destruct b as [b|]; [|exists None; by apply (reads_opt (Reader.Fixed 24) id None)].
    set (x := Writer.Uint64 (wccSize b) ++ _). exists (Some x). apply (reads_opt (Reader.Fixed 24) id (Some x)).
    apply reads_fixed4; [|done]. unfold x. by rewrite !blen_app, !blen_putTime. }
  destruct Hb as [o Hb]. eexists. eapply reads_bind; [exact Hb|]. apply (reads_map _ (pair o)), reads_rawAttr.
Qed.

(** A decode that finds fewer than four bytes fails, and so does all after it. *)
Lemma starved r : fine r -> blen (rest r) < 4 -> rErr (Reader.Uint32 r).2 ≠ None.
Proof.
  intros [He Hb] Hl. unfold rest in Hl. rewrite blen_drop in Hl by lia. unfold Reader.Uint32, rbind, Reader.take. rewrite He.
  destruct (Z.ltb_spec 4 0), (Z.ltb_spec (blen (rBuf r)) (rOff r + 4)); try lia. simpl. unfold Reader.fail. by rewrite He.
Qed.

Lemma failed_stays {A B} (p : rd A) (k : A -> rd B) r :
  within r -> safe p -> (forall a, safe (k a)) -> rErr (p r).2 ≠ None -> rErr (rbind p k r).2 ≠ None.
Proof.
  intros Hw Hp Hk. unfold rbind. pose proof (advances_within _ _ Hw (Hp r Hw)) as Hw1. destruct (p r) as [a r1]. simpl in *. intros He.
  by rewrite (ad_err _ _ (Hk a r1 Hw1) He).
Qed.

(** What a client makes of a successful reply is what the decode makes of its
    body, with up to three bytes of padding after it. *)
Lemma unmarshal_reply {A} xid (p : rd (option A)) body a :
  is_u32 xid -> unmarshal xid p (encodeReply xid (CallOk body)) = Some a ->
  exists r pad, fine r /\ rest r = body ++ pad /\ blen pad < 4 /\ (p r).1 = Some a /\ rErr (p r).2 = None.
Proof.
  intros Hx. unfold unmarshal, decodes, encodeReply, replyHeader, Writer.Fixed. rewrite <- !app_assoc.
  set (rp := Writer.Uint32 xid ++ _). set (pad := Writer.pad (blen body)).
  assert (Hacc : reads (getAccepted xid) (Writer.Uint32 xid ++ Writer.Uint32 replyMsg ++ Writer.Uint32 msgAccepted ++
    Writer.Uint32 authNone ++ Writer.Uint32 0 ++ Writer.Uint32 success) true).
  { unfold getAccepted. eapply reads_bind; [by apply reads_uint32|].
    do 3 (eapply reads_bind; [apply reads_uint32; split; discriminate || reflexivity|]).
    eapply (reads_bind Reader.Opaque _ (Writer.Uint32 0)); [by apply (reads_opaque [])|].
    rewrite Z.eqb_refl. apply (reads_map Reader.Uint32 (fun acc => acc =? success) _ success), reads_uint32. by split. }
  assert (F0 : fine (NewReader rp)) by (split; simpl; [done|split; [lia|apply blen_nonneg]]).
  destruct (Hacc (NewReader rp) (body ++ pad) F0) as (r&Hr&Fr&Rr); [change (rest (NewReader rp)) with rp; by rewrite <- !app_assoc|].
  unfold rbind. rewrite Hr. destruct (p r) as [[v|] r1] eqn:Ep; destruct (rErr r1) eqn:Er; try done. intros [= <-].
  exists r, pad. rewrite Ep. split_and!; try done. unfold pad, Writer.pad. pose proof (padLen_range (blen body)). rewrite blen_zeros; lia.
Qed.

Lemma safe_opt {A} (p : rd A) : safe p -> safe (getOpt p).
Proof. intros Hp. unfold getOpt. decoder. Qed.
#[export] Hint Resolve safe_opt : xdr.

Lemma fine_within r : fine r -> within r.
Proof. by intros [_ H]. Qed.

Lemma status_u32 s : is_u32 (status_code s).
Proof. destruct s; split; discriminate || reflexivity. Qed.

Lemma status_ok s : status_code s = status_code OK -> s = OK.
Proof. by destruct s. Qed.

(** A client that gets a value out of a result of [status] and [tl] found OK. *)
Lemma getOK_inv {A} (p : rd A) s tl r a :
  fine r -> rest r = putStatus s ++ tl -> (getOK p r).1 = Some a -> rErr (getOK p r).2 = None ->
  s = OK /\ exists r', fine r' /\ rest r' = tl /\ (p r').1 = a /\ rErr (p r').2 = None.
Proof.
  intros Hf Hr. unfold getOK, rbind. destruct (reads_uint32 _ (status_u32 s) r tl Hf Hr) as (r1&->&F1&R1).
  destruct (Z.eqb_spec (status_code s) (status_code OK)) as [Hs%status_ok|]; [|done]. destruct (p r1) as [v r2] eqn:Ep. intros [= <-] He.
  split; [done|]. exists r1. by rewrite Ep.
Qed.

(** A decode of [e] and then of a word, where nothing comes after [e]. *)
Lemma cut_short {A B} (p : rd A) (k : A -> Z -> rd B) e v r pad :
  reads p e v -> (forall a w, safe (k a w)) -> fine r -> rest r = e ++ pad -> blen pad < 4 ->
  rErr ((let^ a := p in let^ w := Reader.Uint32 in k a w) r).2 ≠ None.
Proof.
  intros Hp Hk Hf Hr Hpad. destruct (Hp r pad Hf Hr) as (r1&E1&F1&R1). unfold rbind at 1. rewrite E1.
  apply failed_stays; [by apply fine_within|apply safe_uint32|apply Hk|]. apply starved; [done|by rewrite R1].
Qed.

Section Replies.
Context {S E : Type} {V : VfsFS S E} {Q : VfsQueries S E} (verf : bytes).

Lemma attrOf_same h s : (attrOf h s).2 = s.
Proof using Q. apply attrOf_query. Qed.

Lemma reply_inv b b' (s s' : S) : reply b s = (Some b', s') -> b' = b /\ s' = s.
Proof using Type. by intros [= <- <-]. Qed.

(** A reply to WRITE a client accepts says what the filesystem answered. *)
Lemma write_answer e c h off count how data r s r0 pad k st vf body s' :
  reads getWriteArgs (rest r) (Some (h, off, count, how, data)) -> fine r ->
  write verf e c r s = (Some body, s') ->
  fine r0 -> rest r0 = body ++ pad -> blen pad < 4 ->
  (getWriteReply r0).1 = Some (k, st, vf) -> rErr (getWriteReply r0).2 = None ->
  let n := Z.min (Z.min count (u32 (blen data))) maxWriteSize in
  exists n' st', vWrite (neFS e) c h off (btake n data) how s = (Ok (n', st'), s') /\ (is_u32 n' -> k = n').
Proof using Q.
  intros Hargs Hr Hw F0 R0 Hpad Hk He n. unfold write, decoding in Hw.
  destruct (Hargs r [] Hr ltac:(by rewrite app_nil_r)) as (r'&Hd&_). rewrite Hd in Hw. cbn [fst] in Hw.
  replace (if maxWriteSize <? _ then maxWriteSize else _) with n in Hw
    by (unfold n; destruct (Z.ltb_spec (u32 (blen data)) count), (Z.ltb_spec maxWriteSize (u32 (blen data))), (Z.ltb_spec maxWriteSize count); lia).
  unfold pbind at 1 in Hw. pose proof (attrOf_same h s) as Ha. destruct (attrOf h s) as [b s0]. simpl in Ha. subst s0.
  unfold pbind at 1 in Hw. destruct (vWrite (neFS e) c h off (btake n data) how s) as [res s1].
  assert (Hs' : s1 = s').
  { destruct res as [[n1 st1]|er]; unfold pbind in Hw; pose proof (attrOf_same h s1) as Ha; destruct (attrOf h s1) as [a s2];
      simpl in Ha; apply reply_inv in Hw as [_ ->]; done. }
  subst s1. destruct res as [[n1 st1]|er]; unfold pbind in Hw; destruct (attrOf h s') as [a s2]; apply reply_inv in Hw as [-> _].
  - exists n1, st1. split; [done|]. intros Hu. rewrite <- app_assoc in R0. destruct (getOK_inv _ _ _ _ _ F0 R0 Hk He) as (_&r2&F2&R2&V2&E2).
    destruct (reads_rawWcc (wccFrom b) a) as [v Hv]. rewrite <- !app_assoc in R2. clear E2.
    revert V2. destruct (Hv r2 _ F2 R2) as (r3&E3&F3&R3). unfold rbind at 1. rewrite E3.
    destruct (reads_uint32 n1 Hu r3 _ F3 R3) as (r4&E4&F4&R4). unfold rbind at 1. rewrite E4.
    unfold rbind. destruct (Reader.Uint32 r4) as [w5 r5], (Reader.Fixed 8 r5) as [w6 r6]. by intros [= ->].
  - exfalso. rewrite <- app_assoc in R0. destruct (getOK_inv _ _ _ _ _ F0 R0 Hk He) as (_&r2&F2&R2&_&E2).
    destruct (reads_rawWcc (wccFrom b) a) as [v Hv]. revert E2. eapply (cut_short getRawWcc); [exact Hv| |exact F2|exact R2|done].
    intros. decoder.
Qed.

(** A reply to READ a client accepts carries what the filesystem answered. *)
Lemma read_answer c h off count r s r0 pad out eof body s' :
  reads getRangeArgs (rest r) (Some (h, off, count)) -> fine r -> read c r s = (Some body, s') ->
  fine r0 -> rest r0 = body ++ pad -> blen pad < 4 ->
  (getReadReply r0).1 = Some (out, eof) -> rErr (getReadReply r0).2 = None ->
  exists data eof', vRead c h off (Z.min count maxReadSize) s = (Ok (data, eof'), s') /\ (blen data <= maxVarLen -> out = data /\ eof = eof').
Proof using Q.
  intros Hargs Hr Hw F0 R0 Hpad Hk He. unfold read, decoding in Hw.
  destruct (Hargs r [] Hr ltac:(by rewrite app_nil_r)) as (r'&Hd&_). rewrite Hd in Hw. cbn [fst] in Hw.
  replace (if maxReadSize <? count then maxReadSize else count) with (Z.min count maxReadSize) in Hw
    by (destruct (Z.ltb_spec maxReadSize count); lia).
  unfold pbind at 1 in Hw. destruct (vRead c h off (Z.min count maxReadSize) s) as [res s1].
  destruct res as [[data eof1]|er]; unfold pbind in Hw; pose proof (attrOf_same h s1) as Ha; destruct (attrOf h s1) as [a s2];
    simpl in Ha; subst s2; apply reply_inv in Hw as [-> ->]; rewrite <- app_assoc in R0; destruct (getOK_inv _ _ _ _ _ F0 R0 Hk He) as (_&r2&F2&R2&V2&E2).
  - exists data, eof1. split; [done|]. intros Hb. pose proof (blen_nonneg data). clear E2. rewrite <- !app_assoc in R2.
    revert V2. destruct (reads_rawAttr a r2 _ F2 R2) as (r3&E3&F3&R3). unfold rbind at 1. rewrite E3.
    destruct (reads_uint32 (u32 (blen data)) ltac:(apply u32_range) r3 _ F3 R3) as (r4&E4&F4&R4). unfold rbind at 1. rewrite E4.
    destruct (reads_bool eof1 r4 _ F4 R4) as (r5&E5&F5&R5). unfold rbind at 1. rewrite E5.
    destruct (reads_opaque data Hb r5 _ F5 R5) as (r6&E6&_). unfold rbind. rewrite E6. by intros [= -> ->].
  - exfalso. revert E2. eapply (cut_short getRawAttr); [apply reads_rawAttr| |exact F2|exact R2|done]. intros. decoder.
Qed.

End Replies.
