(* ===== verification/Blobfs.v ===== *)
(** * The filesystem behind the procedures

    [blobfs.FS] as an implementation of [vfs.FS]: the operations of [Namespace],
    [ReadDir], [Data], [WritePath] and [Commit] on the state they share, a mount
    and the world of its store. It discharges what [NfsServe] asks of a
    filesystem, with [sound] for the invariant, and so the theorems about whole
    servers hold of it. *)

From Stdlib Require Import Strings.Byte.
From S2P Require Import Prelude Vfs Fsm Modes Policy Inode ChunkCache Budget Store FsState Tree Namespace.
From S2P Require Import NamespaceInv Effects Data DataSpec FileSpec DataInv ReadDir Commit WritePath Durable.
From S2P Require Import CommitSpec SyncSpec Whole System Mount Concrete Demo DataProps Xdr ReplyCache Rpc RpcSpec NfsWire Nfs3 NfsMount NfsSpec NfsServe.

(** What the calls of one request meet: the clock as each operation reads it,
    the ticks of the drains a write waits for, and the tick of its commit. *)
Record fsEnv := mkFsEnv {
  feNow1 : Z; feNow2 : Z; feNow3 : Z; feSetNow : Z; feDrains : list tick; feTick : tick
}.

Section Blobfs.
Context {Cd : Codec} {W : Type} {St : Store W} {Dg : Digest} {Hx : HexDigest} {Ro : RunOrder} {P : Policy}.

(** A query of the mount, an operation on it, and one that reaches the store. *)
Definition asks {A} (g : FS -> A) : prog (FS * W) A := fun s => (g s.1, s).
Definition changes {A} (g : FS -> A * FS) : prog (FS * W) A := fun s => let (a, f) := g s.1 in (a, (f, s.2)).

#[global] Instance blobfs : VfsFS (FS * W) fsEnv := {
  vRoot s := default [] (Root s.1);
  vMaxFileSize s := MaxFileSize s.1;
  vGetAttr h := asks (fun f => GetAttr f h);
  vSetAttr e c h sa := changes (fun f => SetAttr_ f c h sa (feSetNow e));
  vLookup c dir name := asks (fun f => Lookup f c dir name);
  vAccess c h want := asks (fun f => Access f c h want);
  vRead c h off count := Read c h off count;
  vWrite e c h off data how := Write c h off data how (feDrains e) (feNow1 e) (feTick e);
  vCommit e h _ _ := Commit h (feTick e);
  vCreate e c dir name sa excl := changes (fun f => Create f c dir name sa excl (feNow1 e) (feNow2 e));
  vMkdir e c dir name sa := changes (fun f => Mkdir f c dir name sa (feNow1 e) (feNow2 e));
  vSymlink e c dir name target sa := changes (fun f => Symlink f c dir name target sa (feNow1 e) (feNow2 e));
  vReadLink h := asks (fun f => ReadLink f h);
  vRemove e c dir name := changes (fun f => Remove f c dir name (feNow1 e));
  vRmdir e c dir name := changes (fun f => Rmdir f c dir name (feNow1 e));
  vRename e c d1 x d2 y := changes (fun f => Rename f c d1 x d2 y (feNow1 e) (feNow2 e) (feNow3 e));
  vReadDir c dir cookie vf max plus := asks (fun f => ReadDir f c dir cookie vf max plus);
  vFSStat h := asks (fun f => FSStat f h)
}.

#[global] Instance blobfs_queries : VfsQueries (FS * W) fsEnv.
Proof. by split. Qed.

Context {Vw : StoreView W} {Lw : StoreLaws W} {TC : TypeChecked P}.

(** A sound mount with inode numbers left for [n] more objects. *)
Definition soundFor (n : Z) (s : FS * W) : Prop := sound s.1 s.2 /\ nextIno s.1 + n < 2 ^ 64.

(** An operation that [exec] runs spends one inode number at most. *)
Lemma spends_exec {A} (op : sysop) (m : prog (FS * W) A) :
  argsOK op -> (forall s, (m s).2 = (exec op s).2) -> spends soundFor 1 m.
Proof using Lw Hx TC.
  intros Ha Hm n [f w] Hn [Hs Hi]. rewrite Hm. destruct (exec op (f, w)) as [r [f' w']] eqn:E. cbn [fst snd] in *.
  destruct (exec_sound op f w r f' w' Hs ltac:(lia) Ha E) as [H1 H2]. split; cbn [fst snd]; [done|lia].
Qed.

Lemma spends_ns {A} op (g : FS -> A * FS) :
  opText op -> (forall f, (g f).2 = (perform f op).2) -> spends soundFor 1 (changes g).
Proof using Lw Hx TC Ro.
  intros Ht Hg. apply (spends_exec (CallNs op)); [done|]. intros [f w]. unfold changes. simpl. unfold onFS. simpl.
  specialize (Hg f). destruct (g f), (perform f op). simpl in *. by subst.
Qed.

Lemma succeeded_state {A} (m : act W A) s : (m s).2 = (succeeded m s).2.
Proof using Type. unfold succeeded, bind, attempt, ret. by destruct (m s). Qed.

#[global] Instance blobfs_keeps : VfsKeeps (FS * W) fsEnv soundFor (fun s => utf8 s = true).
Proof using Lw Hx TC Ro.
  split.
  - intros n m s Hnm [Hs Hi]. split; [done|lia].
  - intros e c h sa Hsa. apply (spends_exec (CallSetAttr c h sa (feSetNow e))); [done|]. intros [f w]. cbn [exec vSetAttr blobfs].
    unfold changes, onFS. cbn [fst snd]. by destruct (SetAttr_ f c h sa (feSetNow e)).
  - intros c h off count. apply (spends_exec (CallRead c h off count)); [done|]. intros s. apply succeeded_state.
  - intros e c h off data how Ho. apply (spends_exec (CallWrite c h off data how (feDrains e) (feNow1 e) (feTick e))); [done|].
    intros s. apply succeeded_state.
  - intros e h off count. apply (spends_exec (CallCommit h (feTick e))); [done|]. intros s. apply succeeded_state.
  - intros e c dir name sa excl Ht. apply (spends_ns (NCreate c dir name sa excl (feNow1 e) (feNow2 e))); [done|].
    intros f. simpl. by destruct (Create _ _ _ _ _ _ _ _).
  - intros e c dir name sa Ht. apply (spends_ns (NMkdir c dir name sa (feNow1 e) (feNow2 e))); [done|].
    intros f. simpl. by destruct (Mkdir _ _ _ _ _ _ _).
  - intros e c dir name target sa H1 H2. apply (spends_ns (NSymlink c dir name target sa (feNow1 e) (feNow2 e))); [done|].
    intros f. simpl. by destruct (Symlink _ _ _ _ _ _ _ _).
  - intros e c dir name. apply (spends_ns (NRemove c dir name (feNow1 e))); [done|]. intros f. simpl. by destruct (Remove _ _ _ _ _).
  - intros e c dir name. apply (spends_ns (NRmdir c dir name (feNow1 e))); [done|]. intros f. simpl. by destruct (Rmdir _ _ _ _ _).
  - intros e c d1 x d2 y Ht. apply (spends_ns (NRename c d1 x d2 y (feNow1 e) (feNow2 e) (feNow3 e))); [done|].
    intros f. simpl. by destruct (Rename _ _ _ _ _ _ _ _ _).
Qed.

(** C18 A server of a sound mount keeps it sound: whatever records arrive on
    whatever connections, well formed or not, for whatever programs, and
    whichever store calls fail, the mount and its bucket stay sound, as long as
    the new names sent are text and inode numbers are left. *)
Theorem server_keeps_sound verf export iter calls c t f w :
  sound f w -> nextIno f + 2 * blen calls < 2 ^ 64 ->
  Forall (arrivalText (fun s => utf8 s = true) verf export iter) calls ->
  let s := (serve (nfsServer verf export iter) calls (c, (t, (f, w)))).2.2 in sound s.1 s.2.
Proof using Lw Hx TC Ro.
  intros Hs Hn Ht s. pose proof (serve_spends soundFor (fun s => utf8 s = true) verf export iter calls c t (f, w) Ht (conj Hs Hn)) as H.
  exact (proj1 H).
Qed.

(** ** Calls by their records *)

(** An idempotent call of NFS is run on its arguments, and its reply sent. *)
Lemma dispatch_nfs verf export iter conn xid p stamp cred args now1 now2 e c t s :
  is_u32 xid -> is_u32 stamp -> credOK cred -> is_u32 p -> p <? procCount = true -> nfsIdempotent p = true ->
  exists r, fine r /\ rest r = args /\
    dispatch (nfsServer verf export iter) conn (callRecord xid ProgramNFS VersionNFS p stamp cred args) now1 now2 e (c, (t, s)) =
    (let (b, s') := nfsCall verf e p cred r s in
     (Some (encodeReply xid (match b with Some b => CallOk b | None => CallGarbage end)), (c, (t, s')))).
Proof using Type.
  intros Hx' Hst Hc Hp Hk Hi. set (srv := nfsServer verf export iter).
  assert (Hh : programs srv !! (ProgramNFS, VersionNFS) = Some (onSnd (nfsHandler verf))) by done.
  destruct (classify_call srv conn xid ProgramNFS VersionNFS p stamp cred args) as (r&Hf&Hr&Hcl); try done; [by split..|].
  exists r. split; [done|]. split; [done|]. unfold dispatch. rewrite Hcl, Hh. cbn [HasProc onSnd nfsHandler]. rewrite Hk.
  cbn [Idempotent onSnd nfsHandler kProc kXid]. rewrite Hi. cbn [Call onSnd nfsHandler fst snd].
  by destruct (nfsCall verf e p cred r s) as [b s'].
Qed.

(** A WRITE a client is told succeeded, by its record and the reply to it. *)
Lemma write_record verf export iter conn xid stamp cred h off data how now1 now2 e c t f w rp c1 t1 f1 w1 k st vf :
  sound f w -> is_u32 xid -> is_u32 stamp -> credOK cred -> handleOK h -> is_u64 off -> 0 < blen data <= maxVarLen ->
  dispatch (nfsServer verf export iter) conn
    (callRecord xid ProgramNFS VersionNFS procWrite stamp cred (putWrite h off (blen data) how data)) now1 now2 e (c, (t, (f, w)))
    = (Some rp, (c1, (t1, (f1, w1)))) ->
  unmarshal xid getWriteReply rp = Some (k, st, vf) ->
  exists n st', n = Z.min (blen data) maxWriteSize /\
    Write (callerFrom cred) h off (btake n data) how (feDrains (neFS e)) (feNow1 (neFS e)) (feTick (neFS e)) (f, w)
      = (Ok (k, st'), (f1, w1)).
Proof using Lw Hx.
  intros Hs Hxid Hst Hc Hh Ho Hd. assert (Hu : is_u32 (blen data)).
  { unfold is_u32. assert (maxVarLen < 2 ^ 32) by done. lia. }
  destruct (dispatch_nfs verf export iter conn xid procWrite stamp cred (putWrite h off (blen data) how data) now1 now2 e c t (f, w)
    Hxid Hst Hc ltac:(by split) eq_refl eq_refl) as (r&Fr&Rr&->).
  change (nfsCall verf e procWrite cred r (f, w)) with (write verf e (callerFrom cred) r (f, w)).
  destruct (write verf e (callerFrom cred) r (f, w)) as [[body|] s1] eqn:Ew.
  2:{ exfalso. revert Ew. unfold write, decoding. pose proof (reads_write h off (blen data) how data Hh Ho Hu ltac:(lia)) as Hrd.
      destruct (Hrd r [] Fr ltac:(by rewrite app_nil_r)) as (r'&->&_). cbn [fst]. set (m := pbind _ _). intros E.
      assert (Hm : replies m) by (unfold m; apply replies_bind; intros; apply replies_bind; intros [[]|]; apply replies_bind; intros; apply replies_reply).
      apply (Hm (f, w)). by rewrite E. }
  intros [= <- <- <- ->] Hun. destruct (unmarshal_reply xid getWriteReply body (k, st, vf) Hxid Hun) as (r0&pad&F0&R0&Hp&Hv&He).
  destruct (write_answer verf e (callerFrom cred) h off (blen data) how data r (f, w) r0 pad k st vf body (f1, w1)) as (n'&st'&Hw&Hn'); try done.
  { rewrite Rr. apply reads_write; try done. lia. }
  rewrite u32_id, Z.min_id in Hw by done. exists (Z.min (blen data) maxWriteSize), st'. split; [done|].
  assert (Hmax : 0 < maxWriteSize < 2 ^ 32) by done. pose proof (blen_take (Z.min (blen data) maxWriteSize) data ltac:(lia)) as Hbt.
  assert (Hb : 0 < blen (btake (Z.min (blen data) maxWriteSize) data) < 2 ^ 32) by (rewrite Hbt; lia).
  cbn [vWrite blobfs] in Hw. destruct (Write_effect _ _ _ _ _ _ _ _ _ _ _ _ _ _ Hs (proj1 Ho) Hb Hw) as (_&_&_&_&_&_&Hk&_).
  rewrite Hn'; [done|]. unfold is_u32. lia.
Qed.

(** A READ that succeeds was of a file, and is bounded by the count. *)
Lemma Read_answers c h off count f w out eof s' :
  sound f w -> 0 <= off -> 0 <= count -> Read c h off count (f, w) = (Ok (out, eof), s') ->
  exists id n, resolve f h = Ok (id, n) /\ blen out = Z.max 0 (Z.min count (iSize n - off)) /\
    forall j, 0 <= j < blen out -> bget out j = contentAt f id n (off + j).
Proof using Type.
  intros [[Hw Hd] _ _ _] Ho Hc. destruct s' as [f' w']. intros Hrun. pose proof Hrun as Hrd. unfold Read in Hrd.
  rewrite (bind_ok _ _ _ f (f, w)) in Hrd by done. apply bind_inv in Hrd as [([id n]&s1&H1&_)|(?&_&?)]; [|done].
  unfold answer in H1. injection H1 as H1 _. unfold readable in H1. destruct (resolve f h) as [[id' n']|] eqn:Er; [|done].
  pose proof (resolve_ok f h id' n' Er) as (Hn&_&_).
  destruct (Read_view c h off count f w out eof f' w' id' n' (do_verify f Hd) (do_cache f Hd) ltac:(pose proof (do_cs f Hd); lia)
    Ho Hc Er (wf_id f id' n' Hw Hn) Hrun) as (_&_&H2&H3&_). by exists id', n'.
Qed.

(** A READ a client is told succeeded. *)
Lemma read_record verf export iter conn xid stamp cred h off count now1 now2 e c t f w rp c1 t1 f1 w1 out eof :
  sound f w -> is_u32 xid -> is_u32 stamp -> credOK cred -> handleOK h -> is_u64 off -> is_u32 count ->
  dispatch (nfsServer verf export iter) conn
    (callRecord xid ProgramNFS VersionNFS procRead stamp cred (putRange h off count)) now1 now2 e (c, (t, (f, w)))
    = (Some rp, (c1, (t1, (f1, w1)))) ->
  unmarshal xid getReadReply rp = Some (out, eof) ->
  Read (callerFrom cred) h off (Z.min count maxReadSize) (f, w) = (Ok (out, eof), (f1, w1)).
Proof using Type.
  intros Hs Hxid Hst Hc Hh Ho Hu.
  destruct (dispatch_nfs verf export iter conn xid procRead stamp cred (putRange h off count) now1 now2 e c t (f, w)
    Hxid Hst Hc ltac:(by split) eq_refl eq_refl) as (r&Fr&Rr&->).
  change (nfsCall verf e procRead cred r (f, w)) with (read (callerFrom cred) r (f, w)).
  pose proof (reads_range h off count Hh Ho Hu) as Hrd.
  destruct (read (callerFrom cred) r (f, w)) as [[body|] s1] eqn:Ew.
  2:{ exfalso. revert Ew. unfold read, decoding. destruct (Hrd r [] Fr ltac:(by rewrite app_nil_r)) as (r'&->&_). cbn [fst].
      set (m := pbind _ _). intros E. assert (Hm : replies m) by (unfold m; apply replies_bind; intros [[]|]; apply replies_bind; intros; apply replies_reply).
      apply (Hm (f, w)). by rewrite E. }
  intros [= <- <- <- ->] Hun. destruct (unmarshal_reply xid getReadReply body (out, eof) Hxid Hun) as (r0&pad&F0&R0&Hp&Hv&He).
  rewrite <- Rr in Hrd. destruct (read_answer (callerFrom cred) h off count r (f, w) r0 pad out eof body (f1, w1)) as (d&eof'&Hw&Hd); try done.
  cbn [vRead blobfs] in Hw.
  assert (Hm : 0 < maxReadSize <= maxVarLen) by done.
  assert (Hc0 : 0 <= Z.min count maxReadSize) by (destruct Hu; lia).
  destruct (Read_answers _ _ _ _ _ _ _ _ _ Hs (proj1 Ho) Hc0 Hw) as (id&n&_&Hl&_).
  destruct (Hd ltac:(lia)) as [-> ->]. exact Hw.
Qed.

(** C17 What is written is read: when a client is told that a WRITE took [k] bytes,
    then [k] is between one and what it sent, and a READ of that range by
    whoever may read the file, on any connection, that succeeds returns exactly
    the first [k] bytes sent; through the whole server, from the bytes of the
    call records to the bytes of the replies. *)
Theorem write_then_read verf export iter conn xid stamp cred h off data how now1 now2 e c t f w rp c1 t1 f1 w1 k st vf
    conn' xid' stamp' cred' now3 now4 e' rp' s2 out eof :
  sound f w -> is_u32 xid -> is_u32 stamp -> credOK cred -> is_u32 xid' -> is_u32 stamp' -> credOK cred' ->
  handleOK h -> is_u64 off -> 0 < blen data <= maxVarLen ->
  dispatch (nfsServer verf export iter) conn
    (callRecord xid ProgramNFS VersionNFS procWrite stamp cred (putWrite h off (blen data) how data)) now1 now2 e (c, (t, (f, w)))
    = (Some rp, (c1, (t1, (f1, w1)))) ->
  unmarshal xid getWriteReply rp = Some (k, st, vf) ->
  dispatch (nfsServer verf export iter) conn'
    (callRecord xid' ProgramNFS VersionNFS procRead stamp' cred' (putRange h off k)) now3 now4 e' (c1, (t1, (f1, w1))) = (Some rp', s2) ->
  unmarshal xid' getReadReply rp' = Some (out, eof) ->
  0 < k <= blen data /\ out = btake k data.
Proof using Lw Hx.
  intros Hs H1 H2 H3 H4 H5 H6 Hh Ho Hd Hw Hwr Hr Hrr.
  destruct (write_record _ _ _ _ _ _ _ _ _ _ _ _ _ _ _ _ _ _ _ _ _ _ _ _ _ _ Hs H1 H2 H3 Hh Ho Hd Hw Hwr) as (n&st'&->&HW).
  assert (Hmax : 0 < maxWriteSize < 2 ^ 32) by done. assert (Heq : maxReadSize = maxWriteSize) by done.
  set (m := Z.min (blen data) maxWriteSize) in *. assert (Hb : blen (btake m data) = m) by (rewrite blen_take; lia).
  assert (Hm : 0 < m <= blen data /\ m <= maxWriteSize) by lia. clearbody m.
  assert (Hb' : 0 < blen (btake m data) < 2 ^ 32) by (rewrite Hb; lia).
  destruct (Write_effect _ _ _ _ _ _ _ _ _ _ _ _ _ _ Hs (proj1 Ho) Hb' HW)
    as (Hs1&id&n0&n1&_&Hr1&Hk&_&Hsz&Hv&_). rewrite Hb in Hk.
  destruct s2 as [c2 [t2 [f2 w2]]]. assert (Hku : is_u32 k) by (unfold is_u32; lia). assert (Hk0 : 0 <= k) by lia.
  pose proof (read_record _ _ _ _ _ _ _ _ _ _ _ _ _ _ _ _ _ _ _ _ _ _ _ _ Hs1 H4 H5 H6 Hh Ho Hku Hr Hrr) as HR.
  rewrite Z.min_l in HR by lia.
  destruct (Read_answers _ _ _ _ _ _ _ _ _ Hs1 (proj1 Ho) Hk0 HR) as (id'&n'&Hr'&Hl&Hc). assert (id' = id /\ n' = n1) as [-> ->] by (split; congruence).
  split; [lia|]. assert (Hlen : blen out = k) by (rewrite Hl, Hsz; lia). apply bytes_ext; [rewrite blen_take; lia|].
  intros j Hj. destruct Ho. rewrite Hc by done. rewrite Hv by lia. rewrite decide_True by lia. rewrite !bget_take.
  replace (off + j - off) with j by lia. destruct (Z.ltb_spec j m), (Z.ltb_spec j k); lia || done.
Qed.


End Blobfs.
