(* ===== verification/Contract.v ===== *)
(** * What vfs.FS promises the NFS server, and what the server makes of it

    [VfsContract] states the promises written beside the methods of [vfs.FS]
    (internal/vfs/vfs.go) for an implementation whose states satisfy [ok].
    [blobfs_contract] is the proof that the filesystem keeps it. What replies tell
    a client is read off the contract alone; [removed_name_stale] is of the
    filesystem itself, and of every call after the removal. *)

From Stdlib Require Import Strings.Byte.
From S2P Require Import Prelude Vfs Fsm Modes Policy Inode ChunkCache Budget Store FsState Tree Namespace.
From S2P Require Import NamespaceInv NamespaceSpec Effects Data DataSpec FileSpec DataInv ReadDir Commit WritePath Keeps Durable.
From S2P Require Import CommitSpec SyncSpec Whole System Mount Concrete Demo DataProps.
From S2P Require Import Xdr ReplyCache Rpc RpcSpec NfsWire Nfs3 NfsMount NfsSpec NfsServe Blobfs.

(** An error that is not mistaken for success on the wire. *)
Definition honest {A} (r : result A) : Prop := match r with Ok _ => True | Err e => statusOf (Some e) ≠ OK end.

Class VfsContract (S E : Type) {V : VfsFS S E} (ok : S -> Prop) : Prop := {
  (* SetAttr applies every attribute or none, and none above the limit. *)
  vc_setattr_atomic e c h sa s er s' : ok s -> (forall size, saSize sa = Some size -> is_u64 size) -> vSetAttr e c h sa s = (Err er, s') -> s' = s;
  vc_setattr_limit e c h sa s size :
    ok s -> saSize sa = Some size -> vMaxFileSize s < size -> exists er, vSetAttr e c h sa s = (Err er, s);
  (* Write writes no byte at or past the limit. *)
  vc_write_refused e c h off data how s :
    ok s -> 0 < blen data -> vMaxFileSize s <= off -> exists er, vWrite e c h off data how s = (Err er, s);
  vc_write_short e c h off data how s n st s' :
    ok s -> 0 <= off -> 0 < blen data < 2 ^ 32 -> vWrite e c h off data how s = (Ok (n, st), s') ->
    0 < n <= blen data /\ off + n <= vMaxFileSize s;
  (* Create creates nothing with a size above the limit. *)
  vc_create_limit e c dir name sa excl s size :
    ok s -> saSize sa = Some size -> vMaxFileSize s < size -> exists er, vCreate e c dir name sa excl s = (Err er, s);
  (* An object left with no name is gone. *)
  vc_removed e c c' dir name s h a s' :
    ok s -> (vLookup c dir name s).1 = Ok (h, a) -> vRemove e c' dir name s = (Ok tt, s') -> (vGetAttr h s').1 = Err (EStatus ErrStale);
  vc_rmdired e c c' dir name s h a s' :
    ok s -> (vLookup c dir name s).1 = Ok (h, a) -> vRmdir e c' dir name s = (Ok tt, s') -> (vGetAttr h s').1 = Err (EStatus ErrStale);
  vc_replaced e c c1 c2 d1 x d2 y s h a h2 a2 s' :
    ok s -> (vLookup c1 d1 x s).1 = Ok (h, a) -> (vLookup c2 d2 y s).1 = Ok (h2, a2) -> h2 ≠ h ->
    vRename e c d1 x d2 y s = (Ok tt, s') -> (vGetAttr h2 s').1 = Err (EStatus ErrStale);
  (* The object Rename moves keeps its handle. *)
  vc_renamed e c c1 d1 x d2 y s h a s' :
    ok s -> (vLookup c1 d1 x s).1 = Ok (h, a) -> vRename e c d1 x d2 y s = (Ok tt, s') -> exists a', (vGetAttr h s').1 = Ok a';
  (* A handle fits the protocol. *)
  vc_lookup_handle c dir name s h a : (vLookup c dir name s).1 = Ok (h, a) -> handleOK h;
  (* The errors of what takes a name away, and of what finds one. *)
  vc_lookup_honest c dir name s : honest (vLookup c dir name s).1;
  vc_remove_honest e c dir name s : honest (vRemove e c dir name s).1;
  vc_rmdir_honest e c dir name s : honest (vRmdir e c dir name s).1
}.

(** A policy whose refusals are not mistaken for success. *)
Class HonestPolicy (P : Policy) : Prop := hp_check : forall r e, Check r = Some e -> statusOf (Some e) ≠ OK.

#[global] Instance Unix_honest : HonestPolicy Unix.
Proof.
  intros r e. unfold Check, Unix, unixCheck, fileAccess, dirAccess. destruct (rOp r); repeat case_match; intros [= <-]; discriminate.
Qed.

Section Blobfs.
Context {Cd : Codec} {W : Type} {St : Store W} {Vw : StoreView W} {Lw : StoreLaws W}
  {Dg : Digest} {Hx : HexDigest} {Ro : RunOrder} {P : Policy} {TC : TypeChecked P} {HP : HonestPolicy P}.

Definition soundState (s : FS * W) : Prop := sound s.1 s.2.

Lemma soundState_pair f w : sound f w -> soundState (f, w).
Proof using Type. done. Qed.

(** The handle a name was found under. *)
Lemma Lookup_entry f c dir name h a did d id n :
  wf f -> validName name = None -> resolve f dir = Ok (did, d) -> iEntries d !! name = Some id -> inodes f !! id = Some n ->
  Lookup f c dir name = Ok (h, a) -> h = encodeHandle id (iGen n).
Proof using Type.
  intros Hw Hv Hr Hx' Hn. destruct (validName_dots name Hv) as [E1 E2]. unfold Lookup. rewrite Hr. cbn [res_bind].
  destruct (checkPerm OpLookup c d); [done|]. rewrite E1, E2, Hx', Hn, (wf_id f id n Hw Hn). by intros [= <- _].
Qed.

Lemma unlink_honest f c dir name wantDir now : honest (unlink f c dir name wantDir now).1.
Proof using HP.
  unfold unlink. destruct (mutable f) eqn:Em; [unfold mutable, mutableMode in Em; destruct (mode f); simplify_eq; done|].
  destruct (validName name) eqn:Ev; [unfold validName in Ev; repeat case_match; simplify_eq; done|].
  destruct (resolve f dir) as [[did d]|er] eqn:Er; [|unfold resolve in Er; repeat case_match; simplify_eq; done].
  destruct (checkPerm OpRemoveEntry c d) eqn:Ec; [exact (hp_check _ _ Ec)|]. by repeat case_match.
Qed.

Lemma Lookup_honest f c dir name : honest (Lookup f c dir name).
Proof using HP.
  unfold Lookup. destruct (resolve f dir) as [[did d]|er] eqn:Er; [|unfold resolve in Er; repeat case_match; simplify_eq; done].
  cbn [res_bind]. destruct (checkPerm OpLookup c d) eqn:Ec; [exact (hp_check _ _ Ec)|]. by repeat case_match.
Qed.

Lemma changes_inv {A} (g : FS -> A * FS) f w a (s' : FS * W) : changes g (f, w) = (a, s') -> g f = (a, s'.1) /\ s'.2 = w.
Proof using Type. unfold changes. simpl. destruct (g f). by intros [= <- <-]. Qed.

Lemma removed_stale wantDir now f w c c' dir name h a f' :
  sound f w -> Lookup f c dir name = Ok (h, a) -> unlink f c' dir name wantDir now = (Ok tt, f') -> GetAttr f' h = Err (EStatus ErrStale).
Proof using Type.
  intros [[Hw _] _ _ _] Hl Hu. apply unlink_gone in Hu as (did&d&id&n&Hv&Hr&Hx'&Hn&_&_&_&Hg); [|done].
  by rewrite (Lookup_entry f c dir name h a did d id n Hw Hv Hr Hx' Hn Hl).
Qed.

(** Where two lookups and a rename met. *)
Lemma names_lookup f did d name id : inodes f !! did = Some d -> names f did name = Some id -> iEntries d !! name = Some id.
Proof using Type. intros Hd. unfold names. by rewrite Hd. Qed.

Lemma renamed_handles f w c c1 d1 x d2 y t1 t2 t3 h a f' :
  sound f w -> Lookup f c1 d1 x = Ok (h, a) -> Rename f c d1 x d2 y t1 t2 t3 = (Ok tt, f') ->
  (exists a', GetAttr f' h = Ok a') /\
  forall c2 h2 a2, Lookup f c2 d2 y = Ok (h2, a2) -> h2 ≠ h -> GetAttr f' h2 = Err (EStatus ErrStale).
Proof using TC.
  intros [[Hw _] _ _ _] Hl Hr. apply Rename_does in Hr as (Hv1&Hv2&sid&src&did&dst&id&moving&Hs&Hd&Hx'&Hm&_&(m&Hres&_)&Hvic); [|done].
  pose proof (resolve_ok _ _ _ _ Hs) as (Hsi&_&_). pose proof (resolve_ok _ _ _ _ Hd) as (Hdi&_&_).
  rewrite (Lookup_entry f c1 d1 x h a sid src id moving Hw Hv1 Hs (names_lookup f sid src x id Hsi Hx') Hm Hl). split.
  - exists (attr (fsid f') m). unfold GetAttr. by rewrite Hres.
  - intros c2 h2 a2 Hl2 Hne. destruct (validName_dots y Hv2) as [E1 E2]. pose proof Hl2 as Hl2'. unfold Lookup in Hl2'. rewrite Hd in Hl2'.
    cbn [res_bind] in Hl2'. destruct (checkPerm OpLookup c2 dst); [done|]. rewrite E1, E2 in Hl2'.
    destruct (iEntries dst !! y) as [v|] eqn:Ey; [|done]. destruct (inodes f !! v) as [victim|] eqn:Ev; [|done].
    rewrite (Lookup_entry f c2 d2 y h2 a2 did dst v victim Hw Hv2 Hd Ey Ev Hl2) in *.
    assert (v ≠ id) by (intros ->; congruence).
    destruct (Hvic v victim) as (_&_&Hg); try done. unfold names. by rewrite Hdi.
Qed.

#[global] Instance blobfs_contract : VfsContract (FS * W) fsEnv soundState.
Proof using Lw Hx TC HP.
  split.
  - intros e c h sa [f w] er [f' w'] Hs Hu Hrun. cbn [vSetAttr blobfs] in Hrun. apply changes_inv in Hrun as [Hrun Hw]. simpl in *. subst w'. f_equal. unfold SetAttr_ in Hrun.
    destruct (mutable f); [by injection Hrun as _ <-|]. destruct (saSize sa) as [size|].
    + by destruct (truncate_inv f c h sa size (feSetNow e) _ f' (so_good f w Hs) (Hu size eq_refl) Hrun) as [_ ->].
    + unfold setAttrNoSize in Hrun. repeat case_match; by simplify_eq.
  - intros e c h sa [f w] size _ Hsa Hlim. cbn [vSetAttr vMaxFileSize blobfs fst] in *. unfold changes, SetAttr_. cbn [fst snd].
    destruct (mutable f) as [er|]; [by exists er|]. rewrite Hsa. unfold truncate, MaxFileSize in *.
    destruct (Z.ltb_spec (maxFileSize (cf f)) size); [by eexists|lia].
  - intros e c h off data how [f w] _ Hd Hlim. cbn [vWrite vMaxFileSize blobfs fst] in *. unfold Write. rewrite (bind_ok _ _ _ f (f, w)) by done.
    destruct (mutable f) as [er|]; [by exists er|]. destruct (Z.eqb_spec (blen data) 0); [lia|]. unfold MaxFileSize in Hlim.
    destruct (Z.leb_spec (maxFileSize (cf f)) off); [by eexists|lia].
  - intros e c h off data how [f w] n st [f' w'] Hs Ho Hd Hrun.
    destruct (Write_effect _ _ _ _ _ _ _ _ _ _ _ _ _ _ Hs Ho Hd Hrun) as (_&_&_&_&_&_&H1&H2&_). done.
  - intros e c dir name sa excl [f w] size _ Hsa Hlim. cbn [vCreate vMaxFileSize blobfs fst] in *. unfold changes, Create, createEntry. cbn [fst snd].
    destruct (mutable f) as [er|]; [by exists er|]. destruct (validName name) as [er|]; [by exists er|].
    unfold tooBig. rewrite Hsa. unfold MaxFileSize in Hlim. destruct (Z.ltb_spec (maxFileSize (cf f)) size); [by eexists|lia].
  - intros e c c' dir name [f w] h a [f' w'] Hs Hl Hrun. cbn [vRemove vRmdir vRename blobfs] in Hrun. apply changes_inv in Hrun as [Hrun _]. exact (removed_stale false _ f w c c' dir name h a f' Hs Hl Hrun).
  - intros e c c' dir name [f w] h a [f' w'] Hs Hl Hrun. cbn [vRemove vRmdir vRename blobfs] in Hrun. apply changes_inv in Hrun as [Hrun _]. exact (removed_stale true _ f w c c' dir name h a f' Hs Hl Hrun).
  - intros e c c1 c2 d1 x d2 y [f w] h a h2 a2 [f' w'] Hs Hl Hl2 Hne Hrun. cbn [vRemove vRmdir vRename blobfs] in Hrun. apply changes_inv in Hrun as [Hrun _].
    destruct (renamed_handles f w c c1 d1 x d2 y _ _ _ h a f' Hs Hl Hrun) as [_ H]. exact (H c2 h2 a2 Hl2 Hne).
  - intros e c c1 d1 x d2 y [f w] h a [f' w'] Hs Hl Hrun. cbn [vRemove vRmdir vRename blobfs] in Hrun. apply changes_inv in Hrun as [Hrun _].
    exact (proj1 (renamed_handles f w c c1 d1 x d2 y _ _ _ h a f' Hs Hl Hrun)).
  - intros c dir name [f w] h a. cbn [vLookup blobfs asks fst]. unfold Lookup. destruct (resolve f dir) as [[did d]|]; [|done]. cbn [res_bind].
    destruct (checkPerm OpLookup c d); [done|]. case_match; [|done]. intros [= <- _]. discriminate.
  - intros c dir name [f w]. apply Lookup_honest.
  - intros e c dir name [f w]. pose proof (unlink_honest f c dir name false (feNow1 e)) as H. cbn [vRemove blobfs]. unfold changes, Remove. simpl.
    by destruct (unlink _ _ _ _ _ _).
  - intros e c dir name [f w]. pose proof (unlink_honest f c dir name true (feNow1 e)) as H. cbn [vRmdir blobfs]. unfold changes, Rmdir. simpl.
    by destruct (unlink _ _ _ _ _ _).
Qed.

End Blobfs.

(** ** A client of any filesystem that keeps the contract *)

Section Client.
Context {S E : Type} {V : VfsFS S E} {Q : VfsQueries S E} (ok : S -> Prop) {C : VfsContract S E ok}.

Definition getLookupReply : rd (option Handle) := getOK Reader.Opaque.

Lemma lookup_answer c dir name r s body s' h :
  (getDirOpArgs r).1 = Some (dir, name) -> lookup c r s = (Some body, s') -> decodes getLookupReply body = Some (Some h) ->
  s' = s /\ exists a, (vLookup c dir name s).1 = Ok (h, a).
Proof using Q C.
  intros Hargs Hrun Hdec. unfold lookup, decoding in Hrun. rewrite Hargs in Hrun. unfold pbind at 1 in Hrun.
  pose proof (q_lookup c dir name s) as Hq. pose proof (vc_lookup_honest (ok := ok) c dir name s) as Hho.
  pose proof (fun h a => vc_lookup_handle (ok := ok) c dir name s h a) as Hlen.
  destruct (vLookup c dir name s) as [res s1]. cbn [fst snd] in *. subst s1. unfold decodes in Hdec.
  assert (F0 : forall b, fine (NewReader b)) by (intros b; split; simpl; [done|split; [lia|apply blen_nonneg]]).
  destruct res as [[h0 a]|er]; unfold pbind in Hrun; pose proof (attrOf_same (E := E) dir s) as Ha; destruct (attrOf dir s) as [d s2];
    simpl in Ha; subst s2; apply reply_inv in Hrun as [-> ->]; (split; [done|]).
  - set (b := putStatus OK ++ _) in *. destruct (getLookupReply (NewReader b)) as [o r1] eqn:Eg. destruct (rErr r1) eqn:He; [done|]. injection Hdec as ->.
    destruct (getOK_inv Reader.Opaque OK _ (NewReader b) h (F0 b) eq_refl) as (_&r2&F2&R2&V2&_); [by unfold getLookupReply in Eg; rewrite Eg..|].
    assert (Hh : blen h0 <= maxVarLen) by (transitivity maxHandleLen; [by eapply Hlen|discriminate]).
    destruct (reads_opaque h0 Hh r2 _ F2 R2) as (r3&E3&_). rewrite E3 in V2. simpl in V2. subst. by exists a.
  - exfalso. set (b := putStatus (statusOf (Some er)) ++ _) in *. destruct (getLookupReply (NewReader b)) as [o r1] eqn:Eg.
    destruct (rErr r1) eqn:He; [done|]. injection Hdec as ->.
    destruct (getOK_inv Reader.Opaque (statusOf (Some er)) _ (NewReader b) h (F0 b) eq_refl) as (Hs&_); [by unfold getLookupReply in Eg; rewrite Eg..|].
    done.
Qed.

Lemma remove_answer e c isDir dir name r s body s' :
  (getDirOpArgs r).1 = Some (dir, name) -> remove e c isDir r s = (Some body, s') ->
  decodes Reader.Uint32 body = Some (status_code OK) ->
  (if isDir then vRmdir (neFS e) c dir name s else vRemove (neFS e) c dir name s) = (Ok tt, s').
Proof using Q C.
  intros Hargs Hrun Hdec. unfold remove, decoding in Hrun. rewrite Hargs in Hrun. unfold pbind at 1 in Hrun.
  pose proof (attrOf_same (E := E) dir s) as Ha. destruct (attrOf dir s) as [b s0]. simpl in Ha. subst s0. unfold pbind at 1 in Hrun.
  assert (Hho : honest ((if isDir then vRmdir (neFS e) c dir name else vRemove (neFS e) c dir name) s).1)
    by (destruct isDir; [apply (vc_rmdir_honest (ok := ok))|apply (vc_remove_honest (ok := ok))]).
  replace (if isDir then vRmdir (neFS e) c dir name s else vRemove (neFS e) c dir name s)
    with ((if isDir then vRmdir (neFS e) c dir name else vRemove (neFS e) c dir name) s) by (by destruct isDir).
  destruct ((if isDir then vRmdir (neFS e) c dir name else vRemove (neFS e) c dir name) s) as [res s1]. unfold pbind in Hrun.
  pose proof (attrOf_same (E := E) dir s1) as Ha. destruct (attrOf dir s1) as [a s2]. simpl in Ha. subst s2. apply reply_inv in Hrun as [-> ->].
  unfold decodes in Hdec. set (x := putStatus (statusOf (errorOf res)) ++ _) in *.
  assert (F0 : fine (NewReader x)) by (split; simpl; [done|split; [lia|apply blen_nonneg]]).
  destruct (reads_uint32 _ (status_u32 (statusOf (errorOf res))) (NewReader x) _ F0 eq_refl) as (r1&E1&[He _]&_).
  rewrite E1, He in Hdec. injection Hdec as Hs%status_ok. destruct res as [[]|er]; [done|]. simpl in Hho. by destruct Hho.
Qed.

End Client.

(** ** A removed object stays gone *)

Section Gone.
Context {Cd : Codec} {W : Type} {St : Store W} {Vw : StoreView W} {Lw : StoreLaws W}
  {Dg : Digest} {Hx : HexDigest} {Ro : RunOrder} {P : Policy} {TC : TypeChecked P} {HP : HonestPolicy P}.

(** The inode number [id] was given out, and names nothing. *)
Definition spent (id : Z) (s : FS * W) : Prop := inodes s.1 !! id = None /\ id < nextIno s.1.

Lemma spent_framed id : framed (spent id).
Proof using Type. split; try done. intros j g f w [H1 H2]. split; [|done]. simpl in *. destruct (decide (j = id)) as [->|Hne]; [by rewrite lookup_alter_eq, H1|by rewrite lookup_alter_ne]. Qed.

Lemma spent_rooted id : rooted (spent id).
Proof using Type.
  split; try done; intros.
  - unfold spent in *. simpl in *. destruct (settleRoot_spec read f _ _ (surjective_pairing _)) as (Hns&_). by rewrite (ns_inodes _ _ Hns), (ns_next _ _ Hns).
  - unfold spent in *. simpl in *. unfold applyLocked, schedulePrune. by destruct (_ || _).
Qed.

Lemma perform_spent id f w op : wf f -> nextIno f + 1 < 2 ^ 64 -> spent id (f, w) -> spent id ((perform f op).2, w).
Proof using TC.
  intros Hw Hn [H1 H2]. simpl in *. destruct (perform_wf f op Hw Hn) as (_&Hge&_). split; simpl; [|lia].
  destruct (inodes (perform f op).2 !! id) as [n'|] eqn:E; [|done]. exfalso.
  assert (Hno : forall g, keepsFiles g (perform f op).2 -> inodes g !! id = None -> False).
  { intros g Hk Hg. destruct (kf_files _ _ Hk id n' E) as (n&Hn'&_). congruence. }
  destruct (perform_effect f op Hw) as [(Hk&_)|(_&[Hk|(n&_&Hk)])]; [by eapply Hno..|]. apply (Hno _ Hk). simpl. rewrite lookup_insert_ne by lia. done.
Qed.

Lemma exec_spent id op f w r f' w' :
  sound f w -> nextIno f + 1 < 2 ^ 64 -> spent id (f, w) -> exec op (f, w) = (r, (f', w')) -> spent id (f', w').
Proof using TC.
  intros Hs Hn Hid Hrun. pose proof (spent_framed id) as Hf. pose proof (Sync_keeps _ Hf _ (rooted_committing _ (spent_rooted id))) as Hc.
  assert (Hp : forall (m : act W bool), keeps (spent id) m -> m (f, w) = (r, (f', w')) -> spent id (f', w')).
  { intros m Hm E. specialize (Hm (f, w) Hid). by rewrite E in Hm. }
  destruct op as [op|c h sa now|c h off count|c h off data how ts now t|h t|t]; cbn [exec] in Hrun; unfold succeeded in Hrun.
  - unfold onFS in Hrun. simpl in Hrun. pose proof (perform_spent id f w op (proj1 (so_good f w Hs)) Hn Hid) as H. destruct (perform f op). by injection Hrun as <- <- <-.
  - unfold onFS in Hrun. simpl in Hrun. assert (H : spent id ((SetAttr_ f c h sa now).2, w)).
    { unfold SetAttr_. destruct (mutable f); [done|]. destruct (saSize sa) as [size|].
      - unfold truncate. destruct (_ <? size); [done|]. destruct (resolve f h) as [[k n]|]; [|done]. destruct (setAttrRequests c n sa); [done|].
        pose proof (getOpen_keeps _ Hf (iID n) f w Hid) as Ho. destruct (getOpen (iID n) f) as [o g]. simpl in Ho.
        destruct (resolve g h) as [[k2 n2]|]; [|done]. destruct (setAttrRequests c n2 sa); [done|]. destruct (resize _ size n2 o) as [[n3 o3] fr].
        destruct (applySetAttr (touchM now n3) sa now) as [n4 b]. simpl. apply (fm_mark _ Hf), (fm_upd _ Hf). unfold setOpen. apply (fm_open _ Hf).
        destruct (0 <? fr); [by apply (fm_charge _ Hf)|done].
      - pose proof (perform_spent id f w (NSetAttr c h sa now) (proj1 (so_good f w Hs)) Hn Hid) as H. simpl in H. by destruct (setAttrNoSize f c h sa now). }
    destruct (SetAttr_ f c h sa now). by injection Hrun as <- <- <-.
  - eapply Hp; [|exact Hrun]. apply keeps_bind; [|intros; apply keeps_ret]. apply keeps_attempt. by apply Read_keeps.
  - eapply Hp; [|exact Hrun]. apply keeps_bind; [|intros; apply keeps_ret]. apply keeps_attempt. apply (Write_keeps _ Hf _ Hc (fun b f w H => H)); [by apply list.Forall_forall|done].
  - eapply Hp; [|exact Hrun]. apply keeps_bind; [|intros; apply keeps_ret]. apply keeps_attempt. by apply (Commit_keeps _ Hf _ Hc).
  - eapply Hp; [|exact Hrun]. apply keeps_bind; [|intros; apply keeps_ret]. apply keeps_attempt. by apply Hc.
Qed.

Lemma execAll_spent id ops f w r f' w' :
  sound f w -> nextIno f + blen ops < 2 ^ 64 -> Forall argsOK ops -> spent id (f, w) -> execAll ops (f, w) = (r, (f', w')) -> spent id (f', w').
Proof using Lw Hx TC.
  unfold execAll. revert f w. induction ops as [|op ops IH]; intros f w Hs Hn Ha Hid Hrun; cbn [forEach_] in Hrun; [by injection Hrun as <- <- <-|].
  apply list.Forall_cons in Ha as [Ha Hf]. unfold blen in Hn. simpl in Hn. destruct (exec op (f, w)) as [r1 [f1 w1]] eqn:E1.
  destruct (exec_sound op f w r1 f1 w1 Hs ltac:(lia) Ha E1) as [Hs1 Hn1]. pose proof (exec_spent id op f w r1 f1 w1 Hs ltac:(lia) Hid E1) as Hid1.
  unfold bind at 1 in Hrun. unfold bind at 1 in Hrun. rewrite E1 in Hrun. destruct r1; simpl in Hrun; [|by injection Hrun as <- <- <-].
  apply (IH f1 w1 Hs1); [unfold blen; lia|done..].
Qed.

Lemma relinkOut_next nid from f : nextIno (relinkOut nid from f) = nextIno f.
Proof using Type.
  unfold relinkOut. destruct (relink nid from None (inodes f)) as [m []]; [|done]. unfold dropOpen. simpl. by destruct (open f !! nid).
Qed.

(** What a removal leaves of the handle the name was found under. *)
Lemma removed_spent wantDir now f w c c' dir name h a f' :
  sound f w -> Lookup f c dir name = Ok (h, a) -> unlink f c' dir name wantDir now = (Ok tt, f') ->
  exists id g, decodeHandle h = Some (id, g) /\ spent id (f', w).
Proof using Type.
  intros [[Hw _] _ _ _] Hl Hu. apply unlink_gone in Hu as (did&d&id&n&Hv&Hr&Hx'&Hn&_&He&Hf'&_); [|done]. exists id, (iGen n).
  pose proof (resolve_ok _ _ _ _ Hr) as (Hd&_&_). rewrite (Lookup_entry f c dir name h a did d id n Hw Hv Hr Hx' Hn Hl). split.
  - apply decode_encode_handle; [by eapply wf_u64|by eapply wf_gens].
  - subst f'. pose proof (wf_ids f Hw id n Hn) as Hlt. split; simpl.
    + rewrite (unlinked_inodes f did d name id n now Hw Hd Hx' Hn (fun _ => He)). by rewrite decide_True.
    + pose proof (relinkOut_next id did (upd did (fun d => touchM now (set_iEntries (delete name (iEntries d)) d)) f)) as E. simpl in E. lia.
Qed.

(** C23 A removed object is gone for every client and for good: once a client has
    looked a name up and been told its handle, and then a REMOVE or RMDIR of the
    name was answered OK, a GETATTR with that handle is answered NFS3ERR_STALE,
    whatever calls the filesystem served between the removal and the GETATTR,
    creations under the same name among them, and whatever of the store failed. *)
Theorem removed_name_stale (e : nfsEnv fsEnv) c c' isDir dir name r1 r2 r3 f w b1 s1 h b2 f2 w2 ops r f3 w3 :
  sound f w -> nextIno f + 1 + blen ops < 2 ^ 64 -> Forall argsOK ops ->
  (getDirOpArgs r1).1 = Some (dir, name) -> (getDirOpArgs r2).1 = Some (dir, name) -> (getHandle r3).1 = Some h ->
  lookup c r1 (f, w) = (Some b1, s1) -> decodes getLookupReply b1 = Some (Some h) ->
  remove e c' isDir r2 s1 = (Some b2, (f2, w2)) -> decodes Reader.Uint32 b2 = Some (status_code OK) ->
  execAll ops (f2, w2) = (r, (f3, w3)) ->
  getattr r3 (f3, w3) = (Some (putStatus ErrStale), (f3, w3)).
Proof using Lw Hx TC HP.
  intros Hs Hn Ha H1 H2 H3 Hl Dl Hr Dr Hrun. destruct (lookup_answer soundState c dir name r1 (f, w) b1 s1 h H1 Hl Dl) as (->&a&Hla).
  pose proof (remove_answer soundState e c' isDir dir name r2 (f, w) b2 (f2, w2) H2 Hr Dr) as Hrm.
  assert (Hrm' : exists wantDir, unlink f c' dir name wantDir (feNow1 (neFS e)) = (Ok tt, f2) /\ w2 = w).
  { destruct isDir; [exists true|exists false]; cbn [vRmdir vRemove blobfs] in Hrm; apply changes_inv in Hrm as [? ?]; by split. }
  destruct Hrm' as (wantDir&Hu&->). destruct (removed_spent wantDir _ f w c c' dir name h a f2 Hs Hla Hu) as (id&g&Hd&Hid).
  assert (Hs2 : sound f2 w /\ nextIno f2 <= nextIno f + 1).
  { pose proof (exec_sound (CallNs (if wantDir then NRmdir c' dir name (feNow1 (neFS e)) else NRemove c' dir name (feNow1 (neFS e)))) f w) as He.
    apply (He (Ok true)); [done|pose proof (blen_nonneg ops); lia|by destruct wantDir|]. destruct wantDir; simpl; unfold onFS; simpl; unfold Rmdir, Remove; by rewrite Hu. }
  destruct Hs2 as [Hs2 Hn2]. destruct (execAll_spent id ops f2 w r f3 w3 Hs2 ltac:(lia) Ha Hid Hrun) as [Hnone _].
  unfold getattr, decoding. rewrite H3. unfold pbind. cbn [vGetAttr blobfs asks fst snd]. unfold GetAttr, resolve. simpl in Hnone. by rewrite Hd, Hnone.
Qed.

End Gone.
