(* ===== verification/NfsProps.v ===== *)
(** * What the server promises its clients

    The remaining properties of the NFSv3 procedures over the filesystem: what
    is safe to execute twice, how large a READDIR reply may get, how a MOUNT
    table answers, and what truncated arguments come to. The witnesses of this
    and the files below it are at the end. *)

From Stdlib Require Import Strings.Byte.
From S2P Require Import Prelude Vfs Fsm Modes Policy Inode ChunkCache Budget Store FsState Tree Namespace.
From S2P Require Import NamespaceInv NamespaceSpec Effects Data DataSpec FileSpec DataInv ReadDir Commit WritePath Durable.
From S2P Require Import CommitSpec SyncSpec Whole System Mount Concrete Demo.
From S2P Require Import Xdr ReplyCache Rpc RpcSpec NfsWire Nfs3 NfsMount NfsSpec NfsServe Blobfs Contract.

(** ** Wire types *)

(** Attributes survive the wire: what the server writes for a file's attributes
    a client reads back as the same attributes, wherever in a reply they are,
    and what a client writes for the attributes to set the server reads as the
    client meant them, the server's clock standing for the times left to it. *)
Theorem attributes_roundtrip a x now1 now2 r tl :
  wireAttr a -> sattrOK x -> fine r ->
  (rest r = putFattr a ++ tl -> exists r', getFattr r = (a, r') /\ rErr r' = None /\ rest r' = tl) /\
  (rest r = putSattr x ++ tl -> exists r', getSattr now1 now2 r = (Some (sattrMeant now1 now2 x), r') /\ rErr r' = None /\ rest r' = tl).
Proof.
  intros Ha Hx Hf. split; intros Hr.
  - destruct (reads_fattr a Ha r tl Hf Hr) as (r'&H1&[H2 _]&H3). by exists r'.
  - destruct (reads_sattr now1 now2 x Hx r tl Hf Hr) as (r'&H1&[H2 _]&H3). by exists r'.
Qed.

(** ** What READDIR may answer *)

Definition perEntry (plus : bool) : Z := if plus then 160 else 32.

Definition entryCost (plus : bool) (e : DirEntry) : Z := perEntry plus + Z.of_nat (String.length (deName e)).

Fixpoint sumZ (l : list Z) : Z := match l with [] => 0 | z :: l => z + sumZ l end.

Lemma sumZ_le {A} (g k : A -> Z) l : Forall (fun a => g a <= k a) l -> sumZ (map g l) <= sumZ (map k l).
Proof. induction 1; simpl; lia. Qed.

Lemma blen_concat {A} (g : A -> bytes) l : blen (concat (map g l)) = sumZ (map (fun a => blen (g a)) l).
Proof. induction l as [|a l IH]; simpl; [done|]. by rewrite blen_app, IH. Qed.

Lemma bytesOf_length s : blen (bytesOf s) = Z.of_nat (String.length s).
Proof.
  unfold blen, bytesOf. f_equal. induction s as [|c s IH]; [done|]. simpl. by f_equal.
Qed.

Lemma blen_string s : blen (Writer.String s) <= 7 + Z.of_nat (String.length s).
Proof.
  unfold Writer.String. rewrite !blen_app, bytesOf_length. unfold Writer.Uint32, Writer.pad. rewrite blen_be.
  pose proof (padLen_range (Z.of_nat (String.length s))). rewrite blen_zeros by lia. lia.
Qed.

(** An entry takes no more than what the budget is charged for it. *)
Lemma putEntry_size f plus name i n : blen (putEntry plus (dirEntry f plus name i n)) <= entryCost plus (dirEntry f plus name i n).
Proof.
  unfold putEntry, dirEntry, entryCost, perEntry. cbn [deFileID deName deCookie deAttr deHandle]. rewrite !blen_app.
  pose proof (blen_string name). unfold Writer.Bool, Writer.Uint64, Writer.Uint32. rewrite !blen_be.
  destruct plus; [|change (blen (@nil byte)) with 0; lia]. rewrite !blen_app. unfold putPostOpAttr, putPostOpHandle, putHandle, Writer.Opaque, Writer.Fixed, Writer.pad.
  rewrite !blen_app, blen_putFattr. unfold Writer.Bool, Writer.Uint32. rewrite !blen_be.
  change (blen (encodeHandle (iID n) (iGen n))) with 16. change (padLen 16) with 0. change (blen (zeros 0)) with 0. lia.
Qed.

Lemma readDirLoop_cost f plus budget rest i used some out j :
  Forall (fun e => Z.of_nat (String.length e.1) <= 255) rest -> 0 <= budget <= maxReadSize -> 0 <= used ->
  (some = false -> used = 0) -> used <= Z.max budget (perEntry plus + 255) ->
  readDirLoop f plus (perEntry plus) budget rest i used some = (out, j) ->
  used + sumZ (map (entryCost plus) out) <= Z.max budget (perEntry plus + 255).
Proof.
  assert (Hmax : maxReadSize < 2 ^ 31) by done. assert (Hper : 0 < perEntry plus <= 160) by (by destruct plus).
  intros Hr Hb. revert i used some out j. induction Hr as [|[name id] rest Hname _ IH]; intros i used some out j H0 Hs Hu; cbn [readDirLoop].
  { intros [= <- <-]. simpl. lia. }
  destruct (inodes f !! id) as [n|]; [|by apply IH]. simpl in Hname. pose proof (Zle_0_nat (String.length name)).
  rewrite (u32_id (Z.of_nat _)), (u32_id (perEntry plus + _)), (u32_id (used + _)) by (unfold is_u32; lia).
  destruct (Z.ltb_spec budget (used + (perEntry plus + Z.of_nat (String.length name)))) as [Hlt|Hle]; cbn [andb].
  - destruct some; [intros [= <- <-]; simpl; lia|]. specialize (Hs eq_refl). subst used.
    destruct (readDirLoop _ _ _ _ rest _ _ _) as [out' j'] eqn:E. intros [= <- <-]. apply IH in E; [|lia|done|lia].
    cbn [map sumZ]. unfold entryCost at 1. cbn [deName dirEntry]. lia.
  - destruct (readDirLoop _ _ _ _ rest _ _ _) as [out' j'] eqn:E. intros [= <- <-]. apply IH in E; [|lia|done|lia].
    cbn [map sumZ]. unfold entryCost at 1. cbn [deName dirEntry]. lia.
Qed.

(** The loop's entries are entries of the directory. *)
Lemma readDirLoop_entries f plus per budget rest i used some out j :
  readDirLoop f plus per budget rest i used some = (out, j) -> Forall (fun e => exists name k n, e = dirEntry f plus name k n) out.
Proof.
  revert i used some out j. induction rest as [|[name id] rest IH]; intros i used some out j; cbn [readDirLoop]; [intros [= <- <-]; constructor|].
  destruct (inodes f !! id) as [n|]; [|apply IH]. destruct (_ && _); [intros [= <- <-]; constructor|].
  destruct (readDirLoop _ _ _ _ rest _ _ _) as [out' j'] eqn:E. intros [= <- <-]. constructor; [by eexists _, _, _|by eapply IH].
Qed.

Lemma listing_names f did d : wf f -> inodes f !! did = Some d -> Forall (fun e => Z.of_nat (String.length e.1) <= 255) (listing d).
Proof.
  intros Hw Hd. unfold listing. constructor; [done|]. constructor; [done|]. apply list.Forall_forall. intros [x id] Hx.
  apply list_elem_of_fmap in Hx as (y&[= -> ->]&Hy). apply sortedNames_elem in Hy as [c Hc]. pose proof (wf_names f Hw did d y c Hd Hc) as Hv.
  unfold validName in Hv. destruct (_ || _); [done|]. destruct (Z.ltb_spec maxNameLen (Z.of_nat (String.length y))); [done|]. simpl. unfold maxNameLen in *. lia.
Qed.

Lemma listing_tail f did d cookie :
  wf f -> inodes f !! did = Some d -> Forall (fun e => Z.of_nat (String.length e.1) <= 255) (bdrop cookie (listing d)).
Proof. intros Hw Hd. apply Forall_drop. by eapply listing_names. Qed.

(** What a page of entries takes on the wire. *)
Lemma ReadDir_size {P : Policy} f c dir cookie vf max plus out eof cur :
  wf f -> 0 <= max <= maxReadSize -> ReadDir f c dir cookie vf max plus = Ok (out, eof, cur) ->
  blen cur = 8 /\ blen (concat (map (putEntry plus) out)) <= Z.max max (perEntry plus + 255).
Proof.
  intros Hw Hm. unfold ReadDir. destruct (resolve f dir) as [[did d]|] eqn:Er; [|done]. simpl. apply resolve_ok in Er as (Hd&_&_).
  destruct (checkPerm OpReadDir c d); [done|]. destruct (_ && _); [done|]. destruct (_ <? _); [done|].
  fold (perEntry plus). set (budget := if _ <? _ then _ else max).
  assert (Hbud : 0 <= budget <= maxReadSize /\ budget <= Z.max max (perEntry plus + 255)).
  { assert (Hmr : maxReadSize = 1048576) by done.
    unfold budget. destruct (Z.ltb_spec max (perEntry plus * 2)); [|lia]. unfold perEntry in *. destruct plus; lia. }
  destruct (readDirLoop _ _ _ _ _ _ _ _) as [out' j] eqn:El. intros [= <- <- <-].
  split; [apply blen_be|]. rewrite blen_concat.
  pose proof (readDirLoop_cost f plus budget _ _ 0 false _ _ (listing_tail f did d cookie Hw Hd) (proj1 Hbud) ltac:(lia) ltac:(done) ltac:(lia) El) as Hc.
  pose proof (sumZ_le (fun e => blen (putEntry plus e)) (entryCost plus) out') as Hle.
  specialize (Hle ltac:(eapply list.Forall_impl; [by eapply readDirLoop_entries|]; intros e (x&k&n&->); apply putEntry_size)). lia.
Qed.

Lemma blen_attr_max (a : option Attr) : blen (putPostOpAttr a) <= 88.
Proof.
  destruct a as [a|]; unfold putPostOpAttr, Writer.Bool, Writer.Uint32; [|by rewrite blen_be]. rewrite blen_app, blen_be, blen_putFattr. lia.
Qed.

Section Props.
Context {Cd : Codec} {W : Type} {St : Store W} {Vw : StoreView W} {Lw : StoreLaws W}
  {Dg : Digest} {Hx : HexDigest} {Ro : RunOrder} {P : Policy} {TC : TypeChecked P}.

(** A READDIR or READDIRPLUS reply is bounded by what the client asked for:
    whatever the directory and the arguments, its entries take no more bytes
    than the count of the call (at most a megabyte, and one entry if the count
    is too small for that), and the rest of the reply at most 108. *)
Theorem readdir_reply_bound c plus (r : Reader) (f : FS) (w : W) h cookie vf max body s' :
  wf f -> (getReaddirArgs plus r).1 = Some (h, cookie, vf, max) -> 0 <= max ->
  readdir (E := fsEnv) c plus r (f, w) = (Some body, s') ->
  blen body <= Z.max (Z.min max maxReadSize) (perEntry plus + 255) + 108.
Proof using Type.
  intros Hw Hargs Hmax Hrun. unfold readdir, decoding in Hrun. rewrite Hargs in Hrun.
  assert (Hmr : maxReadSize = 1048576) by done.
  replace (if maxReadSize <? max then maxReadSize else max) with (Z.min max maxReadSize) in Hrun
    by (destruct (Z.ltb_spec maxReadSize max); lia).
  set (m := Z.min max maxReadSize) in *. assert (Hm : 0 <= m <= maxReadSize) by lia. clearbody m.
  unfold pbind at 1 in Hrun. cbn [vReadDir blobfs asks fst] in Hrun.
  assert (Hsmall : 0 < perEntry plus) by (by destruct plus).
  destruct (ReadDir f c h cookie vf m plus) as [[[out eof] cur]|e] eqn:Er; unfold pbind in Hrun;
    destruct (attrOf h (f, w)) as [a s1]; apply reply_inv in Hrun as [-> _];
    rewrite !blen_app; unfold putStatus, Writer.Uint32, Writer.Bool; rewrite ?blen_be; pose proof (blen_attr_max a).
  - destruct (ReadDir_size f c h cookie vf m plus out eof cur Hw Hm Er) as [Hcur Hent].
    unfold Writer.Fixed, Writer.pad. rewrite blen_app, Hcur. change (blen (zeros (padLen 8))) with 0.
    replace (blen (if eof then Writer.Uint32 1 else Writer.Uint32 0)) with 4 by (by destruct eof). unfold Writer.Uint32. rewrite !blen_be. lia.
  - lia.
Qed.

(** C30 What the server executes again when a call is repeated is safe to: of the
    procedures it does not keep replies for, every one but WRITE and COMMIT,
    whatever its arguments and whichever store reads fail, leaves every file,
    name and attribute, times included, and the need for a commit as they were. *)
Theorem repeatable_changes_nothing verf e p cred r (f : FS) (w : W) b f' w' :
  sound f w -> nfsIdempotent p = true -> p ≠ procWrite -> p ≠ procCommit ->
  nfsCall (E := fsEnv) verf e p cred r (f, w) = (b, (f', w')) ->
  sound f' w' /\ sameFiles f f' /\ dirty f' = dirty f.
Proof using Lw.
  intros Hs Hi Hw Hc Hrun. destruct (decide (p = procRead)) as [->|Hr].
  - change (nfsCall verf e procRead cred r (f, w)) with (read (E := fsEnv) (callerFrom cred) r (f, w)) in Hrun.
    unfold read, decoding in Hrun. destruct (getRangeArgs r).1 as [[[h off] count]|]; [|injection Hrun as <- <- <-; split_and!; [done|apply sameFiles_refl|done]].
    unfold pbind at 1 in Hrun. set (m := if _ <? _ then _ else count) in Hrun. cbn [vRead blobfs] in Hrun.
    destruct (Read (callerFrom cred) h off m (f, w)) as [res [f1 w1]] eqn:Er.
    destruct (Read_sound _ _ _ _ _ _ _ _ _ Hs Er) as [[Hs1 _] Ha].
    assert (Heq : (f1, w1) = (f', w')).
    { destruct res as [[d eof]|er]; unfold pbind in Hrun; pose proof (attrOf_same (E := fsEnv) h (f1, w1)) as Hat;
        destruct (attrOf h (f1, w1)) as [a s2]; simpl in Hat; subst s2; by injection Hrun as _ <- <-. }
    injection Heq as <- <-. split; [done|]. split; [by apply aside_same|]. by destruct Ha as (?&?&->).
  - pose proof (nfsCall_query (E := fsEnv) verf e p cred r Hi Hr Hw Hc (f, w)) as Hq. rewrite Hrun in Hq. simpl in Hq.
    injection Hq as -> ->. split_and!; [done|apply sameFiles_refl|done].
Qed.

End Props.

(** ** MOUNT *)

Lemma trimSlash_app s : trimSlash (s ++ "/") = s.
Proof.
  induction s as [|c s IH]; [done|]. change (trimSlash (String c s ++ "/")) with (trimSlash (String c (s ++ "/"))).
  destruct s as [|c' s]; [by destruct c as [[] [] [] [] [] [] [] []]|]. transitivity (String c (trimSlash (String c' s ++ "/"))); [|by rewrite IH].
  by destruct c as [[] [] [] [] [] [] [] []].
Qed.

(** One trailing slash makes no difference to what is exported. *)
Lemma norm_slash s : norm (s ++ "/") = if String.eqb s "" then "/" else s.
Proof. unfold norm. by rewrite trimSlash_app. Qed.

(** A client's decoder of a list of mounts. *)
Fixpoint getMounts (fuel : nat) : rd (option (list (string * string))) :=
  match fuel with
  | O => rret None
  | S fuel =>
      let^ more := Reader.Bool in
      if more then
        let^ client := Reader.String in
        let^ path := Reader.String in
        let^? l := getMounts fuel in
        rret (Some ((client, path) :: l))
      else rret (Some [])
  end.

Definition mountOK (m : string * string) : Prop := nameOK m.1 /\ nameOK m.2.

Lemma reads_mounts l : Forall mountOK l -> reads (getMounts (S (length l))) (putMounts l) (Some l).
Proof.
  unfold putMounts. induction 1 as [|[x y] l [Hx Hy] _ IH].
  - apply (reads_bind Reader.Bool _ (Writer.Bool false) [] false); [apply reads_bool|apply reads_ret].
  - cbn [map concat length fst snd] in *. rewrite <- !app_assoc. change (getMounts (S (S (length l)))) with
      (let^ more := Reader.Bool in if more then let^ client := Reader.String in let^ path := Reader.String in
        let^? l := getMounts (S (length l)) in rret (Some ((client, path) :: l)) else rret (Some [])).
    eapply reads_bind; [apply reads_bool|]. cbv iota. eapply reads_bind; [by apply reads_string|]. eapply reads_bind; [by apply reads_string|].
    rewrite <- (app_nil_r (concat _ ++ _)). eapply reads_obind; [exact IH|]. apply reads_ret.
Qed.

Section MountProps.
Context {Cd : Codec} {W : Type} {St : Store W} {Dg : Digest} {Hx : HexDigest} {Ro : RunOrder} {P : Policy}.
Context (export : string) (iter : mountTable -> list (string * string)).

(** A mount gives the root: MNT of the export, up to a trailing slash, records
    the client and answers with a handle that stands for the root directory;
    of any other path it answers NOENT and records nothing. *)
Theorem mount_gives_root cred path r t (f : FS) (w : W) b st' :
  wf f -> fine r -> rest r = Writer.String path -> nameOK path ->
  mountCall (E := fsEnv) export iter mountProcMnt cred r (t, (f, w)) = (b, st') ->
  if String.eqb (norm path) (norm export) then
    st' = (<[crMachine cred := path]> t, (f, w)) /\
    exists h n, resolve f h = Ok (rootInodeID, n) /\ iType n = TypeDir /\
      b = Some (Writer.Uint32 mnt3OK ++ Writer.Opaque h ++ Writer.Uint32 2 ++ Writer.Uint32 authFlavorSys ++ Writer.Uint32 authFlavorNone)
  else st' = (t, (f, w)) /\ b = Some (Writer.Uint32 mnt3ErrNoEnt).
Proof using Type.
  intros Hw Hf Hr Hn. unfold mountCall. change (mountProcMnt =? mountProcNull) with false. change (mountProcMnt =? mountProcMnt) with true. cbv iota.
  destruct (reads_string path Hn r [] Hf ltac:(by rewrite app_nil_r)) as (r'&->&[-> _]&_). unfold accepts.
  destruct (String.eqb (norm path) (norm export)); cbn [negb]; intros Hrun.
  - destruct (tr_root _ (wf_tree f Hw)) as (rn&Hrn&Hd&_). rewrite shape_lookup in Hrn. apply fmap_Some in Hrn as (n&Hrn&->).
    change 1 with rootInodeID in Hrn.
    assert (Hroot : vRoot (E := fsEnv) (f, w) = encodeHandle rootInodeID (iGen n)) by (simpl; unfold Root; by rewrite Hrn).
    rewrite Hroot in Hrun. apply (f_equal fst) in Hrun as H1. apply (f_equal snd) in Hrun as H2. cbn [fst snd] in H1, H2. split; [done|].
    exists (encodeHandle rootInodeID (iGen n)), n. split; [|split; [|done]].
    + pose proof (wf_resolve f rootInodeID n Hw Hrn) as H. by rewrite (wf_id f rootInodeID n Hw Hrn) in H.
    + by apply bool_decide_eq_true_1 in Hd.
  - apply (f_equal fst) in Hrun as H1. apply (f_equal snd) in Hrun as H2. done.
Qed.

(** DUMP lists the table: whatever order the map is walked in, a client decodes
    the reply as each recorded client with its path, once. *)
Theorem dump_lists_mounts p cred r t (s : FS * W) b st' :
  (forall m, iter m ≡ₚ map_to_list m) -> Forall mountOK (map_to_list t) -> p = mountProcDump ->
  mountCall (E := fsEnv) export iter p cred r (t, s) = (Some b, st') ->
  st' = (t, s) /\ exists l, decodes (getMounts (S (size t))) b = Some (Some l) /\ l ≡ₚ map_to_list t.
Proof using Type.
  intros Hit Hok -> Hrun. assert (Hb : b = putMounts (iter t) /\ st' = (t, s)).
  { change (mountCall export iter mountProcDump cred r (t, s)) with (Some (putMounts (iter t)), (t, s)) in Hrun.
    revert Hrun. generalize (putMounts (iter t)) as x. by intros x [= <- <-]. }
  destruct Hb as [-> ->]. split; [done|]. exists (iter t). split; [|apply Hit].
  assert (Hl : length (iter t) = size t) by (rewrite (Permutation_length (Hit t)); apply length_map_to_list).
  assert (Hk : Forall mountOK (iter t)) by (by rewrite Hit).
  pose proof (reads_mounts (iter t) Hk) as Hrd. rewrite Hl in Hrd. set (bs := putMounts (iter t)) in *.
  assert (F0 : fine (NewReader bs)) by (split; simpl; [done|split; [lia|apply blen_nonneg]]).
  destruct (Hrd (NewReader bs) [] F0) as (r'&E&[He _]&_); [by rewrite app_nil_r|]. unfold decodes. by rewrite E, He.
Qed.

End MountProps.

(** ** Truncated arguments *)

Section Findings.
Context {Cd : Codec} {W : Type} {St : Store W} {Dg : Digest} {Hx : HexDigest} {Ro : RunOrder} {P : Policy}.

(** The arguments of a SETATTR with a guard, cut before the guard's time. *)
Definition cutSetAttr (h : Handle) (x : sattrArg) : bytes := putHandle h ++ putSattr x ++ Writer.Bool true.

(** A SETATTR whose guard is missing from its arguments is answered with
    NFS3ERR_NOT_SYNC instead of GARBAGE_ARGS: the guard is compared before the
    reader's error is looked at, so for every object not changed at the epoch a
    truncated call gets a well-formed refusal. *)
Theorem truncated_guard_not_garbage e c h x r (f : FS) (w : W) a :
  handleOK h -> sattrOK x -> fine r -> rest r = cutSetAttr h x ->
  GetAttr f h = Ok a -> aCTime a ≠ 0 ->
  setattr (E := fsEnv) e c r (f, w) = (Some (putStatus ErrNotSync ++ putWccData (wccFrom (Some a)) (Some a)), (f, w)).
Proof using Type.
  intros Hh Hx' Hf Hr Ha Ht. unfold cutSetAttr in Hr. unfold setattr, decoding.
  destruct (reads_handle h Hh r _ Hf Hr) as (r1&E1&F1&R1).
  destruct (reads_sattr (neNow1 e) (neNow2 e) x Hx' r1 _ F1 R1) as (r2&E2&F2&R2).
  rewrite <- (app_nil_r (Writer.Bool true)) in R2. destruct (reads_bool true r2 [] F2 R2) as (r3&E3&F3&R3).
  assert (Hg : exists r4, getTime r3 = (0, r4)).
  { pose proof (starved r3 F3 ltac:(by rewrite R3)) as Hs. unfold getTime, rbind.
    assert (H1 : (Reader.Uint32 r3).1 = 0).
    { revert Hs. unfold Reader.Uint32, rbind, Reader.take. destruct (rErr r3); [done|]. by destruct (_ || _). }
    destruct (Reader.Uint32 r3) as [v r4]. simpl in *. subst v. pose proof (uint32_latched r4 Hs) as H2.
    assert (H3 : (Reader.Uint32 r4).1 = 0) by (unfold Reader.Uint32, rbind, Reader.take; by destruct (rErr r4)).
    destruct (Reader.Uint32 r4) as [v2 r5]. simpl in *. subst. by eexists. }
  destruct Hg as [r4 E4]. assert (Hd : exists failed, (getSetAttrArgs (neNow1 e) (neNow2 e) r).1 =
    Some (h, sattrMeant (neNow1 e) (neNow2 e) x, Some 0, failed)).
  { unfold getSetAttrArgs, obind, rbind. rewrite E1, E2. unfold getOpt, rbind. rewrite E3, E4. by eexists. }
  destruct Hd as [failed ->]. unfold pbind. cbn [vGetAttr blobfs asks fst]. rewrite Ha. unfold pret.
  by destruct (Z.eqb_spec (aCTime a) 0).
Qed.

End Findings.

(** ** A small server *)

Definition demoCred : Cred := mkCred 1000 1000 [] "host".
Definition demoVerf : bytes := [x00; x01; x02; x03; x04; x05; x06; x07].
Definition demoEnv : nfsEnv fsEnv := mkNfsEnv 40 41 (mkFsEnv 50 51 52 53 [] (tk 3)).
Definition demoServer : Server (mountTable * (FS * Bucket.world)) (nfsEnv fsEnv) := nfsServer demoVerf "" map_to_list.

(** A call of NFS by the small mount's owner. *)
Definition nfsRecord (xid p : Z) (args : bytes) : bytes := callRecord xid ProgramNFS VersionNFS p 0 demoCred args.

Lemma demoCred_ok : credOK demoCred.
Proof. split; [by split|by split|constructor|simpl; lia|discriminate]. Qed.

(** A run of the server that answered. *)
Definition answered {A} (p : option bytes * A) : bool := match p.1 with Some _ => true | None => false end.

Lemma run_dispatch {A B C D} (p : option bytes * (A * (B * (C * D)))) :
  answered p = true -> p = (Some (default [] p.1), (p.2.1, (p.2.2.1, (p.2.2.2.1, p.2.2.2.2)))).
Proof. by destruct p as [[b|] (a&x&c&d)]. Qed.

(** "hello" written to the start of the file, and read back. *)
Definition writeRun :=
  dispatch demoServer 1 (nfsRecord 7 procWrite (putWrite fileHandle 0 (blen hello) Unstable hello)) 60 61 demoEnv
    (newCache, (∅, (withFile, mounted.2))).

Definition readRun :=
  dispatch demoServer 2 (nfsRecord 8 procRead (putRange fileHandle 0 5)) 62 63 demoEnv
    (writeRun.2.1, (writeRun.2.2.1, (writeRun.2.2.2.1, writeRun.2.2.2.2))).

Lemma write_then_read_witness : 0 < 5 <= blen hello /\ hello = btake 5 hello.
Proof.
  eapply (write_then_read demoVerf "" map_to_list 1 7 0 demoCred fileHandle 0 hello Unstable 60 61 demoEnv newCache ∅ withFile mounted.2
    (default [] writeRun.1) _ _ _ _ 5 0 demoVerf 2 8 0 demoCred 62 63 demoEnv (default [] readRun.1) _ hello true withFile_sound);
    [by split|by split|exact demoCred_ok|by split|by split|exact demoCred_ok|discriminate|by split|by split| | | |].
  - exact (run_dispatch writeRun ltac:(run_it)).
  - run_it.
  - exact (run_dispatch readRun ltac:(run_it)).
  - run_it.
Defined.

(** A directory made in the root, the same record again, and calls between. *)
Definition mkdirRecord : bytes :=
  nfsRecord 9 procMkdir (putDirOp rootHandle "d" ++ putSattr (mkSattrArg None None None None KeepTime KeepTime)).
Definition getattrRecord : bytes := nfsRecord 10 procGetAttr (putHandle rootHandle).

Definition mkdirRun := dispatch demoServer 1 mkdirRecord 60 61 demoEnv (newCache, (∅, mounted)).
Definition between : list (arrival (nfsEnv fsEnv)) := [mkArrival 2 getattrRecord 70 71 demoEnv; mkArrival 1 [x00] 72 73 demoEnv].
Definition laterState := serve demoServer between (mkdirRun.2.1, mkdirRun.2.2).

Lemma run_reply_of {A} (p : option bytes * A) : answered p = true -> p = (Some (default [] p.1), p.2).
Proof. by destruct p as [[b|] x]. Qed.

Lemma run_answered {A B} (p : option bytes * (A * B)) : answered p = true -> p = (Some (default [] p.1), (p.2.1, p.2.2)).
Proof. by destruct p as [[b|] [a x]]. Qed.

Lemma retransmission_replayed_witness :
  exists c', dispatch demoServer 1 mkdirRecord 80 81 demoEnv laterState = (Some (default [] mkdirRun.1), (c', laterState.2)).
Proof.
  destruct (classify_call demoServer 1 9 ProgramNFS VersionNFS procMkdir 0 demoCred
    (putDirOp rootHandle "d" ++ putSattr (mkSattrArg None None None None KeepTime KeepTime))) as (r&_&_&Hcl);
    [by split..|exact demoCred_ok|].
  apply (retransmission_replayed demoServer 1 mkdirRecord (mkReplyKey 1 9 ProgramNFS VersionNFS procMkdir) (onSnd (nfsHandler demoVerf))
    demoCred r 60 61 demoEnv newCache (∅, mounted) (default [] mkdirRun.1) mkdirRun.2.1 mkdirRun.2.2 between 80 81 demoEnv).
  - apply newReplyCache_ok.
  - exact Hcl.
  - run_it.
  - reflexivity.
  - exact (run_answered mkdirRun ltac:(run_it)).
  - discriminate.
  - repeat constructor; discriminate.
  - discriminate.
Defined.

(** The directory was made, once. *)
Example mkdirRun_made : names laterState.2.2.1 1 "d" = Some 2.
Proof. run_it. Qed.

Definition twoCalls : list (arrival (nfsEnv fsEnv)) := mkArrival 1 mkdirRecord 60 61 demoEnv :: between.

Definition afterCalls := serve demoServer twoCalls (newCache, (∅, (mounted.1, mounted.2))).

Lemma server_keeps_sound_witness : sound afterCalls.2.2.1 afterCalls.2.2.2.
Proof.
  refine (server_keeps_sound demoVerf "" map_to_list twoCalls newCache ∅ mounted.1 mounted.2 mounted_sound _ _); [run_it|].
  constructor; [|constructor; [|constructor; [|constructor]]]; vm_compute; try exact I; intros _; repeat constructor.
Defined.

Definition smallReaddir : Reader := NewReader (putHandle rootHandle ++ Writer.Uint64 0 ++ Writer.Fixed (zeros 8) ++ Writer.Uint32 128).

(** A READDIR reply exceeds the count of its call: for the empty root directory
    and a count of 128, the reply takes 164 bytes, because the cost an entry is
    charged with leaves out the status, attributes, verifier and list ends. *)
Theorem readdir_exceeds_count :
  (getReaddirArgs false smallReaddir).1 = Some (rootHandle, 0, zeros 8, 128) /\
  match (readdir (E := fsEnv) owner false smallReaddir mounted).1 with Some body => blen body = 164 | None => False end.
Proof. split; run_it. Qed.

Definition someItems : list item := [IUint32 7; IString "abc"; IBool true; IOpaque hello; IUint64 (2 ^ 63)].

Lemma xdr_roundtrip_witness :
  exists r', getItems someItems (NewReader (putItems someItems ++ [x2a])) = (someItems, r') /\ rErr r' = None /\
    Remaining r' = 1 /\ blen (putItems someItems) mod 4 = 0.
Proof.
  apply (xdr_roundtrip someItems [x2a]). repeat constructor; try discriminate.
Defined.

Lemma record_reassembled_witness : readRecord (fragments [hello; []] hello ++ [x2a]) = Some (Ok (hello ++ hello, [x2a])).
Proof. apply (record_reassembled [hello; []] hello [x2a]). discriminate. Defined.

Lemma call_delivered_witness :
  exists r, classify demoServer 1 getattrRecord =
      Run (mkReplyKey 1 10 ProgramNFS VersionNFS procGetAttr) (onSnd (nfsHandler demoVerf)) demoCred r /\
    rErr r = None /\ rest r = putHandle rootHandle.
Proof.
  apply (call_delivered demoServer 1 10 ProgramNFS VersionNFS procGetAttr 0 demoCred (putHandle rootHandle) (onSnd (nfsHandler demoVerf)));
    [by split..|exact demoCred_ok|reflexivity].
Defined.

Definition someKey : replyKey := mkReplyKey 1 9 ProgramNFS VersionNFS procMkdir.
Definition someOps : list cacheOp := [OBegin 1 someKey; OFinish 2 someKey hello].

Lemma cache_hit_genuine_witness : exists at_, OFinish at_ someKey hello ∈ someOps /\ 3 - at_ <= 60.
Proof.
  apply (cache_hit_genuine someOps 10 60 0 3 someKey hello (begin 3 someKey (cacheRun someOps (newReplyCache 10 60))).2).
  - repeat split; discriminate.
  - run_reply.
Defined.

Lemma cache_bounded_witness :
  cacheLen (cacheRun someOps (newReplyCache 1 60)) <= 1 /\ cacheOK (cacheRun someOps (newReplyCache 1 60)).
Proof. apply (cache_bounded someOps 1 60). discriminate. Defined.

Definition emptyWrite := nfsCall demoVerf demoEnv procWrite demoCred (NewReader []) mounted.

Lemma garbage_changes_nothing_witness : emptyWrite.1 = None /\ emptyWrite.2 = mounted.
Proof.
  split; [run_it|]. apply (garbage_changes_nothing demoVerf demoEnv procWrite demoCred (NewReader []) mounted emptyWrite.2).
  apply (run_pair emptyWrite None); [reflexivity|run_it].
Defined.

Definition readdirArgs : Reader := NewReader (putHandle rootHandle ++ Writer.Uint64 0 ++ Writer.Fixed (zeros 8) ++ Writer.Uint32 4096).
Definition readdirRun := readdir (E := fsEnv) owner false readdirArgs (withFile, mounted.2).

Lemma readdir_reply_bound_witness : blen (default [] readdirRun.1) <= 4204.
Proof.
  apply (readdir_reply_bound owner false readdirArgs withFile mounted.2 rootHandle 0 (zeros 8) 4096 (default [] readdirRun.1) readdirRun.2).
  - apply (so_good _ _ withFile_sound).
  - run_it.
  - discriminate.
  - exact (run_reply_of readdirRun ltac:(run_it)).
Defined.

Definition readCall := nfsCall (E := fsEnv) demoVerf demoEnv procRead demoCred (NewReader (putRange fileHandle 8 64)) (writtenTo.1, writtenTo.2).

Lemma repeatable_changes_nothing_witness :
  sound readCall.2.1 readCall.2.2 /\ sameFiles writtenTo.1 readCall.2.1 /\ dirty readCall.2.1 = dirty writtenTo.1.
Proof.
  apply (repeatable_changes_nothing demoVerf demoEnv procRead demoCred (NewReader (putRange fileHandle 8 64)) writtenTo.1 writtenTo.2
    readCall.1 readCall.2.1 readCall.2.2 writtenTo_sound); [run_it|discriminate|discriminate|].
  apply (run_outcome readCall); reflexivity.
Defined.

Definition fileAttr : Attr := attr (fsid withFile) (inodeAt withFile 2).
Definition noChanges : sattrArg := mkSattrArg None None None None KeepTime KeepTime.

Lemma truncated_guard_not_garbage_witness :
  setattr (E := fsEnv) demoEnv owner (NewReader (cutSetAttr fileHandle noChanges)) (withFile, mounted.2)
  = (Some (putStatus ErrNotSync ++ putWccData (wccFrom (Some fileAttr)) (Some fileAttr)), (withFile, mounted.2)).
Proof.
  apply (truncated_guard_not_garbage demoEnv owner fileHandle noChanges (NewReader (cutSetAttr fileHandle noChanges)) withFile mounted.2 fileAttr).
  - discriminate.
  - repeat split.
  - repeat split; discriminate.
  - reflexivity.
  - run_it.
  - discriminate.
Defined.

Definition nameF : Reader := NewReader (putDirOp rootHandle "f").
Definition lookupF := lookup (E := fsEnv) owner nameF (withFile, mounted.2).
Definition removeF := remove (E := fsEnv) demoEnv owner false nameF lookupF.2.

(** Another file takes the name, and a Sync is made. *)
Definition againF : list sysop := [CallNs (NCreate owner rootHandle "f" noSetAttr true 50 51); CallSync (tk 7)].
Definition afterF : result unit * (FS * Bucket.world) := execAll againF removeF.2.

Lemma removed_name_stale_witness :
  getattr (E := fsEnv) (NewReader (putHandle fileHandle)) (afterF.2.1, afterF.2.2) = (Some (putStatus ErrStale), (afterF.2.1, afterF.2.2)).
Proof.
  assert (Hr : execAll againF (removeF.2.1, removeF.2.2) = (afterF.1, (afterF.2.1, afterF.2.2))).
  { assert (Hp : forall p : FS * Bucket.world, execAll againF (p.1, p.2) = ((execAll againF p).1, ((execAll againF p).2.1, (execAll againF p).2.2))).
    { intros [f w]. cbn [fst snd]. by destruct (execAll againF (f, w)) as [? []]. }
    exact (Hp removeF.2). }
  assert (Hrm : remove (E := fsEnv) demoEnv owner false nameF lookupF.2 = (Some (default [] removeF.1), (removeF.2.1, removeF.2.2))).
  { assert (Hp : forall x : option bytes * (FS * Bucket.world), is_Some x.1 -> x = (Some (default [] x.1), (x.2.1, x.2.2))).
    { intros [o [f w]] [b Hb]. cbn [fst snd] in *. by rewrite Hb. }
    apply (Hp removeF), (bool_decide_eq_true_1 _). run_it. }
  apply (removed_name_stale demoEnv owner owner false rootHandle "f" nameF nameF (NewReader (putHandle fileHandle))
    withFile mounted.2 (default [] lookupF.1) lookupF.2 fileHandle (default [] removeF.1) removeF.2.1 removeF.2.2 againF afterF.1).
  - exact withFile_sound.
  - run_it.
  - repeat constructor.
  - run_it.
  - run_it.
  - run_it.
  - exact (run_reply_of lookupF ltac:(run_it)).
  - run_it.
  - exact Hrm.
  - run_it.
  - exact Hr.
Defined.
