(* ===== verification/SigV4.v ===== *)
(** * Request signing (internal/store/sigv4.go)

    Strings are Go strings, byte by byte. SHA-256 and HMAC-SHA-256 are
    parameters ([Crypto]); the two spellings of the time a request is signed at
    are arguments. A request's header is the list of its names and values in
    the order the map is walked. [trimAll] knows the white space of ASCII. *)

From Stdlib Require Import Ascii.
From stdpp Require Import sorting.
From S2P Require Import Prelude Vfs ReadDir.

(** The hex digest of a text, and the HMAC of a text under a key, as bytes and
    in hex. *)
Class Crypto := {
  sha256Hex : string -> string;
  hmacSHA256 : string -> string -> string;
  hexOf : string -> string
}.

Record Credentials := mkCredentials { AccessKeyID : string; SecretAccessKey : string; SessionToken : string }.

Definition emptyPayloadHash : string := "e3b0c44298fc1c149afbf4c8996fb92427ae41e4649b934ca495991b7852b855".

(** ** Percent encoding *)

Definition code (c : ascii) : Z := Z.of_N (N_of_ascii c).
Definition charOf (z : Z) : ascii := ascii_of_N (Z.to_N z).

Definition inRange (a b : ascii) (c : ascii) : bool := (code a <=? code c) && (code c <=? code b).

Definition unreserved (c : ascii) : bool :=
  inRange "A" "Z" c || inRange "a" "z" c || inRange "0" "9" c ||
  Ascii.eqb c "-" || Ascii.eqb c "." || Ascii.eqb c "_" || Ascii.eqb c "~".

Definition upperhex : string := "0123456789ABCDEF".

Definition upperDigit (z : Z) : ascii := default "0"%char (String.get (Z.to_nat z) upperhex).

Definition percent (c : ascii) (s : string) : string :=
  String "%" (String (upperDigit (Z.shiftr (code c) 4)) (String (upperDigit (Z.land (code c) 0x0f)) s)).

Fixpoint uriEncode (s : string) (encodeSlash : bool) : string :=
  match s with
  | EmptyString => EmptyString
  | String c s =>
      if unreserved c then String c (uriEncode s encodeSlash)
      else if Ascii.eqb c "/" && negb encodeSlash then String c (uriEncode s encodeSlash)
      else percent c (uriEncode s encodeSlash)
  end.

Definition fromHex (c : ascii) : option Z :=
  if inRange "0" "9" c then Some (code c - code "0")
  else if inRange "A" "F" c then Some (code c - code "A" + 10)
  else if inRange "a" "f" c then Some (code c - code "a" + 10)
  else None.

Fixpoint unescape (s : string) : string :=
  match s with
  | EmptyString => EmptyString
  | String c s' =>
      if Ascii.eqb c "%" then
        match s' with
        | String a (String b s'') =>
            match fromHex a, fromHex b with
            | Some hi, Some lo => String (charOf (Z.lor (Z.shiftl hi 4) lo)) (unescape s'')
            | _, _ => String c (unescape s')
            end
        | _ => String c (unescape s')
        end
      else String c (unescape s')
  end.

(** ** Canonical requests *)

(** [strings.Split(s, sep)] for a separator of one byte. *)
Fixpoint split (sep : ascii) (s : string) : list string :=
  match s with
  | EmptyString => [EmptyString]
  | String c s =>
      if Ascii.eqb c sep then EmptyString :: split sep s
      else match split sep s with
           | [] => [String c EmptyString]
           | x :: l => String c x :: l
           end
  end.

(** [strings.Cut(s, sep)]: before and after the first separator. *)
Fixpoint cut (sep : ascii) (s : string) : string * string :=
  match s with
  | EmptyString => (EmptyString, EmptyString)
  | String c s => if Ascii.eqb c sep then (EmptyString, s) else let (a, b) := cut sep s in (String c a, b)
  end.

(** [strings.Join]. *)
Definition join (sep : string) (l : list string) : string := String.concat sep l.

Definition canonicalPair (kv : string) : string :=
  let (k, v) := cut "=" kv in uriEncode (unescape k) true +:+ "=" +:+ uriEncode (unescape v) true.

Definition canonicalQuery (raw : string) : string :=
  if String.eqb raw "" then ""
  else join "&" (merge_sort strLe (map canonicalPair (filter (fun kv => kv ≠ "") (split "&" raw)))).

Definition canonicalURI (escapedPath : string) : string := if String.eqb escapedPath "" then "/" else escapedPath.

Definition isSpace (c : ascii) : bool := inRange "009" "013" c || Ascii.eqb c " ".

(** [strings.Fields]. *)
Fixpoint fieldsFrom (word : string) (s : string) : list string :=
  match s with
  | EmptyString => if String.eqb word "" then [] else [word]
  | String c s =>
      if isSpace c then (if String.eqb word "" then [] else [word]) ++ fieldsFrom "" s
      else fieldsFrom (word +:+ String c EmptyString) s
  end.

Definition trimAll (s : string) : string := join " " (fieldsFrom "" s).

Definition lowerChar (c : ascii) : ascii := if inRange "A" "Z" c then charOf (code c + 32) else c.

Fixpoint toLower (s : string) : string :=
  match s with EmptyString => EmptyString | String c s => String (lowerChar c) (toLower s) end.

(** A request as it is signed. *)
Record HTTPRequest := mkHTTPRequest {
  rqMethod : string;
  rqHost : string;
  rqURLHost : string;
  rqPath : string;
  rqQuery : string;
  rqHeader : list (string * list string)
}.

Definition setHeader (k v : string) (r : HTTPRequest) : HTTPRequest :=
  mkHTTPRequest (rqMethod r) (rqHost r) (rqURLHost r) (rqPath r) (rqQuery r)
    ((k, [v]) :: filter (fun h => h.1 ≠ k) (rqHeader r)).

Definition hostOf (r : HTTPRequest) : string := if String.eqb (rqHost r) "" then rqURLHost r else rqHost r.

(** The headers of the map that are signed, by their lower-case names. *)
Definition signedOf (h : list (string * list string)) : list (string * string) :=
  omap (fun nv =>
    let l := toLower nv.1 in
    if String.eqb l "host" then None
    else if String.eqb l "content-type" || String.prefix "x-amz-" l then Some (l, trimAll (join "," nv.2))
    else None) h.

Definition nameLe (x y : string * string) : Prop := strLe x.1 y.1.

#[global] Instance nameLe_dec x y : Decision (nameLe x y).
Proof. unfold nameLe. apply _. Defined.

Definition sortedHeaders (r : HTTPRequest) : list (string * string) :=
  merge_sort nameLe (("host", trimAll (hostOf r)) :: signedOf (rqHeader r)).

Definition headerLine (h : string * string) : string := h.1 +:+ ":" +:+ h.2 +:+ String "010" EmptyString.

Definition canonicalHeaders (r : HTTPRequest) : string * string :=
  let hs := sortedHeaders r in (join "" (map headerLine hs), join ";" (map fst hs)).

(** ** The signature *)

Section Sign.
Context {Cr : Crypto}.

Definition deriveKey (secret dateStamp region service : string) : string :=
  let kDate := hmacSHA256 ("AWS4" +:+ secret) dateStamp in
  let kRegion := hmacSHA256 kDate region in
  let kService := hmacSHA256 kRegion service in
  hmacSHA256 kService "aws4_request".

Definition newline : string := String "010" EmptyString.

Definition signV4 (r : HTTPRequest) (creds : Credentials) (region service payloadHash amzDate dateStamp : string) : HTTPRequest :=
  let r := setHeader "X-Amz-Date" amzDate r in
  let r := if String.eqb service "s3" then setHeader "X-Amz-Content-Sha256" payloadHash r else r in
  let r := if negb (String.eqb (SessionToken creds) "") then setHeader "X-Amz-Security-Token" (SessionToken creds) r else r in
  let r := setHeader "Host" (hostOf r) r in
  let (canonHeaders, signedHeaders) := canonicalHeaders r in
  let canonicalRequest := join newline
    [rqMethod r; canonicalURI (rqPath r); canonicalQuery (rqQuery r); canonHeaders; signedHeaders; payloadHash] in
  let scope := join "/" [dateStamp; region; service; "aws4_request"] in
  let stringToSign := join newline ["AWS4-HMAC-SHA256"; amzDate; scope; sha256Hex canonicalRequest] in
  let signingKey := deriveKey (SecretAccessKey creds) dateStamp region service in
  let signature := hexOf (hmacSHA256 signingKey stringToSign) in
  setHeader "Authorization"
    ("AWS4-HMAC-SHA256 Credential=" +:+ AccessKeyID creds +:+ "/" +:+ scope +:+
     ", SignedHeaders=" +:+ signedHeaders +:+ ", Signature=" +:+ signature) r.

End Sign.

(** ** Percent encoding round trips *)

Definition allAscii (P : ascii -> bool) : bool :=
  forallb (fun n => P (ascii_of_nat n)) (seq 0 256).

Lemma allAscii_spec (P : ascii -> bool) : allAscii P = true -> forall c, P c = true.
Proof.
  unfold allAscii. rewrite forallb_forall. intros H c. rewrite <- (ascii_nat_embedding c). apply H.
  apply in_seq. pose proof (nat_ascii_bounded c). lia.
Qed.

(** The two digits of a byte. *)
Lemma percent_digits c :
  fromHex (upperDigit (Z.shiftr (code c) 4)) = Some (Z.shiftr (code c) 4) /\
  fromHex (upperDigit (Z.land (code c) 0x0f)) = Some (Z.land (code c) 0x0f) /\
  charOf (Z.lor (Z.shiftl (Z.shiftr (code c) 4) 4) (Z.land (code c) 0x0f)) = c.
Proof.
  set (P := fun c => bool_decide (fromHex (upperDigit (Z.shiftr (code c) 4)) = Some (Z.shiftr (code c) 4)) &&
    bool_decide (fromHex (upperDigit (Z.land (code c) 0x0f)) = Some (Z.land (code c) 0x0f)) &&
    Ascii.eqb (charOf (Z.lor (Z.shiftl (Z.shiftr (code c) 4) 4) (Z.land (code c) 0x0f))) c).
  assert (H : P c = true) by (apply allAscii_spec; vm_compute; reflexivity).
  unfold P in H. rewrite !andb_true_iff in H. destruct H as [[H1 H2] H3].
  apply bool_decide_eq_true_1 in H1, H2. apply Ascii.eqb_eq in H3. done.
Qed.

Lemma unescape_plain c s : Ascii.eqb c "%" = false -> unescape (String c s) = String c (unescape s).
Proof. intros H. cbn [unescape]. by rewrite H. Qed.

Lemma unescape_percent c s : unescape (percent c s) = String c (unescape s).
Proof. destruct (percent_digits c) as (H1&H2&H3). unfold percent. cbn [unescape]. rewrite H1, H2, H3. done. Qed.

Lemma unreserved_not_percent c : unreserved c = true -> Ascii.eqb c "%" = false.
Proof. intros H. apply not_true_is_false. intros ->%Ascii.eqb_eq. done. Qed.

(** A key survives the URL: what [uriEncode] wrote, [unescape] reads. *)
Lemma unescape_uriEncode s b : unescape (uriEncode s b) = s.
Proof.
  induction s as [|c s IH]; [done|]. cbn [uriEncode]. destruct (unreserved c) eqn:Eu.
  { rewrite unescape_plain by (by apply unreserved_not_percent). by rewrite IH. }
  destruct (Ascii.eqb c "/" && negb b) eqn:Es; [|by rewrite unescape_percent, IH].
  apply andb_true_iff in Es as [->%Ascii.eqb_eq _]. rewrite unescape_plain by done. by rewrite IH.
Qed.

(** ** Canonical forms *)

Fixpoint hasChar (sep : ascii) (s : string) : bool :=
  match s with EmptyString => false | String c s => Ascii.eqb c sep || hasChar sep s end.

Lemma split_plain sep s : hasChar sep s = false -> split sep s = [s].
Proof.
  induction s as [|c s IH]; [done|]. cbn [hasChar split]. rewrite orb_false_iff. intros [-> Hs]. by rewrite IH.
Qed.

Lemma split_app sep s t : hasChar sep s = false -> split sep (s +:+ String sep t) = s :: split sep t.
Proof.
  induction s as [|c s IH]; cbn [hasChar]; [intros _|rewrite orb_false_iff; intros [Hc Hs]].
  - change (EmptyString +:+ String sep t) with (String sep t). cbn [split]. by rewrite Ascii.eqb_refl.
  - change (String c s +:+ String sep t) with (String c (s +:+ String sep t)). cbn [split]. by rewrite Hc, (IH Hs).
Qed.

(** Splitting undoes joining. *)
Lemma split_join sep l : l ≠ [] -> Forall (fun s => hasChar sep s = false) l -> split sep (join (String sep EmptyString) l) = l.
Proof.
  intros Hne Hl. induction Hl as [|s l Hs Hl IH]; [done|]. destruct l as [|s' l]; [by apply split_plain|].
  change (join (String sep EmptyString) (s :: s' :: l)) with (s +:+ String sep EmptyString +:+ join (String sep EmptyString) (s' :: l)).
  change (String sep EmptyString +:+ ?x) with (String sep x). rewrite split_app by done. by rewrite IH.
Qed.

(** The canonical form of a sorted list does not depend on the order it came in. *)
Lemma merge_sort_perm l l' : l ≡ₚ l' -> merge_sort strLe l = merge_sort strLe l'.
Proof.
  intros Hp. apply (Sorted_unique strLe); [apply Sorted_merge_sort, _..|]. by rewrite !merge_sort_Permutation.
Qed.

(** The name and value a query parameter stands for. *)
Definition pairOf (kv : string) : string * string := let (k, v) := cut "=" kv in (unescape k, unescape v).

(** A part of a query: a parameter, with nothing in it that ends one. *)
Definition partOK (kv : string) : Prop := kv ≠ "" /\ hasChar "&" kv = false.

Lemma filter_parts l : Forall partOK l -> filter (fun kv => kv ≠ "") l = l.
Proof. induction 1 as [|kv l [Hk _] _ IH]; [done|]. rewrite filter_cons_True by done. by rewrite IH. Qed.

(** The canonical form of the parameters of a query. *)
Definition canonicalPairs (ps : list (string * string)) : string :=
  join "&" (merge_sort strLe (map (fun kv => uriEncode kv.1 true +:+ "=" +:+ uriEncode kv.2 true) ps)).

Lemma canonicalQuery_parts l : Forall partOK l -> canonicalQuery (join "&" l) = canonicalPairs (map pairOf l).
Proof.
  intros Hk. unfold canonicalPairs. rewrite map_map. destruct l as [|x l]; [done|]. unfold canonicalQuery.
  assert (Hne : String.eqb (join "&" (x :: l)) "" = false).
  { apply String.eqb_neq. intros He. apply list.Forall_cons in Hk as [[Hx _] _]. destruct x; [done|]. by destruct l. }
  rewrite Hne. rewrite (split_join "&" (x :: l)); [|done|by eapply list.Forall_impl; [exact Hk|]; intros ? []].
  rewrite filter_parts by done. do 2 f_equal. apply map_ext. intros kv. unfold canonicalPair, pairOf. by destruct (cut "=" kv).
Qed.

Lemma canonicalPairs_perm ps ps' : ps ≡ₚ ps' -> canonicalPairs ps = canonicalPairs ps'.
Proof. intros Hp. unfold canonicalPairs. f_equal. apply merge_sort_perm. by rewrite Hp. Qed.

(** A query is signed in one form: two queries with the same parameters,
    whatever order they are in and however their names and values are escaped,
    have the same canonical query. *)
Lemma query_canonical l l' :
  Forall partOK l -> Forall partOK l' -> map pairOf l ≡ₚ map pairOf l' ->
  canonicalQuery (join "&" l) = canonicalQuery (join "&" l').
Proof. intros Hl Hl' Hp. rewrite !canonicalQuery_parts by done. by apply canonicalPairs_perm. Qed.
