(* ===== verification/Local.v ===== *)
(** * The directory store (internal/store/local.go)

    The store over a model of the directory it is given: [disk] holds the nodes
    below the root by path, and the faults and random names the operating
    system has in store for the calls to come. Each function of package os that
    the store calls is an operation on the disk; a fault makes it fail, a write
    after part of its bytes. Paths are relative to the root; md5 is a parameter.
    Calls run one after another; PutIfMatch holds a mutex throughout. *)

From Stdlib Require Import Ascii Strings.Byte.
From stdpp Require Import sorting pretty.
From S2P Require Import Prelude Vfs Store ReadDir SigV4.

(** [hex.EncodeToString] of an MD5 sum. *)
Class Md5 := md5Hex : bytes -> string.

(** ** The file system *)

Abbreviation path_ := (list string).

Inductive node := File (b : bytes) | Dir.

Record disk := mkDisk {
  nodes : gmap path_ node;
  faults : list (option nat);
  randoms : list Z
}.

Definition set_nodes (m : gmap path_ node) (d : disk) : disk := mkDisk m (faults d) (randoms d).

(** What an os function fails with: that the file does not exist, or another
    error. *)
Inductive osErr := NotExist | OtherErr (m : string).

(** [errors.Is(err, os.ErrNotExist)]. *)
Definition isNotExist (e : osErr) : bool := match e with NotExist => true | OtherErr _ => false end.

Definition osMsg (e : osErr) : error := match e with NotExist => EMsg "file does not exist" | OtherErr m => EMsg m end.

(** The fault of the next call, with how far it gets. *)
Definition nextFault (d : disk) : option nat * disk :=
  match faults d with [] => (None, d) | f :: fs => (f, mkDisk (nodes d) fs (randoms d)) end.

Definition fileAt (m : gmap path_ node) (p : path_) : option bytes :=
  match m !! p with Some (File b) => Some b | _ => None end.

Definition isFile (m : gmap path_ node) (p : path_) : bool := match m !! p with Some (File _) => true | _ => false end.

(** The directories a path goes through. *)
Definition ancestors (p : path_) : list path_ := map (fun i => take i p) (seq 0 (length p)).

Definition walkTo (m : gmap path_ node) (p : path_) : res osErr node :=
  if existsb (isFile m) (ancestors p) then Err (OtherErr "not a directory")
  else match m !! p with Some n => Ok n | None => Err NotExist end.

(** [os.Stat], giving the size of a file. *)
Definition osStat (p : path_) (d : disk) : res osErr Z * disk :=
  let (f, d) := nextFault d in
  (match f with
   | Some _ => Err (OtherErr "input/output error")
   | None => match walkTo (nodes d) p with Ok (File b) => Ok (blen b) | Ok Dir => Ok 0 | Err e => Err e end
   end, d).

(** [os.ReadFile]; [os.Open] followed by reads of it fails likewise. *)
Definition osReadFile (p : path_) (d : disk) : res osErr bytes * disk :=
  let (f, d) := nextFault d in
  (match f with
   | Some _ => Err (OtherErr "input/output error")
   | None => match walkTo (nodes d) p with
             | Ok (File b) => Ok b
             | Ok Dir => Err (OtherErr "is a directory")
             | Err e => Err e
             end
   end, d).

(** [os.MkdirAll] along the directories in order. *)
Fixpoint mkdirs (ps : list path_) (d : disk) : res osErr unit * disk :=
  match ps with
  | [] => (Ok tt, d)
  | p :: ps =>
      match nodes d !! p with
      | Some Dir => mkdirs ps d
      | Some (File _) => (Err (OtherErr "not a directory"), d)
      | None =>
          let (f, d) := nextFault d in
          match f with
          | Some _ => (Err (OtherErr "input/output error"), d)
          | None => mkdirs ps (set_nodes (<[p := Dir]> (nodes d)) d)
          end
      end
  end.

Definition osMkdirAll (p : path_) (d : disk) : res osErr unit * disk := mkdirs (ancestors p ++ [p]) d.

Definition tempName (n : Z) : string := ".tmp-" +:+ pretty n.

(** The first of the random names that is not taken. *)
Fixpoint freeName (m : gmap path_ node) (dir : path_) (rs : list Z) : option (string * list Z) :=
  match rs with
  | [] => None
  | r :: rs => if bool_decide (m !! (dir ++ [tempName r]) = None) then Some (tempName r, rs) else freeName m dir rs
  end.

(** [os.CreateTemp]: an empty file under a name of its own. *)
Definition osCreateTemp (dir : path_) (d : disk) : res osErr path_ * disk :=
  let (f, d) := nextFault d in
  match f with
  | Some _ => (Err (OtherErr "input/output error"), d)
  | None =>
      match walkTo (nodes d) dir with
      | Ok Dir =>
          match freeName (nodes d) dir (randoms d) with
          | Some (n, rs) => (Ok (dir ++ [n]), mkDisk (<[dir ++ [n] := File []]> (nodes d)) (faults d) rs)
          | None => (Err (OtherErr "file exists"), d)
          end
      | Ok (File _) => (Err (OtherErr "not a directory"), d)
      | Err e => (Err e, d)
      end
  end.

(** Writing to the file made, which may stop part of the way. *)
Definition osWrite (tmp : path_) (data : bytes) (d : disk) : res osErr unit * disk :=
  let (f, d) := nextFault d in
  match f with
  | Some n => (Err (OtherErr "no space left on device"), set_nodes (<[tmp := File (take n data)]> (nodes d)) d)
  | None => (Ok tt, set_nodes (<[tmp := File data]> (nodes d)) d)
  end.

Definition osClose (d : disk) : res osErr unit * disk :=
  let (f, d) := nextFault d in (match f with Some _ => Err (OtherErr "input/output error") | None => Ok tt end, d).

(** [os.Rename] of a file: over a file or onto a free name, never over a
    directory, and in one step. *)
Definition osRename (old new : path_) (d : disk) : res osErr unit * disk :=
  let (f, d) := nextFault d in
  match f with
  | Some _ => (Err (OtherErr "input/output error"), d)
  | None =>
      match nodes d !! old, walkTo (nodes d) new with
      | Some n, Ok Dir => (Err (OtherErr "file exists"), d)
      | Some n, Ok (File _) | Some n, Err NotExist => (Ok tt, set_nodes (<[new := n]> (delete old (nodes d))) d)
      | Some _, Err e => (Err e, d)
      | None, _ => (Err NotExist, d)
      end
  end.

(** [os.Remove]: a file, or a directory with nothing in it. *)
Definition hasChild (m : gmap path_ node) (p : path_) : bool :=
  existsb (fun q => bool_decide (length q = S (length p) /\ take (length p) q = p)) (map fst (map_to_list m)).

Definition osRemove (p : path_) (d : disk) : res osErr unit * disk :=
  let (f, d) := nextFault d in
  match f with
  | Some _ => (Err (OtherErr "input/output error"), d)
  | None =>
      match walkTo (nodes d) p with
      | Ok (File _) => (Ok tt, set_nodes (delete p (nodes d)) d)
      | Ok Dir => if hasChild (nodes d) p then (Err (OtherErr "directory not empty"), d) else (Ok tt, set_nodes (delete p (nodes d)) d)
      | Err e => (Err e, d)
      end
  end.

(** ** Keys *)

(** [filepath.Clean] of a rooted path, by its segments. *)
Definition cleanStep (acc : list string) (s : string) : list string :=
  if String.eqb s "" || String.eqb s "." then acc else if String.eqb s ".." then tail acc else s :: acc.

Definition cleanSegs (l : list string) : list string := rev (fold_left cleanStep l []).

(** [strings.Contains(s, "..")]. *)
Fixpoint hasDots (s : string) : bool :=
  match s with
  | String a s' => (Ascii.eqb a "." && match s' with String b _ => Ascii.eqb b "." | _ => false end) || hasDots s'
  | EmptyString => false
  end.

Definition segs (key : string) : path_ := cleanSegs (split "/" key).

Definition path (key : string) : result path_ :=
  if String.eqb key "" then Err (EMsg "store: empty key")
  else if hasDots ("/" +:+ join "/" (segs key)) then Err (EMsg ("store: invalid key " +:+ key))
  else Ok (segs key).

(** ** The store *)

Module Directory.

Section Directory.
Context {Md : Md5}.

Definition NewLocal (d : disk) : result unit * disk :=
  match osMkdirAll [] d with (Ok _, d) => (Ok tt, d) | (Err e, d) => (Err (osMsg e), d) end.

(** A read of the file of a key. *)
Definition readKey (key : string) (d : disk) : result bytes * disk :=
  match path key with
  | Err e => (Err e, d)
  | Ok p =>
      match osReadFile p d with
      | (Ok b, d) => (Ok b, d)
      | (Err e, d) => (Err (if isNotExist e then EStore ErrNotFound else osMsg e), d)
      end
  end.

Definition Get (key : string) (d : disk) : result bytes * disk := readKey key d.

Definition GetWithETag (key : string) (d : disk) : result (bytes * string) * disk :=
  match readKey key d with (Ok b, d) => (Ok (b, md5Hex b), d) | (Err e, d) => (Err e, d) end.

(** For an offset that is not negative. *)
Definition GetRange (key : string) (off n : Z) (d : disk) : result bytes * disk :=
  match readKey key d with (Ok b, d) => (Ok (btake n (bdrop off b)), d) | (Err e, d) => (Err e, d) end.

Definition etag (p : path_) (d : disk) : result string * disk :=
  match osReadFile p d with (Ok b, d) => (Ok (md5Hex b), d) | (Err e, d) => (Err (osMsg e), d) end.

Definition Head (key : string) (d : disk) : result ObjectInfo * disk :=
  match path key with
  | Err e => (Err e, d)
  | Ok p =>
      match osStat p d with
      | (Err e, d) => (Err (if isNotExist e then EStore ErrNotFound else osMsg e), d)
      | (Ok size, d) => match etag p d with (Ok et, d) => (Ok (mkObjectInfo key size et), d) | (Err e, d) => (Err e, d) end
      end
  end.

(** What Put does between making the temporary file and the deferred removal
    of it. *)
Definition fill (tmp p : path_) (data : bytes) (d : disk) : res osErr unit * disk :=
  match osWrite tmp data d with
  | (Err e, d) => (Err e, (osClose d).2)
  | (Ok _, d) => match osClose d with (Err e, d) => (Err e, d) | (Ok _, d) => osRename tmp p d end
  end.

Definition Put (key : string) (data : bytes) (d : disk) : result unit * disk :=
  match path key with
  | Err e => (Err e, d)
  | Ok p =>
      let dir := take (length p - 1) p in
      match osMkdirAll dir d with
      | (Err e, d) => (Err (osMsg e), d)
      | (Ok _, d) =>
          match osCreateTemp dir d with
          | (Err e, d) => (Err (osMsg e), d)
          | (Ok tmp, d) =>
              let (r, d) := fill tmp p data d in
              (match r with Ok _ => Ok tt | Err e => Err (osMsg e) end, (osRemove tmp d).2)
          end
      end
  end.

Definition Delete (key : string) (d : disk) : result unit * disk :=
  match path key with
  | Err e => (Err e, d)
  | Ok p =>
      match osRemove p d with
      | (Ok _, d) => (Ok tt, d)
      | (Err e, d) => (if isNotExist e then Ok tt else Err (osMsg e), d)
      end
  end.

Definition PutIfMatch (key : string) (data : bytes) (etag : string) (d : disk) : result string * disk :=
  let (cur, d) := Head key d in
  let refused :=
    match cur with
    | Err e => if errIs e ErrNotFound then (if String.eqb etag "" then None else Some (EStore ErrPrecondition)) else Some e
    | Ok i => if String.eqb etag "" || negb (String.eqb (oiETag i) etag) then Some (EStore ErrPrecondition) else None
    end in
  match refused with
  | Some e => (Err e, d)
  | None => match Put key data d with (Ok _, d) => (Ok (md5Hex data), d) | (Err e, d) => (Err e, d) end
  end.

(** A name a file can have. *)
Definition nameOK (s : string) : bool :=
  negb (String.eqb s "") && negb (hasChar "/" s) && negb (String.eqb s ".") && negb (String.eqb s "..").

Definition isTemp (p : path_) : bool := match list.last p with Some s => String.prefix ".tmp-" s | None => false end.

(** The files [filepath.WalkDir] comes to, but for temporary ones, by key. *)
Definition walked (m : gmap path_ node) : list (string * bytes) :=
  omap (fun pn : path_ * node =>
    match pn.2 with
    | File b => if negb (bool_decide (pn.1 = [])) && forallb nameOK pn.1 && negb (isTemp pn.1) then Some (join "/" pn.1, b) else None
    | Dir => None
    end) (map_to_list m).

Definition infoLe (x y : ObjectInfo) : Prop := strLe (oiKey x) (oiKey y).

#[global] Instance infoLe_dec x y : Decision (infoLe x y).
Proof. unfold infoLe. apply _. Defined.

Definition List (prefix after : string) (max : Z) (d : disk) : result (list ObjectInfo) * disk :=
  let (f, d) := nextFault d in
  match f with
  | Some _ => (Err (EMsg "input/output error"), d)
  | None =>
      let out := omap (fun kb : string * bytes =>
        if negb (String.prefix prefix kb.1) || String.leb kb.1 after then None else Some (mkObjectInfo kb.1 (blen kb.2) "")) (walked (nodes d)) in
      let out := merge_sort infoLe out in
      (Ok (if (0 <? max) && (max <? blen out) then btake max out else out), d)
  end.

End Directory.

Definition localName (root : string) : string := "local:" +:+ root.

Definition store {Md : Md5} (root : string) : Store disk := {|
  Store.Get := Get;
  Store.GetRange := GetRange;
  Store.Head := Head;
  Store.Put := Put;
  Store.Delete := Delete;
  ListObjects := List;
  Store.PutIfMatch := PutIfMatch;
  Name := localName root;
  Store.GetWithETag := GetWithETag
|}.

End Directory.
