(* ===== verification/LocalSpec.v ===== *)
(** * The directory store keeps the store's laws

    The objects of a directory are its files under the keys that are paths as
    they stand; temporary files are not objects. Whatever call of the operating
    system fails, and wherever a write of it stops, an object is its old self or
    the new one whole, and a write that fails leaves all of them. *)

From Stdlib Require Import Ascii Strings.Byte.
From stdpp Require Import sorting pretty.
From S2P Require Import Prelude Vfs Store ReadDir SigV4 Local.
Import Directory.

(** ** Keys and paths *)

(** A key that is the path of a file as it stands, and not a temporary one. *)
Definition goodKey (k : string) : Prop := join "/" (segs k) = k /\ segs k ≠ [] /\ isTemp (segs k) = false.

#[global] Instance goodKey_dec k : Decision (goodKey k).
Proof. unfold goodKey. apply _. Defined.

Lemma cleanSegs_ok l : forallb nameOK l = true -> cleanSegs l = l.
Proof.
  intros Hl. unfold cleanSegs. assert (Hgo : forall acc, fold_left cleanStep l acc = rev l ++ acc); [|by rewrite Hgo, app_nil_r, rev_involutive].
  induction l as [|s l IH]; intros acc; [done|]. cbn [forallb] in Hl. apply andb_true_iff in Hl as [Hs Hl]. cbn [fold_left rev].
  rewrite (IH Hl). unfold nameOK in Hs. rewrite !andb_true_iff, !negb_true_iff in Hs. destruct Hs as [[[H1 _] H3] H4].
  unfold cleanStep. rewrite H1, H3, H4. cbn [orb]. by rewrite <- app_assoc.
Qed.

(** The key of a path leads back to it. *)
Lemma segs_join p : p ≠ [] -> forallb nameOK p = true -> segs (join "/" p) = p.
Proof.
  intros Hp Hn. unfold segs. change "/"%string with (String "/" EmptyString). rewrite split_join; [by apply cleanSegs_ok|done|].
  apply list.Forall_forall. intros s Hs. rewrite forallb_forall in Hn. specialize (Hn s (proj1 (list_elem_of_In _ _) Hs)).
  unfold nameOK in Hn. rewrite !andb_true_iff, !negb_true_iff in Hn. tauto.
Qed.

Lemma split_nonempty sep s : split sep s ≠ [].
Proof. destruct s as [|c s]; cbn [split]; [done|]. destruct (Ascii.eqb c sep); [done|]. by destruct (split sep s). Qed.

(** Joining undoes splitting. *)
Lemma join_split sep s : join (String sep EmptyString) (split sep s) = s.
Proof.
  induction s as [|c s IH]; [done|]. cbn [split]. destruct (Ascii.eqb_spec c sep) as [->|Hc].
  - pose proof (split_nonempty sep s) as Hn. destruct (split sep s) as [|x l]; [done|].
    change (join (String sep EmptyString) (EmptyString :: x :: l)) with (String sep (join (String sep EmptyString) (x :: l))). by rewrite IH.
  - pose proof (split_nonempty sep s) as Hn. destruct (split sep s) as [|x l]; [done|]. rewrite <- IH. by destruct l.
Qed.

(** A segment of a plain key. *)
Definition plainSeg (s : string) : Prop := nameOK s = true /\ String.prefix ".tmp-" s = false.

Lemma wordChar_name c s : wordChar c = true -> hasChar "/" s = false -> plainSeg (String c s).
Proof.
  intros Hc Hs. assert (H1 : Ascii.eqb c "/" = false) by (apply not_true_is_false; intros ->%Ascii.eqb_eq; done).
  assert (H2 : Ascii.eqb c "." = false) by (apply not_true_is_false; intros ->%Ascii.eqb_eq; done). split.
  - unfold nameOK. cbn [String.eqb hasChar]. rewrite H1, H2, Hs. done.
  - cbn [String.prefix]. destruct (ascii_dec "." c) as [<-|_]; [by rewrite Ascii.eqb_refl in H2|done].
Qed.

Lemma plain_split fresh dot k : plainFrom fresh dot k = true ->
  exists x l, split "/" k = x :: l /\ hasChar "/" x = false /\ Forall plainSeg l /\ (fresh = true -> plainSeg x).
Proof.
  revert fresh dot. induction k as [|c k IH]; intros fresh dot; cbn [plainFrom split].
  { intros H. exists "", []. do 2 (split; [done|]). split; [constructor|]. by destruct fresh. }
  destruct (Ascii.eqb c "/") eqn:Ec.
  - rewrite andb_true_iff. intros [Hf Hk]. destruct (IH _ _ Hk) as (x&l&->&Hx&Hl&Hp). exists "", (x :: l).
    do 2 (split; [done|]). split; [constructor; [by apply Hp|done]|]. by destruct fresh.
  - destruct (Ascii.eqb c ".") eqn:Ed.
    + rewrite !andb_true_iff. intros [[Hf _] Hk]. destruct (IH _ _ Hk) as (x&l&->&Hx&Hl&_). exists (String c x), l.
      split; [done|]. split; [cbn [hasChar]; by rewrite Ec|]. split; [done|]. by destruct fresh.
    + rewrite andb_true_iff. intros [Hc Hk]. destruct (IH _ _ Hk) as (x&l&->&Hx&Hl&_). exists (String c x), l.
      split; [done|]. split; [cbn [hasChar]; by rewrite Ec|]. split; [done|]. intros _. by apply wordChar_name.
Qed.

(** The keys of the filesystem are good. *)
Lemma plain_good k : plainKey k = true -> goodKey k.
Proof.
  intros H. destruct (plain_split true false k H) as (x&l&Hs&_&Hl&Hx). specialize (Hx eq_refl).
  assert (Hall : Forall plainSeg (x :: l)) by by constructor.
  assert (Hn : forallb nameOK (x :: l) = true).
  { apply forallb_forall. intros s Hin%list_elem_of_In. rewrite list.Forall_forall in Hall. by apply Hall. }
  assert (Hsg : segs k = x :: l) by (unfold segs; rewrite Hs; by apply cleanSegs_ok).
  unfold goodKey. rewrite Hsg. split; [rewrite <- Hs; exact (join_split "/" k)|]. split; [done|].
  unfold isTemp. destruct (list.last (x :: l)) as [y|] eqn:El; [|done]. apply last_Some_elem_of in El.
  rewrite list.Forall_forall in Hall. by apply Hall.
Qed.

(** ** The objects of a directory *)

Definition entry (pn : path_ * node) : option (string * bytes) :=
  match pn.2 with
  | File b => if bool_decide (goodKey (join "/" pn.1) /\ segs (join "/" pn.1) = pn.1) then Some (join "/" pn.1, b) else None
  | Dir => None
  end.

Definition contents (m : gmap path_ node) : gmap string bytes := list_to_map (omap entry (map_to_list m)).

Lemma contents_lookup m k b : contents m !! k = Some b <-> goodKey k /\ m !! segs k = Some (File b).
Proof.
  assert (Hin : forall k b, (k, b) ∈ omap entry (map_to_list m) <-> goodKey k /\ m !! segs k = Some (File b)).
  { intros k0 b0. rewrite list_elem_of_omap. split.
    - intros ([p n]&Hp&He). apply elem_of_map_to_list in Hp. unfold entry in He. cbn [fst snd] in He. destruct n as [c|]; [|done].
      case_bool_decide as Hg; [|done]. destruct Hg as [Hg Hs]. injection He as <- <-. by rewrite Hs.
    - intros [Hg Hm]. exists (segs k0, File b0). rewrite elem_of_map_to_list. split; [done|]. unfold entry. cbn [fst snd].
      pose proof Hg as (Hj&_&_). rewrite Hj. by rewrite bool_decide_eq_true_2. }
  unfold contents. split.
  - intros H%elem_of_list_to_map_2. by apply Hin.
  - intros H. apply elem_of_list_to_map_1'; [|by apply Hin]. intros b' Hb'%Hin. destruct H as [_ H], Hb' as [_ H']. congruence.
Qed.

Lemma contents_none m k : goodKey k -> fileAt m (segs k) = None -> contents m !! k = None.
Proof.
  intros Hg Hf. apply eq_None_not_Some. intros [b [_ Hb]%contents_lookup]. unfold fileAt in Hf. by rewrite Hb in Hf.
Qed.

Lemma contents_file m k : contents m !! k = if decide (goodKey k) then fileAt m (segs k) else None.
Proof.
  destruct (contents m !! k) as [b|] eqn:E.
  - apply contents_lookup in E as [Hg Hm]. rewrite decide_True by done. unfold fileAt. by rewrite Hm.
  - case_decide as Hg; [|done]. unfold fileAt. destruct (m !! segs k) as [[b|]|] eqn:Em; [|done..].
    by rewrite (proj2 (contents_lookup m k b)) in E.
Qed.

(** Nothing but temporary files and directories changes. *)
Definition quiet (m m' : gmap path_ node) : Prop := forall p, isTemp p = false -> fileAt m' p = fileAt m p.

Lemma quiet_refl m : quiet m m.
Proof. done. Qed.

Lemma quiet_trans a b c : quiet a b -> quiet b c -> quiet a c.
Proof. intros H1 H2 p Hp. by rewrite H2, H1. Qed.

Lemma quiet_contents m m' : quiet m m' -> contents m' = contents m.
Proof.
  intros Hq. apply map_eq. intros k. rewrite !contents_file. case_decide as Hg; [|done]. apply Hq, Hg.
Qed.

Lemma quiet_temp m p n : isTemp p = true -> quiet m (<[p := n]> m).
Proof. intros Hp q Hq. unfold fileAt. rewrite lookup_insert_ne; [done|]. intros ->. congruence. Qed.

Lemma quiet_drop_temp m p : isTemp p = true -> quiet m (delete p m).
Proof. intros Hp q Hq. unfold fileAt. rewrite lookup_delete_ne; [done|]. intros ->. congruence. Qed.

Lemma quiet_dir m p : m !! p = None -> quiet m (<[p := Dir]> m).
Proof. intros Hp q _. unfold fileAt. rewrite lookup_insert. case_decide as E; [|done]. subst. by rewrite Hp. Qed.

(** One object changes. *)
Lemma contents_put m m' k b : goodKey k -> (forall p, isTemp p = false -> p ≠ segs k -> fileAt m' p = fileAt m p) -> fileAt m' (segs k) = b ->
  contents m' = partial_alter (fun _ => b) k (contents m).
Proof.
  intros Hg Ho Hb. apply map_eq. intros j. rewrite contents_file. destruct (decide (j = k)) as [->|Hj].
  - rewrite lookup_partial_alter_eq, decide_True by done. done.
  - rewrite lookup_partial_alter_ne by done. rewrite contents_file. case_decide as Hg'; [|done]. apply Ho; [apply Hg'|].
    intros E. apply Hj. destruct Hg as [<- _], Hg' as [<- _]. by rewrite E.
Qed.

(** ** What each call of the operating system does to the objects *)

Lemma nextFault_nodes d : nodes (nextFault d).2 = nodes d.
Proof. unfold nextFault. by destruct (faults d). Qed.

Ltac next_fault d :=
  let H := fresh "Hn" in pose proof (nextFault_nodes d) as H; destruct (nextFault d) as [? ?]; cbn [snd] in H; rewrite <- ?H in *; clear H.

Lemma osStat_nodes p d : nodes (osStat p d).2 = nodes d.
Proof. unfold osStat. next_fault d. done. Qed.

Lemma osReadFile_nodes p d : nodes (osReadFile p d).2 = nodes d.
Proof. unfold osReadFile. next_fault d. done. Qed.

Lemma osReadFile_ok p d b : (osReadFile p d).1 = Ok b -> fileAt (nodes d) p = Some b.
Proof.
  unfold osReadFile, walkTo, fileAt. next_fault d. destruct o; [done|]. cbn [fst].
  destruct (existsb _ _); [done|]. destruct (_ !! p) as [[c|]|]; [|done..]. by intros [= ->].
Qed.

Lemma walkTo_missing m p : walkTo m p = Err NotExist -> m !! p = None.
Proof. unfold walkTo. destruct (existsb _ _); [done|]. by destruct (m !! p). Qed.

Lemma missing_file m p : m !! p = None -> fileAt m p = None.
Proof. unfold fileAt. by intros ->. Qed.

Lemma osReadFile_missing p d : (osReadFile p d).1 = Err NotExist -> fileAt (nodes d) p = None.
Proof.
  unfold osReadFile. next_fault d. destruct o; [done|]. cbn [fst].
  destruct (walkTo (nodes d0) p) as [[c|]|e] eqn:Ew; [done..|]. intros [= ->]. by apply missing_file, walkTo_missing.
Qed.

Lemma osStat_missing p d : (osStat p d).1 = Err NotExist -> fileAt (nodes d) p = None.
Proof.
  unfold osStat. next_fault d. destruct o; [done|]. cbn [fst].
  destruct (walkTo (nodes d0) p) as [[c|]|e] eqn:Ew; [done..|]. intros [= ->]. by apply missing_file, walkTo_missing.
Qed.

Lemma mkdirs_quiet ps d : quiet (nodes d) (nodes (mkdirs ps d).2).
Proof.
  revert d. induction ps as [|p ps IH]; intros d; [done|]. cbn [mkdirs]. destruct (nodes d !! p) as [[b|]|] eqn:Ep; [done|apply IH|].
  next_fault d. destruct o; [done|]. eapply quiet_trans; [by apply quiet_dir|apply IH].
Qed.

Lemma osClose_nodes d : nodes (osClose d).2 = nodes d.
Proof. unfold osClose. next_fault d. done. Qed.

Lemma isTemp_snoc p s : isTemp (p ++ [s]) = String.prefix ".tmp-" s.
Proof. unfold isTemp. by rewrite last_snoc. Qed.

Lemma tempName_temp n : String.prefix ".tmp-" (tempName n) = true.
Proof. unfold tempName. cbn. by destruct (pretty n). Qed.

Lemma freeName_spec m dir rs n rs' : freeName m dir rs = Some (n, rs') -> String.prefix ".tmp-" n = true /\ m !! (dir ++ [n]) = None.
Proof.
  induction rs as [|r rs IH]; cbn [freeName]; [done|]. case_bool_decide as Hr; [|done]. intros [= <- _]. by split; [apply tempName_temp|].
Qed.

(** The file made is a temporary one, under a name that was free. *)
Lemma osCreateTemp_spec dir d : quiet (nodes d) (nodes (osCreateTemp dir d).2) /\
  forall tmp, (osCreateTemp dir d).1 = Ok tmp -> isTemp tmp = true /\ nodes d !! tmp = None.
Proof.
  unfold osCreateTemp. next_fault d. destruct o; [done|]. destruct (walkTo (nodes d0) dir) as [[b|]|e]; [done| |done].
  destruct (freeName (nodes d0) dir (randoms d0)) as [[n rs]|] eqn:Ef; [|done]. apply freeName_spec in Ef as [Ht Hn]. cbn [fst snd nodes].
  split; [apply quiet_temp; by rewrite isTemp_snoc|]. intros tmp [= <-]. by rewrite isTemp_snoc.
Qed.

Lemma osWrite_quiet tmp b d : isTemp tmp = true -> quiet (nodes d) (nodes (osWrite tmp b d).2).
Proof. intros Ht. unfold osWrite. next_fault d. destruct o; by apply quiet_temp. Qed.

Lemma osWrite_ok tmp b d : (osWrite tmp b d).1 = Ok tt -> nodes (osWrite tmp b d).2 !! tmp = Some (File b).
Proof. unfold osWrite. next_fault d. destruct o; [done|]. intros _. apply lookup_insert_eq. Qed.

Lemma osRemove_quiet tmp d : isTemp tmp = true -> quiet (nodes d) (nodes (osRemove tmp d).2).
Proof.
  intros Ht. unfold osRemove. next_fault d. destruct o; [done|]. destruct (walkTo (nodes d0) tmp) as [[b|]|e]; [by apply quiet_drop_temp| |done].
  destruct (hasChild _ _); [done|by apply quiet_drop_temp].
Qed.

(** A rename that fails changes nothing; one that is made puts the file whole
    in its place. *)
Lemma osRename_spec old new d b : nodes d !! old = Some (File b) ->
  match (osRename old new d).1 with
  | Err _ => nodes (osRename old new d).2 = nodes d
  | Ok _ => nodes (osRename old new d).2 = <[new := File b]> (delete old (nodes d))
  end.
Proof.
  intros Ho. unfold osRename. next_fault d. destruct o; [done|]. rewrite Ho.
  destruct (walkTo (nodes d0) new) as [[c|]|[|m]]; done.
Qed.

(** What a write does to the object of its key. *)
Definition writes (p : path_) (b : option bytes) (m m' : gmap path_ node) : Prop :=
  (forall q, isTemp q = false -> q ≠ p -> fileAt m' q = fileAt m q) /\ fileAt m' p = b.

Lemma writes_quiet p b m m' m'' m''' : isTemp p = false -> quiet m m' -> writes p b m' m'' -> quiet m'' m''' -> writes p b m m'''.
Proof.
  intros Hp H1 [H2 H3] H4. split; [|by rewrite H4]. intros q Hq Hne. by rewrite H4, H2, H1.
Qed.

Lemma contents_writes m m' k b : goodKey k -> writes (segs k) b m m' -> contents m' = partial_alter (fun _ => b) k (contents m).
Proof. intros Hg [H1 H2]. by apply contents_put. Qed.

Lemma rename_writes old new d b : isTemp old = true -> isTemp new = false -> nodes d !! old = Some (File b) ->
  (osRename old new d).1 = Ok tt -> writes new (Some b) (nodes d) (nodes (osRename old new d).2).
Proof.
  intros Ho Hw Hf Hok. pose proof (osRename_spec old new d b Hf) as H. rewrite Hok in H. rewrite H. unfold writes, fileAt. split.
  - intros q Hq Hne. rewrite lookup_insert_ne by done. rewrite lookup_delete_ne; [done|]. intros ->. congruence.
  - by rewrite lookup_insert_eq.
Qed.

Section Laws.
Context {Md : Md5}.

(** The steps between the temporary file and its removal: all of the new
    object, or nothing of it. *)
Lemma fill_spec tmp p b d : isTemp tmp = true -> isTemp p = false ->
  match (fill tmp p b d).1 with
  | Ok _ => writes p (Some b) (nodes d) (nodes (fill tmp p b d).2)
  | Err _ => quiet (nodes d) (nodes (fill tmp p b d).2)
  end.
Proof.
  intros Ht Hp. unfold fill. pose proof (osWrite_quiet tmp b d Ht) as Hq. pose proof (osWrite_ok tmp b d) as Hok.
  destruct (osWrite tmp b d) as [[[]|e] d1]; cbn [fst snd] in *; [|by rewrite osClose_nodes]. specialize (Hok eq_refl).
  pose proof (osClose_nodes d1) as Hc. destruct (osClose d1) as [[[]|e] d2]; cbn [fst snd] in *; rewrite <- Hc in Hq, Hok; [|done].
  pose proof (osRename_spec tmp p d2 b Hok) as Hr. pose proof (rename_writes tmp p d2 b Ht Hp Hok) as Hw.
  destruct (osRename tmp p d2) as [[[]|e] d3]; cbn [fst snd] in *; [|by rewrite Hr].
  eapply writes_quiet; [done|exact Hq|by apply Hw|apply quiet_refl].
Qed.

Lemma path_good k : goodKey k -> path k = Ok (segs k) \/ exists m, path k = Err (EMsg m).
Proof. intros Hg. unfold path. destruct (String.eqb k ""); [eauto|]. destruct (hasDots _); eauto. Qed.

Lemma path_err k e : path k = Err e -> exists m, e = EMsg m.
Proof. unfold path. destruct (String.eqb k ""); [intros [= <-]; eauto|]. destruct (hasDots _); [|done]. intros [= <-]. eauto. Qed.

Lemma path_ok k p : path k = Ok p -> p = segs k.
Proof. unfold path. destruct (String.eqb k ""); [done|]. destruct (hasDots _); [done|]. by intros [= <-]. Qed.

Lemma localPut_spec k b d : goodKey k ->
  match (Put k b d).1 with
  | Ok _ => writes (segs k) (Some b) (nodes d) (nodes (Put k b d).2)
  | Err _ => quiet (nodes d) (nodes (Put k b d).2)
  end.
Proof.
  intros Hg. unfold Put. destruct (path k) as [p|e] eqn:Ep; [|done]. apply path_ok in Ep as ->. cbn zeta. set (dir := take _ _).
  pose proof (mkdirs_quiet (ancestors dir ++ [dir]) d) as Hq1. fold (osMkdirAll dir d) in Hq1.
  destruct (osMkdirAll dir d) as [[[]|e] d1]; cbn [fst snd] in *; [|done].
  pose proof (osCreateTemp_spec dir d1) as [Hq2 Ht]. destruct (osCreateTemp dir d1) as [[tmp|e] d2]; cbn [fst snd] in *; [|by eapply quiet_trans].
  destruct (Ht tmp eq_refl) as [Htmp _]. clear Ht. destruct Hg as (_&_&Hp).
  pose proof (fill_spec tmp (segs k) b d2 Htmp Hp) as Hf. destruct (fill tmp (segs k) b d2) as [[[]|e] d3]; cbn [fst snd] in *.
  - eapply writes_quiet; [done|by eapply quiet_trans|exact Hf|by apply osRemove_quiet].
  - eapply quiet_trans; [by eapply quiet_trans|]. eapply quiet_trans; [exact Hf|by apply osRemove_quiet].
Qed.

Lemma Put_contents k b d : goodKey k ->
  contents (nodes (Put k b d).2) = match (Put k b d).1 with Ok _ => <[k := b]> (contents (nodes d)) | Err _ => contents (nodes d) end.
Proof.
  intros Hg. pose proof (localPut_spec k b d Hg) as H. destruct (Put k b d).1; [by apply contents_writes|by apply quiet_contents].
Qed.

Lemma osRemove_spec p d :
  match (osRemove p d).1 with
  | Ok _ | Err NotExist => writes p None (nodes d) (nodes (osRemove p d).2)
  | Err _ => nodes (osRemove p d).2 = nodes d
  end.
Proof.
  unfold osRemove. next_fault d. destruct o; [done|].
  assert (Hw : writes p None (nodes d0) (delete p (nodes d0))).
  { unfold writes, fileAt. split; [|by rewrite lookup_delete_eq]. intros q _ Hne. by rewrite lookup_delete_ne. }
  destruct (walkTo (nodes d0) p) as [[b|]|[|m]] eqn:Ew; cbn [fst snd]; [exact Hw| | |done].
  - destruct (hasChild _ _); [done|exact Hw].
  - split; [done|]. by apply missing_file, walkTo_missing.
Qed.

Lemma Delete_contents k d : goodKey k ->
  contents (nodes (Delete k d).2) = match (Delete k d).1 with Ok _ => delete k (contents (nodes d)) | Err _ => contents (nodes d) end.
Proof.
  intros Hg. unfold Delete. destruct (path k) as [p|e] eqn:Ep; [|done]. apply path_ok in Ep as ->.
  pose proof (osRemove_spec (segs k) d) as H. destruct (osRemove (segs k) d) as [[[]|[|m]] d']; cbn [fst snd isNotExist] in *.
  - by apply contents_writes.
  - by apply contents_writes.
  - by rewrite H.
Qed.

Lemma readKey_nodes k d : nodes (readKey k d).2 = nodes d.
Proof.
  unfold readKey. destruct (path k) as [p|]; [|done]. pose proof (osReadFile_nodes p d) as H. by destruct (osReadFile p d) as [[|] ?].
Qed.

Lemma readKey_ok k d b : goodKey k -> (readKey k d).1 = Ok b -> contents (nodes d) !! k = Some b.
Proof.
  intros Hg. unfold readKey. destruct (path k) as [p|] eqn:Ep; [|done]. apply path_ok in Ep as ->.
  pose proof (osReadFile_ok (segs k) d) as H. destruct (osReadFile (segs k) d) as [[c|] ?]; [|done]. intros [= ->].
  rewrite contents_file, decide_True by done. by apply H.
Qed.

Lemma readKey_missing k d : goodKey k -> isNotFound (readKey k d).1 -> contents (nodes d) !! k = None.
Proof.
  intros Hg. unfold readKey. destruct (path k) as [p|e] eqn:Ep; [|by apply path_err in Ep as [m ->]]. apply path_ok in Ep as ->.
  pose proof (osReadFile_missing (segs k) d) as H. destruct (osReadFile (segs k) d) as [[c|[|m]] ?]; [done| |done]. intros _.
  by apply contents_none, H.
Qed.

Lemma Head_nodes k d : nodes (Head k d).2 = nodes d.
Proof.
  unfold Head, etag. destruct (path k) as [p|]; [|done]. pose proof (osStat_nodes p d) as H. destruct (osStat p d) as [[|] d1]; [|done].
  cbn [snd] in H. pose proof (osReadFile_nodes p d1) as H'. destruct (osReadFile p d1) as [[|] ?]; cbn [snd] in *; by rewrite H'.
Qed.

Lemma Head_ok k d i : goodKey k -> (Head k d).1 = Ok i -> exists b, contents (nodes d) !! k = Some b /\ oiETag i = md5Hex b.
Proof.
  intros Hg. unfold Head, etag. destruct (path k) as [p|] eqn:Ep; [|done]. apply path_ok in Ep as ->.
  pose proof (osStat_nodes (segs k) d) as Hn. destruct (osStat (segs k) d) as [[sz|] d1]; [|done]. cbn [snd] in Hn.
  pose proof (osReadFile_ok (segs k) d1) as H. destruct (osReadFile (segs k) d1) as [[b|] d2]; [|done]. intros [= <-].
  exists b. split; [|done]. rewrite contents_file, decide_True, <- Hn by done. by apply H.
Qed.

Lemma Head_missing k d e : goodKey k -> (Head k d).1 = Err e -> errIs e ErrNotFound = true -> contents (nodes d) !! k = None.
Proof.
  intros Hg. unfold Head, etag. destruct (path k) as [p|e'] eqn:Ep; [|apply path_err in Ep as [m ->]; by intros [= <-]]. apply path_ok in Ep as ->.
  pose proof (osStat_missing (segs k) d) as H. destruct (osStat (segs k) d) as [[sz|[|m]] d1].
  - destruct (osReadFile (segs k) d1) as [[b|[|m]] d2]; [done|by intros [= <-]..].
  - intros _ _. by apply contents_none, H.
  - by intros [= <-].
Qed.

#[local] Instance local_view : StoreView disk := {|
  keyOK := goodKey;
  objects d := contents (nodes d);
  etagOf d k := md5Hex <$> contents (nodes d) !! k
|}.

(** A conditional write that is made found the ETag it names. *)
Lemma localPutIfMatch_spec k b t d : goodKey k ->
  match (PutIfMatch k b t d).1 with
  | Ok t' => etagOf d k = (if String.eqb t "" then None else Some t) /\ t' = md5Hex b /\
      contents (nodes (PutIfMatch k b t d).2) = <[k := b]> (contents (nodes d))
  | Err _ => contents (nodes (PutIfMatch k b t d).2) = contents (nodes d)
  end.
Proof.
  intros Hg. unfold PutIfMatch. pose proof (Head_nodes k d) as Hn. pose proof (Head_ok k d) as Hok. pose proof (Head_missing k d) as Hmiss.
  destruct (Head k d) as [cur d1]; cbn [fst snd] in *. pose proof (Put_contents k b d1 Hg) as Hput. rewrite Hn in Hput.
  assert (Hno : contents (nodes d1) = contents (nodes d)) by by rewrite Hn.
  destruct (Put k b d1) as [[[]|e'] d2]; cbn [fst snd] in Hput; (destruct cur as [i|e]; cbn zeta;
    [destruct (Hok i Hg eq_refl) as (c&Hc&He); destruct (String.eqb t "") eqn:Et; [done|]; cbn [orb];
     destruct (String.eqb_spec (oiETag i) t) as [<-|]; [cbn; rewrite ?Hc, ?He|]; done
    |destruct (errIs e ErrNotFound) eqn:Ee; [|done]; destruct (String.eqb t "") eqn:Et; [|done]; cbn; by rewrite ?(Hmiss e Hg eq_refl Ee)]).
Qed.

(** ** Listing *)

Lemma cleanSegs_name l s : Forall (fun x => hasChar "/" x = false) l -> s ∈ cleanSegs l -> nameOK s = true.
Proof.
  unfold cleanSegs. rewrite list_elem_of_In, <- in_rev, <- list_elem_of_In. intros Hl. assert (Hacc : Forall (fun x => nameOK x = true) (@nil string)) by done. revert Hacc.
  generalize (@nil string) as acc. induction l as [|x l IH]; intros acc Hacc; cbn [fold_left]; [rewrite list.Forall_forall in Hacc; apply Hacc|].
  apply list.Forall_cons in Hl as [Hx Hl]. apply (IH Hl). unfold cleanStep. destruct (String.eqb x "") eqn:E1; [done|]. cbn [orb].
  destruct (String.eqb x ".") eqn:E2; [done|]. destruct (String.eqb x "..") eqn:E3; [by destruct Hacc|]. constructor; [|done].
  unfold nameOK. by rewrite E1, E2, E3, Hx.
Qed.

Lemma split_noSep sep k : Forall (fun x => hasChar sep x = false) (split sep k).
Proof.
  induction k as [|c k IH]; cbn [split]; [by repeat constructor|]. destruct (Ascii.eqb c sep) eqn:E; [by constructor|].
  destruct (split sep k) as [|x l]; [by repeat constructor; cbn; rewrite E|]. apply list.Forall_cons in IH as [Hx Hl]. constructor; [|done].
  cbn [hasChar]. by rewrite E.
Qed.

Lemma segs_names k : forallb nameOK (segs k) = true.
Proof.
  apply forallb_forall. intros s Hs%list_elem_of_In. eapply cleanSegs_name; [apply split_noSep|exact Hs].
Qed.

(** The walk comes to the objects, and to nothing else. *)
Lemma walked_spec m k b : (k, b) ∈ walked m <-> contents m !! k = Some b.
Proof.
  rewrite contents_lookup. unfold walked. rewrite list_elem_of_omap. split.
  - intros ([p n]&Hp&He). apply elem_of_map_to_list in Hp. cbn [fst snd] in He. destruct n as [c|]; [|done].
    case_bool_decide as Hnil; [done|]. cbn [negb andb] in He. destruct (forallb nameOK p) eqn:Hn; [|done].
    destruct (isTemp p) eqn:Ht; [done|]. injection He as <- <-. unfold goodKey. by rewrite (segs_join p Hnil Hn).
  - intros [(Hj&Hnil&Ht) Hm]. exists (segs k, File b). rewrite elem_of_map_to_list. split; [done|]. cbn [fst snd].
    by rewrite bool_decide_eq_false_2, segs_names, Ht, Hj by done.
Qed.

Lemma List_shape p a m d l : (Directory.List p a m d).1 = Ok l ->
  let out := merge_sort infoLe (omap (fun kb : string * bytes =>
    if negb (String.prefix p kb.1) || String.leb kb.1 a then None else Some (mkObjectInfo kb.1 (blen kb.2) "")) (walked (nodes d))) in
  l = if (0 <? m) && (m <? blen out) then btake m out else out.
Proof. unfold Directory.List. next_fault d. destruct o; [done|]. by intros [= <-]. Qed.

Lemma listed_spec p a m o :
  o ∈ omap (fun kb : string * bytes =>
    if negb (String.prefix p kb.1) || String.leb kb.1 a then None else Some (mkObjectInfo kb.1 (blen kb.2) "")) (walked m) <->
  String.prefix p (oiKey o) = true /\ String.leb (oiKey o) a = false /\
  exists b, contents m !! oiKey o = Some b /\ o = mkObjectInfo (oiKey o) (blen b) "".
Proof.
  rewrite list_elem_of_omap. split.
  - intros ([k b]&Hw%walked_spec&He). cbn [fst snd] in He. destruct (String.prefix p k) eqn:Hp; [|done]. cbn [negb orb] in He.
    destruct (String.leb k a) eqn:Ha; [done|]. injection He as <-. cbn [oiKey]. eauto.
  - intros (Hp&Ha&b&Hb&->). cbn [oiKey] in *. exists (oiKey o, b). rewrite walked_spec. split; [done|]. cbn [fst snd]. by rewrite Hp, Ha.
Qed.

Lemma List_sub p a m d l o : (Directory.List p a m d).1 = Ok l -> o ∈ l ->
  String.prefix p (oiKey o) = true /\ String.leb (oiKey o) a = false /\
  exists b, contents (nodes d) !! oiKey o = Some b /\ o = mkObjectInfo (oiKey o) (blen b) "".
Proof.
  intros Hl Ho. apply listed_spec. apply List_shape in Hl. cbn zeta in Hl. subst l.
  match type of Ho with context [merge_sort infoLe ?u] => rewrite <- (merge_sort_Permutation infoLe u) end.
  destruct (_ && _) in Ho; [by eapply Bucket.btake_sub|done].
Qed.

(** Listing a directory with no limit gives, sorted by key, exactly the
    objects whose key has the prefix and comes after the marker, each with its
    size: no temporary file and no directory. *)
Theorem list_exact p a d l : (Directory.List p a 0 d).1 = Ok l ->
  Sorted infoLe l /\
  forall o, o ∈ l <-> String.prefix p (oiKey o) = true /\ String.leb (oiKey o) a = false /\
    exists b, contents (nodes d) !! oiKey o = Some b /\ o = mkObjectInfo (oiKey o) (blen b) "".
Proof.
  intros Hl%List_shape. cbn [Z.ltb Z.compare andb] in Hl. cbn zeta in Hl. subst l. split.
  - apply Sorted_merge_sort. intros x y. apply strLe_total.
  - intros o. rewrite <- listed_spec. by rewrite (merge_sort_Permutation infoLe).
Qed.

(** The directory store keeps every law of the store interface. *)
Lemma local_laws root : @StoreLaws disk (Directory.store root) local_view.
Proof.
  split; cbn -[Directory.List]; intros k; intros.
  - by rewrite readKey_nodes.
  - by rewrite readKey_nodes.
  - by apply readKey_ok.
  - by apply readKey_missing.
  - by rewrite Head_nodes.
  - by rewrite Head_nodes.
  - destruct (Head_ok k w i) as (b&->&->); [done..|]. split; [eauto|done].
  - unfold Directory.List. next_fault w. by destruct o.
  - unfold Directory.List. next_fault w. by destruct o.
  - destruct (List_sub k a m w l o) as (Hp&_&b&Hb&_); [done..|]. split; [done|]. by apply contents_lookup in Hb as [? _].
  - unfold Directory.GetWithETag. pose proof (readKey_nodes k w) as H. by destruct (readKey k w) as [[|] ?]; cbn [snd] in *; rewrite H.
  - unfold Directory.GetWithETag. pose proof (readKey_nodes k w) as H. by destruct (readKey k w) as [[|] ?]; cbn [snd] in *; rewrite H.
  - revert H0. unfold Directory.GetWithETag. pose proof (readKey_ok k w) as Hr. destruct (readKey k w) as [[b|] ?]; [|done]. cbn. intros [= <- <-].
    by rewrite (Hr b).
  - revert H0. unfold Directory.GetWithETag. pose proof (readKey_missing k w H) as Hr. destruct (readKey k w) as [[b|] ?]; [done|]. exact Hr.
  - rewrite Put_contents by done. by rewrite H0.
  - rewrite Put_contents by done. rewrite H0. by left.
  - rewrite Put_contents by done. destruct (Put k d w).1; [by rewrite lookup_insert_ne|done].
  - rewrite Delete_contents by done. by rewrite H0.
  - rewrite Delete_contents by done. rewrite H0. by left.
  - rewrite Delete_contents by done. destruct (Delete k w).1; [by rewrite lookup_delete_ne|done].
  - pose proof (localPutIfMatch_spec k d t w H) as Hs. rewrite H0 in Hs. destruct Hs as (Hs&->&Hc). split; [done|]. rewrite Hc.
    split; [done|]. by rewrite lookup_insert_eq.
  - pose proof (localPutIfMatch_spec k d t w H) as Hs. rewrite H0 in Hs. left. by rewrite Hs.
  - by rewrite fmap_is_Some.
  - by apply plain_good.
Qed.

(** C25 The directory store keeps every law of the store interface, whatever
    calls of the operating system fail and wherever a write stops. It keeps more:
    a write that is made puts the object in place whole and touches no other, a
    write or a delete that fails leaves every object as it was, and so does a
    conditional write, which is made only against the ETag it names. *)
Theorem local_keeps_laws root : @StoreLaws disk (Directory.store root) local_view /\
  forall k b t d, goodKey k ->
    objects (Put k b d).2 = match (Put k b d).1 with Ok _ => <[k := b]> (objects d) | Err _ => objects d end /\
    objects (Delete k d).2 = match (Delete k d).1 with Ok _ => delete k (objects d) | Err _ => objects d end /\
    match (PutIfMatch k b t d).1 with
    | Ok t' => etagOf d k = (if String.eqb t "" then None else Some t) /\ t' = md5Hex b /\ objects (PutIfMatch k b t d).2 = <[k := b]> (objects d)
    | Err _ => objects (PutIfMatch k b t d).2 = objects d
    end.
Proof.
  split; [apply local_laws|]. intros k b t d Hk. split; [by apply Put_contents|]. split; [by apply Delete_contents|by apply localPutIfMatch_spec].
Qed.

End Laws.

(** ** A directory *)

#[local] Instance plainMd5 : Md5 := fun b => "m" +:+ String.string_of_list_byte b.

(** "a/b" holds one byte; the third call to come, the write of a temporary
    file, stops after one byte. *)
Definition someDisk : disk := mkDisk
  {[ [] := Dir; ["a"] := Dir; ["a"; "b"] := File [x62]; ["a"; ".tmp-7"] := File [x63] ]} [None; Some 1%nat] [7; 8].

(** Keys are cleaned and not escaped: keys that differ may name one file. *)
Example keys_collide : path "a//b" = path "a/b" /\ path "x/./y" = path "x/y".
Proof. split; reflexivity. Qed.

(** The write that stops leaves the old object, and nothing beside it. *)
Example put_stops :
  (Directory.Put "a/b" [x64; x65] someDisk).1 = Err (EMsg "no space left on device") /\
  map_to_list (contents (nodes (Directory.Put "a/b" [x64; x65] someDisk).2)) = [("a/b", [x62])] /\
  nodes (Directory.Put "a/b" [x64; x65] someDisk).2 !! ["a"; ".tmp-8"] = None.
Proof. vm_compute. auto. Qed.

Lemma local_keeps_laws_witness :
  (Directory.Put "a/b" [x64; x65] someDisk).1 = Err (EMsg "no space left on device") /\
  contents (nodes (Directory.Put "a/b" [x64; x65] someDisk).2) = contents (nodes someDisk).
Proof.
  assert (H : (Directory.Put "a/b" [x64; x65] someDisk).1 = Err (EMsg "no space left on device")) by (vm_compute; reflexivity).
  split; [exact H|]. pose proof (proj1 (proj2 (local_keeps_laws "/data") "a/b" [x64; x65] "" someDisk (plain_good "a/b" ltac:(vm_compute; reflexivity)))) as Hp.
  rewrite H in Hp. exact Hp.
Defined.

Lemma list_exact_witness :
  (Directory.List "a/" "" 0 someDisk).1 = Ok [mkObjectInfo "a/b" 1 ""] /\ Sorted infoLe [mkObjectInfo "a/b" 1 ""].
Proof.
  assert (H : (Directory.List "a/" "" 0 someDisk).1 = Ok [mkObjectInfo "a/b" 1 ""]) by (vm_compute; reflexivity).
  split; [exact H|]. exact (proj1 (list_exact "a/" "" someDisk [mkObjectInfo "a/b" 1 ""] H)).
Defined.
