(* ===== verification/S3.v ===== *)
(** * The S3 client (internal/store/s3.go)

    The client is written against [Transport], one exchange of net/http with
    the world, and [Xml], the decoder of encoding/xml: both are parameters. A
    request carries what it is signed over; its body is separate. Response
    bodies are read whole and closed, so draining one has no effect here. The
    world a transport threads is the one the store's laws speak of, and the
    clock is part of it. *)

From Stdlib Require Import Ascii Strings.Byte.
From stdpp Require Import sorting pretty.
From S2P Require Import Prelude Vfs Store ReadDir SigV4.

Record URL := mkURL { uHost : string; uPath : string; uRawPath : string; uRawQuery : string }.

(** A response: its status, its header, and what reading its body gives, which
    can fail part of the way. *)
Record HTTPResponse := mkHTTPResponse {
  rsStatus : Z;
  rsHeader : list (string * list string);
  rsBody : bytes;
  rsBodyErr : option string
}.

Class Transport (W : Type) := {
  (** The time, as X-Amz-Date writes it and as a day. *)
  clock : W -> string * string;
  (** Waiting for so many nanoseconds: the context's error when it ends first. *)
  backoff : Z -> W -> option string * W;
  (** What http.NewRequestWithContext says of a URL it cannot use. *)
  badURL : URL -> option string;
  (** [http.Client.Do]. *)
  send : HTTPRequest -> option bytes -> W -> res string HTTPResponse * W
}.

Record s3Error := mkS3Error { eCode : string; eMessage : string }.

Record listBucketResult := mkListBucketResult {
  IsTruncated : bool;
  Contents : list ObjectInfo;
  NextContinuationToken : string
}.

(** [xml.Unmarshal]: an error document, its fields empty where it is none; a
    listing, or the error of a document that does not parse. *)
Class Xml := {
  unmarshalError : bytes -> s3Error;
  unmarshalListing : bytes -> res string listBucketResult
}.

(** ** URLs *)

(** [url.URL.EscapedPath] of net/url: the raw path when it is an encoding of
    the path, else the path escaped. *)
Definition pathSafe (c : ascii) : bool := unreserved c || hasChar c "$&+,/:;=@".

Definition validEncodedChar (c : ascii) : bool := pathSafe c || hasChar c "!'()*[]%".

Fixpoint allChars (P : ascii -> bool) (s : string) : bool :=
  match s with EmptyString => true | String c s => P c && allChars P s end.

Fixpoint escapePath (s : string) : string :=
  match s with
  | EmptyString => EmptyString
  | String c s => if pathSafe c then String c (escapePath s) else percent c (escapePath s)
  end.

(** [url.PathUnescape], which refuses a percent sign without two digits. *)
Fixpoint pathUnescape (s : string) : option string :=
  match s with
  | EmptyString => Some EmptyString
  | String c s' =>
      if Ascii.eqb c "%" then
        match s' with
        | String a (String b s'') =>
            match fromHex a, fromHex b with
            | Some hi, Some lo => String (charOf (Z.lor (Z.shiftl hi 4) lo)) <$> pathUnescape s''
            | _, _ => None
            end
        | _ => None
        end
      else String c <$> pathUnescape s'
  end.

Definition EscapedPath (u : URL) : string :=
  if negb (String.eqb (uRawPath u) "") && allChars validEncodedChar (uRawPath u) &&
     bool_decide (pathUnescape (uRawPath u) = Some (uPath u))
  then uRawPath u
  else if String.eqb (uPath u) "*" then "*" else escapePath (uPath u).

(** [url.QueryEscape] and [url.Values.Encode] for values set once each. *)
Fixpoint queryEscape (s : string) : string :=
  match s with
  | EmptyString => EmptyString
  | String c s =>
      if unreserved c then String c (queryEscape s)
      else if Ascii.eqb c " " then String "+" (queryEscape s)
      else percent c (queryEscape s)
  end.

Definition encodeValues (q : list (string * string)) : string :=
  join "&" (map (fun kv => queryEscape kv.1 +:+ "=" +:+ queryEscape kv.2) (merge_sort nameLe q)).

(** ** Numbers in text *)

Definition itoa (z : Z) : string := pretty z.

Fixpoint decimal (acc : Z) (s : string) : option Z :=
  match s with
  | EmptyString => Some acc
  | String c s => if inRange "0" "9" c then decimal (10 * acc + (code c - code "0")) s else None
  end.

(** [strconv.ParseInt(s, 10, 64)] with its error ignored: 0 for what is no
    number, the nearest bound for one out of range. *)
Definition parseInt64 (s : string) : Z :=
  let neg := String.prefix "-" s in
  let body := if neg || String.prefix "+" s then match s with String _ s => s | _ => s end else s in
  match (if String.eqb body "" then None else decimal 0 body) with
  | None => 0
  | Some z => if neg then Z.max (- 2 ^ 63) (- z) else Z.min (2 ^ 63 - 1) z
  end.

Definition textOf (b : bytes) : string := String.string_of_list_byte b.

Fixpoint trimLeft (P : ascii -> bool) (s : string) : string :=
  match s with EmptyString => EmptyString | String c s' => if P c then trimLeft P s' else s end.

Fixpoint trimRight (P : ascii -> bool) (s : string) : string :=
  match s with
  | EmptyString => EmptyString
  | String c s' => let t := trimRight P s' in if P c && String.eqb t "" then EmptyString else String c t
  end.

(** [strings.TrimSpace], of ASCII white space. *)
Definition trimSpace (s : string) : string := trimRight isSpace (trimLeft isSpace s).

Definition quote : ascii := "034".
Definition quoted (s : string) : string := String quote (s +:+ String quote EmptyString).

Definition cleanETag (s : string) : string :=
  let s := if String.prefix "W/" s then match s with String _ (String _ s) => s | _ => s end else s in
  trimRight (Ascii.eqb quote) (trimLeft (Ascii.eqb quote) s).

(** [http.Header.Get]: the first value of a name, or none. *)
Fixpoint headerGet (h : list (string * list string)) (k : string) : string :=
  match h with
  | [] => ""
  | (a, vs) :: h => if String.eqb a k then match vs with v :: _ => v | [] => "" end else headerGet h k
  end.

(** ** The client *)

Module Client.

Record S3 := mkS3 {
  endpoint : URL;
  bucket : string;
  region : string;
  creds : Credentials;
  pathStyle : bool;
  maxRetries : nat
}.

Record S3Config := mkS3Config {
  cfgEndpoint : string;
  cfgBucket : string;
  cfgRegion : string;
  cfgCreds : Credentials;
  cfgPathStyle : bool
}.

(** [parse] is url.Parse of the endpoint. *)
Definition NewS3 (parse : string -> res string URL) (cfg : S3Config) : result S3 :=
  if String.eqb (cfgBucket cfg) "" then Err (EMsg "store: bucket is required")
  else
    let region := if String.eqb (cfgRegion cfg) "" then "us-east-1" else cfgRegion cfg in
    let ep := if String.eqb (cfgEndpoint cfg) "" then "https://s3." +:+ region +:+ ".amazonaws.com" else cfgEndpoint cfg in
    match parse ep with
    | Err e => Err (EWrap ("store: bad endpoint " +:+ ep) (EMsg e))
    | Ok u => Ok (mkS3 u (cfgBucket cfg) region (cfgCreds cfg) (cfgPathStyle cfg) 3)
    end.

Definition clientName (s : S3) : string := "s3://" +:+ bucket s.

Definition url (s : S3) (key : string) (query : list (string * string)) : URL :=
  let e := endpoint s in
  let q := match query with [] => uRawQuery e | _ => encodeValues query end in
  if pathStyle s then
    mkURL (uHost e) ("/" +:+ bucket s +:+ "/" +:+ key) ("/" +:+ uriEncode (bucket s) true +:+ "/" +:+ uriEncode key false) q
  else
    mkURL (bucket s +:+ "." +:+ uHost e) ("/" +:+ key) ("/" +:+ uriEncode key false) q.

Section Exchange.
Context {W : Type} {Tr : Transport W} {X : Xml} {Cr : Crypto}.

Definition payloadHash (body : option bytes) : string :=
  match body with None => emptyPayloadHash | Some b => sha256Hex (textOf b) end.

(** The request one attempt sends, signed at the time of the attempt. *)
Definition request (s : S3) (method : string) (u : URL) (body : option bytes) (headers : list (string * string)) (w : W) : HTTPRequest :=
  let r := mkHTTPRequest method (uHost u) (uHost u) (EscapedPath u) (uRawQuery u) [] in
  let r := fold_left (fun r kv => setHeader kv.1 kv.2 r) headers r in
  signV4 r (creds s) (region s) "s3" (payloadHash body) (clock w).1 (clock w).2.

(** How long attempt [n], which is not the first, waits. *)
Definition delay (n : Z) : Z := Z.min (Z.shiftl 1 (n - 1) * 200000000) 2000000000.

Definition transient (status : Z) : bool := (500 <=? status) || (status =? 429).

(** The attempts from [attempt] on, with [more] allowed after it. *)
Fixpoint attempts (s : S3) (method : string) (u : URL) (body : option bytes) (headers : list (string * string)) (retry : bool)
    (more : nat) (attempt : Z) (w : W) : result HTTPResponse * W :=
  let (cancelled, w) := if 0 <? attempt then backoff (delay attempt) w else (None, w) in
  match cancelled with
  | Some e => (Err (EMsg e), w)
  | None =>
      match badURL u with
      | Some e => (Err (EMsg e), w)
      | None =>
          let again lastErr w :=
            match more with
            | O => (Err lastErr, w)
            | S more => attempts s method u body headers retry more (attempt + 1) w
            end in
          match send (request s method u body headers w) body w with
          | (Err e, w) => again (EMsg e) w
          | (Ok resp, w) =>
              if retry && transient (rsStatus resp)
              then again (EMsg ("store: " +:+ method +:+ " " +:+ uPath u +:+ ": HTTP " +:+ itoa (rsStatus resp))) w
              else (Ok resp, w)
          end
      end
  end.

Definition do (s : S3) (method : string) (u : URL) (body : option bytes) (headers : list (string * string)) (retry : bool)
    (w : W) : result HTTPResponse * W :=
  attempts s method u body headers retry (if retry then maxRetries s else O) 0 w.

Definition errorFor (method key : string) (resp : HTTPResponse) : error :=
  let body := btake (Z.shiftl 64 10) (rsBody resp) in
  let e := unmarshalError body in
  let st := rsStatus resp in
  if (st =? 404) || String.eqb (eCode e) "NoSuchKey" || String.eqb (eCode e) "NoSuchBucket" then EStore ErrNotFound
  else if (st =? 412) || (st =? 409) || String.eqb (eCode e) "PreconditionFailed" || String.eqb (eCode e) "ConditionalRequestConflict"
  then EStore ErrPrecondition
  else if st =? 501 then EStore ErrUnsupported
  else
    let msg := if String.eqb (eMessage e) "" then trimSpace (textOf body) else eMessage e in
    EMsg ("store: " +:+ method +:+ " " +:+ key +:+ ": HTTP " +:+ itoa st +:+ " " +:+ eCode e +:+ ": " +:+ msg).

(** [io.ReadAll] of a response's body. *)
Definition readBody (resp : HTTPResponse) : result bytes :=
  match rsBodyErr resp with Some e => Err (EMsg e) | None => Ok (rsBody resp) end.

Definition GetWithETag (s : S3) (key : string) (w : W) : result (bytes * string) * W :=
  let (r, w) := do s "GET" (url s key []) None [] true w in
  (match r with
   | Err e => Err e
   | Ok resp =>
       if negb (rsStatus resp =? 200) then Err (errorFor "GET" key resp)
       else match readBody resp with
            | Err e => Err e
            | Ok data => Ok (data, cleanETag (headerGet (rsHeader resp) "Etag"))
            end
   end, w).

Definition Get (s : S3) (key : string) (w : W) : result bytes * W :=
  let (r, w) := GetWithETag s key w in
  (match r with Ok (data, _) => Ok data | Err e => Err e end, w).

(** For a range within an int64. *)
Definition GetRange (s : S3) (key : string) (off n : Z) (w : W) : result bytes * W :=
  if n <=? 0 then (Ok [], w)
  else
    let h := [("Range", "bytes=" +:+ itoa off +:+ "-" +:+ itoa (off + n - 1))] in
    let (r, w) := do s "GET" (url s key []) None h true w in
    (match r with
     | Err e => Err e
     | Ok resp =>
         if negb (rsStatus resp =? 206) && negb (rsStatus resp =? 200) then Err (errorFor "GET" key resp)
         else match readBody resp with
              | Err e => Err e
              | Ok data =>
                  if rsStatus resp =? 200 then
                    if blen data <=? off then Ok []
                    else Ok (btake (Z.min (off + n) (blen data) - off) (bdrop off data))
                  else Ok data
              end
     end, w).

Definition Head (s : S3) (key : string) (w : W) : result ObjectInfo * W :=
  let (r, w) := do s "HEAD" (url s key []) None [] true w in
  (match r with
   | Err e => Err e
   | Ok resp =>
       if negb (rsStatus resp =? 200) then Err (errorFor "HEAD" key resp)
       else Ok (mkObjectInfo key (parseInt64 (headerGet (rsHeader resp) "Content-Length")) (cleanETag (headerGet (rsHeader resp) "Etag")))
   end, w).

Definition Put (s : S3) (key : string) (data : bytes) (w : W) : result unit * W :=
  let (r, w) := do s "PUT" (url s key []) (Some data) [] true w in
  (match r with
   | Err e => Err e
   | Ok resp => if negb (rsStatus resp =? 200) then Err (errorFor "PUT" key resp) else Ok tt
   end, w).

(** The condition of a conditional write. *)
Definition condition (etag : string) : list (string * string) :=
  if String.eqb etag "" then [("If-None-Match", "*")] else [("If-Match", quoted etag)].

Definition PutIfMatch (s : S3) (key : string) (data : bytes) (etag : string) (w : W) : result string * W :=
  let (r, w) := do s "PUT" (url s key []) (Some data) (condition etag) false w in
  (match r with
   | Err e => Err e
   | Ok resp =>
       if negb (rsStatus resp =? 200) then Err (errorFor "PUT" key resp)
       else Ok (cleanETag (headerGet (rsHeader resp) "Etag"))
   end, w).

Definition Delete (s : S3) (key : string) (w : W) : result unit * W :=
  let (r, w) := do s "DELETE" (url s key []) None [] true w in
  (match r with
   | Err e => Err e
   | Ok resp =>
       let st := rsStatus resp in
       if negb (st =? 204) && negb (st =? 200) then
         if st =? 404 then Ok tt else Err (errorFor "DELETE" key resp)
       else Ok tt
   end, w).

(** The query of a listing. *)
Definition listQuery (prefix after : string) (max : Z) : list (string * string) :=
  [("list-type", "2")] ++
  (if String.eqb prefix "" then [] else [("prefix", prefix)]) ++
  (if String.eqb after "" then [] else [("start-after", after)]) ++
  (if 0 <? max then [("max-keys", itoa max)] else []).

Definition listURL (s : S3) (q : list (string * string)) : URL :=
  let e := endpoint s in
  if pathStyle s then mkURL (uHost e) ("/" +:+ bucket s) ("/" +:+ uriEncode (bucket s) true) (encodeValues q)
  else mkURL (bucket s +:+ "." +:+ uHost e) "/" "/" (encodeValues q).

Definition List (s : S3) (prefix after : string) (max : Z) (w : W) : result (list ObjectInfo) * W :=
  let (r, w) := do s "GET" (listURL s (listQuery prefix after max)) None [] true w in
  (match r with
   | Err e => Err e
   | Ok resp =>
       if negb (rsStatus resp =? 200) then Err (errorFor "GET" "?list-type=2" resp)
       else match readBody resp with
            | Err e => Err e
            | Ok body =>
                match unmarshalListing body with
                | Err e => Err (EWrap "store: parse listing" (EMsg e))
                | Ok res => Ok (map (fun c => mkObjectInfo (oiKey c) (oiSize c) (cleanETag (oiETag c))) (Contents res))
                end
            end
   end, w).

(** The client as the Store of a mount. *)
Definition store (s : S3) : Store W := {|
  Store.Get := Get s;
  Store.GetRange := GetRange s;
  Store.Head := Head s;
  Store.Put := Put s;
  Store.Delete := Delete s;
  ListObjects := List s;
  Store.PutIfMatch := PutIfMatch s;
  Name := clientName s;
  Store.GetWithETag := GetWithETag s
|}.

End Exchange.

End Client.
