(* ===== verification/S3Spec.v ===== *)
(** * The S3 client keeps the store's laws

    [Service] states what an object service documents of one HTTP exchange:
    safe methods change nothing, a 200 carries the object and its ETag, a
    conditional PUT takes effect only under its condition, and an exchange that
    fails may have taken effect. Against any such service the client, with its
    URLs, retries and parsing of replies, keeps [StoreLaws], so every theorem of
    the filesystem holds on it. *)

From Stdlib Require Import Ascii Strings.Byte.
From stdpp Require Import sorting.
From S2P Require Import Prelude Vfs Store ReadDir SigV4 S3.

(** ** Paths and headers on the wire *)

Lemma app_cons c s t : String c s +:+ t = String c (s +:+ t).
Proof. done. Qed.

Lemma string_length_app (a b : string) : String.length (a +:+ b) = (String.length a + String.length b)%nat.
Proof. induction a as [|x a IH]; [done|]. rewrite app_cons. simpl. by rewrite IH. Qed.

Lemma allChars_app P s t : allChars P (s +:+ t) = allChars P s && allChars P t.
Proof. induction s as [|c s IH]; [done|]. rewrite app_cons. cbn [allChars]. by rewrite IH, andb_assoc. Qed.

Lemma percent_app c s t : percent c s +:+ t = percent c (s +:+ t).
Proof. done. Qed.

Lemma percent_valid c s : allChars validEncodedChar (percent c s) = allChars validEncodedChar s.
Proof.
  assert (H : validEncodedChar (upperDigit (Z.shiftr (code c) 4)) && validEncodedChar (upperDigit (Z.land (code c) 0x0f)) = true).
  { apply (allAscii_spec (fun c => validEncodedChar (upperDigit (Z.shiftr (code c) 4)) && validEncodedChar (upperDigit (Z.land (code c) 0x0f)))).
    vm_compute. reflexivity. }
  apply andb_true_iff in H as [H1 H2]. unfold percent. cbn [allChars]. by rewrite H1, H2.
Qed.

(** How [uriEncode] writes a byte. *)
Lemma uriEncode_cons c s b :
  (uriEncode (String c s) b = String c (uriEncode s b) /\ (unreserved c = true \/ (c = "/"%char /\ b = false))) \/
  uriEncode (String c s) b = percent c (uriEncode s b).
Proof.
  cbn [uriEncode]. destruct (unreserved c) eqn:E; [by left; auto|].
  destruct (Ascii.eqb c "/" && negb b) eqn:E'; [|by right]. left. split; [done|]. right.
  apply andb_true_iff in E' as [?%Ascii.eqb_eq ?%negb_true_iff]. done.
Qed.

Lemma uriEncode_valid s b : allChars validEncodedChar (uriEncode s b) = true.
Proof.
  induction s as [|c s IH]; [done|]. destruct (uriEncode_cons c s b) as [[-> Hc]| ->]; [|by rewrite percent_valid].
  cbn [allChars]. rewrite IH, andb_true_r. destruct Hc as [Hc|[-> _]]; [|done]. unfold validEncodedChar, pathSafe. by rewrite Hc.
Qed.

Lemma uriEncode_no_slash s : hasChar "/" (uriEncode s true) = false.
Proof.
  assert (Hp : forall c t, hasChar "/" (percent c t) = hasChar "/" t).
  { intros c t.
    assert (H : negb (Ascii.eqb (upperDigit (Z.shiftr (code c) 4)) "/") && negb (Ascii.eqb (upperDigit (Z.land (code c) 0x0f)) "/") = true).
    { apply (allAscii_spec (fun c => negb (Ascii.eqb (upperDigit (Z.shiftr (code c) 4)) "/") && negb (Ascii.eqb (upperDigit (Z.land (code c) 0x0f)) "/"))).
      vm_compute. reflexivity. }
    apply andb_true_iff in H as [H1%negb_true_iff H2%negb_true_iff]. unfold percent. cbn [hasChar]. by rewrite H1, H2. }
  induction s as [|c s IH]; [done|]. destruct (uriEncode_cons c s true) as [[-> Hc]| ->]; [|by rewrite Hp].
  cbn [hasChar]. rewrite IH, orb_false_r. destruct Hc as [Hc|[_ ?]]; [|done].
  apply not_true_is_false. intros ->%Ascii.eqb_eq. done.
Qed.

Lemma pathUnescape_uriEncode s b t : pathUnescape (uriEncode s b +:+ t) = (fun x => s +:+ x) <$> pathUnescape t.
Proof.
  induction s as [|c s IH]; [by cbn [uriEncode]; change ("" +:+ t) with t; destruct (pathUnescape t)|].
  destruct (uriEncode_cons c s b) as [[-> Hc]| ->].
  - rewrite app_cons. cbn [pathUnescape].
    assert (Hp : Ascii.eqb c "%" = false) by (destruct Hc as [Hc|[-> _]]; [by apply unreserved_not_percent|done]).
    rewrite Hp, IH. by destruct (pathUnescape t).
  - rewrite percent_app. destruct (percent_digits c) as (H1&H2&H3). unfold percent. cbn [pathUnescape]. rewrite H1, H2, H3.
    change (Ascii.eqb "%" "%") with true. cbv iota. rewrite IH. by destruct (pathUnescape t).
Qed.

Lemma cut_app sep s t : hasChar sep s = false -> cut sep (s +:+ String sep t) = (s, t).
Proof.
  induction s as [|c s IH]; cbn [hasChar]; [intros _|rewrite orb_false_iff; intros [Hc Hs]].
  - change (EmptyString +:+ String sep t) with (String sep t). cbn [cut]. by rewrite Ascii.eqb_refl.
  - rewrite app_cons. cbn [cut]. by rewrite Hc, (IH Hs).
Qed.

Lemma trimLeft_none P s : allChars (fun c => negb (P c)) s = true -> trimLeft P s = s.
Proof. destruct s as [|c s]; [done|]. cbn [allChars trimLeft]. by destruct (P c). Qed.

Lemma trimRight_quoted s : hasChar quote s = false -> trimRight (Ascii.eqb quote) (s +:+ String quote EmptyString) = s.
Proof.
  induction s as [|c s IH]; [done|]. cbn [hasChar]. rewrite orb_false_iff. intros [Hc Hs]. rewrite app_cons. cbn [trimRight].
  rewrite (IH Hs). by rewrite Ascii.eqb_sym, Hc.
Qed.

(** An ETag in its quotes comes back without them. *)
Lemma cleanETag_quoted e : hasChar quote e = false -> cleanETag (quoted e) = e.
Proof.
  intros He. unfold cleanETag, quoted. change (String.prefix "W/" (String quote _)) with false. cbv iota zeta. cbn [trimLeft].
  change (Ascii.eqb quote quote) with true. cbv iota. destruct e as [|c e]; [done|]. rewrite app_cons. cbn [trimLeft].
  cbn [hasChar] in He. apply orb_false_iff in He as [Hc He]. rewrite Ascii.eqb_sym, Hc. rewrite <- app_cons.
  apply trimRight_quoted. cbn [hasChar]. by rewrite Hc, He.
Qed.

(** ** Requests *)

Lemma headerGet_filter k k' (h : list (string * list string)) :
  k ≠ k' -> headerGet (filter (fun kv => kv.1 ≠ k) h) k' = headerGet h k'.
Proof.
  intros Hk. induction h as [|[a v] h IH]; [done|]. rewrite filter_cons. cbn [headerGet].
  case_decide as Ha; cbn [headerGet fst] in *; [by rewrite IH|]. subst a.
  destruct (String.eqb_spec k k'); [done|exact IH].
Qed.

Lemma headerGet_set k v r k' : headerGet (rqHeader (setHeader k v r)) k' = if String.eqb k k' then v else headerGet (rqHeader r) k'.
Proof.
  unfold setHeader. cbn [rqHeader headerGet]. destruct (String.eqb_spec k k') as [->|Hk]; [done|]. by apply headerGet_filter.
Qed.

(** The names a signature sets. *)
Definition signed (k : string) : bool :=
  existsb (String.eqb k) ["X-Amz-Date"; "X-Amz-Content-Sha256"; "X-Amz-Security-Token"; "Host"; "Authorization"].

(** Signing leaves the request as it was but for those headers. *)
Record signedFrom (r r' : HTTPRequest) : Prop := {
  sf_method : rqMethod r' = rqMethod r;
  sf_host : rqHost r' = rqHost r;
  sf_path : rqPath r' = rqPath r;
  sf_query : rqQuery r' = rqQuery r;
  sf_header : forall k, signed k = false -> headerGet (rqHeader r') k = headerGet (rqHeader r) k
}.

Lemma signedFrom_refl r : signedFrom r r.
Proof. done. Qed.

Lemma signedFrom_set r r' k v : signed k = true -> signedFrom r r' -> signedFrom r (setHeader k v r').
Proof.
  intros Hk [H1 H2 H3 H4 H5]. split; try done. intros k' Hk'. rewrite headerGet_set.
  destruct (String.eqb_spec k k') as [->|_]; [congruence|by apply H5].
Qed.

Lemma signV4_from {Cr : Crypto} r c region service hash d1 d2 : signedFrom r (signV4 r c region service hash d1 d2).
Proof.
  unfold signV4. cbv zeta. destruct (canonicalHeaders _) as [canon names].
  destruct (negb _), (String.eqb service "s3"); repeat (apply signedFrom_set; [done|]); apply signedFrom_refl.
Qed.

(** ** Addresses *)

(** The object an HTTP request addresses, as the service reads its host and
    path: the bucket is the first label of the host, or the first segment of
    the path. *)
Definition objectKey (bucket host : string) (r : HTTPRequest) : option string :=
  match rqPath r with
  | String c p =>
      if Ascii.eqb c "/" && String.eqb (rqQuery r) "" then
        if String.eqb (rqHost r) (bucket +:+ "." +:+ host) then Some (unescape p)
        else if String.eqb (rqHost r) host then
          let (b, k) := cut "/" p in
          if String.eqb (unescape b) bucket then Some (unescape k) else None
        else None
      else None
  | EmptyString => None
  end.

(** The value of a parameter of a query, as a form is decoded. *)
Definition plusSpace (c : ascii) : ascii := if Ascii.eqb c "+" then " "%char else c.

Fixpoint mapChars (g : ascii -> ascii) (s : string) : string :=
  match s with EmptyString => EmptyString | String c s => String (g c) (mapChars g s) end.

Definition formValue (s : string) : string := unescape (mapChars plusSpace s).

Fixpoint firstValue (k : string) (parts : list string) : string :=
  match parts with
  | [] => ""
  | kv :: l => if String.eqb (formValue (cut "=" kv).1) k then formValue (cut "=" kv).2 else firstValue k l
  end.

Definition queryValue (k : string) (q : string) : string := firstValue k (split "&" q).

(** Whether a request lists the bucket. *)
Definition listsBucket (bucket host : string) (r : HTTPRequest) : bool :=
  (String.eqb (rqHost r) (bucket +:+ "." +:+ host) && String.eqb (rqPath r) "/" ||
   String.eqb (rqHost r) host && match rqPath r with String c p => Ascii.eqb c "/" && String.eqb (unescape p) bucket | _ => false end) &&
  String.eqb (queryValue "list-type" (rqQuery r)) "2".

(** ** Queries *)

Definition queryPart (kv : string * string) : string := queryEscape kv.1 +:+ "=" +:+ queryEscape kv.2.

Lemma queryEscape_cons c s :
  (queryEscape (String c s) = String c (queryEscape s) /\ unreserved c = true) \/
  (queryEscape (String c s) = String "+" (queryEscape s) /\ c = " "%char) \/
  queryEscape (String c s) = percent c (queryEscape s).
Proof.
  cbn [queryEscape]. destruct (unreserved c); [by left|]. right. destruct (Ascii.eqb_spec c " "); [by left|by right].
Qed.

Lemma percent_no sep c s : unreserved sep = false -> Ascii.eqb "%" sep = false -> hasChar sep (percent c s) = hasChar sep s.
Proof.
  intros Hs Hp.
  assert (H : unreserved (upperDigit (Z.shiftr (code c) 4)) && unreserved (upperDigit (Z.land (code c) 0x0f)) = true).
  { apply (allAscii_spec (fun c => unreserved (upperDigit (Z.shiftr (code c) 4)) && unreserved (upperDigit (Z.land (code c) 0x0f)))).
    vm_compute. reflexivity. }
  apply andb_true_iff in H as [H1 H2]. unfold percent. cbn [hasChar]. rewrite Hp.
  assert (Hne : forall d, unreserved d = true -> Ascii.eqb d sep = false).
  { intros d Hd. apply not_true_is_false. intros ->%Ascii.eqb_eq. congruence. }
  by rewrite !Hne.
Qed.

Lemma queryEscape_no sep s :
  unreserved sep = false -> Ascii.eqb "%" sep = false -> Ascii.eqb "+" sep = false -> hasChar sep (queryEscape s) = false.
Proof.
  intros Hs Hp Hq. induction s as [|c s IH]; [done|]. destruct (queryEscape_cons c s) as [[-> Hc]|[[-> _]| ->]].
  - cbn [hasChar]. rewrite IH, orb_false_r. apply not_true_is_false. intros ->%Ascii.eqb_eq. congruence.
  - cbn [hasChar]. by rewrite IH, Hq.
  - by rewrite percent_no.
Qed.

Lemma plusSpace_percent c s : mapChars plusSpace (percent c s) = percent c (mapChars plusSpace s).
Proof.
  assert (H : Ascii.eqb (plusSpace (upperDigit (Z.shiftr (code c) 4))) (upperDigit (Z.shiftr (code c) 4)) &&
    Ascii.eqb (plusSpace (upperDigit (Z.land (code c) 0x0f))) (upperDigit (Z.land (code c) 0x0f)) = true).
  { apply (allAscii_spec (fun c => Ascii.eqb (plusSpace (upperDigit (Z.shiftr (code c) 4))) (upperDigit (Z.shiftr (code c) 4)) &&
      Ascii.eqb (plusSpace (upperDigit (Z.land (code c) 0x0f))) (upperDigit (Z.land (code c) 0x0f)))). vm_compute. reflexivity. }
  apply andb_true_iff in H as [H1%Ascii.eqb_eq H2%Ascii.eqb_eq]. unfold percent. cbn [mapChars]. by rewrite H1, H2.
Qed.

Lemma formValue_escape s : formValue (queryEscape s) = s.
Proof.
  unfold formValue. induction s as [|c s IH]; [done|]. destruct (queryEscape_cons c s) as [[-> Hc]|[[-> ->]| ->]].
  - cbn [mapChars]. assert (Hp : plusSpace c = c) by (unfold plusSpace; destruct (Ascii.eqb_spec c "+") as [->|_]; done).
    rewrite Hp, unescape_plain by (by apply unreserved_not_percent). by rewrite IH.
  - cbn [mapChars]. change (plusSpace "+") with " "%char. rewrite unescape_plain by done. by rewrite IH.
  - by rewrite plusSpace_percent, unescape_percent, IH.
Qed.

(** The signer does not read a plus sign as a space; it reads the rest. *)
Lemma unescape_queryEscape s : hasChar " " s = false -> unescape (queryEscape s) = s.
Proof.
  induction s as [|c s IH]; [done|]. cbn [hasChar]. rewrite orb_false_iff. intros [Hc Hs].
  destruct (queryEscape_cons c s) as [[-> Hu]|[[_ ->]| ->]]; [|done|].
  - rewrite unescape_plain by (by apply unreserved_not_percent). by rewrite (IH Hs).
  - by rewrite unescape_percent, (IH Hs).
Qed.

Lemma queryPart_ok kv : partOK (queryPart kv).
Proof.
  unfold queryPart. split; [by destruct (queryEscape kv.1)|].
  assert (Ha : forall u v, hasChar "&" (u +:+ v) = hasChar "&" u || hasChar "&" v).
  { intros u t. induction u as [|c u IH]; [done|]. rewrite app_cons. cbn [hasChar]. by rewrite IH, orb_assoc. }
  rewrite !Ha, !queryEscape_no by done. done.
Qed.

Fixpoint assoc (k : string) (q : list (string * string)) : string :=
  match q with [] => "" | (a, v) :: q => if String.eqb a k then v else assoc k q end.

(** What a form's encoding is decoded to. *)
Lemma queryValue_encode k q : q ≠ [] -> queryValue k (join "&" (map queryPart q)) = assoc k q.
Proof.
  intros Hq. unfold queryValue. change "&"%string with (String "&" EmptyString).
  rewrite split_join; [|by destruct q|].
  - clear Hq. induction q as [|[a v] q IH]; [done|]. cbn [map firstValue assoc]. unfold queryPart at 1 2. cbn [fst snd].
    change ("=" +:+ queryEscape v) with (String "=" (queryEscape v)).
    rewrite cut_app by (by apply queryEscape_no). cbn [fst snd]. rewrite !formValue_escape. by rewrite IH.
  - clear Hq. apply list.Forall_forall. intros x Hx. apply list_elem_of_fmap in Hx as (kv&->&_). apply queryPart_ok.
Qed.

Import Client.

Section Address.
Context {W : Type} {Tr : Transport W} {Cr : Crypto}.

Lemma url_escaped s key : EscapedPath (url s key []) = uRawPath (url s key []).
Proof using Type.
  unfold EscapedPath, url. destruct (pathStyle s); cbn [uRawPath uPath].
  - change (String.eqb ("/" +:+ _) "") with false. rewrite !allChars_app, !uriEncode_valid.
    change ("/" +:+ (uriEncode (bucket s) true +:+ ("/" +:+ uriEncode key false))) with (String "/" (uriEncode (bucket s) true +:+ String "/" (uriEncode key false))).
    cbn [pathUnescape]. change (Ascii.eqb "/" "%") with false. cbv iota. rewrite pathUnescape_uriEncode. cbn [pathUnescape].
    change (Ascii.eqb "/" "%") with false. cbv iota. rewrite <- (app_empty_r (uriEncode key false)), pathUnescape_uriEncode.
    cbn [pathUnescape fmap option_fmap option_map]. rewrite !app_empty_r. rewrite bool_decide_eq_true_2; done.
  - change (String.eqb ("/" +:+ _) "") with false. rewrite !allChars_app, !uriEncode_valid.
    change ("/" +:+ uriEncode key false) with (String "/" (uriEncode key false)). cbn [pathUnescape]. change (Ascii.eqb "/" "%") with false. cbv iota.
    rewrite <- (app_empty_r (uriEncode key false)), pathUnescape_uriEncode.
    cbn [pathUnescape fmap option_fmap option_map]. rewrite !app_empty_r. rewrite bool_decide_eq_true_2; done.
Qed.

Lemma host_not_virtual b h : String.eqb h (b +:+ "." +:+ h) = false.
Proof using Type.
  apply String.eqb_neq. intros E. apply (f_equal String.length) in E. rewrite !string_length_app in E. simpl in E. lia.
Qed.

(** What is sent addresses the object: a key survives its way through the URL. *)
Lemma request_key s m key b h w :
  uRawQuery (endpoint s) = "" -> objectKey (bucket s) (uHost (endpoint s)) (request s m (url s key []) b h w) = Some key.
Proof using Type.
  intros Hq. unfold request. set (r := fold_left _ _ _).
  assert (Hr : rqHost r = uHost (url s key []) /\ rqPath r = uRawPath (url s key []) /\ rqQuery r = "").
  { unfold r. rewrite url_escaped. set (r0 := mkHTTPRequest _ _ _ _ _ _).
    assert (Hf : forall r0, rqHost (fold_left (fun r kv => setHeader kv.1 kv.2 r) h r0) = rqHost r0 /\
      rqPath (fold_left (fun r kv => setHeader kv.1 kv.2 r) h r0) = rqPath r0 /\ rqQuery (fold_left (fun r kv => setHeader kv.1 kv.2 r) h r0) = rqQuery r0).
    { induction h as [|kv h' IH]; intros r1; [done|]. simpl. destruct (IH (setHeader kv.1 kv.2 r1)) as (->&->&->). done. }
    destruct (Hf r0) as (->&->&->). split; [done|]. split; [done|]. unfold r0, url. cbn [rqQuery]. by destruct (pathStyle s). }
  destruct Hr as (Hh&Hp&Hqr).
  destruct (signV4_from r (creds s) (region s) "s3" (payloadHash b) (clock w).1 (clock w).2) as [_ S2 S3 S4 _].
  unfold objectKey. rewrite S2, S3, S4, Hh, Hp, Hqr. unfold url. destruct (pathStyle s); cbn [uHost uRawPath].
  - change ("/" +:+ (uriEncode (bucket s) true +:+ ("/" +:+ uriEncode key false))) with (String "/" (uriEncode (bucket s) true +:+ String "/" (uriEncode key false))).
    cbv iota beta. change (Ascii.eqb "/" "/" && String.eqb "" "") with true. cbv iota.
    rewrite host_not_virtual, String.eqb_refl, cut_app by apply uriEncode_no_slash. by rewrite !unescape_uriEncode, String.eqb_refl.
  - change ("/" +:+ uriEncode key false) with (String "/" (uriEncode key false)). cbv iota beta.
    change (Ascii.eqb "/" "/" && String.eqb "" "") with true. cbv iota. by rewrite String.eqb_refl, unescape_uriEncode.
Qed.

Lemma request_method s m u b h w : rqMethod (request s m u b h w) = m.
Proof using Type.
  unfold request. rewrite (sf_method _ _ (signV4_from _ _ _ _ _ _ _)).
  assert (Hf : forall r, rqMethod (fold_left (fun r kv => setHeader kv.1 kv.2 r) h r) = rqMethod r); [|by rewrite Hf].
  induction h as [|kv h' IH]; intros r; [done|]. simpl. by rewrite IH.
Qed.

Lemma request_header s m u b h w k : signed k = false ->
  headerGet (rqHeader (request s m u b h w)) k = headerGet (rqHeader (fold_left (fun r kv => setHeader kv.1 kv.2 r) h (mkHTTPRequest m (uHost u) (uHost u) (EscapedPath u) (uRawQuery u) []))) k.
Proof using Type. intros Hk. unfold request. by rewrite (sf_header _ _ (signV4_from _ _ _ _ _ _ _)). Qed.

End Address.

(** ** What a service promises *)

Section Promises.
Context {W : Type} {V : StoreView W}.

Definition sameStore (w w' : W) : Prop := objects w' = objects w /\ forall k, etagOf w' k = etagOf w k.

(** A response names no ETag, or the object's in quotes. *)
Definition tagged (w : W) (k : string) (resp : HTTPResponse) : Prop :=
  headerGet (rsHeader resp) "Etag" = "" \/
  exists e, headerGet (rsHeader resp) "Etag" = quoted e /\ etagOf w k = Some e.

(** The condition a write is sent under. *)
Definition conditionHolds (r : HTTPRequest) (w : W) (k : string) : Prop :=
  (headerGet (rqHeader r) "If-None-Match" = "*" -> etagOf w k = None) /\
  (forall e, headerGet (rqHeader r) "If-Match" = quoted e -> etagOf w k = Some e).

(** A response that says there is no such object. *)
Definition saysAbsent {X : Xml} (resp : HTTPResponse) : Prop :=
  rsStatus resp = 404 \/
  eCode (unmarshalError (btake (Z.shiftl 64 10) (rsBody resp))) = "NoSuchKey" \/
  eCode (unmarshalError (btake (Z.shiftl 64 10) (rsBody resp))) = "NoSuchBucket".

End Promises.

(** RFC 9110 and the S3 API on the exchanges the client makes. *)
Class Service (W : Type) (bucket host : string) {Tr : Transport W} {X : Xml} {V : StoreView W} : Prop := {
  svc_key k : keyOK k <-> k ≠ "";
  svc_waits d w : sameStore w (backoff d w).2;
  svc_safe r w : rqMethod r = "GET" \/ rqMethod r = "HEAD" -> sameStore w (send r None w).2;
  svc_get r w k resp : rqMethod r = "GET" -> objectKey bucket host r = Some k -> k ≠ "" ->
    (send r None w).1 = Ok resp -> rsStatus resp = 200 -> rsBodyErr resp = None ->
    objects w !! k = Some (rsBody resp) /\ tagged w k resp;
  svc_range r w k resp off n : rqMethod r = "GET" -> objectKey bucket host r = Some k -> k ≠ "" -> 0 <= off -> 0 < n ->
    headerGet (rqHeader r) "Range" = "bytes=" +:+ itoa off +:+ "-" +:+ itoa (off + n - 1) ->
    (send r None w).1 = Ok resp -> rsStatus resp = 206 -> rsBodyErr resp = None ->
    exists d, objects w !! k = Some d /\ rsBody resp = btake n (bdrop off d);
  svc_absent r w k resp : rqMethod r = "GET" -> objectKey bucket host r = Some k -> k ≠ "" ->
    (send r None w).1 = Ok resp -> rsStatus resp ≠ 200 -> saysAbsent resp -> objects w !! k = None;
  svc_head r w k resp : rqMethod r = "HEAD" -> objectKey bucket host r = Some k -> k ≠ "" ->
    (send r None w).1 = Ok resp -> rsStatus resp = 200 -> is_Some (objects w !! k) /\ tagged w k resp;
  svc_put r d w k : rqMethod r = "PUT" -> objectKey bucket host r = Some k -> k ≠ "" ->
    (forall k', k ≠ k' -> etagOf (send r (Some d) w).2 k' = etagOf w k') /\
    ((objects (send r (Some d) w).2 = objects w /\ etagOf (send r (Some d) w).2 k = etagOf w k) \/
     (conditionHolds r w k /\ objects (send r (Some d) w).2 = <[k := d]> (objects w)));
  svc_put_done r d w k resp : rqMethod r = "PUT" -> objectKey bucket host r = Some k -> k ≠ "" ->
    (send r (Some d) w).1 = Ok resp -> rsStatus resp = 200 ->
    conditionHolds r w k /\ objects (send r (Some d) w).2 = <[k := d]> (objects w) /\ tagged (send r (Some d) w).2 k resp;
  svc_delete r w k : rqMethod r = "DELETE" -> objectKey bucket host r = Some k -> k ≠ "" ->
    (forall k', k ≠ k' -> etagOf (send r None w).2 k' = etagOf w k') /\
    (objects (send r None w).2 = objects w \/ objects (send r None w).2 = delete k (objects w));
  svc_delete_done r w k resp : rqMethod r = "DELETE" -> objectKey bucket host r = Some k -> k ≠ "" ->
    (send r None w).1 = Ok resp -> rsStatus resp = 204 \/ rsStatus resp = 200 \/ rsStatus resp = 404 ->
    objects (send r None w).2 = delete k (objects w);
  svc_list r w resp res : rqMethod r = "GET" -> listsBucket bucket host r = true ->
    (send r None w).1 = Ok resp -> rsStatus resp = 200 -> rsBodyErr resp = None -> unmarshalListing (rsBody resp) = Ok res ->
    forall o, o ∈ Contents res -> String.prefix (queryValue "prefix" (rqQuery r)) (oiKey o) = true /\ oiKey o ≠ "";
  svc_etag_plain w k e : etagOf w k = Some e -> hasChar quote e = false;
  svc_etag_some w k : is_Some (etagOf w k) <-> is_Some (objects w !! k)
}.

(** ** The client on a service *)

Section Client.
Context {W : Type} {Tr : Transport W} {X : Xml} {Cr : Crypto} {V : StoreView W}.
Context (s : S3).
Hypothesis (Hq : uRawQuery (endpoint s) = "").

(** What holds of the world through the attempts of a call, whether they fail
    or not, holds where the answered one is made. *)
Lemma attempts_spec (P : W -> Prop) m u b h retry more n w :
  (forall d w, P w -> P (backoff d w).2) -> (forall w, P w -> P (send (request s m u b h w) b w).2) -> P w ->
  match attempts s m u b h retry more n w with
  | (Ok resp, w') => exists w1, P w1 /\ send (request s m u b h w1) b w1 = (Ok resp, w')
  | (Err e, w') => P w' /\ errIs e ErrNotFound = false
  end.
Proof using Type.
  intros Hb Hs. revert n w. induction more as [|more IH]; intros n w Hw; cbn [attempts].
  all: assert (Hw1 : P (if 0 <? n then backoff (delay n) w else (None, w)).2) by (destruct (0 <? n); [by apply Hb|done]).
  all: destruct (if 0 <? n then backoff (delay n) w else (None, w)) as [[e|] w1]; cbn [snd] in Hw1; [done|].
  all: destruct (badURL u); [done|]; pose proof (Hs w1 Hw1) as Hw2.
  all: destruct (send (request s m u b h w1) b w1) as [[resp|e] w2] eqn:E; cbn [snd] in Hw2.
  - destruct (retry && transient (rsStatus resp)); [done|eauto].
  - done.
  - destruct (retry && transient (rsStatus resp)); [by apply IH|eauto].
  - by apply IH.
Qed.

Context {Sv : Service W (bucket s) (uHost (endpoint s))}.

Lemma sameStore_refl w : sameStore w w.
Proof using Type. done. Qed.

Lemma sameStore_trans w1 w2 w3 : sameStore w1 w2 -> sameStore w2 w3 -> sameStore w1 w3.
Proof using Type. intros [A1 A2] [B1 B2]. split; [congruence|]. intros k. by rewrite B2, A2. Qed.

(** A read leaves the bucket as it was, however often it is tried. *)
Lemma do_read m u h w : m = "GET" \/ m = "HEAD" ->
  match do s m u None h true w with
  | (Ok resp, w') => sameStore w w' /\ exists w1, sameStore w w1 /\ (send (request s m u None h w1) None w1).1 = Ok resp
  | (Err e, w') => sameStore w w' /\ errIs e ErrNotFound = false
  end.
Proof using Sv.
  intros Hm. unfold do.
  pose proof (attempts_spec (sameStore w) m u None h true (maxRetries s) 0 w) as H.
  assert (Hsend : forall w1, sameStore w w1 -> sameStore w (send (request s m u None h w1) None w1).2).
  { intros w1 H1. eapply sameStore_trans; [exact H1|]. apply svc_safe. by rewrite request_method. }
  destruct (attempts s m u None h true (maxRetries s) 0 w) as [[resp|e] w'].
  - destruct H as (w1&H1&H2); [intros d w1 H1; eapply sameStore_trans; [exact H1|apply svc_waits]|done|apply sameStore_refl|].
    split; [specialize (Hsend w1 H1); by rewrite H2 in Hsend|]. exists w1. by rewrite H2.
  - apply H; [intros d w1 H1; eapply sameStore_trans; [exact H1|apply svc_waits]|done|apply sameStore_refl].
Qed.

Lemma tagged_clean w k resp : tagged w k resp -> cleanETag (headerGet (rsHeader resp) "Etag") ≠ "" ->
  etagOf w k = Some (cleanETag (headerGet (rsHeader resp) "Etag")).
Proof using Sv.
  intros [->|(e&->&He)] Hne; [done|]. rewrite He. by rewrite cleanETag_quoted by (by eapply svc_etag_plain).
Qed.

Lemma errorFor_absent m k resp : errIs (errorFor m k resp) ErrNotFound = true -> saysAbsent resp.
Proof using Type.
  unfold errorFor, saysAbsent. cbv zeta. set (e := unmarshalError _).
  destruct (Z.eqb_spec (rsStatus resp) 404); [by left|].
  destruct (String.eqb_spec (eCode e) "NoSuchKey"); [by right; left|].
  destruct (String.eqb_spec (eCode e) "NoSuchBucket"); [by right; right|]. cbn [orb].
  destruct (_ || _); [done|]. by destruct (rsStatus resp =? 501).
Qed.

(** A GET of an object: whole, with the ETag of that body, or absent. *)
Lemma GetWithETag_spec k w : k ≠ "" ->
  sameStore w (Client.GetWithETag s k w).2 /\
  match (Client.GetWithETag s k w).1 with
  | Ok (d, e) => objects w !! k = Some d /\ (e ≠ "" -> etagOf w k = Some e)
  | Err e => errIs e ErrNotFound = true -> objects w !! k = None
  end.
Proof using Hq Sv.
  intros Hk. unfold Client.GetWithETag. pose proof (do_read "GET" (url s k []) [] w (or_introl eq_refl)) as H.
  destruct (do s "GET" (url s k []) None [] true w) as [[resp|e] w']; cbn [fst snd].
  - destruct H as [Hs (w1&[H1 H1']&Hr)]. split; [done|].
    pose proof (request_method s "GET" (url s k []) None [] w1) as Hm. pose proof (request_key s "GET" k None [] w1 Hq) as Hkey.
    destruct (Z.eqb_spec (rsStatus resp) 200) as [E|E]; cbn [negb].
    + unfold readBody. destruct (rsBodyErr resp) eqn:Eb; [done|].
      destruct (svc_get _ _ _ _ Hm Hkey Hk Hr E Eb) as [Ho Ht]. rewrite <- H1. split; [done|]. intros Hne. rewrite <- H1'.
      by apply tagged_clean.
    + intros He%errorFor_absent. rewrite <- H1. by eapply svc_absent.
  - destruct H as [Hs He]. split; [done|]. intros He'. congruence.
Qed.

Lemma Get_spec k w : k ≠ "" ->
  sameStore w (Client.Get s k w).2 /\
  match (Client.Get s k w).1 with
  | Ok d => objects w !! k = Some d
  | Err e => errIs e ErrNotFound = true -> objects w !! k = None
  end.
Proof using Hq Sv.
  intros Hk. unfold Client.Get. destruct (GetWithETag_spec k w Hk) as [H1 H2].
  destruct (Client.GetWithETag s k w) as [[[d e]|e] w']; [by destruct H2|done].
Qed.

Lemma Head_spec k w : k ≠ "" ->
  forall i, (Client.Head s k w).1 = Ok i -> is_Some (objects w !! k) /\ (oiETag i ≠ "" -> etagOf w k = Some (oiETag i)).
Proof using Hq Sv.
  intros Hk i. unfold Client.Head. pose proof (do_read "HEAD" (url s k []) [] w (or_intror eq_refl)) as H.
  destruct (do s "HEAD" (url s k []) None [] true w) as [[resp|e] w']; cbn [fst]; [|done].
  destruct H as [_ (w1&[H1 H1']&Hr)]. destruct (Z.eqb_spec (rsStatus resp) 200) as [E|E]; cbn [negb]; [|done]. intros [= <-]. cbn [oiETag].
  pose proof (request_method s "HEAD" (url s k []) None [] w1) as Hm. pose proof (request_key s "HEAD" k None [] w1 Hq) as Hkey.
  destruct (svc_head _ _ _ _ Hm Hkey Hk Hr E) as [Ho Ht]. rewrite <- H1. split; [done|]. intros Hne. rewrite <- H1'. by apply tagged_clean.
Qed.

(** ** Writes *)

(** [k] is as it was or holds [d]; the ETags of other objects are as they were. *)
Definition maybeWritten (k : string) (d : option bytes) (w w' : W) : Prop :=
  (forall k', k ≠ k' -> etagOf w' k' = etagOf w k') /\
  (objects w' = objects w \/ objects w' = partial_alter (fun _ => d) k (objects w)).

Lemma maybeWritten_refl k d w : maybeWritten k d w w.
Proof using Type. split; [done|by left]. Qed.

Lemma maybeWritten_trans k d w1 w2 w3 : maybeWritten k d w1 w2 -> maybeWritten k d w2 w3 -> maybeWritten k d w1 w3.
Proof using Type.
  intros [A1 A2] [B1 B2]. split; [intros k' Hk; by rewrite B1, A1|].
  destruct A2 as [A2|A2], B2 as [B2|B2]; rewrite B2, A2; auto. right. apply partial_alter_partial_alter_eq.
Qed.

Lemma maybeWritten_same k d w w1 w' : sameStore w1 w' -> maybeWritten k d w w1 -> maybeWritten k d w w'.
Proof using Type. intros [H1 H2] [A1 A2]. split; [intros k' Hk; by rewrite H2, A1|by rewrite H1]. Qed.

(** A write that may be repeated, answered or not. *)
Lemma do_write k m b d h retry w :
  (forall w, maybeWritten k d w (send (request s m (url s k []) b h w) b w).2) ->
  match do s m (url s k []) b h retry w with
  | (Ok resp, w') => exists w1, maybeWritten k d w w1 /\ send (request s m (url s k []) b h w1) b w1 = (Ok resp, w')
  | (Err e, w') => maybeWritten k d w w'
  end.
Proof using Sv.
  intros Hs. unfold do. set (more := if retry then _ else _).
  pose proof (attempts_spec (maybeWritten k d w) m (url s k []) b h retry more 0 w) as H.
  destruct (attempts s m (url s k []) b h retry more 0 w) as [[resp|e] w'].
  - destruct H as (w1&H1&H2); [intros d' w1 H1; eapply maybeWritten_same; [apply svc_waits|done]|
      intros w1 H1; eapply maybeWritten_trans; [exact H1|apply Hs]|apply maybeWritten_refl|]. eauto.
  - apply H; [intros d' w1 H1; eapply maybeWritten_same; [apply svc_waits|done]|
      intros w1 H1; eapply maybeWritten_trans; [exact H1|apply Hs]|apply maybeWritten_refl].
Qed.

Lemma send_put k d h w : k ≠ "" -> maybeWritten k (Some d) w (send (request s "PUT" (url s k []) (Some d) h w) (Some d) w).2.
Proof using Hq Sv.
  intros Hk. destruct (svc_put (request s "PUT" (url s k []) (Some d) h w) d w k) as [He Ho];
    [apply request_method|by apply request_key|done|]. split; [done|]. destruct Ho as [[? _]|[_ ?]]; auto.
Qed.

Lemma send_delete k w : k ≠ "" -> maybeWritten k None w (send (request s "DELETE" (url s k []) None [] w) None w).2.
Proof using Hq Sv.
  intros Hk. destruct (svc_delete (request s "DELETE" (url s k []) None [] w) w k) as [He Ho];
    [apply request_method|by apply request_key|done|]. by split.
Qed.

(** Storing over what may have been stored already. *)
Lemma written_over k d w w1 : maybeWritten k d w w1 -> partial_alter (fun _ => d) k (objects w1) = partial_alter (fun _ => d) k (objects w).
Proof using Type. intros [_ [->| ->]]; [done|]. apply partial_alter_partial_alter_eq. Qed.

Lemma Put_spec k d w : k ≠ "" ->
  maybeWritten k (Some d) w (Client.Put s k d w).2 /\
  ((Client.Put s k d w).1 = Ok tt -> objects (Client.Put s k d w).2 = <[k := d]> (objects w)).
Proof using Hq Sv.
  intros Hk. unfold Client.Put. pose proof (do_write k "PUT" (Some d) (Some d) [] true w (fun w => send_put k d [] w Hk)) as H.
  destruct (do s "PUT" (url s k []) (Some d) [] true w) as [[resp|e] w']; cbn [fst snd]; [|done].
  destruct H as (w1&H1&Hr). pose proof (send_put k d [] w1 Hk) as Hw. rewrite Hr in Hw. cbn [snd] in Hw.
  split; [by eapply maybeWritten_trans|]. destruct (Z.eqb_spec (rsStatus resp) 200) as [E|E]; cbn [negb]; [|done]. intros _.
  destruct (svc_put_done (request s "PUT" (url s k []) (Some d) [] w1) d w1 k resp) as (_&Ho&_);
    [apply request_method|by apply request_key|done|by rewrite Hr|done|]. rewrite Hr in Ho. cbn [snd] in Ho.
  rewrite Ho. exact (written_over k (Some d) w w1 H1).
Qed.

Lemma Delete_spec k w : k ≠ "" ->
  maybeWritten k None w (Client.Delete s k w).2 /\
  ((Client.Delete s k w).1 = Ok tt -> objects (Client.Delete s k w).2 = delete k (objects w)).
Proof using Hq Sv.
  intros Hk. unfold Client.Delete. pose proof (do_write k "DELETE" None None [] true w (fun w => send_delete k w Hk)) as H.
  destruct (do s "DELETE" (url s k []) None [] true w) as [[resp|e] w']; cbn [fst snd]; [|done].
  destruct H as (w1&H1&Hr). pose proof (send_delete k w1 Hk) as Hw. rewrite Hr in Hw. cbn [snd] in Hw.
  split; [by eapply maybeWritten_trans|]. intros Hok.
  assert (Hst : rsStatus resp = 204 \/ rsStatus resp = 200 \/ rsStatus resp = 404).
  { revert Hok. destruct (Z.eqb_spec (rsStatus resp) 204); [auto|]. destruct (Z.eqb_spec (rsStatus resp) 200); [auto|].
    destruct (Z.eqb_spec (rsStatus resp) 404); [auto|]. done. }
  pose proof (svc_delete_done (request s "DELETE" (url s k []) None [] w1) w1 k resp) as Ho.
  rewrite Hr in Ho. cbn [fst snd] in Ho. rewrite Ho by first [apply request_method|by apply request_key|done].
  exact (written_over k None w w1 H1).
Qed.

(** The condition of a conditional write reaches the service as it was given. *)
Lemma condition_sent k d t w w0 : conditionHolds (request s "PUT" (url s k []) (Some d) (condition t) w) w0 k ->
  etagOf w0 k = if String.eqb t "" then None else Some t.
Proof using Type.
  intros [C1 C2]. rewrite !request_header in C1, C2 by done. unfold condition in *.
  destruct (String.eqb t "") eqn:Et; cbn [fold_left fst snd] in *; [by apply C1; rewrite headerGet_set|].
  apply C2. by rewrite headerGet_set.
Qed.

(** A conditional write is one exchange: it is never sent again. *)
Lemma PutIfMatch_once k d t w (u := url s k []) (r := request s "PUT" u (Some d) (condition t) w) :
  Client.PutIfMatch s k d t w = match badURL u with
  | Some e => (Err (EMsg e), w)
  | None => match send r (Some d) w with
            | (Err e, w') => (Err (EMsg e), w')
            | (Ok resp, w') => (if rsStatus resp =? 200 then Ok (cleanETag (headerGet (rsHeader resp) "Etag")) else Err (errorFor "PUT" k resp), w')
            end
  end.
Proof using Type.
  unfold Client.PutIfMatch, do. cbn [attempts]. change (0 <? 0) with false. cbv iota beta.
  fold u. destruct (badURL u); [done|]. fold r. destruct (send r (Some d) w) as [[resp|e] w']; cbn [andb]; [|done].
  by destruct (rsStatus resp =? 200).
Qed.

Lemma PutIfMatch_spec k d t w : k ≠ "" ->
  match Client.PutIfMatch s k d t w with
  | (Ok t', w') => etagOf w k = (if String.eqb t "" then None else Some t) /\ objects w' = <[k := d]> (objects w) /\
      (t' ≠ "" -> etagOf w' k = Some t')
  | (Err e, w') => (objects w' = objects w /\ etagOf w' k = etagOf w k) \/
      (etagOf w k = (if String.eqb t "" then None else Some t) /\ objects w' = <[k := d]> (objects w))
  end.
Proof using Hq Sv.
  intros Hk. rewrite PutIfMatch_once. destruct (badURL (url s k [])); [by left|].
  set (r := request s "PUT" (url s k []) (Some d) (condition t) w).
  assert (Hm : rqMethod r = "PUT") by apply request_method.
  assert (Hkey : objectKey (bucket s) (uHost (endpoint s)) r = Some k) by by apply request_key.
  destruct (svc_put r d w k Hm Hkey Hk) as [_ He]. pose proof (fun resp => svc_put_done r d w k resp Hm Hkey Hk) as Hd.
  assert (Herr : (objects (send r (Some d) w).2 = objects w /\ etagOf (send r (Some d) w).2 k = etagOf w k) \/
    (etagOf w k = (if String.eqb t "" then None else Some t) /\ objects (send r (Some d) w).2 = <[k := d]> (objects w))).
  { destruct He as [He|[He Ho]]; [by left|]. right. split; [|done]. by apply condition_sent in He. }
  destruct (send r (Some d) w) as [[resp|e] w']; cbn [fst snd] in *; [|done].
  destruct (Z.eqb_spec (rsStatus resp) 200) as [E|E]; [|done].
  destruct (Hd resp eq_refl E) as (Hc&Ho&Ht). apply condition_sent in Hc. split; [done|]. split; [done|]. by apply tagged_clean.
Qed.

(** ** Listings and ranges *)

Lemma listQuery_value p after max k :
  queryValue k (encodeValues (listQuery p after max)) =
  if String.eqb "list-type" k then "2" else
  if String.eqb "max-keys" k && (0 <? max) then itoa max else
  if String.eqb "prefix" k then p else if String.eqb "start-after" k then after else "".
Proof using Type.
  unfold encodeValues. change (fun kv : string * string => _) with queryPart.
  assert (Hs : merge_sort nameLe (listQuery p after max) = [("list-type", "2")] ++ (if 0 <? max then [("max-keys", itoa max)] else []) ++
    (if String.eqb p "" then [] else [("prefix", p)]) ++ (if String.eqb after "" then [] else [("start-after", after)])).
  { unfold listQuery. destruct (String.eqb p ""), (String.eqb after ""), (0 <? max); vm_compute; reflexivity. }
  rewrite Hs, queryValue_encode by done. cbn [app assoc].
  destruct (String.eqb "list-type" k); [done|].
  destruct (0 <? max); cbn [app assoc]; rewrite ?andb_true_r, ?andb_false_r; [destruct (String.eqb "max-keys" k); [done|]|];
    destruct (String.eqb_spec p ""), (String.eqb_spec after ""); subst; cbn [app assoc];
    (destruct (String.eqb_spec "prefix" k) as [<-|_]; [done|by destruct (String.eqb "start-after" k)]).
Qed.

Lemma fold_headers_query h r : rqQuery (fold_left (fun r kv => setHeader kv.1 kv.2 r) h r) = rqQuery r.
Proof using Type. revert r. induction h as [|kv h IH]; intros r; [done|]. simpl. by rewrite IH. Qed.

Lemma listing_request p after max w (r := request s "GET" (listURL s (listQuery p after max)) None [] w) :
  listsBucket (bucket s) (uHost (endpoint s)) r = true /\ queryValue "prefix" (rqQuery r) = p.
Proof using Type.
  unfold r, request. cbn [fold_left]. set (q := listQuery p after max).
  destruct (signV4_from (mkHTTPRequest "GET" (uHost (listURL s q)) (uHost (listURL s q)) (EscapedPath (listURL s q)) (uRawQuery (listURL s q)) [])
    (creds s) (region s) "s3" (payloadHash None) (clock w).1 (clock w).2) as [_ S2 S3 S4 _].
  unfold listsBucket. rewrite S2, S3, S4. cbn [rqHost rqPath rqQuery].
  assert (Hqv : uRawQuery (listURL s q) = encodeValues q) by (unfold listURL; by destruct (pathStyle s)). rewrite Hqv.
  unfold q. rewrite !listQuery_value. change (String.eqb "list-type" "list-type") with true. cbv iota.
  change (String.eqb "max-keys" "prefix") with false. cbn [andb]. change (String.eqb "list-type" "prefix") with false.
  change (String.eqb "prefix" "prefix") with true. cbv iota. split; [|done]. change (String.eqb "2" "2") with true. rewrite andb_true_r.
  unfold listURL. destruct (pathStyle s); cbn [uHost].
  - rewrite host_not_virtual, String.eqb_refl. cbn [andb orb]. unfold EscapedPath. cbn [uRawPath uPath].
    change (String.eqb ("/" +:+ _) "") with false. rewrite !allChars_app, !uriEncode_valid.
    change ("/" +:+ uriEncode (bucket s) true) with (String "/" (uriEncode (bucket s) true)). cbn [pathUnescape].
    change (Ascii.eqb "/" "%") with false. cbv iota.
    rewrite <- (app_empty_r (uriEncode (bucket s) true)), pathUnescape_uriEncode. cbn [pathUnescape fmap option_fmap option_map].
    rewrite !app_empty_r. rewrite bool_decide_eq_true_2 by done. cbn [negb andb].
    change (allChars validEncodedChar "/") with true. cbn [andb]. change (Ascii.eqb "/" "/") with true. cbn [andb].
    by rewrite unescape_uriEncode, String.eqb_refl.
  - rewrite String.eqb_refl. done.
Qed.

Lemma List_spec p after max w l : (Client.List s p after max w).1 = Ok l -> forall o, o ∈ l -> String.prefix p (oiKey o) = true /\ keyOK (oiKey o).
Proof using Sv.
  unfold Client.List. pose proof (do_read "GET" (listURL s (listQuery p after max)) [] w (or_introl eq_refl)) as H.
  destruct (do s "GET" _ None [] true w) as [[resp|e] w']; cbn [fst]; [|done]. destruct H as [_ (w1&_&Hr)].
  destruct (Z.eqb_spec (rsStatus resp) 200) as [E|E]; cbn [negb]; [|done]. unfold readBody. destruct (rsBodyErr resp) eqn:Eb; [done|].
  destruct (unmarshalListing (rsBody resp)) as [res|e] eqn:El; [|done]. intros [= <-] o Ho.
  apply list_elem_of_fmap in Ho as (c&->&Hc). cbn [oiKey]. destruct (listing_request p after max w1) as [Hl Hp].
  pose proof (svc_list _ w1 resp res (request_method s "GET" _ None [] w1) Hl Hr E Eb El c Hc) as Hx. rewrite Hp in Hx. by rewrite svc_key.
Qed.

(** A range is the bytes asked for, whether or not the service honours ranges. *)
Lemma GetRange_spec k off n w : k ≠ "" -> 0 <= off ->
  sameStore w (Client.GetRange s k off n w).2 /\
  forall b, 0 < n -> (Client.GetRange s k off n w).1 = Ok b -> exists d, objects w !! k = Some d /\ b = btake n (bdrop off d).
Proof using Hq Sv.
  intros Hk Hoff. unfold Client.GetRange. destruct (n <=? 0) eqn:En; [split; [done|]; intros b Hn; lia|].
  set (h := [_]). pose proof (do_read "GET" (url s k []) h w (or_introl eq_refl)) as H.
  destruct (do s "GET" (url s k []) None h true w) as [[resp|e] w']; cbn [fst snd]; [|by destruct H].
  destruct H as [Hs (w1&[H1 _]&Hr)]. split; [done|]. intros b Hn. rewrite <- H1.
  pose proof (request_method s "GET" (url s k []) None h w1) as Hm. pose proof (request_key s "GET" k None h w1 Hq) as Hkey.
  destruct (Z.eqb_spec (rsStatus resp) 206) as [E|E]; [rewrite E; change (206 =? 200) with false|
    destruct (Z.eqb_spec (rsStatus resp) 200) as [E'|E']]; cbn [negb andb]; [| |done]; unfold readBody.
  - destruct (rsBodyErr resp) eqn:Eb; [done|]. intros [= <-].
    eapply svc_range; [exact Hm|exact Hkey|done|done|exact Hn| |exact Hr|done|done].
    rewrite request_header by done. unfold h. cbn [fold_left fst snd]. by rewrite headerGet_set.
  - destruct (rsBodyErr resp) eqn:Eb; [done|]. destruct (svc_get _ _ _ _ Hm Hkey Hk Hr E' Eb) as [Ho _].
    destruct (blen (rsBody resp) <=? off) eqn:El; intros [= <-]; exists (rsBody resp); (split; [done|]); unfold blen, btake, bdrop in *.
    + rewrite drop_ge by lia. by rewrite take_nil.
    + destruct (decide (off + n <= Z.of_nat (length (rsBody resp)))).
      * f_equal. lia.
      * rewrite !take_ge; [done|rewrite length_drop; lia..].
Qed.

Lemma GetWithETag_same k w : sameStore w (Client.GetWithETag s k w).2.
Proof using Sv.
  unfold Client.GetWithETag. pose proof (do_read "GET" (url s k []) [] w (or_introl eq_refl)) as H.
  destruct (do s "GET" (url s k []) None [] true w) as [[resp|e] w']; by destruct H.
Qed.

Lemma Get_same k w : sameStore w (Client.Get s k w).2.
Proof using Sv. unfold Client.Get. pose proof (GetWithETag_same k w) as H. by destruct (Client.GetWithETag s k w) as [[[]|] ?]. Qed.

Lemma Head_same k w : sameStore w (Client.Head s k w).2.
Proof using Sv.
  unfold Client.Head. pose proof (do_read "HEAD" (url s k []) [] w (or_intror eq_refl)) as H.
  destruct (do s "HEAD" (url s k []) None [] true w) as [[resp|e] w']; by destruct H.
Qed.

Lemma List_same p after max w : sameStore w (Client.List s p after max w).2.
Proof using Sv.
  unfold Client.List. pose proof (do_read "GET" (listURL s (listQuery p after max)) [] w (or_introl eq_refl)) as H.
  destruct (do s "GET" _ None [] true w) as [[resp|e] w']; by destruct H.
Qed.

End Client.
