(* ===== verification/S3Props.v ===== *)
(** * The S3 client: theorems

    The client keeps the store's laws on any service that keeps its own, rides
    out transient failures of reads, and signs queries in one form. [Httpd] is
    a small service with scripted failures on which the witnesses run. *)

From Stdlib Require Import Ascii Strings.Byte.
From stdpp Require Import sorting.
From S2P Require Import Prelude Vfs Store ReadDir Commit Concrete SigV4 S3 S3Spec.
Import Client.

(** C24 The S3 client is a store: on any service that behaves as HTTP and the S3
    API document, whatever exchanges fail with or without having taken effect
    and however often reads and unconditional writes are sent again, the
    client keeps every law the filesystem relies on; in particular a
    conditional write takes effect only against the ETag it names. *)
Theorem s3_keeps_laws {W : Type} {Tr : Transport W} {X : Xml} {Cr : Crypto} {V : StoreView W} (s : S3) :
  Service W (bucket s) (uHost (endpoint s)) -> uRawQuery (endpoint s) = "" -> @StoreLaws W (store s) V.
Proof.
  intros Sv Hq. split; cbn [Store.Get Store.Head Store.Put Store.Delete ListObjects Store.PutIfMatch Store.GetWithETag store].
  - intros k w. exact (proj1 (Get_same s k w)).
  - intros k w k'. by destruct (Get_same s k w) as [_ ->].
  - intros k w d Hk%svc_key E. destruct (Get_spec s Hq k w Hk) as [_ H]. by rewrite E in H.
  - intros k w Hk%svc_key E. destruct (Get_spec s Hq k w Hk) as [_ H]. unfold isNotFound in E. destruct (Client.Get s k w).1; [done|by apply H].
  - intros k w. exact (proj1 (Head_same s k w)).
  - intros k w k'. by destruct (Head_same s k w) as [_ ->].
  - intros k w i Hk%svc_key. exact (Head_spec s Hq k w Hk i).
  - intros p a m w. exact (proj1 (List_same s p a m w)).
  - intros p a m w k'. by destruct (List_same s p a m w) as [_ ->].
  - intros p a m w l. exact (List_spec s p a m w l).
  - intros k w. exact (proj1 (GetWithETag_same s k w)).
  - intros k w k'. by destruct (GetWithETag_same s k w) as [_ ->].
  - intros k w d e Hk%svc_key E. destruct (GetWithETag_spec s Hq k w Hk) as [_ H]. by rewrite E in H.
  - intros k w Hk%svc_key E. destruct (GetWithETag_spec s Hq k w Hk) as [_ H]. unfold isNotFound in E. destruct (Client.GetWithETag s k w).1; [done|by apply H].
  - intros k d w Hk%svc_key. apply (Put_spec s Hq k d w Hk).
  - intros k d w e Hk%svc_key _. apply (Put_spec s Hq k d w Hk).
  - intros k d w k' Hk%svc_key. apply (Put_spec s Hq k d w Hk).
  - intros k w Hk%svc_key. apply (Delete_spec s Hq k w Hk).
  - intros k w e Hk%svc_key _. apply (Delete_spec s Hq k w Hk).
  - intros k w k' Hk%svc_key. apply (Delete_spec s Hq k w Hk).
  - intros k d t w t' Hk%svc_key E. pose proof (PutIfMatch_spec s Hq k d t w Hk) as H.
    destruct (Client.PutIfMatch s k d t w) as [r w']. cbn [fst snd] in *. by subst r.
  - intros k d t w e Hk%svc_key E. pose proof (PutIfMatch_spec s Hq k d t w Hk) as H.
    destruct (Client.PutIfMatch s k d t w) as [r w']. cbn [fst snd] in *. by subst r.
  - intros w k. apply svc_etag_some.
  - intros k Hk. apply svc_key. by intros ->.
Qed.

(** ** Transient failures *)

Section Retry.
Context {W : Type} {Tr : Transport W} {X : Xml} {Cr : Crypto}.
Context (s : S3) (method : string) (u : URL) (body : option bytes) (headers : list (string * string)).

(** The wait before an attempt. *)
Definition before (n : Z) (w : W) : option string * W := if 0 <? n then backoff (delay n) w else (None, w).

(** An exchange worth another: none at all, or an answer that says so. *)
Definition inTrouble (r : res string HTTPResponse) : Prop :=
  match r with Err _ => True | Ok resp => transient (rsStatus resp) = true end.

(** So many attempts in a row from attempt [n] on are in trouble. *)
Inductive troubled : Z -> nat -> W -> W -> Prop :=
| troubled_none n w : troubled n 0 w w
| troubled_more n j w w1 w2 w3 r :
    before n w = (None, w1) -> send (request s method u body headers w1) body w1 = (r, w2) -> inTrouble r ->
    troubled (n + 1) j w2 w3 -> troubled n (S j) w w3.

Lemma attempts_ride_out n j w w1 w2 w3 resp more :
  troubled n j w w1 -> (j <= more)%nat -> badURL u = None ->
  before (n + Z.of_nat j) w1 = (None, w2) -> send (request s method u body headers w2) body w2 = (Ok resp, w3) ->
  transient (rsStatus resp) = false -> attempts s method u body headers true more n w = (Ok resp, w3).
Proof using Type.
  intros Ht Hj Hu Hb Hs Hr. revert more Hj. induction Ht as [n w|n j w wa wb wc r H1 H2 H3 Ht IH]; intros more Hj.
  - rewrite Z.add_0_r in Hb. unfold before in Hb. destruct more; cbn [attempts]; rewrite Hb, Hu, Hs; cbn [andb]; by rewrite Hr.
  - destruct more as [|more]; [lia|]. cbn [attempts]. unfold before in H1. rewrite H1, Hu, H2.
    assert (IH' : attempts s method u body headers true more (n + 1) wb = (Ok resp, w3)).
    { apply IH; [|lia]. rewrite <- Hb. f_equal. lia. }
    destruct r as [resp'|e]; [cbn [inTrouble] in H3; rewrite H3; cbn [andb]|]; exact IH'.
Qed.

End Retry.

(** A read rides out trouble: if at most as many attempts as may be repeated
    meet no connection, a 5xx or a 429, and the next one, its wait not
    cancelled, is answered with the object, the read returns the object. *)
Theorem Get_rides_out {W : Type} {Tr : Transport W} {X : Xml} {Cr : Crypto} (s : S3) k j (w w1 w2 w3 : W) resp :
  badURL (url s k []) = None -> troubled s "GET" (url s k []) None [] 0 j w w1 -> (j <= maxRetries s)%nat ->
  before (Z.of_nat j) w1 = (None, w2) -> send (request s "GET" (url s k []) None [] w2) None w2 = (Ok resp, w3) ->
  rsStatus resp = 200 -> rsBodyErr resp = None -> Client.Get s k w = (Ok (rsBody resp), w3).
Proof.
  intros Hu Ht Hj Hb Hs H200 He. unfold Client.Get, Client.GetWithETag, do.
  rewrite (attempts_ride_out s "GET" (url s k []) None [] 0 j w w1 w2 w3 resp (maxRetries s)) by (try done; by rewrite H200).
  rewrite H200. cbn [negb Z.eqb Pos.eqb]. unfold readBody. by rewrite He.
Qed.

(** ** A service *)

Module Httpd.

(** How one exchange goes: answered, refused before it is looked at, answered
    with a 503, or carried out with its answer lost. *)
Inductive weather := Fine | Refused | Busy | Reset.

Record world := mkWorld { objs : gmap string bytes; script : list weather }.

Definition next (w : world) : weather * world :=
  match script w with [] => (Fine, w) | f :: fs => (f, mkWorld (objs w) fs) end.

Definition etag (d : bytes) : string := String "h" (hex d).

Definition plain (status : Z) (body : bytes) : HTTPResponse := mkHTTPResponse status [] body None.
Definition withTag (d : bytes) (body : bytes) : HTTPResponse := mkHTTPResponse 200 [("Etag", [quoted (etag d)])] body None.

Definition conditionOK (r : HTTPRequest) (cur : option bytes) : bool :=
  (negb (String.eqb (headerGet (rqHeader r) "If-None-Match") "*") || bool_decide (cur = None)) &&
  (String.eqb (headerGet (rqHeader r) "If-Match") "" ||
   match cur with Some d => String.eqb (headerGet (rqHeader r) "If-Match") (quoted (etag d)) | None => false end).

(** The listing of the keys under a prefix, as the document below codes it. *)
Definition keyListing (p : string) (m : gmap string bytes) : list (string * Z * string) :=
  map (fun kd : string * bytes => (kd.1, blen kd.2, quoted (etag kd.2))) (filter (fun kd => String.prefix p kd.1 = true /\ kd.1 ≠ "") (map_to_list m)).

Definition respond (r : HTTPRequest) (b : option bytes) (w : world) : HTTPResponse * world :=
  match objectKey "b" "h" r with
  | Some k =>
      if String.eqb (rqMethod r) "GET" then (match objs w !! k with Some d => withTag d d | None => plain 404 [] end, w)
      else if String.eqb (rqMethod r) "HEAD" then (match objs w !! k with Some d => withTag d [] | None => plain 404 [] end, w)
      else if String.eqb (rqMethod r) "PUT" then
        match b with
        | Some d => if conditionOK r (objs w !! k) then (withTag d [], mkWorld (<[k := d]> (objs w)) (script w)) else (plain 412 [], w)
        | None => (plain 400 [], w)
        end
      else if String.eqb (rqMethod r) "DELETE" then (plain 204 [], mkWorld (delete k (objs w)) (script w))
      else (plain 405 [], w)
  | None =>
      if String.eqb (rqMethod r) "GET" && listsBucket "b" "h" r
      then (plain 200 (toBytes (keyListing (queryValue "prefix" (rqQuery r)) (objs w))), w)
      else (plain 400 [], w)
  end.

Definition exchange (r : HTTPRequest) (b : option bytes) (w : world) : res string HTTPResponse * world :=
  let (f, w) := next w in
  match f with
  | Fine => let (resp, w) := respond r b w in (Ok resp, w)
  | Refused => (Err "connection refused", w)
  | Busy => (Ok (plain 503 []), w)
  | Reset => let (resp, w) := respond r b w in (Err "connection reset", w)
  end.

#[global] Instance transport : Transport world := {|
  clock _ := ("20240101T000000Z", "20240101");
  backoff _ w := (None, w);
  badURL _ := None;
  send := exchange
|}.

#[global] Instance xml : Xml := {|
  unmarshalError _ := mkS3Error "" "";
  unmarshalListing body :=
    match readBack body with
    | Some l => Ok (mkListBucketResult false (map (fun c : string * Z * string => mkObjectInfo c.1.1 c.1.2 c.2) l) "")
    | None => Err "EOF"
    end
|}.

#[global] Instance crypto : Crypto := {|
  sha256Hex s := s;
  hmacSHA256 k d := k +:+ "/" +:+ d;
  hexOf s := s
|}.

#[global] Instance view : StoreView world := {| keyOK k := k ≠ ""; objects := objs; etagOf w k := etag <$> objs w !! k |}.

Lemma next_objs w : objs (next w).2 = objs w.
Proof. unfold next. by destruct (script w). Qed.

Lemma etag_plain d : hasChar quote (etag d) = false.
Proof.
  unfold etag. cbn [hasChar]. change (Ascii.eqb "h" quote) with false. cbn [orb].
  induction d as [|b d IH]; [done|]. cbn [hex]. unfold hexByte. rewrite !app_cons. cbn [hasChar]. change ("" +:+ hex d) with (hex d). rewrite IH.
  destruct b; vm_compute; reflexivity.
Qed.

Lemma quoted_inj a b : quoted a = quoted b -> a = b.
Proof.
  intros [= H]. revert b H. induction a as [|x a IH]; intros [|y b] H; [done|..].
  - apply (f_equal String.length) in H. rewrite !string_length_app in H. simpl in H. lia.
  - apply (f_equal String.length) in H. rewrite !string_length_app in H. simpl in H. lia.
  - rewrite !app_cons in H. injection H as -> H. by rewrite (IH b H).
Qed.

Lemma conditionOK_holds r w k : conditionOK r (objs w !! k) = true -> conditionHolds r w k.
Proof.
  unfold conditionOK. rewrite andb_true_iff, !orb_true_iff. intros [C1 C2]. split.
  - intros E. rewrite E in C1. destruct C1 as [?|C1%bool_decide_eq_true_1]; [done|]. cbn [etagOf view]. by rewrite C1.
  - intros e E. rewrite E in C2. destruct C2 as [?|C2]; [done|]. cbn [etagOf view]. destruct (objs w !! k) as [d|]; [|done].
    apply String.eqb_eq, quoted_inj in C2 as ->. done.
Qed.

(** What answering a request does, before the answer is lost or not. *)
Lemma answer_safe r b w : rqMethod r = "GET" \/ rqMethod r = "HEAD" -> (respond r b w).2 = w.
Proof. intros [H|H]; unfold respond; rewrite H; by destruct (objectKey _ _ r); [|destruct (_ && _)]. Qed.

Lemma exchange_ok r b w resp : (exchange r b w).1 = Ok resp ->
  (resp = plain 503 [] /\ objs (exchange r b w).2 = objs w) \/ ((respond r b (next w).2).1 = resp /\ (exchange r b w).2 = (respond r b (next w).2).2).
Proof.
  unfold exchange. pose proof (next_objs w) as Hn. destruct (next w) as [f w1]. cbn [snd] in *.
  destruct f; cbn [fst snd]; try done; [|intros [= <-]; by left|by destruct (respond r b w1)].
  destruct (respond r b w1). intros [= <-]. by right.
Qed.

Lemma exchange_effect r b w : objs (exchange r b w).2 = objs w \/ (exchange r b w).2 = (respond r b (next w).2).2.
Proof.
  unfold exchange. pose proof (next_objs w) as Hn. destruct (next w) as [f w1]. cbn [snd] in *.
  destruct f; cbn [fst snd]; auto; destruct (respond r b w1); auto.
Qed.

Lemma answer_put r d w k : rqMethod r = "PUT" -> objectKey "b" "h" r = Some k ->
  respond r (Some d) w = if conditionOK r (objs w !! k) then (withTag d [], mkWorld (<[k := d]> (objs w)) (script w)) else (plain 412 [], w).
Proof. intros Hm Hk. unfold respond. rewrite Hm, Hk. done. Qed.

Lemma answer_delete r w k : rqMethod r = "DELETE" -> objectKey "b" "h" r = Some k ->
  respond r None w = (plain 204 [], mkWorld (delete k (objs w)) (script w)).
Proof. intros Hm Hk. unfold respond. rewrite Hm, Hk. done. Qed.

Lemma answer_get r w k : rqMethod r = "GET" -> objectKey "b" "h" r = Some k ->
  respond r None w = (match objs w !! k with Some d => withTag d d | None => plain 404 [] end, w).
Proof. intros Hm Hk. unfold respond. rewrite Hm, Hk. done. Qed.

Lemma tagged_withTag w k d b : objs w !! k = Some d -> tagged w k (withTag d b).
Proof. intros H. right. exists (etag d). split; [done|]. cbn [etagOf view]. by rewrite H. Qed.

#[global] Instance service : Service world "b" "h".
Proof.
  split.
  - done.
  - done.
  - intros r w Hm. cbn [send transport]. assert (Ho : objs (exchange r None w).2 = objs w).
    { destruct (exchange_effect r None w) as [?| ->]; [done|]. rewrite answer_safe by done. apply next_objs. }
    split; [done|]. intros k. cbn [etagOf view]. by rewrite Ho.
  - intros r w k resp Hm Hk _ Hs H200 _. destruct (exchange_ok _ _ _ _ Hs) as [[-> _]|[<- _]]; [done|].
    rewrite (answer_get _ _ _ Hm Hk) in *. rewrite next_objs in *. cbn [fst] in *.
    destruct (objs w !! k) as [d|] eqn:E; [|done]. split; [done|by apply tagged_withTag].
  - intros r w k resp off n Hm Hk _ _ _ _ Hs H206 _. destruct (exchange_ok _ _ _ _ Hs) as [[-> _]|[<- _]]; [done|].
    rewrite (answer_get _ _ _ Hm Hk) in *. cbn [fst] in *. by destruct (objs _ !! k).
  - intros r w k resp Hm Hk _ Hs H200 Ha. destruct (exchange_ok _ _ _ _ Hs) as [[-> _]|[<- _]]; [by destruct Ha as [?|[?|?]]|].
    rewrite (answer_get _ _ _ Hm Hk) in *. rewrite next_objs in *. cbn [fst] in *. by destruct (objs w !! k) as [d|] eqn:E.
  - intros r w k resp Hm Hk _ Hs H200. destruct (exchange_ok _ _ _ _ Hs) as [[-> _]|[<- _]]; [done|].
    unfold respond in *. rewrite Hm, Hk in *. cbn [String.eqb Ascii.eqb Bool.eqb fst] in *. rewrite next_objs in *.
    destruct (objs w !! k) as [d|] eqn:E; [|done]. cbn [objects view]. rewrite E. split; [eauto|by apply tagged_withTag].
  - intros r d w k Hm Hk _. cbn [send transport objects etagOf view].
    destruct (exchange_effect r (Some d) w) as [->| ->]; [split; [done|by left]|]. rewrite (answer_put _ _ _ _ Hm Hk), next_objs.
    destruct (conditionOK r (objs w !! k)) eqn:E; cbn [snd objs]; rewrite ?next_objs; [|split; [done|by left]].
    split; [intros k' Hk'; by rewrite lookup_insert_ne|]. right. split; [by apply conditionOK_holds|done].
  - intros r d w k resp Hm Hk _ Hs H200. cbn [send transport objects view] in *. destruct (exchange_ok _ _ _ _ Hs) as [[-> _]|[<- ->]]; [done|].
    rewrite (answer_put _ _ _ _ Hm Hk), next_objs in *. destruct (conditionOK r (objs w !! k)) eqn:E; cbn [fst snd objs] in *; [|done].
    rewrite ?next_objs. split; [by apply conditionOK_holds|]. split; [done|]. apply tagged_withTag. cbn [objs]. by rewrite lookup_insert_eq.
  - intros r w k Hm Hk _. cbn [send transport objects etagOf view].
    destruct (exchange_effect r None w) as [->| ->]; [split; [done|by left]|]. rewrite (answer_delete _ _ _ Hm Hk). cbn [snd objs]. rewrite next_objs.
    split; [intros k' Hk'; by rewrite lookup_delete_ne|by right].
  - intros r w k resp Hm Hk _ Hs Hst. cbn [send transport objects view] in *.
    destruct (exchange_ok _ _ _ _ Hs) as [[-> _]|[<- ->]]; [by destruct Hst as [?|[?|?]]|].
    rewrite (answer_delete _ _ _ Hm Hk). cbn [snd objs]. by rewrite next_objs.
  - intros r w resp res Hm Hl Hs H200 _ Hres o Ho. destruct (exchange_ok _ _ _ _ Hs) as [[-> _]|[<- _]]; [done|].
    assert (Hk : objectKey "b" "h" r = None).
    { unfold objectKey, listsBucket in *. destruct (rqPath r) as [|c p]; [done|]. destruct (String.eqb_spec (rqQuery r) "") as [E|E].
      - rewrite E in Hl. rewrite andb_false_r in Hl. done.
      - by rewrite andb_false_r. }
    unfold respond in Hres. rewrite Hk, Hm, Hl in Hres. cbn [String.eqb Ascii.eqb Bool.eqb andb fst plain rsBody] in Hres.
    cbn [unmarshalListing xml] in Hres. rewrite readBack_written in Hres. injection Hres as <-. cbn [Contents] in Ho.
    apply list_elem_of_fmap in Ho as (c&->&Hc). apply list_elem_of_fmap in Hc as (kd&->&Hkd). cbn [oiKey fst].
    by apply list_elem_of_filter in Hkd as [? _].
  - intros w k e. cbn [etagOf view]. destruct (objs w !! k); [|done]. intros [= <-]. apply etag_plain.
  - intros w k. cbn [etagOf objects view]. by rewrite fmap_is_Some.
Qed.

End Httpd.

(** ** Signed queries *)

(** What is signed of a query is what the service recomputes: for any
    parameters without a space in them, the canonical query the client signs,
    taken from the escaped query it sends, is the canonical form of the
    parameters themselves. *)
Theorem query_signed q :
  Forall (fun kv => hasChar " " kv.1 = false /\ hasChar " " kv.2 = false) q ->
  canonicalQuery (encodeValues q) = canonicalPairs q.
Proof.
  intros Hq. unfold encodeValues. change (fun kv : string * string => _) with queryPart.
  rewrite canonicalQuery_parts by (apply list.Forall_forall; intros x Hx; apply list_elem_of_fmap in Hx as (kv&->&_); apply queryPart_ok).
  rewrite <- (canonicalPairs_perm _ _ (merge_sort_Permutation nameLe q)). f_equal. rewrite map_map.
  rewrite <- (map_id (merge_sort nameLe q)) at 2. apply map_ext_in. intros kv Hin.
  apply list_elem_of_In in Hin. rewrite (merge_sort_Permutation nameLe q) in Hin. rewrite list.Forall_forall in Hq. destruct (Hq kv Hin) as [H1 H2].
  unfold pairOf, queryPart. change ("=" +:+ queryEscape kv.2) with (String "=" (queryEscape kv.2)).
  rewrite cut_app by (by apply queryEscape_no). rewrite !unescape_queryEscape by done. by destruct kv.
Qed.

(** A space in a parameter is signed as something else: the query a listing
    under a prefix with a space sends writes it as a plus sign, which the
    service reads as the space, while the canonical query signed holds the
    encoding of a plus sign. *)
Theorem space_signed_as_plus :
  let q := encodeValues (listQuery "a b" "" 0) in
  queryValue "prefix" q = "a b" /\ canonicalQuery q = canonicalPairs (listQuery "a+b" "" 0) /\
  canonicalQuery q ≠ canonicalPairs (listQuery "a b" "" 0).
Proof. cbv zeta. split; [vm_compute; reflexivity|]. split; [vm_compute; reflexivity|]. vm_compute. discriminate. Qed.

(** ** Witnesses *)

Definition demoS3 : S3 := mkS3 (mkURL "h" "" "" "") "b" "us-east-1" (mkCredentials "id" "key" "") true 3.

Definition demoURL (k : string) : URL := url demoS3 k [].

Definition demoObjects : gmap string bytes := {[ "chunks/a b" := [x01; x02] ]}.

Definition stormy : Httpd.world := Httpd.mkWorld demoObjects [Httpd.Refused; Httpd.Busy].

Lemma s3_keeps_laws_witness :
  @StoreLaws Httpd.world (store demoS3) Httpd.view /\ (Client.Get demoS3 "chunks/a b" stormy).1 = Ok [x01; x02].
Proof. split; [apply (s3_keeps_laws demoS3); [exact Httpd.service|reflexivity]|vm_compute; reflexivity]. Defined.

Lemma Get_rides_out_witness :
  Client.Get demoS3 "chunks/a b" stormy = (Ok [x01; x02], Httpd.mkWorld demoObjects []).
Proof.
  apply (Get_rides_out demoS3 "chunks/a b" 2 stormy (Httpd.mkWorld demoObjects []) (Httpd.mkWorld demoObjects []) (Httpd.mkWorld demoObjects [])
    (Httpd.withTag [x01; x02] [x01; x02])).
  - reflexivity.
  - eapply troubled_more; [reflexivity|reflexivity|exact I|]. eapply troubled_more; [reflexivity|reflexivity|reflexivity|]. apply troubled_none.
  - simpl. lia.
  - reflexivity.
  - vm_compute. reflexivity.
  - reflexivity.
  - reflexivity.
Defined.

Lemma query_signed_witness :
  canonicalQuery (encodeValues (listQuery "snapshots/" "snapshots/~1" 1000)) = "list-type=2&max-keys=1000&prefix=snapshots%2F&start-after=snapshots%2F~1".
Proof.
  rewrite (query_signed (listQuery "snapshots/" "snapshots/~1" 1000)); [vm_compute; reflexivity|].
  repeat constructor.
Defined.
