(* ===== verification/Check.v ===== *)
(** * The endpoint check (cmd/strata/check.go)

    [runCheck] probes a store for what a mount relies on. A row of its report
    is a [row]; the text of its details, which nothing acts on, is left out, and
    so is the printing. [nanos] is the clock reading the keys are made of. *)

From Stdlib Require Import Ascii Strings.Byte.
From stdpp Require Import pretty.
From S2P Require Import Prelude Vfs Store.

(** [result] of check.go. *)
Record row := mkRow { rowName : string; rowOK : bool; rowRequired : bool }.

Definition pass (name : string) : row := mkRow name true true.
Definition failed (name : string) (required : bool) : row := mkRow name false required.

Definition probe (s : string) : bytes := String.list_byte_of_string s.

(** The JSON document [{epoch: n}] of the conditional probes, its name quoted. *)
Definition epochDoc (n : string) : bytes :=
  let q := String "034" EmptyString in probe ("{" +:+ q +:+ "epoch" +:+ q +:+ ":" +:+ n +:+ "}").

Section Check.
Context {W : Type} {St : Store W}.

Definition checkRoundTrip (prefix : string) (w : W) : row * W :=
  let name := "put and get" in
  let key := prefix +:+ "roundtrip" in
  let want := probe "strata compatibility probe" in
  match Put key want w with
  | (Err _, w) => (failed name true, w)
  | (Ok _, w) =>
      match Get key w with
      | (Err _, w) => (failed name true, w)
      | (Ok got, w) => (if bool_decide (got = want) then pass name else failed name true, w)
      end
  end.

Definition awkwardKeys : list string := ["with space.txt"; "plus+sign"; "unicode-ünïcödé"; "parens(1)"].

Fixpoint checkKeys (name prefix : string) (ns : list string) (w : W) : row * W :=
  match ns with
  | [] => (pass name, w)
  | n :: ns =>
      match Put (prefix +:+ n) (probe n) w with
      | (Err _, w) => (failed name true, w)
      | (Ok _, w) =>
          match Get (prefix +:+ n) w with
          | (Err _, w) => (failed name true, w)
          | (Ok got, w) => if bool_decide (got = probe n) then checkKeys name prefix ns w else (failed name true, w)
          end
      end
  end.

Definition checkAwkwardKeys (prefix : string) (w : W) : row * W := checkKeys "keys needing escaping" prefix awkwardKeys w.

Definition checkRange (prefix : string) (w : W) : row * W :=
  let name := "ranged reads" in
  let key := prefix +:+ "range" in
  match Put key (probe "0123456789abcdefghij") w with
  | (Err _, w) => (failed name true, w)
  | (Ok _, w) =>
      match GetRange key 5 5 w with
      | (Err _, w) => (failed name true, w)
      | (Ok got, w) => (if bool_decide (got = probe "56789") then pass name else failed name true, w)
      end
  end.

Definition checkHeadETag (prefix : string) (w : W) : row * W :=
  let name := "head returns an etag" in
  let key := prefix +:+ "head" in
  match Put key (probe "abcdef") w with
  | (Err _, w) => (failed name true, w)
  | (Ok _, w) =>
      match Head key w with
      | (Err _, w) => (failed name true, w)
      | (Ok info, w) =>
          (if negb (oiSize info =? 6) then failed name true
           else if String.eqb (oiETag info) "" then failed name true
           else pass name, w)
      end
  end.

Definition notFound {A} (r : result A) : bool := match r with Err e => errIs e ErrNotFound | Ok _ => false end.

Definition checkMissingIsNotFound (prefix : string) (w : W) : row * W :=
  let name := "missing key reports 404" in
  let (r, w) := Get (prefix +:+ "definitely-absent") w in
  (if notFound r then pass name else failed name true, w).

(** The objects of a check, put one after another until one fails. *)
Fixpoint putAll (lp : string) (ns : list string) (w : W) : bool * W :=
  match ns with
  | [] => (true, w)
  | n :: ns => match Put (lp +:+ n) (probe n) w with (Err _, w) => (false, w) | (Ok _, w) => putAll lp ns w end
  end.

Definition checkList (prefix : string) (w : W) : row * W :=
  let name := "list with prefix" in
  let lp := prefix +:+ "list/" in
  match putAll lp ["a"; "b"; "c"] w with
  | (false, w) => (failed name true, w)
  | (true, w) =>
      match ListObjects lp "" 100 w with
      | (Err _, w) => (failed name true, w)
      | (Ok objs, w) => (if negb (blen objs =? 3) then failed name true else pass name, w)
      end
  end.

Definition checkDelete (prefix : string) (w : W) : row * W :=
  let name := "delete" in
  let key := prefix +:+ "doomed" in
  match Put key (probe "x") w with
  | (Err _, w) => (failed name true, w)
  | (Ok _, w) =>
      match Delete key w with
      | (Err _, w) => (failed name true, w)
      | (Ok _, w) => let (r, w) := Get key w in (if notFound r then pass name else failed name true, w)
      end
  end.

Definition nCreate := "conditional create (If-None-Match)".
Definition nUpdate := "conditional update (If-Match)".
Definition nReject := "stale If-Match is REJECTED".

(** The probe of a write conditioned on a superseded ETag. *)
Definition checkStale (key etag : string) (allowUnconditional : bool) (w : W) : row * W :=
  let (r, w) := PutIfMatch key (epochDoc "3") etag w in
  (match r with
   | Err e =>
       if errIs e ErrPrecondition then pass nReject
       else if errIs e ErrUnsupported then failed nReject (negb allowUnconditional)
       else failed nReject false
   | Ok _ => failed nReject false
   end, w).

Definition checkUpdate (key etag : string) (allowUnconditional : bool) (out : list row) (w : W) : list row * W :=
  match PutIfMatch key (epochDoc "2") etag w with
  | (Err e, w) =>
      let required := errIs e ErrUnsupported && negb allowUnconditional in
      (out ++ [failed nUpdate required; failed nReject required], w)
  | (Ok _, w) => let (r, w) := checkStale key etag allowUnconditional w in (out ++ [pass nUpdate; r], w)
  end.

Definition checkConditionalWrites (prefix : string) (allowUnconditional : bool) (w : W) : list row * W :=
  let key := prefix +:+ "cas" in
  match PutIfMatch key (epochDoc "1") "" w with
  | (Err e, w) =>
      (if errIs e ErrUnsupported then
         let required := negb allowUnconditional in
         [failed nCreate required; failed nUpdate required; failed nReject required]
       else [failed nCreate false; failed nUpdate false; failed nReject false], w)
  | (Ok etag, w) =>
      let out := [pass nCreate] in
      if String.eqb etag "" then
        match Head key w with
        | (Err _, w) => (out ++ [failed nUpdate false; failed nReject false], w)
        | (Ok info, w) => checkUpdate key (oiETag info) allowUnconditional out w
        end
      else checkUpdate key etag allowUnconditional out w
  end.

Fixpoint deleteAll (objs : list ObjectInfo) (w : W) : W :=
  match objs with [] => w | o :: objs => deleteAll objs (Delete (oiKey o) w).2 end.

Definition cleanup (prefix : string) (w : W) : W :=
  match ListObjects prefix "" 1000 w with
  | (Err _, w) => w
  | (Ok objs, w) => deleteAll objs w
  end.

(** What the rows say of the endpoint. *)
Definition requiredFailed (rows : list row) : bool := existsb (fun r => negb (rowOK r) && rowRequired r) rows.

Definition conclusion (rows : list row) : result unit :=
  if forallb rowOK rows then Ok tt
  else if requiredFailed rows then Err (EMsg "endpoint failed a required check")
  else Ok tt.

(** The probes of [runCheck] in order. *)
Definition probes (prefix : string) (allowUnconditional : bool) (w : W) : list row * W :=
  let (r1, w) := checkRoundTrip prefix w in
  let (r2, w) := checkAwkwardKeys prefix w in
  let (r3, w) := checkRange prefix w in
  let (r4, w) := checkHeadETag prefix w in
  let (r5, w) := checkMissingIsNotFound prefix w in
  let (r6, w) := checkList prefix w in
  let (r7, w) := checkDelete prefix w in
  let (cond, w) := checkConditionalWrites prefix allowUnconditional w in
  ([r1; r2; r3; r4; r5; r6; r7] ++ cond, w).

Definition checkPrefix (nanos : Z) : string := "strata-check/" +:+ pretty nanos +:+ "/".

Definition runCheck (nanos : Z) (allowUnconditional : bool) (w : W) : result unit * list row * W :=
  let prefix := checkPrefix nanos in
  let (rows, w) := probes prefix allowUnconditional w in
  (conclusion rows, rows, cleanup prefix w).

End Check.
