(* ===== verification/CheckSpec.v ===== *)
(** * What the endpoint check decides

    [Reliable] is a store that answers every call, as the comments of the Store
    interface say; [Swaps] adds conditional writes, [NoSwaps] refuses them as
    unsupported. The check passes the first, and passes the second exactly when
    a mount with the same flag would commit there; it leaves the bucket as it
    found it. *)

From Stdlib Require Import Ascii Strings.Byte.
From stdpp Require Import sorting.
From S2P Require Import Prelude Vfs Store Check.

(** ** Keys under a prefix *)

Lemma prefix_app p s : String.prefix p (p +:+ s) = true.
Proof. induction p as [|c p IH]; [by destruct s|]. change (String c p +:+ s) with (String c (p +:+ s)). simpl. by destruct (ascii_dec c c). Qed.

Lemma prefix_app_app p a b : String.prefix (p +:+ a) (p +:+ b) = String.prefix a b.
Proof.
  induction p as [|c p IH]; [done|]. change (String c p +:+ ?s) with (String c (p +:+ s)). simpl. by destruct (ascii_dec c c).
Qed.

Lemma prefix_trans a b k : String.prefix (a +:+ b) k = true -> String.prefix a k = true.
Proof.
  revert k. induction a as [|c a IH]; intros k; [by destruct k|]. change (String c a +:+ b) with (String c (a +:+ b)).
  destruct k as [|d k]; [done|]. simpl. destruct (ascii_dec c d); [apply IH|done].
Qed.

Lemma app_string_inj p a b : p +:+ a = p +:+ b -> a = b.
Proof. induction p as [|c p IH]; [done|]. intros [= H]. by apply IH. Qed.

(** ** Stores that answer *)

Class Reliable (W : Type) {St : Store W} {V : StoreView W} (up : W -> Prop) : Prop := {
  rel_put k d w : up w -> k ≠ "" -> exists w', Put k d w = (Ok tt, w') /\ up w' /\ objects w' = <[k := d]> (objects w);
  rel_delete k w : up w -> k ≠ "" -> exists w', Delete k w = (Ok tt, w') /\ up w' /\ objects w' = delete k (objects w);
  rel_get k w d : up w -> k ≠ "" -> objects w !! k = Some d -> exists w', Get k w = (Ok d, w') /\ up w' /\ objects w' = objects w;
  rel_gone k w : up w -> k ≠ "" -> objects w !! k = None ->
    exists e w', Get k w = (Err e, w') /\ errIs e ErrNotFound = true /\ up w' /\ objects w' = objects w;
  rel_range k off n w d : up w -> k ≠ "" -> 0 <= off -> 0 < n -> objects w !! k = Some d ->
    exists w', GetRange k off n w = (Ok (btake n (bdrop off d)), w') /\ up w' /\ objects w' = objects w;
  rel_head k w d : up w -> k ≠ "" -> objects w !! k = Some d ->
    exists i w', Head k w = (Ok i, w') /\ oiSize i = blen d /\ oiETag i ≠ "" /\ etagOf w k = Some (oiETag i) /\
      up w' /\ objects w' = objects w /\ etagOf w' k = etagOf w k;
  (** A listing that is shorter than it may be is complete. *)
  rel_list p m w : up w -> exists l w', ListObjects p "" m w = (Ok l, w') /\ up w' /\ objects w' = objects w /\
    NoDup (map oiKey l) /\ (forall o, o ∈ l -> String.prefix p (oiKey o) = true /\ is_Some (objects w !! oiKey o)) /\
    (blen l < m -> forall k, k ≠ "" -> String.prefix p k = true -> is_Some (objects w !! k) -> k ∈ map oiKey l)
}.

(** Conditional writes that compare ETags, with an ETag for each body. *)
Class Swaps (W : Type) {St : Store W} {V : StoreView W} (up : W -> Prop) : Prop := {
  swap_ok k d t w : up w -> k ≠ "" -> etagOf w k = (if String.eqb t "" then None else Some t) ->
    exists t' w', PutIfMatch k d t w = (Ok t', w') /\ up w' /\ objects w' = <[k := d]> (objects w) /\ (t' ≠ "" -> etagOf w' k = Some t');
  swap_stale k d t w : up w -> k ≠ "" -> t ≠ "" -> etagOf w k ≠ Some t ->
    exists e w', PutIfMatch k d t w = (Err e, w') /\ errIs e ErrPrecondition = true /\ up w' /\ objects w' = objects w;
  swap_absent w k : objects w !! k = None -> etagOf w k = None;
  swap_tells k w w' d d' : up w -> up w' -> objects w !! k = Some d -> objects w' !! k = Some d' -> d ≠ d' -> etagOf w k ≠ etagOf w' k
}.

(** None at all. *)
Class NoSwaps (W : Type) {St : Store W} {V : StoreView W} (up : W -> Prop) : Prop :=
  noswap k d t w : up w -> exists w', PutIfMatch k d t w = (Err (EStore ErrUnsupported), w') /\ up w' /\ objects w' = objects w.

(** ** The probes *)

Section Probes.
Context {W : Type} {St : Store W} {V : StoreView W} {up : W -> Prop} {R : Reliable W up}.
Context (p : string) (Hp : p ≠ "").

(** A probe on a store that answers: it passes, and the bucket gains objects
    under the prefix that are not in the listed directory. *)
Definition gains (ks : list string) (w w' : W) : Prop :=
  up w' /\ (forall k, ~ k ∈ map (String.append p) ks -> objects w' !! k = objects w !! k).

Lemma put_get n d w : up w -> exists w1, Put (p +:+ n) d w = (Ok tt, w1) /\ up w1 /\ objects w1 = <[p +:+ n := d]> (objects w) /\
  exists w2, Get (p +:+ n) w1 = (Ok d, w2) /\ gains [n] w w2.
Proof using Hp R.
  intros Hu. destruct (rel_put (p +:+ n) d w Hu (nonempty_app _ _ Hp)) as (w1&->&U1&O1). exists w1. split; [done|]. split; [done|]. split; [done|].
  destruct (rel_get (p +:+ n) w1 d U1 (nonempty_app _ _ Hp)) as (w2&->&U2&O2); [by rewrite O1, lookup_insert_eq|].
  exists w2. split; [done|]. split; [done|]. intros k Hk. rewrite O2, O1, lookup_insert_ne; [done|]. intros <-. apply Hk. simpl. by left.
Qed.

Lemma gains_trans a b w1 w2 w3 : gains a w1 w2 -> gains b w2 w3 -> gains (a ++ b) w1 w3.
Proof using Type.
  intros [U1 A1] [U2 A2]. split; [done|]. intros k Hk. rewrite map_app, elem_of_app in Hk.
  rewrite A2 by tauto. apply A1. tauto.
Qed.

Lemma gains_put n d w w1 w2 : up w1 -> objects w1 = <[p +:+ n := d]> (objects w) -> up w2 -> objects w2 = objects w1 -> gains [n] w w2.
Proof using Type.
  intros U1 O1 U2 O2. split; [done|]. intros k Hk. rewrite O2, O1, lookup_insert_ne; [done|]. intros <-. apply Hk. simpl. by left.
Qed.

Lemma checkRoundTrip_up w : up w -> exists w', checkRoundTrip p w = (pass "put and get", w') /\ gains ["roundtrip"] w w'.
Proof using Hp R.
  intros Hu. unfold checkRoundTrip. destruct (put_get "roundtrip" (probe "strata compatibility probe") w Hu) as (w1&->&_&_&w2&->&Hg).
  exists w2. split; [|done]. by rewrite bool_decide_eq_true_2.
Qed.

Lemma checkKeys_up name ns w : up w -> exists w', checkKeys name p ns w = (pass name, w') /\ gains ns w w'.
Proof using Hp R.
  revert w. induction ns as [|n ns IH]; intros w Hu; [exists w; split; [done|by split]|]. cbn [checkKeys].
  destruct (put_get n (probe n) w Hu) as (w1&->&_&_&w2&->&Hg). rewrite bool_decide_eq_true_2 by done.
  destruct (IH w2 (proj1 Hg)) as (w3&->&Hg'). exists w3. split; [done|]. exact (gains_trans [n] ns w w2 w3 Hg Hg').
Qed.

Lemma checkRange_up w : up w -> exists w', checkRange p w = (pass "ranged reads", w') /\ gains ["range"] w w'.
Proof using Hp R.
  intros Hu. unfold checkRange. set (d := probe _).
  destruct (rel_put (p +:+ "range") d w Hu (nonempty_app _ _ Hp)) as (w1&->&U1&O1).
  destruct (rel_range (p +:+ "range") 5 5 w1 d U1 (nonempty_app _ _ Hp)) as (w2&->&U2&O2); [lia|lia|by rewrite O1, lookup_insert_eq|].
  exists w2. split; [|exact (gains_put "range" d w w1 w2 U1 O1 U2 O2)]. by rewrite bool_decide_eq_true_2 by (vm_compute; reflexivity).
Qed.

Lemma checkHeadETag_up w : up w -> exists w', checkHeadETag p w = (pass "head returns an etag", w') /\ gains ["head"] w w'.
Proof using Hp R.
  intros Hu. unfold checkHeadETag. set (d := probe _).
  destruct (rel_put (p +:+ "head") d w Hu (nonempty_app _ _ Hp)) as (w1&->&U1&O1).
  destruct (rel_head (p +:+ "head") w1 d U1 (nonempty_app _ _ Hp)) as (i&w2&->&Hs&He&_&U2&O2&_); [by rewrite O1, lookup_insert_eq|].
  exists w2. split; [|exact (gains_put "head" d w w1 w2 U1 O1 U2 O2)]. rewrite Hs. change (blen d =? 6) with true. cbn [negb].
  by destruct (String.eqb_spec (oiETag i) "").
Qed.

Lemma checkMissing_up w : up w -> objects w !! (p +:+ "definitely-absent") = None ->
  exists w', checkMissingIsNotFound p w = (pass "missing key reports 404", w') /\ gains [] w w'.
Proof using Hp R.
  intros Hu Ha. unfold checkMissingIsNotFound. destruct (rel_gone _ w Hu (nonempty_app _ _ Hp) Ha) as (e&w1&->&He&U1&O1).
  exists w1. split; [cbn [notFound]; by rewrite He|]. split; [done|]. intros k _. by rewrite O1.
Qed.

Lemma checkDelete_up w : up w -> exists w', checkDelete p w = (pass "delete", w') /\ gains ["doomed"] w w'.
Proof using Hp R.
  intros Hu. unfold checkDelete. set (k := p +:+ "doomed").
  destruct (rel_put k (probe "x") w Hu (nonempty_app _ _ Hp)) as (w1&->&U1&O1).
  destruct (rel_delete k w1 U1 (nonempty_app _ _ Hp)) as (w2&->&U2&O2).
  destruct (rel_gone k w2 U2 (nonempty_app _ _ Hp)) as (e&w3&->&He&U3&O3); [by rewrite O2, lookup_delete_eq|].
  exists w3. split; [cbn [notFound]; by rewrite He|]. split; [done|]. intros j Hj.
  assert (k ≠ j) by (intros <-; apply Hj; simpl; by left). by rewrite O3, O2, lookup_delete_ne, O1, lookup_insert_ne.
Qed.

(** The keys of a listing that is short are all of them. *)
Lemma list_complete q m w ks : up w -> q ≠ "" -> NoDup ks -> blen ks < m ->
  (forall k, String.prefix q k = true -> is_Some (objects w !! k) <-> k ∈ ks) -> Forall (fun k => String.prefix q k = true) ks ->
  exists l w', ListObjects q "" m w = (Ok l, w') /\ up w' /\ objects w' = objects w /\ map oiKey l ≡ₚ ks.
Proof using R.
  intros Hu Hq Hnd Hm Hks Hpre. destruct (rel_list q m w Hu) as (l&w'&Hl&U&O&Hn&Hin&Hc). exists l, w'. do 3 (split; [done|]).
  assert (Hsub : map oiKey l ⊆ ks).
  { intros k Hk. apply list_elem_of_fmap in Hk as (o&->&Ho). destruct (Hin o Ho) as [H1 H2]. by apply Hks. }
  assert (Hlen : (length (map oiKey l) <= length ks)%nat) by (apply submseteq_length, NoDup_submseteq; done).
  rewrite length_map in Hlen. unfold blen in *. apply NoDup_Permutation; [done..|]. intros k. split; [apply Hsub|]. intros Hk.
  rewrite list.Forall_forall in Hpre. specialize (Hpre k Hk). apply Hc; [lia| |done|by apply Hks]. intros ->. by destruct q.
Qed.

Lemma putAll_up lp ns w : lp ≠ "" -> up w ->
  exists w', putAll lp ns w = (true, w') /\ up w' /\
    (forall k, k ∈ map (String.append lp) ns -> is_Some (objects w' !! k)) /\ (forall k, ~ k ∈ map (String.append lp) ns -> objects w' !! k = objects w !! k).
Proof using R.
  intros Hlp. revert w. induction ns as [|n ns IH]; intros w Hu; cbn [putAll].
  { exists w. do 2 (split; [done|]). split; [|done]. by intros k Hk%not_elem_of_nil. }
  destruct (rel_put (lp +:+ n) (probe n) w Hu (nonempty_app _ _ Hlp)) as (w1&->&U1&O1). destruct (IH w1 U1) as (w'&->&U'&Hin&Hout).
  exists w'. do 2 (split; [done|]). split; intros k; simpl; rewrite elem_of_cons.
  - destruct (decide (k ∈ map (String.append lp) ns)) as [Hk|Hk]; [by intros _; apply Hin|]. intros [->|?]; [|done].
    rewrite Hout by done. rewrite O1, lookup_insert_eq. eauto.
  - intros Hk. rewrite Hout by tauto. rewrite O1, lookup_insert_ne; [done|]. intros <-. tauto.
Qed.

Definition listed : list string := ["list/a"; "list/b"; "list/c"].

Lemma checkList_up w : up w -> (forall k, String.prefix (p +:+ "list/") k = true -> objects w !! k = None) ->
  exists w', checkList p w = (pass "list with prefix", w') /\ gains listed w w'.
Proof using Hp R.
  intros Hu Hno. unfold checkList. set (lp := p +:+ "list/") in *. assert (Hlp : lp ≠ "") by by apply nonempty_app.
  destruct (putAll_up lp ["a"; "b"; "c"] w Hlp Hu) as (w1&->&U1&Hin&Hout).
  assert (Hk3 : map (String.append lp) ["a"; "b"; "c"] = map (String.append p) listed) by (simpl; unfold lp; by rewrite !app_string_assoc).
  destruct (list_complete lp 100 w1 (map (String.append lp) ["a"; "b"; "c"])) as (l&w2&->&U2&O2&Hl); [done|done| |done| | |].
  - apply (NoDup_fmap_2_strong (String.append lp)); [intros a b _ _; apply app_string_inj|]. apply (bool_decide_unpack _). vm_compute. exact I.
  - intros k Hpre. split; [|apply Hin]. intros Hs. destruct (decide (k ∈ map (String.append lp) ["a"; "b"; "c"])) as [?|Hk]; [done|].
    rewrite Hout, Hno in Hs by done. by destruct Hs.
  - repeat (constructor; [apply prefix_app|]). constructor.
  - exists w2. split.
    + assert (Hlen : blen l = 3) by (apply Permutation_length in Hl; rewrite !length_map in Hl; unfold blen; rewrite Hl; done). by rewrite Hlen.
    + split; [done|]. intros k Hk. rewrite O2. apply Hout. by rewrite Hk3.
Qed.

(** What is cleaned up. *)
Lemma deleteAll_up l w : Forall (fun o => oiKey o ≠ "") l -> up w ->
  up (deleteAll l w) /\ (forall k, k ∈ map oiKey l -> objects (deleteAll l w) !! k = None) /\
  (forall k, ~ k ∈ map oiKey l -> objects (deleteAll l w) !! k = objects w !! k).
Proof using R.
  intros Hl. revert w. induction Hl as [|o l Ho Hl IH]; intros w Hu; cbn [deleteAll].
  { split; [done|]. split; [by intros k Hk%not_elem_of_nil|done]. }
  destruct (rel_delete (oiKey o) w Hu Ho) as (w1&->&U1&O1). cbn [snd]. destruct (IH w1 U1) as (U2&A&B). split; [done|].
  split; intros k; simpl; rewrite elem_of_cons.
  - intros Hk. destruct (decide (k ∈ map oiKey l)) as [?|Hn]; [by apply A|]. destruct Hk as [->|?]; [|done].
    rewrite B by done. by rewrite O1, lookup_delete_eq.
  - intros Hk. rewrite B by tauto. rewrite O1, lookup_delete_ne; [done|]. intros <-. tauto.
Qed.

(** Everything the probes wrote is removed. *)
Lemma cleanup_up ks w w1 : up w -> gains ks w w1 -> (blen ks < 1000) -> NoDup ks -> (forall k, String.prefix p k = true -> objects w !! k = None) ->
  up (cleanup p w1) /\ objects (cleanup p w1) = objects w.
Proof using Hp R.
  intros Hu [U1 G1] Hlen Hnd Hfresh. unfold cleanup.
  set (here := filter (fun k => is_Some (objects w1 !! k)) (map (String.append p) ks)).
  assert (Hhere : forall k, String.prefix p k = true -> is_Some (objects w1 !! k) <-> k ∈ here).
  { intros k Hk. unfold here. rewrite list_elem_of_filter. split; [|tauto]. intros Hs. split; [done|].
    destruct (decide (k ∈ map (String.append p) ks)) as [?|Hn]; [done|]. rewrite G1, Hfresh in Hs by done. by destruct Hs. }
  destruct (list_complete p 1000 w1 here) as (l&w2&->&U2&O2&Hl); [done|done| | |done| |].
  - unfold here. apply list.NoDup_filter. apply (NoDup_fmap_2_strong (String.append p)); [intros a b _ _; apply app_string_inj|done].
  - unfold blen in *. pose proof (list.length_filter (fun k => is_Some (objects w1 !! k)) (map (String.append p) ks)) as Hf.
    rewrite length_map in Hf. unfold here. lia.
  - apply list.Forall_forall. intros k Hk. unfold here in Hk. apply list_elem_of_filter in Hk as [_ Hk].
    apply list_elem_of_fmap in Hk as (n&->&_). apply prefix_app.
  - assert (Hkeys : forall k, k ∈ map oiKey l <-> k ∈ here) by (intros k; by rewrite Hl).
    destruct (deleteAll_up l w2) as (U3&A&B); [|done|].
    { apply list.Forall_forall. intros o Ho He. assert (Hk : oiKey o ∈ here) by (apply Hkeys, list_elem_of_fmap; eauto).
      unfold here in Hk. apply list_elem_of_filter in Hk as [_ Hk]. apply list_elem_of_fmap in Hk as (n&Hn&_).
      rewrite He in Hn. by apply (nonempty_app p n Hp). }
    split; [done|]. apply map_eq. intros k. destruct (String.prefix p k) eqn:Ep.
    + rewrite Hfresh by done. destruct (decide (k ∈ map oiKey l)) as [Hk|Hk]; [by apply A|]. rewrite B, O2 by done.
      rewrite Hkeys, <- Hhere in Hk by done. by apply eq_None_not_Some.
    + assert (Hk : ~ k ∈ map (String.append p) ks) by (intros Hk; apply list_elem_of_fmap in Hk as (n&->&_); by rewrite prefix_app in Ep).
      rewrite B, O2, G1; [done|done|]. rewrite Hkeys. unfold here. rewrite list_elem_of_filter. tauto.
Qed.

End Probes.

(** ** Conditional writes *)

Section Conditional.
Context {W : Type} {St : Store W} {V : StoreView W} {up : W -> Prop} {R : Reliable W up}.
Context (p : string) (Hp : p ≠ "").

Lemma checkUpdate_up {Sw : Swaps W up} allow e out w : up w -> e ≠ "" -> objects w !! (p +:+ "cas") = Some (epochDoc "1") -> etagOf w (p +:+ "cas") = Some e ->
  exists w', checkUpdate (p +:+ "cas") e allow out w = (out ++ [pass nUpdate; pass nReject], w') /\ up w' /\
    objects w' = <[p +:+ "cas" := epochDoc "2"]> (objects w).
Proof using Hp.
  intros Hu He Ho Het. unfold checkUpdate, checkStale. set (k := p +:+ "cas") in *. assert (Hk : k ≠ "") by by apply nonempty_app.
  destruct (swap_ok k (epochDoc "2") e w Hu Hk) as (t&w1&->&U1&O1&_); [by destruct (String.eqb_spec e "")|].
  destruct (swap_stale k (epochDoc "3") e w1 U1 Hk He) as (er&w2&->&Her&U2&O2).
  { rewrite <- Het. apply not_eq_sym. eapply (swap_tells k w w1); [done|done|exact Ho|by rewrite O1, lookup_insert_eq|].
    vm_compute. discriminate. }
  exists w2. rewrite Her. split; [done|]. split; [done|]. by rewrite O2, O1.
Qed.

Lemma checkConditional_up {Sw : Swaps W up} allow w : up w -> objects w !! (p +:+ "cas") = None ->
  exists w', checkConditionalWrites p allow w = ([pass nCreate; pass nUpdate; pass nReject], w') /\ gains (up := up) p ["cas"] w w'.
Proof using Hp R.
  intros Hu Ho. unfold checkConditionalWrites. set (k := p +:+ "cas") in *. assert (Hk : k ≠ "") by by apply nonempty_app.
  assert (Hend : forall w1 w2, up w1 -> objects w1 = <[k := epochDoc "1"]> (objects w) -> up w2 -> objects w2 = <[k := epochDoc "2"]> (objects w1) ->
    gains (up := up) p ["cas"] w w2).
  { intros w1 w2 _ O1 U2 O2. split; [done|]. intros j Hj. assert (k ≠ j) by (intros <-; apply Hj; simpl; by left).
    by rewrite O2, O1, !lookup_insert_ne. }
  destruct (swap_ok k (epochDoc "1") "" w Hu Hk) as (t&w1&->&U1&O1&Ht); [by apply swap_absent|].
  assert (Ho1 : objects w1 !! k = Some (epochDoc "1")) by by rewrite O1, lookup_insert_eq.
  destruct (String.eqb_spec t "") as [->|Hne].
  - destruct (rel_head k w1 _ U1 Hk Ho1) as (i&w2&->&_&Hi&Hie&U2&O2&E2).
    destruct (checkUpdate_up allow (oiETag i) [pass nCreate] w2) as (w3&E3&U3&O3); [done|done|by rewrite O2|fold k; by rewrite E2|].
    fold k in E3, O3. rewrite E3.
    exists w3. split; [done|]. apply (Hend w1); [done|done|done|by rewrite O3, O2].
  - destruct (checkUpdate_up allow t [pass nCreate] w1) as (w3&E3&U3&O3); [done|done|done|by apply Ht|].
    fold k in E3, O3. rewrite E3.
    exists w3. split; [done|]. by apply (Hend w1).
Qed.

(** The names the probes write under. *)
Definition probedKeys : list string := ["roundtrip"] ++ awkwardKeys ++ ["range"] ++ ["head"] ++ [] ++ listed ++ ["doomed"].

Lemma probed_nodup : NoDup (probedKeys ++ ["cas"]).
Proof. apply (bool_decide_unpack _). vm_compute. exact I. Qed.

(** The seven probes before the conditional ones. *)
Lemma basics_up allow w : up w -> (forall k, String.prefix p k = true -> objects w !! k = None) ->
  exists rows w1, forallb rowOK rows = true /\ gains (up := up) p probedKeys w w1 /\
    probes p allow w = let (cond, w2) := checkConditionalWrites p allow w1 in (rows ++ cond, w2).
Proof using Hp R.
  intros Hu Hf. unfold probes.
  destruct (checkRoundTrip_up p Hp w Hu) as (w1&->&G1). destruct (checkKeys_up p Hp "keys needing escaping" awkwardKeys w1 (proj1 G1)) as (w2&E2&G2).
  unfold checkAwkwardKeys at 1. rewrite E2. pose proof (gains_trans p _ _ _ _ _ G1 G2) as H2.
  destruct (checkRange_up p Hp w2 (proj1 G2)) as (w3&->&G3). pose proof (gains_trans p _ _ _ _ _ H2 G3) as H3.
  destruct (checkHeadETag_up p Hp w3 (proj1 G3)) as (w4&->&G4). pose proof (gains_trans p _ _ _ _ _ H3 G4) as H4.
  assert (Hkeep : forall k, String.prefix p k = true -> ~ k ∈ map (String.append p) (((["roundtrip"] ++ awkwardKeys) ++ ["range"]) ++ ["head"]) -> objects w4 !! k = None).
  { intros k Hk Hn. rewrite (proj2 H4 k Hn). by apply Hf. }
  destruct (checkMissing_up p Hp w4 (proj1 G4)) as (w5&->&G5).
  { apply Hkeep; [apply prefix_app|]. intros Hin. apply list_elem_of_fmap in Hin as (n&Hn%app_string_inj&Hin). revert Hin. subst n.
    apply (bool_decide_unpack _). vm_compute. exact I. }
  pose proof (gains_trans p _ _ _ _ _ H4 G5) as H5.
  destruct (checkList_up p Hp w5 (proj1 G5)) as (w6&->&G6).
  { intros k Hk. rewrite (proj2 G5) by apply not_elem_of_nil. apply Hkeep; [by eapply prefix_trans|]. intros Hin.
    apply list_elem_of_fmap in Hin as (n&->&Hin). rewrite prefix_app_app in Hk. revert Hk.
    assert (Hall : Forall (fun n => String.prefix "list/" n = false) (((["roundtrip"] ++ awkwardKeys) ++ ["range"]) ++ ["head"])).
    { apply (bool_decide_unpack _). vm_compute. exact I. }
    rewrite list.Forall_forall in Hall. rewrite (Hall n Hin). done. }
  pose proof (gains_trans p _ _ _ _ _ H5 G6) as H6.
  destruct (checkDelete_up p Hp w6 (proj1 G6)) as (w7&->&G7). pose proof (gains_trans p _ _ _ _ _ H6 G7) as H7.
  eexists [_; _; _; _; _; _; _], w7. split; [|split; [|by destruct (checkConditionalWrites p allow w7)]]; [done|].
  rewrite <- !app_assoc in H7. exact H7.
Qed.

Lemma cas_absent w w1 : (forall k, String.prefix p k = true -> objects w !! k = None) -> gains (up := up) p probedKeys w w1 -> objects w1 !! (p +:+ "cas") = None.
Proof using Type.
  intros Hf G. rewrite (proj2 G); [apply Hf, prefix_app|]. intros Hin. apply list_elem_of_fmap in Hin as (n&Hn%app_string_inj&Hin).
  revert Hin. subst n. apply (bool_decide_unpack _). vm_compute. exact I.
Qed.

End Conditional.

Lemma checkPrefix_nonempty nanos : checkPrefix nanos ≠ "".
Proof. done. Qed.

(** The check passes what a mount needs: on a store that answers and compares
    ETags, with nothing under the key prefix of the check, every probe passes,
    the check succeeds, and the bucket is left exactly as it was. *)
Theorem check_accepts {W : Type} {St : Store W} {V : StoreView W} (up : W -> Prop) nanos allow (w : W) :
  Reliable W up -> Swaps W up -> up w -> (forall k, String.prefix (checkPrefix nanos) k = true -> objects w !! k = None) ->
  exists rows w', runCheck nanos allow w = (Ok tt, rows, w') /\ forallb rowOK rows = true /\ objects w' = objects w.
Proof.
  intros R Sw Hu Hf. unfold runCheck. pose proof (checkPrefix_nonempty nanos) as Hp. set (p := checkPrefix nanos) in *.
  destruct (basics_up p Hp allow w Hu Hf) as (rows&w1&Hrows&G1&->).
  destruct (checkConditional_up p Hp allow w1 (proj1 G1) (cas_absent p w w1 Hf G1)) as (w2&->&G2).
  destruct (cleanup_up p Hp (probedKeys ++ ["cas"]) w w2) as (_&Ho); [done|by eapply gains_trans|done|apply probed_nodup|done|].
  eexists _, _. split; [|split; [|exact Ho]].
  - unfold conclusion. rewrite forallb_app, Hrows. reflexivity.
  - by rewrite forallb_app, Hrows.
Qed.

(** The check says what a mount would do: on a store that answers but does
    not support conditional writes, it fails exactly when the flag that lets a
    commit write the root pointer unconditionally is not given, and leaves the
    bucket as it was either way. *)
Theorem check_without_swaps {W : Type} {St : Store W} {V : StoreView W} (up : W -> Prop) nanos allow (w : W) :
  Reliable W up -> NoSwaps W up -> up w -> (forall k, String.prefix (checkPrefix nanos) k = true -> objects w !! k = None) ->
  exists rows w', runCheck nanos allow w = (if allow then Ok tt else Err (EMsg "endpoint failed a required check"), rows, w') /\
    objects w' = objects w.
Proof.
  intros R Sw Hu Hf. unfold runCheck. pose proof (checkPrefix_nonempty nanos) as Hp. set (p := checkPrefix nanos) in *.
  destruct (basics_up p Hp allow w Hu Hf) as (rows&w1&Hrows&G1&->).
  assert (Hc : exists w2, checkConditionalWrites p allow w1 = ([failed nCreate (negb allow); failed nUpdate (negb allow); failed nReject (negb allow)], w2) /\
    up w2 /\ objects w2 = objects w1).
  { unfold checkConditionalWrites. destruct (noswap (p +:+ "cas") (epochDoc "1") "" w1 (proj1 G1)) as (w2&->&U2&O2). by exists w2. }
  destruct Hc as (w2&->&U2&O2).
  destruct (cleanup_up p Hp probedKeys w w2) as (_&Ho); [done| |done| |done|].
  - split; [done|]. intros k Hk. rewrite O2. by apply (proj2 G1).
  - pose proof probed_nodup as Hn. by apply list.NoDup_app in Hn as [? _].
  - eexists _, _. split; [|exact Ho]. unfold conclusion, requiredFailed. rewrite forallb_app, existsb_app, Hrows.
    assert (Hx : existsb (fun r => negb (rowOK r) && rowRequired r) rows = false).
    { clear -Hrows. induction rows as [|r rows IH]; [done|]. cbn [forallb existsb] in *. apply andb_true_iff in Hrows as [-> Hr]. by rewrite (IH Hr). }
    rewrite Hx. by destruct allow.
Qed.

(** ** The in-memory bucket *)

(** The bucket with no faults left to come. *)
Definition calm (w : Bucket.world) : Prop := Bucket.script w = [].

(** The bucket without conditional writes. *)
Definition withoutSwaps : Store Bucket.world := {|
  Get := Get; GetRange := GetRange; Head := Head; Put := Put; Delete := Delete; ListObjects := ListObjects;
  PutIfMatch _ _ _ w := (Err (EStore ErrUnsupported), w);
  Name := Name; GetWithETag := GetWithETag
|}.

Lemma calm_put k d w : calm w -> Bucket.put k d w = (Ok tt, Bucket.store w k d).
Proof. unfold calm, Bucket.put, Bucket.nextFault. by intros ->. Qed.

Lemma calm_list q m w (l := match (Bucket.list_ q "" m w).1 with Ok l => l | Err _ => [] end) :
  NoDup (map oiKey l) /\ (forall o, o ∈ l -> String.prefix q (oiKey o) = true /\ is_Some (Bucket.objs w !! oiKey o)) /\
  (blen l < m -> forall k, k ≠ "" -> String.prefix q k = true -> is_Some (Bucket.objs w !! k) -> k ∈ map oiKey l).
Proof.
  unfold l, Bucket.list_. cbn [fst]. clear l. set (under := filter _ _).
  set (info := fun kd : string * bytes => _). set (out := map info _).
  assert (Hperm : map oiKey out ≡ₚ under.*1).
  { unfold out. rewrite (merge_sort_Permutation Bucket.keyLe under), map_map. done. }
  assert (Hnd : NoDup (map oiKey out)).
  { rewrite Hperm. unfold under. eapply sublist_NoDup; [apply (NoDup_fst_map_to_list (Bucket.objs w))|].
    apply fmap_sublist, sublist_filter. }
  assert (Hin : forall k, k ∈ map oiKey out <-> (String.prefix q k = true /\ String.ltb "" k = true) /\ is_Some (Bucket.objs w !! k)).
  { intros k. rewrite Hperm. unfold under. rewrite list_elem_of_fmap. split.
    - intros ([k' d]&->&[[H1 H2] H3%elem_of_map_to_list]%list_elem_of_filter). cbn [fst] in *. eauto.
    - intros [H [d Hd]]. exists (k, d). split; [done|]. apply list_elem_of_filter. split; [done|]. by apply elem_of_map_to_list. }
  set (l := if 0 <? m then btake m out else out).
  assert (Hl : exists r, out = l ++ r /\ (blen l < m -> r = [])).
  { unfold l. destruct (0 <? m) eqn:Em; [|exists []; by rewrite app_nil_r]. unfold btake, blen. exists (drop (Z.to_nat m) out).
    split; [by rewrite take_drop|]. rewrite length_take. intros Hlt. apply drop_ge. lia. }
  destruct Hl as (r&Hout&Hr). rewrite Hout, map_app in Hnd. split; [by apply list.NoDup_app in Hnd as [? _]|]. split.
  - intros o Ho. assert (Hk : oiKey o ∈ map oiKey out) by (rewrite Hout, map_app, elem_of_app; left; apply list_elem_of_fmap; eauto).
    apply Hin in Hk as [[? _] ?]. done.
  - intros Hlt k Hk Hpre Hs. specialize (Hr Hlt) as ->. rewrite app_nil_r in Hout. rewrite <- Hout. apply Hin. split; [|done]. split; [done|].
    by destruct k.
Qed.

#[global] Instance calm_reliable : Reliable Bucket.world calm.
Proof.
  split; intros; simpl in *; unfold calm in *.
  - rewrite calm_put by done. by eexists.
  - by eexists.
  - unfold Bucket.get. rewrite H1. by exists w.
  - unfold Bucket.get. rewrite H1. by exists (EStore ErrNotFound), w.
  - unfold Bucket.getRange. rewrite H3. by exists w.
  - unfold Bucket.head. rewrite H1. exists (mkObjectInfo k (blen d) (Bucket.etag d)), w. cbn [oiSize oiETag]. rewrite ?H1. split; [done|]. split; [done|]. split; [done|]. split; [done|]. done.
  - destruct (calm_list p m w) as (H1&H2&H3). eexists _, w. split; [reflexivity|]. split; [done|]. split; [done|]. done.
Qed.

#[global] Instance calm_swaps : Swaps Bucket.world calm.
Proof.
  split; simpl; unfold calm.
  - intros k d t w Hc Hk He. unfold Bucket.putIfMatch, Bucket.nextFault. rewrite Hc.
    assert (Hm : Bucket.matches w k t = true).
    { unfold Bucket.matches. destruct (Bucket.objs w !! k) as [x|]; simpl in He; destruct (String.eqb_spec t ""); try done.
      injection He as <-. apply String.eqb_refl. }
    rewrite Hm. eexists _, _. split; [reflexivity|]. simpl. by rewrite lookup_insert_eq.
  - intros k d t w Hc Hk Ht He. unfold Bucket.putIfMatch, Bucket.nextFault. rewrite Hc.
    destruct (Bucket.matches w k t) eqn:Em; [|by exists (EStore ErrPrecondition), w].
    apply Bucket.matches_etag in Em. destruct (String.eqb_spec t ""); done.
  - intros w k ->. done.
  - intros k w w' d d' _ _ -> -> Hd [= He]. apply Hd. change (String.string_of_list_byte d = String.string_of_list_byte d') in He. by rewrite <- (String.list_byte_of_string_of_list_byte d), He, String.list_byte_of_string_of_list_byte.
Qed.

#[global] Instance plain_reliable : @Reliable Bucket.world withoutSwaps Bucket.bucket_view calm.
Proof. destruct calm_reliable as [A1 A2 A3 A4 A5 A6 A7]. by split. Qed.

#[global] Instance plain_noswaps : @NoSwaps Bucket.world withoutSwaps Bucket.bucket_view calm.
Proof. intros k d t w Hc. by exists w. Qed.

Definition emptyBucket : Bucket.world := Bucket.mkWorld ∅ [].

Lemma check_accepts_witness : exists rows w', runCheck 7 false emptyBucket = (Ok tt, rows, w') /\ forallb rowOK rows = true /\ objects w' = objects emptyBucket.
Proof. apply (check_accepts calm 7 false emptyBucket); [exact calm_reliable|exact calm_swaps|reflexivity|intros k _; apply lookup_empty]. Defined.

Lemma check_without_swaps_witness :
  exists rows w', runCheck (St := withoutSwaps) 7 false emptyBucket = (Err (EMsg "endpoint failed a required check"), rows, w') /\ objects w' = objects emptyBucket.
Proof.
  apply (check_without_swaps (St := withoutSwaps) calm 7 false emptyBucket);
    [exact plain_reliable|exact plain_noswaps|reflexivity|intros k _; apply lookup_empty].
Defined.
