(* ===== verification/Flags.v ===== *)
(** * The command line (cmd/strata/main.go)

    The flags as the flag package leaves them, on a platform whose int has 64
    bits; what [run] makes of them before it opens the store, the configuration
    it mounts with, the store a bucket spec opens, the final commit and the
    options of the mount command it prints. Parsing the command line, signals
    and listening are left out. [errors.Join] is the list of the errors that
    are not nil. *)

From Stdlib Require Import Ascii.
From stdpp Require Import pretty.
From S2P Require Import Prelude Vfs Store ChunkCache Budget FsState SigV4 S3.

Definition maxInt64 : Z := 2 ^ 63 - 1.
Definition maxUint32 : Z := 2 ^ 32 - 1.

(** A flag of type int. *)
Definition is_int (z : Z) : Prop := - 2 ^ 63 <= z <= maxInt64.

(** [int64(mib) << 20], kept at its width. *)
Definition shl20 (z : Z) : Z := (z * 2 ^ 20 + 2 ^ 63) mod 2 ^ 64 - 2 ^ 63.

Definition maxDirtyBytes (mib : Z) : Z :=
  if (mib <=? 0) || (Z.shiftr maxInt64 20 <? mib) then -1 else shl20 mib.

Definition chunkSizeBytes (kib : Z) : result Z :=
  if (kib <? 0) || (Z.shiftr maxUint32 10 <? kib)
  then Err (EMsg ("-chunk-size " +:+ pretty kib +:+ " is out of range: it cannot be negative or more than 4194303 KiB"))
  else Ok (u32 (u32 kib * 1024)).

Definition cacheBytes (mib : Z) : Z :=
  if mib <=? 0 then 0 else if Z.shiftr maxInt64 20 <? mib then maxInt64 else shl20 mib.

Definition commitInterval (d : Z) : result Z :=
  if d <? 0 then Err (EMsg "-commit-interval is negative: give a positive duration, or 0 for the default") else Ok d.

Definition maxID : Z := maxUint32 - 1.

Definition ownerID (flagName : string) (given current : Z) : result Z :=
  if (0 <=? given) && (given <=? maxID) then Ok (u32 given)
  else if (given =? -1) && negb (current =? maxUint32) then Ok current
  else if given =? -1 then Err (EMsg (flagName +:+ " -1 asks for the id strata runs as, which this platform does not report"))
  else Err (EMsg (flagName +:+ " " +:+ pretty given +:+ " is out of range")).

Record flags := mkFlags {
  flBucket : string;
  flEndpoint : string;
  flRegion : string;
  flPathStyle : bool;
  flReadOnly : bool;
  flChunkKiB : Z;
  flCacheMiB : Z;
  flInterval : Z;
  flRetention : Z;
  flMaxDirty : Z;
  flVerifyChunks : bool;
  flAllowUnconditional : bool;
  flUID : Z;
  flGID : Z
}.

(** [currentIDs]: the ids the kernel reports, as uint32. *)
Definition currentIDs (getuid getgid : Z) : Z * Z := (u32 getuid, u32 getgid).

(** What [run] checks before it opens the store, and the configuration it
    builds of what it accepted. *)
Definition configure (fl : flags) (getuid getgid : Z) : result Config :=
  if String.eqb (flBucket fl) "" then Err (EMsg "-bucket is required")
  else match chunkSizeBytes (flChunkKiB fl) with
  | Err e => Err e
  | Ok cs =>
      match commitInterval (flInterval fl) with
      | Err e => Err e
      | Ok every =>
          let (uid, gid) := currentIDs getuid getgid in
          match ownerID "-uid" (flUID fl) uid with
          | Err e => Err e
          | Ok uid =>
              match ownerID "-gid" (flGID fl) gid with
              | Err e => Err e
              | Ok gid =>
                  Ok (mkConfig cs every uid gid (negb (flVerifyChunks fl)) (flReadOnly fl) (flRetention fl)
                        (maxDirtyBytes (flMaxDirty fl)) (cacheBytes (flCacheMiB fl)) (flAllowUnconditional fl))
              end
          end
      end
  end.

(** The store a spec names: an S3 client, or the root of a directory store. *)
Inductive opened := OpenedS3 (s : Client.S3) | OpenedLocal (root : string).

(** [strings.CutPrefix] and [strings.TrimPrefix]. *)
Definition cutPrefix (p s : string) : option string :=
  if String.prefix p s then Some (String.substring (String.length p) (String.length s - String.length p) s) else None.

Definition openStore (parse : string -> res string URL) (spec endpoint region : string) (creds : Credentials) (pathStyle : bool) : result opened :=
  match cutPrefix "s3://" spec with
  | Some rest =>
      let bucket := (cut "/"%char rest).1 in
      if String.eqb bucket "" then Err (EMsg ("no bucket name in " +:+ spec))
      else if String.eqb (AccessKeyID creds) "" || String.eqb (SecretAccessKey creds) ""
      then Err (EMsg "AWS_ACCESS_KEY_ID and AWS_SECRET_ACCESS_KEY must be set to use an S3 bucket")
      else match Client.NewS3 parse (Client.mkS3Config endpoint bucket region creds pathStyle) with
           | Ok s => Ok (OpenedS3 s)
           | Err e => Err e
           end
  | None => Ok (OpenedLocal (default spec (cutPrefix "file://" spec)))
  end.

(** [finalCommit]: serving ends, then the commit is made whatever ended it. *)
Definition finalCommit {S} (cause : option error) (endServing : S -> S) (sync : S -> result unit * S) (s : S) : list error * S :=
  let s := endServing s in
  let (r, s) := sync s in
  (option_list cause ++ match r with Err e => [EWrap "final commit" e] | Ok _ => [] end, s).

Definition mountOptions (goos port : string) (readOnly : bool) : list string :=
  ["vers=3"; "tcp"; "port=" +:+ port; "mountport=" +:+ port; "noresvport"; "hard"; "nosuid"; "nodev"] ++
  (if String.eqb goos "darwin" then ["nolocks"; "locallocks"] else ["nolock"]) ++
  (if readOnly then ["ro"] else []).

(** ** What the flags come to *)

Lemma shl20_exact z : 0 < z <= Z.shiftr maxInt64 20 -> shl20 z = z * 2 ^ 20 /\ z * 2 ^ 20 <= maxInt64.
Proof.
  change (Z.shiftr maxInt64 20) with (2 ^ 43 - 1). unfold shl20, maxInt64. intros Hz. rewrite Z.mod_small; lia.
Qed.

(** An id that was asked for, or the one strata runs as. *)
Definition idFor (given current id : Z) : Prop :=
  0 <= id < maxUint32 /\ (id = given \/ (given = -1 /\ id = current)).

Lemma ownerID_spec name given current id : is_u32 current -> ownerID name given current = Ok id -> idFor given current id.
Proof.
  unfold ownerID, idFor, maxID, maxUint32, is_u32. intros Hc.
  destruct (Z.leb_spec 0 given), (Z.leb_spec given (2 ^ 32 - 1 - 1)); cbn [andb].
  1: { intros [= <-]. unfold u32. rewrite Z.mod_small by lia. lia. }
  all: destruct (Z.eqb_spec given (-1)); cbn [andb]; [|done].
  all: destruct (Z.eqb_spec current (2 ^ 32 - 1)); cbn [negb]; [done|]; intros [= <-]; lia.
Qed.

(** No flag wraps: a configuration that is accepted has exactly the chunk
    size and commit interval that were given, a uint32 and not negative, owners
    that were asked for or are those of the process and never the id that
    stands for none, and a write limit and a cache bound that are exact in
    bytes, with no limit, or the largest bound, for what bytes cannot express. *)
Theorem configure_exact fl getuid getgid cfg :
  is_int (flMaxDirty fl) -> is_int (flCacheMiB fl) -> configure fl getuid getgid = Ok cfg ->
  (ChunkSize cfg = flChunkKiB fl * 1024 /\ is_u32 (ChunkSize cfg)) /\
  (CommitInterval cfg = flInterval fl /\ 0 <= CommitInterval cfg) /\
  idFor (flUID fl) (u32 getuid) (OwnerUID cfg) /\ idFor (flGID fl) (u32 getgid) (OwnerGID cfg) /\
  (MaxDirtyBytes cfg = -1 /\ (flMaxDirty fl <= 0 \/ maxInt64 < flMaxDirty fl * 2 ^ 20) \/
   MaxDirtyBytes cfg = flMaxDirty fl * 2 ^ 20 /\ 0 < MaxDirtyBytes cfg <= maxInt64) /\
  (CacheBytes cfg = Z.min maxInt64 (Z.max 0 (flCacheMiB fl * 2 ^ 20))).
Proof.
  intros Hd Hc. unfold configure. destruct (String.eqb (flBucket fl) ""); [done|].
  unfold chunkSizeBytes. change (Z.shiftr maxUint32 10) with (2 ^ 22 - 1).
  destruct (Z.ltb_spec (flChunkKiB fl) 0); [done|]. destruct (Z.ltb_spec (2 ^ 22 - 1) (flChunkKiB fl)); [done|]. cbn [orb].
  unfold commitInterval. destruct (Z.ltb_spec (flInterval fl) 0); [done|]. cbn [currentIDs].
  destruct (ownerID "-uid" (flUID fl) (u32 getuid)) as [uid|] eqn:Eu; [|done].
  destruct (ownerID "-gid" (flGID fl) (u32 getgid)) as [gid|] eqn:Eg; [|done]. intros [= <-]. cbn.
  apply ownerID_spec in Eu, Eg; [|apply u32_range..].
  assert (Hcs : u32 (u32 (flChunkKiB fl) * 1024) = flChunkKiB fl * 1024) by (unfold u32; rewrite !Z.mod_small; rewrite ?Z.mod_small; lia).
  rewrite Hcs. split; [unfold is_u32; lia|]. split; [lia|]. split; [done|]. split; [done|]. split.
  - unfold maxDirtyBytes. destruct (Z.leb_spec (flMaxDirty fl) 0); cbn [orb]; [lia|].
    destruct (Z.ltb_spec (Z.shiftr maxInt64 20) (flMaxDirty fl)) as [Hl|Hl].
    + left. change (Z.shiftr maxInt64 20) with (2 ^ 43 - 1) in Hl. unfold maxInt64. lia.
    + right. destruct (shl20_exact (flMaxDirty fl)) as [-> ?]; [lia|]. lia.
  - unfold cacheBytes. destruct (Z.leb_spec (flCacheMiB fl) 0); [unfold maxInt64; lia|].
    destruct (Z.ltb_spec (Z.shiftr maxInt64 20) (flCacheMiB fl)) as [Hl|Hl].
    + change (Z.shiftr maxInt64 20) with (2 ^ 43 - 1) in Hl. unfold maxInt64. lia.
    + destruct (shl20_exact (flCacheMiB fl)) as [-> ?]; lia.
Qed.

Definition demoFlags : flags := mkFlags "s3://b" "" "us-east-1" false false 1024 256 5000000000 10 (2 ^ 45) true false (-1) 100.

Lemma configure_exact_witness :
  exists cfg, configure demoFlags 1000 1000 = Ok cfg /\ ChunkSize cfg = 1048576 /\ idFor (-1) 1000 (OwnerUID cfg) /\ CacheBytes cfg = 2 ^ 28.
Proof.
  eexists. split; [reflexivity|].
  destruct (configure_exact demoFlags 1000 1000 _ ltac:(vm_compute; split; discriminate) ltac:(vm_compute; split; discriminate) eq_refl) as ([H1 _]&_&H2&_&_&H3).
  split; [exact H1|]. split; [exact H2|exact H3].
Defined.
