(* ===== verification/Session.v ===== *)
(** * From the mount to the exit (cmd/strata/main.go run, FS.Run, committer)

    A process mounts, serves calls while the committer syncs at its ticks, and
    makes the final commit however serving ended. [ticks] gives, for each tick,
    the calls served before it; the committer's own last Sync, on the end of
    serving, may or may not get to run before the process ends. The process does
    not wait for calls in flight: [seLate] are those that run after the final
    commit and before the exit. A signal, the end of [Serve] and a failure to
    listen are values of [ending]. *)

From Stdlib Require Import Strings.Byte.
From stdpp Require Import sorting.
From S2P Require Import Prelude Vfs Fsm Modes Policy Inode ChunkCache Budget Store FsState Tree Namespace.
From S2P Require Import NamespaceInv NamespaceSpec Effects Data DataSpec FileSpec DataInv ReadDir Commit WritePath Keeps Durable.
From S2P Require Import CommitSpec SyncSpec Whole System Mount Concrete Demo DataProps CommitProps Flags.

(** How serving ended. *)
Inductive ending := Signalled | ServeReturned (e : option error) | ListenFailed (e : error).

Definition cause (e : ending) : option error :=
  match e with
  | Signalled | ServeReturned None => None
  | ServeReturned (Some e) => Some (EWrap "serve" e)
  | ListenFailed e => Some (EWrap "listen on" e)
  end.

Record session := mkSession {
  seTicks : list (list sysop * tick);
  seLast : list sysop;
  seShut : option tick;
  seEnding : ending;
  seLate : list sysop
}.

Section Session.
Context {Cd : Codec} {W : Type} {St : Store W} {Dg : Digest} {Ro : RunOrder} {P : Policy}.

(** The errors of a periodic commit are logged. *)
Definition committer (ticks : list (list sysop * tick)) (last : list sysop) (shut : option tick) : act W unit :=
  let! _ := forEach_ ticks (fun r => let! _ := execAll r.1 in let! _ := attempt (Sync r.2) in ret tt) in
  let! _ := execAll last in
  match shut with Some t => let! _ := attempt (Sync t) in ret tt | None => ret tt end.

Definition Run (ticks : list (list sysop * tick)) (last : list sysop) (shut : option tick) : act W unit :=
  let! f := getFS in
  if bool_decide (mode f = mountReadOnly) then execAll (concat (map fst ticks) ++ last) else committer ticks last shut.

Definition serving (s : session) (s0 : FS * W) : FS * W :=
  match seEnding s with ListenFailed _ => s0 | _ => (Run (seTicks s) (seLast s) (seShut s) s0).2 end.

End Session.

(** [run] after the flags: the errors it returns, and the bucket the process
    leaves. *)
Definition runSession {Cd : Codec} {W} {St : Store W} {Dg : Digest} {Ro : RunOrder} {P : Policy}
    (cfg : Config) (writer : string) (t : tick) (now : Z) (s : session) (final : tick) (w : W) : list error * W :=
  match New cfg writer t now w with
  | (Err e, w) => ([e], w)
  | (Ok f, w) =>
      let store := if ReadOnlyMount cfg then ReadOnly St else St in
      let (errs, s1) := finalCommit (cause (seEnding s)) (serving (St := store) s) (Sync (St := store) final) (f, w) in
      (errs, (execAll (St := store) (seLate s) s1).2.2)
  end.

(** ** Serving as a sequence of calls *)

Section Spec.
Context {Cd : Codec} {W : Type} {St : Store W} {Vw : StoreView W} {Lw : StoreLaws W}
  {Dg : Digest} {Hx : HexDigest} {Ro : RunOrder} {P : Policy} {TC : TypeChecked P}.

Lemma exec_ok op s : exists b s', exec op s = (Ok b, s').
Proof using Type.
  destruct op; cbn [exec]; unfold onFS, succeeded, bind, attempt, ret.
  - destruct (perform s.1 op). by eexists _, _.
  - destruct (SetAttr_ _ _ _ _ _). by eexists _, _.
  - destruct (Read c h off count s). by eexists _, _.
  - destruct (Write c h off data how ts now t s). by eexists _, _.
  - destruct (Commit h t s). by eexists _, _.
  - destruct (Sync t s). by eexists _, _.
Qed.

Lemma execAll_ok ops s : exists s', execAll ops s = (Ok tt, s').
Proof using Type.
  revert s. unfold execAll. induction ops as [|op ops IH]; intros s; cbn [forEach_]; [by eexists|].
  destruct (exec_ok op s) as (b&s1&He). destruct (IH s1) as [s2 H2]. exists s2. unfold bind at 1. unfold bind at 1. by rewrite He.
Qed.

Lemma execAll_app a b s : (execAll (a ++ b) s).2 = (execAll b (execAll a s).2).2.
Proof using Type.
  revert s. induction a as [|op a IH]; intros s; [done|]. destruct (exec_ok op s) as (x&s1&He).
  assert (H : forall l, execAll (op :: l) s = execAll l s1) by (intros l; unfold execAll; cbn [forEach_]; unfold bind at 1; unfold bind at 1; by rewrite He).
  cbn [app]. by rewrite !H.
Qed.

Lemma execAll_sync t s : (execAll [CallSync t] s).2 = (attempt (Sync t) s).2.
Proof using Type. unfold execAll, exec, succeeded, attempt, forEach_, bind, ret. by destruct (Sync t s). Qed.

(** The calls of a session, the committer's among them. *)
Definition callsOf (s : session) : list sysop :=
  concat (map (fun r => r.1 ++ [CallSync r.2]) (seTicks s)) ++ seLast s ++ match seShut s with Some t => [CallSync t] | None => [] end.

Lemma committer_calls ticks last shut s :
  (committer ticks last shut s).2 = (execAll (concat (map (fun r => r.1 ++ [CallSync r.2]) ticks) ++ last ++
    match shut with Some t => [CallSync t] | None => [] end) s).2.
Proof using Type.
  unfold committer. assert (Hloop : forall s, exists s', forEach_ ticks (fun r => let! _ := execAll r.1 in let! _ := attempt (Sync r.2) in ret tt) s = (Ok tt, s') /\
    s' = (execAll (concat (map (fun r => r.1 ++ [CallSync r.2]) ticks)) s).2).
  { clear s. induction ticks as [|[l t] ticks IH]; intros s; cbn [forEach_ map concat]; [by eexists|]. destruct (execAll_ok l s) as [s1 H1].
    cbn [fst snd]. rewrite !execAll_app, execAll_sync. unfold bind at 1. unfold bind at 1. rewrite H1. cbn [snd]. unfold bind at 1, attempt at 1. unfold attempt.
    destruct (Sync t s1) as [r s2]. cbn [snd]. unfold ret at 1. apply IH. }
  destruct (Hloop s) as (s1&H1&->). unfold bind at 1. rewrite H1. rewrite !execAll_app. set (s1 := (execAll _ s).2) in *.
  destruct (execAll_ok last s1) as [s2 H2]. unfold bind at 1. rewrite H2. cbn [snd]. destruct shut as [t|]; [|done].
  rewrite execAll_sync. unfold bind, attempt, ret. by destruct (Sync t s2).
Qed.

(** Serving is a sequence of calls of the session. *)
Lemma serving_calls s s0 : exists ops, serving s s0 = (execAll ops s0).2 /\ ops ⊆ callsOf s /\ (length ops <= length (callsOf s))%nat.
Proof using Type.
  unfold serving. assert (Hrun : exists ops, (Run (seTicks s) (seLast s) (seShut s) s0).2 = (execAll ops s0).2 /\ ops ⊆ callsOf s /\ (length ops <= length (callsOf s))%nat).
  { unfold Run, bind at 1, getFS. case_bool_decide; [|by exists (callsOf s); rewrite committer_calls].
    exists (concat (map fst (seTicks s)) ++ seLast s). split; [done|]. unfold callsOf. split.
    - intros op. rewrite !elem_of_app. intros [Hin|?]; [left|auto]. revert Hin. induction (seTicks s) as [|r l IH]; cbn [map concat]; [done|].
      rewrite !elem_of_app. intros [?|?]; auto.
    - rewrite !length_app. assert (length (concat (map fst (seTicks s))) <= length (concat (map (fun r => r.1 ++ [CallSync r.2]) (seTicks s))))%nat; [|lia].
      induction (seTicks s) as [|r l IH]; cbn [map concat]; [done|]. rewrite !length_app. lia. }
  destruct (seEnding s); [exact Hrun..|]. exists []. split; [done|]. split; [apply list_subseteq_nil|cbn; lia].
Qed.

(** ** Calls after the final commit *)

(** A call that commits nothing: a read, a namespace or attribute change, or an
    unstable WRITE that no drain is made for. *)
Definition commitsNothing (op : sysop) : Prop :=
  match op with
  | CallNs _ | CallSetAttr _ _ _ _ | CallRead _ _ _ _ => True
  | CallWrite _ _ _ _ how ts _ _ => how = Unstable /\ ts = []
  | CallCommit _ _ | CallSync _ => False
  end.

Lemma gained_framed (w0 : W) : framed (fun s : FS * W => gained w0 s.2).
Proof using Lw.
  assert (Hsame : forall w w', objects w' = objects w -> gained w0 w -> gained w0 w').
  { intros w w' Ho Hg. eapply gained_trans; [exact Hg|]. apply gained_same; [done|apply Hg]. }
  split; try done; cbn [snd]; intros k f w Hg.
  - by eapply Hsame; [apply get_frame|].
  - by eapply Hsame; [apply head_frame|].
  - assert (Ho : objects (Put (chunkKey (sha k)) k w).2 = objects w \/ objects (Put (chunkKey (sha k)) k w).2 = <[chunkKey (sha k) := k]> (objects w)).
    { destruct (Put (chunkKey (sha k)) k w).1 as [[]|e] eqn:E; [right; by apply put_ok; [apply key_chunk|]|by eapply put_err; [apply key_chunk|]]. }
    destruct Ho as [Ho|Ho]; [by eapply Hsame|]. destruct Hg as [G1 G2 G3]. split.
    + intros j. specialize (G1 j). rewrite Ho, lookup_insert. case_decide as Hj; [|done]. subst j. destruct (objects w0 !! _) as [d|] eqn:Ed; [|done].
      destruct (objects w !! chunkKey (sha k)) as [d'|] eqn:Ed'; [|done]. cbn in *. subst d'. rewrite (G3 _ _ Ed'). apply unsha_sha.
    + by rewrite Ho, lookup_insert_ne by apply chunkKey_root.
    + intros h d. rewrite Ho, lookup_insert. case_decide as Hj; [|apply G3]. apply chunkKey_inj in Hj as <-. intros [= <-]. by rewrite unsha_sha.
Qed.

Lemma exec_gained (w0 : W) op : commitsNothing op -> keeps (fun s : FS * W => gained w0 s.2) (exec op).
Proof using Lw.
  pose proof (gained_framed w0) as Hf. destruct op as [op|c h sa now|c h off count|c h off data how ts now t|h t|t]; cbn [exec commitsNothing]; try done; unfold succeeded.
  - intros _. by apply keeps_onFS.
  - intros _. by apply keeps_onFS.
  - intros _. apply keeps_bind; [|intros; apply keeps_ret]. apply keeps_attempt. by apply Read_keeps.
  - intros [-> ->]. apply keeps_bind; [|intros; apply keeps_ret]. apply keeps_attempt. unfold Write, bufferWrite, await, onBudget.
    repeat (apply (bwLoop_keeps _ Hf) || (apply keeps_onFS; by intros) || (apply keeps_modFS; by intros) || keeps_step).
    match goal with |- keeps _ (awaitLoop _ ?c) => by destruct c as [| | |[]]; cbn [awaitLoop]; repeat keeps_step end.
Qed.

Lemma late_gained (f : FS) (w : W) ops : contentOK w -> Forall commitsNothing ops -> gained w (execAll ops (f, w)).2.2.
Proof using Lw.
  intros Hc Hops. assert (Hk : keeps (fun s : FS * W => gained w s.2) (execAll ops)); [|apply Hk; by apply gained_refl].
  unfold execAll. apply keeps_forEach_. intros op Hin. rewrite list.Forall_forall in Hops. apply keeps_bind; [by apply exec_gained, Hops|]. intros. apply keeps_ret.
Qed.

(** A mount made after a Sync and calls that commit nothing. *)
Lemma Sync_late_remount cfg writer t t2 now f w f1 w1 ops g w2 :
  configOK cfg -> utf8 writer = true -> sound f w -> Sync t (f, w) = (Ok tt, (f1, w1)) -> Forall commitsNothing ops ->
  New cfg writer t2 now (execAll ops (f1, w1)).2.2 = (Ok g, w2) -> sameOnRemount f g.
Proof using Lw Hx.
  intros Hcfg Hwr [Hg Hh He Hc] Hsy Hops Hnew. destruct (Sync_full t f w _ f1 w1 Hg Hh He Hc Hsy) as [[Hg1 Hh1 He1 Hsc Hc1] Hok].
  destruct (Hok eq_refl) as (Hcom&Hdr&_&_). pose proof (late_gained f1 w1 ops (h_content _ _ Hh1) Hops) as Hga. set (w' := (execAll ops (f1, w1)).2.2) in *.
  assert (Hcom' : committed f1 w') by by eapply committed_gained.
  assert (Hs : sound f1 w') by (split; [done|eapply held_gained; [exact Hh1|exact Hga|done|by left]|done|by intros _]).
  destruct (committed_remount cfg writer t2 now f1 w' g w2 Hcfg Hwr Hs Hcom' Hdr Hnew) as (_&_&Hgone&Hfile).
  split; [|intros id; eapply fileAs_trans; [by apply sameContents_file|apply Hfile]].
  intros id Hid. apply Hgone. destruct Hsc as (k&Hsf&Hns). rewrite (ns_inodes _ _ Hns). by apply (sf_gone _ _ Hsf).
Qed.

(** C19 A clean exit loses nothing that was served before the final commit: when a
    writable process returns no error, then however serving ended it ended
    without one, and a mount made of the bucket afterwards, by any process, is
    sound and has exactly the inodes the mount had when the final commit began,
    each with its attributes, times included, its size and every byte, whichever
    of the committer's Syncs failed on the way. Calls still in flight then may
    run on until the process ends: of those that fall after the final commit,
    what they change is not there, as long as they commit nothing themselves. *)
Theorem clean_exit_durable cfg writer t now s final w w' cfg2 writer2 t2 now2 g w2 :
  configOK cfg -> ReadOnlyMount cfg = false -> utf8 writer = true -> contentOK w -> rootOK w -> Forall argsOK (callsOf s ++ seLate s) ->
  (forall f0 w0, New cfg writer t now w = (Ok f0, w0) -> nextIno f0 + blen (callsOf s ++ seLate s) < 2 ^ 64) ->
  runSession cfg writer t now s final w = ([], w') ->
  configOK cfg2 -> utf8 writer2 = true -> New cfg2 writer2 t2 now2 w' = (Ok g, w2) ->
  cause (seEnding s) = None /\
  exists f0 w0 f1 w1, New cfg writer t now w = (Ok f0, w0) /\ serving s (f0, w0) = (f1, w1) /\ sound f1 w1 /\ sound g w2 /\
    (Forall commitsNothing (seLate s) -> sameOnRemount f1 g).
Proof using Lw Hx TC.
  intros Hcfg Hro Hwr Hc Hr Ha Hb Hrun Hcfg2 Hwr2 Hnew. unfold runSession in Hrun. destruct (New cfg writer t now w) as [[f0|e] w0] eqn:En; [|done].
  destruct (New_inv cfg writer t now w f0 w0 Hcfg Hwr Hc Hr En) as (Hs0&_). rewrite Hro in Hrun. unfold finalCommit in Hrun.
  destruct (serving s (f0, w0)) as [f1 w1] eqn:Es. destruct (serving_calls s (f0, w0)) as (ops&Hops&Hsub&Hlen). rewrite Es in Hops.
  destruct (execAll_ok ops (f0, w0)) as [[f1' w1'] He]. rewrite He in Hops. cbn [snd] in Hops. injection Hops as <- <-.
  apply Forall_app in Ha as [Ha Hlate]. specialize (Hb f0 w0 eq_refl). unfold blen in Hb. rewrite length_app in Hb.
  destruct (execAll_bound ops f0 w0 _ f1 w1 Hs0 ltac:(unfold blen; lia) ltac:(rewrite list.Forall_forall in *; intros op Hop; apply Ha; by apply Hsub) He) as [Hs1 Hn1].
  destruct (Sync final (f1, w1)) as [[[]|e] [f2 w3]] eqn:Esy; injection Hrun as Herr <-; [|by destruct (cause (seEnding s))].
  destruct (Sync_sound _ _ _ _ _ _ Hs1 Esy) as [[Hs2 Hn2] _].
  destruct (execAll_ok (seLate s) (f2, w3)) as [[f4 w4] Hl].
  destruct (execAll_bound (seLate s) f2 w3 _ f4 w4 Hs2 ltac:(unfold blen in *; lia) Hlate Hl) as [[_ Hh4 _ _] _].
  split; [by destruct (cause (seEnding s))|]. exists f0, w0, f1, w1. split; [done|]. split; [done|]. split; [done|]. split.
  - rewrite Hl in Hnew. cbn [snd] in Hnew. by destruct (New_inv cfg2 writer2 t2 now2 w4 g w2 Hcfg2 Hwr2 (h_content _ _ Hh4) (h_root _ _ Hh4) Hnew) as (?&_).
  - intros Hcn. by eapply (Sync_late_remount cfg2 writer2 final t2 now2 f1 w1 f2 w3).
Qed.

End Spec.

(** ** A session *)

(** One tick whose commit fails twice over, a write after it, a signal, and a
    write after the final commit. *)
Definition aSession : session := mkSession
  [([CallNs (NCreate owner rootHandle "f" noSetAttr true 20 21)], tk 2)]
  [CallWrite owner fileHandle 10 hello Unstable [] 30 (tk 5)] None Signalled
  [CallWrite owner fileHandle 0 hello Unstable [] 31 (tk 6)].

Definition roughBucket : Bucket.world := Bucket.mkWorld ∅ [Bucket.Normal; Bucket.Normal; Bucket.FailBefore].

Definition afterSession : list error * Bucket.world := runSession smallConfig "host/1" (tk 1) 7 aSession (tk 3) roughBucket.

Definition mountedAgain : FS * Bucket.world := cameUp demo (New smallConfig "host/2" (tk 4) 99 afterSession.2).

Lemma mountedAgain_run : New smallConfig "host/2" (tk 4) 99 afterSession.2 = (Ok mountedAgain.1, mountedAgain.2).
Proof. apply (run_cameUp demo _ mountedAgain); [reflexivity|run_it]. Qed.

(** What was written after the failed commit is there after the remount; what was
    written after the final one is not. *)
Example session_byte : okValue ([], false) (Read owner fileHandle 10 1 mountedAgain).1 = ([x68], false) /\
  okValue ([], false) (Read owner fileHandle 0 1 mountedAgain).1 = ([x00], false).
Proof. split; run_it. Qed.

Lemma afterSession_run : runSession smallConfig "host/1" (tk 1) 7 aSession (tk 3) roughBucket = ([], afterSession.2).
Proof. apply (run_pair _ [] afterSession.2); [reflexivity|run_it]. Qed.

Lemma aSession_ok : Forall argsOK (callsOf aSession ++ seLate aSession).
Proof. repeat constructor; vm_compute; discriminate. Qed.

Definition firstMount : FS * Bucket.world := cameUp demo (New smallConfig "host/1" (tk 1) 7 roughBucket).

Lemma firstMount_run : New smallConfig "host/1" (tk 1) 7 roughBucket = (Ok firstMount.1, firstMount.2).
Proof. apply (run_cameUp demo _ firstMount); [reflexivity|run_it]. Qed.

Lemma ok_inj {A B E} (a c : A) (b d : B) : (@Ok E A a, b) = (Ok c, d) -> c = a.
Proof. congruence. Qed.

Lemma firstMount_next : nextIno firstMount.1 + blen (callsOf aSession ++ seLate aSession) < 2 ^ 64.
Proof. run_it. Qed.

Lemma clean_exit_durable_witness : sound mountedAgain.1 mountedAgain.2 /\
  exists f0 w0 f1 w1, New smallConfig "host/1" (tk 1) 7 roughBucket = (Ok f0, w0) /\ serving aSession (f0, w0) = (f1, w1) /\ sameOnRemount f1 mountedAgain.1.
Proof.
  assert (Hb : forall f0 w0, New smallConfig "host/1" (tk 1) 7 roughBucket = (Ok f0, w0) -> nextIno f0 + blen (callsOf aSession ++ seLate aSession) < 2 ^ 64).
  { intros f0 w0 H. rewrite firstMount_run in H. rewrite (ok_inj _ _ _ _ H). exact firstMount_next. }
  assert (Hc : contentOK roughBucket) by (intros h d H; discriminate H).
  assert (Hr : rootOK roughBucket) by (intros raw H; discriminate H).
  destruct (clean_exit_durable smallConfig "host/1" (tk 1) 7 aSession (tk 3) roughBucket afterSession.2 smallConfig "host/2" (tk 4) 99
    mountedAgain.1 mountedAgain.2 smallConfig_ok eq_refl eq_refl Hc Hr aSession_ok Hb afterSession_run smallConfig_ok eq_refl mountedAgain_run)
    as (_&f0&w0&f1&w1&Hn&Hse&Hs1&Hs&Hrem).
  split; [exact Hs|]. exists f0, w0, f1, w1. split; [exact Hn|]. split; [exact Hse|]. apply Hrem. repeat constructor.
Defined.
